(* ===== verification/_CoqProject ===== *)
-Q . S2P
Prelude.v
Octets.v
Varint.v
BytesOrder.v
Marshal.v
Session.v
Protocol.v
DoubleBuffer.v
Reactor.v
Signals.v
Network.v
Connect.v
TimeWheel.v
Rpc.v
ObjectPool.v
Text.v
Random.v
Cli.v
Metrics.v
Monitor.v
Uri.v
Http.v
Buffers.v
Threads.v
Wakeup.v
LeftRight.v
ThreadPool.v
AsyncPool.v
Balance.v
Address.v
Config.v
HttpClient.v
Servlet.v
LogFormat.v
LogAppender.v
ConcurrentBuffer.v
Observers.v
Mysql.v
Startup.v
Format.v
LogEvent.v
RemoteLog.v
LogFile.v
RwLock.v
HttpSession.v
HttpFront.v
Programs.v
Ownership.v
Delivery.v
Process.v
Containers.v
PoolStress.v
Dumps.v
