(* ===== verification/Prelude.v ===== *)
(** Verification of cassobee, a C++ server framework (source/bee/), with
    its programs (source/casso/, source/client/, source/logserver/).

    * The program

    A process runs one reactor (io/reactor.cpp), a loop over epoll that hands
    ready descriptors to events (io/ioevent.cpp, io/sslio_event.cpp), due timers
    to the timer queue and wake-ups to the change list.  A stream event moves
    bytes between the kernel and its session (io/session.cpp), which cuts the
    bytes into messages (io/protocol.cpp) with the serialisation of
    common/marshal.h, or into HTTP messages (http/httpprotocol.cpp), and hands
    each one to the thread pool (thread/threadpool.cpp).  A session manager
    (io/session_manager.cpp) owns the sessions of one listening or connecting
    end; rpc (io/rpc.cpp), the HTTP client and the HTTP server are managers and
    messages of their own.  The timer thread (common/timewheel.cpp) runs on its
    own, and so does the thread of the asynchronous log appender.  The rest are
    libraries: buffers, pools, locks, left-right containers, strings, addresses,
    configuration, logging, monitoring, observers, the command line, MySQL.

    * The files

    Prelude (this file): machine integers, [outcome], the state-and-error
    monad [M], lemmas on lists that several files use.

    Data and its coding.
    - Octets: common/octets.h.  An [octets] is capacity, length and cells, of
      which those behind the length are uninitialised memory ([None]).
    - Varint: common/varint.h.  BytesOrder: io/bytes_order.h.
    - Marshal: common/marshal.h.  [octetsstream] is an octets with a cursor and
      a transaction mark; [push] and [pop] are the members of a class with one
      instance per overload, and [pod_class] says whether a vector of the type is
      copied as memory (numbers, in the byte order of the host) or element by
      element.
    - Containers: the sets, multimaps and tables that a stream can hold, over the
      class [Placing] of where an element goes, and the trial of casso's main.
    - Text: common/common.cpp, utility/util.cpp.  Uri: http/uri.cpp.  Address:
      io/address.h, io/address.cpp.
    - Buffers: utility/ring_buffer.h, fixed_buffer.h, block_list.h.
    - Random: common/randgen.h, randgen.cpp.
    - Metrics: monitor/metric.h with the [double] it prints.  Format: the texts of
      values and the stream of format/.  Dumps: the texts of messages.

    The server.
    - Session, Protocol, DoubleBuffer, Reactor, Network, Connect: io/ and the
      change list of thread/double_buffer.h.  Protocol is written against the
      class [ProtocolBody], the interface of a message type, and [BodyLaw], what
      it promises; Rpc instantiates it.
    - Ownership: the destructors of sessions and events, which delete each other,
      and that of the reactor, which skips the events that are to be closed.
    - Delivery: two sessions connected to each other, with their events and the
      kernel's buffers between them: the composition of Session, Protocol,
      Reactor and Network, step by step.
    - Rpc: io/rpc.cpp.  Balance: utility/load_balance.h, io/traffic_shaper.h,
      common/id_gen.h.
    - Http, HttpClient, Servlet: http/.  HttpSession: its connections, and how
      they are accepted and made known.  HttpFront: starting client and server.
    - TimeWheel: common/timewheel.cpp.  Config: common/config.cpp.
    - Startup: what starts and stops a reactor and a session manager.  Signals:
      from a signal's handler to the function that the reactor has for it, with
      functions added and deleted through the change list.
    - LogFormat, LogAppender, LogFile, LogEvent, RemoteLog: log/,
      source/logclient/ and source/logserver/.  LogFile is written against the
      class [Rotator], the interface of what decides when files change.  Monitor: monitor/.
    - Cli: cli/ and client/app_command.h.  Programs: the main functions of
      source/casso, source/client and source/logserver.  Process: clocks, signal
      dispositions, descriptor flags, processor masks, and the calls of
      security/ over what the library computes.
    - Observers: common/observer.h, common/event_dispatcher.h,
      utility/delegate.h, common/entity.h.
    - Mysql: database/mysql/.

    Threads.
    - Threads: the spin locks of thread/lock.h and what the machines share.
      RwLock: the locks that wrap a library's, as interfaces with instances.
    - ObjectPool (common/objectpool.h), LeftRight (thread/left_right.h and the
      lr containers), ThreadPool (thread/threadpool.cpp), AsyncPool
      (thread/async_threadpool.h), PoolStress (the stress test of the pool in
      casso's main), ConcurrentBuffer (thread/double_buffer.h),
      Wakeup (the reactor's flag and eventfd, from [reactor::init] on).
      The pool of ThreadPool deletes its groups when it stops; a step that uses a
      deleted group ends the run as undefined ([tp_dangling]).

    Some files are compiled with threads and without ([_REENTRANT]).  Where the
    two differ in more than locks, the build is a parameter (HttpClient).

    * How code becomes definitions

    A member function is a definition of the same name on the record of its
    object (with the class in front where the name alone is not unique).  What
    it reads is an argument, what it changes is its result.  Integers are [Z],
    brought back to their width by [u8] ... [s64] where the code converts or
    computes.  A function that can throw or that can be undefined has type
    [outcome]: [Ok], [Throw] with the exception, [Fault] with what goes wrong.  A
    function that changes its object and may fail is in the monad [M], in which
    a failure keeps the state reached, as in the code.  Objects that point to
    each other or that several objects refer to live in a heap ([gmap] from
    addresses), in which a deleted object is absent, so that using it is [UB].

    Where threads meet, the component is a machine: [Inductive] or executable
    steps over a shared state and the program counters of any number of
    threads, chosen by a scheduler ([list] of choices), one access to shared
    memory or one region under a lock per step.  Memory is sequentially
    consistent: memory orders are not distinguished.

    What is outside the source is a parameter, or a list of answers: the
    kernel's results of recv, send, read, accept, connect and epoll_wait, the
    results of OpenSSL and of the MySQL driver, the clock, the random engine,
    which order a hash table is walked in, the user's callbacks, the file system's
    permissions.

    * What is proved

    - Round trips: variable-length integers, byte order, every serialisable
      type, frames, rpc messages, log events, uris, percent encoding,
      configuration text.
    - Refinement: octets to lists, the ring buffer to a queue, the timer list to
      a finite map, the change list of the reactor to the calls made, the
      left-right object to an atomic register of the instance (linearizability),
      the ticket lock to a queue, the dispatcher of servlets to the history of
      its registrations, the log files to a store of lines.
    - Safety and invariants: no input makes the decoders read outside the buffer;
      bytes are neither lost nor doubled between the kernel, the session and its
      messages; every task of the thread pool, every call, every request and
      every slot of a pool is accounted for exactly once in every interleaving; what
      one end of a connection is told to send is what the other end delivers, in
      this order, as far as it has come, for messages whose size the size table
      measures right (Delivery); the objects of a connection are destroyed once;
      the change list hands over every round of what was written, whatever its
      container; the two windows, and no other, in which the reactor loses a
      wake-up; the token bucket's rate bound while the clock does not run back.
    - Liveness and termination: everything sent on a connection arrives when both
      ends go on and the reader's stream has room, unless the reading end closes;
      no lost wake-up in the thread pools (without stealing), readers and writers of left-right finish
      within a number of their own steps, the reactor's loop ends by a stop.
    - Errors: what partial or hostile input does, and the components that cannot
      work as written: the HTTP decoder (Http) and what follows from it for a
      session, a message whose header is cut by the network (Delivery), a second
      HTTP connection (HttpSession), the client's responses (HttpClient), the
      concurrent double buffer, reading from an encrypted connection, leaving the
      command line.  The findings of
      the manifest name the lemma behind each.

    * Fuel and bounds

    Loops that are not structural take fuel, and the theorems state that enough
    fuel gives the result or define the operation with enough of it:
    [write_varint] 10 (7 * 10 bits cover 64); [on_recv] the length of the stream
    and one (a message has at least one byte); [run_timers] the length of the
    queue; the loops of the ring buffer the length of the data and one;
    [split], [parse_pattern] and [scan_item], [parse_tokens], [stat_tokens] the
    length of the input and one; digits of an integer 20 (64 bits have at most
    20), of the integral part of a double 320; [advance_loop] the number of
    pending nodes; [delete_command] the number of commands and one.

    Bounds: [MAX_OCTETS] is 2^62 because [frob_size] rounds a size up to a power
    of two, which is to stay below [PTRDIFF_MAX]; [MAX_TRACEID] is 2147483
    because a timer of rpc multiplies by 1000 in 32 bits; the lock-free pool is
    proved for fewer than 2^64 steps (its version counter), left-right for fewer
    than 2^64 - 1 readers, the ticket lock for fewer than 2^32 threads.

    * Not modelled

    The wrappers of the kernel's calls; OpenSSL (what encryption computes is a
    parameter) and the MySQL client; the templates that only compute types
    (traits/, meta/); the lines of the local log; the benchmarks and the generator
    of messages (tools/), which is Python, and what it generates. *)

From Stdlib Require Export ZArith Lia Strings.Byte.
From stdpp Require Export base tactics option list numbers strings gmap.

#[export] Set Default Goal Selector "!".

Declare Scope bee_scope.
Delimit Scope bee_scope with bee.
Global Open Scope Z_scope.

(** ** Machine integers

    An integer of the program is a [Z] in the range of its type; every
    conversion and every arithmetic operation that can leave the range is
    followed by one of these two functions. *)

Definition wrapU (w z : Z) : Z := z mod 2 ^ w.
Definition wrapS (w z : Z) : Z := (z + 2 ^ (w - 1)) mod 2 ^ w - 2 ^ (w - 1).

Definition inU (w z : Z) : Prop := 0 <= z < 2 ^ w.
Definition inS (w z : Z) : Prop := - 2 ^ (w - 1) <= z < 2 ^ (w - 1).

Abbreviation u8 := (wrapU 8).
Abbreviation u16 := (wrapU 16).
Abbreviation u32 := (wrapU 32).
Abbreviation u64 := (wrapU 64).
Abbreviation s32 := (wrapS 32).
Abbreviation s64 := (wrapS 64).

(** [PTRDIFF_MAX]: no array of the program is larger. *)
Definition PTRDIFF_MAX : Z := 2 ^ 63 - 1.

Lemma wrapU_range w z : 0 <= w -> inU w (wrapU w z).
Proof. intros. unfold inU, wrapU. apply Z.mod_pos_bound. lia. Qed.

Lemma wrapU_small w z : inU w z -> wrapU w z = z.
Proof. unfold inU, wrapU. apply Z.mod_small. Qed.

Lemma wrapS_range w z : 0 < w -> inS w (wrapS w z).
Proof.
  intros Hw. unfold inS, wrapS.
  pose proof (Z.mod_pos_bound (z + 2 ^ (w - 1)) (2 ^ w) ltac:(lia)).
  assert (2 ^ w = 2 * 2 ^ (w - 1)) by (rewrite <- Z.pow_succ_r by lia; f_equal; lia).
  lia.
Qed.

Lemma wrapS_small w z : 0 < w -> inS w z -> wrapS w z = z.
Proof.
  intros Hw Hz. unfold inS, wrapS in *.
  assert (2 ^ w = 2 * 2 ^ (w - 1)) by (rewrite <- Z.pow_succ_r by lia; f_equal; lia).
  rewrite Z.mod_small by lia. lia.
Qed.

(** Both conversions stay in the residue class of every narrower width. *)
Lemma wrapS_congr w wi z : 0 < w <= wi -> exists k, wrapS wi z = z + k * 2 ^ w.
Proof.
  intros Hw. unfold wrapS. rewrite Z.mod_eq by lia.
  exists (- ((z + 2 ^ (wi - 1)) / 2 ^ wi * 2 ^ (wi - w))).
  replace (2 ^ wi) with (2 ^ (wi - w) * 2 ^ w) at 1; [lia|].
  rewrite <- Z.pow_add_r by lia. f_equal; lia.
Qed.

Lemma wrapU_add w z k : 0 <= w -> wrapU w (z + k * 2 ^ w) = wrapU w z.
Proof. intros. unfold wrapU. apply Z.mod_add. lia. Qed.

Lemma testbit_high a w i : 0 <= a < 2 ^ w -> w <= i -> Z.testbit a i = false.
Proof.
  intros Ha Hi. destruct (decide (a = 0)) as [->|]; [apply Z.bits_0|].
  apply Z.bits_above_log2; [lia|].
  assert (Z.log2 a < w) by (apply Z.log2_lt_pow2; lia). lia.
Qed.

(** Joining bits above [s] to a number below [2 ^ s]. *)
Lemma lor_shiftl_add a x s :
  0 <= s -> 0 <= a < 2 ^ s -> Z.lor a (Z.shiftl x s) = a + x * 2 ^ s.
Proof.
  intros Hs Ha. rewrite <- Z.shiftl_mul_pow2 by done.
  assert (Z.land a (Z.shiftl x s) = 0) as Hl.
  { apply Z.bits_inj'. intros i Hi. rewrite Z.land_spec, Z.bits_0.
    destruct (decide (i < s)).
    - by rewrite Z.shiftl_spec_low, andb_false_r by done.
    - destruct (decide (a = 0)) as [->|]; [by rewrite Z.bits_0|].
      rewrite (Z.bits_above_log2 a i); [done|lia|].
      assert (Z.log2 a < s) by (apply Z.log2_lt_pow2; lia). lia. }
  pose proof (Z.add_lor_land a (Z.shiftl x s)). lia.
Qed.

(** Arithmetic on 64-bit sizes, with the constant made visible to [lia]. *)
Ltac word_lia :=
  unfold inU, inS, PTRDIFF_MAX in *;
  change (2 ^ 64) with 18446744073709551616 in *;
  change (2 ^ 63) with 9223372036854775808 in *;
  change (2 ^ 32) with 4294967296 in *;
  change (2 ^ 31) with 2147483648 in *;
  change (2 ^ 16) with 65536 in *;
  change (2 ^ 8) with 256 in *;
  lia.

Ltac word_small := rewrite ?wrapU_small by word_lia.

(** ** Bytes *)

Definition Z_of_byte (b : byte) : Z := Z.of_N (Byte.to_N b).
Definition byte_of_Z (z : Z) : byte :=
  match Byte.of_N (Z.to_N (wrapU 8 z)) with Some b => b | None => x00 end.

Lemma Z_of_byte_range b : inU 8 (Z_of_byte b).
Proof.
  unfold inU, Z_of_byte. pose proof (Byte.to_N_bounded b).
  change (2 ^ 8) with 256. lia.
Qed.

Lemma Z_of_byte_of_Z z : Z_of_byte (byte_of_Z z) = wrapU 8 z.
Proof.
  unfold byte_of_Z. pose proof (wrapU_range 8 z ltac:(lia)) as Hr.
  destruct (Byte.of_N _) as [b|] eqn:E.
  - apply Byte.to_of_N in E. unfold Z_of_byte. rewrite E.
    unfold inU in Hr. lia.
  - apply Byte.of_N_None_iff in E. unfold inU in Hr.
    change (2 ^ 8) with 256 in Hr. lia.
Qed.

Lemma byte_of_Z_of_byte b : byte_of_Z (Z_of_byte b) = b.
Proof.
  unfold byte_of_Z. rewrite wrapU_small by apply Z_of_byte_range.
  unfold Z_of_byte. rewrite N2Z.id, Byte.of_to_N. done.
Qed.

Lemma byte_of_Z_inj a b : inU 8 a -> inU 8 b -> byte_of_Z a = byte_of_Z b -> a = b.
Proof.
  intros Ha Hb H. apply (f_equal Z_of_byte) in H.
  rewrite !Z_of_byte_of_Z, !wrapU_small in H; done.
Qed.

#[export] Instance byte_eq_dec : EqDecision byte.
Proof. intros a b. destruct (Byte.byte_eq_dec a b); [left|right]; done. Defined.

(** ** Outcomes

    [Throw] is a C++ exception that a [catch] of the program can observe;
    [Fault] is what no code of the program observes: undefined behaviour, a
    failed [assert] (the build type is Debug, so asserts are active), or waiting
    for ever ([Blocked]). *)

Inductive exn :=
  | ExnStream (msg : string)       (* octetsstream::exception *)
  | ExnProtocol (msg : string)     (* protocol::exception *)
  | ExnOverflow (msg : string)     (* std::overflow_error *)
  | ExnOutOfRange (msg : string)   (* std::out_of_range *)
  | ExnInvalidArg (msg : string)   (* std::invalid_argument *)
  | ExnRuntime (msg : string)      (* std::runtime_error *)
  | ExnLength (msg : string)       (* std::length_error *)
  | ExnBadAlloc.                   (* std::bad_alloc and its subclasses *)

Inductive fault :=
  | UB (what : string)
  | AssertFail (what : string)
  | Blocked (what : string)
  | OutOfFuel.

Inductive outcome (A : Type) :=
  | Ok (a : A)
  | Throw (e : exn)
  | Fault (f : fault).
Arguments Ok {A} _.
Arguments Throw {A} _.
Arguments Fault {A} _.

#[export] Instance outcome_ret : MRet outcome := fun A a => Ok a.
#[export] Instance outcome_bind : MBind outcome := fun A B k c =>
  match c with Ok a => k a | Throw e => Throw e | Fault f => Fault f end.

Definition is_ok {A} (o : outcome A) : bool :=
  match o with Ok _ => true | _ => false end.

Lemma outcome_bind_Ok {A B} (c : outcome A) (k : A -> outcome B) b :
  c ≫= k = Ok b -> exists a, c = Ok a /\ k a = Ok b.
Proof. destruct c; simpl; intros; simplify_eq; eauto. Qed.

(** ** The state-and-error monad

    A member function of a class with state [S] that returns an [A].  The
    state survives a [Throw]: C++ does not roll back the object. *)

Definition M (S A : Type) : Type := S -> S * outcome A.

#[export] Instance M_ret S : MRet (M S) := fun A a s => (s, Ok a).
#[export] Instance M_bind S : MBind (M S) := fun A B k c s =>
  match c s with
  | (s', Ok a) => k a s'
  | (s', Throw e) => (s', Throw e)
  | (s', Fault f) => (s', Fault f)
  end.

Definition get {S} : M S S := fun s => (s, Ok s).
Definition put {S} (s : S) : M S unit := fun _ => (s, Ok tt).
Definition modify {S} (f : S -> S) : M S unit := fun s => (f s, Ok tt).
Definition throw {S A} (e : exn) : M S A := fun s => (s, Throw e).
Definition fail {S A} (f : fault) : M S A := fun s => (s, Fault f).
Definition lift {S A} (o : outcome A) : M S A := fun s => (s, o).
(** [try { c } catch(...) { h }]; faults are not caught. *)
Definition try_catch {S A} (c : M S A) (h : exn -> M S A) : M S A := fun s =>
  match c s with
  | (s', Throw e) => h e s'
  | r => r
  end.

Lemma M_bind_ok {S A B} (c : M S A) (k : A -> M S B) s s' a :
  c s = (s', Ok a) -> (c ≫= k) s = k a s'.
Proof. intros H. unfold mbind, M_bind. by rewrite H. Qed.

Lemma M_bind_fault {S A B} (c : M S A) (k : A -> M S B) s s' f : c s = (s', Fault f) -> (c ≫= k) s = (s', Fault f).
Proof. intros H. unfold mbind, M_bind. by rewrite H. Qed.

(** Reading the state. *)
Lemma M_get {S A} (k : S -> M S A) s : (get ≫= k) s = k s s.
Proof. done. Qed.

(** Changing it. *)
Lemma M_modify {S A} (f : S -> S) (k : unit -> M S A) s : (modify f ≫= k) s = k tt (f s).
Proof. done. Qed.

(** Symbolic execution of the monad's primitives. *)
Ltac mrun :=
  cbv beta iota zeta delta [mbind M_bind mret M_ret get put modify lift throw fail
    outcome_bind outcome_ret] in *.

Lemma M_bind_inv {S A B} (c : M S A) (k : A -> M S B) s s'' b :
  (c ≫= k) s = (s'', Ok b) ->
  exists s' a, c s = (s', Ok a) /\ k a s' = (s'', Ok b).
Proof.
  unfold mbind, M_bind. destruct (c s) as [s' [a| |]]; intros; simplify_eq; eauto.
Qed.

(** ** Arrays of memory cells

    [None] is an indeterminate byte ([new char[n]] does not initialise). *)

Abbreviation cell := (option byte).

Definition len {A} (l : list A) : Z := Z.of_nat (length l).

Definition slice {A} (l : list A) (off n : Z) : list A :=
  take (Z.to_nat n) (drop (Z.to_nat off) l).

Definition blit {A} (dst : list A) (off : Z) (src : list A) : list A :=
  take (Z.to_nat off) dst ++ src ++ drop (Z.to_nat off + length src) dst.

(** Reading and writing [n] elements at [off]; outside the array it is
    undefined behaviour. *)
Definition in_array {A} (m : list A) (off n : Z) : bool :=
  (0 <=? off) && (0 <=? n) && (off + n <=? len m).

Definition mem_read {A} (m : list A) (off n : Z) : outcome (list A) :=
  if in_array m off n then Ok (slice m off n) else Fault (UB "read out of bounds").

Definition mem_write {A} (m : list A) (off : Z) (src : list A) : outcome (list A) :=
  if in_array m off (len src) then Ok (blit m off src) else Fault (UB "write out of bounds").

(** [memmove] inside one array: the source is read before it is written. *)
Definition mem_move {A} (m : list A) (dst src n : Z) : outcome (list A) :=
  s ← mem_read m src n; mem_write m dst s.

(** The bytes of a region, when all of them are initialised. *)
Definition cells_init (c : list cell) : outcome (list byte) :=
  match mapM (M := option) id c with
  | Some bs => Ok bs
  | None => Fault (UB "indeterminate value")
  end.

Definition new_char (n : Z) : outcome (list cell) :=
  if n <=? PTRDIFF_MAX then Ok (replicate (Z.to_nat n) None) else Throw ExnBadAlloc.

Lemma len_nonneg {A} (l : list A) : 0 <= len l.
Proof. unfold len. lia. Qed.
Lemma len_app {A} (l k : list A) : len (l ++ k) = len l + len k.
Proof. unfold len. rewrite length_app. lia. Qed.
Lemma len_cons {A} (x : A) l : len (x :: l) = 1 + len l.
Proof. unfold len. simpl. lia. Qed.
Lemma len_nil {A} : len (@nil A) = 0.
Proof. done. Qed.
Lemma len_replicate {A} n (x : A) : len (replicate n x) = Z.of_nat n.
Proof. unfold len. by rewrite length_replicate. Qed.
Lemma len_fmap {A B} (f : A -> B) l : len (f <$> l) = len l.
Proof. unfold len. by rewrite length_fmap. Qed.

Lemma len_slice {A} (l : list A) off n :
  0 <= off -> 0 <= n -> off + n <= len l -> len (slice l off n) = n.
Proof. unfold len, slice. intros. rewrite length_take, length_drop. lia. Qed.

Lemma len_blit {A} (dst : list A) off src :
  0 <= off -> off + len src <= len dst -> len (blit dst off src) = len dst.
Proof.
  unfold len, blit. intros. rewrite !length_app, length_take, length_drop. lia.
Qed.

(** The length of lists that are permutations of each other. *)
#[export] Instance len_proper {A} : Proper ((≡ₚ) ==> (=)) (@len A).
Proof. intros l k H. unfold len. by rewrite H. Qed.

Create HintDb bee discriminated.
Create Rewrite HintDb bee.
#[export] Hint Rewrite @len_app @len_cons @len_nil @len_replicate @len_fmap : bee.
#[export] Hint Resolve len_nonneg wrapU_range wrapS_range Z_of_byte_range : bee.

Lemma in_array_true {A} (m : list A) off n :
  in_array m off n = true <-> 0 <= off /\ 0 <= n /\ off + n <= len m.
Proof. unfold in_array. rewrite !andb_true_iff, !Z.leb_le. tauto. Qed.

Lemma mem_read_ok {A} (m : list A) off n :
  0 <= off -> 0 <= n -> off + n <= len m -> mem_read m off n = Ok (slice m off n).
Proof. intros. unfold mem_read. by rewrite (proj2 (in_array_true m off n)). Qed.

Lemma mem_write_ok {A} (m : list A) off src :
  0 <= off -> off + len src <= len m -> mem_write m off src = Ok (blit m off src).
Proof.
  intros. unfold mem_write.
  rewrite (proj2 (in_array_true m off (len src))); [done|].
  pose proof (len_nonneg src). lia.
Qed.

Lemma new_char_ok n : n <= PTRDIFF_MAX -> new_char n = Ok (replicate (Z.to_nat n) None).
Proof. intros. unfold new_char. by rewrite (proj2 (Z.leb_le _ _)). Qed.

(** One element of a list of lists of things replaced. *)
Lemma bind_insert {A B} (f : A -> list B) (l : list A) i x y :
  l !! i = Some x -> (<[i := y]> l ≫= f) ++ f x ≡ₚ (l ≫= f) ++ f y.
Proof.
  intros Hi. rewrite <- (take_drop_middle _ _ _ Hi) at 2.
  rewrite insert_take_drop by (by eapply lookup_lt_Some).
  rewrite !bind_app, !bind_cons. solve_Permutation.
Qed.

Lemma bind_insert_same {A B} (f : A -> list B) (l : list A) i x y :
  l !! i = Some x -> f y = f x -> <[i := y]> l ≫= f = l ≫= f.
Proof.
  intros Hi Hf. rewrite <- (take_drop_middle _ _ _ Hi) at 2.
  rewrite insert_take_drop by (by eapply lookup_lt_Some). by rewrite !bind_app, !bind_cons, Hf.
Qed.

Lemma mapM_id_Some (bs : list byte) : mapM (M := option) id (Some <$> bs) = Some bs.
Proof. apply mapM_Some. induction bs; constructor; done. Qed.

Lemma cells_init_Some bs : cells_init (Some <$> bs) = Ok bs.
Proof. unfold cells_init. by rewrite mapM_id_Some. Qed.

Lemma take_blit_lt {A} (dst : list A) off src n :
  0 <= n <= off -> off <= len dst ->
  take (Z.to_nat n) (blit dst off src) = take (Z.to_nat n) dst.
Proof.
  intros. unfold blit, len in *.
  rewrite take_app_le by (rewrite length_take; lia).
  rewrite take_take. f_equal. lia.
Qed.

Lemma slice_blit_eq {A} (dst : list A) off src :
  0 <= off <= len dst -> slice (blit dst off src) off (len src) = src.
Proof.
  intros. unfold slice, blit, len in *.
  rewrite drop_app_ge by (rewrite length_take; lia).
  rewrite length_take. replace (Z.to_nat off - _)%nat with 0%nat by lia.
  rewrite drop_0, take_app_le by lia. by rewrite take_ge by lia.
Qed.

Lemma take_blit_app {A} (dst : list A) off src :
  0 <= off <= len dst ->
  take (Z.to_nat (off + len src)) (blit dst off src) = take (Z.to_nat off) dst ++ src.
Proof.
  intros. unfold blit, len in *. rewrite app_assoc.
  rewrite take_app_le by (rewrite length_app, length_take; lia).
  rewrite take_ge; [done|]. rewrite length_app, length_take. lia.
Qed.

Lemma slice_app_mid {A} (a b c : list A) : slice (a ++ b ++ c) (len a) (len b) = b.
Proof.
  unfold slice, len. rewrite !Nat2Z.id, drop_app_length.
  rewrite take_app_le by lia. by rewrite take_ge by lia.
Qed.

Lemma slice_cat {A} (l : list A) a b c : 0 <= a <= b -> b <= c ->
  slice l a (b - a) ++ slice l b (c - b) = slice l a (c - a).
Proof.
  intros Ha Hc. unfold slice. replace (Z.to_nat b) with (Z.to_nat a + Z.to_nat (b - a))%nat by lia.
  replace (Z.to_nat (c - a)) with (Z.to_nat (b - a) + Z.to_nat (c - b))%nat by lia.
  by rewrite <- drop_drop, <- take_take_drop.
Qed.

Lemma slice_split {A} (l : list A) p n :
  0 <= p -> 0 <= n ->
  l = take (Z.to_nat p) l ++ slice l p n ++ drop (Z.to_nat (p + n)) l.
Proof.
  intros Hp Hn. unfold slice. replace (Z.to_nat (p + n)) with (Z.to_nat p + Z.to_nat n)%nat by lia.
  rewrite <- drop_drop, take_drop, take_drop. done.
Qed.
