(* ===== verification/Octets.v ===== *)
(** The byte buffer [octets] (common/octets.h): a heap array of [o_cap]
    characters of which the first [o_len] are the content.  Every member
    function is a function to [outcome octets]; the second half relates them
    to the operations of a plain list of bytes. *)

From S2P Require Import Prelude.

(** ** frob_size: the capacity for a request *)

Definition smear (n k : Z) : Z := Z.lor n (Z.shiftr n k).

Definition frob_size (n : Z) : outcome Z :=
  if n >? Z.shiftl 1 63 then Throw (ExnOverflow "frob_size: input too large")
  else if n =? 0 then Ok 1
  else
    let n := n - 1 in
    let n := smear n 1 in
    let n := smear n 2 in
    let n := smear n 4 in
    let n := smear n 8 in
    let n := smear n 16 in
    let n := smear n 32 in
    let n := u64 (n + 1) in
    Ok (if n <? 16 then 16 else n).

(** ** The class *)

Record octets := mk_octets { o_buf : list cell; o_len : Z; o_cap : Z }.

(** The members' initialisers: a null buffer. *)
Definition octets_null : octets := mk_octets [] 0 0.

Definition octets_default : outcome octets :=
  b ← new_char 16; Ok (mk_octets b 0 16).

(** [create(data, len, cap)]: the old array is read (it may be [data]) before
    it is deleted. *)
Definition octets_create (data : list cell) (n cap : Z) : outcome octets :=
  let cap := Z.max n cap in
  tmp ← new_char cap;
  src ← mem_read data 0 n;
  tmp ← mem_write tmp 0 src;
  Ok (mk_octets tmp n cap).

Definition octets_destroy (o : octets) : octets := octets_null.

(** [octets(data, len)], [octets(begin, end)], [octets(std::string)]: the
    content of a region. *)
Definition octets_of_region (data : list cell) (n : Z) : outcome octets :=
  octets_create data n n.
Definition octets_of_bytes (s : list byte) : outcome octets :=
  octets_create (Some <$> s) (len s) (len s).
Definition octets_copy (r : octets) : outcome octets :=
  octets_create (o_buf r) (o_len r) (o_cap r).
Definition octets_copy_len (r : octets) (n : Z) : outcome octets :=
  octets_create (o_buf r) n n.
Definition octets_swap (o r : octets) : octets * octets := (r, o).
(** The move constructor: (the new object, what is left of the source). *)
Definition octets_move (r : octets) : octets * octets := octets_swap octets_null r.

Definition octets_assign_bytes (o : octets) (s : list byte) : outcome octets :=
  octets_create (Some <$> s) (len s) (len s).
(** [operator=(const octets&)]; [same] says whether [&rhs == this]. *)
Definition octets_assign (same : bool) (o r : octets) : outcome octets :=
  if same then Ok o else octets_create (o_buf r) (o_len r) (o_cap r).
Definition octets_move_assign (same : bool) (o r : octets) : octets * octets :=
  if same then (o, r) else octets_swap o r.

Definition octets_index (o : octets) (pos : Z) : outcome cell :=
  if pos >=? o_len o then Throw (ExnOutOfRange "octets::operator[]: index out of range")
  else c ← mem_read (o_buf o) pos 1;
       match c with [x] => Ok x | _ => Fault (UB "read out of bounds") end.

Definition octets_size (o : octets) : Z := o_len o.
Definition octets_capacity (o : octets) : Z := o_cap o.
Definition octets_empty (o : octets) : bool := o_len o =? 0.
Definition octets_free_space (o : octets) : Z := u64 (o_cap o - o_len o).
Definition octets_clear (o : octets) : octets := mk_octets (o_buf o) 0 (o_cap o).
Definition octets_fast_resize (o : octets) (n : Z) : octets :=
  mk_octets (o_buf o) (u64 (o_len o + n)) (o_cap o).
Definition octets_dup (o : octets) : outcome octets := octets_copy o.
Definition octets_front (o : octets) : outcome (list cell) := mem_read (o_buf o) 0 1.
Definition octets_back (o : octets) : outcome (list cell) :=
  mem_read (o_buf o) (o_len o - 1) 1.

Definition octets_reserve (o : octets) (cap : Z) : outcome octets :=
  if o_cap o >=? cap then Ok o
  else c ← frob_size cap; octets_create (o_buf o) (o_len o) c.

(** [insert(pos, data, len)]; [data] is a region outside the buffer. *)
Definition octets_insert (o : octets) (pos : Z) (data : list cell) (n : Z) : outcome octets :=
  let pos := Z.min (o_len o) pos in
  o ← octets_reserve o (u64 (o_len o + n));
  b ← mem_move (o_buf o) (pos + n) pos (o_len o - pos);
  src ← mem_read data 0 n;
  b ← mem_write b pos src;
  Ok (mk_octets b (u64 (o_len o + n)) (o_cap o)).

Definition octets_append_char (o : octets) (ch : byte) : outcome octets :=
  o ← octets_reserve o (u64 (o_len o + 1));
  b ← mem_write (o_buf o) (o_len o) [Some ch];
  Ok (mk_octets b (u64 (o_len o + 1)) (o_cap o)).

Definition octets_append (o : octets) (data : list cell) (n : Z) : outcome octets :=
  if n =? 0 then Ok o
  else
    o ← octets_reserve o (u64 (o_len o + n));
    src ← mem_read data 0 n;
    b ← mem_write (o_buf o) (o_len o) src;
    Ok (mk_octets b (u64 (o_len o + n)) (o_cap o)).

(** [append] of a C string: the bytes before the first NUL. *)
Fixpoint c_str_bytes (s : list byte) : list byte :=
  match s with
  | [] => []
  | b :: s => if decide (b = x00) then [] else b :: c_str_bytes s
  end.
Definition octets_append_cstr (o : octets) (s : list byte) : outcome octets :=
  let d := c_str_bytes s in octets_append o (Some <$> d) (len d).

Definition octets_replace (o : octets) (pos : Z) (data : list cell) (n : Z) : outcome octets :=
  if n =? 0 then Ok o
  else if negb (u64 (o_len o - pos) >=? n) then Fault (AssertFail "_len - pos >= len")
  else
    let n := Z.min (u64 (o_len o - pos)) n in
    o ← octets_reserve o (u64 (pos + n));
    src ← mem_read data 0 n;
    b ← mem_write (o_buf o) pos src;
    Ok (mk_octets b (Z.max (o_len o) (u64 (pos + n))) (o_cap o)).

Definition octets_erase (o : octets) (pos n : Z) : outcome octets :=
  let pos := Z.min (o_len o) pos in
  let n := Z.min (o_len o - pos) n in
  b ← mem_move (o_buf o) pos (pos + n) (o_len o - pos - n);
  Ok (mk_octets b (u64 (o_len o - n)) (o_cap o)).

(** [operator std::string]: the content as bytes. *)
Definition octets_content (o : octets) : list cell := slice (o_buf o) 0 (o_len o).
Definition octets_to_string (o : octets) : outcome (list byte) :=
  c ← mem_read (o_buf o) 0 (o_len o); cells_init c.

(** ** Representation *)

(** The largest content for which every [reserve] of the development stays
    below the allocation limit: [frob_size] rounds up to a power of two. *)
Definition MAX_OCTETS : Z := 2 ^ 62.

Record octets_wf (o : octets) : Prop := {
  wf_cap : o_cap o = len (o_buf o);
  wf_len : 0 <= o_len o <= o_cap o;
  wf_max : o_cap o <= MAX_OCTETS;
}.

(** [octets_repr o bs]: [o] is well formed and holds exactly [bs]; in
    particular no byte of the content is indeterminate. *)
Record octets_repr (o : octets) (bs : list byte) : Prop := {
  repr_wf : octets_wf o;
  repr_content : octets_content o = Some <$> bs;
}.
#[export] Hint Resolve repr_wf : bee.

Ltac octets_lia :=
  repeat match goal with
  | H : octets_wf _ |- _ => destruct H
  end; unfold MAX_OCTETS, len in *;
  change (2 ^ 62) with 4611686018427387904 in *; word_lia.

Lemma repr_len o bs : octets_repr o bs -> o_len o = len bs.
Proof.
  intros [[Hc Hl Hm] Hb]. unfold octets_content in Hb.
  apply (f_equal len) in Hb. rewrite len_slice, len_fmap in Hb by lia. done.
Qed.

Lemma repr_take o bs :
  octets_repr o bs -> take (Z.to_nat (o_len o)) (o_buf o) = Some <$> bs.
Proof. intros [_ Hb]. unfold octets_content, slice in Hb. by rewrite drop_0 in Hb. Qed.

Lemma repr_intro b n c bs :
  octets_wf (mk_octets b n c) -> take (Z.to_nat n) b = Some <$> bs ->
  octets_repr (mk_octets b n c) bs.
Proof. intros Hwf Hb. split; [done|]. unfold octets_content, slice. by rewrite drop_0. Qed.

(** Splitting a well-formed buffer into its content and its free tail. *)
Lemma repr_split o bs :
  octets_repr o bs -> exists tl, o_buf o = (Some <$> bs) ++ tl /\
    len tl = o_cap o - o_len o.
Proof.
  intros Hr. pose proof (repr_take _ _ Hr) as Ht. pose proof (repr_len _ _ Hr) as Hn.
  exists (drop (Z.to_nat (o_len o)) (o_buf o)). rewrite <- Ht, take_drop.
  destruct Hr as [[Hc Hl Hm] _]. split; [done|].
  unfold len in *. rewrite length_drop. lia.
Qed.

Lemma repr_join bs tl n c :
  n = len bs -> c = n + len tl -> c <= MAX_OCTETS ->
  octets_repr (mk_octets ((Some <$> bs) ++ tl) n c) bs.
Proof.
  intros -> -> Hm. pose proof (len_nonneg bs). pose proof (len_nonneg tl).
  apply repr_intro.
  - split; simpl; rewrite ?len_app, ?len_fmap; lia.
  - unfold len. rewrite Nat2Z.id, take_app_le by (rewrite length_fmap; lia).
    rewrite take_ge; [done|]. rewrite length_fmap. lia.
Qed.

(** ** [frob_size] is the next power of two, at least 16 *)

(** After smearing with 1, 2, ..., k/2, bit [i] of the result is the
    disjunction of the bits [i .. i + k - 1] of the argument. *)
Definition window (x k i : Z) : Prop := exists j, 0 <= j < k /\ Z.testbit x (i + j) = true.

Lemma smear_window x y k i :
  0 < k -> 0 <= i ->
  (forall i, 0 <= i -> Z.testbit y i = true <-> window x k i) ->
  Z.testbit (smear y k) i = true <-> window x (2 * k) i.
Proof.
  intros Hk Hi Hy. unfold smear. rewrite Z.lor_spec, orb_true_iff.
  rewrite Z.shiftr_spec, !Hy by lia. split.
  - intros [(j & Hj & E)|(j & Hj & E)].
    + exists j. split; [lia|done].
    + exists (k + j). split; [lia|]. by rewrite Z.add_assoc.
  - intros (j & Hj & E). destruct (decide (j < k)).
    + left. exists j. split; [lia|done].
    + right. exists (j - k). split; [lia|]. rewrite <- E. f_equal. lia.
Qed.

Definition smear_all (n : Z) : Z :=
  smear (smear (smear (smear (smear (smear n 1) 2) 4) 8) 16) 32.

Lemma smear_all_window n i :
  0 <= i -> Z.testbit (smear_all n) i = true <-> window n 64 i.
Proof.
  assert (H1 : forall i, 0 <= i -> Z.testbit n i = true <-> window n 1 i).
  { intros m Hm. split.
    - intros E. exists 0. rewrite Z.add_0_r. split; [lia|done].
    - intros (j & Hj & E). by replace j with 0 in E by lia; rewrite Z.add_0_r in E. }
  intros Hi. unfold smear_all.
  apply (smear_window n _ 32); [lia|done|]. intros i5 ?.
  apply (smear_window n _ 16); [lia|done|]. intros i4 ?.
  apply (smear_window n _ 8); [lia|done|]. intros i3 ?.
  apply (smear_window n _ 4); [lia|done|]. intros i2 ?.
  apply (smear_window n _ 2); [lia|done|]. intros i1 ?.
  apply (smear_window n _ 1); [lia|done|]. done.
Qed.

Lemma smear_all_ones n :
  0 < n < 2 ^ 64 -> smear_all n = Z.ones (Z.log2 n + 1).
Proof.
  intros Hn. pose proof (Z.log2_nonneg n).
  assert (Z.log2 n < 64) by (apply Z.log2_lt_pow2; lia).
  apply Z.bits_inj'. intros i Hi.
  apply eq_true_iff_eq. rewrite smear_all_window by done.
  rewrite Z.testbit_ones_nonneg, Z.ltb_lt by lia. split.
  - intros (j & Hj & E). destruct (decide (i < Z.log2 n + 1)) as [|Hge]; [done|].
    rewrite Z.bits_above_log2 in E by lia. done.
  - intros Hlt. exists (Z.log2 n - i). split; [lia|].
    replace (i + _) with (Z.log2 n) by lia. apply Z.bit_log2. lia.
Qed.

Lemma smear_all_0 : smear_all 0 = 0.
Proof. done. Qed.

Lemma frob_size_pow2 n :
  0 < n <= 2 ^ 63 -> frob_size n = Ok (Z.max 16 (2 ^ Z.log2_up n)).
Proof.
  intros Hn. unfold frob_size.
  change (Z.shiftl 1 63) with (2 ^ 63).
  destruct (Z.gtb_spec n (2 ^ 63)); [lia|].
  destruct (Z.eqb_spec n 0); [lia|].
  change (smear (smear (smear (smear (smear (smear (n - 1) 1) 2) 4) 8) 16) 32)
    with (smear_all (n - 1)).
  assert (smear_all (n - 1) + 1 = 2 ^ Z.log2_up n) as ->.
  { destruct (decide (n = 1)) as [->|]; [done|].
    rewrite smear_all_ones by lia. rewrite Z.log2_up_eqn, Z.ones_equiv by lia.
    change (Z.pred n) with (n - 1). unfold Z.pred, Z.succ. lia. }
  assert (Z.log2_up n <= 63).
  { change 63 with (Z.log2_up (2 ^ 63)). apply Z.log2_up_le_mono. lia. }
  assert (2 ^ Z.log2_up n <= 2 ^ 63) by (apply Z.pow_le_mono_r; lia).
  pose proof (Z.pow_nonneg 2 (Z.log2_up n)).
  rewrite wrapU_small by (unfold inU; lia).
  simpl. destruct (Z.ltb_spec (2 ^ Z.log2_up n) 16); f_equal; lia.
Qed.

Lemma frob_size_bounds n :
  0 < n <= MAX_OCTETS ->
  exists c, frob_size n = Ok c /\ n <= c <= MAX_OCTETS.
Proof.
  intros Hn. unfold MAX_OCTETS in *. rewrite frob_size_pow2 by lia.
  eexists. split; [done|].
  assert (n <= 2 ^ Z.log2_up n) by (destruct (decide (n = 1)) as [->|]; [done|];
    apply Z.log2_up_spec; lia).
  assert (2 ^ Z.log2_up n <= 2 ^ 62).
  { apply Z.pow_le_mono_r; [lia|]. change 62 with (Z.log2_up (2 ^ 62)).
    apply Z.log2_up_le_mono. lia. }
  lia.
Qed.

(** ** Every operation refines the operation on the list of bytes

    The first lemmas are about contents that may hold indeterminate cells. *)

Record octets_cells (o : octets) (cs : list cell) : Prop := {
  cells_wf : octets_wf o;
  cells_content : octets_content o = cs;
}.

Lemma cells_repr o bs : octets_cells o (Some <$> bs) <-> octets_repr o bs.
Proof. split; intros [? ?]; by split. Qed.

Lemma cells_split o cs :
  octets_cells o cs -> exists tl, o_buf o = cs ++ tl /\ len cs = o_len o /\
    len tl = o_cap o - o_len o.
Proof.
  intros [[Hc Hl Hm] Hb]. unfold octets_content in Hb.
  pose proof (len_slice (o_buf o) 0 (o_len o) ltac:(lia) ltac:(lia) ltac:(lia)) as Hs.
  rewrite Hb in Hs. unfold slice in Hb. rewrite drop_0 in Hb.
  exists (drop (Z.to_nat (o_len o)) (o_buf o)). rewrite <- Hb at 1. rewrite take_drop.
  split; [done|]. split; [done|]. unfold len in *. rewrite length_drop. lia.
Qed.

Lemma cells_len o cs : octets_cells o cs -> o_len o = len cs.
Proof. intros H. by destruct (cells_split _ _ H) as (? & _ & -> & _). Qed.

Lemma cells_join cs tl n c :
  n = len cs -> c = n + len tl -> c <= MAX_OCTETS -> octets_cells (mk_octets (cs ++ tl) n c) cs.
Proof.
  intros -> -> Hm. pose proof (len_nonneg cs). pose proof (len_nonneg tl). split.
  - split; simpl; rewrite ?len_app; lia.
  - unfold octets_content. simpl. pose proof (slice_app_mid [] cs tl) as E.
    by rewrite len_nil in E.
Qed.

Lemma create_cells data n cap cs rest :
  data = cs ++ rest -> n = len cs -> 0 <= cap -> Z.max n cap <= MAX_OCTETS ->
  exists o, octets_create data n cap = Ok o /\ octets_cells o cs /\
    o_len o = n /\ o_cap o = Z.max n cap.
Proof.
  intros -> -> Hcap Hm. pose proof (len_nonneg cs). pose proof (len_nonneg rest).
  unfold octets_create. rewrite new_char_ok by octets_lia.
  assert (Hs : mem_read (cs ++ rest) 0 (len cs) = Ok cs).
  { rewrite mem_read_ok; rewrite ?len_app; [|lia..].
    f_equal. pose proof (slice_app_mid [] cs rest) as E. by rewrite len_nil in E. }
  cbn [mbind outcome_bind]. rewrite Hs. cbn [mbind outcome_bind].
  rewrite mem_write_ok by (autorewrite with bee; lia).
  cbn [mbind outcome_bind]. eexists. split; [done|]. split; [|done].
  unfold blit. change (Z.to_nat 0) with 0%nat. rewrite take_0, app_nil_l. apply cells_join; [done| |lia].
  unfold len. rewrite length_drop, length_replicate. unfold len in *. lia.
Qed.

Lemma create_repr data n cap bs rest :
  data = (Some <$> bs) ++ rest -> n = len bs -> 0 <= cap ->
  Z.max n cap <= MAX_OCTETS ->
  exists o, octets_create data n cap = Ok o /\ octets_repr o bs /\
    o_len o = n /\ o_cap o = Z.max n cap.
Proof.
  intros Hd Hn ? ?. destruct (create_cells data n cap (Some <$> bs) rest Hd) as (o & ? & ? & ?);
    [by rewrite len_fmap|done|done|]. exists o. by rewrite <- cells_repr.
Qed.

Lemma reserve_cells o cs cap :
  octets_cells o cs -> 0 <= cap <= MAX_OCTETS ->
  exists o', octets_reserve o cap = Ok o' /\ octets_cells o' cs /\
    cap <= o_cap o' /\ o_len o' = o_len o /\ o_cap o <= o_cap o'.
Proof.
  intros Hr Hc. unfold octets_reserve.
  destruct (Z.geb_spec (o_cap o) cap) as [|Hlt]; [by eauto 10 with lia|].
  pose proof (cells_wf _ _ Hr) as [Hcap Hl Hm].
  destruct (frob_size_bounds cap) as (c & -> & Hbc); [lia|].
  destruct (cells_split _ _ Hr) as (tl & Hb & Hn & Htl).
  destruct (create_cells (o_buf o) (o_len o) c cs tl) as (o' & Ho' & Hr' & Hl' & Hc');
    [done|done|lia|lia|].
  exists o'. split; [done|]. split; [done|]. lia.
Qed.

Lemma reserve_repr o bs cap :
  octets_repr o bs -> 0 <= cap <= MAX_OCTETS ->
  exists o', octets_reserve o cap = Ok o' /\ octets_repr o' bs /\
    cap <= o_cap o' /\ o_len o' = o_len o /\ o_cap o <= o_cap o'.
Proof.
  rewrite <- cells_repr. intros Hr Hc. destruct (reserve_cells _ _ _ Hr Hc) as (o' & ? & ? & ?).
  exists o'. by rewrite <- cells_repr.
Qed.

(** A write at the end of the content, into the free tail. *)
Lemma write_at_end_cells o cs d :
  octets_cells o cs -> len cs + len d <= o_cap o ->
  exists b, mem_write (o_buf o) (o_len o) d = Ok b /\
    octets_cells (mk_octets b (len cs + len d) (o_cap o)) (cs ++ d).
Proof.
  intros Hr Hfit. pose proof (cells_wf _ _ Hr) as [Hcap Hl Hm].
  destruct (cells_split _ _ Hr) as (tl & Hb & Hn & Htl).
  rewrite mem_write_ok by lia. eexists. split; [done|].
  rewrite Hb, <- Hn. unfold blit. unfold len at 1.
  rewrite Nat2Z.id, take_app_le, take_ge by lia.
  rewrite drop_app_ge by (unfold len; lia). rewrite app_assoc.
  apply cells_join; [by rewrite len_app| |lia].
  unfold len in *. rewrite length_drop. lia.
Qed.

Lemma write_at_end o bs d :
  octets_repr o bs -> len bs + len d <= o_cap o ->
  exists b, mem_write (o_buf o) (o_len o) (Some <$> d) = Ok b /\
    octets_repr (mk_octets b (len bs + len d) (o_cap o)) (bs ++ d).
Proof.
  rewrite <- cells_repr. intros Hr Hf.
  destruct (write_at_end_cells _ _ (Some <$> d) Hr) as (b & ? & Hb); rewrite ?len_fmap in *; [done|].
  exists b. rewrite <- cells_repr, fmap_app. done.
Qed.

Lemma append_cells o cs data n d rest :
  octets_cells o cs -> data = d ++ rest -> n = len d -> len cs + n <= MAX_OCTETS ->
  exists o', octets_append o data n = Ok o' /\ octets_cells o' (cs ++ d) /\
    o_cap o <= o_cap o'.
Proof.
  intros Hr -> -> Hm. unfold octets_append. pose proof (cells_len _ _ Hr) as Hn.
  pose proof (len_nonneg cs). pose proof (len_nonneg d).
  destruct (Z.eqb_spec (len d) 0) as [Hd0|Hd0].
  { destruct d; [|rewrite len_cons in Hd0; pose proof (len_nonneg d); lia].
    rewrite app_nil_r. eauto with lia. }
  rewrite Hn, wrapU_small by octets_lia.
  destruct (reserve_cells o cs (len cs + len d)) as (o' & -> & Hr' & Hc & Hl & Hcc);
    [done|lia|].
  cbn [mbind outcome_bind].
  rewrite mem_read_ok by (rewrite ?len_app; pose proof (len_nonneg rest); lia).
  pose proof (slice_app_mid [] d rest) as Hs.
  rewrite len_nil in Hs. cbn [app] in Hs. rewrite Hs. cbn [mbind outcome_bind].
  destruct (write_at_end_cells o' cs d) as (b & -> & Hr''); [done|lia|].
  cbn [mbind outcome_bind]. rewrite Hl, Hn, wrapU_small by octets_lia. eauto.
Qed.

Lemma append_repr o bs data n d rest :
  octets_repr o bs -> data = (Some <$> d) ++ rest -> n = len d ->
  len bs + n <= MAX_OCTETS ->
  exists o', octets_append o data n = Ok o' /\ octets_repr o' (bs ++ d) /\
    o_cap o <= o_cap o'.
Proof.
  rewrite <- cells_repr. intros Hr Hd Hn Hm.
  destruct (append_cells o _ data n (Some <$> d) rest Hr Hd) as (o' & ? & ? & ?);
    rewrite ?len_fmap in *; [done|done|]. exists o'. rewrite <- cells_repr, fmap_app. done.
Qed.

Lemma append_char_repr o bs ch :
  octets_repr o bs -> len bs + 1 <= MAX_OCTETS ->
  exists o', octets_append_char o ch = Ok o' /\ octets_repr o' (bs ++ [ch]).
Proof.
  intros Hr Hm. unfold octets_append_char. pose proof (repr_len _ _ Hr) as Hn.
  pose proof (len_nonneg bs). rewrite Hn, wrapU_small by octets_lia.
  destruct (reserve_repr o bs (len bs + 1)) as (o' & -> & Hr' & Hc & Hl & Hcc); [done|lia|].
  destruct (write_at_end o' bs [ch]) as (b & Hb & Hr''); [done|unfold len at 2; simpl; lia|].
  cbn [mbind outcome_bind]. cbn [fmap list_fmap] in Hb. rewrite Hb. cbn [mbind outcome_bind].
  rewrite Hl, Hn, wrapU_small by octets_lia. eauto.
Qed.

Lemma repr_buf_eq o bs b n c :
  octets_repr o bs -> octets_wf (mk_octets b n c) ->
  forall bs', take (Z.to_nat n) b = Some <$> bs' -> octets_repr (mk_octets b n c) bs'.
Proof. intros. by apply repr_intro. Qed.

Lemma erase_repr o bs pos n :
  octets_repr o bs -> 0 <= pos -> 0 <= n ->
  exists o', octets_erase o pos n = Ok o' /\
    octets_repr o' (take (Z.to_nat pos) bs ++ drop (Z.to_nat (pos + n)) bs) /\
    o_cap o' = o_cap o.
Proof.
  intros Hr Hp Hn'. unfold octets_erase. pose proof (repr_len _ _ Hr) as Hn.
  pose proof (repr_wf _ _ Hr) as [Hcap Hl Hm]. rewrite Hn.
  destruct (repr_split _ _ Hr) as (tl & Hb & Htl).
  set (p := Z.min (len bs) pos). set (k := Z.min (len bs - p) n).
  assert (Hp' : 0 <= p <= len bs) by lia. assert (Hk : 0 <= k <= len bs - p) by lia.
  assert (Hd : drop (Z.to_nat (pos + n)) bs = drop (Z.to_nat (p + k)) bs).
  { destruct (decide (pos + n <= len bs)); [f_equal; lia|].
    rewrite !drop_ge; [done|unfold len in *; lia..]. }
  assert (Ht : take (Z.to_nat pos) bs = take (Z.to_nat p) bs).
  { destruct (decide (pos <= len bs)); [f_equal; lia|].
    rewrite !take_ge; [done|unfold len in *; lia..]. }
  rewrite Hd, Ht. unfold mem_move.
  rewrite mem_read_ok by lia. cbn [mbind outcome_bind].
  assert (Hs : slice (o_buf o) (p + k) (len bs - p - k)
               = Some <$> drop (Z.to_nat (p + k)) bs).
  { rewrite Hb. unfold slice. rewrite drop_app_le, <- fmap_drop by (rewrite length_fmap; unfold len in *; lia).
    rewrite take_app_le, take_ge; [done| |]; rewrite length_fmap, length_drop; unfold len in *; lia. }
  rewrite Hs. rewrite mem_write_ok; [|lia|];
    [|rewrite len_fmap; unfold len in *; rewrite length_drop; lia].
  cbn [mbind outcome_bind]. rewrite wrapU_small by octets_lia.
  eexists. split; [done|]. split; [|done]. apply repr_intro.
  { split; simpl; [|lia|lia]. rewrite len_blit; [lia..|].
    rewrite len_fmap. unfold len in *. rewrite length_drop. lia. }
  pose proof (take_blit_app (o_buf o) p (Some <$> drop (Z.to_nat (p + k)) bs) ltac:(lia)) as Hta.
  assert (Hlen : len (Some <$> drop (Z.to_nat (p + k)) bs) = len bs - p - k).
  { rewrite len_fmap. unfold len in *. rewrite length_drop. lia. }
  rewrite Hlen in Hta. replace (len bs - k) with (p + (len bs - p - k)) by lia. rewrite Hta.
  rewrite fmap_app, fmap_take. f_equal. rewrite Hb.
  by rewrite take_app_le by (rewrite length_fmap; unfold len in *; lia).
Qed.

Lemma insert_repr o bs pos data n d rest :
  octets_repr o bs -> 0 <= pos -> data = (Some <$> d) ++ rest -> n = len d ->
  len bs + n <= MAX_OCTETS ->
  exists o', octets_insert o pos data n = Ok o' /\
    octets_repr o' (take (Z.to_nat pos) bs ++ d ++ drop (Z.to_nat pos) bs).
Proof.
  intros Hr Hp -> -> Hm. unfold octets_insert. pose proof (repr_len _ _ Hr) as Hn.
  pose proof (len_nonneg bs). pose proof (len_nonneg d). rewrite Hn.
  set (p := Z.min (len bs) pos).
  assert (Htd : take (Z.to_nat pos) bs = take (Z.to_nat p) bs /\
               drop (Z.to_nat pos) bs = drop (Z.to_nat p) bs).
  { destruct (decide (pos <= len bs)); [split; f_equal; lia|].
    split; [rewrite !take_ge|rewrite !drop_ge]; unfold len in *; (done || lia). }
  destruct Htd as [-> ->]. assert (0 <= p <= len bs) by lia. clearbody p.
  rewrite wrapU_small by octets_lia.
  destruct (reserve_repr o bs (len bs + len d)) as (o' & -> & Hr' & Hc & Hl & Hcc); [done|lia|].
  cbn [mbind outcome_bind]. rewrite Hl, Hn. pose proof (repr_wf _ _ Hr') as [Hcap' Hl' Hm'].
  destruct (repr_split _ _ Hr') as (tl & Hb & Htl).
  pose proof (len_nonneg tl). pose proof (len_nonneg rest). unfold mem_move.
  rewrite (mem_read_ok (o_buf o')) by lia. cbn [mbind outcome_bind].
  assert (Hs : slice (o_buf o') p (len bs - p) = Some <$> drop (Z.to_nat p) bs).
  { rewrite Hb. unfold slice. rewrite drop_app_le, <- fmap_drop by (rewrite length_fmap; unfold len in *; lia).
    rewrite take_app_le, take_ge; [done| |]; rewrite length_fmap, length_drop; unfold len in *; lia. }
  assert (Hlk : len (Some <$> drop (Z.to_nat p) bs) = len bs - p).
  { rewrite len_fmap. unfold len in *. rewrite length_drop. lia. }
  rewrite Hs, mem_write_ok by lia. cbn [mbind outcome_bind].
  rewrite mem_read_ok by (rewrite ?len_app, ?len_fmap; lia).
  pose proof (slice_app_mid [] (Some <$> d) rest) as Hsd.
  rewrite len_fmap, len_nil in Hsd. cbn [app] in Hsd. rewrite Hsd. cbn [mbind outcome_bind].
  rewrite mem_write_ok by (rewrite ?len_blit, ?len_fmap; lia). cbn [mbind outcome_bind].
  rewrite wrapU_small by octets_lia. eexists. split; [done|].
  set (b1 := blit (o_buf o') (p + len d) (Some <$> drop (Z.to_nat p) bs)).
  assert (Hlb : len b1 = len (o_buf o')) by (unfold b1; rewrite len_blit; lia).
  apply repr_intro.
  { split; simpl; [|lia|lia]. rewrite len_blit, Hlb; rewrite ?len_fmap; lia. }
  unfold blit at 1. rewrite !fmap_app, fmap_take.
  assert (E1 : take (Z.to_nat p) b1 = take (Z.to_nat p) (Some <$> bs)).
  { unfold b1. rewrite take_blit_lt by lia. rewrite Hb, take_app_le; [done|].
    rewrite length_fmap. unfold len in *. lia. }
  assert (E2 : take (Z.to_nat (len bs - p)) (drop (Z.to_nat (p + len d)) b1)
               = Some <$> drop (Z.to_nat p) bs).
  { rewrite <- Hlk. apply slice_blit_eq. lia. }
  rewrite E1. assert (Hlt : length (take (Z.to_nat p) (Some <$> bs) : list cell) = Z.to_nat p).
  { rewrite length_take, length_fmap. unfold len in *. lia. }
  rewrite take_app_ge, Hlt by (rewrite Hlt; lia). f_equal.
  rewrite take_app_ge by (rewrite length_fmap; unfold len in *; lia). f_equal.
  rewrite <- E2. f_equal; [|f_equal]; rewrite length_fmap; unfold len; lia.
Qed.

Lemma blit_app {A} (a g b d : list A) :
  length d = length g -> blit (a ++ g ++ b) (len a) d = a ++ d ++ b.
Proof.
  intros Hd. unfold blit, len. rewrite Nat2Z.id, take_app_length, Hd.
  rewrite <- drop_drop, drop_app_length, drop_app_length. done.
Qed.

Lemma replace_cells o cs pos data n d rest :
  octets_cells o cs -> 0 <= pos -> data = d ++ rest -> n = len d -> pos + n <= len cs ->
  exists o', octets_replace o pos data n = Ok o' /\ o_cap o' = o_cap o /\
    octets_cells o' (blit cs pos d).
Proof.
  intros Hr Hp -> -> Hm. unfold octets_replace. pose proof (cells_len _ _ Hr) as Hn.
  pose proof (len_nonneg cs). pose proof (len_nonneg d). pose proof (len_nonneg rest).
  pose proof (cells_wf _ _ Hr) as [Hcap Hl Hmx]. rewrite Hn.
  destruct (Z.eqb_spec (len d) 0) as [Hd0|Hd0].
  { destruct d; [|rewrite len_cons in Hd0; pose proof (len_nonneg d); lia].
    exists o. split; [done|]. split; [done|]. unfold blit. cbn [app length].
    rewrite Nat.add_0_r, take_drop. done. }
  rewrite !wrapU_small by octets_lia.
  destruct (Z.geb_spec (len cs - pos) (len d)); [|lia]. cbn [negb].
  rewrite Z.min_r by lia.
  unfold octets_reserve. destruct (Z.geb_spec (o_cap o) (pos + len d)); [|lia].
  cbn [mbind outcome_bind]. rewrite mem_read_ok by (rewrite ?len_app; lia).
  pose proof (slice_app_mid [] d rest) as Hsd.
  rewrite len_nil in Hsd. cbn [app] in Hsd. rewrite Hsd. cbn [mbind outcome_bind].
  rewrite mem_write_ok by lia. cbn [mbind outcome_bind].
  rewrite Z.max_l by lia. eexists. split; [done|]. split; [done|].
  destruct (cells_split _ _ Hr) as (tl & Hb & _ & Htl). rewrite Hb.
  assert (blit (cs ++ tl) pos d = blit cs pos d ++ tl) as ->.
  { unfold blit. rewrite take_app_le by (unfold len in *; lia).
    rewrite drop_app_le by (unfold len in *; lia). by rewrite <- !app_assoc. }
  apply cells_join; [rewrite len_blit; lia|lia|lia].
Qed.

Lemma replace_repr o bs pos data n d rest :
  octets_repr o bs -> 0 <= pos -> data = (Some <$> d) ++ rest -> n = len d ->
  pos + n <= len bs ->
  exists o', octets_replace o pos data n = Ok o' /\ o_cap o' = o_cap o /\
    octets_repr o' (blit bs pos d).
Proof.
  rewrite <- cells_repr. intros Hr Hp Hd Hn Hm.
  destruct (replace_cells o _ pos data n (Some <$> d) rest Hr Hp Hd) as (o' & ? & ? & Hc);
    rewrite ?len_fmap; [done|done|]. exists o'. split; [done|]. split; [done|].
  rewrite <- cells_repr. unfold blit in *. by rewrite !fmap_app, fmap_take, fmap_drop, <- (length_fmap Some d).
Qed.

Lemma clear_repr o bs : octets_repr o bs -> octets_repr (octets_clear o) [].
Proof.
  intros Hr. pose proof (repr_wf _ _ Hr) as [Hc Hl Hm].
  apply repr_intro; [|done]. split; simpl; [done|lia|done].
Qed.

Lemma to_string_repr o bs : octets_repr o bs -> octets_to_string o = Ok bs.
Proof.
  intros Hr. pose proof (repr_wf _ _ Hr) as [Hc Hl Hm]. unfold octets_to_string.
  rewrite mem_read_ok by lia. cbn [mbind outcome_bind].
  destruct Hr as [_ Hb]. unfold octets_content in Hb. rewrite Hb. apply cells_init_Some.
Qed.

Lemma default_repr : exists o, octets_default = Ok o /\ octets_repr o [].
Proof.
  eexists. split; [done|]. apply repr_intro; [|done].
  split; [done|simpl; lia|]. unfold MAX_OCTETS. simpl. lia.
Qed.

Lemma null_repr : octets_repr octets_null [].
Proof. apply repr_intro; [|done]. split; [done|simpl; lia|done]. Qed.

(** ** The contract of the class *)

Inductive octets_op :=
  | OpAppend (d : list byte)
  | OpAppendChar (c : byte)
  | OpInsert (pos : Z) (d : list byte)
  | OpReplace (pos : Z) (d : list byte)
  | OpErase (pos n : Z)
  | OpReserve (cap : Z)
  | OpClear.

(** What the program does: the operation on the heap array. *)
Definition octets_exec (op : octets_op) (o : octets) : outcome octets :=
  match op with
  | OpAppend d => octets_append o (Some <$> d) (len d)
  | OpAppendChar c => octets_append_char o c
  | OpInsert pos d => octets_insert o pos (Some <$> d) (len d)
  | OpReplace pos d => octets_replace o pos (Some <$> d) (len d)
  | OpErase pos n => octets_erase o pos n
  | OpReserve cap => octets_reserve o cap
  | OpClear => Ok (octets_clear o)
  end.

Fixpoint octets_run (ops : list octets_op) (o : octets) : outcome octets :=
  match ops with
  | [] => Ok o
  | op :: ops => o ← octets_exec op o; octets_run ops o
  end.

(** What a caller sees: the operation on a list of bytes. *)
Definition spec_exec (op : octets_op) (bs : list byte) : list byte :=
  match op with
  | OpAppend d => bs ++ d
  | OpAppendChar c => bs ++ [c]
  | OpInsert pos d => take (Z.to_nat pos) bs ++ d ++ drop (Z.to_nat pos) bs
  | OpReplace pos d => blit bs pos d
  | OpErase pos n => take (Z.to_nat pos) bs ++ drop (Z.to_nat (pos + n)) bs
  | OpReserve _ => bs
  | OpClear => []
  end.

(** The callers' obligation: the content stays below [MAX_OCTETS], and a
    replacement lies inside the content (the code asserts it). *)
Definition op_fits (op : octets_op) (bs : list byte) : bool :=
  match op with
  | OpAppend d => len bs + len d <=? MAX_OCTETS
  | OpAppendChar _ => len bs + 1 <=? MAX_OCTETS
  | OpInsert pos d => (0 <=? pos) && (len bs + len d <=? MAX_OCTETS)
  | OpReplace pos d => (0 <=? pos) && (pos + len d <=? len bs)
  | OpErase pos n => (0 <=? pos) && (0 <=? n)
  | OpReserve cap => (0 <=? cap) && (cap <=? MAX_OCTETS)
  | OpClear => true
  end.

Fixpoint ops_fit (ops : list octets_op) (bs : list byte) : bool :=
  match ops with
  | [] => true
  | op :: ops => op_fits op bs && ops_fit ops (spec_exec op bs)
  end.

Lemma exec_refines op o bs :
  octets_repr o bs -> op_fits op bs = true ->
  exists o', octets_exec op o = Ok o' /\ octets_repr o' (spec_exec op bs).
Proof.
  intros Hr Hf.
  destruct op as [d|c|pos d|pos d|pos n|cap|]; simpl in *;
    rewrite ?andb_true_iff, ?Z.leb_le in Hf.
  - destruct (append_repr o bs (Some <$> d) (len d) d []) as (o' & ? & ? & _);
      [done|by rewrite app_nil_r|done|done|eauto].
  - by apply append_char_repr.
  - apply (insert_repr o bs pos (Some <$> d) (len d) d []); [done|lia|by rewrite app_nil_r|done|lia].
  - destruct (replace_repr o bs pos (Some <$> d) (len d) d []) as (o' & ? & _ & ?);
      [done|lia|by rewrite app_nil_r|done|lia|eauto].
  - destruct (erase_repr o bs pos n) as (o' & ? & ? & _); [done|lia|lia|eauto].
  - destruct (reserve_repr o bs cap) as (o' & ? & ? & _); [done|lia|eauto].
  - eexists. split; [done|]. by eapply clear_repr.
Qed.

(** ** Properties *)

(** C40 — Refinement: any sequence of appends, insertions, replacements,
    erasures, reservations and clears that meets the callers' obligation
    ([ops_fit]: content and reservations up to [MAX_OCTETS], a replacement
    inside the content) runs
    without an exception, an out-of-bounds access or a read of an
    indeterminate byte, and leaves exactly the bytes that the same sequence
    leaves in a plain list. *)
Theorem octets_run_refines ops o bs :
  octets_repr o bs -> ops_fit ops bs = true ->
  exists o', octets_run ops o = Ok o' /\ octets_repr o' (fold_left (fun b op => spec_exec op b) ops bs).
Proof.
  revert o bs. induction ops as [|op ops IH]; intros o bs Hr Hf; simpl in *; [eauto|].
  apply andb_true_iff in Hf as [Hf1 Hf2].
  destruct (exec_refines op o bs Hr Hf1) as (o' & -> & Hr'). by apply IH.
Qed.

Definition octets_demo : list octets_op :=
  [OpAppend [x01; x02; x03]; OpInsert 1 [x09; x08]; OpErase 0 1;
   OpReplace 0 [x07]; OpReserve 40; OpAppendChar x05].

Lemma octets_run_refines_witness :
  ops_fit octets_demo [] = true /\
  exists o', octets_run octets_demo octets_null = Ok o' /\
    octets_repr o' [x07; x08; x02; x03; x05].
Proof.
  split; [reflexivity|].
  exact (octets_run_refines octets_demo octets_null [] null_repr eq_refl).
Defined.

(** Capacity: for every request up to 2^63 the growth policy
    returns a power of two that is at least the request and at least 16, and
    less than twice the request when that is above 16; a larger request is
    refused with an exception and a zero request gives 1. *)
Theorem frob_size_spec n :
  0 <= n ->
  match frob_size n with
  | Ok c => (n = 0 /\ c = 1) \/
            (0 < n <= 2 ^ 63 /\ n <= c /\ 16 <= c /\ (16 < c -> c < 2 * n) /\
             exists k, 0 <= k /\ c = 2 ^ k)
  | Throw e => 2 ^ 63 < n /\ e = ExnOverflow "frob_size: input too large"
  | Fault _ => False
  end.
Proof.
  intros Hn. destruct (decide (n = 0)) as [->|]; [by left|].
  destruct (decide (n <= 2 ^ 63)) as [Hle|Hgt].
  - rewrite frob_size_pow2 by lia. right.
    assert (H2 : n = 1 \/ 2 ^ Z.pred (Z.log2_up n) < n <= 2 ^ Z.log2_up n).
    { destruct (decide (n = 1)) as [->|]; [by left|]. right. apply Z.log2_up_spec. lia. }
    assert (H3 : n = 1 \/ 2 ^ Z.log2_up n < 2 * n).
    { destruct (decide (n = 1)) as [->|]; [by left|]. right.
      destruct H2 as [->|H2]; [done|]. pose proof (Z.log2_up_pos n ltac:(lia)).
      replace (Z.log2_up n) with (Z.succ (Z.pred (Z.log2_up n))) by lia.
      rewrite Z.pow_succ_r by lia. lia. }
    split; [lia|]. split; [destruct H2 as [->|]; lia|]. split; [lia|].
    split; [intros; destruct H3 as [->|]; [change (2 ^ Z.log2_up 1) with 1 in *; lia|lia]|].
    destruct (Z.max_spec 16 (2 ^ Z.log2_up n)) as [[_ ->]|[_ ->]].
    + exists (Z.log2_up n). split; [apply Z.log2_up_nonneg|done].
    + by exists 4.
  - unfold frob_size. change (Z.shiftl 1 63) with (2 ^ 63).
    destruct (Z.gtb_spec n (2 ^ 63)); [split; [lia|done]|lia].
Qed.

Lemma frob_size_spec_witness : 0 <= 17 /\ frob_size 17 = Ok 32 /\ 17 <= 32 /\ 32 < 2 * 17.
Proof.
  split; [lia|]. split; [reflexivity|].
  destruct (frob_size_spec 17 ltac:(lia)) as [[H _]|(_ & H1 & _ & H2 & _)]; [discriminate H|].
  split; [exact H1|]. apply H2. lia.
Defined.
