(* ===== verification/Varint.v ===== *)
(** Variable-length integers (common/varint.h): zigzag coding of signed
    integers, base-128 coding of 64-bit values and the table of encoded sizes. *)

From S2P Require Import Prelude.

(** ** Zigzag

    [n] of fewer than 32 bits is promoted to [int] before [<<]. *)

Definition encode_zigzag16 (n : Z) : Z :=
  u16 (Z.lxor (s32 (Z.shiftl n 1)) (Z.shiftr n 15)).
Definition decode_zigzag16 (n : Z) : Z :=
  wrapS 16 (Z.lxor (Z.shiftr n 1) (- wrapS 16 (Z.land n 1))).

Definition encode_zigzag32 (n : Z) : Z :=
  u32 (Z.lxor (s32 (Z.shiftl n 1)) (Z.shiftr n 31)).
(** The [int32_t] on the right is converted to the unsigned type of the left. *)
Definition decode_zigzag32 (n : Z) : Z :=
  s32 (Z.lxor (Z.shiftr n 1) (u32 (- s32 (Z.land n 1)))).

Definition encode_zigzag64 (n : Z) : Z :=
  u64 (Z.lxor (s64 (Z.shiftl n 1)) (Z.shiftr n 63)).
Definition decode_zigzag64 (n : Z) : Z :=
  s64 (Z.lxor (Z.shiftr n 1) (u64 (- s64 (Z.land n 1)))).

(** ** Base 128 *)

(** [write_varint]: the loop runs at most ten times on a 64-bit value;
    [None] when the fuel ends first. *)
Fixpoint write_varint_loop (fuel : nat) (value : Z) (buffer : list byte)
    : option (list byte) :=
  match fuel with
  | O => None
  | S fuel =>
      if value >=? 0x80
      then write_varint_loop fuel (Z.shiftr value 7)
             (buffer ++ [byte_of_Z (Z.lor (Z.land value 0x7F) 0x80)])
      else Some (buffer ++ [byte_of_Z value])
  end.
Definition write_varint (value : Z) (buffer : list byte) : option (list byte) :=
  write_varint_loop 10 value buffer.

(** [read_varint(ptr, end, value)]: the cells from [ptr] to [end]; the result
    is what is stored in [value] and how far the returned pointer is from
    [ptr], or [None] for the null pointer. *)
Fixpoint read_varint_loop (input : list cell) (shift value n : Z)
    : outcome (Z * option Z) :=
  match input with
  | [] => Ok (value, None)
  | c :: input =>
      if shift <? 64 then
        match c with
        | None => Fault (UB "indeterminate value")
        | Some b =>
            let b := Z_of_byte b in
            let value := Z.lor value (u64 (Z.shiftl (Z.land b 0x7F) shift)) in
            if Z.land b 0x80 =? 0 then Ok (value, Some (n + 1))
            else read_varint_loop input (shift + 7) value (n + 1)
        end
      else Ok (value, None)
  end.
Definition read_varint (input : list cell) : outcome (Z * option Z) :=
  read_varint_loop input 0 0 0.

(** ** Encoded sizes *)

Definition compact_int_size_table : list Z :=
  [1;1;1;1;1;1;1;1;
   2;2;2;2;2;2;2;2;
   3;3;3;3;3;3;3;3;
   4;4;4;4;4;4;4;4;
   5;5;5;5;5;5;5;5;
   6;6;6;6;6;6;6;6;
   7;7;7;7;7;7;7;7;
   8;8;8;8;8;8;8;8;
   9].

(** [sizeof(size_t) * 8 - countl_zero(value)] for a 64-bit unsigned value. *)
Definition countl_zero64 (value : Z) : Z :=
  if value =? 0 then 64 else 63 - Z.log2 value.
Definition bit_length (value : Z) : Z :=
  if value =? 0 then 0 else 64 - countl_zero64 value.

Definition get_compact_int_size (value : Z) : Z :=
  default 0 (compact_int_size_table !! Z.to_nat (bit_length value)).

(** [encode_compact_int] of marshal.h appends to the caller's buffer. *)
Definition encode_compact_int (value : Z) (buffer : list byte) : option (list byte) :=
  write_varint value buffer.

(** ** The encoder without its fuel *)

(** The number of base-128 digits. *)
Definition varint_len (v : Z) : Z := if v =? 0 then 1 else Z.log2 v / 7 + 1.

Fixpoint varint_digits (fuel : nat) (v : Z) : list byte :=
  match fuel with
  | O => []
  | S fuel =>
      if v >=? 0x80
      then byte_of_Z (Z.lor (Z.land v 0x7F) 0x80) :: varint_digits fuel (Z.shiftr v 7)
      else [byte_of_Z v]
  end.
(** What [write_varint] appends. *)
Definition varint (v : Z) : list byte := varint_digits 10 v.

Lemma write_varint_loop_digits fuel v buffer :
  (0 < fuel)%nat -> 0 <= v < 2 ^ (7 * Z.of_nat fuel) ->
  write_varint_loop fuel v buffer = Some (buffer ++ varint_digits fuel v).
Proof.
  revert v buffer. induction fuel as [|fuel IH]; intros v buffer Hf Hv; [lia|].
  simpl. destruct (Z.geb_spec v 128) as [Hge|Hlt]; [|done].
  assert (0 < fuel)%nat by (destruct fuel; [change (2 ^ _) with 128 in Hv|]; lia).
  rewrite IH, <- app_assoc; [done|done|].
  rewrite Z.shiftr_div_pow2 by lia. split; [apply Z.div_pos; lia|].
  apply Z.div_lt_upper_bound; [lia|]. rewrite <- Z.pow_add_r by lia.
  replace (7 + 7 * Z.of_nat fuel) with (7 * Z.of_nat (S fuel)) by lia. lia.
Qed.

Lemma write_varint_spec v buffer :
  inU 64 v -> write_varint v buffer = Some (buffer ++ varint v).
Proof. intros Hv. apply write_varint_loop_digits; [lia|]. change (2 ^ (7 * Z.of_nat 10)) with (2 ^ 70). unfold inU in Hv. lia. Qed.

Lemma land127 v : Z.land v 127 = v mod 128.
Proof. change 127 with (Z.ones 7). by rewrite Z.land_ones by lia. Qed.

(** The two ranges of a digit's byte. *)
Lemma digit_last v : 0 <= v < 128 ->
  Z.land (Z_of_byte (byte_of_Z v)) 127 = v /\ Z.land (Z_of_byte (byte_of_Z v)) 128 = 0.
Proof.
  intros Hv. rewrite Z_of_byte_of_Z, wrapU_small by word_lia.
  rewrite land127. split; [apply Z.mod_small; lia|].
  apply Z.bits_inj'. intros i Hi. rewrite Z.land_spec, Z.bits_0.
  change 128 with (2 ^ 7). rewrite Z.pow2_bits_eqb by lia.
  destruct (Z.eqb_spec 7 i) as [<-|]; [|apply andb_false_r].
  destruct (decide (v = 0)) as [->|]; [by rewrite Z.bits_0|].
  rewrite Z.bits_above_log2; [done|lia|]. apply Z.log2_lt_pow2; lia.
Qed.

Lemma digit_more v : 0 <= v ->
  Z_of_byte (byte_of_Z (Z.lor (Z.land v 127) 128)) = v mod 128 + 128 /\
  Z.land (v mod 128 + 128) 127 = v mod 128 /\ Z.land (v mod 128 + 128) 128 <> 0.
Proof.
  intros Hv. pose proof (Z.mod_pos_bound v 128 ltac:(lia)) as Hm.
  rewrite land127.
  pose proof (lor_shiftl_add (v mod 128) 1 7 ltac:(lia) Hm) as Hl.
  change (Z.shiftl 1 7) with 128 in Hl. rewrite Hl. change (1 * 2 ^ 7) with 128.
  rewrite Z_of_byte_of_Z, wrapU_small by word_lia. split; [done|].
  rewrite land127.
  split; [rewrite <- Zplus_mod_idemp_r, Z.mod_same, Z.add_0_r by lia; by apply Z.mod_small|].
  intros E. apply (f_equal (fun z => Z.testbit z 7)) in E. rewrite Z.land_spec in E.
  change (Z.testbit 128 7) with true in E. rewrite Z.bits_0, andb_true_r in E.
  apply Z.testbit_false in E; [|lia]. change (2 ^ 7) with 128 in E.
  replace ((v mod 128 + 128) / 128) with 1 in E; [done|].
  symmetry. rewrite <- (Z.mul_1_l 128) at 2. rewrite Z.div_add, Z.div_small by lia. done.
Qed.

(** The reader inverts the encoder from any intermediate state of its loop. *)
Lemma read_varint_loop_digits fuel v rest shift a n :
  (0 < fuel)%nat -> 0 <= v < 2 ^ (7 * Z.of_nat fuel) -> 0 <= shift < 64 -> 0 <= a < 2 ^ shift ->
  v * 2 ^ shift < 2 ^ 64 ->
  read_varint_loop ((Some <$> varint_digits fuel v) ++ rest) shift a n
  = Ok (a + v * 2 ^ shift, Some (n + len (varint_digits fuel v))).
Proof.
  revert v shift a n. induction fuel as [|fuel IH]; intros v shift a n Hf Hv Hs Ha Hfit; [lia|].
  assert (Hpow : 0 < 2 ^ shift) by lia.
  simpl. destruct (Z.geb_spec v 128) as [Hge|Hlt]; simpl;
    (destruct (Z.ltb_spec shift 64); [|lia]).
  - destruct (digit_more v) as (-> & -> & Hne); [lia|].
    destruct (Z.eqb_spec (Z.land (v mod 128 + 128) 128) 0); [done|].
    assert (Hdm : v = 128 * (v / 128) + v mod 128) by (apply Z.div_mod; lia).
    pose proof (Z.mod_pos_bound v 128 ltac:(lia)).
    assert (0 < v / 128) by (apply Z.div_str_pos; lia).
    assert (Hp7 : 2 ^ (shift + 7) = 128 * 2 ^ shift).
    { rewrite Z.pow_add_r by lia. change (2 ^ 7) with 128. lia. }
    rewrite wrapU_small.
    2:{ unfold inU. rewrite Z.shiftl_mul_pow2 by lia. nia. }
    rewrite lor_shiftl_add by lia. rewrite (Z.shiftr_div_pow2 v 7) by lia.
    change (2 ^ 7) with 128.
    assert (shift + 7 < 64).
    { destruct (decide (shift + 7 < 64)); [done|].
      assert (2 ^ 64 <= 2 ^ (shift + 7)) by (apply Z.pow_le_mono_r; lia). nia. }
    assert (0 < fuel)%nat by (destruct fuel; [change (2 ^ _) with 128 in Hv|]; lia).
    rewrite IH; [|done|split; [lia|]|lia|nia|nia].
    + rewrite len_cons. f_equal. f_equal; [nia|f_equal; lia].
    + apply Z.div_lt_upper_bound; [lia|].
      replace 128 with (2 ^ 7) by done. rewrite <- Z.pow_add_r by lia.
      replace (7 + 7 * Z.of_nat fuel) with (7 * Z.of_nat (S fuel)) by lia. lia.
  - destruct (digit_last v) as (-> & ->); [lia|]. simpl.
    rewrite wrapU_small by (unfold inU; rewrite Z.shiftl_mul_pow2 by lia; nia).
    rewrite lor_shiftl_add by lia. done.
Qed.

Lemma read_varint_spec v rest :
  inU 64 v -> read_varint ((Some <$> varint v) ++ rest) = Ok (v, Some (len (varint v))).
Proof.
  intros Hv. unfold read_varint, varint. unfold inU in Hv.
  rewrite read_varint_loop_digits; [f_equal; f_equal; lia|lia|change (2 ^ (7 * Z.of_nat 10)) with (2 ^ 70); lia|lia|lia|lia].
Qed.

(** ** Lengths *)

Lemma varint_digits_len fuel v :
  (0 < fuel)%nat -> 0 <= v < 2 ^ (7 * Z.of_nat fuel) ->
  len (varint_digits fuel v) = varint_len v.
Proof.
  revert v. induction fuel as [|fuel IH]; intros v Hf Hv; [lia|]. simpl.
  destruct (Z.geb_spec v 128) as [Hge|Hlt].
  - assert (0 < fuel)%nat by (destruct fuel; [change (2 ^ _) with 128 in Hv|]; lia).
    assert (H7 : 7 <= Z.log2 v) by (apply Z.log2_le_pow2; lia).
    rewrite len_cons, IH; [|done|].
    + unfold varint_len. destruct (Z.eqb_spec v 0); [lia|].
      rewrite Z.log2_shiftr, Z.max_r by lia.
      destruct (Z.eqb_spec (Z.shiftr v 7) 0) as [E|E].
      { rewrite Z.shiftr_div_pow2 in E by lia. change (2 ^ 7) with 128 in E.
        pose proof (Z.div_str_pos v 128). lia. }
      replace (Z.log2 v) with (Z.log2 v - 7 + 1 * 7) at 2 by lia.
      rewrite Z.div_add by lia. lia.
    + rewrite Z.shiftr_div_pow2 by lia. change (2 ^ 7) with 128.
      split; [apply Z.div_pos; lia|]. apply Z.div_lt_upper_bound; [lia|].
      replace 128 with (2 ^ 7) by done. rewrite <- Z.pow_add_r by lia.
      replace (7 + 7 * Z.of_nat fuel) with (7 * Z.of_nat (S fuel)) by lia. lia.
  - unfold varint_len. destruct (Z.eqb_spec v 0); [done|].
    assert (Z.log2 v < 7) by (apply Z.log2_lt_pow2; lia).
    pose proof (Z.log2_nonneg v). by rewrite Z.div_small by lia.
Qed.

Lemma varint_length v : inU 64 v -> len (varint v) = varint_len v.
Proof.
  intros Hv. apply varint_digits_len; [lia|].
  change (2 ^ (7 * Z.of_nat 10)) with (2 ^ 70). unfold inU in Hv. lia.
Qed.

Lemma varint_len_bounds v : inU 64 v -> 1 <= varint_len v <= 10.
Proof.
  intros Hv. unfold varint_len, inU in *. destruct (Z.eqb_spec v 0); [lia|].
  pose proof (Z.log2_nonneg v). assert (Z.log2 v < 64) by (apply Z.log2_lt_pow2; lia).
  pose proof (Z.div_pos (Z.log2 v) 7). pose proof (Z.div_lt_upper_bound (Z.log2 v) 7 10). lia.
Qed.

(** The table by the position of the highest bit. *)
Lemma compact_size_log v :
  0 < v < 2 ^ 64 -> get_compact_int_size v = (Z.log2 v + 1) / 8 + 1.
Proof.
  intros Hv. unfold get_compact_int_size, bit_length, countl_zero64.
  destruct (Z.eqb_spec v 0); [lia|]. replace (64 - (63 - Z.log2 v)) with (Z.log2 v + 1) by lia.
  pose proof (Z.log2_nonneg v). assert (Z.log2 v < 64) by (apply Z.log2_lt_pow2; lia).
  generalize dependent (Z.log2 v). intros b Hb Hb'.
  assert (forallb (fun k => default 0 (compact_int_size_table !! k) =? (Z.of_nat k) / 8 + 1)
    (seq 0 65) = true) as Ht by reflexivity.
  rewrite forallb_forall in Ht. specialize (Ht (Z.to_nat (b + 1))).
  rewrite in_seq, Z.eqb_eq in Ht. rewrite Ht by lia. by rewrite Z2Nat.id by lia.
Qed.

Lemma log2_range a b v : 0 <= a -> 2 ^ a <= v < 2 ^ b -> a <= Z.log2 v < b.
Proof.
  intros Ha [H1 H2]. assert (0 < 2 ^ a) by lia.
  split; [apply Z.log2_le_pow2|apply Z.log2_lt_pow2]; lia.
Qed.

(** The sizes for which the table agrees with the encoder: below 2^14, and
    from 2^15 up to 2^21. *)
Definition compact_size_good (v : Z) : bool :=
  ((0 <=? v) && (v <? 2 ^ 14)) || ((2 ^ 15 <=? v) && (v <? 2 ^ 21)).

Lemma compact_size_good_eq v :
  compact_size_good v = true -> get_compact_int_size v = varint_len v.
Proof.
  unfold compact_size_good.
  rewrite orb_true_iff, !andb_true_iff, !Z.leb_le, !Z.ltb_lt. intros Hv.
  destruct (decide (v = 0)) as [->|Hn]; [done|].
  rewrite compact_size_log by lia. unfold varint_len. destruct (Z.eqb_spec v 0); [lia|].
  assert (0 <= Z.log2 v < 14 \/ 15 <= Z.log2 v < 21) as Hl.
  { destruct Hv as [Hv|Hv]; [left|right]; apply log2_range; lia. }
  generalize dependent (Z.log2 v). intros b Hb. Z.to_euclidean_division_equations. lia.
Qed.

(** On initialised bytes the reader returns a 64-bit value and, unless it
    returns the null pointer, a position of at most ten bytes inside them. *)
Lemma read_varint_loop_total bs shift value n :
  0 <= shift -> inU 64 value -> 0 <= n ->
  exists v r, read_varint_loop (Some <$> bs) shift value n = Ok (v, r) /\ inU 64 v /\
    match r with Some k => n + 1 <= k <= n + len bs /\ 7 * (k - 1 - n) + shift < 64 | None => True end.
Proof.
  revert shift value n. induction bs as [|b bs IH]; intros shift value n Hs Hv Hn; simpl; [eauto|].
  destruct (Z.ltb_spec shift 64); [|eauto]. rewrite len_cons. pose proof (len_nonneg bs).
  set (w := Z.lor value _). assert (Hw : inU 64 w).
  { unfold w, inU. pose proof (wrapU_range 64 (Z.shiftl (Z.land (Z_of_byte b) 127) shift) ltac:(lia)) as Hx.
    unfold inU in *. split; [apply Z.lor_nonneg; lia|].
    destruct (decide (Z.lor value (u64 (Z.shiftl (Z.land (Z_of_byte b) 127) shift)) = 0)) as [->|]; [lia|].
    apply Z.log2_lt_pow2; [pose proof (proj2 (Z.lor_nonneg value
      (u64 (Z.shiftl (Z.land (Z_of_byte b) 127) shift)))); lia|].
    rewrite Z.log2_lor by lia. apply Z.max_lub_lt.
    - destruct (decide (value = 0)) as [->|]; [done|apply Z.log2_lt_pow2; lia].
    - destruct (decide (u64 (Z.shiftl (Z.land (Z_of_byte b) 127) shift) = 0)) as [->|];
        [done|apply Z.log2_lt_pow2; lia]. }
  destruct (Z.eqb_spec (Z.land (Z_of_byte b) 128) 0).
  - eexists _, _. split; [done|]. split; [done|]. lia.
  - destruct (IH (shift + 7) w (n + 1)) as (v & r & E & Hv' & Hr); [lia|done|lia|].
    exists v, r. split; [done|]. split; [done|]. destruct r; [lia|done].
Qed.

Lemma read_varint_total bs :
  exists v r, read_varint (Some <$> bs) = Ok (v, r) /\ inU 64 v /\
    match r with Some k => 1 <= k <= len bs /\ k <= 10 | None => True end.
Proof.
  destruct (read_varint_loop_total bs 0 0 0) as (v & r & E & Hv & Hr); [lia|done|lia|].
  exists v, r. split; [done|]. split; [done|]. destruct r; [lia|done].
Qed.

(** A proper prefix of an encoding has no last digit. *)
Lemma read_varint_loop_prefix fuel v k shift a n :
  (k < length (varint_digits fuel v))%nat -> 0 <= v ->
  exists w, read_varint_loop (Some <$> take k (varint_digits fuel v)) shift a n = Ok (w, None).
Proof.
  revert v k shift a n. induction fuel as [|fuel IH]; intros v k shift a n Hk Hv; [simpl in Hk; lia|].
  simpl in *. destruct (Z.geb_spec v 128).
  - destruct k as [|k]; simpl in *; [eauto|]. destruct (Z.ltb_spec shift 64); [|eauto].
    destruct (digit_more v) as (-> & _ & Hne); [lia|].
    destruct (Z.eqb_spec (Z.land (v mod 128 + 128) 128) 0); [done|].
    apply IH; [lia|]. rewrite Z.shiftr_div_pow2 by lia. apply Z.div_pos; lia.
  - simpl in Hk. replace k with 0%nat by lia. simpl. eauto.
Qed.

(** ** Zigzag by cases on the sign *)

Lemma encode_zigzag_spec wi w n :
  0 < w <= wi -> inS w n ->
  wrapU w (Z.lxor (wrapS wi (Z.shiftl n 1)) (Z.shiftr n (w - 1)))
  = if n <? 0 then - 2 * n - 1 else 2 * n.
Proof.
  intros Hw Hn. unfold inS in Hn. rewrite Z.shiftl_mul_pow2, Z.shiftr_div_pow2 by lia.
  change (2 ^ 1) with 2.
  assert (Hp : 2 ^ w = 2 * 2 ^ (w - 1)) by (rewrite <- Z.pow_succ_r by lia; f_equal; lia).
  destruct (wrapS_congr w wi (n * 2) Hw) as [k ->].
  destruct (Z.ltb_spec n 0).
  - replace (n / 2 ^ (w - 1)) with (-1)
      by (apply (Z.div_unique _ _ _ (n + 2 ^ (w - 1))); lia).
    rewrite Z.lxor_m1_r. unfold Z.lnot, Z.pred.
    replace (- (n * 2 + k * 2 ^ w) + -1) with (- 2 * n - 1 + - k * 2 ^ w) by lia.
    rewrite wrapU_add, wrapU_small by (unfold inU; lia). lia.
  - rewrite Z.div_small, Z.lxor_0_r, wrapU_add by lia. rewrite wrapU_small by (unfold inU; lia). lia.
Qed.

Lemma land1 n : Z.land n 1 = n mod 2.
Proof. change 1 with (Z.ones 1). by rewrite Z.land_ones by lia. Qed.

(** The decoders before the final conversion, by the parity. *)
Lemma decode_xor w n m :
  0 < w -> 0 <= n < 2 ^ w -> (m = - 1 \/ m = 2 ^ w - 1) ->
  wrapS w (Z.lxor (Z.shiftr n 1) m) = - (n / 2) - 1.
Proof.
  intros Hw Hn Hm. rewrite Z.shiftr_div_pow2 by lia. change (2 ^ 1) with 2.
  assert (Hp : 2 ^ w = 2 * 2 ^ (w - 1)) by (rewrite <- Z.pow_succ_r by lia; f_equal; lia).
  assert (0 <= n / 2 < 2 ^ (w - 1)).
  { split; [apply Z.div_pos; lia|apply Z.div_lt_upper_bound; lia]. }
  destruct Hm as [-> | ->].
  - rewrite Z.lxor_m1_r. unfold Z.lnot. rewrite wrapS_small by (unfold inS; lia). lia.
  - assert (Z.lxor (n / 2) (2 ^ w - 1) = 2 ^ w - 1 - n / 2) as ->.
    { replace (2 ^ w - 1) with (Z.ones w) by (rewrite Z.ones_equiv; lia).
      rewrite Z.sub_nocarry_ldiff.
      - apply Z.bits_inj'. intros i Hi. rewrite Z.lxor_spec, Z.ldiff_spec.
        destruct (decide (i < w)).
        + rewrite Z.ones_spec_low by lia. by destruct (Z.testbit (n / 2) i).
        + rewrite Z.ones_spec_high by lia. by rewrite (testbit_high (n / 2) (w - 1)) by lia.
      - apply Z.bits_inj'. intros i Hi. rewrite Z.ldiff_spec, Z.bits_0.
        destruct (decide (i < w)).
        + rewrite Z.ones_spec_low by lia. apply andb_false_r.
        + by rewrite (testbit_high (n / 2) (w - 1)) by lia. }
    unfold wrapS. rewrite (Z.mod_eq _ (2 ^ w)) by lia.
    replace ((2 ^ w - 1 - n / 2 + 2 ^ (w - 1)) / 2 ^ w) with 1; [lia|].
    apply (Z.div_unique _ _ _ (2 ^ (w - 1) - 1 - n / 2)); lia.
Qed.

Lemma decode_zigzag_cases w n m0 m1 :
  0 < w -> 0 <= n < 2 ^ w -> m0 = 0 -> (m1 = -1 \/ m1 = 2 ^ w - 1) ->
  wrapS w (Z.lxor (Z.shiftr n 1) (if n mod 2 =? 0 then m0 else m1))
  = if n mod 2 =? 0 then n / 2 else - (n / 2) - 1.
Proof.
  intros Hw Hn -> Hm. destruct (Z.eqb_spec (n mod 2) 0); [|by apply decode_xor].
  rewrite Z.lxor_0_r, Z.shiftr_div_pow2 by lia. change (2 ^ 1) with 2.
  assert (Hp : 2 ^ w = 2 * 2 ^ (w - 1)) by (rewrite <- Z.pow_succ_r by lia; f_equal; lia).
  assert (0 <= n / 2 < 2 ^ (w - 1)).
  { split; [apply Z.div_pos; lia|apply Z.div_lt_upper_bound; lia]. }
  apply wrapS_small; [done|unfold inS; lia].
Qed.

(** The three decoders share one arithmetic form. *)
Definition unzigzag (n : Z) : Z := if n mod 2 =? 0 then n / 2 else - (n / 2) - 1.

Lemma decode_zigzag16_spec n : inU 16 n -> decode_zigzag16 n = unzigzag n.
Proof.
  intros Hn. unfold decode_zigzag16. rewrite land1. pose proof (Z.mod_pos_bound n 2).
  unfold unzigzag. rewrite <- (decode_zigzag_cases 16 n 0 (-1)) by (done || lia || auto).
  f_equal. f_equal. destruct (Z.eqb_spec (n mod 2) 0) as [->|]; [done|].
  by replace (n mod 2) with 1 by lia.
Qed.

Lemma decode_zigzag32_spec n : inU 32 n -> decode_zigzag32 n = unzigzag n.
Proof.
  intros Hn. unfold decode_zigzag32. rewrite land1. pose proof (Z.mod_pos_bound n 2).
  unfold unzigzag. rewrite <- (decode_zigzag_cases 32 n 0 (2 ^ 32 - 1)) by (done || lia || auto).
  f_equal. f_equal. destruct (Z.eqb_spec (n mod 2) 0) as [->|]; [done|].
  by replace (n mod 2) with 1 by lia.
Qed.

Lemma decode_zigzag64_spec n : inU 64 n -> decode_zigzag64 n = unzigzag n.
Proof.
  intros Hn. unfold decode_zigzag64. rewrite land1. pose proof (Z.mod_pos_bound n 2).
  unfold unzigzag. rewrite <- (decode_zigzag_cases 64 n 0 (2 ^ 64 - 1)) by (done || lia || auto).
  f_equal. f_equal. destruct (Z.eqb_spec (n mod 2) 0) as [->|]; [done|].
  by replace (n mod 2) with 1 by lia.
Qed.

Definition to_zigzag (n : Z) : Z := if n <? 0 then - 2 * n - 1 else 2 * n.

Lemma encode_zigzag16_spec n : inS 16 n -> encode_zigzag16 n = to_zigzag n.
Proof. apply (encode_zigzag_spec 32 16). lia. Qed.
Lemma encode_zigzag32_spec n : inS 32 n -> encode_zigzag32 n = to_zigzag n.
Proof. apply (encode_zigzag_spec 32 32). lia. Qed.
Lemma encode_zigzag64_spec n : inS 64 n -> encode_zigzag64 n = to_zigzag n.
Proof. apply (encode_zigzag_spec 64 64). lia. Qed.

Lemma to_zigzag_range w n : 0 < w -> inS w n -> inU w (to_zigzag n).
Proof.
  intros Hw. unfold inS, inU, to_zigzag.
  assert (Hp : 2 ^ w = 2 * 2 ^ (w - 1)) by (rewrite <- Z.pow_succ_r by lia; f_equal; lia).
  destruct (Z.ltb_spec n 0); lia.
Qed.

Lemma unzigzag_to_zigzag n : unzigzag (to_zigzag n) = n.
Proof.
  unfold unzigzag, to_zigzag. destruct (Z.ltb_spec n 0).
  - replace (-2 * n - 1) with (1 + (- n - 1) * 2) by lia.
    rewrite Z.mod_add, Z.div_add by lia. change (1 mod 2 =? 0) with false.
    change (1 / 2) with 0. cbv iota. lia.
  - rewrite Z.mul_comm, Z.mod_mul, Z.div_mul by lia. reflexivity.
Qed.

(** ** Properties *)

(** C11 — Round trip: for every 64-bit value the encoder finishes, appends
    between one and ten bytes to what the buffer held, and the decoder given
    these bytes followed by anything returns the value and the position just
    after them. *)
Theorem varint_roundtrip v buffer rest :
  inU 64 v ->
  exists d, write_varint v buffer = Some (buffer ++ d) /\ 1 <= len d <= 10 /\ read_varint ((Some <$> d) ++ rest) = Ok (v, Some (len d)).
Proof.
  intros Hv. exists (varint v). split; [by apply write_varint_spec|].
  split; [|by apply read_varint_spec]. rewrite varint_length by done.
  by apply varint_len_bounds.
Qed.

Lemma varint_roundtrip_witness :
  inU 64 300 /\ exists d, write_varint 300 [x07] = Some ([x07] ++ d) /\ 1 <= len d <= 10 /\ read_varint ((Some <$> d) ++ [Some xff]) = Ok (300, Some (len d)).
Proof. split; [done|]. apply (varint_roundtrip 300 [x07] [Some xff]). done. Defined.

(** Round trip of the zigzag codings at 16, 32 and 64 bits, with the
    code in the unsigned range of the same width and a code of at most
    [2 * k] for every [n] with [- k <= n <= k]. *)
Theorem zigzag_roundtrip n k :
  - k <= n <= k ->
  (inS 16 n -> decode_zigzag16 (encode_zigzag16 n) = n /\ inU 16 (encode_zigzag16 n) /\
  encode_zigzag16 n <= 2 * k) /\
  (inS 32 n -> decode_zigzag32 (encode_zigzag32 n) = n /\ inU 32 (encode_zigzag32 n) /\
  encode_zigzag32 n <= 2 * k) /\
  (inS 64 n -> decode_zigzag64 (encode_zigzag64 n) = n /\ inU 64 (encode_zigzag64 n) /\
  encode_zigzag64 n <= 2 * k).
Proof.
  intros Hk. assert (to_zigzag n <= 2 * k) by (unfold to_zigzag; case_match; lia).
  split; [|split]; intros Hn; (split; [|split]);
    rewrite ?encode_zigzag16_spec, ?encode_zigzag32_spec, ?encode_zigzag64_spec,
      ?decode_zigzag16_spec, ?decode_zigzag32_spec, ?decode_zigzag64_spec by
      (done || (apply to_zigzag_range; done || lia));
    auto using unzigzag_to_zigzag, to_zigzag_range with lia.
Qed.

Lemma zigzag_roundtrip_witness :
  inS 16 (-300) /\ decode_zigzag16 (encode_zigzag16 (-300)) = -300.
Proof.
  split; [done|]. apply (zigzag_roundtrip (-300) 300); [lia|done].
Defined.

(** The table of encoded sizes: it equals the encoder's length for all
    values below 2^14 and from 2^15 up to 2^21; for a value of exactly
    fifteen bits (2^14 up to 2^15) it says two bytes where the encoder
    writes three, and for the largest 64-bit values nine where it writes ten. *)
Theorem compact_size_table_exact v :
  (0 <= v < 2 ^ 14 \/ 2 ^ 15 <= v < 2 ^ 21 -> get_compact_int_size v = len (varint v)) /\
  (2 ^ 14 <= v < 2 ^ 15 -> get_compact_int_size v = 2 /\ len (varint v) = 3) /\
  (2 ^ 63 <= v < 2 ^ 64 -> get_compact_int_size v = 9 /\ len (varint v) = 10).
Proof.
  split; [|split]; intros Hv; rewrite varint_length by (unfold inU; lia).
  - apply compact_size_good_eq. unfold compact_size_good.
    rewrite orb_true_iff, !andb_true_iff, !Z.leb_le, !Z.ltb_lt. lia.
  - rewrite compact_size_log by lia. unfold varint_len. destruct (Z.eqb_spec v 0); [lia|].
    replace (Z.log2 v) with 14; [done|]. pose proof (log2_range 14 15 v). lia.
  - rewrite compact_size_log by lia. unfold varint_len. destruct (Z.eqb_spec v 0); [lia|].
    replace (Z.log2 v) with 63; [done|]. pose proof (log2_range 63 64 v). lia.
Qed.

Lemma compact_size_table_exact_witness :
  2 ^ 14 <= 20000 < 2 ^ 15 /\ get_compact_int_size 20000 = 2 /\ len (varint 20000) = 3.
Proof. split; [lia|]. apply (compact_size_table_exact 20000). lia. Defined.
