(* ===== verification/BytesOrder.v ===== *)
(** Byte order (io/bytes_order.h) on a little-endian host: an object is the
    list of its bytes in memory, lowest address first. *)

From S2P Require Import Prelude.

(** The bytes of an [n]-byte unsigned integer in memory, and back. *)
Fixpoint le_bytes (n : nat) (z : Z) : list byte :=
  match n with
  | O => []
  | S n => byte_of_Z z :: le_bytes n (z / 256)
  end.
Fixpoint of_le (m : list byte) : Z :=
  match m with
  | [] => 0
  | b :: m => Z_of_byte b + 256 * of_le m
  end.

(** [htonl] and [htons] of the C library: the value whose representation is
    the reverse. *)
Definition htonl (x : Z) : Z := of_le (rev (le_bytes 4 x)).
Definition ntohl (x : Z) : Z := of_le (rev (le_bytes 4 x)).
Definition htons (x : Z) : Z := of_le (rev (le_bytes 2 x)).
Definition ntohs (x : Z) : Z := of_le (rev (le_bytes 2 x)).

Definition htonll (host : Z) : Z :=
  Z.lor (u64 (Z.shiftl (htonl (Z.land host 0xFFFFFFFF)) 32)) (htonl (Z.shiftr host 32)).
Definition ntohll (net : Z) : Z :=
  Z.lor (u64 (Z.shiftl (ntohl (Z.land net 0xFFFFFFFF)) 32)) (ntohl (Z.shiftr net 32)).

(** The types that have a specialisation, and any other one of [n] bytes. *)
Inductive pod_type :=
  | PodU64 | PodI64 | PodU32 | PodI32 | PodU16 | PodI16
  | PodU8 | PodI8 | PodBool | PodFloat | PodDouble | PodOther (n : nat).

Definition sizeof (t : pod_type) : nat :=
  match t with
  | PodU64 | PodI64 | PodDouble => 8
  | PodU32 | PodI32 | PodFloat => 4
  | PodU16 | PodI16 => 2
  | PodU8 | PodI8 | PodBool => 1
  | PodOther n => n
  end.

(** The generic template: exchange the bytes [i] and [size - i - 1]. *)
Definition swap_step (size : nat) (data : list byte) (i : nat) : list byte :=
  let temp := default x00 (data !! i) in
  let data := <[i := default x00 (data !! (size - i - 1)%nat)]> data in
  <[(size - i - 1)%nat := temp]> data.
Definition swap_loop (data : list byte) : list byte :=
  let size := length data in
  fold_left (swap_step size) (seq 0 (size / 2)) data.

Definition hostToNetwork (t : pod_type) (m : list byte) : list byte :=
  match t with
  | PodU64 | PodI64 | PodDouble => le_bytes 8 (htonll (of_le m))
  | PodU32 | PodI32 | PodFloat => le_bytes 4 (htonl (of_le m))
  | PodU16 | PodI16 => le_bytes 2 (htons (of_le m))
  | PodU8 | PodI8 | PodBool => m
  | PodOther _ => swap_loop m
  end.
Definition networkToHost (t : pod_type) (m : list byte) : list byte :=
  match t with
  | PodU64 | PodI64 | PodDouble => le_bytes 8 (ntohll (of_le m))
  | PodU32 | PodI32 | PodFloat => le_bytes 4 (ntohl (of_le m))
  | PodU16 | PodI16 => le_bytes 2 (ntohs (of_le m))
  | PodU8 | PodI8 | PodBool => m
  | PodOther _ => swap_loop m
  end.

(** ** Representation *)

Lemma length_le_bytes n z : length (le_bytes n z) = n.
Proof. revert z. induction n; intros; simpl; auto. Qed.

Lemma of_le_range m : 0 <= of_le m < 256 ^ len m.
Proof.
  induction m as [|b m IH]; [done|]. cbn [of_le]. rewrite len_cons, Z.pow_add_r by (auto using len_nonneg; lia).
  pose proof (Z_of_byte_range b). unfold inU in *. change (2 ^ 8) with 256 in *. lia.
Qed.

Lemma le_bytes_of_le m : le_bytes (length m) (of_le m) = m.
Proof.
  induction m as [|b m IH]; [done|]. simpl. pose proof (Z_of_byte_range b) as Hb.
  unfold inU in Hb. change (2 ^ 8) with 256 in Hb.
  replace ((Z_of_byte b + 256 * of_le m) / 256) with (of_le m)
    by (apply (Z.div_unique _ _ _ (Z_of_byte b)); lia).
  rewrite IH. f_equal. rewrite <- (byte_of_Z_of_byte b) at 2. unfold byte_of_Z.
  replace (Z_of_byte b + 256 * of_le m) with (Z_of_byte b + of_le m * 2 ^ 8) by lia.
  by rewrite wrapU_add.
Qed.

Lemma of_le_app a b : of_le (a ++ b) = of_le a + 256 ^ len a * of_le b.
Proof.
  induction a as [|x a IH]; [by rewrite Z.mul_1_l|]. cbn [of_le app].
  rewrite IH, len_cons, Z.pow_add_r by (auto using len_nonneg; lia). lia.
Qed.

Lemma le_bytes_mod n z w :
  8 * Z.of_nat n <= w -> le_bytes n (z mod 2 ^ w) = le_bytes n z.
Proof.
  revert z w. induction n as [|n IH]; intros z w Hw; [done|]. simpl. f_equal.
  - unfold byte_of_Z, wrapU. rewrite Z.mod_mod_divide; [done|].
    exists (2 ^ (w - 8)). rewrite <- Z.pow_add_r by lia. f_equal; lia.
  - rewrite <- (IH (z / 256) (w - 8)) by lia. f_equal.
    replace (2 ^ w) with (256 * 2 ^ (w - 8)).
    + rewrite Z.rem_mul_r by lia. rewrite Z.mul_comm, Z.div_add by lia.
      rewrite Z.div_small by (apply Z.mod_pos_bound; lia). lia.
    + change 256 with (2 ^ 8). rewrite <- Z.pow_add_r by lia. f_equal; lia.
Qed.

Lemma htonl_mem m : length m = 4%nat -> le_bytes 4 (htonl (of_le m)) = rev m.
Proof.
  intros Hm. unfold htonl. rewrite <- Hm, le_bytes_of_le.
  rewrite <- (length_rev m). apply le_bytes_of_le.
Qed.
Lemma htons_mem m : length m = 2%nat -> le_bytes 2 (htons (of_le m)) = rev m.
Proof.
  intros Hm. unfold htons. rewrite <- Hm, le_bytes_of_le.
  rewrite <- (length_rev m). apply le_bytes_of_le.
Qed.

(** [htonll] puts the swapped low half above the swapped high half. *)
Lemma htonll_mem m : length m = 8%nat -> le_bytes 8 (htonll (of_le m)) = rev m.
Proof.
  intros Hm.
  assert (exists lo hi, m = lo ++ hi /\ length lo = 4%nat /\ length hi = 4%nat)
    as (lo & hi & -> & Hlo & Hhi).
  { exists (take 4 m), (drop 4 m). rewrite take_drop, length_take, length_drop. split; [done|lia]. }
  assert (Hll : len lo = 4) by (unfold len; lia).
  assert (Hlh : len hi = 4) by (unfold len; lia).
  pose proof (of_le_range lo) as Rl. pose proof (of_le_range hi) as Rh.
  rewrite Hll in Rl. rewrite Hlh in Rh. change (256 ^ 4) with (2 ^ 32) in *.
  unfold htonll. rewrite of_le_app, Hll. change (256 ^ 4) with (2 ^ 32).
  change 0xFFFFFFFF with (Z.ones 32). rewrite Z.land_ones by lia.
  rewrite Z.mul_comm, Z.mod_add, Z.mod_small by lia.
  rewrite Z.shiftr_div_pow2, Z.div_add, Z.div_small, Z.add_0_l by lia.
  assert (Hr : forall k, length k = 4%nat -> htonl (of_le k) = of_le (rev k)).
  { intros k Hk. unfold htonl. by rewrite <- Hk at 1; rewrite le_bytes_of_le. }
  rewrite !Hr by done.
  assert (Hrl : forall k, length k = 4%nat -> 0 <= of_le (rev k) < 2 ^ 32).
  { intros k Hk. pose proof (of_le_range (rev k)) as E. unfold len in E.
    rewrite length_rev, Hk in E. done. }
  pose proof (Hrl lo Hlo). pose proof (Hrl hi Hhi).
  rewrite wrapU_small.
  2:{ unfold inU. rewrite Z.shiftl_mul_pow2 by lia. lia. }
  rewrite Z.lor_comm.
  assert (Z.lor (of_le (rev hi)) (Z.shiftl (of_le (rev lo)) 32) = of_le (rev (lo ++ hi))) as ->.
  { rewrite rev_app_distr, of_le_app. unfold len. rewrite length_rev, Hhi.
    rewrite lor_shiftl_add by lia. change (256 ^ Z.of_nat 4) with (2 ^ 32). lia. }
  rewrite <- Hm at 1. rewrite <- length_rev. apply le_bytes_of_le.
Qed.

(** After [k] exchanges the outer [k] bytes on either side are mirrored. *)
Lemma swap_loop_step m k :
  (2 * k <= length m)%nat ->
  let r := fold_left (swap_step (length m)) (seq 0 k) m in
  length r = length m /\
  forall j, r !! j = if decide (j < length m /\ (j < k \/ length m - k <= j))%nat
                     then m !! (length m - 1 - j)%nat else m !! j.
Proof.
  induction k as [|k IH]; intros Hk.
  { simpl. split; [done|]. intros j. case_decide; [lia|done]. }
  destruct IH as [Hl IH]; [lia|]. rewrite seq_S, fold_left_app. cbn [fold_left Nat.add].
  set (r := fold_left (swap_step (length m)) (seq 0 k) m) in *.
  unfold swap_step. split; [by rewrite !length_insert|]. intros j.
  assert (Hj : forall i, (i < length m)%nat -> exists x, r !! i = Some x).
  { intros i Hi. rewrite <- Hl in Hi. by apply lookup_lt_is_Some. }
  destruct (Hj k ltac:(lia)) as [x Hx].
  destruct (Hj (length m - k - 1)%nat ltac:(lia)) as [y Hy]. rewrite Hx, Hy.
  change (default x00 (Some x)) with x. change (default x00 (Some y)) with y.
  destruct (decide (j = length m - k - 1)%nat) as [->|N1].
  - rewrite list_lookup_insert_eq by (rewrite length_insert; lia).
    rewrite decide_True by lia. rewrite <- Hx, IH, decide_False by lia. f_equal; lia.
  - rewrite list_lookup_insert_ne by lia.
    destruct (decide (j = k)) as [->|N2].
    + rewrite list_lookup_insert_eq by lia. rewrite decide_True by lia.
      rewrite <- Hy, IH, decide_False by lia. f_equal; lia.
    + rewrite list_lookup_insert_ne by lia. rewrite IH. repeat case_decide; (done || lia).
Qed.

Lemma swap_loop_rev m : swap_loop m = rev m.
Proof.
  unfold swap_loop.
  pose proof (Nat.div_mod_eq (length m) 2) as E. pose proof (Nat.mod_upper_bound (length m) 2).
  destruct (swap_loop_step m (length m / 2)) as [Hl Hr]; [lia|].
  rewrite rev_alt. fold (reverse m). apply list_eq. intros j. rewrite Hr.
  destruct (decide (j < length m)%nat) as [Hj|Hj].
  - rewrite reverse_lookup by done. case_decide; f_equal; lia.
  - rewrite decide_False by lia. rewrite !lookup_ge_None_2; [done|rewrite length_reverse; lia|lia].
Qed.

Lemma hostToNetwork_rev t m :
  length m = sizeof t -> hostToNetwork t m = rev m.
Proof.
  destruct t; simpl; intros Hm; eauto using htonll_mem, htonl_mem, htons_mem, swap_loop_rev;
    destruct m as [|b [|]]; done.
Qed.

Lemma networkToHost_rev t m :
  length m = sizeof t -> networkToHost t m = rev m.
Proof. apply hostToNetwork_rev. Qed.

(** Byte order: for every type, specialised or generic, the conversion to
    network order is the reversal of the object's bytes (so a 64-bit value
    goes out big-endian although it is swapped as two halves), and the two
    conversions are inverse. *)
Theorem byte_order_roundtrip t m :
  length m = sizeof t ->
  hostToNetwork t m = rev m /\ networkToHost t (hostToNetwork t m) = m /\
  hostToNetwork t (networkToHost t m) = m.
Proof.
  intros Hm. pose proof (length_rev m) as Hl. rewrite Hm in Hl.
  rewrite (hostToNetwork_rev t m), (networkToHost_rev t m) by done.
  rewrite (hostToNetwork_rev t (rev m)), (networkToHost_rev t (rev m)) by done.
  by rewrite rev_involutive.
Qed.

Lemma byte_order_roundtrip_witness :
  length [x01;x02;x03;x04;x05;x06;x07;x08] = sizeof PodU64 /\
  hostToNetwork PodU64 [x01;x02;x03;x04;x05;x06;x07;x08] = [x08;x07;x06;x05;x04;x03;x02;x01].
Proof.
  split; [done|].
  destruct (byte_order_roundtrip PodU64 [x01;x02;x03;x04;x05;x06;x07;x08] eq_refl) as [H _].
  exact H.
Defined.
