(* ===== verification/Marshal.v ===== *)
(** Serialisation (common/marshal.h): the byte stream [octetsstream], compact
    integers, and the overloads of [push] and [pop] as instances of a class
    whose laws are the round trip. *)

From S2P Require Import Prelude Octets Varint BytesOrder.

(** ** The stream *)

Record octetsstream := mk_os { os_data : octets; os_pos : Z; os_transpos : Z }.

Abbreviation OS := (M octetsstream).

Definition os_with_data (d : octets) (s : octetsstream) : octetsstream :=
  mk_os d (os_pos s) (os_transpos s).
Definition os_with_pos (p : Z) (s : octetsstream) : octetsstream :=
  mk_os (os_data s) p (os_transpos s).

(** A member function of [_data].  Its exceptions are raised before the buffer
    is changed. *)
Definition on_data (f : octets -> outcome octets) : OS unit := fun s =>
  match f (os_data s) with
  | Ok d => (os_with_data d s, Ok tt)
  | Throw e => (s, Throw e)
  | Fault x => (s, Fault x)
  end.

Definition os_default : outcome octetsstream :=
  d ← octets_default; Ok (mk_os d 0 0).
Definition os_of_octets (oct : octets) : outcome octetsstream :=
  d ← octets_copy oct; Ok (mk_os d 0 0).
Definition os_of_octets_len (oct : octets) (size : Z) : outcome octetsstream :=
  d ← octets_copy_len oct size; Ok (mk_os d 0 0).

Definition os_swap (s r : octetsstream) : octetsstream * octetsstream := (r, s).

Definition os_reserve (cap : Z) : OS unit := on_data (fun d => octets_reserve d cap).
Definition os_advance (n : Z) (s : octetsstream) : octetsstream :=
  os_with_pos (u64 (os_pos s + n)) s.
Definition os_clear (s : octetsstream) : octetsstream :=
  mk_os (octets_clear (os_data s)) 0 0.
Definition os_size (s : octetsstream) : Z := octets_size (os_data s).
Definition os_empty (s : octetsstream) : bool := octets_empty (os_data s).
Definition os_capacity (s : octetsstream) : Z := octets_capacity (os_data s).
Definition os_data_ready (n : Z) (s : octetsstream) : bool :=
  u64 (os_size s - os_pos s) >=? n.

Definition try_shrink : OS unit := fun s =>
  if os_pos s >? 0x100000 then
    match octets_erase (os_data s) 0 (os_pos s) with
    | Ok d => (mk_os d 0 0, Ok tt)
    | Throw e => (s, Throw e)
    | Fault x => (s, Fault x)
    end
  else (s, Ok tt).

(** ** Transactions *)

Inductive Transaction := BEGIN | ROLLBACK | COMMIT.

Definition pop_transaction (val : Transaction) : OS unit :=
  match val with
  | BEGIN => modify (fun s => mk_os (os_data s) (os_pos s) (os_pos s))
  | ROLLBACK =>
      s ← get;
      if os_transpos s >? os_size s
      then throw (ExnStream "invalid transaction rollback position")
      else put (os_with_pos (os_transpos s) s)
  | COMMIT => try_shrink
  end.

(** ** Compact integers *)

(** [push_compact]: the thread-local buffer is cleared, filled and appended. *)
Definition push_compact (value : Z) : OS unit :=
  match write_varint value [] with
  | None => fail OutOfFuel
  | Some buffer => on_data (fun d => octets_append d (Some <$> buffer) (len buffer))
  end.

(** The cells from [_data.begin() + _pos] to [_data.end()]. *)
Definition os_rest (s : octetsstream) : outcome (list cell) :=
  if os_pos s <=? os_size s
  then mem_read (o_buf (os_data s)) (os_pos s) (os_size s - os_pos s)
  else Ok [].

Definition pop_compact : OS Z :=
  s ← get;
  rest ← lift (os_rest s);
  r ← lift (read_varint rest);
  match r with
  | (_, None) => throw (ExnStream "varint decode failed")
  | (value, Some n) => modify (os_advance n);; mret value
  end.

Definition push_compactu16 (value : Z) : OS unit := push_compact value.
Definition pop_compactu16 : OS Z := tmp ← pop_compact; mret (u16 tmp).
Definition push_compact16 (value : Z) : OS unit := push_compactu16 (encode_zigzag16 value).
Definition pop_compact16 : OS Z := tmp ← pop_compactu16; mret (decode_zigzag16 tmp).
Definition push_compactu32 (value : Z) : OS unit := push_compact value.
Definition pop_compactu32 : OS Z := tmp ← pop_compact; mret (u32 tmp).
Definition push_compact32 (value : Z) : OS unit := push_compactu32 (encode_zigzag32 value).
Definition pop_compact32 : OS Z := tmp ← pop_compactu32; mret (decode_zigzag32 tmp).
Definition push_compactu64 (value : Z) : OS unit := push_compact value.
Definition pop_compactu64 : OS Z := pop_compact.
Definition push_compact64 (value : Z) : OS unit := push_compactu64 (encode_zigzag64 value).
Definition pop_compact64 : OS Z := tmp ← pop_compactu64; mret (decode_zigzag64 tmp).

(** ** Plain old data: raw bytes in network order *)

Definition push_raw (t : pod_type) (mem : list byte) : OS unit :=
  let temp := hostToNetwork t mem in
  on_data (fun d => octets_append d (Some <$> temp) (Z.of_nat (sizeof t))).

Definition pop_raw (t : pod_type) : OS (list byte) :=
  s ← get;
  let n := Z.of_nat (sizeof t) in
  if u64 (os_pos s + n) >? os_size s then throw (ExnStream "no enough data!!!")
  else
    c ← lift (mem_read (o_buf (os_data s)) (os_pos s) n);
    val ← lift (cells_init c);
    modify (os_advance n);;
    mret (if n >? 1 then networkToHost t val else val).

(** ** Integral types *)

Inductive int_type := I8 | U8 | Bool8 | I16 | U16 | I32 | U32 | I64 | U64.

Definition int_size (t : int_type) : Z :=
  match t with
  | I8 | U8 | Bool8 => 1 | I16 | U16 => 2 | I32 | U32 => 4 | I64 | U64 => 8
  end.
Definition int_in (t : int_type) (v : Z) : bool :=
  match t with
  | I8 => (- 128 <=? v) && (v <? 128)
  | U8 => (0 <=? v) && (v <? 256)
  | Bool8 => (0 <=? v) && (v <? 2)
  | I16 => (- 2 ^ 15 <=? v) && (v <? 2 ^ 15)
  | U16 => (0 <=? v) && (v <? 2 ^ 16)
  | I32 => (- 2 ^ 31 <=? v) && (v <? 2 ^ 31)
  | U32 => (0 <=? v) && (v <? 2 ^ 32)
  | I64 => (- 2 ^ 63 <=? v) && (v <? 2 ^ 63)
  | U64 => (0 <=? v) && (v <? 2 ^ 64)
  end.

(** A one-byte integer as the pod overload stores it. *)
Definition push_byte (t : pod_type) (v : Z) : OS unit := push_raw t [byte_of_Z v].
Definition pop_byte (signed : bool) (t : pod_type) : OS Z :=
  m ← pop_raw t;
  let v := of_le m in mret (if signed then wrapS 8 v else v).

(** [compact_int<T>::pack] and [unpack]. *)
Definition compact_pack (t : int_type) (value : Z) : OS unit :=
  match t with
  | I8 => push_byte PodI8 (wrapS 8 value)
  | U8 | Bool8 => push_byte PodU8 (u8 value)
  | I16 => push_compact16 (wrapS 16 (s32 value))
  | U16 => push_compactu16 (u16 (s32 value))
  | I32 => push_compact32 (s32 value)
  | U32 => push_compactu32 (u32 value)
  | I64 => push_compact64 (s64 value)
  | U64 => push_compactu64 (u64 value)
  end.
Definition compact_unpack (t : int_type) : OS Z :=
  match t with
  | I8 => pop_byte true PodI8
  | U8 => pop_byte false PodU8
  | Bool8 => pop_byte false PodBool
  | I16 => pop_compact16
  | U16 => pop_compactu16
  | I32 => pop_compact32
  | U32 => pop_compactu32
  | I64 => pop_compact64
  | U64 => pop_compactu64
  end.

(** [push] and [pop] of an integral pod: wider than a byte it goes through
    [compact_int]. *)
Definition push_int (t : int_type) (val : Z) : OS unit :=
  if int_size t >? 1 then compact_pack t val
  else match t with
       | I8 => push_byte PodI8 val
       | Bool8 => push_byte PodBool val
       | _ => push_byte PodU8 val
       end.
Definition pop_int (t : int_type) : OS Z :=
  if int_size t >? 1 then compact_unpack t
  else match t with
       | I8 => pop_byte true PodI8
       | Bool8 => pop_byte false PodBool
       | _ => pop_byte false PodU8
       end.

(** ** [octets] values *)

Definition push_octets (val : octets) : OS unit :=
  push_int U64 (octets_size val);;
  on_data (fun d => octets_append d (o_buf val) (octets_size val)).

(** The value is appended to what [val] already holds. *)
Definition pop_octets (val : octets) : OS octets :=
  size ← pop_int U64;
  s ← get;
  if u64 (os_pos s + size) >? os_size s then throw (ExnStream "no enough data!!!")
  else
    val ← lift (octets_append val (drop (Z.to_nat (os_pos s)) (o_buf (os_data s))) size);
    modify (os_advance size);;
    mret val.

(** ** The interface of serialisable types

    One instance per overload of [push] and [pop].  [pop] takes the object it
    fills: some overloads append to it instead of replacing it.  [fresh] is
    the default-constructed object and [cpp_sizeof] the size of the type;
    [pod_class] tells whether the type is [pod], with the memory of its values,
    which containers of them copy as it is. *)

Record pod_memory (A : Type) := mk_pod_memory { pod_store : A -> list byte; pod_load : list byte -> A }.
Arguments mk_pod_memory {A}.
Arguments pod_store {A}.
Arguments pod_load {A}.

Class Marshal (A : Type) := {
  push : A -> OS unit;
  pop : A -> OS A;
  fresh : A;
  cpp_sizeof : Z;
  pod_class : option (pod_memory A);
}.

(** An integer lies in memory in the order of the host, the least significant
    byte first. *)
Definition int_load (t : int_type) (mem : list byte) : Z :=
  match t with
  | I8 | I16 | I32 | I64 => wrapS (8 * int_size t) (of_le mem)
  | _ => of_le mem
  end.
Definition int_memory (t : int_type) : pod_memory Z :=
  mk_pod_memory (le_bytes (Z.to_nat (int_size t))) (int_load t).

(** Integers carry their type in an index. *)
Definition cint (t : int_type) : Type := Z.
#[export] Instance cint_marshal t : Marshal (cint t) := {|
  push := push_int t;
  pop := fun _ => pop_int t;
  fresh := 0;
  cpp_sizeof := int_size t;
  pod_class := Some (int_memory t);
|}.

#[export] Instance octets_marshal : Marshal octets := {|
  push := push_octets;
  pop := pop_octets;
  fresh := octets_null;
  cpp_sizeof := 24;
  pod_class := None;
|}.

(** Contiguous containers of pods (strings, vectors of numbers): the elements'
    memory is copied as it is; a container is the list of its elements' bytes. *)
Section PodContainers.
Variable elem_size : Z.

Definition push_pods (size : Z) (mem : list byte) : OS unit :=
  compact_pack U64 size;;
  on_data (fun d => octets_append d (Some <$> mem) (u64 (size * elem_size))).

Definition pop_pods : OS (list byte) :=
  size ← compact_unpack U64;
  (if size * elem_size >? PTRDIFF_MAX then throw (ExnLength "reserve") else mret tt);;
  s ← get;
  let total_bytes := u64 (size * elem_size) in
  if u64 (os_pos s + total_bytes) >? os_size s then throw (ExnStream "no enough data!!!")
  else
    c ← lift (mem_read (o_buf (os_data s)) (os_pos s) total_bytes);
    mem ← lift (cells_init c);
    modify (os_advance total_bytes);;
    mret mem.
End PodContainers.

Section Containers.
Context {A : Type} `{!Marshal A}.

(** [push(const std::pair&)] and [pop(std::pair&)]. *)
Definition push_pair {B} `{!Marshal B} (val : A * B) : OS unit :=
  push val.1;; push val.2.
Definition pop_pair {B} `{!Marshal B} (val : A * B) : OS (A * B) :=
  a ← pop val.1; b ← pop val.2; mret (a, b).

Fixpoint push_all (l : list A) : OS unit :=
  match l with
  | [] => mret tt
  | x :: l => push x;; push_all l
  end.

(** [push_container]: the size; then the memory of the elements as it is when the
    container is contiguous and its elements are pods, each element otherwise. *)
Definition push_container (contiguous : bool) (container : list A) : OS unit :=
  match (if contiguous then pod_class else None) with
  | Some m => push_pods cpp_sizeof (len container) (container ≫= pod_store m)
  | None => compact_pack U64 (len container);; push_all container
  end.

Fixpoint pop_elements (n : nat) (container : list A) : OS (list A) :=
  match n with
  | O => mret container
  | S n => element ← pop fresh; pop_elements n (container ++ [element])
  end.

(** [reserve] of a vector: more elements than fit the address space are
    refused. *)
Definition vector_reserve (n : Z) : OS unit :=
  if n * cpp_sizeof >? PTRDIFF_MAX then throw (ExnLength "vector::reserve") else mret tt.

(** The elements that lie in a piece of memory. *)
Definition load_elements (m : pod_memory A) (mem : list byte) : list A :=
  pod_load m <$> reshape (replicate (Z.to_nat (len mem / cpp_sizeof)) (Z.to_nat cpp_sizeof)) mem.

(** [pop_container] of a vector, which is contiguous and has [reserve], or of a
    list, which neither is nor has.  The memory of pods replaces what a vector
    holds; other elements are inserted at the end. *)
Definition pop_container (vector : bool) (container : list A) : OS (list A) :=
  match (if vector then pod_class else None) with
  | Some m => mem ← pop_pods cpp_sizeof; mret (load_elements m mem)
  | None =>
      size ← compact_unpack U64;
      (if vector then vector_reserve size else mret tt);;
      pop_elements (Z.to_nat size) container
  end.

(** A [std::array] carries no size; one of pods is a pod itself. *)
Definition push_array (container : list A) : OS unit := push_all container.
End Containers.

(** [std::string], as the bytes it holds. *)
Definition cpp_string : Type := list byte.
#[export] Instance cpp_string_eq_dec : EqDecision cpp_string.
Proof. unfold cpp_string. apply _. Defined.
#[export] Instance cpp_string_marshal : Marshal cpp_string := {|
  push := fun s => push_pods 1 (len s) s;
  pop := fun _ => pop_pods 1;
  fresh := [];
  cpp_sizeof := 32;
  pod_class := None;
|}.

(** A [std::pair] is not trivial, hence no pod. *)
#[export] Instance pair_marshal {A B} `{!Marshal A, !Marshal B} : Marshal (A * B) := {|
  push := push_pair;
  pop := pop_pair;
  fresh := (fresh, fresh);
  cpp_sizeof := cpp_sizeof (A := A) + cpp_sizeof (A := B);
  pod_class := None;
|}.

#[export] Instance vector_marshal {A} `{!Marshal A} : Marshal (list A) := {|
  push := push_container true;
  pop := pop_container true;
  fresh := [];
  cpp_sizeof := 24;
  pod_class := None;
|}.

(** [std::map]: the pairs are written in iteration order, which the map's
    comparator decides, and [insert] keeps the value of a key that is already
    there. *)
Class MapOrder (K V : Type) `{Countable K} := {
  map_order : gmap K V -> list (K * V);
  map_order_perm m : map_order m ≡ₚ map_to_list m;
}.

Section Maps.
Context {K V : Type} `{Countable K} `{!Marshal K, !Marshal V} `{!MapOrder K V}.

Definition map_insert (kv : K * V) (m : gmap K V) : gmap K V :=
  match m !! kv.1 with Some _ => m | None => <[kv.1 := kv.2]> m end.

Definition push_map (m : gmap K V) : OS unit :=
  compact_pack U64 (Z.of_nat (size m));; push_all (map_order m).

Fixpoint pop_map_elements (n : nat) (m : gmap K V) : OS (gmap K V) :=
  match n with
  | O => mret m
  | S n => kv ← pop_pair (fresh, fresh); pop_map_elements n (map_insert kv m)
  end.
Definition pop_map (m : gmap K V) : OS (gmap K V) :=
  size ← compact_unpack U64; pop_map_elements (Z.to_nat size) m.
End Maps.

(** ** Specifications of stream operations *)

(** The stream holds the initialised bytes [bs] and its cursor is inside. *)
Record os_repr (s : octetsstream) (bs : list byte) : Prop := {
  os_repr_data : octets_repr (os_data s) bs;
  os_repr_pos : 0 <= os_pos s <= len bs;
}.

(** The stream holds the cells [cs], perhaps some of them indeterminate. *)
Record os_cells (s : octetsstream) (cs : list cell) : Prop := {
  os_cells_data : octets_cells (os_data s) cs;
  os_cells_pos : 0 <= os_pos s <= len cs;
}.

Lemma os_cells_repr s bs : os_cells s (Some <$> bs) <-> os_repr s bs.
Proof. split; intros [Hd Hp]; (split; [by apply cells_repr|by rewrite len_fmap in *]). Qed.

(** [c] appends [d] and moves no cursor. *)
Definition pushes (c : OS unit) (d : list byte) : Prop := forall s cs,
  os_cells s cs -> len cs + len d <= MAX_OCTETS ->
  exists s', c s = (s', Ok tt) /\ os_cells s' (cs ++ (Some <$> d)) /\
    os_pos s' = os_pos s /\ os_transpos s' = os_transpos s.

(** With [d] at the cursor, [c] consumes exactly [d] and its result
    satisfies [P]. *)
Definition pops {A} (c : OS A) (d : list byte) (P : A -> Prop) : Prop :=
  forall s pre rest,
  os_repr s (pre ++ d ++ rest) -> os_pos s = len pre ->
  exists a, c s = (os_with_pos (len pre + len d) s, Ok a) /\ P a.

Lemma os_repr_max s bs : os_repr s bs -> len bs <= MAX_OCTETS.
Proof.
  intros [Hd _]. pose proof (repr_len _ _ Hd). pose proof (repr_wf _ _ Hd) as [? ? ?]. lia.
Qed.

Lemma os_size_repr s bs : os_repr s bs -> os_size s = len bs.
Proof. intros [Hd _]. by apply repr_len. Qed.

Lemma pushes_nil c d : (forall s, c s = (s, Ok tt)) -> d = [] -> pushes c d.
Proof. intros Hc -> s bs Hr _. exists s. rewrite Hc. simpl. rewrite app_nil_r. done. Qed.

Lemma pushes_bind c1 d1 c2 d2 d :
  pushes c1 d1 -> pushes c2 d2 -> d = d1 ++ d2 -> pushes (c1;; c2) d.
Proof.
  intros H1 H2 -> s cs Hr Hm. rewrite len_app in Hm.
  pose proof (len_nonneg d1). pose proof (len_nonneg d2).
  destruct (H1 s cs) as (s1 & E1 & Hr1 & Hp1 & Ht1); [done|lia|].
  destruct (H2 s1 (cs ++ (Some <$> d1))) as (s2 & E2 & Hr2 & Hp2 & Ht2);
    [done|rewrite len_app, len_fmap; lia|].
  exists s2. rewrite (M_bind_ok _ _ _ _ _ E1), E2, fmap_app, app_assoc. split; [done|].
  split; [done|]. split; congruence.
Qed.

(** On initialised content. *)
Lemma pushes_repr c d s bs :
  pushes c d -> os_repr s bs -> len bs + len d <= MAX_OCTETS ->
  exists s', c s = (s', Ok tt) /\ os_repr s' (bs ++ d) /\
    os_pos s' = os_pos s /\ os_transpos s' = os_transpos s.
Proof.
  intros Hc Hr Hm. destruct (Hc s (Some <$> bs)) as (s' & E & Hr' & ?);
    [by apply os_cells_repr|by rewrite len_fmap|].
  exists s'. rewrite <- os_cells_repr, fmap_app. done.
Qed.

(** An append to the buffer of the initialised bytes [d]. *)
Lemma pushes_append data n d rest :
  data = (Some <$> d) ++ rest -> n = len d ->
  pushes (on_data (fun o => octets_append o data n)) d.
Proof.
  intros Hdata Hn s cs [Hd Hp] Hm.
  destruct (append_cells (os_data s) cs data n (Some <$> d) rest) as (o' & E & Hr & _);
    rewrite ?len_fmap; [done|done|done|lia|].
  exists (os_with_data o' s). unfold on_data. rewrite E.
  split; [done|]. split; [|done]. split; [done|]. simpl. rewrite len_app.
  pose proof (len_nonneg (Some <$> d)). lia.
Qed.

Lemma os_with_pos_idem p q s : os_with_pos p (os_with_pos q s) = os_with_pos p s.
Proof. done. Qed.
Lemma os_with_pos_self s p : p = os_pos s -> os_with_pos p s = s.
Proof. intros ->. by destruct s. Qed.

Lemma os_repr_with_pos s bs p : os_repr s bs -> 0 <= p <= len bs -> os_repr (os_with_pos p s) bs.
Proof. intros [Hd _] Hp. by split. Qed.

Lemma pops_ret {A} (a : A) (P : A -> Prop) : P a -> pops (mret a) [] P.
Proof.
  intros Ha s pre rest Hr Hp. exists a. split; [|done].
  rewrite os_with_pos_self; [done|]. rewrite len_nil. lia.
Qed.

Lemma pops_bind {A B} (c : OS A) (k : A -> OS B) d1 d2 d (P : A -> Prop) (Q : B -> Prop) :
  pops c d1 P -> (forall a, P a -> pops (k a) d2 Q) -> d = d1 ++ d2 -> pops (c ≫= k) d Q.
Proof.
  intros H1 H2 -> s pre rest Hr Hp.
  rewrite <- app_assoc in Hr. destruct (H1 s pre (d2 ++ rest)) as (a & E & Ha); [done|done|].
  destruct (H2 a Ha (os_with_pos (len pre + len d1) s) (pre ++ d1) rest) as (b & E2 & Hb).
  { rewrite <- !app_assoc. apply os_repr_with_pos; [done|].
    rewrite !len_app. pose proof (len_nonneg d1). pose proof (len_nonneg d2).
    pose proof (len_nonneg pre). pose proof (len_nonneg rest). lia. }
  { simpl. by rewrite len_app. }
  exists b. split; [|done]. rewrite (M_bind_ok _ _ _ _ _ E), E2.
  rewrite os_with_pos_idem, !len_app. f_equal. f_equal. lia.
Qed.

Lemma pops_map {A B} (c : OS A) (f : A -> B) d (P : A -> Prop) (Q : B -> Prop) :
  pops c d P -> (forall a, P a -> Q (f a)) -> pops (a ← c; mret (f a)) d Q.
Proof.
  intros Hc Hf. eapply pops_bind; [exact Hc| |symmetry; apply app_nil_r].
  intros a Ha. apply pops_ret. auto.
Qed.

Lemma pops_weaken {A} (c : OS A) d (P Q : A -> Prop) :
  pops c d P -> (forall a, P a -> Q a) -> pops c d Q.
Proof. intros H HPQ s pre rest Hr Hp. destruct (H s pre rest Hr Hp) as (a & ? & ?). eauto. Qed.

(** The bytes at the cursor. *)
Lemma read_at_cursor s pre d rest :
  os_repr s (pre ++ d ++ rest) -> os_pos s = len pre ->
  mem_read (o_buf (os_data s)) (os_pos s) (len d) = Ok (Some <$> d).
Proof.
  intros [Hd Hp'] Hp. pose proof (len_nonneg d). pose proof (len_nonneg rest).
  pose proof (len_nonneg pre).
  pose proof (repr_len _ _ Hd) as Hl. pose proof (repr_wf _ _ Hd) as [Hc Hw _].
  rewrite !len_app in *. rewrite mem_read_ok by lia.
  destruct (repr_split _ _ Hd) as (tl & -> & _). rewrite Hp, !fmap_app, <- !app_assoc.
  pose proof (slice_app_mid (Some <$> pre) (Some <$> d) ((Some <$> rest) ++ tl)) as E.
  rewrite !len_fmap in E. by rewrite E.
Qed.

Lemma cursor_fits s pre d rest n :
  os_repr s (pre ++ d ++ rest) -> os_pos s = len pre -> n = len d ->
  (u64 (os_pos s + n) >? os_size s) = false /\
  os_advance n s = os_with_pos (len pre + len d) s.
Proof.
  intros Hr Hp ->. pose proof (os_repr_max _ _ Hr) as Hm. rewrite !len_app in Hm.
  pose proof (len_nonneg d). pose proof (len_nonneg rest). pose proof (len_nonneg pre).
  unfold os_advance. rewrite Hp, wrapU_small by octets_lia. split; [|done].
  rewrite (os_size_repr _ _ Hr), !len_app. destruct (Z.gtb_spec (len pre + len d)
    (len pre + (len d + len rest))); [lia|done].
Qed.

(** ** The overloads meet their specifications *)

Lemma push_compact_pushes v : inU 64 v -> pushes (push_compact v) (varint v).
Proof.
  intros Hv. unfold push_compact. rewrite write_varint_spec by done. cbn [app].
  by apply (pushes_append _ _ _ []); rewrite ?app_nil_r.
Qed.

Lemma pop_compact_pops v : inU 64 v -> pops pop_compact (varint v) (eq v).
Proof.
  intros Hv s pre rest Hr Hp. exists v. split; [|done].
  pose proof (os_size_repr _ _ Hr) as Hs. pose proof (len_nonneg rest).
  pose proof (len_nonneg (varint v)).
  assert (Hrest : os_rest s = Ok ((Some <$> varint v) ++ (Some <$> rest))).
  { unfold os_rest. rewrite Hs, Hp, !len_app. destruct (Z.leb_spec (len pre)
      (len pre + (len (varint v) + len rest))); [|lia].
    rewrite <- fmap_app, <- Hp.
    replace (os_pos s + _ - os_pos s) with (len (varint v ++ rest)) by (rewrite len_app; lia).
    apply (read_at_cursor s pre _ []); [by rewrite app_nil_r|done]. }
  unfold pop_compact, get, lift, modify, mbind, M_bind, mret, M_ret. rewrite Hrest.
  rewrite read_varint_spec by done. cbv beta iota zeta.
  by destruct (cursor_fits s pre (varint v) rest (len (varint v)) Hr Hp eq_refl) as [_ ->].
Qed.

Lemma push_raw_pushes t mem : length mem = sizeof t -> pushes (push_raw t mem) (rev mem).
Proof.
  intros Hm. unfold push_raw. rewrite hostToNetwork_rev by done.
  replace (Z.of_nat (sizeof t)) with (len (rev mem)) by (unfold len; rewrite length_rev; congruence).
  by apply (pushes_append _ _ _ []); rewrite ?app_nil_r.
Qed.

Lemma pop_raw_pops t mem : length mem = sizeof t -> pops (pop_raw t) (rev mem) (eq mem).
Proof.
  intros Hm s pre rest Hr Hp. exists mem. split; [|done].
  assert (Hn : Z.of_nat (sizeof t) = len (rev mem)) by (unfold len; rewrite length_rev; congruence).
  destruct (cursor_fits s pre (rev mem) rest (Z.of_nat (sizeof t)) Hr Hp Hn) as [Hf Ha].
  unfold pop_raw, get, lift, modify, mbind, M_bind, mret, M_ret. rewrite Hf, Hn.
  rewrite (read_at_cursor s pre (rev mem) rest) by done. rewrite cells_init_Some.
  rewrite <- Hn, Ha, Hn. cbv beta iota zeta. f_equal. f_equal. rewrite <- Hn.
  destruct (Z.gtb_spec (Z.of_nat (sizeof t)) 1) as [|Hle].
  - rewrite networkToHost_rev, rev_involutive; [done|]. by rewrite length_rev.
  - destruct mem as [|b [|]]; [done|done|]. simpl in Hm. lia.
Qed.

(** The bytes of a one-byte integer, and of every integral type. *)
Definition int_bytes (t : int_type) (v : Z) : list byte :=
  match t with
  | I8 | U8 | Bool8 => [byte_of_Z v]
  | I16 | I32 | I64 => varint (to_zigzag v)
  | U16 | U32 | U64 => varint v
  end.

Lemma int_in_spec t v : int_in t v = true ->
  match t with
  | I8 => inS 8 v | U8 => inU 8 v | Bool8 => 0 <= v < 2 | I16 => inS 16 v | U16 => inU 16 v
  | I32 => inS 32 v | U32 => inU 32 v | I64 => inS 64 v | U64 => inU 64 v
  end.
Proof. destruct t; simpl; rewrite andb_true_iff, Z.leb_le, Z.ltb_lt; done. Qed.

Lemma inU_mono w w' v : 0 <= w <= w' -> inU w v -> inU w' v.
Proof.
  unfold inU. intros Hw Hv. pose proof (Z.pow_le_mono_r 2 w w'). lia.
Qed.

Lemma push_byte_pushes t v : sizeof t = 1%nat -> pushes (push_byte t v) [byte_of_Z v].
Proof. intros Ht. apply (push_raw_pushes t [byte_of_Z v]). by rewrite Ht. Qed.

Lemma pop_byte_pops sg t v :
  sizeof t = 1%nat -> (if sg : bool then inS 8 v else inU 8 v) ->
  pops (pop_byte sg t) [byte_of_Z v] (eq v).
Proof.
  intros Ht Hv. unfold pop_byte.
  apply (pops_map (pop_raw t) _ [byte_of_Z v] (eq [byte_of_Z v])).
  { apply (pop_raw_pops t [byte_of_Z v]). by rewrite Ht. }
  intros m <-. simpl. rewrite Z_of_byte_of_Z, Z.add_0_r. destruct sg.
  - unfold inS, wrapS, wrapU in *. change (2 ^ (8 - 1)) with 128 in *.
    change (2 ^ 8) with 256 in *. rewrite Z.add_mod_idemp_l, Z.mod_small by lia. lia.
  - by rewrite wrapU_small.
Qed.

Lemma zigzag_bytes16 v : inS 16 v -> inU 16 (to_zigzag v) /\ encode_zigzag16 v = to_zigzag v.
Proof. split; [by apply to_zigzag_range|by apply encode_zigzag16_spec]. Qed.

Lemma compact_pack_pushes t v :
  int_in t v = true -> pushes (compact_pack t v) (int_bytes t v).
Proof.
  intros Hi. pose proof (int_in_spec t v Hi) as Hv. destruct t; simpl in *.
  - rewrite wrapS_small by done. by apply push_byte_pushes.
  - rewrite wrapU_small by done. by apply push_byte_pushes.
  - rewrite wrapU_small by word_lia. by apply push_byte_pushes.
  - rewrite (wrapS_small 32) by (done || word_lia). rewrite wrapS_small by done.
    unfold push_compact16, push_compactu16. rewrite encode_zigzag16_spec by done.
    apply push_compact_pushes, (inU_mono 16); [lia|]. by apply to_zigzag_range.
  - rewrite (wrapS_small 32) by (done || word_lia). rewrite wrapU_small by done.
    apply push_compact_pushes, (inU_mono 16); [lia|done].
  - rewrite (wrapS_small 32) by done.
    unfold push_compact32, push_compactu32. rewrite encode_zigzag32_spec by done.
    apply push_compact_pushes, (inU_mono 32); [lia|]. by apply to_zigzag_range.
  - rewrite wrapU_small by done. apply push_compact_pushes, (inU_mono 32); [lia|done].
  - rewrite (wrapS_small 64) by done.
    unfold push_compact64, push_compactu64. rewrite encode_zigzag64_spec by done.
    apply push_compact_pushes. by apply to_zigzag_range.
  - rewrite wrapU_small by done. by apply push_compact_pushes.
Qed.

(** A compact pop: decode, truncate, undo the zigzag. *)
Lemma pop_compact_then (f : Z -> Z) u v :
  inU 64 u -> f u = v -> pops (tmp ← pop_compact; mret (f tmp)) (varint u) (eq v).
Proof.
  intros Hu Hf. apply (pops_map _ f _ (eq u)); [by apply pop_compact_pops|].
  by intros a <-.
Qed.

Lemma pops_map_fuse {A B C} (c : OS A) (f : A -> B) (g : B -> C) d P :
  pops (a ← c; mret (g (f a))) d P -> pops (b ← (a ← c; mret (f a)); mret (g b)) d P.
Proof.
  intros H s pre rest Hr Hp. destruct (H s pre rest Hr Hp) as (x & E & HP). exists x.
  split; [|done]. rewrite <- E. unfold mbind, M_bind. by destruct (c s) as [s' [a| |]].
Qed.

Lemma compact_unpack_pops t v :
  int_in t v = true -> pops (compact_unpack t) (int_bytes t v) (eq v).
Proof.
  intros Hi. pose proof (int_in_spec t v Hi) as Hv.
  assert (Hz : forall w, 0 < w <= 64 -> inS w v -> inU 64 (to_zigzag v)).
  { intros w Hw Hs. apply (inU_mono w); [lia|]. apply to_zigzag_range; [lia|done]. }
  assert (Hw : forall w, 0 < w -> inS w v -> wrapU w (to_zigzag v) = to_zigzag v).
  { intros w ? Hs. apply wrapU_small. by apply to_zigzag_range. }
  destruct t; simpl in *.
  - by apply pop_byte_pops.
  - by apply pop_byte_pops.
  - apply pop_byte_pops; [done|word_lia].
  - apply (pops_map_fuse _ u16 decode_zigzag16), (pop_compact_then (fun x => _ (u16 x)));
      [by apply (Hz 16)|].
    rewrite (Hw 16), decode_zigzag16_spec by (done || by apply to_zigzag_range).
    apply unzigzag_to_zigzag.
  - apply pop_compact_then; [by apply (inU_mono 16)|by apply wrapU_small].
  - apply (pops_map_fuse _ u32 decode_zigzag32), (pop_compact_then (fun x => _ (u32 x)));
      [by apply (Hz 32)|].
    rewrite (Hw 32), decode_zigzag32_spec by (done || by apply to_zigzag_range).
    apply unzigzag_to_zigzag.
  - apply pop_compact_then; [by apply (inU_mono 32)|by apply wrapU_small].
  - apply pop_compact_then; [by apply (Hz 64)|].
    rewrite decode_zigzag64_spec by (by apply to_zigzag_range). apply unzigzag_to_zigzag.
  - by apply pop_compact_pops.
Qed.

Lemma push_int_pushes t v : int_in t v = true -> pushes (push_int t v) (int_bytes t v).
Proof.
  intros Hi. pose proof (compact_pack_pushes t v Hi). unfold push_int.
  destruct t; simpl in *; try done; by apply push_byte_pushes.
Qed.

Lemma pop_int_pops t v : int_in t v = true -> pops (pop_int t) (int_bytes t v) (eq v).
Proof.
  intros Hi. pose proof (compact_unpack_pops t v Hi). unfold pop_int.
  destruct t; simpl in *; done.
Qed.

(** ** Safety on arbitrary input

    [c] run on any initialised content neither faults nor changes the content,
    and its cursor moves forward inside it, whether [c] returns or throws. *)
Definition safe {A} (c : OS A) : Prop := forall s bs,
  os_repr s bs ->
  match c s with
  | (_, Fault _) => False
  | (s', _) => os_data s' = os_data s /\ os_pos s <= os_pos s' <= len bs
  end.

Lemma safe_ret {A} (a : A) : safe (mret a).
Proof. intros s bs [_ Hp]. simpl. split; [done|lia]. Qed.

Lemma safe_throw {A} e : safe (throw (A := A) e).
Proof. intros s bs [_ Hp]. simpl. split; [done|lia]. Qed.

Lemma safe_bind {A B} (c : OS A) (k : A -> OS B) :
  safe c -> (forall a, safe (k a)) -> safe (c ≫= k).
Proof.
  intros Hc Hk s bs Hr. specialize (Hc s bs Hr). unfold mbind, M_bind.
  destruct (c s) as [s1 [a| |]] eqn:E; [|done|done]. destruct Hc as [Hd Hp].
  assert (Hr1 : os_repr s1 bs).
  { destruct Hr as [Hr1 Hr2]. split; [by rewrite Hd|lia]. }
  specialize (Hk a s1 bs Hr1). destruct (k a s1) as [s2 [b| |]]; [..|done];
    destruct Hk as [Hd2 Hp2]; rewrite Hd2; (split; [done|lia]).
Qed.

Lemma safe_map {A B} (c : OS A) (f : A -> B) : safe c -> safe (a ← c; mret (f a)).
Proof. intros Hc. apply safe_bind; [done|]. intros a. apply safe_ret. Qed.

Lemma read_inside s bs n :
  os_repr s bs -> 0 <= n -> os_pos s + n <= len bs ->
  exists d, mem_read (o_buf (os_data s)) (os_pos s) n = Ok (Some <$> d) /\ len d = n.
Proof.
  intros Hr Hn Hf. pose proof Hr as [_ Hp].
  set (p := os_pos s) in *.
  exists (slice bs p n). split; [|by rewrite len_slice by lia].
  pose proof (slice_split bs p n ltac:(lia) Hn) as E.
  assert (Hl : len (slice bs p n) = n) by (apply len_slice; lia).
  assert (Hlt : p = len (take (Z.to_nat p) bs)) by (unfold len in *; rewrite length_take; lia).
  pose proof Hr as Hr'. rewrite E in Hr'.
  pose proof (read_at_cursor s _ _ _ Hr' Hlt) as Hread. rewrite Hl in Hread. exact Hread.
Qed.

(** Shrinking keeps what is unread. *)
Lemma try_shrink_ok s bs : os_repr s bs ->
  exists s' bs', try_shrink s = (s', Ok tt) /\ os_repr s' bs' /\
    drop (Z.to_nat (os_pos s')) bs' = drop (Z.to_nat (os_pos s)) bs.
Proof.
  intros Hr. pose proof Hr as [Hd Hp]. unfold try_shrink.
  destruct (os_pos s >? _); [|by exists s, bs].
  destruct (erase_repr (os_data s) bs 0 (os_pos s) Hd) as (o & E & Ho & _); [lia|lia|].
  change (Z.to_nat 0) with 0%nat in Ho. rewrite take_0, app_nil_l, Z.add_0_l in Ho.
  rewrite E. eexists _, _. split; [done|]. split; [split; [exact Ho|]|]; simpl.
  - pose proof (len_nonneg (drop (Z.to_nat (os_pos s)) bs)). lia.
  - by rewrite drop_0.
Qed.

Lemma pop_compact_safe : safe pop_compact.
Proof.
  intros s bs Hr. pose proof Hr as [_ Hp]. pose proof (os_size_repr _ _ Hr) as Hs.
  pose proof (os_repr_max _ _ Hr).
  destruct (read_inside s bs (len bs - os_pos s)) as (d & Hd & Hl); [done|lia|lia|].
  unfold pop_compact, get, lift, modify, throw, mbind, M_bind, mret, M_ret, os_rest.
  rewrite Hs. destruct (Z.leb_spec (os_pos s) (len bs)); [|lia]. rewrite Hd.
  destruct (read_varint_total d) as (v & r & -> & Hv & Hk).
  destruct r as [k|]; [|split; [done|lia]]. simpl. split; [done|].
  rewrite wrapU_small by octets_lia. lia.
Qed.

Lemma pop_raw_safe t : Z.of_nat (sizeof t) <= PTRDIFF_MAX -> safe (pop_raw t).
Proof.
  intros Hsz s bs Hr. pose proof Hr as [_ Hp]. pose proof (os_size_repr _ _ Hr) as Hs.
  pose proof (os_repr_max _ _ Hr).
  unfold pop_raw, get, lift, modify, throw, mbind, M_bind, mret, M_ret. rewrite Hs.
  rewrite wrapU_small by octets_lia.
  destruct (Z.gtb_spec (os_pos s + Z.of_nat (sizeof t)) (len bs)) as [|Hle];
    [split; [done|lia]|].
  destruct (read_inside s bs (Z.of_nat (sizeof t))) as (d & -> & Hl); [done|lia|lia|].
  rewrite cells_init_Some. simpl. split; [done|]. rewrite wrapU_small by octets_lia. lia.
Qed.

Lemma pop_byte_safe sg t : sizeof t = 1%nat -> safe (pop_byte sg t).
Proof. intros Ht. apply safe_map, pop_raw_safe. by rewrite Ht. Qed.

Lemma compact_unpack_safe t : safe (compact_unpack t).
Proof.
  pose proof pop_compact_safe as Hc. destruct t; simpl.
  1-3: by apply pop_byte_safe.
  - apply safe_map, safe_map, Hc.
  - apply safe_map, Hc.
  - apply safe_map, safe_map, Hc.
  - apply safe_map, Hc.
  - apply safe_map, Hc.
  - exact Hc.
Qed.

Lemma pop_int_safe t : safe (pop_int t).
Proof.
  assert (pop_int t = compact_unpack t) as -> by (by destruct t). apply compact_unpack_safe.
Qed.

(** A stream that ends inside a compact integer. *)
Lemma pop_compact_cut v k s pre :
  inU 64 v -> (k < length (varint v))%nat ->
  os_repr s (pre ++ take k (varint v)) -> os_pos s = len pre ->
  pop_compact s = (s, Throw (ExnStream "varint decode failed")).
Proof.
  intros Hv Hk Hr Hp. pose proof (os_size_repr _ _ Hr) as Hs.
  pose proof (len_nonneg (take k (varint v))).
  assert (Hrest : os_rest s = Ok (Some <$> take k (varint v))).
  { unfold os_rest. rewrite Hs, Hp, len_app. destruct (Z.leb_spec (len pre)
      (len pre + len (take k (varint v)))); [|lia].
    replace (len pre + _ - len pre) with (len (take k (varint v))) by lia. rewrite <- Hp.
    apply (read_at_cursor s pre _ []); [by rewrite app_nil_r|done]. }
  destruct (read_varint_loop_prefix 10 v k 0 0 0 Hk ltac:(apply Hv)) as [w E].
  unfold pop_compact, get, lift, mbind, M_bind. rewrite Hrest.
  unfold read_varint, varint. by rewrite E.
Qed.

(** A compact integer takes at least one byte. *)
Lemma pop_compact_progress s bs s' v :
  os_repr s bs -> pop_compact s = (s', Ok v) -> os_pos s < os_pos s'.
Proof.
  intros Hr E. pose proof Hr as [_ Hp]. pose proof (os_size_repr _ _ Hr) as Hs.
  pose proof (os_repr_max _ _ Hr).
  destruct (read_inside s bs (len bs - os_pos s)) as (d & Hd & Hl); [done|lia|lia|].
  revert E. unfold pop_compact, get, lift, modify, throw, mbind, M_bind, mret, M_ret, os_rest.
  rewrite Hs. destruct (Z.leb_spec (os_pos s) (len bs)); [|lia]. rewrite Hd.
  destruct (read_varint_total d) as (w & r & -> & Hw & Hk).
  destruct r as [k|]; intros E; simplify_eq. simpl. rewrite wrapU_small by octets_lia. lia.
Qed.

Lemma compact_unpack_u32_progress s bs s' v :
  os_repr s bs -> compact_unpack U32 s = (s', Ok v) ->
  os_pos s < os_pos s' /\ os_repr s' bs /\ os_data s' = os_data s /\ os_transpos s' = os_transpos s.
Proof.
  intros Hr E. pose proof (compact_unpack_safe U32 s bs Hr) as Hsafe. rewrite E in Hsafe.
  apply M_bind_inv in E as (s1 & w & E1 & E2). unfold mret, M_ret in E2. simplify_eq.
  pose proof (pop_compact_progress s bs _ w Hr E1). destruct Hsafe as [Hd Hp].
  assert (Ht : os_transpos s' = os_transpos s); [|pose proof Hr as [? ?]; split; [done|];
    split; [split; [by rewrite Hd|lia]|done]].
  apply M_bind_inv in E1 as (? & ? & E1 & E2). unfold get in E1. simplify_eq.
  apply M_bind_inv in E2 as (? & ? & E1 & E2). unfold lift in E1. simplify_eq.
  apply M_bind_inv in E2 as (? & [? [?|]] & E1 & E2); unfold lift in E1; simplify_eq.
  unfold mbind, M_bind, modify, mret, M_ret in E2. by simplify_eq.
Qed.

(** The sizes the decoder reads are 64-bit values. *)
Lemma compact_unpack_u64_range s bs s' v :
  os_repr s bs -> compact_unpack U64 s = (s', Ok v) ->
  inU 64 v /\ os_repr s' bs /\ os_data s' = os_data s /\ os_pos s <= os_pos s'.
Proof.
  intros Hr E. pose proof (compact_unpack_safe U64 s bs Hr) as Hsafe. rewrite E in Hsafe.
  destruct Hsafe as [Hd Hp]. split; [|split; [split; [rewrite Hd; by destruct Hr|]|split; [done|lia]]].
  2:{ destruct Hr as [_ ?]. lia. }
  simpl in E. unfold pop_compactu64, pop_compact, get, lift, modify, throw, mbind, M_bind, mret, M_ret in E.
  pose proof Hr as [_ Hp']. pose proof (os_size_repr _ _ Hr) as Hs.
  destruct (read_inside s bs (len bs - os_pos s)) as (d & Hread & Hl); [done|lia|lia|].
  unfold os_rest in E. rewrite Hs in E. destruct (Z.leb_spec (os_pos s) (len bs)); [|lia].
  rewrite Hread in E. destruct (read_varint_total d) as (w & r & Ev & Hv & _).
  rewrite Ev in E. destruct r; simplify_eq. done.
Qed.

Lemma pop_octets_fresh_safe : safe (pop_octets octets_null).
Proof.
  intros s bs Hr. unfold pop_octets. pose proof Hr as [_ Hp].
  pose proof (pop_int_safe U64 s bs Hr) as Hsafe.
  destruct (pop_int U64 s) as [s1 [size| |]] eqn:E.
  2,3: unfold mbind, M_bind; rewrite E; done.
  change (pop_int U64) with (compact_unpack U64) in *.
  destruct (compact_unpack_u64_range s bs s1 size Hr E) as (Hsz & Hr1 & Hd1 & Hp1).
  rewrite (M_bind_ok _ _ _ _ _ E).
  pose proof Hr1 as [_ Hb1]. pose proof (os_size_repr _ _ Hr1) as Hs.
  pose proof (os_repr_max _ _ Hr1) as Hm.
  unfold get, lift, modify, throw, mbind, M_bind, mret, M_ret. rewrite Hs.
  destruct (Z.gtb_spec (u64 (os_pos s1 + size)) (len bs)) as [|Hle]; [split; [done|lia]|].
  destruct (decide (size <= 2 ^ 63)) as [Hsmall|Hbig].
  - rewrite wrapU_small in Hle by octets_lia. unfold inU in Hsz.
    destruct (read_inside s1 bs size) as (d & Hd & Hl); [done|lia|lia|].
    set (data := drop (Z.to_nat (os_pos s1)) (o_buf (os_data s1))).
    assert (Hdata : data = (Some <$> d) ++ drop (Z.to_nat size) data).
    { rewrite <- (take_drop (Z.to_nat size) data) at 1. f_equal.
      unfold mem_read in Hd. destruct (in_array _ _ _); [|done]. simplify_eq. done. }
    destruct (append_repr octets_null [] data size d (drop (Z.to_nat size) data))
      as (o' & -> & _ & _); [apply null_repr|done|done|rewrite len_nil; lia|].
    simpl. split; [done|]. rewrite wrapU_small by octets_lia. lia.
  - unfold octets_append. unfold inU in Hsz. destruct (Z.eqb_spec size 0); [lia|].
    simpl o_len. rewrite Z.add_0_l, wrapU_small by (unfold inU; lia).
    unfold octets_reserve. simpl o_cap. destruct (Z.geb_spec 0 size); [lia|].
    unfold frob_size. change (Z.shiftl 1 63) with (2 ^ 63).
    destruct (Z.gtb_spec size (2 ^ 63)); [|lia]. simpl. split; [done|lia].
Qed.

Lemma pop_pods_safe es : 0 < es -> safe (pop_pods es).
Proof.
  intros Hes s bs Hr. unfold pop_pods. pose proof Hr as [_ Hp].
  pose proof (compact_unpack_safe U64 s bs Hr) as Hsafe.
  destruct (compact_unpack U64 s) as [s1 [size| |]] eqn:E.
  2,3: unfold mbind, M_bind; rewrite E; done.
  destruct (compact_unpack_u64_range s bs s1 size Hr E) as (Hsz & Hr1 & Hd1 & Hp1).
  rewrite (M_bind_ok _ _ _ _ _ E).
  pose proof Hr1 as [_ Hb1]. pose proof (os_size_repr _ _ Hr1) as Hs.
  pose proof (os_repr_max _ _ Hr1) as Hm. unfold inU in Hsz.
  unfold get, lift, modify, throw, mbind, M_bind, mret, M_ret.
  destruct (Z.gtb_spec (size * es) PTRDIFF_MAX) as [|Hfit]; [split; [done|lia]|].
  assert (0 <= size * es) by nia. rewrite (wrapU_small 64 (size * es)) by octets_lia.
  rewrite wrapU_small by octets_lia. rewrite Hs.
  destruct (Z.gtb_spec (os_pos s1 + size * es) (len bs)) as [|Hle]; [split; [done|lia]|].
  destruct (read_inside s1 bs (size * es)) as (d & -> & Hl); [done|lia|lia|].
  rewrite cells_init_Some. simpl. split; [done|]. rewrite wrapU_small by octets_lia. lia.
Qed.

Lemma pop_elements_safe {A} `{!Marshal A} n container :
  safe (pop (fresh (A := A))) -> safe (pop_elements n container).
Proof.
  intros Hs. revert container. induction n as [|n IH]; intros; simpl; [apply safe_ret|].
  by apply safe_bind.
Qed.

Lemma pop_container_safe {A} `{!Marshal A} r container :
  0 < cpp_sizeof (A := A) -> safe (pop (fresh (A := A))) -> safe (pop_container r container).
Proof.
  intros H0 Hs. unfold pop_container. destruct (if r then _ else _); [by apply safe_map, pop_pods_safe|].
  apply safe_bind; [apply compact_unpack_safe|]. intros size.
  apply safe_bind; [|intros _; by apply pop_elements_safe].
  destruct r; [|apply safe_ret]. unfold vector_reserve.
  destruct (_ >? _); [apply safe_throw|apply safe_ret].
Qed.

Lemma pop_pair_safe {A B} `{!Marshal A, !Marshal B} :
  safe (pop (fresh (A := A))) -> safe (pop (fresh (A := B))) ->
  safe (pop_pair (fresh (A := A), fresh (A := B))).
Proof. intros. apply safe_bind; [done|]. intros a. by apply safe_map. Qed.

(** No read moves the mark of the transaction. *)
Definition keeps_mark {A} (c : OS A) : Prop := forall s, os_transpos (c s).1 = os_transpos s.

Lemma keeps_bind {A B} (c : OS A) (k : A -> OS B) :
  keeps_mark c -> (forall a, keeps_mark (k a)) -> keeps_mark (c ≫= k).
Proof.
  intros Hc Hk s. unfold mbind, M_bind. specialize (Hc s).
  destruct (c s) as [s1 [a| |]]; [|done|done]. by rewrite Hk.
Qed.

Lemma keeps_ret {A} (a : A) : keeps_mark (mret a).
Proof. done. Qed.
Lemma keeps_throw {A} e : keeps_mark (throw (A := A) e).
Proof. done. Qed.
Lemma keeps_get : keeps_mark get.
Proof. done. Qed.
Lemma keeps_lift {A} (o : outcome A) : keeps_mark (lift o).
Proof. done. Qed.
Lemma keeps_advance n : keeps_mark (modify (os_advance n)).
Proof. done. Qed.
#[export] Hint Resolve keeps_ret keeps_throw keeps_get keeps_lift keeps_advance : bee.

Ltac keeps :=
  first [solve [auto with bee]
        |repeat (apply keeps_bind; [solve [auto with bee]|intros ?]); auto with bee].

Lemma pop_compact_keeps : keeps_mark pop_compact.
Proof. unfold pop_compact. keeps. destruct a1 as [? []]; cbv beta iota zeta; keeps. Qed.
Lemma pop_raw_keeps t : keeps_mark (pop_raw t).
Proof. unfold pop_raw. keeps. destruct (_ >? _); keeps. Qed.
#[export] Hint Resolve pop_compact_keeps pop_raw_keeps : bee.

Lemma compact_unpack_keeps t : keeps_mark (compact_unpack t).
Proof.
  destruct t; cbn [compact_unpack];
    unfold pop_byte, pop_compact16, pop_compactu16, pop_compact32, pop_compactu32,
      pop_compact64, pop_compactu64; keeps; (apply keeps_bind; keeps).
Qed.
#[export] Hint Resolve compact_unpack_keeps : bee.

Lemma pop_int_keeps t : keeps_mark (pop_int t).
Proof.
  assert (pop_int t = compact_unpack t) as -> by (by destruct t). apply compact_unpack_keeps.
Qed.
#[export] Hint Resolve pop_int_keeps : bee.

Lemma pop_octets_keeps val : keeps_mark (pop_octets val).
Proof. unfold pop_octets. keeps. destruct (_ >? _); keeps. Qed.
Lemma pop_pods_keeps es : keeps_mark (pop_pods es).
Proof.
  unfold pop_pods. keeps. apply keeps_bind; [destruct (_ >? _); keeps|]. intros _. keeps.
  destruct (_ >? _); keeps.
Qed.

Lemma pop_elements_keeps {A} `{!Marshal A} n container :
  keeps_mark (pop (fresh (A := A))) -> keeps_mark (pop_elements n container).
Proof.
  intros Hs. revert container. induction n as [|n IH]; intros; simpl; [apply keeps_ret|].
  by apply keeps_bind.
Qed.

Lemma pop_container_keeps {A} `{!Marshal A} r container :
  keeps_mark (pop (fresh (A := A))) -> keeps_mark (pop_container r container).
Proof.
  intros Hs. unfold pop_container. destruct (if r then _ else _) as [m|].
  { apply keeps_bind; [apply pop_pods_keeps|]. intros mem. keeps. }
  apply keeps_bind; [keeps|]. intros size. apply keeps_bind.
  - destruct r; [|keeps]. unfold vector_reserve. destruct (_ >? _); keeps.
  - intros _. by apply pop_elements_keeps.
Qed.

Lemma pop_pair_keeps {A B} `{!Marshal A, !Marshal B} :
  keeps_mark (pop (fresh (A := A))) -> keeps_mark (pop (fresh (A := B))) ->
  keeps_mark (pop_pair (fresh (A := A), fresh (A := B))).
Proof. intros. apply keeps_bind; [done|]. intros a. apply keeps_bind; [done|]. keeps. Qed.

(** ** The laws of the interface

    Objects are compared up to an equivalence: two buffers with the same
    content are the same value although their capacities differ. *)

#[export] Instance cint_equiv t : Equiv (cint t) := eq.
#[export] Instance cpp_string_equiv : Equiv cpp_string := eq.
#[export] Instance octets_equiv : Equiv octets := fun a b =>
  octets_content a = octets_content b.

#[export] Instance cint_equivalence t : Equivalence (≡@{cint t}).
Proof. unfold equiv, cint_equiv. apply _. Qed.
#[export] Instance cpp_string_equivalence : Equivalence (≡@{cpp_string}).
Proof. unfold equiv, cpp_string_equiv. apply _. Qed.
#[export] Instance octets_equivalence : Equivalence (≡@{octets}).
Proof.
  split.
  - by intros a.
  - by intros a b H.
  - intros a b c H1 H2. unfold equiv, octets_equiv in *. congruence.
Qed.

Class MarshalOk (A : Type) `{!Marshal A, !Equiv A} : Type := {
  m_wf : A -> Prop;
  m_bytes : A -> list byte;
  m_equivalence :: Equivalence (≡@{A});
  m_sizeof : 0 < cpp_sizeof (A := A);
  m_pod m a : pod_class = Some m -> m_wf a ->
    len (pod_store m a) = cpp_sizeof (A := A) /\ pod_load m (pod_store m a) ≡ a;
  m_push a : m_wf a -> pushes (push a) (m_bytes a);
  m_pop a : m_wf a -> pops (pop fresh) (m_bytes a) (fun b => b ≡ a);
  m_safe : safe (pop (fresh (A := A)));
}.

Lemma of_le_le_bytes n z : of_le (le_bytes n z) = z mod 256 ^ Z.of_nat n.
Proof.
  revert z. induction n as [|n IH]; intros z; [by rewrite Z.mod_1_r|].
  cbn [le_bytes of_le]. rewrite IH, Z_of_byte_of_Z. unfold wrapU. change (2 ^ 8) with 256.
  rewrite Nat2Z.inj_succ, Z.pow_succ_r by lia.
  rewrite (Z.rem_mul_r z 256 (256 ^ Z.of_nat n)); [done|done|]. apply Z.pow_pos_nonneg; lia.
Qed.

Lemma int_memory_ok t v : int_in t v = true ->
  len (pod_store (int_memory t) v) = int_size t /\ pod_load (int_memory t) (pod_store (int_memory t) v) = v.
Proof.
  intros Hv%int_in_spec. split; [unfold len; cbn; rewrite length_le_bytes; by destruct t|].
  unfold int_memory, int_load. cbn [pod_load pod_store]. rewrite of_le_le_bytes.
  assert (Hs : forall w, 0 < w -> inS w v -> wrapS w (v mod 2 ^ w) = v).
  { intros w Hw Hw'. rewrite <- (wrapS_small w v Hw Hw') at 2. unfold wrapS. by rewrite Zplus_mod_idemp_l. }
  assert (Hu : forall w, inU w v -> v mod 2 ^ w = v) by (intros w Hw; by apply Z.mod_small).
  destruct t; [apply (Hs 8); [lia|done]|by apply (Hu 8)|apply (Hu 8); unfold inU; lia|
    apply (Hs 16); [lia|done]|by apply (Hu 16)|apply (Hs 32); [lia|done]|by apply (Hu 32)|
    apply (Hs 64); [lia|done]|by apply (Hu 64)].
Qed.

#[export] Program Instance cint_ok t : MarshalOk (cint t) := {|
  m_wf v := int_in t v = true;
  m_bytes v := int_bytes t v;
|}.
Next Obligation. by intros []. Qed.
Next Obligation. intros t m v [= <-] Hv. by apply int_memory_ok. Qed.
Next Obligation. intros t v Hv. by apply push_int_pushes. Qed.
Next Obligation.
  intros t v Hv. eapply pops_weaken; [by apply pop_int_pops|]. by intros a <-.
Qed.
Next Obligation. apply pop_int_safe. Qed.

(** The length prefix of a container. *)
Lemma push_size_pushes n : inU 64 n -> pushes (compact_pack U64 n) (varint n).
Proof.
  intros Hn. apply (compact_pack_pushes U64). simpl.
  rewrite andb_true_iff, Z.leb_le, Z.ltb_lt. exact Hn.
Qed.

Lemma pop_size_pops n : inU 64 n -> pops (compact_unpack U64) (varint n) (eq n).
Proof.
  intros Hn. apply (compact_unpack_pops U64). simpl.
  rewrite andb_true_iff, Z.leb_le, Z.ltb_lt. exact Hn.
Qed.

(** A length-prefixed block of bytes. *)
Definition block (d : list byte) : list byte := varint (len d) ++ d.

Lemma len_u64 {A} (d : list A) : len d <= PTRDIFF_MAX -> inU 64 (len d).
Proof. intros H. pose proof (len_nonneg d). unfold inU. word_lia. Qed.

(** The memory of [n] elements of the size [es]. *)
Lemma push_memory_pushes es n d : len d <= PTRDIFF_MAX -> inU 64 n -> n * es = len d ->
  pushes (push_pods es n d) (varint n ++ d).
Proof.
  intros Hd Hn E. pose proof (len_u64 d Hd) as Hu.
  eapply pushes_bind; [by apply push_size_pushes| |done].
  rewrite E, wrapU_small by done.
  by apply (pushes_append _ _ _ []); rewrite ?app_nil_r.
Qed.
Lemma push_pods_pushes d : len d <= PTRDIFF_MAX -> pushes (push_pods 1 (len d) d) (block d).
Proof. intros Hd. apply push_memory_pushes; [done|by apply len_u64|lia]. Qed.

Lemma pop_memory_pops es n d : len d <= PTRDIFF_MAX -> inU 64 n -> n * es = len d ->
  pops (pop_pods es) (varint n ++ d) (eq d).
Proof.
  intros Hd Hn E. pose proof (len_u64 d Hd) as Hu.
  eapply pops_bind; [by apply (pop_size_pops n)| |done]. intros n' <- s pre rest Hr Hp.
  unfold get, lift, modify, throw, mbind, M_bind, mret, M_ret.
  rewrite E. destruct (Z.gtb_spec (len d) PTRDIFF_MAX); [lia|].
  rewrite (wrapU_small 64 (len d)) by done.
  destruct (cursor_fits s pre d rest (len d) Hr Hp eq_refl) as [-> ->].
  rewrite (read_at_cursor s pre d rest), cells_init_Some by done. eauto.
Qed.
Lemma pop_pods_pops d : len d <= PTRDIFF_MAX -> pops (pop_pods 1) (block d) (eq d).
Proof. intros Hd. apply pop_memory_pops; [done|by apply len_u64|lia]. Qed.

#[export] Program Instance cpp_string_ok : MarshalOk cpp_string := {|
  m_wf d := len (d : list byte) <= PTRDIFF_MAX;
  m_bytes d := block d;
|}.
Next Obligation. done. Qed.
Next Obligation. done. Qed.
Next Obligation. intros d Hd. by apply push_pods_pushes. Qed.
Next Obligation.
  intros d Hd. eapply pops_weaken; [by apply pop_pods_pops|]. by intros a <-.
Qed.
Next Obligation. by apply pop_pods_safe. Qed.

(** The bytes an [octets] object holds (its content is initialised when it is
    well formed). *)
Definition octets_bytes (o : octets) : list byte :=
  default [] (mapM (M := option) id (octets_content o)).

Lemma octets_bytes_repr o bs : octets_repr o bs -> octets_bytes o = bs.
Proof.
  intros [_ Hb]. unfold octets_bytes. by rewrite Hb, mapM_id_Some.
Qed.

Lemma push_octets_pushes o d : octets_repr o d -> pushes (push_octets o) (block d).
Proof.
  intros Hr. pose proof (repr_len _ _ Hr) as Hl. pose proof (repr_wf _ _ Hr) as [Hc Hw Hm].
  unfold push_octets, octets_size. rewrite Hl.
  eapply pushes_bind; [apply (push_size_pushes (len d)); unfold inU; octets_lia| |done].
  destruct (repr_split _ _ Hr) as (tl & Hb & _). by apply (pushes_append _ _ _ tl).
Qed.

Lemma pop_octets_pops d :
  len d <= MAX_OCTETS ->
  pops (pop_octets octets_null) (block d) (fun o => octets_repr o d).
Proof.
  intros Hd. assert (Hu : inU 64 (len d)).
  { pose proof (len_nonneg d). unfold inU. octets_lia. }
  eapply pops_bind; [by apply (pop_size_pops (len d))| |done]. intros n <- s pre rest Hr Hp.
  unfold get, lift, modify, throw, mbind, M_bind, mret, M_ret.
  destruct (cursor_fits s pre d rest (len d) Hr Hp eq_refl) as [-> ->].
  pose proof (read_at_cursor s pre d rest Hr Hp) as Hread.
  set (data := drop (Z.to_nat (os_pos s)) (o_buf (os_data s))).
  assert (Hdata : data = (Some <$> d) ++ drop (Z.to_nat (len d)) data).
  { rewrite <- (take_drop (Z.to_nat (len d)) data) at 1. f_equal.
    unfold mem_read in Hread. destruct (in_array _ _ _); [|done]. simplify_eq. done. }
  destruct (append_repr octets_null [] data (len d) d (drop (Z.to_nat (len d)) data))
    as (o' & -> & Hr' & _); [apply null_repr|done|done|rewrite len_nil; lia|]. eauto.
Qed.

#[export] Program Instance octets_ok : MarshalOk octets := {|
  m_wf o := exists d, octets_repr o d;
  m_bytes o := block (octets_bytes o);
|}.
Next Obligation. done. Qed.
Next Obligation. done. Qed.
Next Obligation.
  intros o [d Hd]. simpl. rewrite (octets_bytes_repr o d Hd). by apply push_octets_pushes.
Qed.
Next Obligation.
  intros o [d Hd]. simpl. rewrite (octets_bytes_repr o d Hd).
  pose proof (repr_wf _ _ Hd) as [? ? ?]. pose proof (repr_len _ _ Hd).
  eapply pops_weaken; [apply pop_octets_pops; lia|]. intros a [_ Ha].
  unfold equiv, octets_equiv. destruct Hd as [_ Hd]. congruence.
Qed.
Next Obligation. apply pop_octets_fresh_safe. Qed.

Section ContainerLaws.
Context {A : Type} `{!Marshal A, !Equiv A, !MarshalOk A}.

Lemma push_all_pushes l :
  Forall m_wf l -> pushes (push_all l) (l ≫= m_bytes).
Proof.
  induction 1 as [|a l Ha Hl IH]; [by apply pushes_nil|].
  eapply pushes_bind; [by apply m_push|exact IH|done].
Qed.

Lemma pop_elements_pops l container :
  Forall m_wf l ->
  pops (pop_elements (length l) container) (l ≫= m_bytes) (fun c => c ≡ container ++ l).
Proof.
  intros Hl. revert container. induction Hl as [|a l Ha Hl IH]; intros container; simpl.
  - apply pops_ret. by rewrite app_nil_r.
  - eapply pops_bind; [by apply m_pop| |done]. intros b Hb.
    eapply pops_weaken; [apply IH|]. intros c Hc. rewrite Hc, Hb.
    by rewrite <- app_assoc.
Qed.

(** A container of elements that fits a vector's address space. *)
Definition list_wf (l : list A) : Prop :=
  Forall m_wf l /\ len l * cpp_sizeof (A := A) <= PTRDIFF_MAX.
Definition list_bytes (contiguous : bool) (l : list A) : list byte :=
  varint (len l) ++
  match (if contiguous then pod_class else None) with
  | Some m => l ≫= pod_store m
  | None => l ≫= m_bytes
  end.

Lemma list_wf_len l : list_wf l -> inU 64 (len l).
Proof.
  intros [_ Hs]. apply len_u64. pose proof m_sizeof. pose proof (len_nonneg l). nia.
Qed.

(** The memory of a container of pods. *)
Lemma store_len m l : pod_class = Some m -> Forall m_wf l -> len (l ≫= pod_store m) = len l * cpp_sizeof (A := A).
Proof.
  intros Hm. induction 1 as [|a l Ha _ IH]; [done|]. rewrite bind_cons, len_app, len_cons, IH, (proj1 (m_pod m a Hm Ha)). lia.
Qed.
Lemma load_stored m l : pod_class = Some m -> Forall m_wf l -> load_elements m (l ≫= pod_store m) ≡ l.
Proof.
  intros Hm Hl. unfold load_elements. rewrite (store_len m l Hm Hl), Z.div_mul by (pose proof m_sizeof; lia).
  unfold len. rewrite Nat2Z.id.
  assert (E : reshape (replicate (length l) (Z.to_nat (cpp_sizeof (A := A)))) (l ≫= pod_store m) = pod_store m <$> l).
  { induction Hl as [|a l Ha _ IH]; [done|]. cbn [length replicate reshape fmap list_fmap]. rewrite bind_cons.
    destruct (m_pod m a Hm Ha) as [Hlen _]. unfold len in Hlen.
    rewrite take_app_length', drop_app_length' by lia. by rewrite IH. }
  rewrite E. clear E. induction Hl as [|a l Ha _ IH]; [done|]. cbn [fmap list_fmap]. constructor; [|done].
  apply (m_pod m a Hm Ha).
Qed.

Lemma push_container_pushes contiguous l : list_wf l -> pushes (push_container contiguous l) (list_bytes contiguous l).
Proof.
  intros Hl. pose proof Hl as [Hwf Hsz]. unfold push_container, list_bytes.
  destruct (if contiguous then _ else _) as [m|] eqn:Hm.
  - assert (pod_class = Some m) as Hm' by (by destruct contiguous). pose proof (store_len m l Hm' Hwf).
    apply push_memory_pushes; [lia|by apply list_wf_len|done].
  - eapply pushes_bind; [apply push_size_pushes; by apply list_wf_len| |done]. by apply push_all_pushes.
Qed.

(** What a vector of pods held is replaced. *)
Definition kept (vector : bool) (container : list A) : list A :=
  match (if vector then pod_class (A := A) else None) with Some _ => [] | None => container end.

Lemma pop_container_pops r l container :
  list_wf l -> pops (pop_container r container) (list_bytes r l) (fun c => c ≡ kept r container ++ l).
Proof.
  intros Hl. pose proof Hl as [Hwf Hsz]. unfold pop_container, list_bytes, kept.
  destruct (if r then _ else _) as [m|] eqn:Hm.
  - assert (pod_class = Some m) as Hm' by (by destruct r). pose proof (store_len m l Hm' Hwf).
    apply (pops_map _ _ _ (eq (l ≫= pod_store m)));
      [apply pop_memory_pops; [lia|by apply list_wf_len|done]|].
    intros mem <-. by apply load_stored.
  - eapply pops_bind; [apply pop_size_pops; by apply list_wf_len| |done].
    intros n <-. eapply (pops_bind _ _ [] _ _ (fun _ => True)); [| |done].
    + destruct r; [|by apply pops_ret]. unfold vector_reserve.
      destruct (Z.gtb_spec (len l * cpp_sizeof (A := A)) PTRDIFF_MAX) as [Hgt|];
        [lia|by apply pops_ret].
    + intros _ _. unfold len. rewrite Nat2Z.id. by apply pop_elements_pops.
Qed.
End ContainerLaws.

#[export] Program Instance pair_ok {A B} `{!Marshal A, !Equiv A, !MarshalOk A}
    `{!Marshal B, !Equiv B, !MarshalOk B} : MarshalOk (A * B) := {|
  m_wf v := m_wf v.1 /\ m_wf v.2;
  m_bytes v := m_bytes v.1 ++ m_bytes v.2;
|}.
Next Obligation. intros. pose proof (m_sizeof (A := A)). pose proof (m_sizeof (A := B)). simpl. lia. Qed.
Next Obligation. done. Qed.
Next Obligation.
  intros A B ?????? [a b] [Ha Hb]. eapply pushes_bind; [by apply m_push|by apply m_push|done].
Qed.
Next Obligation.
  intros A B ?????? [a b] [Ha Hb]. eapply pops_bind; [by apply m_pop| |done].
  intros a' Ha'. apply (pops_map _ _ _ (fun b' => b' ≡ b)); [by apply m_pop|].
  intros b' Hb'. by split.
Qed.
Next Obligation. intros. apply pop_pair_safe; apply m_safe. Qed.

#[export] Program Instance vector_ok {A} `{!Marshal A, !Equiv A, !MarshalOk A} :
  MarshalOk (list A) := {| m_wf := list_wf; m_bytes := list_bytes true |}.
Next Obligation. done. Qed.
Next Obligation. done. Qed.
Next Obligation. intros. by apply push_container_pushes. Qed.
Next Obligation.
  intros A ??? l Hl. eapply pops_weaken; [exact (pop_container_pops true l [] Hl)|].
  intros c Hc. unfold kept in Hc. by destruct pod_class.
Qed.
Next Obligation. intros. apply pop_container_safe; [apply m_sizeof|apply m_safe]. Qed.

(** The types built from integers, strings, buffers, pairs and vectors.  A
    [std::vector<bool>] has no [data] and is not among those that compile. *)
Inductive ty := TInt (t : int_type) | TString | TOctets | TPair (a b : ty) | TVec (a : ty).

Fixpoint denote (t : ty) : Type :=
  match t with
  | TInt t => cint t
  | TString => cpp_string
  | TOctets => octets
  | TPair a b => denote a * denote b
  | TVec a => list (denote a)
  end.

#[export] Instance ty_marshal : forall t, Marshal (denote t) :=
  fix go t := match t return Marshal (denote t) with
  | TInt t => cint_marshal t
  | TString => cpp_string_marshal
  | TOctets => octets_marshal
  | TPair a b => @pair_marshal _ _ (go a) (go b)
  | TVec a => @vector_marshal _ (go a)
  end.
#[export] Instance ty_equiv : forall t, Equiv (denote t) :=
  fix go t := match t return Equiv (denote t) with
  | TInt t => cint_equiv t
  | TString => cpp_string_equiv
  | TOctets => octets_equiv
  | TPair a b => @prod_equiv _ (go a) _ (go b)
  | TVec a => @list_equiv _ (go a)
  end.
#[export] Instance ty_ok : forall t, MarshalOk (denote t) :=
  fix go t := match t return MarshalOk (denote t) with
  | TInt t => cint_ok t
  | TString => cpp_string_ok
  | TOctets => octets_ok
  | TPair a b => @pair_ok _ _ _ _ (go a) _ _ (go b)
  | TVec a => @vector_ok _ _ _ (go a)
  end.

Lemma ty_keeps t : keeps_mark (pop (fresh (A := denote t))).
Proof.
  induction t as [t| | |a IHa b IHb|a IHa]; simpl.
  - apply pop_int_keeps.
  - apply pop_pods_keeps.
  - apply pop_octets_keeps.
  - by apply pop_pair_keeps.
  - by apply pop_container_keeps.
Qed.

(** Maps. *)
Section MapLaws.
Context {K V : Type} `{Countable K} `{!Marshal K, !Marshal V, !Equiv K, !Equiv V}.
Context `{!LeibnizEquiv K, !LeibnizEquiv V, !MarshalOk K, !MarshalOk V} `{!MapOrder K V}.

Lemma pop_map_elements_pops kvs m :
  Forall (fun kv => m_wf (kv : K * V)) kvs ->
  pops (pop_map_elements (length kvs) m) (kvs ≫= m_bytes)
    (fun r => r = fold_left (fun m kv => map_insert kv m) kvs m).
Proof.
  intros Hl. revert m. induction Hl as [|kv kvs Hkv Hl IH]; intros m; simpl.
  - by apply pops_ret.
  - eapply pops_bind; [exact (m_pop kv Hkv)| |done]. intros kv' [E1 E2].
    apply leibniz_equiv in E1, E2. assert (kv' = kv) as -> by (destruct kv, kv'; simpl in *; congruence).
    apply IH.
Qed.

Lemma fold_map_insert kvs (m : gmap K V) :
  NoDup kvs.*1 -> (forall k, k ∈ kvs.*1 -> m !! k = None) ->
  fold_left (fun m kv => map_insert kv m) kvs m = list_to_map kvs ∪ m.
Proof.
  revert m. induction kvs as [|[k v] kvs IH]; intros m Hnd Hm; simpl.
  { by rewrite map_empty_union. }
  apply NoDup_cons in Hnd as [Hk Hnd].
  assert (map_insert (k, v) m = <[k:=v]> m) as ->.
  { unfold map_insert. simpl. rewrite Hm; [done|]. left. }
  rewrite IH; [|done|].
  - rewrite <- insert_union_r by by apply not_elem_of_list_to_map_1.
    by rewrite insert_union_l.
  - intros j Hj. rewrite lookup_insert_ne by (intros ->; done). apply Hm. by right.
Qed.

Definition map_wf (m : gmap K V) : Prop :=
  map_Forall (fun k v => m_wf k /\ m_wf v) m /\ Z.of_nat (size m) <= PTRDIFF_MAX.
Definition map_bytes (m : gmap K V) : list byte :=
  varint (Z.of_nat (size m)) ++ (map_order m ≫= m_bytes).

Lemma map_order_wf m : map_wf m -> Forall (fun kv => m_wf (kv : K * V)) (map_order m).
Proof.
  intros [Hm _]. rewrite map_order_perm. apply Forall_forall. intros [k v] Hin.
  apply elem_of_map_to_list in Hin. exact (Hm k v Hin).
Qed.

Lemma map_size_u64 m : map_wf m -> inU 64 (Z.of_nat (size m)).
Proof. intros [_ Hs]. unfold inU. word_lia. Qed.

Lemma push_map_pushes m : map_wf m -> pushes (push_map m) (map_bytes m).
Proof.
  intros Hm. eapply pushes_bind; [by apply push_size_pushes, map_size_u64| |done].
  apply push_all_pushes. by apply map_order_wf.
Qed.

Lemma pop_map_pops m : map_wf m -> pops (pop_map ∅) (map_bytes m) (eq m).
Proof.
  intros Hm. eapply pops_bind; [by apply pop_size_pops, map_size_u64| |done].
  intros n <-. rewrite Nat2Z.id.
  assert (size m = length (map_order m)) as ->.
  { rewrite map_order_perm. symmetry. apply length_map_to_list. }
  eapply pops_weaken; [by apply pop_map_elements_pops, map_order_wf|].
  intros r ->. rewrite fold_map_insert.
  - rewrite map_union_empty. trans (list_to_map (M := gmap K V) (map_to_list m)).
    { by rewrite list_to_map_to_list. }
    apply list_to_map_proper; [apply NoDup_fst_map_to_list|by rewrite map_order_perm].
  - rewrite map_order_perm. apply NoDup_fst_map_to_list.
  - intros. apply lookup_empty.
Qed.
End MapLaws.

#[export] Instance cint_eq_dec t : EqDecision (cint t).
Proof. unfold cint. apply _. Defined.
#[export] Instance cint_countable t : Countable (cint t).
Proof. unfold cint. apply _. Defined.
#[export] Instance cint_leibniz t : LeibnizEquiv (cint t).
Proof. by intros a b. Qed.
#[export] Instance cpp_string_leibniz : LeibnizEquiv cpp_string.
Proof. by intros a b. Qed.

(** The iteration order of the canonical enumeration. *)
#[export] Instance map_to_list_order {K V} `{Countable K} : MapOrder K V := {|
  map_order m := map_to_list m;
  map_order_perm m := Permutation_refl _;
|}.

(** ** Properties *)

(** The empty stream. *)
Definition os_null : octetsstream := mk_os octets_null 0 0.
Lemma os_null_repr : os_repr os_null [].
Proof. split; [apply null_repr|done]. Qed.

(** C9 — Round trip for every type built from the nine integral types, strings,
    buffers, pairs and vectors (the memory of a vector of numbers, the elements
    of any other): what [push] writes, [pop] reads back as an
    equivalent object, from the position where it was written and whatever
    was there before, consuming exactly the bytes written. *)
Theorem marshal_roundtrip (t : ty) (v : denote t) s bs :
  m_wf v -> os_repr s bs -> len bs + len (m_bytes v) <= MAX_OCTETS ->
  exists s1 s2 v', push v s = (s1, Ok tt) /\ os_repr s1 (bs ++ m_bytes v) /\
    os_pos s1 = os_pos s /\
    pop fresh (os_with_pos (len bs) s1) = (s2, Ok v') /\ v' ≡ v /\
    os_pos s2 = os_size s2.
Proof.
  intros Hv Hr Hm. destruct (pushes_repr _ _ _ _ (m_push v Hv) Hr Hm) as (s1 & E1 & Hr1 & Hp1 & _).
  pose proof (len_nonneg bs). pose proof (len_nonneg (m_bytes v)).
  destruct (m_pop v Hv (os_with_pos (len bs) s1) bs []) as (v' & E2 & Hv').
  { rewrite app_nil_r. apply os_repr_with_pos; [done|]. rewrite len_app. lia. }
  { done. }
  exists s1. eexists _, v'. split; [done|]. split; [done|]. split; [done|].
  split; [exact E2|]. split; [done|].
  change (len bs + len (m_bytes v) = os_size s1). rewrite (os_size_repr _ _ Hr1), len_app. lia.
Qed.

(** A vector of numbers, whose memory is copied, and one of pairs. *)
Definition marshal_demo : denote (TPair (TVec (TInt I32)) (TVec (TPair (TInt I32) TString))) :=
  ([-300; 70000], [(-300, [x61; x62]); (70000, [])]).
Example marshal_demo_bytes : m_bytes marshal_demo =
  [x02; xd4; xfe; xff; xff; x70; x11; x01; x00; x02; xd7; x04; x02; x61; x62; xe0; xc5; x08; x00].
Proof. vm_compute. reflexivity. Qed.

Lemma marshal_demo_wf : m_wf marshal_demo.
Proof.
  split; (split; [repeat constructor; done|vm_compute; discriminate]).
Defined.

Lemma marshal_roundtrip_witness :
  m_wf marshal_demo /\ os_repr os_null [] /\
  exists s1 s2 v', push marshal_demo os_null = (s1, Ok tt) /\
    os_repr s1 ([] ++ m_bytes marshal_demo) /\ os_pos s1 = os_pos os_null /\
    pop fresh (os_with_pos (len (@nil byte)) s1) = (s2, Ok v') /\ v' ≡ marshal_demo /\
    os_pos s2 = os_size s2.
Proof.
  split; [exact marshal_demo_wf|]. split; [exact os_null_repr|].
  apply (marshal_roundtrip _ marshal_demo os_null [] marshal_demo_wf os_null_repr).
  vm_compute. discriminate.
Defined.

(** C10 — Safety: reading any of these types from any initialised bytes, with the
    cursor anywhere inside them, never reads out of bounds, never reads an
    indeterminate byte and never loses the content; it returns or throws,
    and the cursor has only moved forward inside the content. *)
Theorem decoder_safe (t : ty) s bs :
  os_repr s bs ->
  match pop (fresh (A := denote t)) s with
  | (_, Fault _) => False
  | (s', _) => os_data s' = os_data s /\ os_pos s <= os_pos s' <= len bs
  end.
Proof. apply (m_safe (A := denote t)). Qed.

Definition hostile_stream : octetsstream :=
  mk_os (mk_octets (Some <$> [xff; xff; xff; xff; xff; xff; xff; xff; xff; x01; x41]) 11 11) 0 0.

Lemma hostile_stream_repr :
  os_repr hostile_stream [xff; xff; xff; xff; xff; xff; xff; xff; xff; x01; x41].
Proof.
  split; [|done]. apply repr_intro; [|done]. split; done.
Defined.

Lemma decoder_safe_witness :
  os_repr hostile_stream [xff; xff; xff; xff; xff; xff; xff; xff; xff; x01; x41] /\
  match pop (fresh (A := denote TOctets)) hostile_stream with
  | (_, Fault _) => False
  | (s', _) => os_data s' = os_data hostile_stream /\ 0 <= os_pos s' <= 11
  end.
Proof.
  split; [exact hostile_stream_repr|].
  exact (decoder_safe TOctets hostile_stream _ hostile_stream_repr).
Defined.

(** Incomplete input: when the stream ends inside a compact integer, the
    read throws the stream's exception and leaves the stream as it was. *)
Theorem pop_compact_truncated v k s pre :
  inU 64 v -> (k < length (varint v))%nat ->
  os_repr s (pre ++ take k (varint v)) -> os_pos s = len pre ->
  pop_compact s = (s, Throw (ExnStream "varint decode failed")).
Proof. apply pop_compact_cut. Qed.

Lemma pop_compact_truncated_witness :
  inU 64 20000 /\
  pop_compact (mk_os (mk_octets (Some <$> take 1 (varint 20000)) 1 1) 0 0)
  = (mk_os (mk_octets (Some <$> take 1 (varint 20000)) 1 1) 0 0,
     Throw (ExnStream "varint decode failed")).
Proof.
  split; [done|].
  apply (pop_compact_truncated 20000 1 _ []); [done|vm_compute; lia| |done].
  split; [|done]. apply repr_intro; [|done]. split; done.
Defined.

(** Round trip of maps: the pairs go out in any iteration order, and
    reading them into an empty map gives the map back. *)
Theorem map_roundtrip {Ord : MapOrder (cint U32) cpp_string} (m : gmap (cint U32) cpp_string) s bs :
  map_wf m -> os_repr s bs -> len bs + len (map_bytes m) <= MAX_OCTETS ->
  exists s1 s2, push_map m s = (s1, Ok tt) /\ os_repr s1 (bs ++ map_bytes m) /\
    pop_map ∅ (os_with_pos (len bs) s1) = (s2, Ok m) /\ os_pos s2 = os_size s2.
Proof.
  intros Hw Hr Hm. destruct (pushes_repr _ _ _ _ (push_map_pushes m Hw) Hr Hm) as (s1 & E1 & Hr1 & Hp1 & _).
  pose proof (len_nonneg bs). pose proof (len_nonneg (map_bytes m)).
  destruct (pop_map_pops m Hw (os_with_pos (len bs) s1) bs []) as (m' & E2 & <-).
  { rewrite app_nil_r. apply os_repr_with_pos; [done|]. rewrite len_app. lia. }
  { done. }
  exists s1. eexists. split; [done|]. split; [done|]. split; [exact E2|].
  change (len bs + len (map_bytes m) = os_size s1). rewrite (os_size_repr _ _ Hr1), len_app. lia.
Qed.

Definition map_demo : gmap (cint U32) cpp_string := {[ 7 := [x61]; 300 := [] ]}.
Lemma map_demo_wf : map_wf map_demo.
Proof.
  split; [|vm_compute; discriminate]. unfold map_demo.
  apply map_Forall_insert_2; [split; [done|vm_compute; discriminate]|].
  apply map_Forall_singleton. split; [done|vm_compute; discriminate].
Qed.

Lemma map_roundtrip_witness :
  map_wf map_demo /\
  exists s1 s2, push_map map_demo os_null = (s1, Ok tt) /\
    os_repr s1 ([] ++ map_bytes map_demo) /\
    pop_map ∅ (os_with_pos (len (@nil byte)) s1) = (s2, Ok map_demo) /\ os_pos s2 = os_size s2.
Proof.
  split; [exact map_demo_wf|].
  apply (map_roundtrip map_demo os_null [] map_demo_wf os_null_repr). vm_compute. discriminate.
Defined.
