(* ===== verification/Session.v ===== *)
(** A connection's state (io/session.h, io/session.cpp) and the operations that
    concern only the session itself: states, close reasons, activity and the
    two pairs of buffers.  What needs the protocol registry or the manager is
    in Network.v. *)

From S2P Require Import Prelude Octets Marshal.

Inductive SESSION_STATE :=
  SESSION_STATE_NONE | SESSION_STATE_ACTIVE | SESSION_STATE_SENDING
| SESSION_STATE_RECVING | SESSION_STATE_CLOSING.

Inductive SESSION_CLOSE_REASON :=
  SESSION_CLOSE_REASON_NONE | SESSION_CLOSE_REASON_LOCAL | SESSION_CLOSE_REASON_REMOTE
| SESSION_CLOSE_REASON_TIMEOUT | SESSION_CLOSE_REASON_RESET | SESSION_CLOSE_REASON_ERROR
| SESSION_CLOSE_REASON_EXCEPTION.

#[export] Instance SESSION_STATE_eq_dec : EqDecision SESSION_STATE.
Proof. solve_decision. Defined.
#[export] Instance SESSION_CLOSE_REASON_eq_dec : EqDecision SESSION_CLOSE_REASON.
Proof. solve_decision. Defined.

(** [_manager] and [_event] are pointers: the manager by its identity ([0] for
    the null pointer), the event by whether there is one. *)
Record session := mk_session {
  ses_sid : Z;
  ses_sockfd : Z;
  ses_state : SESSION_STATE;
  ses_close_reason : SESSION_CLOSE_REASON;
  ses_last_active : Z;
  ses_manager : Z;
  ses_event : bool;
  ses_reados : octetsstream;
  ses_readbuf : octets;
  ses_write_offset : Z;
  ses_writeos : octetsstream;
  ses_writebuf : octets;
}.

Definition ses_with_state (st : SESSION_STATE) (s : session) : session :=
  mk_session (ses_sid s) (ses_sockfd s) st (ses_close_reason s) (ses_last_active s)
    (ses_manager s) (ses_event s) (ses_reados s) (ses_readbuf s) (ses_write_offset s)
    (ses_writeos s) (ses_writebuf s).
Definition ses_with_reason (r : SESSION_CLOSE_REASON) (s : session) : session :=
  mk_session (ses_sid s) (ses_sockfd s) (ses_state s) r (ses_last_active s)
    (ses_manager s) (ses_event s) (ses_reados s) (ses_readbuf s) (ses_write_offset s)
    (ses_writeos s) (ses_writebuf s).
Definition ses_with_active (t : Z) (s : session) : session :=
  mk_session (ses_sid s) (ses_sockfd s) (ses_state s) (ses_close_reason s) t
    (ses_manager s) (ses_event s) (ses_reados s) (ses_readbuf s) (ses_write_offset s)
    (ses_writeos s) (ses_writebuf s).
Definition ses_with_read (os : octetsstream) (b : octets) (s : session) : session :=
  mk_session (ses_sid s) (ses_sockfd s) (ses_state s) (ses_close_reason s) (ses_last_active s)
    (ses_manager s) (ses_event s) os b (ses_write_offset s) (ses_writeos s) (ses_writebuf s).
Definition ses_with_write (off : Z) (os : octetsstream) (b : octets) (s : session) : session :=
  mk_session (ses_sid s) (ses_sockfd s) (ses_state s) (ses_close_reason s) (ses_last_active s)
    (ses_manager s) (ses_event s) (ses_reados s) (ses_readbuf s) off os b.
Definition ses_with_sid (sid : Z) (s : session) : session :=
  mk_session sid (ses_sockfd s) (ses_state s) (ses_close_reason s) (ses_last_active s)
    (ses_manager s) (ses_event s) (ses_reados s) (ses_readbuf s) (ses_write_offset s)
    (ses_writeos s) (ses_writebuf s).
Definition ses_with_event (e : bool) (s : session) : session :=
  mk_session (ses_sid s) (ses_sockfd s) (ses_state s) (ses_close_reason s) (ses_last_active s)
    (ses_manager s) e (ses_reados s) (ses_readbuf s) (ses_write_offset s)
    (ses_writeos s) (ses_writebuf s).
Definition ses_with_manager (m : Z) (s : session) : session :=
  mk_session (ses_sid s) (ses_sockfd s) (ses_state s) (ses_close_reason s) (ses_last_active s)
    m (ses_event s) (ses_reados s) (ses_readbuf s) (ses_write_offset s)
    (ses_writeos s) (ses_writebuf s).

(** [clear()]: the buffers keep their capacity. *)
Definition session_clear (s : session) : session :=
  mk_session 0 0 SESSION_STATE_NONE SESSION_CLOSE_REASON_NONE 0 0 false
    (os_clear (ses_reados s)) (octets_clear (ses_readbuf s))
    0 (os_clear (ses_writeos s)) (octets_clear (ses_writebuf s)).

(** The constructor, given the manager's identity and buffer sizes and the
    current time. *)
Definition session_new (manager rsize wsize now : Z) : outcome session :=
  let null := mk_session 0 0 SESSION_STATE_NONE SESSION_CLOSE_REASON_NONE 0 0 false
                os_null octets_null 0 os_null octets_null in
  let s := session_clear null in
  d0 ← octets_default; d1 ← octets_default; d2 ← octets_default; d3 ← octets_default;
  r ← octets_reserve d0 rsize; rb ← octets_reserve d1 rsize;
  w ← octets_reserve d2 wsize; wb ← octets_reserve d3 wsize;
  Ok (ses_with_active now (ses_with_manager manager
       (ses_with_write 0 (mk_os w 0 0) wb (ses_with_read (mk_os r 0 0) rb s)))).

(** [dup()]: a copy with empty buffers, a fresh identifier and the same
    manager. *)
Definition session_dup (next_sid : Z) (s : session) : session :=
  ses_with_manager (ses_manager s) (ses_with_sid next_sid (session_clear s)).

Definition session_set_close (reason : SESSION_CLOSE_REASON) (s : session) : session :=
  ses_with_reason reason (ses_with_state SESSION_STATE_CLOSING s).
Definition session_is_active (s : session) : bool :=
  bool_decide (ses_state s = SESSION_STATE_ACTIVE).
Definition session_is_close (s : session) : bool :=
  bool_decide (ses_state s = SESSION_STATE_CLOSING).

Definition session_activate (now : Z) (s : session) : session := ses_with_active now s.
Definition session_is_timeout (now timeout : Z) (s : session) : bool :=
  now - ses_last_active s >? timeout.

(** [on_send(len)]. *)
Definition session_on_send (now : Z) (s : session) : session :=
  ses_with_state SESSION_STATE_SENDING (session_activate now s).

(** [wbuffer()]: when the buffer being sent is used up, what was queued
    meanwhile takes its place. *)
Definition session_wbuffer (s : session) : session :=
  if octets_empty (ses_writebuf s) then
    let q := os_data (ses_writeos s) in
    let w := ses_writebuf s in
    ses_with_write (ses_write_offset s) (os_clear (os_with_data w (ses_writeos s))) q s
  else s.

Definition session_clear_wbuffer (s : session) : session :=
  ses_with_write 0 (ses_writeos s) (octets_clear (ses_writebuf s)) s.

Definition session_is_writeos_empty (s : session) : bool :=
  ses_write_offset s =? os_size (ses_writeos s).

(** ** What the session still has to send *)

(** The session's four buffers hold these bytes, and the part of the write
    buffer before the offset is already with the kernel. *)
Record ses_out (s : session) (sent queued : list byte) : Prop := {
  out_buf : octets_repr (ses_writebuf s) sent;
  out_queue : os_repr (ses_writeos s) queued;
  out_off : 0 <= ses_write_offset s <= len sent;
}.

(** The bytes the peer has not been sent yet. *)
Definition pending (off : Z) (buf queued : list byte) : list byte :=
  drop (Z.to_nat off) buf ++ queued.

Lemma os_clear_repr o s bs : octets_repr o bs -> os_repr (os_clear (os_with_data o s)) [].
Proof. intros Ho. split; [by eapply clear_repr|done]. Qed.

(** Taking up the queue neither loses nor reorders a byte. *)
Lemma wbuffer_out s buf queued :
  ses_out s buf queued -> (buf = [] -> ses_write_offset s = 0) ->
  exists buf' queued', ses_out (session_wbuffer s) buf' queued' /\
    ses_write_offset (session_wbuffer s) = ses_write_offset s /\
    pending (ses_write_offset s) buf' queued' = pending (ses_write_offset s) buf queued /\
    (buf' = [] -> queued' = [] /\ buf = [] /\ queued = []) /\ (buf = [] \/ buf' = buf).
Proof.
  intros Ho Hz. pose proof Ho as [Hb Hq Hoff]. unfold session_wbuffer, octets_empty.
  rewrite (repr_len _ _ Hb). destruct (Z.eqb_spec (len buf) 0) as [E|E].
  - assert (buf = []) as -> by (destruct buf; [done|rewrite len_cons in E; pose proof (len_nonneg buf); lia]).
    exists queued, []. rewrite (Hz eq_refl) in *. pose proof (len_nonneg queued).
    split; [|split; [done|split; [|split; [done|by left]]]].
    + split; simpl; [by destruct Hq|by eapply os_clear_repr|lia].
    + unfold pending. simpl. by rewrite app_nil_r.
  - exists buf, queued. split; [done|]. split; [done|]. split; [done|].
    split; [|by right]. intros ->. by rewrite len_nil in E.
Qed.
