(* ===== verification/Protocol.v ===== *)
(** Messages and their framing (io/protocol.h, io/protocol.cpp): the registry of
    stubs, [encode] and [decode], proved against the interface of a message
    class rather than against any one class. *)

From S2P Require Import Prelude Octets Varint Marshal Session.

(** ** Messages *)

(** What a class of messages overrides: the value [B] stands for the object's
    own members and its dynamic type. *)
Class ProtocolBody (B : Type) := {
  get_type : B -> Z;
  maxsize : B -> Z;
  pack : B -> OS unit;
  unpack : B -> OS B;
}.

(** A [protocol] object: the members of the base class and the derived part. *)
Record protocol (B : Type) := mk_protocol {
  prot_type : Z;
  prot_priority : Z;
  prot_sid : Z;
  prot_manager : Z;
  prot_body : B;
}.
Arguments mk_protocol {B}.
Arguments prot_type {B}.
Arguments prot_priority {B}.
Arguments prot_sid {B}.
Arguments prot_manager {B}.
Arguments prot_body {B}.

(** [get_map()]: the registered stubs. *)
Abbreviation stubs B := (gmap Z (protocol B)).

Section Framing.
Context {B : Type} `{!ProtocolBody B}.

Definition protocol_with_body (b : B) (p : protocol B) : protocol B :=
  mk_protocol (prot_type p) (prot_priority p) (prot_sid p) (prot_manager p) b.

(** [init_session(ses)]; the null pointer is [None]. *)
Definition init_session (ses : option session) (p : protocol B) : protocol B :=
  match ses with
  | None => p
  | Some ses => mk_protocol (prot_type p) (prot_priority p) (ses_sid ses) (ses_manager ses) (prot_body p)
  end.

(** [emplace]: the first stub registered under an identifier stays. *)
Definition register_protocol (type : Z) (prot : protocol B) (reg : stubs B) : stubs B * bool :=
  match reg !! type with
  | Some _ => (reg, false)
  | None => (<[type := prot]> reg, true)
  end.

(** The constructor that registers the stub. *)
Definition protocol_stub (type : Z) (b : B) (reg : stubs B) : outcome (stubs B * protocol B) :=
  let p := mk_protocol type 0 0 0 b in
  match register_protocol type p reg with
  | (reg, true) => Ok (reg, p)
  | (_, false) => Fault (AssertFail "register_protocol(type, this)")
  end.

(** A copy ([dup]) of the stub. *)
Definition get_protocol (type : Z) (reg : stubs B) : option (protocol B) := reg !! type.

Definition size_policy (type size : Z) (reg : stubs B) : bool :=
  match reg !! type with
  | Some p => size <=? maxsize (prot_body p)
  | None => false
  end.

(** [check_policy], given the manager's [check_protocol]. *)
Definition check_policy (type size : Z) (check_protocol : Z -> outcome bool) (reg : stubs B)
  : outcome bool :=
  if negb (size_policy type size reg) then Fault (AssertFail "check size policy")
  else
  ok ← check_protocol type;
  if negb ok then Fault (AssertFail "protocol is forbidden") else Ok true.

Definition get_protocol_guess_size (type : Z) : Z := 2048.

(** ** Framing *)

(** Room for the size field is reserved at its guessed width and the body
moved when the guess was wrong. *)
Definition encode_move (prev_size size diff : Z) : OS unit :=
  on_data (fun d => octets_reserve d (u64 (octets_size d + diff)));;
  on_data (fun d => b ← mem_move (o_buf d) (u64 (prev_size + diff)) prev_size size;
                  Ok (mk_octets b (o_len d) (o_cap d)));;
  on_data (fun d => Ok (octets_fast_resize d diff)).

(** The [try] block of [encode].  [stale] is what the storage of the
thread-local vector holds: [reserve] gives it room, no values. *)
Definition encode_body (stale : list cell) (p : protocol B) : OS unit :=
  let id := get_type (prot_body p) in
  compact_pack U32 id;;
  let guess_size_size := get_compact_int_size (get_protocol_guess_size id) in
  s ← get;
  let size_begin_pos := os_size s in
  on_data (fun d => octets_append d stale guess_size_size);;
  s ← get;
  let prev_size := os_size s in
  pack (prot_body p);;
  s ← get;
  let size := u64 (os_size s - prev_size) in
  let actual_size_size := get_compact_int_size size in
  (if actual_size_size =? guess_size_size then mret tt
   else encode_move prev_size size (u64 (actual_size_size - guess_size_size)));;
  match encode_compact_int size [] with
  | None => fail OutOfFuel
  | Some buf => on_data (fun d => octets_replace d size_begin_pos (Some <$> buf) actual_size_size)
  end.

Definition encode (stale : list cell) (p : protocol B) : OS unit :=
  try_catch (encode_body stale p) (fun _ => mret tt).

(** The [try] block of [decode]: the value it returns, or nothing when control
reaches its end. *)
Definition decode_body (reg : stubs B) (ses : session) : OS (option (option (protocol B))) :=
  id ← compact_unpack U32;
  size ← compact_unpack U64;
  s ← get;
  if negb (os_data_ready size s) then pop_transaction ROLLBACK;; mret (Some None)
  else
  match get_protocol id reg with
  | Some temp =>
      let temp := init_session (Some ses) temp in
      b ← unpack (prot_body temp);
      mret (Some (Some (protocol_with_body b temp)))
  | None => mret None
  end.

Definition decode (reg : stubs B) (os : octetsstream) (ses : session)
  : octetsstream * session * outcome (option (protocol B)) :=
  if negb (os_data_ready 1 os) then (os, ses, Ok None)
  else
  let rollback os ses :=
    let r := (pop_transaction ROLLBACK;; mret None) os in (r.1, ses, r.2) in
  match (pop_transaction BEGIN;; decode_body reg ses) os with
  | (os, Ok (Some r)) => (os, ses, Ok r)
  | (os, Ok None) => rollback os ses
  | (os, Throw _) => rollback os (session_set_close SESSION_CLOSE_REASON_EXCEPTION ses)
  | (os, Fault f) => (os, ses, Fault f)
  end.

End Framing.

(** ** The frame *)

(** What [encode] appends for a message of type [id] and serialised [body]: the
    size field is cut at the width [get_compact_int_size] computes. *)
Definition frame (id : Z) (body : list byte) : list byte :=
  varint id ++ take (Z.to_nat (get_compact_int_size (len body))) (varint (len body)) ++ body.

Lemma compact_size_le v :
  inU 64 v -> 1 <= get_compact_int_size v <= varint_len v.
Proof.
  intros Hv. unfold inU in Hv. destruct (decide (v = 0)) as [->|]; [done|].
  rewrite compact_size_log by lia. unfold varint_len. destruct (Z.eqb_spec v 0); [lia|].
  pose proof (Z.log2_nonneg v).
  assert (0 <= (Z.log2 v + 1) / 8) by (apply Z.div_pos; lia).
  assert ((Z.log2 v + 1) / 8 < Z.log2 v / 7 + 1); [|lia].
  apply Z.div_lt_upper_bound; [lia|].
  pose proof (Z.div_mod (Z.log2 v) 7). pose proof (Z.mod_pos_bound (Z.log2 v) 7). lia.
Qed.

Lemma frame_good id body :
  inU 64 (len body) -> compact_size_good (len body) = true ->
  frame id body = varint id ++ block body.
Proof.
  intros Hu Hg. unfold frame, block. f_equal. f_equal. apply take_ge.
  rewrite compact_size_good_eq by done. rewrite <- varint_length by done. unfold len. lia.
Qed.

(** Moving the body closes or opens the gap for the size field. *)
Lemma encode_move_spec s a g b k :
  os_cells s (a ++ g ++ b) -> len g = 2 -> 1 <= k <= 16 ->
  len a + 16 + len b <= MAX_OCTETS -> os_pos s <= len a ->
  exists s' g', encode_move (len a + 2) (len b) (u64 (k - 2)) s = (s', Ok tt) /\
    os_cells s' (a ++ g' ++ b) /\ len g' = k /\ os_pos s' = os_pos s /\
    os_transpos s' = os_transpos s.
Proof.
  intros [Hd Hp] Hg Hk Hm Hpa. pose proof (cells_len _ _ Hd) as Hl.
  rewrite !len_app in *. pose proof (len_nonneg a). pose proof (len_nonneg b).
  assert (Hw : forall z, 0 <= z + (k - 2) <= MAX_OCTETS + 16 -> u64 (z + u64 (k - 2)) = z + (k - 2)).
  { intros z Hz. unfold wrapU. rewrite Z.add_mod_idemp_r by lia. apply Z.mod_small. octets_lia. }
  destruct (reserve_cells (os_data s) _ (len a + k + len b) Hd) as (d1 & E1 & Hc1 & Hcap & Hl1 & _);
    [lia|].
  pose proof (cells_wf _ _ Hc1) as [Hw1 Hw2 Hw3].
  destruct (cells_split _ _ Hc1) as (tl & Hb1 & _ & _).
  assert (Hsl : slice (o_buf d1) (len a + 2) (len b) = b).
  { pose proof (slice_app_mid (a ++ g) b tl) as E. rewrite len_app, Hg in E.
    rewrite Hb1, <- !app_assoc. by rewrite <- !app_assoc in E. }
  set (b2 := blit (o_buf d1) (len a + k) b).
  exists (os_with_data (octets_fast_resize (mk_octets b2 (o_len d1) (o_cap d1)) (u64 (k - 2))) s).
  exists (slice (o_buf d1) (len a) k).
  assert (Ht : take (Z.to_nat (len a)) (o_buf d1) = a).
  { rewrite Hb1, <- !app_assoc. unfold len. rewrite Nat2Z.id. by rewrite take_app_length. }
  assert (Hlb2 : len b2 = len (o_buf d1)) by (apply len_blit; lia).
  split; [|split; [|split; [by apply len_slice; lia|done]]].
  - unfold encode_move. rewrite (M_bind_ok _ _ s (os_with_data d1 s) tt).
    2:{ unfold on_data, octets_size. rewrite Hl, Hw by lia.
        replace (len a + (len g + len b) + (k - 2)) with (len a + k + len b) by lia.
        by rewrite E1. }
    rewrite (M_bind_ok _ _ _ (os_with_data (mk_octets b2 (o_len d1) (o_cap d1)) s) tt).
    2:{ unfold on_data, mem_move. cbn [os_data os_with_data].
        rewrite mem_read_ok by lia. cbn [mbind outcome_bind].
        rewrite Hsl, Hw by lia. replace (len a + 2 + (k - 2)) with (len a + k) by lia.
        rewrite mem_write_ok by lia. done. }
    done.
  - assert (Hsz : u64 (o_len d1 + u64 (k - 2)) = len a + k + len b).
    { rewrite Hw by lia. lia. }
    split; [|cbn [os_pos os_with_data]; rewrite !len_app, len_slice by lia; lia].
    cbn [os_data os_with_data]. unfold octets_fast_resize. cbn [o_buf o_len o_cap].
    rewrite Hsz. rewrite app_assoc.
    assert (Hpre : take (Z.to_nat (len a + k)) (o_buf d1) = a ++ slice (o_buf d1) (len a) k).
    { trans (take (Z.to_nat (len a)) (o_buf d1) ++ slice (o_buf d1) (len a) k); [|by rewrite Ht].
      unfold slice. rewrite take_take_drop. f_equal. pose proof (len_nonneg a). lia. }
    rewrite <- Hpre, <- (take_blit_app (o_buf d1) (len a + k) b) by lia.
    fold b2. rewrite <- (take_drop (Z.to_nat (len a + k + len b)) b2) at 1.
    apply cells_join; [unfold len in *; rewrite length_take; lia| |lia].
    unfold len in *. rewrite length_drop. lia.
Qed.

(** ** The interface of message classes

    [body_stub] describes the objects that stubs hold: what [unpack] is run
    on. *)
Class ProtocolBodyOk (B : Type) `{!ProtocolBody B, !Equiv B} := {
  body_wf : B -> Prop;
  body_bytes : B -> list byte;
  body_stub : B -> Prop;
  body_type b : body_wf b -> inU 32 (get_type b);
  body_pack b : body_wf b -> pushes (pack b) (body_bytes b);
  body_unpack b b0 : body_wf b -> body_stub b0 -> get_type b0 = get_type b ->
    pops (unpack b0) (body_bytes b) (fun b' => b' ≡ b);
  body_safe b0 : body_stub b0 -> safe (unpack b0);
  body_keeps b0 : body_stub b0 -> keeps_mark (unpack b0);
}.

(** The class the protocol generator writes for a message of one field. *)
Definition gen_body (id max : Z) (t : ty) : Type := denote t.
#[export] Instance gen_body_protocol id max t : ProtocolBody (gen_body id max t) := {|
  get_type _ := id;
  maxsize _ := max;
  pack b := push (A := denote t) b;
  unpack b := pop (A := denote t) b;
|}.
#[export] Instance gen_body_equiv id max t : Equiv (gen_body id max t) := ty_equiv t.

Definition gen_body_ok id max t : inU 32 id -> ProtocolBodyOk (gen_body id max t).
Proof.
  intros Hid. refine {|
    body_wf b := m_wf (A := denote t) b;
    body_bytes b := m_bytes (A := denote t) b;
    body_stub b := b = fresh (A := denote t);
  |}.
  - done.
  - intros b Hb. exact (m_push (A := denote t) b Hb).
  - intros b b0 Hb -> _. exact (m_pop (A := denote t) b Hb).
  - intros b0 ->. exact (m_safe (A := denote t)).
  - intros b0 ->. exact (ty_keeps t).
Defined.

Section FramingLaws.
Context {B : Type} `{!ProtocolBody B, !Equiv B, !ProtocolBodyOk B}.

Definition stubs_ok (reg : stubs B) : Prop :=
  map_Forall (fun id p => body_stub (prot_body p) /\ get_type (prot_body p) = id) reg.

(** The frame of a message object. *)
Definition body_frame (b : B) : list byte := frame (get_type b) (body_bytes b).

Lemma stale_cells (stale : list cell) : len stale = 2 -> stale = stale ++ [].
Proof. by rewrite app_nil_r. Qed.

Lemma encode_body_spec stale p s bs :
  body_wf (prot_body p) -> len stale = 2 -> os_repr s bs ->
  len bs + len (body_bytes (prot_body p)) + 32 <= MAX_OCTETS ->
  exists s', encode_body stale p s = (s', Ok tt) /\ os_repr s' (bs ++ body_frame (prot_body p)) /\
    os_pos s' = os_pos s /\ os_transpos s' = os_transpos s.
Proof.
  set (b := prot_body p). set (id := get_type b). set (bd := body_bytes b).
  intros Hb Hst Hr Hm. pose proof (body_type b Hb) as Hid.
  assert (Hidl : 1 <= len (varint id) <= 10).
  { rewrite varint_length by (apply (inU_mono 32); [lia|done]).
    apply varint_len_bounds, (inU_mono 32); [lia|done]. }
  pose proof (len_nonneg bs). pose proof (len_nonneg bd). pose proof Hr as [_ Hpos].
  set (a := Some <$> (bs ++ varint id)).
  assert (Hla : len a = len bs + len (varint id)) by (unfold a; by rewrite len_fmap, len_app).
  destruct (pushes_repr _ (varint id) s bs (compact_pack_pushes U32 id ltac:(
    simpl; rewrite andb_true_iff, Z.leb_le, Z.ltb_lt; exact Hid)) Hr) as (s1 & E1 & Hr1 & Hp1 & Ht1); [lia|].
  apply os_cells_repr in Hr1. fold a in Hr1.
  pose proof Hr1 as [Hd1 _].
  destruct (append_cells (os_data s1) a stale 2 stale [] Hd1) as (d2 & E2 & Hc2 & _);
    [by rewrite app_nil_r|done|lia|].
  assert (Hr2 : os_cells (os_with_data d2 s1) (a ++ stale)).
  { split; [done|]. cbn [os_pos os_with_data]. rewrite len_app. lia. }
  destruct (body_pack b Hb (os_with_data d2 s1) (a ++ stale) Hr2) as (s3 & E3 & Hr3 & Hp3 & Ht3);
    [fold bd; rewrite len_app; lia|].
  fold bd in Hr3. rewrite <- app_assoc in Hr3.
  pose proof (cells_len _ _ (os_cells_data _ _ Hr3)) as Hl3. rewrite !len_app, len_fmap in Hl3.
  assert (Hbd : inU 64 (len bd)) by (unfold inU; octets_lia).
  set (k := get_compact_int_size (len bd)).
  pose proof (compact_size_le (len bd) Hbd) as Hk. fold k in Hk.
  pose proof (varint_len_bounds (len bd) Hbd) as Hkb.
  assert (Hsize : u64 (os_size s3 - (len a + 2)) = len bd).
  { unfold os_size, octets_size. rewrite Hl3. replace (_ - _) with (len bd) by lia.
    by apply wrapU_small. }
(* the gap *)
assert (exists s4 g, (if k =? 2 then mret tt else encode_move (len a + 2) (len bd) (u64 (k - 2))) s3
    = (s4, Ok tt) /\ os_cells s4 (a ++ g ++ (Some <$> bd)) /\ len g = k /\
    os_pos s4 = os_pos s3 /\ os_transpos s4 = os_transpos s3) as (s4 & g & E4 & Hr4 & Hg & Hp4 & Ht4).
{ destruct (Z.eqb_spec k 2) as [->|]; [by exists s3, stale|].
  destruct (encode_move_spec s3 a stale (Some <$> bd) k Hr3 Hst) as (s4 & g & E4 & ?);
    rewrite ?len_fmap in *; [lia|lia|cbn [os_pos os_with_data] in *; lia|].
  by exists s4, g. }
set (d := take (Z.to_nat k) (varint (len bd))).
assert (Hlv : len (varint (len bd)) = varint_len (len bd)) by by apply varint_length.
assert (Hld : len d = k) by (unfold d, len in *; rewrite length_take; lia).
destruct (replace_cells (os_data s4) _ (len a) (Some <$> varint (len bd)) k (Some <$> d)
  (Some <$> drop (Z.to_nat k) (varint (len bd))) (os_cells_data _ _ Hr4)) as (o5 & E5 & _ & Hc5).
{ lia. }
{ unfold d. by rewrite <- fmap_app, take_drop. }
{ by rewrite len_fmap. }
{ rewrite !len_app, len_fmap. lia. }
rewrite blit_app in Hc5 by (rewrite length_fmap; unfold len in *; lia).
exists (os_with_data o5 s4). split; [|split; [|by rewrite <- Hp1, <- Ht1; simpl in *; split; congruence]].
- unfold encode_body. fold b id. rewrite (M_bind_ok _ _ _ _ _ E1).
  change (get_compact_int_size (get_protocol_guess_size id)) with 2.
  assert (Ho1 : os_size s1 = len a) by apply (cells_len _ _ Hd1).
  rewrite M_get. cbv beta zeta. rewrite Ho1.
  rewrite (M_bind_ok _ _ s1 (os_with_data d2 s1) tt) by (unfold on_data; by rewrite E2).
  rewrite M_get. cbv beta zeta.
  assert (Ho2 : os_size (os_with_data d2 s1) = len a + 2).
  { change (o_len d2 = len a + 2). rewrite (cells_len _ _ Hc2), len_app. lia. }
  rewrite Ho2, (M_bind_ok _ _ _ _ _ E3).
  rewrite M_get. cbv beta zeta. rewrite Hsize. fold k.
  rewrite (M_bind_ok _ _ _ _ _ E4). unfold encode_compact_int.
  rewrite write_varint_spec by done. cbn [app]. unfold on_data. by rewrite E5.
- apply os_cells_repr. unfold body_frame, frame. fold id bd k d.
  rewrite !fmap_app. rewrite app_assoc, <- fmap_app. split; [exact Hc5|].
  cbn [os_pos os_with_data]. rewrite !len_app, !len_fmap. cbn [os_pos os_with_data] in *. rewrite (len_app bs). lia.
Qed.

Lemma encode_spec stale p s bs :
  body_wf (prot_body p) -> len stale = 2 -> os_repr s bs ->
  len bs + len (body_bytes (prot_body p)) + 32 <= MAX_OCTETS ->
  exists s', encode stale p s = (s', Ok tt) /\ os_repr s' (bs ++ body_frame (prot_body p)) /\
    os_pos s' = os_pos s /\ os_transpos s' = os_transpos s.
Proof.
  intros. destruct (encode_body_spec stale p s bs) as (s' & E & ?); [done..|].
  exists s'. unfold encode, try_catch. by rewrite E.
Qed.

(** A message read for [ses] carries its identity. *)
Definition stamped (ses : session) (p : protocol B) : Prop :=
  prot_sid p = ses_sid ses /\ prot_manager p = ses_manager ses.

(** A rollback to a mark inside the content. *)
Lemma rollback_to {A} (a : A) s bs p :
  octets_repr (os_data s) bs -> os_transpos s = p -> p <= len bs ->
  (pop_transaction ROLLBACK;; mret a) s = (os_with_pos p s, Ok a).
Proof.
  intros Hd <- Hp. assert (E : pop_transaction ROLLBACK s = (os_with_pos (os_transpos s) s, Ok tt)).
  { unfold pop_transaction. rewrite M_get. unfold os_size, octets_size. rewrite (repr_len _ _ Hd).
    by destruct (Z.gtb_spec (os_transpos s) (len bs)); [lia|]. }
  by rewrite (M_bind_ok _ _ _ _ _ E).
Qed.

Lemma decode_body_sound reg ses s bs :
  stubs_ok reg -> os_repr s bs -> os_transpos s = os_pos s ->
  match decode_body reg ses s with
  | (_, Fault _) => False
  | (s', Ok (Some (Some p))) =>
      os_data s' = os_data s /\ os_pos s < os_pos s' <= len bs /\ stamped ses p
  | (s', Ok (Some None)) => os_data s' = os_data s /\ os_pos s' = os_pos s
  | (s', _) => os_data s' = os_data s /\ os_transpos s' = os_pos s
  end.
Proof.
  intros Hreg Hr Ht. pose proof Hr as [Hd Hp].
  pose proof (compact_unpack_safe U32 s bs Hr) as S1.
  pose proof (compact_unpack_keeps U32 s) as K1. unfold decode_body.
  destruct (compact_unpack U32 s) as [s1 [id| |]] eqn:E1.
  2,3: unfold mbind, M_bind; rewrite E1; simpl in *; (done || (destruct S1; split; congruence)).
  destruct (compact_unpack_u32_progress s bs s1 id Hr E1) as (P1 & R1 & D1 & T1).
  rewrite (M_bind_ok _ _ _ _ _ E1).
  pose proof (compact_unpack_safe U64 s1 bs R1) as S2.
  pose proof (compact_unpack_keeps U64 s1) as K2.
  destruct (compact_unpack U64 s1) as [s2 [size| |]] eqn:E2.
  2,3: unfold mbind, M_bind; rewrite E2; simpl in *; (done || (destruct S2; split; congruence)).
  rewrite (M_bind_ok _ _ _ _ _ E2), M_get. cbv beta zeta.
  destruct (compact_unpack_u64_range s1 bs s2 size R1 E2) as (_ & R2 & D2 & P2). simpl in K2.
  destruct (os_data_ready size s2); cbn [negb].
  - destruct (get_protocol id reg) as [temp|] eqn:Eg; [|simpl; split; congruence].
    destruct (Hreg id temp Eg) as [Hst _].
    pose proof (body_safe (prot_body temp) Hst s2 bs R2) as S3.
    pose proof (body_keeps (prot_body temp) Hst s2) as K3.
    change (prot_body (init_session (Some ses) temp)) with (prot_body temp).
    unfold mbind, M_bind. destruct (unpack (prot_body temp) s2) as [s3 [b| |]]; simpl in *; [|..|done].
    + destruct S3 as [D3 P3]. split; [congruence|]. split; [lia|]. done.
    + destruct S3 as [D3 P3]. split; congruence.
  - rewrite (rollback_to _ s2 bs (os_pos s) (os_repr_data _ _ R2) ltac:(congruence) ltac:(lia)).
    simpl. split; congruence.
Qed.

(** [decode] returns on every input. *)
Lemma decode_sound reg s ses bs :
  stubs_ok reg -> os_repr s bs ->
  exists s' ses' r, decode reg s ses = (s', ses', Ok r) /\ os_data s' = os_data s /\
    match r with
    | Some p => ses' = ses /\ os_pos s < os_pos s' <= len bs /\ stamped ses p
    | None => os_pos s' = os_pos s /\
        (ses' = ses \/ ses' = session_set_close SESSION_CLOSE_REASON_EXCEPTION ses)
    end.
Proof.
  intros Hreg Hr. pose proof Hr as [Hd Hp]. unfold decode.
  destruct (os_data_ready 1 s); cbn [negb]; [|by eauto 10].
  assert (Hroll : forall s1, os_data s1 = os_data s -> os_transpos s1 = os_pos s ->
    (pop_transaction ROLLBACK;; mret (None : option (protocol B))) s1
    = (os_with_pos (os_pos s) s1, Ok None)).
  { intros s1 D1 T1. apply (rollback_to _ _ bs); [by rewrite D1|done|lia]. }
  pose proof (decode_body_sound reg ses (mk_os (os_data s) (os_pos s) (os_pos s)) bs Hreg
    ltac:(by split) eq_refl) as Hb.
  change ((pop_transaction BEGIN;; decode_body reg ses) s)
    with (decode_body reg ses (mk_os (os_data s) (os_pos s) (os_pos s))).
  destruct (decode_body reg ses _) as [s1 [[[p|]|]| |]]; simpl in Hb; [| | | |done].
  - destruct Hb as (D & P & St). eexists _, _, _. split; [done|]. done.
  - destruct Hb as (D & P). eexists _, _, _. split; [done|]. eauto.
  - destruct Hb as (D & T). rewrite (Hroll s1 D T). eexists _, _, _. split; [done|]. simpl. eauto.
  - destruct Hb as (D & T). rewrite (Hroll s1 D T). eexists _, _, _. split; [done|]. simpl. eauto.
Qed.

(** Reading the header of a frame. *)
Lemma read_header id n s pre rest :
  inU 32 id -> inU 64 n -> os_repr s (pre ++ varint id ++ varint n ++ rest) ->
  os_pos s = len pre ->
  compact_unpack U32 s = (os_with_pos (len pre + len (varint id)) s, Ok id) /\
  compact_unpack U64 (os_with_pos (len pre + len (varint id)) s)
  = (os_with_pos (len pre + len (varint id) + len (varint n)) s, Ok n).
Proof.
  intros Hid Hn Hr Hp. assert (Hi : int_in U32 id = true) by (simpl; rewrite andb_true_iff, Z.leb_le, Z.ltb_lt; exact Hid).
  destruct (compact_unpack_pops U32 id Hi s pre (varint n ++ rest) Hr Hp) as (? & E & <-).
  split; [exact E|]. pose proof (len_nonneg pre). pose proof (len_nonneg rest).
  pose proof (len_nonneg (varint id)). pose proof (len_nonneg (varint n)).
  destruct (pop_size_pops n Hn (os_with_pos (len pre + len (varint id)) s) (pre ++ varint id) rest)
    as (? & E2 & <-).
  { rewrite <- app_assoc. apply os_repr_with_pos; [done|]. rewrite !len_app. lia. }
  { simpl. by rewrite len_app. }
  rewrite E2, len_app. done.
Qed.

Lemma data_ready_rest s bs n :
  os_repr s bs -> os_data_ready n s = (n <=? len bs - os_pos s).
Proof.
  intros Hr. pose proof Hr as [_ Hp]. pose proof (os_repr_max _ _ Hr).
  unfold os_data_ready. rewrite (os_size_repr _ _ Hr), wrapU_small by octets_lia.
  by rewrite Z.geb_leb.
Qed.

Lemma decode_frame reg s ses pre rest b stub :
  stubs_ok reg -> reg !! get_type b = Some stub -> body_wf b ->
  compact_size_good (len (body_bytes b)) = true ->
  os_repr s (pre ++ body_frame b ++ rest) -> os_pos s = len pre ->
  exists p, decode reg s ses
    = (mk_os (os_data s) (len pre + len (body_frame b)) (len pre), ses, Ok (Some p)) /\
    prot_body p ≡ b /\ stamped ses p.
Proof.
  intros Hreg Hstub Hb Hg Hr Hp. pose proof (os_repr_max _ _ Hr) as Hm.
  pose proof (body_type b Hb) as Hid. destruct (Hreg _ _ Hstub) as [Hst Hty].
  assert (Hbd : inU 64 (len (body_bytes b))).
  { pose proof (len_nonneg pre). pose proof (len_nonneg rest). pose proof (len_nonneg (body_bytes b)).
    unfold body_frame, frame in Hm. rewrite !len_app in Hm.
    pose proof (len_nonneg (varint (get_type b))).
    pose proof (len_nonneg (take (Z.to_nat (get_compact_int_size (len (body_bytes b))))
      (varint (len (body_bytes b))))). unfold inU. octets_lia. }
  assert (Hf : body_frame b = varint (get_type b) ++ varint (len (body_bytes b)) ++ body_bytes b)
    by by apply frame_good.
  rewrite Hf in *. set (vi := varint (get_type b)) in *. set (vn := varint (len (body_bytes b))) in *.
  set (s0 := mk_os (os_data s) (len pre) (len pre)).
  assert (Hr0 : os_repr s0 (pre ++ vi ++ vn ++ body_bytes b ++ rest)).
  { rewrite <- !app_assoc in Hr. destruct Hr as [Hd Hpos]. split; [done|]. rewrite Hp in Hpos. done. }
  destruct (read_header (get_type b) (len (body_bytes b)) s0 pre (body_bytes b ++ rest)) as [E1 E2];
    [done..|]. fold vi vn in E1, E2.
  set (s2 := os_with_pos (len pre + len vi + len vn) s0) in *.
  assert (Hr2 : os_repr s2 ((pre ++ vi ++ vn) ++ body_bytes b ++ rest)).
  { rewrite <- !app_assoc. apply os_repr_with_pos; [done|]. rewrite !len_app.
    pose proof (len_nonneg pre). pose proof (len_nonneg rest). pose proof (len_nonneg vi).
    pose proof (len_nonneg vn). pose proof (len_nonneg (body_bytes b)). lia. }
  destruct (body_unpack b (prot_body stub) Hb Hst Hty s2 (pre ++ vi ++ vn) rest Hr2) as (b' & E3 & Hb').
  { simpl. rewrite !len_app. lia. }
  exists (protocol_with_body b' (init_session (Some ses) stub)). split; [|done].
  assert (H1 : os_data_ready 1 s = true).
  { rewrite (data_ready_rest _ _ _ Hr), Hp, !len_app. apply Z.leb_le.
    pose proof (len_nonneg rest). pose proof (len_nonneg (body_bytes b)). pose proof (len_nonneg vn).
    assert (1 <= len vi); [|lia]. unfold vi. rewrite varint_length by (apply (inU_mono 32); [lia|done]).
    apply varint_len_bounds, (inU_mono 32); [lia|done]. }
  unfold decode. rewrite H1. cbn [negb].
  change ((pop_transaction BEGIN;; decode_body reg ses) s)
    with (decode_body reg ses (mk_os (os_data s) (os_pos s) (os_pos s))).
  rewrite Hp. fold s0. unfold decode_body.
  rewrite (M_bind_ok _ _ _ _ _ E1), (M_bind_ok _ _ _ _ _ E2), M_get. cbv beta zeta.
  rewrite (data_ready_rest _ _ _ Hr2). change (os_pos s2) with (len pre + len vi + len vn).
  rewrite !len_app. destruct (Z.leb_spec (len (body_bytes b))
    (len pre + (len vi + len vn) + (len (body_bytes b) + len rest) - (len pre + len vi + len vn)));
    [|pose proof (len_nonneg rest); lia].
  cbn [negb]. unfold get_protocol. rewrite Hstub.
  change (prot_body (init_session (Some ses) stub)) with (prot_body stub).
  rewrite (M_bind_ok _ _ _ _ _ E3). unfold mret, M_ret.
  unfold s2, s0, os_with_pos. simpl. rewrite !len_app. do 3 f_equal. lia.
Qed.

(** A frame whose header is there and whose body is not: [decode] waits. *)
Lemma decode_waits reg s ses pre id n part :
  inU 32 id -> inU 64 n -> len part < n ->
  os_repr s (pre ++ varint id ++ varint n ++ part) -> os_pos s = len pre ->
  decode reg s ses = (mk_os (os_data s) (len pre) (len pre), ses, Ok None).
Proof.
  intros Hid Hn Hpart Hr Hp. pose proof (os_repr_max _ _ Hr) as Hm.
  set (s0 := mk_os (os_data s) (len pre) (len pre)).
  assert (Hr0 : os_repr s0 (pre ++ varint id ++ varint n ++ part)).
  { destruct Hr as [Hd Hpos]. split; [done|]. rewrite Hp in Hpos. done. }
  destruct (read_header id n s0 pre part) as [E1 E2]; [done..|].
  unfold decode. rewrite (data_ready_rest _ _ _ Hr), Hp, !len_app.
  assert (1 <= len (varint id)).
  { rewrite varint_length by (apply (inU_mono 32); [lia|done]).
    apply varint_len_bounds, (inU_mono 32); [lia|done]. }
  pose proof (len_nonneg (varint n)). pose proof (len_nonneg part). pose proof (len_nonneg pre).
  destruct (Z.leb_spec 1 (len pre + (len (varint id) + (len (varint n) + len part)) - len pre)); [|lia].
  cbn [negb].
  change ((pop_transaction BEGIN;; decode_body reg ses) s)
    with (decode_body reg ses (mk_os (os_data s) (os_pos s) (os_pos s))).
  rewrite Hp. fold s0. unfold decode_body.
  rewrite (M_bind_ok _ _ _ _ _ E1), (M_bind_ok _ _ _ _ _ E2), M_get. cbv beta zeta.
  assert (Hr2 : os_repr (os_with_pos (len pre + len (varint id) + len (varint n)) s0)
    (pre ++ varint id ++ varint n ++ part)).
  { apply os_repr_with_pos; [done|]. rewrite !len_app. lia. }
  rewrite (data_ready_rest _ _ _ Hr2). cbn [os_pos os_with_pos]. rewrite !len_app.
  destruct (Z.leb_spec n (len pre + (len (varint id) + (len (varint n) + len part)) -
    (len pre + len (varint id) + len (varint n)))); [lia|]. cbn [negb].
  rewrite (rollback_to _ _ _ (len pre) (os_repr_data _ _ Hr2) eq_refl); [done|].
  rewrite !len_app. lia.
Qed.

(** A header that is cut inside one of its two integers: [decode] closes the
    session. *)
Lemma decode_header_cut reg s ses pre d :
  os_repr s (pre ++ d) -> os_pos s = len pre -> 0 < len d ->
  (exists v k, inU 32 v /\ (k < length (varint v))%nat /\ d = take k (varint v)) \/
  (exists id v k, inU 32 id /\ inU 64 v /\ (k < length (varint v))%nat /\
     d = varint id ++ take k (varint v)) ->
  decode reg s ses = (mk_os (os_data s) (len pre) (len pre),
    session_set_close SESSION_CLOSE_REASON_EXCEPTION ses, Ok None).
Proof.
  intros Hr Hp Hd Hcut. unfold decode.
  pose proof (len_nonneg pre).
  rewrite (data_ready_rest _ _ _ Hr), Hp, len_app.
  destruct (Z.leb_spec 1 (len pre + len d - len pre)); [|lia]. cbn [negb].
  change ((pop_transaction BEGIN;; decode_body reg ses) s)
    with (decode_body reg ses (mk_os (os_data s) (os_pos s) (os_pos s))).
  rewrite Hp. set (s0 := mk_os (os_data s) (len pre) (len pre)).
  assert (Hr0 : os_repr s0 (pre ++ d)).
  { destruct Hr as [Ha Hpos]. split; [done|]. rewrite Hp in Hpos. done. }
  assert (exists q, decode_body reg ses s0 = (os_with_pos q s0, Throw (ExnStream "varint decode failed")))
    as [q ->].
  { unfold decode_body. destruct Hcut as [(v & k & Hv & Hk & ->)|(id & v & k & Hid & Hv & Hk & ->)].
    - exists (len pre). cbn [compact_unpack]. unfold pop_compactu32.
      pose proof (pop_compact_cut v k s0 pre (inU_mono 32 64 v ltac:(lia) Hv) Hk Hr0 eq_refl) as E.
      unfold mbind, M_bind. by rewrite E.
    - exists (len pre + len (varint id)).
      assert (Hi : int_in U32 id = true) by (simpl; rewrite andb_true_iff, Z.leb_le, Z.ltb_lt; exact Hid).
      destruct (compact_unpack_pops U32 id Hi s0 pre (take k (varint v)) Hr0 eq_refl) as (? & E & <-).
      rewrite (M_bind_ok _ _ _ _ _ E). cbn [compact_unpack]. unfold pop_compactu64.
      unfold mbind, M_bind. rewrite (pop_compact_cut v k _ (pre ++ varint id) Hv Hk);
        [done| |simpl; by rewrite len_app].
      rewrite <- app_assoc. apply os_repr_with_pos; [done|]. rewrite !len_app.
      pose proof (len_nonneg (varint id)). pose proof (len_nonneg (take k (varint v))). cbn [int_bytes]. lia. }
  rewrite (rollback_to _ (os_with_pos q s0) _ (len pre) (os_repr_data _ _ Hr0) eq_refl); [done|].
  rewrite len_app. lia.
Qed.

End FramingLaws.

(** The size field of a body of 2^14 to 2^15 bytes loses its third byte, and
    the reader takes the body's first byte for it. *)
Lemma varint3 v : 2 ^ 14 <= v < 2 ^ 21 ->
  varint v = [byte_of_Z (Z.lor (Z.land v 127) 128);
              byte_of_Z (Z.lor (Z.land (Z.shiftr v 7) 127) 128);
              byte_of_Z (Z.shiftr v 14)].
Proof.
  intros Hv. unfold varint. cbn [varint_digits].
  assert (E1 : Z.shiftr v 7 = v / 128) by (by rewrite Z.shiftr_div_pow2).
  assert (E2 : Z.shiftr v 14 = v / 16384) by (by rewrite Z.shiftr_div_pow2).
  assert (E3 : Z.shiftr (Z.shiftr v 7) 7 = v / 16384) by (rewrite Z.shiftr_shiftr by lia; exact E2).
  assert (128 <= v / 128) by (apply Z.div_le_lower_bound; lia).
  assert (v / 16384 < 128) by (apply Z.div_lt_upper_bound; lia).
  destruct (Z.geb_spec v 128); [|lia]. destruct (Z.geb_spec (Z.shiftr v 7) 128); [|lia].
  destruct (Z.geb_spec (Z.shiftr (Z.shiftr v 7) 7) 128); [lia|].
  by rewrite E3, <- E2.
Qed.

Lemma frame_misread id b0 body :
  2 ^ 14 <= 1 + len body < 2 ^ 15 -> 1 <= Z_of_byte b0 < 128 ->
  frame id (b0 :: body)
  = varint id ++ varint (1 + len body - 2 ^ 14 + 2 ^ 14 * Z_of_byte b0) ++ body.
Proof.
  intros Hn Hb. unfold frame. f_equal. rewrite len_cons. set (n := 1 + len body) in *.
  assert (get_compact_int_size n = 2) as ->.
  { rewrite compact_size_log by lia. by rewrite (Z.log2_unique n 14). }
  rewrite (varint3 n), varint3 by lia.
  change (Z.to_nat 2) with 2%nat. cbn [take app].
  replace (n - 2 ^ 14 + 2 ^ 14 * Z_of_byte b0) with (n + (Z_of_byte b0 - 1) * 2 ^ 14) by lia.
  set (c := Z_of_byte b0 - 1).
  assert (Hs14 : Z.shiftr (n + c * 2 ^ 14) 14 = Z_of_byte b0).
  { rewrite Z.shiftr_div_pow2, Z.div_add by lia.
    assert (n / 2 ^ 14 = 1) as -> by (symmetry; apply (Z.div_unique n (2 ^ 14) 1 (n - 2 ^ 14)); lia).
    unfold c. lia. }
  assert (Hl1 : Z.land (n + c * 2 ^ 14) 127 = Z.land n 127).
  { rewrite !land127. replace (n + c * 2 ^ 14) with (n + (c * 128) * 128) by lia.
    apply Z.mod_add. lia. }
  assert (Hl2 : Z.land (Z.shiftr (n + c * 2 ^ 14) 7) 127 = Z.land (Z.shiftr n 7) 127).
  { rewrite !Z.shiftr_div_pow2 by lia. change (2 ^ 7) with 128.
    replace (n + c * 2 ^ 14) with (n + (c * 128) * 128) by lia.
    rewrite Z.div_add, !land127 by lia. apply Z.mod_add. lia. }
  by rewrite Hl1, Hl2, Hs14, byte_of_Z_of_byte.
Qed.

(** ** Properties *)

(** A message class of one string, its stub, a message and a session. *)
Abbreviation TextMsg := (gen_body 7 1024 TString).
#[export] Instance text_ok : ProtocolBodyOk TextMsg := gen_body_ok 7 1024 TString ltac:(done).
Definition text_stub : protocol TextMsg := mk_protocol 7 0 0 0 [].
Definition text_reg : stubs TextMsg := {[ 7 := text_stub ]}.
Definition text_msg : protocol TextMsg := mk_protocol 0 0 0 0 [x61; x62; x63].
Definition demo_session : session :=
  mk_session 42 5 SESSION_STATE_ACTIVE SESSION_CLOSE_REASON_NONE 0 9 true
    os_null octets_null 0 os_null octets_null.

Lemma text_reg_ok : stubs_ok text_reg.
Proof. intros i p Hp. unfold text_reg in Hp. apply lookup_singleton_Some in Hp as [<- <-]. done. Defined.

(** C4 — Functional behaviour of [encode] within the buffer limit, whatever the
    message class: it returns, and appends exactly the identifier, the size
    field cut at the width the size table gives, and the serialised body. *)
Theorem encode_appends_frame {B} `{ProtocolBodyOk B} stale (p : protocol B) s bs :
  body_wf (prot_body p) -> len stale = 2 -> os_repr s bs ->
  len bs + len (body_bytes (prot_body p)) + 32 <= MAX_OCTETS ->
  exists s', encode stale p s = (s', Ok tt) /\ os_repr s' (bs ++ body_frame (prot_body p)) /\
    os_pos s' = os_pos s /\ os_transpos s' = os_transpos s.
Proof. apply encode_spec. Qed.

Lemma encode_appends_frame_witness :
  exists s', encode [None; None] text_msg os_null = (s', Ok tt) /\
    os_repr s' [x07; x04; x03; x61; x62; x63].
Proof.
  destruct (encode_appends_frame (B := TextMsg) [None; None] text_msg os_null []) as (s' & E & Hr & _);
    [done|done|exact os_null_repr|vm_compute; discriminate|].
  exists s'. split; [exact E|exact Hr].
Defined.

(** C3 — Round trip of framing: a message whose body size the table measures
    correctly is read back from the stream, wherever its frame lies, as an
    equivalent object stamped with the reading session; the cursor ends
    after the frame and the session is untouched. *)
Theorem protocol_roundtrip {B} `{ProtocolBodyOk B} (reg : stubs B) stub stale p s bs ses :
  stubs_ok reg -> reg !! get_type (prot_body p) = Some stub ->
  body_wf (prot_body p) -> compact_size_good (len (body_bytes (prot_body p))) = true ->
  len stale = 2 -> os_repr s bs ->
  len bs + len (body_bytes (prot_body p)) + 32 <= MAX_OCTETS ->
  exists s1 s2 q, encode stale p s = (s1, Ok tt) /\
    decode reg (os_with_pos (len bs) s1) ses = (s2, ses, Ok (Some q)) /\
    prot_body q ≡ prot_body p /\ stamped ses q /\ os_pos s2 = os_size s1.
Proof.
  intros Hreg Hstub Hb Hg Hst Hr Hm. pose proof (len_nonneg bs).
  destruct (encode_spec stale p s bs Hb Hst Hr Hm) as (s1 & E1 & Hr1 & _).
  destruct (decode_frame reg (os_with_pos (len bs) s1) ses bs [] (prot_body p) stub)
    as (q & E2 & Hq & Hs); [done..| |done|].
  { rewrite app_nil_r. apply os_repr_with_pos; [done|]. rewrite len_app.
    pose proof (len_nonneg (body_frame (prot_body p))). lia. }
  eexists s1, _, q. split; [done|]. split; [exact E2|]. split; [done|]. split; [done|].
  rewrite (os_size_repr _ _ Hr1), len_app. done.
Qed.

Lemma protocol_roundtrip_witness :
  compact_size_good (len (body_bytes (prot_body text_msg))) = true /\
  exists s1 s2 q, encode [None; None] text_msg os_null = (s1, Ok tt) /\
    decode text_reg (os_with_pos 0 s1) demo_session = (s2, demo_session, Ok (Some q)) /\
    prot_body q ≡ prot_body text_msg /\ stamped demo_session q /\ os_pos s2 = os_size s1.
Proof.
  split; [reflexivity|].
  exact (protocol_roundtrip text_reg text_stub [None; None] text_msg os_null [] demo_session
    text_reg_ok eq_refl ltac:(done) eq_refl eq_refl os_null_repr ltac:(vm_compute; discriminate)).
Defined.

(** C5 — Safety of [decode]: whatever initialised bytes a peer sends, [decode]
    returns.  A message means the cursor moved forward inside the content
    and the session is untouched; no message means the cursor is where it
    was and the session is untouched or closed with the exception reason. *)
Theorem decode_any_input {B} `{ProtocolBodyOk B} (reg : stubs B) s ses bs :
  stubs_ok reg -> os_repr s bs ->
  exists s' ses' r, decode reg s ses = (s', ses', Ok r) /\ os_data s' = os_data s /\
    match r with
    | Some p => ses' = ses /\ os_pos s < os_pos s' <= len bs /\ stamped ses p
    | None => os_pos s' = os_pos s /\
        (ses' = ses \/ ses' = session_set_close SESSION_CLOSE_REASON_EXCEPTION ses)
    end.
Proof. apply decode_sound. Qed.

Lemma decode_any_input_witness :
  stubs_ok text_reg /\
  exists s' ses' r, decode text_reg hostile_stream demo_session = (s', ses', Ok r) /\
    os_data s' = os_data hostile_stream /\
    match r with
    | Some p => ses' = demo_session /\ 0 < os_pos s' <= 11 /\ stamped demo_session p
    | None => os_pos s' = 0 /\
        (ses' = demo_session \/ ses' = session_set_close SESSION_CLOSE_REASON_EXCEPTION demo_session)
    end.
Proof.
  split; [exact text_reg_ok|].
  exact (decode_any_input text_reg hostile_stream demo_session _ text_reg_ok hostile_stream_repr).
Defined.

(** Incomplete frames.  When the header is complete and the body is not,
    [decode] waits: no message, the cursor back at the frame, the session
    untouched.  When the input ends inside the header, [decode] closes the
    session with the exception reason. *)
Theorem decode_incomplete {B} `{ProtocolBodyOk B} (reg : stubs B) s ses pre d :
  os_repr s (pre ++ d) -> os_pos s = len pre -> 0 < len d ->
  (forall id n part, inU 32 id -> inU 64 n -> len part < n ->
     d = varint id ++ varint n ++ part ->
     decode reg s ses = (mk_os (os_data s) (len pre) (len pre), ses, Ok None)) /\
  (forall id n k, inU 32 id -> inU 64 n -> (k < length (varint n))%nat ->
     (d = varint id ++ take k (varint n) \/ exists j, (j < length (varint id))%nat /\ d = take j (varint id)) ->
     decode reg s ses = (mk_os (os_data s) (len pre) (len pre),
       session_set_close SESSION_CLOSE_REASON_EXCEPTION ses, Ok None)).
Proof.
  intros Hr Hp Hd. split.
  - intros id n part Hid Hn Hpart ->. by apply (decode_waits _ _ _ _ id n part).
  - intros id n k Hid Hn Hk Hc. apply (decode_header_cut _ _ _ pre d); [done..|].
    destruct Hc as [->|(j & Hj & ->)]; [right|left]; eauto 10.
Qed.

(** The first byte of the header [07 04], and nothing else. *)
Lemma decode_incomplete_witness :
  let s := mk_os (mk_octets [Some x07] 1 1) 0 0 in
  os_repr s ([] ++ [x07]) /\
  decode text_reg s demo_session
  = (s, session_set_close SESSION_CLOSE_REASON_EXCEPTION demo_session, Ok None).
Proof.
  assert (Hr : os_repr (mk_os (mk_octets [Some x07] 1 1) 0 0) ([] ++ [x07])).
  { split; [|done]. apply repr_intro; [|done]. split; done. }
  split; [exact Hr|].
  destruct (decode_incomplete text_reg (mk_os (mk_octets [Some x07] 1 1) 0 0) demo_session [] [x07]
    Hr eq_refl ltac:(done)) as [_ H].
  apply (H 7 4 0%nat); [done|done|vm_compute; lia|]. left. reflexivity.
Defined.

(** Bodies of 16384 to 32767 bytes are framed wrongly: the size field is a
    byte short, and when the body starts with an ASCII byte above 1 the
    receiver takes that byte for the missing one and, with the whole frame
    before it, waits for more than the peer ever sent. *)
Theorem encode_midsize_stuck {B} `{ProtocolBodyOk B} (reg : stubs B) stale (p : protocol B) ses b0 body :
  body_wf (prot_body p) -> len stale = 2 ->
  body_bytes (prot_body p) = b0 :: body -> 2 ^ 14 <= 1 + len body < 2 ^ 15 ->
  1 < Z_of_byte b0 < 128 ->
  exists s1, encode stale p os_null = (s1, Ok tt) /\
    decode reg s1 ses = (mk_os (os_data s1) 0 0, ses, Ok None).
Proof.
  intros Hb Hst Hbody Hn Hb0. pose proof (len_nonneg body).
  destruct (encode_spec stale p os_null [] Hb Hst os_null_repr) as (s1 & E1 & Hr1 & Hp1 & _).
  { rewrite Hbody, len_cons, len_nil. unfold MAX_OCTETS. lia. }
  exists s1. split; [done|]. unfold body_frame in Hr1. rewrite Hbody, frame_misread in Hr1 by lia.
  eapply (decode_waits reg s1 ses []); [by apply (body_type (prot_body p))| | |exact Hr1|exact Hp1];
    [unfold inU|]; lia.
Qed.

Abbreviation PairMsg := (gen_body 8 65536 (TPair (TInt U8) TString)).
#[export] Instance pair_msg_ok : ProtocolBodyOk PairMsg :=
  gen_body_ok 8 65536 (TPair (TInt U8) TString) ltac:(done).
Definition pair_reg : stubs PairMsg := {[ 8 := mk_protocol 8 0 0 0 (0, []) ]}.
Definition pair_msg (d : list byte) : protocol PairMsg := mk_protocol 0 0 0 0 (65, d).

Lemma pair_msg_bytes d : body_bytes (prot_body (pair_msg d)) = x41 :: block d.
Proof. done. Qed.
Lemma pair_msg_wf d : len d <= PTRDIFF_MAX -> body_wf (prot_body (pair_msg d)).
Proof. by split. Qed.

Definition midsize_text : list byte := replicate (Z.to_nat 20000) x61.
Lemma midsize_len : len midsize_text = 20000.
Proof. unfold midsize_text. by rewrite len_replicate, Z2Nat.id by lia. Qed.

Lemma encode_midsize_stuck_witness :
  exists s1, encode [None; None] (pair_msg midsize_text) os_null = (s1, Ok tt) /\
    decode pair_reg s1 demo_session = (mk_os (os_data s1) 0 0, demo_session, Ok None).
Proof.
  refine (encode_midsize_stuck pair_reg [None; None] (pair_msg midsize_text) demo_session x41
    (block midsize_text) (pair_msg_wf _ _) eq_refl (pair_msg_bytes _) _ ltac:(done)).
  - rewrite midsize_len. vm_compute. discriminate.
  - unfold block. rewrite len_app, midsize_len, varint_length by done.
    vm_compute. split; [discriminate|reflexivity].
Defined.
