(* ===== verification/DoubleBuffer.v ===== *)
(** The change list shared by many writers and one reader
    (thread/double_buffer.h, [one_reader_double_buffer]), as a sequential object
    and as a step relation in which writers run between the steps of a read. *)

From Stdlib Require Import Sorted.
From S2P Require Import Prelude.

Section DoubleBuffer.
(** [C] is the container and [ins] its [insert] at the end. *)
Context {V C : Type} (empty : C) (ins : V -> C -> C).

Record dbuf := mk_dbuf { db_writeidx : Z; db_buf0 : C; db_buf1 : C }.

Definition db_init : dbuf := mk_dbuf 0 empty empty.

Definition db_get (i : Z) (d : dbuf) : C := if i =? 0 then db_buf0 d else db_buf1 d.
Definition db_set (i : Z) (c : C) (d : dbuf) : dbuf :=
  if i =? 0 then mk_dbuf (db_writeidx d) c (db_buf1 d)
  else mk_dbuf (db_writeidx d) (db_buf0 d) c.

(** [write]: under the lock. *)
Definition db_write (v : V) (d : dbuf) : dbuf :=
  db_set (db_writeidx d) (ins v (db_get (db_writeidx d) d)) d.

(** The three phases of [read]: the indices are exchanged under the lock, the
  callback runs on the old write buffer, which is then cleared. *)
Definition db_flip (d : dbuf) : Z * dbuf :=
  (db_writeidx d, mk_dbuf (1 - db_writeidx d) (db_buf0 d) (db_buf1 d)).
Definition db_read_buf (old : Z) (d : dbuf) : C := db_get old d.
Definition db_clear_buf (old : Z) (d : dbuf) : dbuf := db_set old empty d.

(** [read] when no writer interferes: what the callback is given. *)
Definition db_read (d : dbuf) : C * dbuf :=
  let '(old, d) := db_flip d in (db_read_buf old d, db_clear_buf old d).

(** ** Interleavings *)

Inductive reader_pc := ReaderIdle | ReaderFlipped (old : Z) | ReaderRead (old : Z).

(** A state of the system: the object, where the reader is, what was written
  and what the callback was given, oldest first. *)
Record dsys := mk_dsys {
  ds_buf : dbuf; ds_pc : reader_pc; ds_written : list V; ds_given : list C
  }.

Inductive dstep : dsys -> dsys -> Prop :=
  | step_write v d pc w g :
    dstep (mk_dsys d pc w g) (mk_dsys (db_write v d) pc (w ++ [v]) g)
  | step_flip d w g old d' :
    db_flip d = (old, d') ->
    dstep (mk_dsys d ReaderIdle w g) (mk_dsys d' (ReaderFlipped old) w g)
  | step_callback d old w g :
    dstep (mk_dsys d (ReaderFlipped old) w g)
          (mk_dsys d (ReaderRead old) w (g ++ [db_read_buf old d]))
  | step_clear d old w g :
    dstep (mk_dsys d (ReaderRead old) w g) (mk_dsys (db_clear_buf old d) ReaderIdle w g).

Definition ds_init : dsys := mk_dsys db_init ReaderIdle [] [].

End DoubleBuffer.

Arguments dbuf : clear implicits.
Arguments dsys : clear implicits.

(** ** Delivery, exactly once and in rounds *)

Section Delivery.
Context {V C : Type} (empty : C) (ins : V -> C -> C).

(** The container after these values have been inserted, one by one. *)
Definition fill (l : list V) : C := foldl (fun c v => ins v c) empty l.

Lemma fill_snoc l v : fill (l ++ [v]) = ins v (fill l).
Proof. unfold fill. by rewrite foldl_app. Qed.

(** The containers no callback has seen: the one of the read under way, if its
    callback has not run, and the one that is written. *)
Definition undelivered (s : dsys V C) : list C :=
  let d := ds_buf s in
  match ds_pc s with
  | ReaderIdle | ReaderRead _ => [db_get (db_writeidx d) d]
  | ReaderFlipped old => [db_get old d; db_get (db_writeidx d) d]
  end.

(** [rounds] are the values written, cut where the buffers were exchanged. *)
Definition ds_inv (s : dsys V C) : Prop :=
  let d := ds_buf s in
  (db_writeidx d = 0 \/ db_writeidx d = 1) /\
  match ds_pc s with
  | ReaderIdle => db_get (1 - db_writeidx d) d = empty
  | ReaderFlipped old | ReaderRead old => old = 1 - db_writeidx d
  end /\
  exists rounds last, ds_written s = concat rounds ++ last /\
    map fill (rounds ++ [last]) = ds_given s ++ undelivered s.

Lemma ds_inv_init : ds_inv (ds_init empty).
Proof. split; [by left|]. split; [done|]. by exists [], []. Qed.

(** A write goes into the last container. *)
Lemma rounds_write (rounds : list (list V)) last v g (c : C) :
  map fill (rounds ++ [last]) = g ++ [c] -> map fill (rounds ++ [last ++ [v]]) = g ++ [ins v c].
Proof.
  rewrite !map_app. cbn. intros [<- [= <-]]%app_inj_tail_iff. by rewrite fill_snoc.
Qed.

Lemma rounds_write_after (rounds : list (list V)) last v g (b c : C) :
  map fill (rounds ++ [last]) = g ++ [b; c] -> map fill (rounds ++ [last ++ [v]]) = g ++ [b; ins v c].
Proof. intros H. pose proof (rounds_write rounds last v (g ++ [b]) c). rewrite <- !app_assoc in *. auto. Qed.

Lemma ds_inv_step s s' : dstep empty ins s s' -> ds_inv s -> ds_inv s'.
Proof.
  intros Hs (Hw & Hpc & rounds & last & Hr & Hg).
  destruct Hs as [v d pc w g|d w g old d' Hf|d old w g|d old w g]; unfold ds_inv, undelivered in *; cbn in *.
  - assert (forall i, db_get i (db_write ins v d) =
      if decide ((i =? 0) = (db_writeidx d =? 0)) then ins v (db_get (db_writeidx d) d) else db_get i d) as Hget.
    { intros i. unfold db_write, db_set, db_get. by destruct (i =? 0), (db_writeidx d =? 0). }
    assert (db_writeidx (db_write ins v d) = db_writeidx d) as ->.
    { unfold db_write, db_set. by destruct (_ =? 0). }
    split; [done|].
    assert (db_get (1 - db_writeidx d) (db_write ins v d) = db_get (1 - db_writeidx d) d) as Hother.
    { rewrite Hget. destruct Hw as [-> | ->]; done. }
    assert (db_get (db_writeidx d) (db_write ins v d) = ins v (db_get (db_writeidx d) d)) as Hself.
    { rewrite Hget. by rewrite decide_True. }
    split; [destruct pc; [by rewrite Hother|done|done]|].
    exists rounds, (last ++ [v]). split; [by rewrite Hr, app_assoc|].
    destruct pc as [|old|old]; rewrite Hself; [by apply rounds_write| |by apply rounds_write].
    rewrite Hpc, Hother in *. by apply (rounds_write_after _ _ _ g).
  - unfold db_flip in Hf. injection Hf as <- <-. unfold db_get in *. cbn.
    split; [destruct Hw as [-> | ->]; [by right|by left]|]. split; [lia|].
    exists (rounds ++ [last]), []. split; [by rewrite concat_app, Hr; cbn; rewrite !app_nil_r|].
    rewrite map_app, Hg. cbn. rewrite <- app_assoc. cbn. do 3 f_equal. by rewrite <- Hpc.
  - split; [done|]. split; [done|]. exists rounds, last. split; [done|]. rewrite Hg. by rewrite <- app_assoc.
  - destruct d as [wi b0 b1]. cbn in Hw, Hpc. subst old.
    destruct Hw as [-> | ->]; cbn in *; (split; [by auto|]; split; [done|]; by exists rounds, last).
Qed.

Lemma ds_inv_reachable s : rtc (dstep empty ins) (ds_init empty) s -> ds_inv s.
Proof.
  remember (ds_init empty) as s0 eqn:E0. intros H. assert (ds_inv s0) by (subst; apply ds_inv_init).
  clear E0. induction H as [|s1 s2 s3 H12 H23 IH]; [done|]. by eauto using ds_inv_step.
Qed.
End Delivery.

(** ** Properties *)

(** C38 — For whatever container the buffers are, and in every interleaving of
    writers with the reader's three phases: the values written fall, in the
    order of the writes, into consecutive rounds, and the containers that the
    callbacks were given, followed by those not yet given to one, are the
    containers filled with one round each. No value is lost and none is in two
    rounds; what a container does to the values of its round, a list keeping
    them all in order and a set sorting them without duplicates, is [ins]. *)
Theorem double_buffer_delivers {V C} (empty : C) (ins : V -> C -> C) (s : dsys V C) :
  rtc (dstep empty ins) (ds_init empty) s ->
  exists rounds, ds_written s = concat rounds /\ map (fill empty ins) rounds = ds_given s ++ undelivered s.
Proof.
  intros (_ & _ & rounds & last & Hr & Hg)%ds_inv_reachable. exists (rounds ++ [last]). split; [|done].
  rewrite Hr, concat_app. cbn. by rewrite app_nil_r.
Qed.

(** A list gives the callbacks exactly what was written, in order. *)
Definition push_back {V} (v : V) (l : list V) : list V := l ++ [v].

Lemma fill_push_back {V} (l : list V) : fill [] push_back l = l.
Proof.
  unfold fill, push_back. assert (forall c, foldl (fun c v => c ++ [v]) c l = c ++ l) as H; [|apply H].
  induction l as [|v l IH]; intros c; cbn; [by rewrite app_nil_r|]. by rewrite IH, <- app_assoc.
Qed.

Corollary list_buffer_delivers {V} (s : dsys V (list V)) :
  rtc (dstep [] push_back) (ds_init []) s -> ds_written s = concat (ds_given s ++ undelivered s).
Proof.
  intros (_ & _ & rounds & last & Hr & Hg)%ds_inv_reachable. rewrite <- Hg.
  rewrite (map_ext (fill [] push_back) id fill_push_back), map_id, concat_app. cbn. by rewrite app_nil_r.
Qed.

(** The reactor's container is a set of pointers ([reactor::_changelist]), in
    the order of the addresses. *)
Fixpoint set_insert (p : Z) (l : list Z) : list Z :=
  match l with
  | [] => [p]
  | q :: l' => if p <? q then p :: l else if p =? q then l else q :: set_insert p l'
  end.

Lemma set_insert_NoDup p l : StronglySorted Z.lt l ->
  StronglySorted Z.lt (set_insert p l) /\ (forall q, q ∈ set_insert p l <-> q = p \/ q ∈ l).
Proof.
  induction 1 as [|a l Hs IH Ha]; simpl.
  { split; [repeat constructor|]. intros q. rewrite !elem_of_cons. tauto. }
  destruct (Z.ltb_spec p a).
  - split; [|intros q; rewrite !elem_of_cons; tauto].
    constructor; [by constructor|]. constructor; [done|].
    eapply Forall_impl; [exact Ha|]. simpl. lia.
  - destruct (Z.eqb_spec p a) as [->|]; [split; [by constructor|intros q; rewrite !elem_of_cons; tauto]|].
    destruct IH as [IH1 IH2]. split; [|intros q; rewrite !elem_of_cons, IH2; tauto]. constructor; [done|].
    apply Forall_forall. intros q Hq. apply IH2 in Hq as [->|Hq]; [lia|].
    rewrite Forall_forall in Ha. by apply Ha.
Qed.

(** A round of it holds each value written in the round once, sorted. *)
Lemma fill_set_insert l :
  StronglySorted Z.lt (fill [] set_insert l) /\ (forall p, p ∈ fill [] set_insert l <-> p ∈ l).
Proof.
  induction l as [|v l [IH1 IH2]] using rev_ind; [split; [constructor|done]|].
  rewrite fill_snoc. destruct (set_insert_NoDup v _ IH1) as [H1 H2]. split; [done|].
  intros p. rewrite H2, IH2, elem_of_app, list_elem_of_singleton. tauto.
Qed.

(** A write between the flip and the callback of a read goes to the next round;
    an event written twice in a round is given once, and in order of address. *)
Definition race_end : dsys Z (list Z) :=
  mk_dsys (mk_dbuf 1 [1; 3] [2]) (ReaderRead 0) [3; 1; 3; 2] [[1; 3]].

Lemma race_reachable : rtc (dstep [] set_insert) (ds_init []) race_end.
Proof.
  eapply rtc_l; [apply (step_write _ _ 3)|].
  eapply rtc_l; [apply (step_write _ _ 1)|].
  eapply rtc_l; [apply (step_write _ _ 3)|].
  eapply rtc_l; [by apply step_flip|].
  eapply rtc_l; [apply (step_write _ _ 2)|].
  eapply rtc_l; [apply step_callback|]. apply rtc_refl.
Defined.

Lemma double_buffer_delivers_witness :
  rtc (dstep [] set_insert) (ds_init []) race_end /\
  exists rounds, [3; 1; 3; 2] = concat rounds /\ map (fill [] set_insert) rounds = [[1; 3]] ++ undelivered race_end.
Proof.
  split; [exact race_reachable|]. exact (double_buffer_delivers [] set_insert race_end race_reachable).
Defined.
