(* ===== verification/Reactor.v ===== *)
(** Events and the reactor (io/event.h, io/event.cpp, io/demultiplexer.cpp,
    io/reactor.h, io/reactor.cpp): event masks and statuses, the epoll
    dispatcher, the change list, the timer queue.  Events are objects of a heap
    that the reactor refers to by address, because the change list, the tables
    and the sessions share them. *)

From stdpp Require Import sorting.
From S2P Require Import Prelude DoubleBuffer.

(** ** Events *)

Definition EVENT_NONE : Z := 0x00.
Definition EVENT_ACCEPT : Z := 0x01.
Definition EVENT_RECV : Z := 0x02.
Definition EVENT_SEND : Z := 0x04.
Definition EVENT_HUP : Z := 0x08.
Definition EVENT_TIMER : Z := 0x10.
Definition EVENT_SIGIO : Z := 0x20.
Definition EVENT_SIGNAL : Z := 0x40.
Definition EVENT_WAKEUP : Z := 0x80.

Inductive EVENT_STATUS := EVENT_STATUS_NONE | EVENT_STATUS_ADD | EVENT_STATUS_DEL.
#[export] Instance EVENT_STATUS_eq_dec : EqDecision EVENT_STATUS.
Proof. solve_decision. Defined.

(** The subclass of an event with the members that matter to the reactor. *)
Inductive event_class :=
| io_event (fd : Z)
| control_event (efd : Z)
| timer_event (delay : bool) (timeout repeats : Z)
| sigio_event (readfd : Z)
| signal_event (signum : Z).

Record event := mk_event {
  ev_class : event_class;
  ev_status : EVENT_STATUS;
  ev_events : Z;
  ev_base : bool;   (* whether _base is set *)
}.

Definition get_handle (e : event) : Z :=
  match ev_class e with
  | io_event fd => fd
  | control_event efd => efd
  | timer_event _ _ _ => 0
  | sigio_event fd => fd
  | signal_event n => n
  end.

Definition has (events mask : Z) : bool := negb (Z.land events mask =? 0).
Definition ev_is_close (e : event) : bool := bool_decide (ev_status e = EVENT_STATUS_DEL).
Definition ev_set_status (st : EVENT_STATUS) (e : event) : event :=
  mk_event (ev_class e) st (ev_events e) (ev_base e).
Definition ev_set_events (n : Z) (e : event) : event :=
  mk_event (ev_class e) (ev_status e) n (ev_base e).
Definition ev_set_base (b : bool) (e : event) : event :=
  mk_event (ev_class e) (ev_status e) (ev_events e) b.

(** [permit_read] and its siblings: the new event and whether it is handed to
    [_base->add_event], which needs a base. *)
Definition ev_change (skip : bool) (n : Z) (e : event) : outcome (event * bool) :=
  if ev_is_close e || skip then Ok (e, false)
  else if ev_base e then Ok (ev_set_events n e, true)
  else Fault (UB "null _base").
Definition permit_read (e : event) : outcome (event * bool) :=
  ev_change (has (ev_events e) EVENT_RECV) (Z.lor (ev_events e) EVENT_RECV) e.
Definition permit_write (e : event) : outcome (event * bool) :=
  ev_change (has (ev_events e) EVENT_SEND) (Z.lor (ev_events e) EVENT_SEND) e.
Definition forbid_read (e : event) : outcome (event * bool) :=
  ev_change (negb (has (ev_events e) EVENT_RECV)) (Z.ldiff (ev_events e) EVENT_RECV) e.
Definition forbid_write (e : event) : outcome (event * bool) :=
  ev_change (negb (has (ev_events e) EVENT_SEND)) (Z.ldiff (ev_events e) EVENT_SEND) e.

Definition is_io_events (events : Z) : bool :=
  has events EVENT_ACCEPT || has events EVENT_RECV || has events EVENT_SEND ||
  has events EVENT_HUP || has events EVENT_WAKEUP.
Definition is_timer_events (events : Z) : bool := has events EVENT_TIMER.
Definition is_signal_events (events : Z) : bool := has events EVENT_SIGNAL.

(** [timer_event::handle_event], given what the handler returned: the event
    and whether it is to be queued again. *)
Definition timer_handle_event (again : bool) (e : event) : event * bool :=
  match ev_class e with
  | timer_event delay timeout repeats =>
      if again then
        let repeats := if repeats >? 0 then repeats - 1 else repeats in
        (mk_event (timer_event delay timeout repeats) (ev_status e) (ev_events e) (ev_base e),
         negb (repeats =? 0))
      else (e, false)
  | _ => (e, false)
  end.

(** ** The reactor *)

Inductive epoll_op := EPOLL_CTL_ADD | EPOLL_CTL_MOD | EPOLL_CTL_DEL.
Definition EPOLLIN : Z := 0x001.
Definition EPOLLOUT : Z := 0x004.
Definition EPOLLHUP : Z := 0x010.

(** [std::multimap::insert]: after the entries with the same key. *)
Fixpoint timer_insert (t p : Z) (l : list (Z * Z)) : list (Z * Z) :=
  match l with
  | [] => [(t, p)]
  | (u, q) :: l' => if t <? u then (t, p) :: l else (u, q) :: timer_insert t p l'
  end.

Section Reactor.
(** The kernel's side of epoll: a state and [epoll_ctl(op, fd, events)]. *)
Context {K : Type} (epoll_ctl : epoll_op -> Z -> Z -> K -> K * Z).

Record reactor := mk_reactor {
  r_heap : gmap Z event;
  r_changelist : dbuf (list Z);
  r_io_events : gmap Z Z;
  r_signal_events : gmap Z Z;
  r_timer_events : list (Z * Z);
  r_use_timer_thread : bool;
  r_kernel : K;
  r_listenfds : gset Z;
  r_wakeup_fd : Z;
  r_wakeup : bool;
  r_wakeups : Z;     (* writes to the event descriptor *)
}.

Abbreviation R := (M reactor).

Definition r_with_heap h (r : reactor) := mk_reactor h (r_changelist r) (r_io_events r)
  (r_signal_events r) (r_timer_events r) (r_use_timer_thread r) (r_kernel r) (r_listenfds r)
  (r_wakeup_fd r) (r_wakeup r) (r_wakeups r).
Definition r_with_changes c (r : reactor) := mk_reactor (r_heap r) c (r_io_events r)
  (r_signal_events r) (r_timer_events r) (r_use_timer_thread r) (r_kernel r) (r_listenfds r)
  (r_wakeup_fd r) (r_wakeup r) (r_wakeups r).
Definition r_with_io m (r : reactor) := mk_reactor (r_heap r) (r_changelist r) m
  (r_signal_events r) (r_timer_events r) (r_use_timer_thread r) (r_kernel r) (r_listenfds r)
  (r_wakeup_fd r) (r_wakeup r) (r_wakeups r).
Definition r_with_signals m (r : reactor) := mk_reactor (r_heap r) (r_changelist r) (r_io_events r)
  m (r_timer_events r) (r_use_timer_thread r) (r_kernel r) (r_listenfds r)
  (r_wakeup_fd r) (r_wakeup r) (r_wakeups r).
Definition r_with_timers l (r : reactor) := mk_reactor (r_heap r) (r_changelist r) (r_io_events r)
  (r_signal_events r) l (r_use_timer_thread r) (r_kernel r) (r_listenfds r)
  (r_wakeup_fd r) (r_wakeup r) (r_wakeups r).
Definition r_with_epoll k fds (r : reactor) := mk_reactor (r_heap r) (r_changelist r) (r_io_events r)
  (r_signal_events r) (r_timer_events r) (r_use_timer_thread r) k fds
  (r_wakeup_fd r) (r_wakeup r) (r_wakeups r).
Definition r_with_wakeup fd w n (r : reactor) := mk_reactor (r_heap r) (r_changelist r) (r_io_events r)
  (r_signal_events r) (r_timer_events r) (r_use_timer_thread r) (r_kernel r) (r_listenfds r)
  fd w n.

(** Reading, changing and deleting the object behind a pointer. *)
Definition ev_deref (p : Z) : R event := fun r =>
  match r_heap r !! p with
  | Some e => (r, Ok e)
  | None => (r, Fault (UB "deleted event"))
  end.
Definition ev_update (p : Z) (f : event -> event) : R unit :=
  e ← ev_deref p; modify (fun r => r_with_heap (<[p := f e]> (r_heap r)) r).
Definition ev_delete (p : Z) : R unit :=
  ev_deref p;; modify (fun r => r_with_heap (delete p (r_heap r)) r).

(** *** The dispatcher (class [epoller]) *)

Definition epoll_mask (events : Z) : Z :=
  let add b m acc := if b : bool then Z.lor acc m else acc in
  add (has events EVENT_WAKEUP) EPOLLIN
    (add (has events EVENT_HUP) EPOLLHUP
      (add (has events EVENT_SEND) EPOLLOUT
        (add (has events EVENT_RECV) EPOLLIN
          (add (has events EVENT_ACCEPT) EPOLLIN 0)))).

Definition epoller_add_event (p events : Z) : R Z :=
  if events =? EVENT_NONE then mret (-1)
  else
    e ← ev_deref p;
    let fd := get_handle e in
    (if has events EVENT_ACCEPT
     then modify (fun r => r_with_epoll (r_kernel r) ({[fd]} ∪ r_listenfds r) r) else mret tt);;
    op ← match ev_status e with
         | EVENT_STATUS_NONE =>
             ev_update p (ev_set_status EVENT_STATUS_ADD);;
             (if has events EVENT_WAKEUP
              then modify (fun r => r_with_wakeup fd (r_wakeup r) (r_wakeups r) r) else mret tt);;
             mret (Some EPOLL_CTL_ADD)
         | EVENT_STATUS_ADD => mret (Some EPOLL_CTL_MOD)
         | EVENT_STATUS_DEL => mret None
         end;
    match op with
    | None => mret (-2)
    | Some op =>
        r ← get;
        let '(k, ret) := epoll_ctl op fd (epoll_mask events) (r_kernel r) in
        put (r_with_epoll k (r_listenfds r) r);;
        mret (if ret =? 0 then 0 else -3)
    end.

Definition epoller_del_event (p : Z) : R unit :=
  e ← ev_deref p;
  if bool_decide (ev_status e = EVENT_STATUS_ADD) then
    ev_update p (ev_set_status EVENT_STATUS_NONE);;
    modify (fun r => r_with_epoll (epoll_ctl EPOLL_CTL_DEL (get_handle e) 0 (r_kernel r)).1
                       (r_listenfds r) r)
  else mret tt.

Definition epoller_wakeup : R unit :=
  r ← get;
  if r_wakeup_fd r <? 0 then mret tt
  else if r_wakeup r then mret tt
  else put (r_with_wakeup (r_wakeup_fd r) true (r_wakeups r + 1) r).

(** *** Adding and deleting *)

Definition r_add_event (p : Z) : R unit :=
  modify (fun r => r_with_changes (db_write set_insert p (r_changelist r)) r);;
  epoller_wakeup.

Definition r_del_event (p : Z) : R unit :=
  ev_update p (ev_set_status EVENT_STATUS_DEL);;
  modify (fun r => r_with_changes (db_write set_insert p (r_changelist r)) r);;
  epoller_wakeup.

Definition get_event (fd : Z) (r : reactor) : option Z := r_io_events r !! fd.

(** [add_event_inner]; [now] is [systemtime::get_millseconds()]. *)
Definition add_event_inner (now p : Z) : R Z :=
  e ← ev_deref p;
  let events := ev_events e in
  ret ← (if is_io_events events then
           let handle := get_handle e in
           r ← get;
           match r_io_events r !! handle with
           | Some q => if q =? p then mret tt else ev_delete q
           | None => mret tt
           end;;
           modify (fun r => r_with_io (<[handle := p]> (r_io_events r)) r);;
           epoller_add_event p events
         else if is_timer_events events then
           match ev_class e with
           | timer_event delay timeout repeats =>
               let expiretime := if delay then s64 (now + timeout) else now in
               ev_update p (fun e => mk_event (timer_event true timeout repeats)
                                       (ev_status e) (ev_events e) (ev_base e));;
               modify (fun r => r_with_timers (timer_insert expiretime p (r_timer_events r)) r);;
               mret 0
           | _ => mret (-1)
           end
         else if is_signal_events events then
           modify (fun r => r_with_signals
             (match r_signal_events r !! get_handle e with
              | Some _ => r_signal_events r
              | None => <[get_handle e := p]> (r_signal_events r)
              end) r);; mret 0
         else fail (AssertFail "reactor add_event unknown events"));
  if ret =? 0 then ev_update p (ev_set_base true);; mret 0 else mret ret.

Definition del_event_inner (p : Z) : R unit :=
  e ← ev_deref p;
  if is_io_events (ev_events e) then
    epoller_del_event p;;
    r ← get;
    match r_io_events r !! get_handle e with
    | Some q =>
        ev_delete q;;
        modify (fun r => r_with_io (delete (get_handle e) (r_io_events r)) r)
    | None => mret tt
    end
  else if is_timer_events (ev_events e) then mret tt
  else if is_signal_events (ev_events e) then
    modify (fun r => r_with_signals (delete (get_handle e) (r_signal_events r)) r)
  else mret tt.

Fixpoint load_changes (now : Z) (l : list Z) : R unit :=
  match l with
  | [] => mret tt
  | p :: l =>
      e ← ev_deref p;
      (if bool_decide (ev_status e = EVENT_STATUS_DEL) then del_event_inner p
       else add_event_inner now p;; mret tt);;
      load_changes now l
  end.

(** [load_event]: the callback runs between the exchange of the buffers and
    the clearing of the one that was read. *)
Definition load_event (now : Z) : R unit :=
  r ← get;
  let '(old, c) := db_flip (r_changelist r) in
  put (r_with_changes c r);;
  load_changes now (db_read_buf old c);;
  modify (fun r => r_with_changes (db_clear_buf [] old (r_changelist r)) r).

(** *** Dispatching *)

Section Dispatch.
(** The event classes' [handle_event]. *)
Context (handle_event : Z -> Z -> R bool).

Definition active_events (fd epoll_events : Z) (r : reactor) : Z :=
  let a := if has epoll_events EPOLLIN || has epoll_events EPOLLHUP
           then if bool_decide (fd ∈ r_listenfds r) then EVENT_ACCEPT else EVENT_RECV
           else 0 in
  if has epoll_events EPOLLOUT then Z.lor a EVENT_SEND else a.

Fixpoint dispatch_ready (ready : list (Z * Z)) : R unit :=
  match ready with
  | [] => mret tt
  | (fd, evs) :: ready =>
      r ← get;
      match get_event fd r with
      | None => mret tt
      | Some p =>
          e ← ev_deref p;
          if bool_decide (ev_status e = EVENT_STATUS_ADD)
          then handle_event p (active_events fd evs r);; mret tt
          else mret tt
      end;;
      dispatch_ready ready
  end.

(** [dispatch], given what [epoll_wait] reports. *)
Definition dispatch (ready : list (Z * Z)) : R unit :=
  modify (fun r => r_with_wakeup (r_wakeup_fd r) false (r_wakeups r) r);;
  dispatch_ready ready.

Definition handle_signal_event (signum : Z) : R bool :=
  r ← get;
  match r_signal_events r !! signum with
  | Some p => handle_event p EVENT_SIGNAL
  | None => mret true
  end.
End Dispatch.

(** *** Timers *)

Section Timers.
(** The handler a timer was made with. *)
Context (handler : Z -> R bool).

(** [handle_timer_event]; the pointers of the timers it ran, in order. *)
Fixpoint run_timers (fuel : nat) (now : Z) : R (list Z) :=
  r ← get;
  match fuel, r_timer_events r with
  | _, [] => mret []
  | O, _ => fail OutOfFuel
  | S fuel, (expiretime, p) :: l =>
      put (r_with_timers l r);;
      if expiretime <=? now then mret []
      else
        e ← ev_deref p;
        if bool_decide (ev_status e = EVENT_STATUS_DEL) then
          ev_delete p;; run_timers fuel now
        else
          again ← handler p;
          e ← ev_deref p;
          let '(e, keep) := timer_handle_event again e in
          ev_update p (fun _ => e);;
          (if keep then r_add_event p else mret tt);;
          ran ← run_timers fuel now;
          mret (p :: ran)
  end.

Definition handle_timer_event (now : Z) : R (list Z) :=
  r ← get;
  if r_use_timer_thread r then mret []
  else run_timers (length (r_timer_events r)) now.
End Timers.

(** The wait of [run]: at least [_timeout], longer when the first timer is
    farther away. *)
Definition run_timeout (_timeout now : Z) (r : reactor) : Z :=
  match r_timer_events r with
  | (t, _) :: _ =>
      if negb (r_use_timer_thread r) && (s64 (t - now) >? _timeout) then s32 (t - now) else _timeout
  | [] => _timeout
  end.

End Reactor.

(** ** The change list applied *)

(** The file descriptor of the classes that have one. *)
Definition fd_of (e : event) : option Z :=
  match ev_class e with
  | io_event fd | control_event fd | sigio_event fd => Some fd
  | _ => None
  end.

Lemma fd_handle e fd : fd_of e = Some fd -> get_handle e = fd.
Proof. unfold fd_of, get_handle. destruct (ev_class e); intros; simplify_eq; done. Qed.

(** Live events have their own descriptor, only events with a descriptor ask
    for I/O, and the I/O table refers to live events by their descriptor. *)
Record tables_ok (h : gmap Z event) (io : gmap Z Z) : Prop := {
  ok_unique p q e f fd : h !! p = Some e -> h !! q = Some f ->
    fd_of e = Some fd -> fd_of f = Some fd -> p = q;
  ok_typed p e : h !! p = Some e -> is_io_events (ev_events e) = true -> is_Some (fd_of e);
  ok_io fd p : io !! fd = Some p -> exists e, h !! p = Some e /\ fd_of e = Some fd;
}.

(** A mask [add_event_inner] knows, with the class it needs. *)
Definition known_events (e : event) : bool :=
  is_io_events (ev_events e) ||
  (is_timer_events (ev_events e) && match ev_class e with timer_event _ _ _ => true | _ => false end) ||
  (negb (is_timer_events (ev_events e)) && is_signal_events (ev_events e)).

Lemma fd_of_status st e : fd_of (ev_set_status st e) = fd_of e.
Proof. done. Qed.
Lemma fd_of_base b e : fd_of (ev_set_base b e) = fd_of e.
Proof. done. Qed.

(** The object at [p] may change in everything but its descriptor and mask. *)
Definition same_event (e e' : event) : Prop := fd_of e' = fd_of e /\ ev_events e' = ev_events e.

Lemma tables_ok_update h io p e e' :
  tables_ok h io -> h !! p = Some e -> same_event e e' -> tables_ok (<[p := e']> h) io.
Proof.
  intros [Hu Ht Hio] Hp [Hf He].
  assert (Hget : forall q f, <[p := e']> h !! q = Some f -> exists f0, h !! q = Some f0 /\
    fd_of f = fd_of f0 /\ ev_events f = ev_events f0).
  { intros q f Hq. destruct (decide (p = q)) as [->|Hne].
    - rewrite lookup_insert_eq in Hq. simplify_eq. eauto.
    - rewrite lookup_insert_ne in Hq by done. eauto. }
  split.
  - intros a b ea eb fd Ha Hb Hfa Hfb.
    destruct (Hget _ _ Ha) as (f0 & ? & ? & _). destruct (Hget _ _ Hb) as (f1 & ? & ? & _).
    apply (Hu a b f0 f1 fd); congruence.
  - intros a ea Ha Hea. destruct (Hget _ _ Ha) as (f0 & ? & -> & Hev). rewrite Hev in Hea. eauto.
  - intros fd q Hq. destruct (Hio fd q Hq) as (f0 & Hf0 & Hfd).
    destruct (decide (p = q)) as [->|Hne].
    + exists e'. rewrite lookup_insert_eq. split; [done|]. rewrite Hp in Hf0. by simplify_eq; rewrite Hf.
    + exists f0. by rewrite lookup_insert_ne.
Qed.

Section ApplyChanges.
Context {K : Type} (epoll_ctl : epoll_op -> Z -> Z -> K -> K * Z).

Lemma deref_ok p e r : r_heap (K := K) r !! p = Some e -> ev_deref p r = (r, Ok e).
Proof. intros H. unfold ev_deref. by rewrite H. Qed.

Lemma update_ok p e f (r : reactor (K := K)) : r_heap r !! p = Some e ->
  ev_update p f r = (r_with_heap (<[p := f e]> (r_heap r)) r, Ok tt).
Proof. intros H. unfold ev_update. by rewrite (M_bind_ok _ _ _ _ _ (deref_ok _ _ _ H)). Qed.

Lemma delete_ok p e (r : reactor (K := K)) : r_heap r !! p = Some e ->
  ev_delete p r = (r_with_heap (delete p (r_heap r)) r, Ok tt).
Proof. intros H. unfold ev_delete. by rewrite (M_bind_ok _ _ _ _ _ (deref_ok _ _ _ H)). Qed.

(** The dispatcher keeps the tables and the change list. *)
Definition keeps_tables (p : Z) (e : event) (r r' : reactor (K := K)) : Prop :=
  exists e', r_heap r' = <[p := e']> (r_heap r) /\ same_event e e' /\
    ev_status e' = (if ev_is_close e then EVENT_STATUS_DEL else ev_status e') /\
    r_io_events r' = r_io_events r /\ r_changelist r' = r_changelist r.

Lemma epoller_add_ok p e events (r : reactor (K := K)) :
  r_heap r !! p = Some e ->
  exists r' ret, epoller_add_event epoll_ctl p events r = (r', Ok ret) /\ keeps_tables p e r r'.
Proof.
  intros Hp. unfold epoller_add_event, keeps_tables, ev_is_close. destruct (events =? EVENT_NONE).
  { exists r, (-1). split; [done|]. exists e. rewrite insert_id by done. by case_bool_decide. }
  rewrite (M_bind_ok _ _ _ _ _ (deref_ok _ _ _ Hp)). unfold ev_update, ev_deref.
  destruct (has events EVENT_ACCEPT), (ev_status e) eqn:Est, (has events EVENT_WAKEUP);
    mrun; cbn -[epoll_mask]; rewrite ?Hp; cbn -[epoll_mask];
    repeat (destruct (epoll_ctl _ _ _ _); cbn -[epoll_mask]);
    (eexists _, _; split; [reflexivity|]);
    first [exists e; simpl; rewrite insert_id by done; rewrite ?Est; done
          |eexists; split; [reflexivity|]; done].
Qed.

(** What handling one entry of the change list does: only the object at [p]
    and the entry of its descriptor change. *)
Definition applied (p : Z) (e : event) (r r' : reactor (K := K)) : Prop :=
  tables_ok (r_heap r') (r_io_events r') /\
  r_changelist r' = r_changelist r /\
  (forall q, q <> p -> r_heap r' !! q = r_heap r !! q) /\
  (forall fd, fd_of e <> Some fd -> r_io_events r' !! fd = r_io_events r !! fd) /\
  (is_io_events (ev_events e) = true -> forall fd, fd_of e = Some fd ->
     r_io_events r' !! fd = if ev_is_close e then None else Some p).

Lemma tables_ok_delete h io p fd e :
  tables_ok h io -> h !! p = Some e -> fd_of e = Some fd ->
  tables_ok (delete p h) (delete fd io).
Proof.
  intros [Hu Ht Hio] Hp Hfd. split.
  - intros a b ea eb x [_ Ha]%lookup_delete_Some [_ Hb]%lookup_delete_Some. by apply Hu.
  - intros a ea [_ Ha]%lookup_delete_Some. exact (Ht a ea Ha).
  - intros x q [Hx Hq]%lookup_delete_Some. destruct (Hio x q Hq) as (f & Hf & Hfx).
    exists f. rewrite lookup_delete_ne; [done|]. intros ->. simplify_eq.
Qed.

Lemma del_event_inner_ok p e (r : reactor (K := K)) :
  tables_ok (r_heap r) (r_io_events r) -> r_heap r !! p = Some e -> ev_is_close e = true ->
  exists r', del_event_inner epoll_ctl p r = (r', Ok tt) /\ applied p e r r'.
Proof.
  intros Hok Hp Hc. unfold del_event_inner.
  rewrite (M_bind_ok _ _ _ _ _ (deref_ok _ _ _ Hp)).
  destruct (is_io_events (ev_events e)) eqn:Eio.
  - destruct (ok_typed _ _ Hok p e Hp Eio) as [fd Hfd].
    assert (Hdel : epoller_del_event epoll_ctl p r = (r, Ok tt)).
    { unfold epoller_del_event. rewrite (M_bind_ok _ _ _ _ _ (deref_ok _ _ _ Hp)).
      unfold ev_is_close in Hc. apply bool_decide_eq_true in Hc. by rewrite Hc. }
    rewrite (M_bind_ok _ _ _ _ _ Hdel), M_get, (fd_handle e fd Hfd).
    destruct (r_io_events r !! fd) as [q|] eqn:Eq.
    + destruct (ok_io _ _ Hok fd q Eq) as (f & Hf & Hffd).
      assert (q = p) as -> by by apply (ok_unique _ _ Hok q p f e fd).
      rewrite (M_bind_ok _ _ _ _ _ (delete_ok _ _ _ Hp)). eexists. split; [done|].
      unfold applied. simpl. split; [by apply (tables_ok_delete _ _ _ _ e)|]. split; [done|].
      split; [intros; by apply lookup_delete_ne|].
      split; [intros; apply lookup_delete_ne; congruence|].
      intros _ x Hx. rewrite Hc. assert (x = fd) as -> by congruence. apply lookup_delete_eq.
    + exists r. split; [done|]. split; [done|]. split; [done|]. split; [done|]. split; [done|].
      intros _ x Hx. rewrite Hc. by assert (x = fd) as -> by congruence.
  - destruct (is_timer_events _); [|destruct (is_signal_events _)];
      (eexists; split; [done|]; unfold applied; rewrite Eio; by split_and!).
Qed.

Lemma applied_update p e f (r r' : reactor (K := K)) :
  tables_ok (r_heap r) (r_io_events r) -> r_heap r !! p = Some e -> same_event e f ->
  is_io_events (ev_events e) = false ->
  r_heap r' = <[p := f]> (r_heap r) -> r_io_events r' = r_io_events r ->
  r_changelist r' = r_changelist r -> applied p e r r'.
Proof.
  intros Hok Hp Hs Hio Hh Hi Hc. unfold applied. rewrite Hh, Hi.
  split; [by apply (tables_ok_update _ _ _ e)|]. split; [done|].
  split; [intros; by apply lookup_insert_ne|]. split; [done|]. by rewrite Hio.
Qed.

Lemma add_event_inner_ok now p e (r : reactor (K := K)) :
  tables_ok (r_heap r) (r_io_events r) -> r_heap r !! p = Some e ->
  ev_is_close e = false -> known_events e = true ->
  exists r' ret, add_event_inner epoll_ctl now p r = (r', Ok ret) /\ applied p e r r'.
Proof.
  intros Hok Hp Hc Hk. unfold add_event_inner.
  rewrite (M_bind_ok _ _ _ _ _ (deref_ok _ _ _ Hp)). cbv zeta.
  destruct (is_io_events (ev_events e)) eqn:Eio.
  - destruct (ok_typed _ _ Hok p e Hp Eio) as [fd Hfd]. rewrite (fd_handle e fd Hfd).
    set (r1 := r_with_io (<[fd := p]> (r_io_events r)) r).
    destruct (epoller_add_ok p e (ev_events e) r1 Hp) as (r2 & ret & E2 & f & Hh & Hs & _ & Hi & Hl).
    assert (Hin : (r ← get; match r_io_events r !! fd with
        | Some q => if q =? p then mret tt else ev_delete q | None => mret tt end;;
        modify (fun r => r_with_io (<[fd := p]> (r_io_events r)) r);;
        epoller_add_event epoll_ctl p (ev_events e)) r = (r2, Ok ret)).
    { rewrite M_get. destruct (r_io_events r !! fd) as [q|] eqn:Eq; [|done].
      destruct (ok_io _ _ Hok fd q Eq) as (g & Hg & Hgfd).
      assert (q = p) as -> by by apply (ok_unique _ _ Hok q p g e fd).
      by rewrite Z.eqb_refl. }
    rewrite (M_bind_ok _ _ _ _ _ Hin).
    assert (Hok1 : tables_ok (r_heap r) (<[fd := p]> (r_io_events r))).
    { destruct Hok as [Hu Ht Hio]. split; [done|done|]. intros x q [[<- <-]|[_ Hq]]%lookup_insert_Some;
        [by exists e|by apply Hio]. }
    assert (Happ : forall f', same_event e f' -> forall r3, r_heap r3 = <[p := f']> (r_heap r) ->
      r_io_events r3 = <[fd := p]> (r_io_events r) -> r_changelist r3 = r_changelist r -> applied p e r r3).
    { intros f' Hs' r3 Hh3 Hi3 Hl3. unfold applied. rewrite Hh3, Hi3.
      split; [by apply (tables_ok_update _ _ _ e)|]. split; [done|].
      split; [intros; by apply lookup_insert_ne|].
      split; [intros; apply lookup_insert_ne; congruence|].
      intros _ x Hx. rewrite Hc. assert (x = fd) as -> by congruence. apply lookup_insert_eq. }
    destruct (ret =? 0); [|by eexists _, _; split; [done|]; apply (Happ f)].
    assert (Hp2 : r_heap r2 !! p = Some f) by (rewrite Hh; apply lookup_insert_eq).
    rewrite (M_bind_ok _ _ _ _ _ (update_ok _ _ _ _ Hp2)).
    eexists _, _. split; [done|]. apply (Happ (ev_set_base true f)); [done| |done|done].
    simpl. rewrite Hh. apply insert_insert_eq.
  - unfold known_events in Hk. rewrite Eio in Hk. simpl in Hk.
    destruct (is_timer_events (ev_events e)).
    + destruct (ev_class e) as [|?|dl tmo rep|?|?] eqn:Ecl; try done.
      mrun. rewrite (update_ok _ _ _ _ Hp). simpl. erewrite update_ok by (simpl; apply lookup_insert_eq).
      eexists _, _. split; [done|].
      eapply (applied_update p e _ r _ Hok Hp); [|done|simpl; apply insert_insert_eq|done|done].
      split; [|done]. unfold fd_of. simpl. by rewrite Ecl.
    + simpl in Hk. rewrite Hk. mrun. unfold ev_update, ev_deref. mrun. simpl. rewrite Hp.
      eexists _, _. split; [done|].
      by apply (applied_update p e (ev_set_base true e) r _ Hok Hp).
Qed.

(** An entry of the change list that [load_event] can handle: a live event that
    is to be deleted or has a mask it knows. *)
Definition pending_ok (h : gmap Z event) (p : Z) : Prop :=
  exists e, h !! p = Some e /\ (ev_is_close e = true \/ known_events e = true).

Lemma load_one_ok now p e (r : reactor (K := K)) :
  tables_ok (r_heap r) (r_io_events r) -> r_heap r !! p = Some e ->
  ev_is_close e = true \/ known_events e = true ->
  exists r', (if bool_decide (ev_status e = EVENT_STATUS_DEL) then del_event_inner epoll_ctl p
    else add_event_inner epoll_ctl now p;; mret tt) r = (r', Ok tt) /\ applied p e r r'.
Proof.
  intros Hok Hp Hc. change (bool_decide (ev_status e = EVENT_STATUS_DEL)) with (ev_is_close e).
  destruct (ev_is_close e) eqn:Ec; [by apply del_event_inner_ok|].
  destruct Hc as [|Hk]; [done|].
  destruct (add_event_inner_ok now p e r Hok Hp Ec Hk) as (r' & ret & E & Ha).
  exists r'. by rewrite (M_bind_ok _ _ _ _ _ E).
Qed.

Lemma load_changes_ok now l (r : reactor (K := K)) :
  tables_ok (r_heap r) (r_io_events r) -> NoDup l ->
  (forall p, p ∈ l -> pending_ok (r_heap r) p) ->
  exists r', load_changes epoll_ctl now l r = (r', Ok tt) /\
    tables_ok (r_heap r') (r_io_events r') /\ r_changelist r' = r_changelist r /\
    (forall q, q ∉ l -> r_heap r' !! q = r_heap r !! q) /\
    (forall fd, (forall p e, p ∈ l -> r_heap r !! p = Some e -> fd_of e <> Some fd) ->
       r_io_events r' !! fd = r_io_events r !! fd) /\
    (forall p e fd, p ∈ l -> r_heap r !! p = Some e -> is_io_events (ev_events e) = true ->
       fd_of e = Some fd -> r_io_events r' !! fd = if ev_is_close e then None else Some p).
Proof.
  revert r. induction l as [|p l IH]; intros r Hok Hnd Hl.
  { exists r. split_and!; try done. intros p e fd Hp. by apply elem_of_nil in Hp. }
  apply NoDup_cons in Hnd as [Hpl Hnd].
  destruct (Hl p ltac:(left)) as (e & Hp & Hc). simpl.
  rewrite (M_bind_ok _ _ _ _ _ (deref_ok _ _ _ Hp)).
  destruct (load_one_ok now p e r Hok Hp Hc) as (r1 & E1 & Hok1 & Hl1 & Hh1 & Hi1 & Hp1).
  rewrite (M_bind_ok _ _ _ _ _ E1).
  assert (Hne : forall q, q ∈ l -> r_heap r1 !! q = r_heap r !! q).
  { intros q Hq. apply Hh1. intros ->. done. }
  destruct (IH r1 Hok1 Hnd) as (r2 & E2 & Hok2 & Hl2 & Hh2 & Hi2 & Hp2).
  { intros q Hq. unfold pending_ok. rewrite (Hne q Hq). apply Hl. by right. }
  exists r2. split; [done|]. split; [done|]. split; [congruence|]. split; [|split].
  - intros q Hq. rewrite Hh2 by (intros ?; apply Hq; by right).
    apply Hh1. intros ->. apply Hq. left.
  - intros fd Hfd. rewrite Hi2; [|intros q f Hq Hf; apply (Hfd q f); [by right|by rewrite <- Hne]].
    apply Hi1. apply (Hfd p e); [left|done].
  - intros q f fd Hq Hf Hio Hffd. apply elem_of_cons in Hq as [->|Hq].
    + simplify_eq. rewrite Hi2; [by apply Hp1|]. intros q g Hq Hg Hgfd. apply Hpl.
      rewrite Hne in Hg by done. by rewrite (ok_unique _ _ Hok p q e g fd).
    + by apply (Hp2 q f fd Hq); [rewrite Hne|..].
Qed.

(** The change list while no read is going on. *)
Definition changes_idle (c : dbuf (list Z)) : Prop :=
  (db_writeidx c = 0 \/ db_writeidx c = 1) /\ db_get (1 - db_writeidx c) c = [] /\
  NoDup (db_get (db_writeidx c) c).

Lemma load_event_ok now (r : reactor (K := K)) :
  let c := r_changelist r in let l := db_get (db_writeidx c) c in
  tables_ok (r_heap r) (r_io_events r) -> changes_idle c ->
  (forall p, p ∈ l -> pending_ok (r_heap r) p) ->
  exists r', load_event epoll_ctl now r = (r', Ok tt) /\
    tables_ok (r_heap r') (r_io_events r') /\
    db_get 0 (r_changelist r') = [] /\ db_get 1 (r_changelist r') = [] /\
    (forall p e fd, p ∈ l -> r_heap r !! p = Some e -> is_io_events (ev_events e) = true ->
       fd_of e = Some fd -> get_event fd r' = if ev_is_close e then None else Some p) /\
    (forall fd, (forall p e, p ∈ l -> r_heap r !! p = Some e -> fd_of e <> Some fd) ->
       get_event fd r' = get_event fd r).
Proof.
  intros c l Hok (Hw & He & Hnd) Hl. unfold load_event. rewrite M_get. unfold db_flip.
  fold c. set (c' := mk_dbuf (1 - db_writeidx c) (db_buf0 c) (db_buf1 c)).
  destruct (load_changes_ok now l (r_with_changes c' r) Hok Hnd Hl)
    as (r2 & E2 & Hok2 & Hl2 & _ & Hi2 & Hp2).
  assert (Hbuf : db_read_buf (db_writeidx c) c' = l) by done.
  rewrite (M_bind_ok _ _ r (r_with_changes c' r) tt) by done.
  rewrite Hbuf, (M_bind_ok _ _ _ _ _ E2). eexists. split; [done|]. simpl. rewrite Hl2. simpl.
  unfold db_clear_buf, db_set, db_get in *. split; [done|].
  destruct Hw as [E|E]; rewrite E in *; simpl in *; auto.
Qed.

End ApplyChanges.

(** ** Timers *)

Section TimerQueue.
Context {K : Type}.

(** A handler that does not touch the reactor. *)
Definition pure_handler (h : Z -> bool) (p : Z) : M (reactor (K := K)) bool := mret (h p).

(** The event at [p] is a timer that was not deleted. *)
Definition live_timer (r : reactor (K := K)) (p : Z) : Prop :=
  exists e d t n, r_heap r !! p = Some e /\ ev_class e = timer_event d t n /\
    ev_status e <> EVENT_STATUS_DEL.

Lemma epoller_wakeup_ok (r : reactor (K := K)) : exists fd w n,
  epoller_wakeup r = (r_with_wakeup fd w n r, Ok tt).
Proof.
  unfold epoller_wakeup. rewrite M_get. destruct r. simpl.
  destruct (_ <? 0); [by eexists _, _, _|]. destruct r_wakeup0; by eexists _, _, _.
Qed.

Lemma timer_step_live h p e (r : reactor (K := K)) q :
  r_heap r !! p = Some e -> live_timer r q ->
  forall r', r_heap r' = <[p := (timer_handle_event h e).1]> (r_heap r) -> live_timer r' q.
Proof.
  intros Hp (f & d & t & n & Hq & Hc & Hs) r' Hh. unfold live_timer. rewrite Hh.
  destruct (decide (p = q)) as [->|]; [|by rewrite lookup_insert_ne; eauto 10].
  simplify_eq. rewrite lookup_insert_eq. unfold timer_handle_event. rewrite Hc.
  destruct h; simpl; eauto 10.
Qed.

(** Timers that are all in the future are all run. *)
Lemma run_timers_future h now l (r : reactor (K := K)) :
  r_timer_events r = l -> Forall (fun tp => now < tp.1) l -> Forall (live_timer r) l.*2 ->
  exists r', run_timers (pure_handler h) (length l) now r = (r', Ok l.*2) /\ r_timer_events r' = [].
Proof.
  revert r. induction l as [|[t p] l IH]; intros r Hl Hf Hlive; simpl.
  { rewrite M_get, Hl. by exists r. }
  apply Forall_cons in Hf as [Ht Hf]. apply Forall_cons in Hlive as [Hp Hlive]. simpl in *.
  rewrite M_get, Hl. destruct (Z.leb_spec t now); [lia|].
  destruct Hp as (e & d & tmo & n & Hp & Hc & Hs).
  set (r1 := r_with_timers l r). assert (Hp1 : r_heap r1 !! p = Some e) by done.
  rewrite (M_bind_ok _ _ r r1 tt) by done.
  rewrite (M_bind_ok _ _ _ _ _ (deref_ok _ _ _ Hp1)).
  rewrite bool_decide_false by done. unfold pure_handler at 1.
  rewrite (M_bind_ok _ _ r1 r1 (h p)) by done.
  rewrite (M_bind_ok _ _ _ _ _ (deref_ok _ _ _ Hp1)).
  pose proof (fun q Hq => timer_step_live (h p) p e r1 q Hp1 Hq) as Hkeep.
  destruct (timer_handle_event (h p) e) as [e' keep]. simpl in Hkeep.
  rewrite (M_bind_ok _ _ _ _ _ (update_ok _ _ _ _ Hp1)).
  set (r2 := r_with_heap (<[p:=e']> (r_heap r1)) r1).
  assert (exists r3, (if keep then r_add_event p else mret tt) r2 = (r3, Ok tt) /\
    r_timer_events r3 = l /\ r_heap r3 = r_heap r2) as (r3 & E3 & Ht3 & Hh3).
  { destruct keep; [|by exists r2]. unfold r_add_event.
    set (r2' := r_with_changes (db_write set_insert p (r_changelist r2)) r2). rewrite (M_bind_ok _ _ r2 r2' tt) by done.
    destruct (epoller_wakeup_ok r2') as (? & ? & ? & ->). by eexists. }
  rewrite (M_bind_ok _ _ _ _ _ E3).
  destruct (IH r3 Ht3 Hf) as (r4 & E4 & Ht4).
  { eapply Forall_impl; [exact Hlive|]. intros q Hq. apply (Hkeep q Hq). by rewrite Hh3. }
  exists r4. rewrite (M_bind_ok _ _ _ _ _ E4). done.
Qed.
End TimerQueue.

(** ** Properties *)

(** C39 — The change list applied: when every event in it is live and either
    deleted or has a known mask, [load_event] returns, empties both buffers,
    keeps the descriptor table exact, registers each live event under its
    descriptor, removes each deleted one, and leaves the other descriptors
    alone. *)
Theorem load_event_applies {K} (epoll_ctl : epoll_op -> Z -> Z -> K -> K * Z) now (r : reactor (K := K)) :
  let c := r_changelist r in let l := db_get (db_writeidx c) c in
  tables_ok (r_heap r) (r_io_events r) -> changes_idle c ->
  (forall p, p ∈ l -> pending_ok (r_heap r) p) ->
  exists r', load_event epoll_ctl now r = (r', Ok tt) /\
    tables_ok (r_heap r') (r_io_events r') /\
    db_get 0 (r_changelist r') = [] /\ db_get 1 (r_changelist r') = [] /\
    (forall p e fd, p ∈ l -> r_heap r !! p = Some e -> is_io_events (ev_events e) = true ->
       fd_of e = Some fd -> get_event fd r' = if ev_is_close e then None else Some p) /\
    (forall fd, (forall p e, p ∈ l -> r_heap r !! p = Some e -> fd_of e <> Some fd) ->
       get_event fd r' = get_event fd r).
Proof. apply load_event_ok. Qed.

(** A kernel that records the descriptors it watches. *)
Definition demo_epoll (op : epoll_op) (fd mask : Z) (k : gmap Z Z) : gmap Z Z * Z :=
  match op with
  | EPOLL_CTL_DEL => (delete fd k, 0)
  | _ => (<[fd := mask]> k, 0)
  end.
(** One new connection (descriptor 5) and one that is closing (descriptor 6). *)
Definition demo_reactor : reactor (K := gmap Z Z) :=
  mk_reactor {[ 100 := mk_event (io_event 5) EVENT_STATUS_NONE EVENT_RECV false;
                200 := mk_event (io_event 6) EVENT_STATUS_DEL EVENT_RECV true ]}
    (mk_dbuf 0 [100; 200] []) {[ 6 := 200 ]} ∅ [] false {[ 6 := EPOLLIN ]} ∅ (-1) true 0.

Lemma demo_heap p e : r_heap demo_reactor !! p = Some e ->
  (p = 100 /\ e = mk_event (io_event 5) EVENT_STATUS_NONE EVENT_RECV false) \/
  (p = 200 /\ e = mk_event (io_event 6) EVENT_STATUS_DEL EVENT_RECV true).
Proof.
  intros H. simpl in H. apply lookup_insert_Some in H as [[<- <-]|[_ H]]; [by left|].
  apply lookup_singleton_Some in H as [<- <-]. by right.
Qed.

Lemma demo_reactor_ok : tables_ok (r_heap demo_reactor) (r_io_events demo_reactor).
Proof.
  split.
  - intros p q e f fd He Hf. destruct (demo_heap p e He) as [[-> ->]|[-> ->]],
      (demo_heap q f Hf) as [[-> ->]|[-> ->]]; unfold fd_of; simpl; intros; congruence.
  - intros p e He _. destruct (demo_heap p e He) as [[-> ->]|[-> ->]]; by eexists.
  - intros fd p Hp. unfold demo_reactor in Hp. cbn [r_io_events] in Hp. apply lookup_singleton_Some in Hp as [<- <-].
    by exists (mk_event (io_event 6) EVENT_STATUS_DEL EVENT_RECV true).
Defined.

Lemma demo_pending : forall p, p ∈ [100; 200] -> pending_ok (r_heap demo_reactor) p.
Proof.
  intros p Hp. apply elem_of_cons in Hp as [->|Hp].
  - eexists. split; [reflexivity|]. by right.
  - apply list_elem_of_singleton in Hp as ->. eexists. split; [reflexivity|]. by left.
Defined.

Lemma load_event_applies_witness :
  exists r', load_event demo_epoll 0 demo_reactor = (r', Ok tt) /\
    get_event 5 r' = Some 100 /\ get_event 6 r' = None.
Proof.
  destruct (load_event_applies demo_epoll 0 demo_reactor demo_reactor_ok
    ltac:(split_and!; [by left|done|repeat constructor; set_solver]) demo_pending)
    as (r' & E & _ & _ & _ & H & _).
  exists r'. split; [exact E|]. split.
  - exact (H 100 (mk_event (io_event 5) EVENT_STATUS_NONE EVENT_RECV false) 5 ltac:(left) eq_refl
      eq_refl eq_refl).
  - exact (H 200 (mk_event (io_event 6) EVENT_STATUS_DEL EVENT_RECV true) 6 ltac:(right; left) eq_refl
      eq_refl eq_refl).
Defined.

(** The timer queue without a timer thread is inverted: a first timer
    that is due is dropped without being run and ends the round, and when no
    timer is due every one of them is run at once and the queue is
    emptied. *)
Theorem handle_timer_inverted {K} (h : Z -> bool) now (r : reactor (K := K)) t p l :
  r_use_timer_thread r = false -> r_timer_events r = (t, p) :: l ->
  (t <= now -> handle_timer_event (pure_handler h) now r = (r_with_timers l r, Ok [])) /\
  (Forall (fun tp => now < tp.1) ((t, p) :: l) -> Forall (live_timer r) (p :: l.*2) ->
   exists r', handle_timer_event (pure_handler h) now r = (r', Ok (p :: l.*2)) /\
     r_timer_events r' = []).
Proof.
  intros Ht Hl. unfold handle_timer_event. rewrite M_get, Ht, Hl. split.
  - intros Hdue. simpl. rewrite M_get, Hl. by destruct (Z.leb_spec t now); [|lia].
  - intros Hf Hlive. exact (run_timers_future h now ((t, p) :: l) r Hl Hf Hlive).
Qed.

(** A timer due at 10, looked at when it is 20. *)
Definition timer_reactor (t : Z) : reactor (K := unit) :=
  mk_reactor {[ 7 := mk_event (timer_event true 10 1) EVENT_STATUS_NONE EVENT_TIMER true ]}
    (mk_dbuf 0 [] []) ∅ ∅ [(t, 7)] false tt ∅ (-1) true 0.

Lemma handle_timer_inverted_witness :
  handle_timer_event (pure_handler (fun _ => true)) 20 (timer_reactor 10)
  = (r_with_timers [] (timer_reactor 10), Ok []) /\
  exists r', handle_timer_event (pure_handler (fun _ => true)) 20 (timer_reactor 500) = (r', Ok [7]) /\
    r_timer_events r' = [].
Proof.
  split.
  - apply (handle_timer_inverted (fun _ => true) 20 (timer_reactor 10) 10 7 []); [done..|lia].
  - apply (handle_timer_inverted (fun _ => true) 20 (timer_reactor 500) 500 7 []); [done..| |].
    + repeat constructor; simpl; lia.
    + constructor; [|constructor]. eexists _, _, _, _. by split_and!.
Defined.
