(* ===== verification/Signals.v ===== *)
(** Signals (io/event.cpp, io/reactor.cpp): the handler of a signal writes its
    number to a pipe, whose reading end a reactor watches, and the reactor calls
    the function registered for it, until the event is deleted.

    A machine: the reactors of the process, which all use the one static pair
    [sigio_event::_signal_pipe], and signals that arrive between any two steps.
    A pipe is its content, oldest first. *)

From stdpp Require Import gmap.
From S2P Require Import Prelude DoubleBuffer Reactor.

(** A [signal_event]: its number, its function, known by a number, and whether
    its status is [EVENT_STATUS_DEL]. *)
Record signal_event := mk_sev { se_signum : Z; se_callback : Z; se_deleted : bool }.

(** What a reactor has for signals: the descriptor its [epoll] watches, as the
    number of the pipe, the signal events in its change list, a set of pointers,
    and [_signal_events], pointers as well. *)
Record signal_reactor := mk_sr {
  sr_watched : option nat;
  sr_changes : list Z;
  sr_events : gmap Z Z;
}.

(** [sg_pipe] is the pipe that [_signal_pipe] names; [sg_actions] are the signals
    whose action is [sigio_callback]; [sg_evs] are the signal events made, which
    nothing destroys, by address.  The histories: the signals written to a
    pipe, those read, with the function that was called, and the calls that the
    operating system refused. *)
Record signals := mk_signals {
  sg_pipes : list (list Z);
  sg_pipe : option nat;
  sg_actions : gset Z;
  sg_evs : gmap Z signal_event;
  sg_reactors : list signal_reactor;
  sg_sent : list Z;
  sg_read : list (Z * option Z);
  sg_dropped : list Z;
}.

Definition signals_new : signals := mk_signals [] None ∅ ∅ [] [] [] [].

Definition sg_with_reactors l (s : signals) : signals :=
  mk_signals (sg_pipes s) (sg_pipe s) (sg_actions s) (sg_evs s) l (sg_sent s) (sg_read s) (sg_dropped s).
Definition sg_with_evs m (s : signals) : signals :=
  mk_signals (sg_pipes s) (sg_pipe s) (sg_actions s) m (sg_reactors s) (sg_sent s) (sg_read s) (sg_dropped s).
Definition sg_with_pipes ps sent dropped (s : signals) : signals :=
  mk_signals ps (sg_pipe s) (sg_actions s) (sg_evs s) (sg_reactors s) sent (sg_read s) dropped.

Section Signals.
(** How many numbers a pipe holds (16384 of four bytes on Linux). *)
Variable capacity : Z.

(** [sigio_event::sigio_event] of a new reactor: the pair is replaced. *)
Definition sigio_event_new (s : signals) : signals :=
  mk_signals (sg_pipes s ++ [[]]) (Some (length (sg_pipes s))) (sg_actions s) (sg_evs s)
    (sg_reactors s ++ [mk_sr None [] ∅]) (sg_sent s) (sg_read s) (sg_dropped s).

(** [sigio_callback]: the result of [write] is not looked at. *)
Definition sigio_callback (signum : Z) (s : signals) : signals :=
  match sg_pipe s with
  | None => sg_with_pipes (sg_pipes s) (sg_sent s) (sg_dropped s ++ [signum]) s
  | Some p =>
      if len (default [] (sg_pipes s !! p)) <? capacity
      then sg_with_pipes (alter (fun c => c ++ [signum]) p (sg_pipes s)) (sg_sent s ++ [signum]) (sg_dropped s) s
      else sg_with_pipes (sg_pipes s) (sg_sent s) (sg_dropped s ++ [signum]) s
  end.

(** The change list of reactor [i] gets [p]. *)
Definition sr_change (p : Z) (r : signal_reactor) : signal_reactor :=
  mk_sr (sr_watched r) (set_insert p (sr_changes r)) (sr_events r).
Definition sg_change (i : nat) (p : Z) (s : signals) : signals :=
  sg_with_reactors (alter (sr_change p) i (sg_reactors s)) s.

(** [add_signal], where [new] gives the address [p]: the constructor of
    [signal_event] sets the action at once, and the event waits in the change
    list of the reactor. *)
Definition add_signal (i : nat) (p signum callback : Z) (s : signals) : signals :=
  sg_change i p
    (mk_signals (sg_pipes s) (sg_pipe s) ({[signum]} ∪ sg_actions s)
       (<[p := mk_sev signum callback false]> (sg_evs s)) (sg_reactors s) (sg_sent s) (sg_read s) (sg_dropped s)).

(** [reactor::del_event]: the event is marked at once, and its entry of the table
    goes with the next load; the action stays. *)
Definition del_signal (i : nat) (p : Z) (s : signals) : signals :=
  sg_change i p
    (sg_with_evs (alter (fun e => mk_sev (se_signum e) (se_callback e) true) p (sg_evs s)) s).

(** [load_event], in the order of the set: [emplace] keeps what is there, and a
    deleted event takes away whatever its number has.  The descriptor of the pipe
    is the one the static pair has when the reactor loads its event. *)
Definition load_signal (evs : gmap Z signal_event) (m : gmap Z Z) (p : Z) : gmap Z Z :=
  match evs !! p with
  | None => m
  | Some e =>
      if se_deleted e then delete (se_signum e) m
      else match m !! se_signum e with Some _ => m | None => <[se_signum e := p]> m end
  end.
Definition sr_load (s : signals) (r : signal_reactor) : signal_reactor :=
  mk_sr (match sr_watched r with Some p => Some p | None => sg_pipe s end) []
    (foldl (load_signal (sg_evs s)) (sr_events r) (sr_changes r)).
Definition load_signals (i : nat) (s : signals) : signals :=
  sg_with_reactors (alter (sr_load s) i (sg_reactors s)) s.

(** [signal_event::handle_event] and [handle_signal_event]: what is called. *)
Definition signal_handle_event (active_events : Z) (e : signal_event) : option Z :=
  if active_events =? EVENT_SIGNAL then Some (se_callback e) else None.
Definition sr_handle_signal (s : signals) (signum : Z) (r : signal_reactor) : option Z :=
  p ← sr_events r !! signum; e ← sg_evs s !! p; signal_handle_event EVENT_SIGNAL e.

(** [sigio_event::handle_event], when [epoll] reports the pipe that the reactor
    watches: what is read is the pipe of the static pair. *)
Definition sigio_handle_event (i : nat) (s : signals) : option signals :=
  r ← sg_reactors s !! i;
  w ← sr_watched r;
  match sg_pipes s !! w with
  | Some (_ :: _) =>
      p ← sg_pipe s;
      match sg_pipes s !! p with
      | Some (signum :: rest) =>
          Some (mk_signals (<[p := rest]> (sg_pipes s)) (sg_pipe s) (sg_actions s) (sg_evs s) (sg_reactors s)
                  (sg_sent s) (sg_read s ++ [(signum, sr_handle_signal s signum r)]) (sg_dropped s))
      | _ => Some s
      end
  | _ => None
  end.

Inductive sg_step :=
  | SgReactor
  | SgAddSignal (i : nat) (p signum callback : Z)
  | SgDelSignal (i : nat) (p : Z)
  | SgLoad (i : nat)
  | SgRaise (signum : Z)
  | SgHandle (i : nat).

(** A signal whose action was not set does not come here; a new event has an
    address of its own, and one that is deleted exists. *)
Definition sg_exec (a : sg_step) (s : signals) : option signals :=
  match a with
  | SgReactor => Some (sigio_event_new s)
  | SgAddSignal i p signum callback =>
      match sg_evs s !! p with None => Some (add_signal i p signum callback s) | Some _ => None end
  | SgDelSignal i p => match sg_evs s !! p with None => None | Some _ => Some (del_signal i p s) end
  | SgLoad i => Some (load_signals i s)
  | SgRaise signum => if bool_decide (signum ∈ sg_actions s) then Some (sigio_callback signum s) else None
  | SgHandle i => sigio_handle_event i s
  end.

Fixpoint sg_run (sched : list sg_step) (s : signals) : option signals :=
  match sched with [] => Some s | a :: sched => s ← sg_exec a s; sg_run sched s end.

(** * One reactor *)

Definition no_new_reactor (a : sg_step) : bool := match a with SgReactor => false | _ => true end.

(** The step deletes an event of signal [n]. *)
Definition deletes (n : Z) (s : signals) (a : sg_step) : bool :=
  match a with
  | SgDelSignal _ p => match sg_evs s !! p with Some e => se_signum e =? n | None => false end
  | _ => false
  end.
Fixpoint never_deleted (n : Z) (sched : list sg_step) (s : signals) : bool :=
  match sched with
  | [] => true
  | a :: sched =>
      negb (deletes n s a) && match sg_exec a s with Some s' => never_deleted n sched s' | None => true end
  end.

(** No event of signal [n] that the reactor has yet to load is deleted. *)
Definition none_pending (n : Z) (s : signals) (r : signal_reactor) : Prop :=
  forall p e, p ∈ sr_changes r -> sg_evs s !! p = Some e -> se_signum e = n -> se_deleted e = false.

(** The table calls [cb] for signal [n]. *)
Definition calls (n cb : Z) (s : signals) (r : signal_reactor) : Prop := sr_handle_signal s n r = Some cb.

(** One pipe, which the static pair names, and one reactor that watches it or
    nothing yet; nothing written is lost. *)
Record one_reactor (s : signals) (r : signal_reactor) (c : list Z) : Prop := {
  or_pipes : sg_pipes s = [c];
  or_pipe : sg_pipe s = Some 0%nat;
  or_reactors : sg_reactors s = [r];
  or_watched : sr_watched r = None \/ sr_watched r = Some 0%nat;
  or_sent : sg_sent s = (sg_read s).*1 ++ c;
  or_events n p : sr_events r !! n = Some p -> exists e, sg_evs s !! p = Some e /\ se_signum e = n;
}.

Lemma one_reactor_new : one_reactor (sigio_event_new signals_new) (mk_sr None [] ∅) [].
Proof. split; try done. by left. Qed.
Lemma calls_alt n cb s r :
  calls n cb s r <-> exists p e, sr_events r !! n = Some p /\ sg_evs s !! p = Some e /\ se_callback e = cb.
Proof.
  unfold calls, sr_handle_signal, signal_handle_event. rewrite Z.eqb_refl. split.
  - destruct (sr_events r !! n) as [p|]; [|done]. cbn. destruct (sg_evs s !! p) as [e|] eqn:E; [|done]. cbn.
    intros [= <-]. eauto.
  - intros (p & e & -> & He & <-). cbn. by rewrite He.
Qed.

(** Loading keeps a function whose signal no entry deletes, and a table of
    events of the right number. *)
Lemma load_keeps evs l m n p : m !! n = Some p ->
  (forall q e, q ∈ l -> evs !! q = Some e -> se_signum e = n -> se_deleted e = false) ->
  foldl (load_signal evs) m l !! n = Some p.
Proof.
  revert m. induction l as [|q l IH]; intros m Hm Hl; [done|]. cbn. apply IH; [|intros; eapply Hl; [by right|done..]].
  unfold load_signal. destruct (evs !! q) as [e|] eqn:E; [|done]. destruct (se_deleted e) eqn:Ed.
  - rewrite lookup_delete_ne; [done|]. intros Hn. rewrite (Hl q e) in Ed; [done|by left|done|done].
  - destruct (m !! se_signum e) eqn:Em; [done|]. rewrite lookup_insert_ne; [done|]. congruence.
Qed.

Definition numbered (evs : gmap Z signal_event) (m : gmap Z Z) : Prop :=
  forall n p, m !! n = Some p -> exists e, evs !! p = Some e /\ se_signum e = n.

Lemma load_numbered evs l m : numbered evs m -> numbered evs (foldl (load_signal evs) m l).
Proof.
  revert m. induction l as [|q l IH]; intros m Hm; [done|]. cbn. apply IH. unfold load_signal.
  destruct (evs !! q) as [e|] eqn:E; [|done]. destruct (se_deleted e).
  - intros n p [_ H]%lookup_delete_Some. by apply Hm.
  - destruct (m !! se_signum e); [done|]. intros n p [[<- <-]|[_ H]]%lookup_insert_Some; [by eauto|by apply Hm].
Qed.

(** Events keep their number and their function. *)
Definition evs_kept (m m' : gmap Z signal_event) : Prop :=
  forall p e, m !! p = Some e ->
    exists e', m' !! p = Some e' /\ se_signum e' = se_signum e /\ se_callback e' = se_callback e.

Lemma numbered_kept m m' t : evs_kept m m' -> numbered m t -> numbered m' t.
Proof. intros Hk Ht n p Hp. destruct (Ht n p Hp) as (e & He & <-). destruct (Hk p e He) as (e' & He' & <- & _). eauto. Qed.
Lemma calls_kept n cb s s' r r' : evs_kept (sg_evs s) (sg_evs s') -> sr_events r' = sr_events r ->
  calls n cb s r -> calls n cb s' r'.
Proof.
  intros Hk Hr (p & e & Hp & He & <-)%calls_alt. destruct (Hk p e He) as (e' & He' & _ & <-).
  apply calls_alt. exists p, e'. by rewrite Hr.
Qed.

Lemma evs_kept_insert m p e : m !! p = None -> evs_kept m (<[p := e]> m).
Proof.
  intros Hn q e' Hq. exists e'. split; [|done]. rewrite lookup_insert_ne; [done|]. intros ->. congruence.
Qed.
Lemma evs_kept_delete m p : evs_kept m (alter (fun e => mk_sev (se_signum e) (se_callback e) true) p m).
Proof.
  intros q e Hq. destruct (decide (p = q)) as [->|Hne].
  - rewrite lookup_alter_eq, Hq. by eexists.
  - rewrite lookup_alter_ne by done. eauto.
Qed.

Lemma elem_set_insert p q l : q ∈ set_insert p l -> q = p \/ q ∈ l.
Proof.
  induction l as [|a l IH]; cbn; [rewrite elem_of_cons; tauto|].
  destruct (p <? a); [by rewrite elem_of_cons|]. destruct (p =? a); [by right|].
  rewrite !elem_of_cons. tauto.
Qed.

Lemma set_insert_sub p q l : q ∈ l -> q ∈ set_insert p l.
Proof.
  induction l as [|a l IH]; cbn; [by intros ?%not_elem_of_nil|].
  destruct (p <? a); [by right|]. destruct (p =? a); [done|]. rewrite !elem_of_cons. tauto.
Qed.

(** What a step that spares signal [n] keeps. *)
Definition spares (n : Z) (s : signals) (r : signal_reactor) (s' : signals) (r' : signal_reactor) : Prop :=
  none_pending n s r ->
  none_pending n s' r' /\ (forall cb, calls n cb s r -> calls n cb s' r').

Lemma add_spares n i p k cb s r :
  sg_evs s !! p = None -> numbered (sg_evs s) (sr_events r) ->
  spares n s r (add_signal i p k cb s) (sr_change p r).
Proof.
  intros Hp Ht Hn. split.
  - intros q e [->|Hq]%elem_set_insert He Hk; cbn in He.
    + rewrite lookup_insert_eq in He. by injection He as <-.
    + apply lookup_insert_Some in He as [[<- <-]|[_ He]]; [done|by eapply Hn].
  - intros cb'. apply calls_kept; [|done]. by apply evs_kept_insert.
Qed.

Lemma del_spares n i p e s r :
  sg_evs s !! p = Some e -> se_signum e <> n -> spares n s r (del_signal i p s) (sr_change p r).
Proof.
  intros Hp Hne Hn. split; [|intros cb'; apply calls_kept; [apply evs_kept_delete|done]].
  intros q e' Hq He' Hk. cbn in He'. destruct (decide (p = q)) as [<-|Hpq].
  - rewrite lookup_alter_eq, Hp in He'. cbn in He'. injection He' as <-. by cbn in Hk.
  - rewrite lookup_alter_ne in He' by done. apply elem_set_insert in Hq as [->|Hq]; [done|]. by eapply Hn.
Qed.

Lemma load_spares n i s r : spares n s r (load_signals i s) (sr_load s r).
Proof.
  intros Hn. split; [by intros q e Hq%not_elem_of_nil|].
  intros cb (p & e & Hp & He & <-)%calls_alt. apply calls_alt. exists p, e. split; [|done]. cbn. by apply load_keeps.
Qed.

Lemma spares_same n s s' r : sg_evs s' = sg_evs s -> spares n s r s' r.
Proof.
  intros E Hn. split; [intros p e Hp; rewrite E; by apply Hn|]. intros cb. apply calls_kept; [|done].
  rewrite E. intros p e Hp. eauto.
Qed.

(** The state after a step that changes the reactor alone. *)
Lemma one_reactor_change s s' r r' c :
  one_reactor s r c -> sg_pipes s' = sg_pipes s -> sg_pipe s' = sg_pipe s -> sg_reactors s' = [r'] ->
  sr_watched r' = None \/ sr_watched r' = Some 0%nat -> sg_sent s' = sg_sent s -> sg_read s' = sg_read s ->
  numbered (sg_evs s') (sr_events r') -> one_reactor s' r' c.
Proof. intros [? ? ? ? Hs ?] ? ? ? ? E1 E2 ?. split; [congruence|congruence|done|done|by rewrite E1, E2|done]. Qed.

(** What one step does: the signals it reads, and the functions it keeps. *)
Definition steps_to (a : sg_step) (s : signals) (r : signal_reactor) (s' : signals) : Prop :=
  exists r' c' l, one_reactor s' r' c' /\ sg_read s' = sg_read s ++ l /\
    forall n, deletes n s a = false ->
      spares n s r s' r' /\ (forall cb called, calls n cb s r -> (n, called) ∈ l -> called = Some cb).

Lemma steps_to_quiet a s r s' r' c :
  one_reactor s' r' c -> sg_read s' = sg_read s ->
  (forall n, deletes n s a = false -> spares n s r s' r') -> steps_to a s r s'.
Proof.
  intros Ho Hr Hs. exists r', c, []. rewrite app_nil_r. split_and!; [done|done|]. intros n Hd.
  split; [by apply Hs|]. by intros cb called _ ?%not_elem_of_nil.
Qed.

Lemma sg_exec_changes a s s' r c :
  match a with SgAddSignal _ _ _ _ | SgDelSignal _ _ | SgLoad _ => True | _ => False end ->
  one_reactor s r c -> sg_exec a s = Some s' -> steps_to a s r s'.
Proof.
  intros Ha Ho. pose proof Ho as [Hps Hp Hrs Hw Hs Ht]. destruct a as [|i p k cb|i p|i| |]; try done; cbn.
  - destruct (sg_evs s !! p) eqn:E; [done|]. intros [= <-].
    assert (numbered (sg_evs (add_signal i p k cb s)) (sr_events r)) as Ht'.
    { eapply numbered_kept; [|exact Ht]. by apply evs_kept_insert. }
    destruct i as [|i].
    + eapply (steps_to_quiet _ _ _ _ (sr_change p r) c); [|done|intros n _; by apply add_spares].
      eapply one_reactor_change; [done..|by cbn; rewrite Hrs|done|done|done|done].
    + eapply (steps_to_quiet _ _ _ _ r c); [|done|].
      * eapply one_reactor_change; [done..|by cbn; rewrite Hrs|done|done|done|done].
      * intros n _ Hn. destruct (add_spares n 0 p k cb s r E Ht Hn) as [H1 H2]. split; [|exact H2].
        intros q e Hq. apply H1. cbn. by apply set_insert_sub.
  - destruct (sg_evs s !! p) as [e|] eqn:E; [|done]. intros [= <-].
    assert (numbered (sg_evs (del_signal i p s)) (sr_events r)) as Ht'.
    { eapply numbered_kept; [|exact Ht]. apply evs_kept_delete. }
    assert (forall n, deletes n s (SgDelSignal i p) = false -> se_signum e <> n) as Hne.
    { intros n. cbn. rewrite E. by apply Z.eqb_neq. }
    destruct i as [|i].
    + eapply (steps_to_quiet _ _ _ _ (sr_change p r) c); [|done|intros n Hd; eapply del_spares; [done|by apply Hne]].
      eapply one_reactor_change; [done..|by cbn; rewrite Hrs|done|done|done|done].
    + eapply (steps_to_quiet _ _ _ _ r c); [|done|].
      * eapply one_reactor_change; [done..|by cbn; rewrite Hrs|done|done|done|done].
      * intros n Hd Hn. destruct (del_spares n 0 p e s r E (Hne n Hd) Hn) as [H1 H2]. split; [|exact H2].
        intros q e' Hq. apply H1. cbn. by apply set_insert_sub.
  - intros [= <-]. destruct i as [|i].
    + eapply (steps_to_quiet _ _ _ _ (sr_load s r) c); [|done|intros n _; apply load_spares].
      eapply one_reactor_change; [done..|by cbn; rewrite Hrs| |done|done|by apply load_numbered].
      cbn. destruct Hw as [->| ->]; by right.
    + eapply (steps_to_quiet _ _ _ _ r c); [|done|intros n _; by apply spares_same].
      eapply one_reactor_change; [done..|by cbn; rewrite Hrs|done|done|done|done].
Qed.

Lemma sg_exec_one a s s' r c :
  no_new_reactor a = true -> one_reactor s r c -> sg_exec a s = Some s' -> steps_to a s r s'.
Proof.
  intros Ha Ho E. destruct a as [|i p k cb|i p|i|n|i]; [done|by eapply sg_exec_changes..| |];
    destruct Ho as [Hps Hp Hrs Hw Hs Ht]; cbn in E.
  - revert E. case_bool_decide; [|done]. intros [= <-]. unfold sigio_callback. rewrite Hp, Hps.
    destruct (_ <? _); cbn; eapply steps_to_quiet; try (intros ? _; by apply spares_same); try done.
    split; cbn; try done. by rewrite Hs, <- app_assoc.
  - revert E. unfold sigio_handle_event. rewrite Hrs. destruct i as [|i]; [|done]. cbn.
    destruct Hw as [Hw|Hw]; rewrite Hw; [done|]. cbn. rewrite Hps, Hp. cbn. destruct c as [|n c]; [done|]. cbn.
    intros [= <-]. exists r, c, [(n, sr_handle_signal s n r)]. split; [split; cbn; try done; [by right|]|].
    { rewrite Hs, fmap_app. cbn. by rewrite <- app_assoc. }
    split; [done|]. intros k _. split; [by apply spares_same|].
    intros cb called Hc [= -> ->]%list_elem_of_singleton. exact Hc.
Qed.

Lemma sg_run_one sched s s' r c :
  forallb no_new_reactor sched = true -> one_reactor s r c -> sg_run sched s = Some s' ->
  exists r' c' l, one_reactor s' r' c' /\ sg_read s' = sg_read s ++ l /\
    forall n cb called, never_deleted n sched s = true -> none_pending n s r -> calls n cb s r ->
      (n, called) ∈ l -> called = Some cb.
Proof.
  revert s r c. induction sched as [|a sched IH]; intros s r c Ha Ho; cbn.
  - intros [= <-]. exists r, c, []. rewrite app_nil_r. split_and!; [done|done|].
    by intros n cb called _ _ _ ?%not_elem_of_nil.
  - cbn in Ha. apply andb_prop in Ha as [Ha Hsched]. destruct (sg_exec a s) as [s1|] eqn:E; [|done]. cbn. intros Hrun.
    apply (sg_exec_one a s s1 r c) in E as (r1 & c1 & l1 & Ho1 & Hl1 & Hk1); [|done|done].
    apply (IH s1 r1 c1) in Hrun as (r' & c' & l & Ho' & Hl & Hk); [|done|done].
    exists r', c', (l1 ++ l). split_and!; [done|by rewrite Hl, Hl1, app_assoc|].
    intros n cb called [Hd Hsd]%andb_prop Hn Hc [Hin|Hin]%elem_of_app; apply negb_true_iff in Hd;
      destruct (Hk1 n Hd) as [Hsp Hcl]; [by eapply Hcl|].
    destruct (Hsp Hn) as [Hn1 Hc1]. eapply Hk; [done|exact Hn1|by apply Hc1|done].
Qed.

(** C37 — In a process with one reactor every signal that the handler could write
    is read once and in order: what was sent is what was read and what is in the
    pipe.  From the moment that the reactor has a function for a signal, and as
    long as no event of that signal is deleted (nor a deletion waits in the
    change list), each reading of the signal calls it; and when the pipe is
    watched and not empty, the reactor has a step to take. *)
Theorem one_reactor_handles_signals sched1 s1 sched2 s2 :
  forallb no_new_reactor (sched1 ++ sched2) = true ->
  sg_run sched1 (sigio_event_new signals_new) = Some s1 -> sg_run sched2 s1 = Some s2 ->
  exists r1 r2 c l,
    sg_reactors s1 = [r1] /\ sg_reactors s2 = [r2] /\ sg_pipes s2 = [c] /\
    sg_sent s2 = (sg_read s2).*1 ++ c /\
    sg_read s2 = sg_read s1 ++ l /\
    (forall n p e called,
       sr_events r1 !! n = Some p -> sg_evs s1 !! p = Some e ->
       never_deleted n sched2 s1 = true -> none_pending n s1 r1 ->
       (n, called) ∈ l -> called = Some (se_callback e)) /\
    (sr_watched r2 <> None -> c <> [] -> is_Some (sg_exec (SgHandle 0) s2)).
Proof.
  intros Hno H1 H2. rewrite forallb_app in Hno. apply andb_prop in Hno as [Hn1 Hn2].
  apply (sg_run_one sched1 _ s1 _ _ Hn1 one_reactor_new) in H1 as (r1 & c1 & _ & Ho1 & _).
  apply (sg_run_one sched2 s1 s2 r1 c1 Hn2 Ho1) in H2 as (r2 & c & l & Ho2 & Hl & Hc).
  exists r1, r2, c, l. destruct Ho1 as [_ _ Hr1 _ _ _], Ho2 as [Hps Hp Hr2 Hw Hs _]. split_and!; try done.
  - intros n p e called Hp1 He Hd Hn. apply Hc; [done|done|]. apply calls_alt. eauto.
  - intros Hw' Hc'. cbn. unfold sigio_handle_event. rewrite Hr2. cbn. destruct Hw as [Hw|Hw]; [done|].
    rewrite Hw. cbn. rewrite Hps, Hp. cbn. by destruct c.
Qed.
End Signals.

Definition signals_before : list sg_step := [SgAddSignal 0 100 15 1; SgAddSignal 0 200 2 7; SgLoad 0].
Definition signals_after : list sg_step :=
  [SgRaise 15; SgDelSignal 0 200; SgRaise 15; SgHandle 0; SgLoad 0; SgRaise 2; SgHandle 0; SgHandle 0].

(** The deleted event's function is called no more, the other one's is. *)
Lemma one_reactor_handles_signals_witness :
  exists s1 s2, sg_run 16384 signals_before (sigio_event_new signals_new) = Some s1 /\
    sg_run 16384 signals_after s1 = Some s2 /\
    sg_read s2 = [(15, Some 1); (15, Some 1); (2, None)] /\ never_deleted 16384 15 signals_after s1 = true /\
    exists r1 r2 c l,
      sg_reactors s1 = [r1] /\ sg_reactors s2 = [r2] /\ sg_pipes s2 = [c] /\
      sg_sent s2 = (sg_read s2).*1 ++ c /\ sg_read s2 = sg_read s1 ++ l /\
      (forall n p e called,
         sr_events r1 !! n = Some p -> sg_evs s1 !! p = Some e ->
         never_deleted 16384 n signals_after s1 = true -> none_pending n s1 r1 ->
         (n, called) ∈ l -> called = Some (se_callback e)) /\
      (sr_watched r2 <> None -> c <> [] -> is_Some (sg_exec 16384 (SgHandle 0) s2)).
Proof.
  eexists _, _. split; [vm_compute; reflexivity|]. split; [vm_compute; reflexivity|].
  split; [vm_compute; reflexivity|]. split; [vm_compute; reflexivity|].
  apply (one_reactor_handles_signals 16384 signals_before _ signals_after); vm_compute; reflexivity.
Defined.

(** Two events of one signal: the table keeps the first, and deleting the second,
    which was never in it, takes the first one's function away. *)
Lemma delete_takes_anothers_function :
  exists s, sg_run 16384 [SgReactor; SgAddSignal 0 100 15 1; SgAddSignal 0 200 15 2; SgLoad 0; SgRaise 15; SgHandle 0;
                          SgDelSignal 0 200; SgLoad 0; SgRaise 15; SgHandle 0] signals_new = Some s /\
    sg_read s = [(15, Some 1); (15, None)].
Proof. eexists. split; [vm_compute; reflexivity|]. vm_compute. done. Qed.

(** * Sub-reactors *)

(** [reactor::init] of the main reactor makes the sub-reactors, each with a pair
    of its own; then they all watch the pair made last.  A signal whose function
    the main reactor has is read by a sub-reactor, which knows nothing of it. *)
Definition swallow_sched : list sg_step :=
  [SgReactor; SgReactor; SgAddSignal 0 100 15 1; SgLoad 0; SgLoad 1; SgRaise 15; SgHandle 1].

Lemma sub_reactor_swallows_signal :
  exists s, sg_run 16384 swallow_sched signals_new = Some s /\
    sg_sent s = [15] /\ sg_read s = [(15, None)] /\ sg_pipes s = [[]; []] /\
    sg_exec 16384 (SgHandle 0) s = None.
Proof. eexists. split; [vm_compute; reflexivity|]. vm_compute. done. Qed.

(** A reactor that loaded its event before the next pair was made watches a pipe
    into which nothing is written any more. *)
Lemma early_reactor_deaf :
  exists s, sg_run 16384 [SgReactor; SgAddSignal 0 100 15 1; SgLoad 0; SgReactor; SgRaise 15] signals_new = Some s /\
    sg_sent s = [15] /\ sg_exec 16384 (SgHandle 0) s = None.
Proof. eexists. split; [vm_compute; reflexivity|]. vm_compute. done. Qed.
