(* ===== verification/Network.v ===== *)
(** The connection and its manager: [session::on_recv] (io/session.cpp), the
    stream event (io/ioevent.cpp) and the session manager
    (io/session_manager.h, io/session_manager.cpp).  The kernel's answers to
    [recv] and [send] are lists of results, [EAGAIN] after their end. *)

From S2P Require Import Prelude Octets Varint Marshal Session Protocol DoubleBuffer Reactor.

(** ** Receiving *)

Section Recv.
Context {B : Type} `{!ProtocolBody B} (reg : stubs B).

(** The loop of [on_recv]: the decoded messages, in the order in which they
    are handed to [run].  Each takes at least a byte, so that the length of the
    stream is fuel enough. *)
Fixpoint recv_protocols (fuel : nat) : M session (list (protocol B)) :=
  match fuel with
  | O => fail OutOfFuel
  | S fuel =>
      s ← get;
      let '(os, s', r) := decode reg (ses_reados s) s in
      put (ses_with_read os (ses_readbuf s') s');;
      prot ← lift r;
      match prot with
      | None => mret []
      | Some prot => prots ← recv_protocols fuel; mret (prot :: prots)
      end
  end.

(** An operation on [_reados]. *)
Definition on_reados (c : OS unit) : M session unit := fun s =>
  let '(os, r) := c (ses_reados s) in (ses_with_read os (ses_readbuf s) s, r).

Definition session_on_recv (now : Z) : M session (list (protocol B)) :=
  modify (session_activate now);;
  modify (ses_with_state SESSION_STATE_RECVING);;
  s ← get;
  let readbuf := ses_readbuf s in
  let append_length := Z.min (octets_size readbuf) (octets_free_space (os_data (ses_reados s))) in
  on_reados (on_data (fun d => octets_append d (o_buf readbuf) append_length));;
  readbuf ← lift (octets_erase readbuf 0 append_length);
  modify (fun s => ses_with_read (ses_reados s) readbuf s);;
  s ← get;
  prots ← recv_protocols (S (Z.to_nat (os_size (ses_reados s))));
  on_reados try_shrink;;
  mret prots.

End Recv.

(** ** The stream event *)

(** A connection: its session, its event, whether the event is in the
    reactor's change list, and what the kernel has accepted for sending. *)
Record conn := mk_conn { c_ses : session; c_ev : event; c_changed : bool; c_sent : list byte }.

Definition on_ses {A} (f : M session A) : M conn A := fun c =>
  let '(s, r) := f (c_ses c) in (mk_conn s (c_ev c) (c_changed c) (c_sent c), r).

(** [permit_send], [forbid_send] and their siblings for receiving. *)
Definition ses_event_op (f : event -> outcome (event * bool)) : M conn unit :=
  c ← get;
  if ses_event (c_ses c) then
    r ← lift (f (c_ev c));
    put (mk_conn (c_ses c) r.1 (c_changed c || r.2) (c_sent c))
  else mret tt.
Definition session_permit_recv : M conn unit := ses_event_op permit_read.
Definition session_permit_send : M conn unit := ses_event_op permit_write.
Definition session_forbid_recv : M conn unit := ses_event_op forbid_read.
Definition session_forbid_send : M conn unit := ses_event_op forbid_write.

(** [event::del_event]: nothing without a base. *)
Definition conn_del_event : M conn unit := modify (fun c =>
  if ev_base (c_ev c)
  then mk_conn (c_ses c) (ev_set_status EVENT_STATUS_DEL (c_ev c)) true (c_sent c) else c).

Definition close_socket (reason : SESSION_CLOSE_REASON) : M conn unit :=
  on_ses (modify (session_set_close reason));; conn_del_event.

Definition handle_close : M conn unit :=
  c ← get;
  if session_is_close (c_ses c) then
    if negb (session_is_writeos_empty (c_ses c)) then session_permit_send else conn_del_event
  else mret tt.

Inductive recv_result :=
  RecvData (bs : list byte) | RecvClosed | RecvEINTR | RecvEAGAIN | RecvError.
(** [SendLen room]: the socket has room for [room] bytes, and [send] takes that
    many at most. *)
Inductive send_result :=
  SendLen (room : Z) | SendZero | SendEINTR | SendEAGAIN | SendError.

Section Stream.
Context {B : Type} `{!ProtocolBody B} (reg : stubs B).

(** [recv] stores what it received behind the content. *)
Definition recv_store (bs : list byte) (o : octets) : outcome octets :=
  b ← mem_write (o_buf o) (o_len o) (Some <$> bs);
  Ok (octets_fast_resize (mk_octets b (o_len o) (o_cap o)) (len bs)).

Fixpoint recv_all (rs : list recv_result) (total : Z) : M conn Z :=
  c ← get;
  let rbuffer := ses_readbuf (c_ses c) in
  if octets_free_space rbuffer =? 0 then mret total
  else
    match rs with
    | [] | RecvEAGAIN :: _ => mret total
    | RecvData bs :: rs =>
        o ← lift (recv_store bs rbuffer);
        on_ses (modify (fun s => ses_with_read (ses_reados s) o s));;
        recv_all rs (s32 (total + len bs))
    | RecvClosed :: _ => close_socket SESSION_CLOSE_REASON_REMOTE;; mret total
    | RecvEINTR :: rs => recv_all rs total
    | RecvError :: _ => close_socket SESSION_CLOSE_REASON_ERROR;; mret total
    end.

(** The result also lists the messages handed over. *)
Definition handle_read (now : Z) (rs : list recv_result) : M conn (Z * list (protocol B)) :=
  c ← get;
  ps ← (if octets_free_space (ses_readbuf (c_ses c)) =? 0
        then on_ses (session_on_recv reg now) else mret []);
  total ← recv_all rs 0;
  ps' ← on_ses (session_on_recv reg now);
  mret (total, ps ++ ps').

(** [send(_fd, wbuffer->data() + _write_offset, n)] took [n] bytes. *)
Definition send_take (n : Z) : M conn unit :=
  c ← get;
  let s := c_ses c in
  d ← lift (mem_read (o_buf (ses_writebuf s)) (ses_write_offset s) n);
  bs ← lift (cells_init d);
  put (mk_conn (ses_with_write (u64 (ses_write_offset s + n)) (ses_writeos s) (ses_writebuf s) s)
         (c_ev c) (c_changed c) (c_sent c ++ bs)).

Fixpoint send_all (rs : list send_result) (total : Z) : M conn Z :=
  match rs with
  | [] | SendEAGAIN :: _ => mret total
  | SendEINTR :: rs => send_all rs total
  | SendZero :: _ => close_socket SESSION_CLOSE_REASON_ERROR;; mret total
  | SendError :: _ => close_socket SESSION_CLOSE_REASON_ERROR;; mret total
  | SendLen room :: rs =>
      c ← get;
      let n := Z.min room (u64 (octets_size (ses_writebuf (c_ses c)) - ses_write_offset (c_ses c))) in
      send_take n;;
      c ← get;
      if ses_write_offset (c_ses c) =? octets_size (ses_writebuf (c_ses c)) then
        on_ses (modify (fun s => session_wbuffer (session_clear_wbuffer s)));;
        c ← get;
        if octets_size (ses_writebuf (c_ses c)) =? ses_write_offset (c_ses c)
        then session_forbid_send;; mret (s32 (total + n))
        else send_all rs (s32 (total + n))
      else send_all rs (s32 (total + n))
  end.

Definition handle_write (now : Z) (rs : list send_result) : M conn Z :=
  on_ses (modify session_wbuffer);;
  c ← get;
  if octets_size (ses_writebuf (c_ses c)) =? 0 then session_forbid_send;; mret 0
  else
    total ← send_all rs 0;
    on_ses (modify (session_on_send now));;
    mret total.

(** [io_event::handle_event]. *)
Definition io_handle_event (active now : Z) (recvs : list recv_result) (sends : list send_result)
    : M conn (list (protocol B)) :=
  ps ← (if has active EVENT_RECV then r ← handle_read now recvs; mret r.2 else mret []);
  (if has active EVENT_SEND then handle_write now sends;; mret tt else mret tt);;
  handle_close;;
  mret ps.

End Stream.

(** ** The session manager

    Sessions are objects of a heap; the manager holds their addresses. *)

Record session_manager := mk_manager {
  sm_max_connections : Z;
  sm_forbidden : list bool;       (* the bitset, MAXPROTOCOLID + 1 bits *)
  sm_keepalive_timeout : Z;
  sm_next_sessionid : Z;
  sm_sessions : gmap Z Z;         (* session id to address *)
  sm_heap : gmap Z session;
}.

Abbreviation SM := (M session_manager).

Definition sm_with_next n (m : session_manager) := mk_manager (sm_max_connections m)
  (sm_forbidden m) (sm_keepalive_timeout m) n (sm_sessions m) (sm_heap m).
Definition sm_with_sessions t (m : session_manager) := mk_manager (sm_max_connections m)
  (sm_forbidden m) (sm_keepalive_timeout m) (sm_next_sessionid m) t (sm_heap m).
Definition sm_with_heap h (m : session_manager) := mk_manager (sm_max_connections m)
  (sm_forbidden m) (sm_keepalive_timeout m) (sm_next_sessionid m) (sm_sessions m) h.

Definition check_connection_count (m : session_manager) : bool :=
  if sm_max_connections m =? 0 then true
  else Z.of_nat (size (sm_sessions m)) <? sm_max_connections m.

(** [bitset::test] throws outside the bitset. *)
Definition check_protocol (type : Z) (m : session_manager) : outcome bool :=
  match sm_forbidden m !! Z.to_nat type with
  | Some b => Ok (negb b)
  | None => Throw (ExnOutOfRange "bitset::test")
  end.

Definition sm_deref (p : Z) : SM session := fun m =>
  match sm_heap m !! p with Some s => (m, Ok s) | None => (m, Fault (UB "deleted session")) end.
Definition sm_store (p : Z) (s : session) : SM unit :=
  modify (fun m => sm_with_heap (<[p := s]> (sm_heap m)) m).
(** The destructor of a session deletes its event, and that of the event deletes
    its session (Ownership): a session that has one is destroyed twice. *)
Definition sm_delete (p : Z) : SM unit :=
  s ← sm_deref p;
  if ses_event s then fail (UB "session destroyed twice")
  else modify (fun m => sm_with_heap (delete p (sm_heap m)) m).

Definition get_next_sessionid : SM Z :=
  modify (fun m => sm_with_next (u64 (sm_next_sessionid m + 1)) m);;
  m ← get; mret (sm_next_sessionid m).

(** [add_session_nolock]; address [0] is the null pointer.  A session whose
    identifier is taken is deleted. *)
Definition add_session (sid p : Z) : SM unit :=
  if p =? 0 then mret tt
  else
    m ← get;
    match sm_sessions m !! sid with
    | None => put (sm_with_sessions (<[sid := p]> (sm_sessions m)) m)
    | Some _ => sm_delete p
    end.
Definition del_session (sid : Z) : SM unit :=
  modify (fun m => sm_with_sessions (delete sid (sm_sessions m)) m).
Definition find_session (sid : Z) (m : session_manager) : option Z := sm_sessions m !! sid.

(** [create_session], at a fresh address [p]. *)
Definition create_session (p manager rsize wsize now : Z) : SM Z :=
  s ← lift (session_new manager rsize wsize now);
  sid ← get_next_sessionid;
  sm_store p (ses_with_sid sid s);;
  mret p.

Definition session_set_open (p : Z) : SM unit :=
  s ← sm_deref p;
  sm_store p (ses_with_state SESSION_STATE_ACTIVE s);;
  add_session (ses_sid s) p.
Definition session_close (p : Z) : SM unit :=
  s ← sm_deref p;
  del_session (ses_sid s);;
  sm_store p (session_clear s).

(** The destructor. *)
Fixpoint delete_sessions (l : list Z) : SM unit :=
  match l with [] => mret tt | p :: l => sm_delete p;; delete_sessions l end.
Definition manager_dtor : SM unit :=
  m ← get;
  delete_sessions ((map_to_list (sm_sessions m)).*2);;
  modify (sm_with_sessions ∅).

(** [check_timeouts]: over the sessions, in the table's order. *)
Fixpoint check_timeouts_over (now : Z) (ps : list Z) : SM unit :=
  match ps with
  | [] => mret tt
  | p :: ps =>
      s ← sm_deref p;
      m ← get;
      (if session_is_timeout now (sm_keepalive_timeout m) s
       then sm_store p (session_set_close SESSION_CLOSE_REASON_TIMEOUT s) else mret tt);;
      check_timeouts_over now ps
  end.
Definition check_timeouts (now : Z) : SM unit :=
  m ← get; check_timeouts_over now (map_to_list (sm_sessions m)).*2.

(** What [send_octets] does with the session it found: whether [permit_send]
    is called, and the session. *)
Definition queue_octets (data : list cell) (n : Z) (s : session) : outcome (session * bool) :=
  if n >? octets_free_space (os_data (ses_writeos s)) then Ok (s, false)
  else
    d ← octets_append (os_data (ses_writeos s)) data n;
    Ok (ses_with_write (ses_write_offset s) (os_with_data d (ses_writeos s)) (ses_writebuf s) s, true).

Definition send_octets (sid : Z) (oct : octets) : SM bool :=
  m ← get;
  match find_session sid m with
  | None => mret false
  | Some p =>
      s ← sm_deref p;
      if session_is_close s then mret false
      else
        r ← lift (queue_octets (o_buf oct) (octets_size oct) s);
        sm_store p r.1;; mret r.2
  end.

(** [send_protocol]: the message is encoded in the thread's stream [os]. *)
Definition send_protocol {B} `{!ProtocolBody B} (stale : list cell) (os : octetsstream) (sid : Z)
    (prot : protocol B) : SM bool :=
  m ← get;
  match find_session sid m with
  | None => mret false
  | Some p =>
      s ← sm_deref p;
      if session_is_close s then mret false
      else
        let '(os, r) := encode stale prot (os_clear os) in
        lift r;;
        r ← lift (queue_octets (o_buf (os_data os)) (os_size os) s);
        sm_store p r.1;; mret r.2
  end.

(** ** Receiving: proofs *)

Section RecvLaws.
Context {B : Type} `{!ProtocolBody B, !Equiv B, !ProtocolBodyOk B} (reg : stubs B).

(** What the session has received and not decoded yet: the rest of the stream,
    then the read buffer. *)
Record ses_in (s : session) (inb buf : list byte) : Prop := {
  in_os : os_repr (ses_reados s) inb;
  in_buf : octets_repr (ses_readbuf s) buf;
}.
Definition unread (s : session) (inb buf : list byte) : list byte :=
  drop (Z.to_nat (os_pos (ses_reados s))) inb ++ buf.

(** The two members a message is stamped with. *)
Definition same_identity (s s' : session) : Prop :=
  ses_sid s' = ses_sid s /\ ses_manager s' = ses_manager s.

Lemma recv_protocols_sound fuel s inb buf :
  stubs_ok reg -> ses_in s inb buf -> len inb - os_pos (ses_reados s) < Z.of_nat fuel ->
  exists s' ps, recv_protocols reg fuel s = (s', Ok ps) /\ ses_in s' inb buf /\
    os_pos (ses_reados s) <= os_pos (ses_reados s') /\ same_identity s s' /\
    Forall (stamped s) ps /\ os_data (ses_reados s') = os_data (ses_reados s).
Proof.
  intros Hreg. revert s. induction fuel as [|fuel IH]; intros s [Ho Hb] Hf.
  { pose proof Ho as [_ ?]. lia. }
  simpl. rewrite M_get.
  destruct (decode_sound reg (ses_reados s) s inb Hreg Ho) as (os & s1 & r & E & Hd & Hr).
  rewrite E. set (s2 := ses_with_read os (ses_readbuf s1) s1).
  rewrite (M_bind_ok _ _ s s2 tt) by done. rewrite (M_bind_ok _ _ s2 s2 r) by done.
  assert (Hin : os_pos (ses_reados s) <= os_pos os <= len inb -> ses_readbuf s1 = ses_readbuf s ->
    ses_in s2 inb buf).
  { intros Hp Hrb. destruct Ho as [Ho Hpos]. split; simpl; [|by rewrite Hrb].
    split; [by rewrite Hd|lia]. }
  destruct r as [p|].
  - destruct Hr as (-> & Hp & Hst).
    destruct (IH s2) as (s' & ps & E' & Hin' & Hp' & Hid & Hps & Hdd); [apply Hin; [lia|done]|simpl; lia|].
    rewrite (M_bind_ok _ _ _ _ _ E'). exists s', (p :: ps). simpl in Hp'.
    split; [done|]. split; [done|]. split; [lia|]. split; [done|]. split; [by constructor|]. by rewrite Hdd.
  - destruct Hr as [Hp Hs]. pose proof Ho as [_ Hpos]. exists s2, [].
    split; [done|]. split; [apply Hin; [lia|by destruct Hs as [-> | ->]]|].
    split; [simpl; lia|]. split; [by destruct Hs as [-> | ->]|]. by split.
Qed.

(** An append that fits leaves the capacity. *)
Lemma append_fits_cap o bs data n d : octets_repr o bs -> octets_append o data n = Ok d ->
  0 <= n -> len bs + n <= o_cap o -> o_cap d = o_cap o.
Proof.
  intros Hr E Hn Hfit. pose proof (repr_len _ _ Hr) as Hl. pose proof (repr_wf _ _ Hr) as [Hc Hw Hm].
  pose proof (len_nonneg bs). revert E. unfold octets_append. destruct (n =? 0); [by intros [= <-]|].
  rewrite Hl, wrapU_small by (unfold inU; octets_lia). unfold octets_reserve.
  destruct (Z.geb_spec (o_cap o) (len bs + n)); [|lia].
  simpl. destruct (mem_read _ _ _); simpl; [|done|done].
  destruct (mem_write _ _ _); simpl; [|done|done]. by intros [= <-].
Qed.

(** Moving the read buffer into the stream keeps what is unread. *)
Lemma recv_append s inb buf k :
  ses_in s inb buf -> k = Z.min (len buf) (octets_free_space (os_data (ses_reados s))) ->
  exists d rb, octets_append (os_data (ses_reados s)) (o_buf (ses_readbuf s)) k = Ok d /\
    octets_erase (ses_readbuf s) 0 k = Ok rb /\
    octets_repr d (inb ++ take (Z.to_nat k) buf) /\ octets_repr rb (drop (Z.to_nat k) buf) /\
    o_cap d = o_cap (os_data (ses_reados s)) /\ o_cap rb = o_cap (ses_readbuf s) /\
    octets_free_space (os_data (ses_reados s)) = o_cap (os_data (ses_reados s)) - len inb.
Proof.
  intros [[Ho Hp] Hb] ->. set (k := Z.min _ _).
  pose proof (repr_len _ _ Ho) as Hl. pose proof (repr_wf _ _ Ho) as [Hc Hw Hm].
  assert (Hfs : octets_free_space (os_data (ses_reados s)) = o_cap (os_data (ses_reados s)) - len inb).
  { unfold octets_free_space. rewrite Hl. apply wrapU_small. unfold inU. octets_lia. }
  assert (Hk : 0 <= k <= len buf /\ len inb + k <= MAX_OCTETS).
  { unfold k. rewrite Hfs. pose proof (len_nonneg buf). lia. }
  destruct (repr_split _ _ Hb) as (tl & Hbuf & _).
  assert (Hlt : len (take (Z.to_nat k) buf) = k) by (unfold len in *; rewrite length_take; lia).
  destruct (append_repr (os_data (ses_reados s)) inb (o_buf (ses_readbuf s)) k
    (take (Z.to_nat k) buf) ((Some <$> drop (Z.to_nat k) buf) ++ tl)) as (d & E & Hd & _);
    [done|by rewrite Hbuf, app_assoc, <- fmap_app, take_drop|by rewrite Hlt|lia|].
  destruct (erase_repr (ses_readbuf s) buf 0 k Hb) as (rb & E2 & Hrb & Hcap); [lia|lia|].
  exists d, rb. split; [done|]. split; [done|]. split; [done|].
  change (Z.to_nat 0) with 0%nat in Hrb. rewrite take_0, app_nil_l, Z.add_0_l in Hrb.
  split; [done|]. split; [|done]. eapply append_fits_cap; [done|exact E|lia|lia].
Qed.

(** [on_recv] up to its loop. *)
Lemma on_recv_unfold now s inb buf :
  ses_in s inb buf ->
  exists s1 inb1 buf1, ses_in s1 inb1 buf1 /\
    os_pos (ses_reados s1) = os_pos (ses_reados s) /\ same_identity s s1 /\
    unread s1 inb1 buf1 = unread s inb buf /\
    ses_state s1 = SESSION_STATE_RECVING /\
    (len buf <= octets_free_space (os_data (ses_reados s)) -> inb1 = inb ++ buf /\ buf1 = []) /\
    (o_cap (os_data (ses_reados s1)) = o_cap (os_data (ses_reados s)) /\
     o_cap (ses_readbuf s1) = o_cap (ses_readbuf s) /\
     len buf1 = len buf - Z.min (len buf) (o_cap (os_data (ses_reados s)) - len inb)) /\
    (exists moved, inb1 = inb ++ moved /\ buf = moved ++ buf1 /\
       len moved = Z.min (len buf) (octets_free_space (os_data (ses_reados s)))) /\
    session_on_recv reg now s
    = (prots ← recv_protocols reg (S (Z.to_nat (os_size (ses_reados s1))));
       on_reados try_shrink;; mret prots) s1.
Proof.
  intros Hin. pose proof Hin as [Ho Hb]. pose proof (repr_len _ _ Hb) as Hlb.
  set (k := Z.min (len buf) (octets_free_space (os_data (ses_reados s)))).
  destruct (recv_append s inb buf k Hin eq_refl) as (d & rb & E1 & E2 & Hd & Hrb & Hcd & Hcr & Hfree).
  set (s0 := ses_with_state SESSION_STATE_RECVING (session_activate now s)).
  set (s1 := ses_with_read (os_with_data d (ses_reados s)) rb s0).
  exists s1, (inb ++ take (Z.to_nat k) buf), (drop (Z.to_nat k) buf).
  pose proof Ho as [_ Hp]. pose proof (len_nonneg buf).
  assert (Hk : 0 <= k) by (unfold k, octets_free_space; pose proof (wrapU_range 64
    (o_cap (os_data (ses_reados s)) - o_len (os_data (ses_reados s))) ltac:(lia)) as [? _]; lia).
  split_and!; try done.
  - split; [|done]. split; [done|]. simpl. rewrite len_app.
    pose proof (len_nonneg (take (Z.to_nat k) buf)). lia.
  - unfold unread. cbn [ses_reados s1 ses_with_read os_pos os_with_data].
    rewrite drop_app_le by (unfold len in *; lia). by rewrite <- app_assoc, take_drop.
  - intros Hfit. unfold k. rewrite Z.min_l by done. unfold len. rewrite Nat2Z.id.
    by rewrite take_ge, drop_ge by lia.
  - rewrite <- Hfree. fold k. unfold len. rewrite length_drop. unfold len in *. lia.
  - exists (take (Z.to_nat k) buf). rewrite take_drop. split; [done|]. split; [done|]. fold k.
    unfold len. rewrite length_take. unfold k, len in *. lia.
  - unfold session_on_recv.
    rewrite (M_bind_ok _ _ s (session_activate now s) tt) by done.
    rewrite (M_bind_ok _ _ _ s0 tt) by done. rewrite M_get. cbv zeta.
    change (ses_readbuf s0) with (ses_readbuf s). change (ses_reados s0) with (ses_reados s).
    change (octets_size (ses_readbuf s)) with (o_len (ses_readbuf s)). rewrite Hlb. fold k.
    rewrite (M_bind_ok _ _ s0 (ses_with_read (os_with_data d (ses_reados s)) (ses_readbuf s) s0) tt).
    2:{ unfold on_reados, on_data. change (ses_reados s0) with (ses_reados s). by rewrite E1. }
    unfold lift. unfold mbind at 1, M_bind at 1. rewrite E2. done.
Qed.

(** The bytes that decoding takes from the content [bs] of the stream, message
    by message: each message takes those between the cursor before and the
    cursor after its [decode], at least one, and the first [decode] that finds no
    message takes none. *)
Inductive takes (bs : list byte) : session -> list byte -> list (protocol B) -> Prop :=
| takes_none ses os ses' :
    decode reg (ses_reados ses) ses = (os, ses', Ok None) -> os_pos os = os_pos (ses_reados ses) ->
    takes bs ses [] []
| takes_message ses os ses' p used ps :
    decode reg (ses_reados ses) ses = (os, ses', Ok (Some p)) ->
    os_pos (ses_reados ses) < os_pos os <= len bs ->
    takes bs (ses_with_read os (ses_readbuf ses') ses') used ps ->
    takes bs ses (slice bs (os_pos (ses_reados ses)) (os_pos os - os_pos (ses_reados ses)) ++ used) (p :: ps).

Lemma recv_protocols_takes fuel s s' ps inb buf :
  stubs_ok reg -> ses_in s inb buf -> recv_protocols reg fuel s = (s', Ok ps) ->
  takes inb s (slice inb (os_pos (ses_reados s)) (os_pos (ses_reados s') - os_pos (ses_reados s))) ps /\
  os_pos (ses_reados s) <= os_pos (ses_reados s') <= len inb.
Proof.
  intros Hreg. revert s ps. induction fuel as [|fuel IH]; intros s ps [Ho Hb]; [done|].
  cbn [recv_protocols]. rewrite M_get. pose proof Ho as [Hd0 Hpos].
  destruct (decode_sound reg (ses_reados s) s inb Hreg Ho) as (os & s1 & r & E & Hd & Hr).
  rewrite E. set (s2 := ses_with_read os (ses_readbuf s1) s1).
  rewrite (M_bind_ok _ _ s s2 tt) by done. rewrite (M_bind_ok _ _ s2 s2 r) by done.
  destruct r as [p|].
  - destruct Hr as (-> & Hp & _). intros Hrun. apply M_bind_inv in Hrun as (s3 & ps' & Hrun & [= <- <-]).
    assert (Hin : ses_in s2 inb buf) by (split; [split; simpl; [by rewrite Hd|lia]|done]).
    destruct (IH s2 ps' Hin Hrun) as [Ht Hp']. change (os_pos (ses_reados s2)) with (os_pos os) in Ht, Hp'. split; [|lia].
    replace (slice inb (os_pos (ses_reados s)) (os_pos (ses_reados s3) - os_pos (ses_reados s)))
      with (slice inb (os_pos (ses_reados s)) (os_pos os - os_pos (ses_reados s)) ++
            slice inb (os_pos os) (os_pos (ses_reados s3) - os_pos os)) by (apply slice_cat; lia).
    by eapply takes_message.
  - destruct Hr as [Hp _]. intros [= <- <-]. change (os_pos (ses_reados s2)) with (os_pos os). split; [|lia].
    rewrite Hp, Z.sub_diag. by eapply takes_none.
Qed.

(** [on_recv] moves what fits from the receive buffer to the stream, and what was
    unread is what decoding takes from there, followed by what is unread after. *)
Lemma on_recv_sound now s inb buf :
  stubs_ok reg -> ses_in s inb buf ->
  exists s' ps inb' buf' s0 moved rest used, session_on_recv reg now s = (s', Ok ps) /\ ses_in s' inb' buf' /\
    buf = moved ++ rest /\ len moved = Z.min (len buf) (octets_free_space (os_data (ses_reados s))) /\
    ses_in s0 (inb ++ moved) rest /\
    os_pos (ses_reados s0) = os_pos (ses_reados s) /\ same_identity s s0 /\
    takes (inb ++ moved) s0 used ps /\
    unread s inb buf = used ++ unread s' inb' buf' /\ same_identity s s' /\ Forall (stamped s) ps.
Proof.
  intros Hreg Hin.
  destruct (on_recv_unfold now s inb buf Hin) as (s1 & inb1 & buf1 & Hin1 & Hp1 & Hid1 & Hu1 & _ & _ & _ & (moved & -> & -> & Hmoved) & ->).
  pose proof Hin1 as [Ho1 Hb1]. pose proof Ho1 as [_ Hpos1].
  destruct (recv_protocols_sound (S (Z.to_nat (os_size (ses_reados s1)))) s1 _ buf1 Hreg Hin1)
    as (s2 & ps & E2 & [Ho2 Hb2] & Hp2 & Hid2 & Hps & _).
  { rewrite (os_size_repr _ _ Ho1). lia. }
  destruct (recv_protocols_takes _ _ _ _ _ _ Hreg Hin1 E2) as [Ht _].
  rewrite (M_bind_ok _ _ _ _ _ E2).
  destruct (try_shrink_ok (ses_reados s2) _ Ho2) as (os & inb2 & E3 & Ho3 & Hdrop).
  eexists (ses_with_read os (ses_readbuf s2) s2), ps, inb2, buf1, s1, moved, buf1, _.
  split; [|split; [by split|split; [done|split; [exact Hmoved|]]]]; [|split; [exact Hin1|split; [exact Hp1|split; [done|split; [exact Ht|]]]]].
  - rewrite (M_bind_ok _ _ s2 (ses_with_read os (ses_readbuf s2) s2) tt); [done|].
    unfold on_reados. by rewrite E3.
  - split; [|split].
    + rewrite <- Hu1. unfold unread. cbn [ses_reados ses_with_read]. rewrite Hdrop, app_assoc. f_equal.
      unfold slice. rewrite <- (take_drop (Z.to_nat (os_pos (ses_reados s2) - os_pos (ses_reados s1)))
        (drop (Z.to_nat (os_pos (ses_reados s1))) _)) at 1.
      rewrite drop_drop. f_equal. f_equal. lia.
    + destruct Hid1, Hid2. split; simpl; congruence.
    + destruct Hid1 as [E F]. eapply Forall_impl; [exact Hps|]. intros p [Hs Hm]. split; congruence.
Qed.

(** A stream of whole frames is decoded completely, in order. *)
Lemma recv_protocols_frames fuel s pre msgs buf :
  stubs_ok reg ->
  Forall (fun b => body_wf b /\ compact_size_good (len (body_bytes b)) = true /\
                   is_Some (reg !! get_type b)) msgs ->
  ses_in s (pre ++ (msgs ≫= body_frame)) buf -> os_pos (ses_reados s) = len pre ->
  (length msgs < fuel)%nat ->
  exists s' ps, recv_protocols reg fuel s = (s', Ok ps) /\
    Forall2 (fun p b => prot_body p ≡ b) ps msgs /\
    ses_in s' (pre ++ (msgs ≫= body_frame)) buf /\
    os_pos (ses_reados s') = len (pre ++ (msgs ≫= body_frame)) /\ ses_state s' = ses_state s.
Proof.
  intros Hreg Hms. revert fuel s pre. induction Hms as [|b msgs (Hb & Hg & Hst) Hms IH];
    intros fuel s pre Hin Hp Hf; (destruct fuel as [|fuel]; [simpl in Hf; lia|]); simpl; rewrite M_get;
    pose proof Hin as [Ho Hbuf].
  - assert (Hdec : decode reg (ses_reados s) s = (ses_reados s, s, Ok None)).
    { unfold decode. rewrite (data_ready_rest _ _ _ Ho), Hp, app_nil_r.
      by destruct (Z.leb_spec 1 (len pre - len pre)); [lia|]. }
    rewrite Hdec. exists (ses_with_read (ses_reados s) (ses_readbuf s) s), [].
    split; [done|]. split; [done|]. split; [by split|]. simpl. by rewrite app_nil_r.
  - destruct Hst as [stub Hst]. simpl in Ho.
    destruct (decode_frame reg (ses_reados s) s pre (msgs ≫= body_frame) b stub Hreg Hst Hb Hg Ho Hp)
      as (p & E & Hpb & _).
    rewrite E. set (s2 := ses_with_read _ (ses_readbuf s) s).
    rewrite (M_bind_ok _ _ s s2 tt) by done. rewrite (M_bind_ok _ _ s2 s2 (Some p)) by done.
    destruct (IH fuel s2 (pre ++ body_frame b)) as (s' & ps & E' & Hps & Hin' & Hp' & Hs');
      [|simpl; by rewrite len_app|simpl in Hf; lia|].
    { split; [|done]. rewrite <- app_assoc. destruct Ho as [Hd Hpos]. split; [done|]. simpl.
      rewrite !len_app in *. pose proof (len_nonneg (body_frame b)).
      pose proof (len_nonneg (msgs ≫= body_frame)). lia. }
    rewrite (M_bind_ok _ _ _ _ _ E'). exists s', (p :: ps). rewrite <- app_assoc in Hin', Hp'.
    split; [done|]. split; [by constructor|]. split; [done|]. by split.
Qed.

Lemma frames_length msgs : Forall (fun b => body_wf b) msgs ->
  Z.of_nat (length msgs) <= len (msgs ≫= body_frame).
Proof.
  induction 1 as [|b msgs Hb Hms IH]; [done|]. cbn [length]. rewrite bind_cons, len_app.
  assert (1 <= len (body_frame b)); [|lia].
  unfold body_frame, frame. rewrite len_app.
  pose proof (len_nonneg (take (Z.to_nat (get_compact_int_size (len (body_bytes b))))
    (varint (len (body_bytes b))) ++ body_bytes b)).
  pose proof (inU_mono 32 64 (get_type b) ltac:(lia) (body_type b Hb)) as Hu.
  rewrite varint_length by done. pose proof (varint_len_bounds _ Hu). lia.
Qed.

End RecvLaws.

(** ** Sending: proofs *)

Section SendLaws.

Lemma size_repr o bs : octets_repr o bs -> octets_size o = len bs.
Proof. apply repr_len. Qed.

(** The bytes of a connection, from the first ever sent to the last queued. *)
Definition conn_stream (c : conn) (buf queued : list byte) : list byte :=
  c_sent c ++ pending (ses_write_offset (c_ses c)) buf queued.

(** The buffers hold these bytes and the event has its base. *)
Record conn_ok (c : conn) (buf queued : list byte) : Prop := {
  co_out : ses_out (c_ses c) buf queued;
  co_base : ev_base (c_ev c) = true;
}.

(** A connection between calls has something left in its write buffer, or the
    buffer is empty with offset zero. *)
Definition idle_offset (c : conn) (buf : list byte) : Prop :=
  ses_write_offset (c_ses c) < len buf \/ (buf = [] /\ ses_write_offset (c_ses c) = 0).

(** What the event and the session's state may do meanwhile. *)
Definition no_send_error (rs : list send_result) : Prop :=
  Forall (fun r => r <> SendZero /\ r <> SendError) rs.
Definition rooms_positive (rs : list send_result) : Prop :=
  Forall (fun r => match r with SendLen n => 0 < n | _ => True end) rs.

(** The parts of a connection that sending without an error leaves alone. *)
Definition keeps_state (c c' : conn) : Prop :=
  ses_state (c_ses c') = ses_state (c_ses c) /\ ev_status (c_ev c') = ev_status (c_ev c).

Lemma forbid_send_ok c buf queued :
  conn_ok c buf queued -> exists c', session_forbid_send c = (c', Ok tt) /\
    conn_ok c' buf queued /\ c_ses c' = c_ses c /\ c_sent c' = c_sent c /\
    ev_status (c_ev c') = ev_status (c_ev c).
Proof.
  intros [Ho Hb]. unfold session_forbid_send, ses_event_op. rewrite M_get.
  destruct (ses_event (c_ses c)); [|exists c; by split_and!].
  unfold forbid_write, ev_change. rewrite Hb.
  destruct (_ || _); (eexists; split; [done|]; by split_and!).
Qed.

Lemma permit_send_ok c : ev_base (c_ev c) = true ->
  exists c', session_permit_send c = (c', Ok tt) /\ c_ses c' = c_ses c /\ c_sent c' = c_sent c /\
    ev_status (c_ev c') = ev_status (c_ev c).
Proof.
  intros Hb. unfold session_permit_send, ses_event_op. rewrite M_get.
  destruct (ses_event (c_ses c)); [|by exists c].
  unfold permit_write, ev_change. rewrite Hb. destruct (_ || _); by eexists.
Qed.

Lemma close_socket_ok c buf queued reason :
  conn_ok c buf queued -> exists c', close_socket reason c = (c', Ok tt) /\
    conn_ok c' buf queued /\ c_sent c' = c_sent c /\
    ses_write_offset (c_ses c') = ses_write_offset (c_ses c).
Proof.
  intros [Ho Hb]. unfold close_socket, conn_del_event. mrun. unfold on_ses. simpl. rewrite Hb.
  eexists. split; [done|]. split; [|done]. split; [|done]. destruct Ho. by split.
Qed.

(** One successful [send]. *)
Lemma send_take_ok c buf queued n :
  conn_ok c buf queued -> 0 < n <= len buf - ses_write_offset (c_ses c) ->
  exists c', send_take n c = (c', Ok tt) /\ conn_ok c' buf queued /\
    conn_stream c' buf queued = conn_stream c buf queued /\ keeps_state c c' /\
    ses_write_offset (c_ses c') = ses_write_offset (c_ses c) + n.
Proof.
  intros [[Hb Hq Ho] Hbase] Hn. unfold send_take. rewrite M_get. cbv zeta.
  pose proof (repr_len _ _ Hb) as Hl. pose proof (repr_wf _ _ Hb) as [Hc Hw Hm].
  set (off := ses_write_offset (c_ses c)) in *.
  assert (Hread : mem_read (o_buf (ses_writebuf (c_ses c))) off n = Ok (Some <$> slice buf off n)).
  { destruct (repr_split _ _ Hb) as (tl & Hbuf & _). rewrite mem_read_ok by lia. f_equal.
    rewrite Hbuf. unfold slice. rewrite drop_app_le by (rewrite length_fmap; unfold len in *; lia).
    rewrite take_app_le by (rewrite length_drop, length_fmap; unfold len in *; lia).
    by rewrite <- fmap_drop, <- fmap_take. }
  unfold lift. unfold mbind at 1, M_bind at 1. rewrite Hread.
  unfold mbind at 1, M_bind at 1. rewrite cells_init_Some.
  rewrite (wrapU_small 64 (off + n)) by (unfold inU; octets_lia).
  eexists. split; [done|]. split; [|split; [|by split]].
  - split; [|done]. split; [done|done|simpl; lia].
  - unfold conn_stream, pending. cbn [c_sent c_ses ses_write_offset ses_with_write]. fold off.
    rewrite <- app_assoc. f_equal. rewrite app_assoc. f_equal. unfold slice.
    rewrite <- (take_drop (Z.to_nat n) (drop (Z.to_nat off) buf)) at 2. f_equal.
    rewrite drop_drop. f_equal. lia.
Qed.

(** The write buffer is used up: what was queued takes its place. *)
Lemma next_wbuffer_ok c buf queued :
  conn_ok c buf queued -> ses_write_offset (c_ses c) = len buf ->
  let c' := mk_conn (session_wbuffer (session_clear_wbuffer (c_ses c))) (c_ev c) (c_changed c) (c_sent c) in
  conn_ok c' queued [] /\ conn_stream c' queued [] = conn_stream c buf queued /\ keeps_state c c' /\
  ses_write_offset (c_ses c') = 0.
Proof.
  intros [[Hb Hq Ho] Hbase] Hoff c'.
  assert (Hout : ses_out (session_clear_wbuffer (c_ses c)) [] queued).
  { split; [by eapply clear_repr|done|done]. }
  unfold c', session_wbuffer. cbn [octets_empty octets_clear ses_writebuf session_clear_wbuffer
    ses_with_write o_len]. change (octets_empty (octets_clear (ses_writebuf (c_ses c)))) with true.
  cbv iota. split; [|split; [|by split]].
  - split; [|done]. pose proof (len_nonneg queued).
    split; simpl; [by destruct Hq|by eapply os_clear_repr, clear_repr|lia].
  - unfold conn_stream, pending. simpl. rewrite Hoff. unfold len. rewrite Nat2Z.id, drop_all.
    by rewrite app_nil_r.
Qed.

Lemma send_all_ok rs total c buf queued :
  conn_ok c buf queued -> ses_write_offset (c_ses c) < len buf -> rooms_positive rs ->
  exists c' t buf' queued', send_all rs total c = (c', Ok t) /\ conn_ok c' buf' queued' /\
    idle_offset c' buf' /\ conn_stream c' buf' queued' = conn_stream c buf queued /\
    (no_send_error rs -> keeps_state c c').
Proof.
  revert total c buf queued. induction rs as [|r rs IH]; intros total c buf queued Hok Hlt Hrooms.
  { exists c, total, buf, queued. split_and!; try done. by left. }
  apply Forall_cons in Hrooms as [Hr Hrs].
  assert (Hclose : exists c' t buf' queued', (close_socket SESSION_CLOSE_REASON_ERROR;; mret total) c
    = (c', Ok t) /\ conn_ok c' buf' queued' /\ idle_offset c' buf' /\
    conn_stream c' buf' queued' = conn_stream c buf queued).
  { destruct (close_socket_ok c buf queued SESSION_CLOSE_REASON_ERROR Hok) as (c' & E & Hok' & Hs & Hoff).
    exists c', total, buf, queued. rewrite (M_bind_ok _ _ _ _ _ E). split; [done|]. split; [done|].
    unfold idle_offset, conn_stream. rewrite Hs, Hoff. split; [by left|done]. }
  assert (Herr : forall r, r = SendZero \/ r = SendError -> no_send_error (r :: rs) -> False).
  { intros ? [-> | ->] [[H1 H2] _]%Forall_cons; done. }
  assert (Hfail : r = SendZero \/ r = SendError -> exists c' t buf' queued',
    (close_socket SESSION_CLOSE_REASON_ERROR;; mret total) c = (c', Ok t) /\
    conn_ok c' buf' queued' /\ idle_offset c' buf' /\
    conn_stream c' buf' queued' = conn_stream c buf queued /\ (no_send_error (r :: rs) -> keeps_state c c')).
  { intros Hf. destruct Hclose as (c1 & t & b1 & q1 & ? & ? & ? & ?). exists c1, t, b1, q1.
    split_and!; try done. intros Hne. destruct (Herr r Hf Hne). }
  destruct r as [room| | | |]; simpl; [|by auto| | |by auto].
  2:{ destruct (IH total c buf queued Hok Hlt Hrs) as (c' & t & b' & q' & ? & ? & ? & ? & Hk).
      exists c', t, b', q'. split_and!; try done. intros [_ Hne]%Forall_cons. auto. }
  2:{ exists c, total, buf, queued. split_and!; try done. by left. }
  rewrite M_get. cbv zeta. pose proof Hok as [[Hb Hq Ho] Hbase].
  rewrite (size_repr _ _ Hb).
  pose proof (repr_wf _ _ Hb) as [Hc Hw Hm]. pose proof (repr_len _ _ Hb) as Hlb.
  rewrite (wrapU_small 64 (len buf - _)) by (unfold inU; octets_lia).
  set (n := Z.min room (len buf - ses_write_offset (c_ses c))).
  destruct (send_take_ok c buf queued n Hok ltac:(unfold n; lia)) as (c1 & E1 & Hok1 & Hs1 & Hk1 & Hoff1).
  rewrite (M_bind_ok _ _ _ _ _ E1), M_get. pose proof Hok1 as [[Hb1 Hq1 Ho1] _].
  rewrite (size_repr _ _ Hb1).
  destruct (Z.eqb_spec (ses_write_offset (c_ses c1)) (len buf)) as [Heq|Hne].
  - destruct (next_wbuffer_ok c1 buf queued Hok1 Heq) as (Hok2 & Hs2 & Hk2 & Hoff2).
    set (c2 := mk_conn _ _ _ _) in *.
    rewrite (M_bind_ok _ _ c1 c2 tt) by done. rewrite M_get.
    pose proof Hok2 as [[Hb2 _ _] _]. rewrite (size_repr _ _ Hb2), Hoff2.
    destruct (Z.eqb_spec (len queued) 0) as [Hq0|Hq0].
    + destruct (forbid_send_ok c2 queued [] Hok2) as (c3 & E3 & Hok3 & Hses & Hsent & Hst).
      rewrite (M_bind_ok _ _ _ _ _ E3). exists c3, (s32 (total + n)), queued, [].
      split; [done|]. split; [done|]. split; [|split].
      * right. rewrite Hses. split; [|done].
        destruct queued; [done|rewrite len_cons in Hq0; pose proof (len_nonneg queued); lia].
      * unfold conn_stream in *. by rewrite Hses, Hsent, Hs2.
      * intros _. destruct Hk1, Hk2. split; [rewrite Hses|]; congruence.
    + destruct (IH (s32 (total + n)) c2 queued [] Hok2) as (c' & t & b' & q' & E & Hok' & Hi' & Hs' & Hk');
        [pose proof (len_nonneg queued); lia|done|].
      exists c', t, b', q'. split; [done|]. split; [done|]. split; [done|]. split; [congruence|].
      intros [_ Hne']%Forall_cons. destruct (Hk' Hne'), Hk1, Hk2. split; congruence.
  - destruct (IH (s32 (total + n)) c1 buf queued Hok1) as (c' & t & b' & q' & E & Hok' & Hi' & Hs' & Hk');
      [unfold n in *; lia|done|].
    exists c', t, b', q'. split; [done|]. split; [done|]. split; [done|]. split; [congruence|].
    intros [_ Hne']%Forall_cons. destruct (Hk' Hne'), Hk1. split; congruence.
Qed.

Lemma handle_write_ok now rs c buf queued :
  conn_ok c buf queued -> idle_offset c buf -> rooms_positive rs ->
  exists c' t buf' queued', handle_write now rs c = (c', Ok t) /\ conn_ok c' buf' queued' /\
    idle_offset c' buf' /\ conn_stream c' buf' queued' = conn_stream c buf queued /\
    (no_send_error rs -> ev_status (c_ev c') = ev_status (c_ev c)) /\
    (buf <> [] \/ queued <> [] -> ses_state (c_ses c') = SESSION_STATE_SENDING).
Proof.
  intros Hok Hidle Hrooms. pose proof Hok as [Hout Hbase]. unfold handle_write.
  assert (Hz : buf = [] -> ses_write_offset (c_ses c) = 0).
  { intros ->. destruct Hidle as [Hlt|[_ ?]]; [|done]. destruct Hout as [_ _ ?]. rewrite len_nil in *. lia. }
  destruct (wbuffer_out (c_ses c) buf queued Hout Hz) as (b1 & q1 & Hout1 & Hoff1 & Hpend & Hnil & Hcase).
  set (c1 := mk_conn (session_wbuffer (c_ses c)) (c_ev c) (c_changed c) (c_sent c)).
  assert (Hok1 : conn_ok c1 b1 q1) by by split.
  assert (Hidle1 : idle_offset c1 b1).
  { unfold idle_offset, c1 in *. simpl. rewrite Hoff1. destruct b1 as [|b b1].
    - right. split; [done|]. apply Hz. by apply Hnil.
    - left. destruct Hcase as [-> | <-].
      + rewrite (Hz eq_refl), len_cons. pose proof (len_nonneg b1). lia.
      + destruct Hidle as [|[? _]]; done. }
  assert (Hs1 : conn_stream c1 b1 q1 = conn_stream c buf queued).
  { unfold conn_stream, c1. simpl. by rewrite Hoff1, Hpend. }
  rewrite (M_bind_ok _ _ c c1 tt) by done. rewrite M_get.
  pose proof Hok1 as [[Hb1 Hq1 Ho1] _].
  rewrite (size_repr _ _ Hb1).
  destruct (Z.eqb_spec (len b1) 0) as [H0|H0].
  - destruct (forbid_send_ok c1 b1 q1 Hok1) as (c2 & E2 & Hok2 & Hses & Hsent & Hst).
    rewrite (M_bind_ok _ _ _ _ _ E2). exists c2, 0, b1, q1. split; [done|]. split; [done|].
    split; [unfold idle_offset in *; by rewrite Hses|].
    split; [unfold conn_stream in *; by rewrite Hses, Hsent|]. split; [done|].
    assert (b1 = []) as Hb1nil by (destruct b1; [done|rewrite len_cons in H0; pose proof (len_nonneg b1); lia]).
    destruct (Hnil Hb1nil) as (_ & -> & ->). intros [|]; done.
  - assert (Hlt : ses_write_offset (c_ses c1) < len b1).
    { destruct Hidle1 as [|[-> _]]; [done|]. by rewrite len_nil in H0. }
    destruct (send_all_ok rs 0 c1 b1 q1 Hok1 Hlt Hrooms)
      as (c2 & t & b2 & q2 & E2 & Hok2 & Hi2 & Hs2 & Hk).
    rewrite (M_bind_ok _ _ _ _ _ E2).
    eexists _, t, b2, q2. split; [done|]. split; [destruct Hok2 as [[? ? ?] ?]; by split|].
    split; [done|]. split; [by rewrite <- Hs1, <- Hs2|]. split; [|done].
    intros Hne. by destruct (Hk Hne).
Qed.
End SendLaws.

(** ** Queueing *)

Lemma queue_octets_ok data d rest s buf queued :
  ses_out s buf queued -> data = (Some <$> d) ++ rest ->
  exists s' ok, queue_octets data (len d) s = Ok (s', ok) /\
    (if ok then ses_out s' buf (queued ++ d) /\ o_cap (os_data (ses_writeos s')) = o_cap (os_data (ses_writeos s))
     else s' = s /\ o_cap (os_data (ses_writeos s)) < len queued + len d) /\
    ses_write_offset s' = ses_write_offset s /\ ses_state s' = ses_state s.
Proof.
  intros [Hb [Hq Hp] Ho] Hdata. unfold queue_octets.
  pose proof (repr_len _ _ Hq) as Hl. pose proof (repr_wf _ _ Hq) as [Hc Hw Hm].
  unfold octets_free_space. rewrite Hl, wrapU_small by (unfold inU; octets_lia).
  destruct (Z.gtb_spec (len d) (o_cap (os_data (ses_writeos s)) - len queued)) as [Hgt|Hle].
  { exists s, false. split_and!; try done. lia. }
  pose proof (len_nonneg d).
  destruct (append_repr _ queued data (len d) d rest Hq Hdata eq_refl) as (o & E & Hr & _); [lia|].
  assert (Hcap : o_cap o = o_cap (os_data (ses_writeos s))) by (eapply append_fits_cap; [done|exact E|lia|lia]).
  rewrite E. eexists _, true. split; [done|]. split; [|done]. split; [|done].
  split; [done| |done]. split; [done|]. simpl. rewrite len_app. lia.
Qed.

(** ** Properties *)

(** A session as [demo_session], receiving into and sending from these
    buffers. *)
Definition io_session (inb : octetsstream) (rbuf : octets) (st : SESSION_STATE)
    (q : octetsstream) (wbuf : octets) : session :=
  mk_session 42 5 st SESSION_CLOSE_REASON_NONE 0 9 true inb rbuf 0 q wbuf.
Definition full_octets (bs : list byte) : octets :=
  mk_octets (Some <$> bs) (len bs) (len bs).
Lemma full_repr bs : len bs <= MAX_OCTETS -> octets_repr (full_octets bs) bs.
Proof.
  intros Hm. pose proof (len_nonneg bs). pose proof (repr_join bs [] (len bs) (len bs) eq_refl) as H1.
  rewrite app_nil_r in H1. apply H1; [rewrite len_nil; lia|done].
Qed.
Lemma full_os_repr bs : len bs <= MAX_OCTETS -> os_repr (mk_os (full_octets bs) 0 0) bs.
Proof. intros Hm. split; [by apply full_repr|simpl; pose proof (len_nonneg bs); lia]. Qed.

(** C6 — Receiving is safe and loses nothing: whatever bytes a session has
    received, [on_recv] returns (its loop ends); it moves from the receive buffer
    to the stream what the stream has room for; the messages handed over are
    those that [decode] finds there one after the other from the cursor on, until
    it finds none; what was unread before is the bytes these calls of [decode]
    took, each message at least one, followed by what is unread after; and every
    message is stamped with the session. *)
Theorem on_recv_conserves {B} `{ProtocolBodyOk B} (reg : stubs B) now s inb buf :
  stubs_ok reg -> ses_in s inb buf ->
  exists s' ps inb' buf' s0 moved rest used, session_on_recv reg now s = (s', Ok ps) /\ ses_in s' inb' buf' /\
    buf = moved ++ rest /\ len moved = Z.min (len buf) (octets_free_space (os_data (ses_reados s))) /\
    ses_in s0 (inb ++ moved) rest /\
    os_pos (ses_reados s0) = os_pos (ses_reados s) /\ same_identity s s0 /\
    takes reg (inb ++ moved) s0 used ps /\
    unread s inb buf = used ++ unread s' inb' buf' /\ same_identity s s' /\ Forall (stamped s) ps.
Proof. apply on_recv_sound. Qed.

(** A frame, and the beginning of another in the receive buffer. *)
Definition framed_session : session :=
  io_session (mk_os (full_octets [x07; x02; x01; x61]) 0 0) (full_octets [x07; x02; x01])
    SESSION_STATE_ACTIVE os_null octets_null.
Lemma framed_in : ses_in framed_session [x07; x02; x01; x61] [x07; x02; x01].
Proof.
  split; [apply full_os_repr; vm_compute; discriminate|apply full_repr; vm_compute; discriminate].
Defined.

Lemma on_recv_conserves_witness :
  stubs_ok text_reg /\
  exists s' ps inb' buf' s0 moved rest used, session_on_recv text_reg 3 framed_session = (s', Ok ps) /\
    ses_in s' inb' buf' /\ [x07; x02; x01] = moved ++ rest /\ len moved = 0 /\
    ses_in s0 ([x07; x02; x01; x61] ++ moved) rest /\
    os_pos (ses_reados s0) = 0 /\ same_identity framed_session s0 /\
    takes text_reg ([x07; x02; x01; x61] ++ moved) s0 used ps /\
    [x07; x02; x01; x61; x07; x02; x01] = used ++ unread s' inb' buf' /\
    same_identity framed_session s' /\ Forall (stamped framed_session) ps.
Proof.
  split; [exact text_reg_ok|].
  exact (on_recv_conserves text_reg 3 framed_session _ _ text_reg_ok framed_in).
Defined.

(** Delivery: when the frames of some messages of registered classes,
    whose sizes the table measures correctly, arrive in a stream with room
    for them, [on_recv] hands over those messages, in order, and nothing is
    left. *)
Theorem on_recv_delivers {B} `{ProtocolBodyOk B} (reg : stubs B) now s pre msgs :
  stubs_ok reg ->
  Forall (fun b => body_wf b /\ compact_size_good (len (body_bytes b)) = true /\
                   is_Some (reg !! get_type b)) msgs ->
  ses_in s pre (msgs ≫= body_frame) -> os_pos (ses_reados s) = len pre ->
  len (msgs ≫= body_frame) <= octets_free_space (os_data (ses_reados s)) ->
  exists s' ps inb', session_on_recv reg now s = (s', Ok ps) /\
    Forall2 (fun p b => prot_body p ≡ b) ps msgs /\ ses_in s' inb' [] /\
    unread s' inb' [] = [] /\ ses_state s' = SESSION_STATE_RECVING.
Proof.
  intros Hreg Hms Hin Hp Hfit.
  destruct (on_recv_unfold reg now s pre _ Hin) as (s1 & inb1 & buf1 & Hin1 & Hp1 & _ & _ & Hst & Hall & _ & _ & ->).
  destruct (Hall Hfit) as [-> ->]. rewrite Hp in Hp1. pose proof Hin1 as [Ho1 _].
  destruct (recv_protocols_frames reg (S (Z.to_nat (os_size (ses_reados s1)))) s1 pre msgs [] Hreg Hms
    Hin1 Hp1) as (s2 & ps & E2 & Hps & [Ho2 Hb2] & Hp2 & Hst2).
  { rewrite (os_size_repr _ _ Ho1), len_app. pose proof (len_nonneg pre).
    pose proof (frames_length msgs). assert (Forall (fun b => body_wf b) msgs) as Hw
      by (eapply Forall_impl; [exact Hms|]; by intros b [? _]). specialize (H1 Hw). lia. }
  rewrite (M_bind_ok _ _ _ _ _ E2).
  destruct (try_shrink_ok (ses_reados s2) _ Ho2) as (os & inb2 & E3 & Ho3 & Hdrop).
  exists (ses_with_read os (ses_readbuf s2) s2), ps, inb2.
  split; [|split; [done|split; [by split|split; [|simpl; congruence]]]].
  - rewrite (M_bind_ok _ _ s2 (ses_with_read os (ses_readbuf s2) s2) tt); [done|].
    unfold on_reados. by rewrite E3.
  - unfold unread. cbn [ses_reados ses_with_read]. rewrite Hdrop, Hp2. unfold len.
    by rewrite Nat2Z.id, drop_all.
Qed.

Definition two_texts : list TextMsg := [[x61]; [x62; x63]].
(** An empty stream with room for 32 bytes, and the two frames in the read
    buffer. *)
Definition arrived_session : session :=
  io_session (mk_os (mk_octets (replicate 32 None) 0 32) 0 0)
    (full_octets (two_texts ≫= body_frame)) SESSION_STATE_ACTIVE os_null octets_null.
Lemma arrived_in : ses_in arrived_session [] (two_texts ≫= body_frame).
Proof.
  split; [|apply full_repr; vm_compute; discriminate].
  split; [|done]. apply repr_intro; [|done]. split; [done|done|vm_compute; discriminate].
Defined.

Lemma on_recv_delivers_witness :
  exists s' ps inb', session_on_recv text_reg 3 arrived_session = (s', Ok ps) /\
    Forall2 (fun p b => prot_body p ≡ b) ps two_texts /\ ses_in s' inb' [] /\
    unread s' inb' [] = [] /\ ses_state s' = SESSION_STATE_RECVING.
Proof.
  apply (on_recv_delivers text_reg 3 arrived_session [] two_texts text_reg_ok).
  - repeat constructor; vm_compute; try discriminate; eauto.
  - exact arrived_in.
  - reflexivity.
  - vm_compute. discriminate.
Defined.

(** Sending is a first-in-first-out stream: whatever the kernel's answers,
    [handle_write] returns, the bytes it gave the kernel followed by those
    still to be sent are the same stream as before, and the connection is
    between calls again. *)
Theorem handle_write_conserves now rs c buf queued :
  conn_ok c buf queued -> idle_offset c buf -> rooms_positive rs ->
  exists c' t buf' queued', handle_write now rs c = (c', Ok t) /\
    conn_ok c' buf' queued' /\ idle_offset c' buf' /\
    conn_stream c' buf' queued' = conn_stream c buf queued.
Proof.
  intros Hok Hi Hr. destruct (handle_write_ok now rs c buf queued Hok Hi Hr)
    as (c' & t & b & q & ? & ? & ? & ? & _). by exists c', t, b, q.
Qed.

Definition sending_conn (st : SESSION_STATE) (wbuf queued : list byte) : conn :=
  mk_conn (io_session os_null octets_null st (mk_os (full_octets queued) 0 0) (full_octets wbuf))
    (mk_event (io_event 5) EVENT_STATUS_ADD (Z.lor EVENT_RECV EVENT_SEND) true) false [].
Lemma sending_conn_ok st wbuf queued : len wbuf <= 100 -> len queued <= 100 ->
  conn_ok (sending_conn st wbuf queued) wbuf queued.
Proof.
  intros Hw Hq. split; [|done]. pose proof (len_nonneg wbuf).
  split; [apply full_repr|apply full_os_repr|simpl]; unfold MAX_OCTETS; lia.
Qed.

Lemma handle_write_conserves_witness :
  exists c' t buf' queued', handle_write 3 [SendLen 2; SendEINTR; SendLen 2; SendEAGAIN]
      (sending_conn SESSION_STATE_ACTIVE [x61; x62; x63] [x64; x65]) = (c', Ok t) /\
    conn_ok c' buf' queued' /\ idle_offset c' buf' /\
    conn_stream c' buf' queued' = [x61; x62; x63; x64; x65].
Proof.
  refine (handle_write_conserves 3 [SendLen 2; SendEINTR; SendLen 2; SendEAGAIN]
    (sending_conn SESSION_STATE_ACTIVE [x61; x62; x63] [x64; x65]) [x61; x62; x63] [x64; x65]
    (sending_conn_ok _ _ _ _ _) _ _); try (vm_compute; discriminate).
  - left. reflexivity.
  - repeat constructor; lia.
Defined.

(** Closing with output pending goes wrong twice.  A session that is
    closing and still has output is not closed by the event that sends it:
    [on_send] overwrites the closing state, so the session is alive and open
    afterwards.  And [handle_close] looks at the wrong buffer: with
    everything pending in the write buffer and nothing sent, it deletes the
    event at once. *)
Theorem closing_with_output {B} `{ProtocolBody B} (reg : stubs B) now rs c buf queued :
  conn_ok c buf queued -> idle_offset c buf -> rooms_positive rs ->
  session_is_close (c_ses c) = true -> buf <> [] ->
  (no_send_error rs -> exists c' , io_handle_event reg EVENT_SEND now [] rs c = (c', Ok []) /\
     session_is_close (c_ses c') = false /\ ev_status (c_ev c') = ev_status (c_ev c)) /\
  (ses_write_offset (c_ses c) = 0 -> queued = [] -> exists c', handle_close c = (c', Ok tt) /\
     ev_status (c_ev c') = EVENT_STATUS_DEL /\ conn_stream c' buf queued = c_sent c ++ buf).
Proof.
  intros Hok Hi Hr Hcl Hne. split.
  - intros Herr. destruct (handle_write_ok now rs c buf queued Hok Hi Hr)
      as (c' & t & b & q & E & _ & _ & _ & Hst & Hsend).
    exists c'. assert (Hnc : session_is_close (c_ses c') = false).
    { unfold session_is_close. rewrite Hsend by auto. done. }
    split; [|auto]. unfold io_handle_event. change (has EVENT_SEND EVENT_RECV) with false.
    change (has EVENT_SEND EVENT_SEND) with true. cbv iota.
    rewrite (M_bind_ok _ _ c c []) by done.
    rewrite (M_bind_ok _ _ c c' tt); [|by rewrite (M_bind_ok _ _ _ _ _ E)].
    rewrite (M_bind_ok _ _ c' c' tt); [done|]. unfold handle_close. by rewrite M_get, Hnc.
  - intros Hoff ->. destruct Hok as [[Hb [Hq _] Ho] Hbase].
    unfold handle_close. rewrite M_get, Hcl. unfold session_is_writeos_empty, os_size.
    rewrite (size_repr _ _ Hq), Hoff. change (0 =? len (@nil byte)) with true. cbn [negb].
    unfold conn_del_event. mrun. rewrite Hbase. eexists. split; [done|]. split; [done|].
    unfold conn_stream, pending. cbn [c_ses c_sent]. rewrite Hoff. by rewrite app_nil_r.
Qed.

Lemma closing_with_output_witness :
  session_is_close (c_ses (sending_conn SESSION_STATE_CLOSING [x61] [])) = true /\
  (exists c', io_handle_event text_reg EVENT_SEND 3 [] [SendLen 1]
     (sending_conn SESSION_STATE_CLOSING [x61] []) = (c', Ok []) /\
     session_is_close (c_ses c') = false /\ ev_status (c_ev c') = EVENT_STATUS_ADD) /\
  (exists c', handle_close (sending_conn SESSION_STATE_CLOSING [x61] []) = (c', Ok tt) /\
     ev_status (c_ev c') = EVENT_STATUS_DEL /\ conn_stream c' [x61] [] = [x61]).
Proof.
  split; [reflexivity|].
  destruct (closing_with_output text_reg 3 [SendLen 1] (sending_conn SESSION_STATE_CLOSING [x61] [])
    [x61] []) as [H1 H2].
  - apply sending_conn_ok; vm_compute; discriminate.
  - left. reflexivity.
  - repeat constructor; lia.
  - reflexivity.
  - discriminate.
  - split; [apply H1; repeat constructor; discriminate|by apply H2].
Defined.

(** [send_octets] is all or nothing: for a live session that is not
    closing, either the whole buffer is appended to the session's queue,
    whose capacity does not grow, and sending is permitted, or the session is
    unchanged, and then the buffer did not fit; the manager's table is
    unchanged either way. *)
Theorem send_octets_atomic sid p s d oct buf queued (m : session_manager) :
  find_session sid m = Some p -> sm_heap m !! p = Some s -> session_is_close s = false ->
  ses_out s buf queued -> octets_repr oct d ->
  exists s' ok, send_octets sid oct m = (sm_with_heap (<[p := s']> (sm_heap m)) m, Ok ok) /\
    if ok : bool then ses_out s' buf (queued ++ d) /\
      o_cap (os_data (ses_writeos s')) = o_cap (os_data (ses_writeos s))
    else s' = s /\ o_cap (os_data (ses_writeos s)) < len queued + len d.
Proof.
  intros Hf Hp Hc Ho Hd. destruct (repr_split _ _ Hd) as (tl & Hb & _).
  destruct (queue_octets_ok (o_buf oct) d tl s buf queued Ho Hb) as (s' & ok & E & Hr & _).
  exists s', ok. split; [|done]. unfold send_octets. rewrite M_get, Hf.
  rewrite (M_bind_ok _ _ m m s) by (unfold sm_deref; by rewrite Hp).
  rewrite Hc, (size_repr _ _ Hd). rewrite (M_bind_ok _ _ m m (s', ok)); [done|].
  unfold lift. by rewrite E.
Qed.

Definition demo_manager : session_manager :=
  mk_manager 0 [] 0 42 {[ 42 := 1000 ]}
    {[ 1000 := io_session os_null octets_null SESSION_STATE_ACTIVE
                 (mk_os (mk_octets [Some x61; None; None] 1 3) 0 0) octets_null ]}.

Lemma send_octets_atomic_witness :
  exists s' ok, send_octets 42 (full_octets [x62; x63]) demo_manager
    = (sm_with_heap (<[1000 := s']> (sm_heap demo_manager)) demo_manager, Ok ok) /\
    if ok : bool then ses_out s' [] [x61; x62; x63] /\ o_cap (os_data (ses_writeos s')) = 3
    else s' = io_session os_null octets_null SESSION_STATE_ACTIVE
                (mk_os (mk_octets [Some x61; None; None] 1 3) 0 0) octets_null /\ 3 < 1 + 2.
Proof.
  apply (send_octets_atomic 42 1000 _ [x62; x63] (full_octets [x62; x63]) [] [x61] demo_manager
    eq_refl eq_refl eq_refl).
  - split; [apply null_repr| |done]. split; [|done]. apply repr_intro; [|done].
    split; [done|done|vm_compute; discriminate].
  - apply full_repr. vm_compute. discriminate.
Defined.

(** The destructor of the manager can only delete sessions without an event: with
    a connection that lives it is undefined. *)
Lemma delete_sessions_eventless l m m' :
  delete_sessions l m = (m', Ok tt) ->
  forall p s, p ∈ l -> sm_heap m !! p = Some s -> ses_event s = false.
Proof.
  revert m. induction l as [|q l IH]; intros m H p s Hin Hp; [by apply not_elem_of_nil in Hin|].
  cbn [delete_sessions] in H. apply M_bind_inv in H as (m1 & [] & H1 & H).
  apply M_bind_inv in H1 as (m2 & s2 & Hs & H1).
  assert (m2 = m /\ sm_heap m !! q = Some s2) as [-> Hq].
  { unfold sm_deref in Hs. destruct (sm_heap m !! q); [|done]. by injection Hs as <- <-. }
  destruct (ses_event s2) eqn:Ee; [done|]. unfold modify in H1. injection H1 as <-.
  destruct (decide (p = q)) as [->|Hne]; [congruence|].
  apply (IH _ H p s); [|cbn; by rewrite lookup_delete_ne]. apply elem_of_cons in Hin as [?|?]; done.
Qed.
Lemma manager_dtor_undefined m m' sid p s :
  sm_sessions m !! sid = Some p -> sm_heap m !! p = Some s -> ses_event s = true -> manager_dtor m <> (m', Ok tt).
Proof.
  intros Hsid Hp He. unfold manager_dtor. rewrite M_get. intros (m1 & [] & Hd & _)%M_bind_inv.
  pose proof (delete_sessions_eventless _ _ _ Hd p s) as H. rewrite He in H.
  discriminate H; [|done]. apply list_elem_of_fmap. exists (sid, p). split; [done|]. by apply elem_of_map_to_list.
Qed.
