(* ===== verification/Connect.v ===== *)
(** The other events of io/ioevent.cpp and those of io/sslio_event.cpp: the
    standard streams, listening, connecting, and the encrypted stream.  What the
    kernel and OpenSSL answer are lists of results; a call that waits for an
    answer behind their end has not returned ([None]). *)

From S2P Require Import Prelude Octets Varint Marshal Session Protocol DoubleBuffer Reactor Network.

(** ** The standard streams *)

Record stdio_event := mk_stdio { se_fd : Z; se_buffer : octets; se_events : Z }.
Definition se_with_buffer (o : octets) (e : stdio_event) : stdio_event := mk_stdio (se_fd e) o (se_events e).

Definition stdio_new (fd buffer_size events : Z) : outcome stdio_event :=
  o ← octets_default; o ← octets_reserve o buffer_size; Ok (mk_stdio fd o events).
Definition stdin_new (buffer_size : Z) : outcome stdio_event := stdio_new 0 buffer_size EVENT_RECV.
Definition stdout_new (buffer_size : Z) : outcome stdio_event := stdio_new 1 buffer_size EVENT_SEND.
Definition stderr_new (buffer_size : Z) : outcome stdio_event := stdio_new 2 buffer_size EVENT_RECV.

Inductive read_result := ReadData (bs : list byte) | ReadEOF | ReadAgain | ReadError.

(** The result is an [int]: [false] and [true] are 0 and 1. *)
Fixpoint stdin_read_loop (rs : list read_result) (total_read : Z) : M stdio_event Z :=
  e ← get;
  if octets_free_space (se_buffer e) =? 0 then mret (s32 total_read)
  else
    match rs with
    | ReadData bs :: rs =>
        o ← lift (recv_store bs (se_buffer e));
        put (se_with_buffer o e);;
        stdin_read_loop rs (u64 (total_read + len bs))
    | ReadEOF :: _ => mret 0
    | ReadError :: _ => mret 0
    | [] | ReadAgain :: _ => mret 1
    end.
Definition stdin_handle_read (rs : list read_result) : M stdio_event Z := stdin_read_loop rs 0.
Definition stderr_handle_read (rs : list read_result) : M stdio_event Z := stdin_read_loop rs 0.

Inductive write_result := WriteLen (room : Z) | WriteZero | WriteAgain | WriteError.

(** [write] is given the memory behind the content: what it takes are the cells
    it finds there.  The result comes with them. *)
Fixpoint stdout_write_loop (rs : list write_result) (total_write : Z) (out : list cell) : M stdio_event (Z * list cell) :=
  e ← get;
  let free_size := octets_free_space (se_buffer e) in
  if free_size =? 0 then mret (s32 total_write, out)
  else
    match rs with
    | WriteLen room :: rs =>
        let n := Z.min room free_size in
        d ← lift (mem_read (o_buf (se_buffer e)) (o_len (se_buffer e)) n);
        stdout_write_loop rs (u64 (total_write + n)) (out ++ d)
    | WriteZero :: _ => mret (0, out)
    | WriteError :: _ => mret (0, out)
    | [] | WriteAgain :: _ => mret (1, out)
    end.
Definition stdout_handle_write (rs : list write_result) : M stdio_event (Z * list cell) := stdout_write_loop rs 0 [].

(** The virtual functions of the class that is derived: [on_read], [on_write]
    and [on_error], each called with a [size_t]. *)
Definition stdio_handle_event (on_read on_write on_error : Z -> bool) (active : Z)
    (handle_read : M stdio_event Z) (handle_write : M stdio_event Z) : M stdio_event bool :=
  if has active EVENT_RECV then n ← handle_read; let n := u64 n in mret (on_read n || on_error n)
  else if has active EVENT_SEND then n ← handle_write; mret (on_write (u64 n))
  else mret false.

(** ** Listening *)

(** The calls of the constructor in their order: whether [socket], [setsockopt],
    [bind] and [listen] succeed, and the descriptor. *)
Record listen_calls := mk_listen { ls_fd : Z; ls_setsockopt : bool; ls_bind : bool; ls_listen : bool }.
Inductive passive_result :=
  | PassiveExit                                (* exit(EXIT_FAILURE) *)
  | PassiveEvent (fd : Z) (closed : list Z).   (* [_fd], and the descriptors closed *)
Definition passive_new (stream : bool) (k : listen_calls) : passive_result :=
  if negb stream then PassiveEvent (-1) []
  else if negb (ls_setsockopt k) then PassiveExit
  else if negb (ls_bind k) then PassiveEvent (-1) [ls_fd k]
  else if negb (ls_listen k) then PassiveEvent (-1) [ls_fd k]
  else PassiveEvent (ls_fd k) [].

Definition ssl_passive_new : bool -> listen_calls -> passive_result := passive_new.

(** The constructor of the stream event: a session that is told of its event,
    then the options; what fails closes the session, which has no base yet. *)
Record stream_calls := mk_stream { st_getsockname : bool; st_keepalive : bool; st_nodelay : bool }.
Definition netio_new (fd : Z) (ses : session) : conn :=
  mk_conn (ses_with_event true ses) (mk_event (io_event fd) EVENT_STATUS_NONE EVENT_NONE false) false [].
Definition stream_new (fd : Z) (ses : session) (k : stream_calls) : conn :=
  let c := netio_new fd ses in
  if st_getsockname k && st_keepalive k && st_nodelay k
  then mk_conn (ses_with_state SESSION_STATE_ACTIVE (c_ses c)) (c_ev c) (c_changed c) (c_sent c)   (* and [add_session] *)
  else (close_socket SESSION_CLOSE_REASON_ERROR c).1.

Definition c_set_events (n : Z) (c : conn) : conn := mk_conn (c_ses c) (ev_set_events n (c_ev c)) (c_changed c) (c_sent c).
Definition c_set_status (st : EVENT_STATUS) (c : conn) : conn :=
  mk_conn (c_ses c) (ev_set_status st (c_ev c)) (c_changed c) (c_sent c).
(** [_base->add_event]. *)
Definition c_add_event (c : conn) : conn := mk_conn (c_ses c) (ev_set_base true (c_ev c)) true (c_sent c).

Inductive accept_result := Accepted (fd : Z) (nonblocking : bool) | AcceptRetry | AcceptError.

(** One connection is accepted per call. *)
Definition passive_handle_event (base : bool) (active : Z) (r : accept_result) (ses : session) (sid : Z) (k : stream_calls) :
    bool * option conn :=
  if negb base then (false, None)
  else if negb (active =? EVENT_ACCEPT) then (false, None)
  else
    match r with
    | AcceptRetry => (true, None)
    | AcceptError => (false, None)
    | Accepted fd false => (false, None)       (* [set_nonblocking] failed: closed again *)
    | Accepted fd true =>
        (true, Some (c_add_event (c_set_events (Z.lor EVENT_RECV EVENT_SEND) (stream_new fd (session_dup sid ses) k))))
    end.

(** ** Connecting *)

(** An event whose session and descriptor can be given away. *)
Record active_event := mk_active { ae_fd : Z; ae_ses : option session; ae_ev : event; ae_changed : bool }.

Inductive connect_result := ConnectOk | ConnectEINTR | ConnectEINPROGRESS | ConnectErr.

(** [fd] is what [socket] gives, negative when it fails. *)
Definition active_new (fd : Z) (ses : session) : active_event :=
  mk_active fd (Some (ses_with_event true ses)) (mk_event (io_event fd) EVENT_STATUS_NONE EVENT_SEND false) false.
Definition ssl_active_new : Z -> session -> active_event := active_new.

(** The loop: [Some true] when [connect] succeeds, [Some false] when it fails
    with another error. *)
Fixpoint connect_loop (rs : list connect_result) : option bool :=
  match rs with
  | [] => None
  | ConnectOk :: _ => Some true
  | ConnectEINTR :: rs => connect_loop rs
  | ConnectEINPROGRESS :: rs => connect_loop rs
  | ConnectErr :: _ => Some false
  end.

Definition active_close (reason : SESSION_CLOSE_REASON) (a : active_event) : active_event :=
  mk_active (ae_fd a) (session_set_close reason <$> ae_ses a)
    (if ev_base (ae_ev a) then ev_set_status EVENT_STATUS_DEL (ae_ev a) else ae_ev a)
    (ae_changed a || ev_base (ae_ev a)).

(** [sockerr] is what [getsockopt(SO_ERROR)] gives, [None] when it fails; [new]
    makes the event that takes the session over. *)
Definition active_handle_event {C} (new : Z -> session -> C) (rs : list connect_result) (sockerr : option Z) (a : active_event) :
    option (bool * active_event * option C) :=
  if negb (ev_base (ae_ev a)) then Some (false, a, None)
  else
    match ae_ses a, connect_loop rs with
    | _, None => None
    | Some ses, Some true =>
        match sockerr with
        | Some 0 => Some (true, mk_active (-1) None (ae_ev a) (ae_changed a), Some (new (ae_fd a) ses))
        | _ => Some (false, active_close SESSION_CLOSE_REASON_ERROR a, None)
        end
    | _, Some _ => Some (false, active_close SESSION_CLOSE_REASON_ERROR a, None)
    end.

Definition connected_events : Z := Z.lor (Z.lor EVENT_RECV EVENT_SEND) EVENT_HUP.
Definition activeio_handle_event (k : stream_calls) : list connect_result -> option Z -> active_event -> option (bool * active_event * option conn) :=
  active_handle_event (fun fd ses => c_add_event (c_set_status EVENT_STATUS_ADD (c_set_events connected_events (stream_new fd ses k)))).

(** The destructor: the descriptor, and whether the session is closed and
    deleted. *)
Definition netio_dtor (fd : Z) (ses : option session) : list Z * bool :=
  (if 0 <=? fd then [fd] else [], match ses with Some _ => true | None => false end).

(** ** The encrypted stream *)

Record sslio_event := mk_ssl {
  sl_conn : conn;
  sl_ssl : bool;                 (* whether [_ssl] is set *)
  sl_is_server : bool;
  sl_handshake_done : bool;
  sl_handshake_starttime : Z;
}.
Definition sl_with_conn (c : conn) (e : sslio_event) : sslio_event :=
  mk_ssl c (sl_ssl e) (sl_is_server e) (sl_handshake_done e) (sl_handshake_starttime e).

Abbreviation SSL := (M sslio_event).
Definition on_conn {A} (f : M conn A) : SSL A := fun e => let '(c, r) := f (sl_conn e) in (sl_with_conn c e, r).

(** The constructor neither sets the socket's options nor opens the session. *)
Definition sslio_new (fd : Z) (is_server : bool) (now : Z) (ses : session) : sslio_event :=
  mk_ssl (netio_new fd ses) true is_server false now.

Definition ssl_passive_handle_event (base : bool) (active now : Z) (r : accept_result) (ses : session) (sid : Z) : bool * option sslio_event :=
  if negb base then (false, None)
  else if negb (active =? EVENT_ACCEPT) then (false, None)
  else
    match r with
    | AcceptRetry => (true, None)
    | AcceptError => (false, None)
    | Accepted fd false => (false, None)
    | Accepted fd true =>
        let e := sslio_new fd true now (session_dup sid ses) in
        (true, Some (sl_with_conn (c_add_event (c_set_events (Z.lor EVENT_RECV EVENT_SEND) (sl_conn e))) e))
    end.
Definition ssl_active_handle_event (now : Z) : list connect_result -> option Z -> active_event -> option (bool * active_event * option sslio_event) :=
  active_handle_event (fun fd ses => let e := sslio_new fd false now ses in
    sl_with_conn (c_add_event (c_set_status EVENT_STATUS_ADD (c_set_events connected_events (sl_conn e)))) e).

Definition cleanup_ssl : SSL unit :=
  modify (fun e => mk_ssl (sl_conn e) false (sl_is_server e) (sl_handshake_done e) (sl_handshake_starttime e)).
(** The destructor: whether the SSL was freed by it, then the base class. *)
Definition sslio_dtor (fd : Z) (e : sslio_event) : bool * (list Z * bool) := (sl_ssl e, netio_dtor fd (Some (c_ses (sl_conn e)))).
Definition ssl_close (reason : SESSION_CLOSE_REASON) : SSL unit := on_conn (close_socket reason).

(** Every function of OpenSSL is given [_ssl]. *)
Definition ssl_call : SSL unit := e ← get; if sl_ssl e then mret tt else fail (UB "SSL function on a null pointer").

Inductive handshake_result := HandshakeDone | HandshakeWantRead | HandshakeWantWrite | HandshakeError.
Definition handle_handshake (now : Z) (r : handshake_result) : SSL bool :=
  e ← get;
  if now - sl_handshake_starttime e >? 30 then
    cleanup_ssl;; ssl_close SESSION_CLOSE_REASON_TIMEOUT;; mret false
  else
    ssl_call;;
    match r with
    | HandshakeDone =>
        modify (fun e => mk_ssl (sl_conn e) (sl_ssl e) (sl_is_server e) true (sl_handshake_starttime e));; mret true
    | HandshakeWantRead => on_conn session_permit_recv;; mret true
    | HandshakeWantWrite => on_conn session_permit_send;; mret true
    | HandshakeError => cleanup_ssl;; ssl_close SESSION_CLOSE_REASON_ERROR;; mret false
    end.

(** [SslWant]: [SSL_ERROR_WANT_READ] or [SSL_ERROR_WANT_WRITE]. *)
Inductive ssl_read_result := SslData (bs : list byte) | SslWant | SslZeroReturn | SslReadError.
Inductive ssl_write_result := SslTaken (room : Z) | SslWriteWant | SslWriteError.

Section Ssl.
Context {B : Type} `{!ProtocolBody B} (reg : stubs B).

(** The loop of [handle_read]; [None] while it waits. *)
Fixpoint ssl_recv_all (rs : list ssl_read_result) (total : Z) : SSL (option Z) :=
  e ← get;
  let rbuffer := ses_readbuf (c_ses (sl_conn e)) in
  if octets_free_space rbuffer =? 0 then mret (Some total)
  else
    ssl_call;;
    match rs with
    | [] => mret None
    | SslData bs :: rs =>
        o ← lift (recv_store bs rbuffer);
        on_conn (on_ses (modify (fun s => ses_with_read (ses_reados s) o s)));;
        ssl_recv_all rs (s32 (total + len bs))
    | SslWant :: rs => ssl_recv_all rs total
    | SslZeroReturn :: _ => cleanup_ssl;; ssl_close SESSION_CLOSE_REASON_REMOTE;; mret (Some total)
    | SslReadError :: _ => cleanup_ssl;; ssl_close SESSION_CLOSE_REASON_ERROR;; mret (Some total)
    end.

Definition ssl_handle_read (now : Z) (rs : list ssl_read_result) : SSL (option (Z * list (protocol B))) :=
  e ← get;
  ps ← (if octets_free_space (ses_readbuf (c_ses (sl_conn e))) =? 0
        then on_conn (on_ses (session_on_recv reg now)) else mret []);
  total ← ssl_recv_all rs 0;
  match total with
  | None => mret None
  | Some total => ps' ← on_conn (on_ses (session_on_recv reg now)); mret (Some (total, ps ++ ps'))
  end.

(** The loop of [handle_write]. *)
Fixpoint ssl_send_all (rs : list ssl_write_result) (total : Z) : SSL (option Z) :=
  ssl_call;;
  match rs with
  | [] => mret None
  | SslWriteWant :: rs => ssl_send_all rs total
  | SslWriteError :: _ => cleanup_ssl;; ssl_close SESSION_CLOSE_REASON_ERROR;; mret (Some total)
  | SslTaken room :: rs =>
      e ← get;
      let s := c_ses (sl_conn e) in
      let n := Z.min room (u64 (octets_size (ses_writebuf s) - ses_write_offset s)) in
      on_conn (send_take n);;
      e ← get;
      let s := c_ses (sl_conn e) in
      if ses_write_offset s =? octets_size (ses_writebuf s) then
        on_conn (on_ses (modify (fun s => session_wbuffer (session_clear_wbuffer s))));;
        e ← get;
        let s := c_ses (sl_conn e) in
        if octets_size (ses_writebuf s) =? ses_write_offset s
        then on_conn session_forbid_send;; mret (Some (s32 (total + n)))
        else ssl_send_all rs (s32 (total + n))
      else ssl_send_all rs (s32 (total + n))
  end.

Definition ssl_handle_write (now : Z) (rs : list ssl_write_result) : SSL (option Z) :=
  on_conn (on_ses (modify session_wbuffer));;
  e ← get;
  if octets_size (ses_writebuf (c_ses (sl_conn e))) =? 0 then on_conn session_forbid_send;; mret (Some 0)
  else
    total ← ssl_send_all rs 0;
    match total with
    | None => mret None
    | Some total => on_conn (on_ses (modify (session_on_send now)));; mret (Some total)
    end.

(** [None]: the thread of the reactor has not come back. *)
Definition sslio_handle_event (active now : Z) (hs : handshake_result) (recvs : list ssl_read_result) (sends : list ssl_write_result) :
    SSL (option (bool * list (protocol B))) :=
  e ← get;
  if negb (sl_handshake_done e) then ok ← handle_handshake now hs; mret (Some (ok, []))
  else
    r ← (if has active EVENT_RECV then ssl_handle_read now recvs else mret (Some (0, [])));
    match r with
    | None => mret None
    | Some (_, ps) =>
        w ← (if has active EVENT_SEND then ssl_handle_write now sends else mret (Some 0));
        match w with
        | None => mret None
        | Some _ => on_conn handle_close;; mret (Some (true, ps))
        end
    end.
End Ssl.

(** ** Storing what was received *)

Lemma blit_tail {A} (a tl src : list A) : blit (a ++ tl) (len a) src = a ++ src ++ drop (length src) tl.
Proof.
  unfold blit, len. rewrite Nat2Z.id, take_app_length. f_equal. f_equal.
  rewrite drop_app_ge by lia. f_equal. lia.
Qed.

Lemma free_space_repr o bs : octets_repr o bs -> octets_free_space o = o_cap o - len bs /\ 0 <= o_cap o - len bs.
Proof.
  intros Hr. pose proof (repr_len _ _ Hr) as Hl. destruct Hr as [Hw _]. unfold octets_free_space. rewrite Hl.
  split; [|octets_lia]. apply wrapU_small. octets_lia.
Qed.

Lemma recv_store_ok o bs0 bs :
  octets_repr o bs0 -> len bs <= octets_free_space o ->
  exists o', recv_store bs o = Ok o' /\ octets_repr o' (bs0 ++ bs) /\ o_cap o' = o_cap o.
Proof.
  intros Hr Hf. destruct (free_space_repr _ _ Hr) as [Ef _]. rewrite Ef in Hf.
  pose proof (repr_len _ _ Hr) as Hl. destruct (repr_split _ _ Hr) as (tl & Eb & Etl).
  destruct Hr as [Hw _]. unfold recv_store.
  rewrite mem_write_ok by (rewrite ?len_fmap, ?Eb, ?len_app, ?len_fmap; destruct Hw; pose proof (len_nonneg bs); lia).
  cbn [mbind outcome_bind]. eexists. split; [reflexivity|]. unfold octets_fast_resize. cbn [o_buf o_len o_cap].
  rewrite Eb, Hl. replace (len bs0) with (len (Some <$> bs0)) at 1 by (by rewrite len_fmap). rewrite blit_tail, app_assoc, <- fmap_app.
  split; [|done]. pose proof (len_nonneg bs0). pose proof (len_nonneg bs). rewrite wrapU_small by octets_lia.
  apply repr_join; [by rewrite len_app| |by destruct Hw].
  rewrite length_fmap. unfold len in *. rewrite length_drop. lia.
Qed.

(** ** The standard streams *)

(** However much was read, the result is 1 when there is no more for now. *)
Lemma stdin_reports_one e bs0 bs :
  octets_repr (se_buffer e) bs0 -> 0 < len bs < octets_free_space (se_buffer e) ->
  exists e', stdin_handle_read [ReadData bs; ReadAgain] e = (e', Ok 1) /\ octets_repr (se_buffer e') (bs0 ++ bs).
Proof.
  intros Hr Hb. unfold stdin_handle_read. cbn [stdin_read_loop]. rewrite M_get.
  rewrite (proj2 (Z.eqb_neq _ _)) by lia. destruct (recv_store_ok _ _ bs Hr) as (o & E & Ho & Hcap); [lia|].
  rewrite (M_bind_ok _ _ e e o) by (unfold lift; by rewrite E).
  rewrite (M_bind_ok _ _ e (se_with_buffer o e) tt) by done. rewrite M_get. cbn [se_buffer se_with_buffer].
  destruct (free_space_repr _ _ Ho) as [Ef _]. destruct (free_space_repr _ _ Hr) as [Ef0 _].
  rewrite (proj2 (Z.eqb_neq _ _)) by (rewrite Ef, Hcap, len_app; lia). by eexists.
Qed.

(** What goes to the standard output is never the content of the buffer, but
    what lies behind it; the buffer stays as it is. *)
Lemma stdout_writes_tail rs total out e :
  Forall (fun r => match r with WriteLen n => 0 < n | _ => True end) rs -> octets_wf (se_buffer e) ->
  exists ns z, stdout_write_loop rs total out e =
    (e, Ok (z, out ++ concat ((fun n => slice (o_buf (se_buffer e)) (o_len (se_buffer e)) n) <$> ns))).
Proof.
  intros Hrs Hw. revert total out. induction Hrs as [|r rs Hr _ IH]; intros total out; cbn [stdout_write_loop]; rewrite M_get.
  all: destruct (octets_free_space (se_buffer e) =? 0); [eexists [], _; by rewrite app_nil_r|].
  { eexists [], _. by rewrite app_nil_r. }
  destruct r as [room| | |]; try (eexists [], _; by rewrite app_nil_r).
  set (n := Z.min room (octets_free_space (se_buffer e))).
  assert (0 <= n /\ o_len (se_buffer e) + n <= len (o_buf (se_buffer e)) /\ 0 <= o_len (se_buffer e)) as (Hn & Hin & Hl).
  { unfold n, octets_free_space. destruct Hw. rewrite wrapU_small by octets_lia. lia. }
  rewrite (M_bind_ok _ _ e e (slice (o_buf (se_buffer e)) (o_len (se_buffer e)) n)) by (unfold lift; by rewrite mem_read_ok).
  destruct (IH (u64 (total + n)) (out ++ slice (o_buf (se_buffer e)) (o_len (se_buffer e)) n)) as (ns & z & E).
  exists (n :: ns), z. rewrite E, fmap_cons, concat_cons. by rewrite app_assoc.
Qed.

(** ** Connecting *)

(** A connection that is still being made when [connect] is asked again is an
    error: the session is closed. *)
Lemma connect_in_progress {C} (new : Z -> session -> C) sockerr a ses rs :
  ev_base (ae_ev a) = true -> ae_ses a = Some ses ->
  active_handle_event new (ConnectEINPROGRESS :: ConnectErr :: rs) sockerr a =
    Some (false, active_close SESSION_CLOSE_REASON_ERROR a, None).
Proof. intros Hb Hs. unfold active_handle_event. by rewrite Hb, Hs. Qed.

(** The session has one owner: the event keeps it, or a new event has it. *)
Lemma active_one_owner {C} (new : Z -> session -> C) rs sockerr a ok a' c :
  active_handle_event new rs sockerr a = Some (ok, a', c) ->
  match c with
  | Some x => ok = true /\ ae_fd a' = -1 /\ ae_ses a' = None /\ exists ses, ae_ses a = Some ses /\ x = new (ae_fd a) ses
  | None => ok = false /\ ae_fd a' = ae_fd a /\ (is_Some (ae_ses a') <-> is_Some (ae_ses a))
  end.
Proof.
  unfold active_handle_event. destruct (ev_base (ae_ev a)); cbn [negb]; [|by intros [= <- <- <-]].
  destruct (ae_ses a) as [ses|] eqn:Es; destruct (connect_loop rs) as [[|]|]; try done.
  - destruct sockerr as [[| |]|]; intros [= <- <- <-]; cbn; rewrite ?Es; try done; try (rewrite fmap_is_Some; done).
    split; [done|]. split; [done|]. split; [done|]. by exists ses.
  - intros [= <- <- <-]. cbn. rewrite Es, fmap_is_Some. done.
  - intros [= <- <- <-]. cbn. by rewrite Es.
  - intros [= <- <- <-]. cbn. by rewrite Es.
Qed.

(** ** The encrypted stream *)

(** The constructor leaves the session in the state it had: nothing enters it in
    the manager's table. *)
Lemma ssl_session_not_opened fd srv now ses : ses_state (c_ses (sl_conn (sslio_new fd srv now ses))) = ses_state ses.
Proof. done. Qed.

Definition ssl_rbuffer (e : sslio_event) : octets := ses_readbuf (c_ses (sl_conn e)).

(** Data and waiting only. *)
Fixpoint ssl_quiet (rs : list ssl_read_result) : option (list byte) :=
  match rs with
  | [] => Some []
  | SslData bs :: rs => app bs <$> ssl_quiet rs
  | SslWant :: rs => ssl_quiet rs
  | _ => None
  end.

Lemma ssl_recv_waits rs bs total e bs0 :
  sl_ssl e = true -> ssl_quiet rs = Some bs -> octets_repr (ssl_rbuffer e) bs0 -> len bs < octets_free_space (ssl_rbuffer e) ->
  exists e', ssl_recv_all rs total e = (e', Ok None) /\ sl_ssl e' = true /\ octets_repr (ssl_rbuffer e') (bs0 ++ bs).
Proof.
  revert bs total e bs0. induction rs as [|r rs IH]; intros bs total e bs0 Hssl Hq Hr Hf; cbn [ssl_recv_all]; rewrite M_get;
    pose proof (len_nonneg bs); change (ses_readbuf (c_ses (sl_conn e))) with (ssl_rbuffer e);
    rewrite (proj2 (Z.eqb_neq _ _)) by lia; rewrite (M_bind_ok _ _ e e tt) by (unfold ssl_call; by rewrite M_get, Hssl).
  { injection Hq as <-. exists e. by rewrite app_nil_r. }
  destruct r as [d| | |]; [| |done|done].
  - cbn [ssl_quiet] in Hq. apply fmap_Some in Hq as (bs' & Hq & ->). rewrite len_app in Hf. pose proof (len_nonneg bs').
    destruct (recv_store_ok _ _ d Hr) as (o & E & Ho & Hcap); [lia|].
    rewrite (M_bind_ok _ _ e e o) by (unfold lift; by rewrite E).
    set (e1 := sl_with_conn (mk_conn (ses_with_read (ses_reados (c_ses (sl_conn e))) o (c_ses (sl_conn e))) (c_ev (sl_conn e))
      (c_changed (sl_conn e)) (c_sent (sl_conn e))) e).
    rewrite (M_bind_ok _ _ e e1 tt) by done.
    destruct (free_space_repr _ _ Ho) as [Ef _]. destruct (free_space_repr _ _ Hr) as [Ef0 _].
    destruct (IH bs' (s32 (total + len d)) e1 (bs0 ++ d)) as (e' & E' & ? & ?); [done..|change (ssl_rbuffer e1) with o; rewrite Ef, Hcap, len_app; lia|].
    exists e'. by rewrite app_assoc.
  - by apply IH.
Qed.

(** C33 — On an encrypted connection that stays open, the reading of an event does
    not come back: whatever data and waiting OpenSSL answers, as long as the data
    does not fill the buffer, the reactor's thread is still in the loop, with what
    was received in the buffer and none of it handed to the session. *)
Theorem ssl_read_never_returns {B} `{!ProtocolBody B} (reg : stubs B) active now hs rs sends e bs bs0 :
  sl_ssl e = true -> sl_handshake_done e = true -> has active EVENT_RECV = true -> ssl_quiet rs = Some bs ->
  octets_repr (ssl_rbuffer e) bs0 -> len bs < octets_free_space (ssl_rbuffer e) ->
  exists e', sslio_handle_event reg active now hs rs sends e = (e', Ok None) /\ octets_repr (ssl_rbuffer e') (bs0 ++ bs).
Proof.
  intros Hssl Hdone Ha Hq Hr Hf. destruct (ssl_recv_waits rs bs 0 e bs0 Hssl Hq Hr Hf) as (e' & E & _ & Hr').
  exists e'. split; [|done]. unfold sslio_handle_event. rewrite M_get, Hdone, Ha. cbn [negb].
  rewrite (M_bind_ok _ _ e e' None); [done|]. unfold ssl_handle_read. rewrite M_get.
  change (ses_readbuf (c_ses (sl_conn e))) with (ssl_rbuffer e). pose proof (len_nonneg bs).
  rewrite (proj2 (Z.eqb_neq _ _)) by lia. rewrite (M_bind_ok _ _ e e []) by done. by rewrite (M_bind_ok _ _ _ _ _ E).
Qed.

(** A session with room for sixteen bytes, over an open stream. *)
Definition demo_rbuffer : octets := mk_octets (replicate 16 None) 0 16.
Definition demo_ssl : sslio_event :=
  mk_ssl (mk_conn (io_session os_null demo_rbuffer SESSION_STATE_ACTIVE os_null octets_null)
    (mk_event (io_event 5) EVENT_STATUS_ADD 6 true) false []) true true true 0.

Lemma ssl_read_never_returns_witness :
  exists e', sslio_handle_event text_reg EVENT_RECV 9 HandshakeDone [SslData [x41; x42]; SslWant; SslData [x43]; SslWant; SslWant] [] demo_ssl
    = (e', Ok None) /\ octets_repr (ssl_rbuffer e') [x41; x42; x43].
Proof.
  assert (octets_repr (ssl_rbuffer demo_ssl) []) as Hr.
  { apply (repr_join [] (replicate 16 None) 0 16); [done|done|vm_compute; discriminate]. }
  exact (ssl_read_never_returns text_reg EVENT_RECV 9 HandshakeDone
    [SslData [x41; x42]; SslWant; SslData [x43]; SslWant; SslWant] [] demo_ssl [x41; x42; x43] [] eq_refl eq_refl eq_refl eq_refl Hr eq_refl).
Defined.
