(* ===== verification/TimeWheel.v ===== *)
(** The timer wheel (common/timewheel.h, common/timewheel.cpp): circular doubly
    linked lists of nodes in a heap, the slots, the list of far timers, the
    double-buffered change list, and a tick.  Address [0] is the null pointer. *)

From S2P Require Import Prelude.

Definition NEAR_SLOTS : Z := 4096.

Inductive TIMER_OBJECT_STATE :=
  TIMER_STATE_NONE | TIMER_STATE_ACTIVE | TIMER_STATE_ADD | TIMER_STATE_DEL | TIMER_STATE_MOD.
#[export] Instance TIMER_OBJECT_STATE_eq_dec : EqDecision TIMER_OBJECT_STATE.
Proof. solve_decision. Defined.

(** The handler and its parameter are not data of the model: what the handler
    of a node answers is a function of the node's address. *)
Record timer_node := mk_node {
  tn_id : Z; tn_timeout : Z; tn_nexttime : Z; tn_repeats : Z;
  tn_state : TIMER_OBJECT_STATE; tn_prev : Z; tn_next : Z;
}.
Record timerlist := mk_tl { tl_head : Z; tl_count : Z }.

Definition tl_empty : timerlist := mk_tl 0 0.
Abbreviation nodes := (gmap Z timer_node).

Definition tn_with_prev q (n : timer_node) := mk_node (tn_id n) (tn_timeout n) (tn_nexttime n)
  (tn_repeats n) (tn_state n) q (tn_next n).
Definition tn_with_next q (n : timer_node) := mk_node (tn_id n) (tn_timeout n) (tn_nexttime n)
  (tn_repeats n) (tn_state n) (tn_prev n) q.
Definition tn_with_state st (n : timer_node) := mk_node (tn_id n) (tn_timeout n) (tn_nexttime n)
  (tn_repeats n) st (tn_prev n) (tn_next n).
Definition tn_with_run rep next (n : timer_node) := mk_node (tn_id n) (tn_timeout n) next
  rep (tn_state n) (tn_prev n) (tn_next n).

Definition node_at (p : Z) (h : nodes) : outcome timer_node :=
  match h !! p with Some n => Ok n | None => Fault (UB "invalid timer_node") end.
Definition set_node (p : Z) (f : timer_node -> timer_node) (h : nodes) : outcome nodes :=
  n ← node_at p h; Ok (<[p := f n]> h).

(** [timerlist::push_back] and [pop]; every [->] reads the heap anew. *)
Definition tl_push_back (t : Z) (l : timerlist) (h : nodes) : outcome (timerlist * nodes) :=
  let count := u64 (tl_count l + 1) in
  if tl_head l =? 0 then
    h ← set_node t (tn_with_prev t) h;
    h ← set_node t (tn_with_next t) h;
    Ok (mk_tl t count, h)
  else
    hd ← node_at (tl_head l) h;
    if tn_prev hd =? 0 then Fault (AssertFail "head->_prev != nullptr")
    else
      h ← set_node t (tn_with_prev (tn_prev hd)) h;
      h ← set_node t (tn_with_next (tl_head l)) h;
      hd ← node_at (tl_head l) h;
      h ← set_node (tn_prev hd) (tn_with_next t) h;
      h ← set_node (tl_head l) (tn_with_prev t) h;
      Ok (mk_tl (tl_head l) count, h).

Definition tl_pop (t : Z) (l : timerlist) (h : nodes) : outcome (timerlist * nodes) :=
  if tl_head l =? 0 then Fault (AssertFail "head")
  else if (t =? tl_head l) && (tl_count l =? 1) then Ok (tl_empty, h)
  else
    n ← node_at t h;
    if tn_next n =? 0 then Fault (AssertFail "t->_next")
    else
      h ← set_node (tn_next n) (tn_with_prev (tn_prev n)) h;
      n ← node_at t h;
      if tn_prev n =? 0 then Fault (AssertFail "t->_prev")
      else
        h ← set_node (tn_prev n) (tn_with_next (tn_next n)) h;
        n ← node_at t h;
        if (t =? tl_head l) && (tn_next n =? 0) then Fault (AssertFail "t->_next")
        else
          let head := if t =? tl_head l then tn_next n else tl_head l in
          h ← set_node t (tn_with_prev 0) h;
          h ← set_node t (tn_with_next 0) h;
          Ok (mk_tl head (u64 (tl_count l - 1)), h).

(** ** The wheel *)

(** [tw_freed] lists the identifiers given back to the pool, [tw_fired] the
    nodes whose handler ran, oldest first.  A slot that is not in [tw_near] is
    empty. *)
Record timewheel := mk_wheel {
  tw_stop : bool;
  tw_near_slots : gmap Z timerlist;
  tw_hanging_slots : timerlist;
  tw_tickcount : Z;
  tw_ticktime : Z;
  tw_frontidx : bool;
  tw_changelist : bool -> timerlist;
  tw_nodes : nodes;
  tw_freed : list Z;
  tw_fired : list Z;
}.

Abbreviation TW := (M timewheel).

Definition tw_with_near m (w : timewheel) := mk_wheel (tw_stop w) m (tw_hanging_slots w)
  (tw_tickcount w) (tw_ticktime w) (tw_frontidx w) (tw_changelist w) (tw_nodes w) (tw_freed w) (tw_fired w).
Definition tw_with_hanging l (w : timewheel) := mk_wheel (tw_stop w) (tw_near_slots w) l
  (tw_tickcount w) (tw_ticktime w) (tw_frontidx w) (tw_changelist w) (tw_nodes w) (tw_freed w) (tw_fired w).
Definition tw_with_tick n (w : timewheel) := mk_wheel (tw_stop w) (tw_near_slots w) (tw_hanging_slots w)
  n (tw_ticktime w) (tw_frontidx w) (tw_changelist w) (tw_nodes w) (tw_freed w) (tw_fired w).
Definition tw_with_front b (w : timewheel) := mk_wheel (tw_stop w) (tw_near_slots w) (tw_hanging_slots w)
  (tw_tickcount w) (tw_ticktime w) b (tw_changelist w) (tw_nodes w) (tw_freed w) (tw_fired w).
Definition tw_with_change (b : bool) l (w : timewheel) := mk_wheel (tw_stop w) (tw_near_slots w)
  (tw_hanging_slots w) (tw_tickcount w) (tw_ticktime w) (tw_frontidx w)
  (fun c => if Bool.eqb b c then l else tw_changelist w c) (tw_nodes w) (tw_freed w) (tw_fired w).
Definition tw_with_nodes h (w : timewheel) := mk_wheel (tw_stop w) (tw_near_slots w) (tw_hanging_slots w)
  (tw_tickcount w) (tw_ticktime w) (tw_frontidx w) (tw_changelist w) h (tw_freed w) (tw_fired w).
Definition tw_with_log freed fired (w : timewheel) := mk_wheel (tw_stop w) (tw_near_slots w)
  (tw_hanging_slots w) (tw_tickcount w) (tw_ticktime w) (tw_frontidx w) (tw_changelist w) (tw_nodes w)
  freed fired.

Definition near_slot (k : Z) (w : timewheel) : timerlist := default tl_empty (tw_near_slots w !! k).

(** A list operation on one of the wheel's lists. *)
Definition on_list (rd : timewheel -> timerlist) (wr : timerlist -> timewheel -> timewheel)
    (f : timerlist -> nodes -> outcome (timerlist * nodes)) : TW unit := fun w =>
  match f (rd w) (tw_nodes w) with
  | Ok (l, h) => (wr l (tw_with_nodes h w), Ok tt)
  | Throw e => (w, Throw e)
  | Fault x => (w, Fault x)
  end.
(** Indexing the array outside its bounds is undefined. *)
Definition on_near (k : Z) f : TW unit :=
  if (0 <=? k) && (k <? NEAR_SLOTS)
  then on_list (near_slot k) (fun l w => tw_with_near (<[k := l]> (tw_near_slots w)) w) f
  else fail (UB "_near_slots index").
Definition on_hanging := on_list tw_hanging_slots tw_with_hanging.
Definition on_change (b : bool) := on_list (fun w => tw_changelist w b) (tw_with_change b).

Definition tw_node (p : Z) : TW timer_node := w ← get; lift (node_at p (tw_nodes w)).
Definition tw_set (p : Z) (f : timer_node -> timer_node) : TW unit :=
  w ← get; h ← lift (set_node p f (tw_nodes w)); put (tw_with_nodes h w).

Definition add_to_changelist (t : Z) : TW unit :=
  w ← get; on_change (negb (tw_frontidx w)) (tl_push_back t).

(** [add_timer]; [alloc] is what the pool gives: the identifier and the
    address, or nothing.  The division is C++'s, towards zero. *)
Definition tw_add_timer (alloc : option (Z * Z)) (has_handler delay : bool) (timeout repeats : Z)
    : TW Z :=
  w ← get;
  if tw_stop w || negb has_handler then mret (-1)
  else
    match alloc with
    | None => mret (-1)
    | Some (timerid, t) =>
        if tw_ticktime w =? 0 then fail (UB "division by zero")
        else
          let tmo := Z.quot timeout (tw_ticktime w) in
          let nexttime := s64 (if delay then tw_tickcount w + tmo else tw_tickcount w) in
          put (tw_with_nodes (<[t := mk_node timerid tmo nexttime repeats TIMER_STATE_ADD 0 0]>
                 (tw_nodes w)) w);;
          add_to_changelist t;;
          mret timerid
    end.

(** [del_timer], given the node [find_object] found. *)
Definition tw_del_timer (found : option Z) : TW bool :=
  match found with
  | None => mret false
  | Some t =>
      n ← tw_node t;
      if bool_decide (tn_state n = TIMER_STATE_ACTIVE) then
        tw_set t (tn_with_state TIMER_STATE_DEL);;
        add_to_changelist t;;
        mret false
      else mret false
  end.

(** The subtraction of a [uint64_t] from an [int64_t] is unsigned. *)
Definition ticks_left (n : timer_node) (w : timewheel) : Z := u64 (tn_nexttime n - tw_tickcount w).

(** The slot of a near timer, as [readd_timer] and [regroup_timers] compute
    it, and as [remove_timer] does. *)
Definition slot_of (n : timer_node) (w : timewheel) : Z :=
  if ticks_left n w >? 0 then Z.rem (tn_nexttime n) NEAR_SLOTS else tw_tickcount w mod NEAR_SLOTS.
Definition remove_slot_of (n : timer_node) (w : timewheel) : Z :=
  if ticks_left n w >? 0 then ticks_left n w mod NEAR_SLOTS else tw_tickcount w mod NEAR_SLOTS.

Definition readd_timer (t : Z) : TW unit :=
  n ← tw_node t;
  w ← get;
  (if ticks_left n w >=? NEAR_SLOTS then on_hanging (tl_push_back t)
   else on_near (slot_of n w) (tl_push_back t));;
  tw_set t (tn_with_state TIMER_STATE_ACTIVE).

Definition free_timer (t : Z) : TW unit :=
  tw_set t (tn_with_state TIMER_STATE_NONE);;
  n ← tw_node t;
  modify (fun w => tw_with_log (tw_freed w ++ [tn_id n]) (tw_fired w) w).

Definition remove_timer (t : Z) : TW unit :=
  n ← tw_node t;
  w ← get;
  (if ticks_left n w >=? NEAR_SLOTS then on_hanging (tl_pop t)
   else on_near (remove_slot_of n w) (tl_pop t));;
  free_timer t.

(** The loop of [load_timers]: [count] nodes from [t] on. *)
Fixpoint load_loop (count : nat) (t : Z) : TW unit :=
  match count with
  | O => mret tt
  | S count =>
      n ← tw_node t;
      let next := tn_next n in
      match tn_state n with
      | TIMER_STATE_ADD | TIMER_STATE_MOD => readd_timer t
      | TIMER_STATE_DEL => remove_timer t
      | _ => mret tt
      end;;
      load_loop count next
  end.

Definition load_timers : TW unit :=
  w ← get;
  let changelist := tw_changelist w (tw_frontidx w) in
  load_loop (Z.to_nat (tl_count changelist)) (tl_head changelist);;
  modify (fun w => tw_with_change (tw_frontidx w) tl_empty w).

Section Handlers.
Context (handler : Z -> bool).

(** The loop of [handle_timer] over the local [active_list]. *)
Fixpoint handle_loop (count : nat) (active_list : timerlist) (t : Z) : TW unit :=
  match count with
  | O => mret tt
  | S count =>
      n ← tw_node t;
      let next := tn_next n in
      active_list ←
        (if bool_decide (tn_state n = TIMER_STATE_ACTIVE) then
           modify (fun w => tw_with_log (tw_freed w) (tw_fired w ++ [t]) w);;
           if handler t then
             w ← get;
             r ← lift (tl_pop t active_list (tw_nodes w));
             put (tw_with_nodes r.2 w);;
             n ← tw_node t;
             let repeats := if tn_repeats n >? 0 then tn_repeats n - 1 else tn_repeats n in
             tw_set t (tn_with_run repeats (tn_nexttime n));;
             (if repeats =? 0 then free_timer t
              else tw_set t (fun n => tn_with_run (tn_repeats n) (s64 (tn_nexttime n + tn_timeout n)) n);;
                   readd_timer t);;
             mret r.1
           else free_timer t;; mret active_list
         else mret active_list);
      handle_loop count active_list next
  end.

Definition handle_timer : TW unit :=
  w ← get;
  let offset := tw_tickcount w mod NEAR_SLOTS in
  let active_list := near_slot offset w in
  put (tw_with_near (<[offset := tl_empty]> (tw_near_slots w)) w);;
  handle_loop (Z.to_nat (tl_count active_list)) active_list (tl_head active_list).

Definition switch_changelist : TW unit :=
  modify (fun w => tw_with_front (negb (tw_frontidx w)) w).

Fixpoint regroup_loop (count : nat) (t : Z) : TW unit :=
  match count with
  | O => mret tt
  | S count =>
      n ← tw_node t;
      let next := tn_next n in
      w ← get;
      (if ticks_left n w <? NEAR_SLOTS then
         on_hanging (tl_pop t);; on_near (slot_of n w) (tl_push_back t)
       else mret tt);;
      regroup_loop count next
  end.
Definition regroup_timers : TW unit :=
  w ← get;
  regroup_loop (Z.to_nat (tl_count (tw_hanging_slots w))) (tl_head (tw_hanging_slots w)).

Definition tick : TW unit :=
  switch_changelist;;
  load_timers;;
  handle_timer;;
  modify (fun w => tw_with_tick (u64 (tw_tickcount w + 1)) w);;
  w ← get;
  if tw_tickcount w mod NEAR_SLOTS =? 0 then regroup_timers else mret tt.

(** [n] rounds of [run]. *)
Fixpoint ticks (n : nat) : TW unit :=
  match n with O => mret tt | S n => tick;; ticks n end.

End Handlers.

(** The wheel after [init]. *)
Definition tw_init (ticktime : Z) : timewheel :=
  mk_wheel false ∅ tl_empty 0 ticktime false (fun _ => tl_empty) ∅ [] [].

(** ** Circular lists *)

(** The links of the path from [a] through [l] to [b]. *)
Fixpoint path (a : Z) (l : list Z) (b : Z) : list (Z * Z) :=
  match l with
  | [] => [(a, b)]
  | c :: l => (a, c) :: path c l b
  end.

Lemma path_app a l x k b : path a (l ++ x :: k) b = path a l x ++ path x k b.
Proof. revert a. induction l as [|c l IH]; intros a; simpl; [done|]. by rewrite IH. Qed.

Lemma path_ends a l b u v : (u, v) ∈ path a l b -> u ∈ a :: l /\ v ∈ l ++ [b].
Proof.
  revert a. induction l as [|c l IH]; intros a; simpl.
  - intros H%list_elem_of_singleton. simplify_eq. split; apply elem_of_cons; by left.
  - intros [H|H]%elem_of_cons; [simplify_eq; split; simpl; apply elem_of_cons; by left|].
    destruct (IH _ H). split; simpl; apply elem_of_cons; by right.
Qed.

Lemma last_cons (c a : Z) l : List.last (c :: l) a = List.last l c.
Proof.
  revert c a. induction l as [|d l IH]; intros c a; [done|].
  change (List.last (c :: d :: l) a) with (List.last (d :: l) a). by rewrite !IH.
Qed.

Lemma last_elem (a : Z) l : List.last l a ∈ a :: l.
Proof.
  revert a. induction l as [|c l IH]; intros a; [left|]. rewrite last_cons. right. apply IH.
Qed.

(** A path with another end, and the join of two paths. *)
Lemma path_end a l b e u v : (u, v) ∈ path a l b ->
  (u = List.last l a /\ v = b) \/ ((u, v) ∈ path a l e /\ v ∈ l).
Proof.
  revert a. induction l as [|c l IH]; intros a; cbn [path app].
  - intros H%list_elem_of_singleton. simplify_eq. by left.
  - intros [H|H]%elem_of_cons; [simplify_eq; right; split; apply elem_of_cons; by left|].
    destruct (IH _ H) as [[-> ->]|[H1 H2]].
    + left. split; [by rewrite last_cons|done].
    + right. split; apply elem_of_cons; by right.
Qed.

Lemma path_join a l x k b u v : (u, v) ∈ path a (l ++ k) b ->
  (u = List.last l a /\ v = hd b k) \/ (u, v) ∈ path a l x \/ (u, v) ∈ path x k b.
Proof.
  revert a. induction l as [|c l IH]; intros a; cbn [path app].
  - destruct k as [|d k]; simpl; [intros H%list_elem_of_singleton; simplify_eq; by left|].
    intros [H|H]%elem_of_cons; [simplify_eq; by left|]. right. right. by right.
  - intros [H|H]%elem_of_cons; [simplify_eq; right; left; by left|].
    destruct (IH _ H) as [[-> ->]|[H1|H1]]; [left|right; left; by right|by right; right].
    split; [by rewrite last_cons|done].
Qed.

Section Cycles.
Context (N P : Z -> Z).

(** The links are those of the two functions. *)
Definition linked (l : list (Z * Z)) : Prop :=
  forall u v, (u, v) ∈ l -> N u = v /\ P v = u.

Lemma linked_app l k : linked (l ++ k) <-> linked l /\ linked k.
Proof.
  unfold linked. split.
  - intros H. split; intros u v Hin; apply H, elem_of_app; auto.
  - intros [H1 H2] u v [Hin|Hin]%elem_of_app; auto.
Qed.

Lemma linked_first a l b : linked (path a l b) -> N a = hd b l /\ P (hd b l) = a.
Proof. intros H. destruct l; simpl in *; apply H; by left. Qed.
Lemma linked_last a l b : linked (path a l b) -> P b = List.last l a /\ N (List.last l a) = b.
Proof.
  revert a. induction l as [|c l IH]; intros a H; cbn [path] in H.
  - split; apply H; by left.
  - destruct (IH c) as [H1 H2]; [intros u v Hin; apply H; by right|]. by rewrite last_cons.
Qed.
End Cycles.

Definition upd (f : Z -> Z) (p v q : Z) : Z := if decide (q = p) then v else f q.
Lemma upd_eq f p v : upd f p v p = v.
Proof. unfold upd. by rewrite decide_True. Qed.
Lemma upd_ne f p v q : q <> p -> upd f p v q = f q.
Proof. intros. unfold upd. by rewrite decide_False. Qed.

Section CycleOps.
Context (N P N' P' : Z -> Z).

(** Linking [t] in at the end of a cycle. *)
Lemma cycle_insert p l t q :
  p ∉ l -> t ∉ p :: l -> linked N P (path p l p) -> q = P p ->
  N' t = p -> N' q = t -> (forall x, x <> t -> x <> q -> N' x = N x) ->
  P' p = t -> P' t = q -> (forall x, x <> t -> x <> p -> P' x = P x) ->
  linked N' P' (path p (l ++ [t]) p).
Proof.
  intros Hpl Ht Hc -> Nt Nq Nx Pp Pt Px. destruct (linked_last _ _ _ _ _ Hc) as [Hq HNq].
  rewrite path_app. apply linked_app. split.
  - intros u v Huv. destruct (path_ends _ _ _ _ _ Huv) as [Hu _].
    assert (u <> t) by (intros ->; done).
    destruct (path_end p l t p u v Huv) as [[-> ->]|[Hin Hv]].
    + rewrite <- Hq. done.
    + destruct (Hc u v Hin) as [Hu1 Hv1].
      assert (v <> t) by (intros ->; apply Ht; by right). assert (v <> p) by (by intros ->).
      rewrite Nx, Px; [done|done|done|done|]. intros ->. rewrite Hq in Hu1. congruence.
  - intros u v Huv%list_elem_of_singleton. by simplify_eq.
Qed.

(** Taking [x] out of a cycle of at least two. *)
Lemma cycle_remove p l1 x l2 :
  x ∉ p :: l1 ++ l2 -> linked N P (path p (l1 ++ x :: l2) p) ->
  N' (P x) = N x -> (forall y, y <> x -> y <> P x -> N' y = N y) ->
  P' (N x) = P x -> (forall y, y <> x -> y <> N x -> P' y = P y) ->
  linked N' P' (path p (l1 ++ l2) p).
Proof.
  intros Hx Hc Nv Nx Pn Px. rewrite path_app in Hc. apply linked_app in Hc as [H1 H2].
  destruct (linked_last _ _ _ _ _ H1) as [Hv HNv]. destruct (linked_first _ _ _ _ _ H2) as [Hn HPn].
  intros u v Huv. destruct (path_ends _ _ _ _ _ Huv) as [Hu Hvin].
  assert (Hux : u <> x) by (intros ->; done).
  assert (Hvx : v <> x).
  { intros ->. apply Hx. apply elem_of_app in Hvin as [Hvin|Hvin]; [by right|].
    apply list_elem_of_singleton in Hvin as ->. by left. }
  destruct (path_join p l1 x l2 p u v Huv) as [[-> ->]|Hold].
  - rewrite <- Hv, <- Hn. done.
  - assert (N u = v /\ P v = u) as [HNu HPv] by (destruct Hold; auto).
    rewrite Nx, Px; [done|done| |done|].
    + intros ->. apply Hux. rewrite <- HPv, Hn. symmetry. exact HPn || done.
    + intros ->. apply Hvx. rewrite <- HNu, Hv. exact HNv || done.
Qed.

(** The cycle seen from its second element. *)
Lemma cycle_rotate p c l : linked N P (path p (c :: l) p) -> linked N P (path c (l ++ [p]) c).
Proof.
  intros H u v. rewrite path_app. simpl in *. intros [Hin|Hin]%elem_of_app; apply H.
  - by right.
  - apply list_elem_of_singleton in Hin. simplify_eq. by left.
Qed.
End CycleOps.

(** ** The lists in the heap *)

Definition nx (h : nodes) (p : Z) : Z := match h !! p with Some n => tn_next n | None => 0 end.
Definition pv (h : nodes) (p : Z) : Z := match h !! p with Some n => tn_prev n | None => 0 end.

(** The node without its links. *)
Definition unlinked (n : timer_node) : timer_node := tn_with_prev 0 (tn_with_next 0 n).

(** From [h] to [h'] only the links of the nodes in [S] changed. *)
Record relinked (S : list Z) (h h' : nodes) : Prop := {
  rl_data q : unlinked <$> h' !! q = unlinked <$> h !! q;
  rl_frame q : q ∉ S -> h' !! q = h !! q;
}.

Lemma relinked_refl S h : relinked S h h.
Proof. by split. Qed.
Lemma relinked_trans S h1 h2 h3 : relinked S h1 h2 -> relinked S h2 h3 -> relinked S h1 h3.
Proof.
  intros [D1 F1] [D2 F2]. split; intros q; [by rewrite D2|]. intros Hq. by rewrite F2, F1.
Qed.
Lemma relinked_mono S T h h' : (forall q, q ∈ S -> q ∈ T) -> relinked S h h' -> relinked T h h'.
Proof. intros HS [D F]. split; [done|]. intros q Hq. apply F. auto. Qed.
Lemma relinked_one x T h h' : x ∈ T -> relinked [x] h h' -> relinked T h h'.
Proof. intros Hx. apply relinked_mono. by intros q ->%list_elem_of_singleton. Qed.
Lemma relinked_live S h h' q : relinked S h h' -> is_Some (h !! q) -> is_Some (h' !! q).
Proof.
  intros [D _] [n Hn]. specialize (D q). rewrite Hn in D. destruct (h' !! q); [by eexists|done].
Qed.

(** A write to one link. *)
Lemma set_prev_ok h p v : is_Some (h !! p) -> exists h',
  set_node p (tn_with_prev v) h = Ok h' /\ relinked [p] h h' /\
  (forall q, nx h' q = nx h q) /\ (forall q, pv h' q = upd (pv h) p v q).
Proof.
  intros [n Hn]. unfold set_node, node_at. rewrite Hn. eexists. split; [done|].
  split; [split|split]; intros q; unfold nx, pv, upd.
  - destruct (decide (q = p)) as [->|]; [by rewrite lookup_insert_eq, Hn|by rewrite lookup_insert_ne].
  - intros Hq. rewrite lookup_insert_ne; [done|]. intros ->. apply Hq. left.
  - destruct (decide (q = p)) as [->|]; [by rewrite lookup_insert_eq, Hn|by rewrite lookup_insert_ne].
  - destruct (decide (q = p)) as [->|]; [by rewrite lookup_insert_eq|by rewrite lookup_insert_ne].
Qed.

Lemma set_next_ok h p v : is_Some (h !! p) -> exists h',
  set_node p (tn_with_next v) h = Ok h' /\ relinked [p] h h' /\
  (forall q, pv h' q = pv h q) /\ (forall q, nx h' q = upd (nx h) p v q).
Proof.
  intros [n Hn]. unfold set_node, node_at. rewrite Hn. eexists. split; [done|].
  split; [split|split]; intros q; unfold nx, pv, upd.
  - destruct (decide (q = p)) as [->|]; [by rewrite lookup_insert_eq, Hn|by rewrite lookup_insert_ne].
  - intros Hq. rewrite lookup_insert_ne; [done|]. intros ->. apply Hq. left.
  - destruct (decide (q = p)) as [->|]; [by rewrite lookup_insert_eq, Hn|by rewrite lookup_insert_ne].
  - destruct (decide (q = p)) as [->|]; [by rewrite lookup_insert_eq|by rewrite lookup_insert_ne].
Qed.

Lemma node_at_ok h p : is_Some (h !! p) -> exists n, node_at p h = Ok n /\
  tn_next n = nx h p /\ tn_prev n = pv h p /\ h !! p = Some n.
Proof. intros [n Hn]. exists n. unfold node_at, nx, pv. by rewrite Hn. Qed.

(** [l] is the circular list of the nodes [xs]. *)
Definition dll (h : nodes) (l : timerlist) (xs : list Z) : Prop :=
  match xs with
  | [] => l = tl_empty
  | p :: k => l = mk_tl p (len xs) /\ len xs < 2 ^ 64 /\ NoDup xs /\
      (forall x, x ∈ xs -> is_Some (h !! x) /\ x <> 0) /\ linked (nx h) (pv h) (path p k p)
  end.

Lemma dll_frame h h' l xs : (forall x, x ∈ xs -> h' !! x = h !! x) -> dll h l xs -> dll h' l xs.
Proof.
  intros Hf. destruct xs as [|p k]; [done|]. intros (-> & Hn & Hnd & Hlive & Hlk).
  split; [done|]. split; [done|]. split; [done|]. split; [intros x Hx; rewrite Hf by done; auto|].
  intros u v Huv. destruct (path_ends _ _ _ _ _ Huv) as [Hu Hv].
  assert (Hv' : v ∈ p :: k).
  { apply elem_of_app in Hv as [Hv|Hv]; [by right|]. apply list_elem_of_singleton in Hv as ->. left. }
  unfold nx, pv. rewrite !Hf by done. by apply Hlk.
Qed.

Lemma tl_push_back_ok t l h xs :
  dll h l xs -> t ∉ xs -> t <> 0 -> is_Some (h !! t) -> len xs + 1 < 2 ^ 64 ->
  exists l' h', tl_push_back t l h = Ok (l', h') /\ dll h' l' (xs ++ [t]) /\ relinked (t :: xs) h h'.
Proof.
  intros Hd Ht Ht0 Hlt Hm. unfold tl_push_back. destruct xs as [|p k].
  - simpl in Hd. subst l. change (tl_head tl_empty =? 0) with true. cbv iota.
    destruct (set_prev_ok h t t Hlt) as (h1 & -> & R1 & N1 & P1). cbn [mbind outcome_bind].
    destruct (set_next_ok h1 t t (relinked_live _ _ _ _ R1 Hlt)) as (h2 & -> & R2 & P2 & N2).
    cbn [mbind outcome_bind]. eexists _, h2. split; [done|].
    pose proof (relinked_trans _ _ _ _ R1 R2) as R. split; [|exact R].
    split; [done|]. split; [done|]. split; [apply NoDup_singleton|].
    split; [intros x ->%list_elem_of_singleton; split; [by apply (relinked_live _ _ _ _ R)|done]|].
    intros u v Huv%list_elem_of_singleton. simplify_eq. by rewrite N2, P2, P1, !upd_eq.
  - destruct Hd as (-> & Hn & Hnd & Hlive & Hlk). cbn [tl_head tl_count].
    destruct (Hlive p ltac:(left)) as [Hp Hp0]. destruct (Z.eqb_spec p 0); [done|].
    destruct (node_at_ok h p Hp) as (hd & -> & _ & Hpv & _). cbn [mbind outcome_bind].
    destruct (linked_last _ _ _ _ _ Hlk) as [Hq HNq].
    assert (Hqin : pv h p ∈ p :: k) by (rewrite Hq; apply last_elem).
    destruct (Hlive _ Hqin) as [Hql Hq0]. rewrite Hpv. destruct (Z.eqb_spec (pv h p) 0); [done|].
    set (q := pv h p) in *. apply NoDup_cons in Hnd as [Hpk Hndk].
    apply not_elem_of_cons in Ht as [Htp Htk].
    assert (Htq : t <> q) by (intros ->; apply elem_of_cons in Hqin as [->|]; done).
    destruct (set_prev_ok h t q Hlt) as (h1 & -> & R1 & N1 & P1). cbn [mbind outcome_bind].
    destruct (set_next_ok h1 t p (relinked_live _ _ _ _ R1 Hlt)) as (h2 & -> & R2 & P2 & N2).
    cbn [mbind outcome_bind]. pose proof (relinked_trans _ _ _ _ R1 R2) as R12.
    destruct (node_at_ok h2 p (relinked_live _ _ _ _ R12 Hp)) as (hd2 & -> & _ & Hpv2 & _).
    cbn [mbind outcome_bind]. rewrite Hpv2, P2, P1, upd_ne by done. fold q.
    destruct (set_next_ok h2 q t (relinked_live _ _ _ _ R12 Hql)) as (h3 & -> & R3 & P3 & N3).
    cbn [mbind outcome_bind].
    destruct (set_prev_ok h3 p t (relinked_live _ _ _ _ R3 (relinked_live _ _ _ _ R12 Hp)))
      as (h4 & -> & R4 & N4 & P4). cbn [mbind outcome_bind].
    assert (R : relinked (t :: p :: k) h h4).
    { eapply relinked_trans; [eapply relinked_mono; [|exact R12]|].
      { intros x ->%list_elem_of_singleton. left. }
      eapply relinked_trans; eapply relinked_mono; [|exact R3| |exact R4];
        intros x ->%list_elem_of_singleton; right; [done|left]. }
    eexists _, h4. split; [done|]. split; [|exact R].
    assert (E : len ((p :: k) ++ [t]) = len (p :: k) + 1) by (rewrite len_app; done).
    pose proof (len_nonneg (p :: k)).
    split; [rewrite E, wrapU_small by (unfold inU; lia); done|]. split; [lia|].
    split; [|split].
    + apply NoDup_app. split; [by constructor|]. split; [|apply NoDup_singleton].
      intros x Hx ->%list_elem_of_singleton. apply elem_of_cons in Hx as [->|]; done.
    + intros x [Hx| ->%list_elem_of_singleton]%elem_of_app.
      * destruct (Hlive x Hx) as [Hx1 Hx2]. split; [by apply (relinked_live _ _ _ _ R)|done].
      * split; [by apply (relinked_live _ _ _ _ R)|done].
    + cbn [app]. apply (cycle_insert (nx h) (pv h) _ _ p k t q); try done.
      * by apply not_elem_of_cons.
      * rewrite N4, N3, upd_ne, N2 by done. apply upd_eq.
      * rewrite N4, N3. apply upd_eq.
      * intros x Hxt Hxq. by rewrite N4, N3, upd_ne, N2, upd_ne, N1.
      * rewrite P4. apply upd_eq.
      * rewrite P4, upd_ne, P3, P2, P1 by done. apply upd_eq.
      * intros x Hxt Hxp. by rewrite P4, upd_ne, P3, P2, P1, upd_ne.
Qed.

(** The writes of [pop], when [t] has neighbours. *)
Lemma tl_pop_links t l h n v :
  is_Some (h !! t) -> is_Some (h !! n) -> is_Some (h !! v) -> nx h t = n -> pv h t = v ->
  n <> 0 -> v <> 0 -> n <> t -> v <> t -> tl_head l <> 0 -> (t =? tl_head l) && (tl_count l =? 1) = false ->
  exists h', tl_pop t l h = Ok (mk_tl (if t =? tl_head l then n else tl_head l) (u64 (tl_count l - 1)), h') /\
    relinked [n; v; t] h h' /\ nx h' v = n /\ (forall y, y <> t -> y <> v -> nx h' y = nx h y) /\
    pv h' n = v /\ (forall y, y <> t -> y <> n -> pv h' y = pv h y).
Proof.
  intros Ht Hn Hv Hnx Hpv Hn0 Hv0 Hnt Hvt Hhd Hone. unfold tl_pop.
  destruct (Z.eqb_spec (tl_head l) 0); [done|]. rewrite Hone.
  destruct (node_at_ok h t Ht) as (na & -> & E1 & E2 & _). cbn [mbind outcome_bind].
  rewrite E1, E2, Hnx, Hpv. destruct (Z.eqb_spec n 0); [done|].
  destruct (set_prev_ok h n v Hn) as (h1 & -> & R1 & N1 & P1). cbn [mbind outcome_bind].
  destruct (node_at_ok h1 t (relinked_live _ _ _ _ R1 Ht)) as (nb & -> & E3 & E4 & _).
  cbn [mbind outcome_bind]. rewrite E3, E4, N1, P1, upd_ne, Hnx, Hpv by done.
  destruct (Z.eqb_spec v 0); [done|].
  destruct (set_next_ok h1 v n (relinked_live _ _ _ _ R1 Hv)) as (h2 & -> & R2 & P2 & N2).
  cbn [mbind outcome_bind]. pose proof (relinked_one n [n; v; t] _ _ ltac:(rewrite !elem_of_cons; auto) R1) as R1'.
  pose proof (relinked_one v [n; v; t] _ _ ltac:(rewrite !elem_of_cons; auto) R2) as R2'.
  pose proof (relinked_trans _ _ _ _ R1' R2') as R12.
  destruct (node_at_ok h2 t (relinked_live _ _ _ _ R12 Ht)) as (nc & -> & E5 & _ & _).
  cbn [mbind outcome_bind]. rewrite E5, N2, upd_ne, N1, Hnx by done.
  destruct (Z.eqb_spec n 0) as [|_]; [done|]. rewrite andb_false_r.
  destruct (set_prev_ok h2 t 0 (relinked_live _ _ _ _ R12 Ht)) as (h3 & -> & R3 & N3 & P3).
  cbn [mbind outcome_bind].
  destruct (set_next_ok h3 t 0 (relinked_live _ _ _ _ R3 (relinked_live _ _ _ _ R12 Ht)))
    as (h4 & -> & R4 & P4 & N4). cbn [mbind outcome_bind].
  exists h4. split; [done|]. split; [|split; [|split; [|split]]].
  - eapply relinked_trans; [exact R12|].
    eapply relinked_trans; eapply relinked_one; [|exact R3| |exact R4]; rewrite !elem_of_cons; auto.
  - rewrite N4, upd_ne, N3, N2 by done. apply upd_eq.
  - intros y Hyt Hyv. by rewrite N4, upd_ne, N3, N2, upd_ne, N1.
  - rewrite P4, P3, upd_ne, P2, P1 by done. apply upd_eq.
  - intros y Hyt Hyn. by rewrite P4, P3, upd_ne, P2, P1, upd_ne.
Qed.

Lemma tl_pop_ok t l h xs1 xs2 :
  dll h l (xs1 ++ t :: xs2) ->
  exists l' h', tl_pop t l h = Ok (l', h') /\ dll h' l' (xs1 ++ xs2) /\
    relinked (xs1 ++ t :: xs2) h h'.
Proof.
  intros Hd. set (xs := xs1 ++ t :: xs2) in *.
  assert (Hin : forall x, x ∈ xs1 ++ xs2 -> x ∈ xs).
  { intros x. unfold xs. rewrite !elem_of_app, elem_of_cons. tauto. }
  assert (Htin : t ∈ xs) by (apply elem_of_app; right; left).
  assert (exists p k, xs = p :: k) as (p & k & E).
  { unfold xs. destruct xs1; simpl; eauto. }
  assert (Hlen : len xs = len (xs1 ++ xs2) + 1) by (unfold xs; rewrite !len_app, len_cons; lia).
  rewrite E in Hd, Htin, Hin, Hlen |- *. destruct Hd as (-> & Hn & Hnd & Hlive & Hlk).
  pose proof (len_nonneg (xs1 ++ xs2)).
  destruct (Hlive p ltac:(left)) as [Hp Hp0].
  destruct (decide (xs1 ++ xs2 = [])) as [Hnil|Hnil].
  { exists tl_empty, h. rewrite Hnil in *. apply app_nil in Hnil as [-> ->].
    unfold xs in E. simpl in E. simplify_eq. unfold tl_pop. cbn [tl_head tl_count].
    rewrite Hlen. destruct (Z.eqb_spec p 0); [done|]. rewrite Z.eqb_refl.
    split; [done|]. split; [done|]. apply relinked_refl. }
  assert (H1 : 1 <= len (xs1 ++ xs2)) by (destruct (xs1 ++ xs2) as [|? m]; [done|];
    rewrite len_cons; pose proof (len_nonneg m); lia).
  assert (Htnot : (t ∉ xs1 ++ xs2) /\ NoDup (xs1 ++ xs2)).
  { rewrite <- E in Hnd. unfold xs in Hnd. rewrite <- Permutation_middle in Hnd.
    by apply NoDup_cons in Hnd. }
  destruct Htnot as [Htnot Hnd'].
  (* the cycle from an element [p'] that stays, with [t] behind [m1] *)
  assert (exists p' m1 m2, linked (nx h) (pv h) (path p' (m1 ++ t :: m2) p') /\
    (xs1 ++ xs2 = p' :: m1 ++ m2) /\ (if t =? p then nx h t else p) = p')
    as (p' & m1 & m2 & Hlk' & Hshape & Hhead).
  { destruct xs1 as [|a m1]; unfold xs in E; simpl in E; simplify_eq; simpl in *.
    - destruct k as [|c m1]; [done|]. exists c, m1, []. rewrite app_nil_r.
      split; [by apply cycle_rotate|]. split; [done|]. rewrite Z.eqb_refl.
      by destruct (linked_first _ _ _ _ _ Hlk) as [-> _].
    - exists p, m1, xs2. split; [done|]. split; [done|].
      destruct (Z.eqb_spec t p) as [->|]; [|done]. destruct Htnot. left. }
  pose proof Hlk' as Hlk2. rewrite path_app in Hlk2. apply linked_app in Hlk2 as [HA HB].
  destruct (linked_last _ _ _ _ _ HA) as [Hv _]. destruct (linked_first _ _ _ _ _ HB) as [Hnx _].
  assert (Hvin : pv h t ∈ xs1 ++ xs2).
  { rewrite Hshape, Hv. pose proof (last_elem p' m1) as Hl.
    apply elem_of_cons in Hl as [->|Hl]; [left|right; apply elem_of_app; by left]. }
  assert (Hnin : nx h t ∈ xs1 ++ xs2).
  { rewrite Hshape, Hnx. destruct m2; simpl; [left|right; apply elem_of_app; right; left]. }
  destruct (Hlive t Htin) as [Hlt Ht0]. destruct (Hlive _ (Hin _ Hvin)) as [Hlv Hv0].
  destruct (Hlive _ (Hin _ Hnin)) as [Hln Hn0].
  destruct (tl_pop_links t (mk_tl p (len (p :: k))) h (nx h t) (pv h t)) as (h' & -> & R & Nv & Nx & Pn & Px);
    try done.
  { intros Hc. rewrite Hc in Hnin. done. }
  { intros Hc. rewrite Hc in Hvin. done. }
  { cbn [tl_head tl_count]. destruct (Z.eqb_spec (len (p :: k)) 1); [lia|]. apply andb_false_r. }
  cbn [tl_head tl_count]. rewrite Hhead.
  assert (R' : relinked (p :: k) h h').
  { eapply relinked_mono; [|exact R]. intros x. rewrite !elem_of_cons, elem_of_nil.
    intros [->|[->|[->|[]]]]; rewrite <- elem_of_cons; auto. }
  eexists _, h'. split; [done|]. split; [|exact R']. rewrite Hshape in *.
  split; [rewrite wrapU_small by (unfold inU; lia); f_equal; lia|]. split; [lia|].
  split; [done|]. split.
  - intros x Hx. destruct (Hlive x (Hin x Hx)) as [Hx1 Hx2].
    split; [by apply (relinked_live _ _ _ _ R')|done].
  - by apply (cycle_remove (nx h) (pv h) _ _ p' m1 t m2).
Qed.

(** The fields of a node that the lists do not use. *)
Lemma relinked_node S h h' p n : relinked S h h' -> h !! p = Some n ->
  exists n', h' !! p = Some n' /\ unlinked n' = unlinked n.
Proof.
  intros [D _] Hn. specialize (D p). rewrite Hn in D. destruct (h' !! p) as [n'|] eqn:E; [|done].
  exists n'. split; [done|]. cbn [fmap option_fmap option_map] in D. by apply (inj Some) in D.
Qed.

(** ** Running a slot *)

Lemma dll_live h l xs x : dll h l xs -> x ∈ xs -> is_Some (h !! x) /\ x <> 0.
Proof. destruct xs as [|p k]; [by intros _ ?%elem_of_nil|]. intros (_ & _ & _ & H & _). auto. Qed.
Lemma dll_NoDup h l xs : dll h l xs -> NoDup xs.
Proof. destruct xs; [intros; constructor|]. by intros (_ & _ & ? & _). Qed.

Lemma dll_next h l xs1 x y xs2 : dll h l (xs1 ++ x :: y :: xs2) -> nx h x = y.
Proof.
  intros Hd. destruct xs1 as [|p k]; simpl in Hd; destruct Hd as (_ & _ & _ & _ & Hlk).
  - apply Hlk. left.
  - assert (Hin : (x, y) ∈ path p (k ++ x :: y :: xs2) p).
    { rewrite path_app. apply elem_of_app. right. left. }
    by destruct (Hlk _ _ Hin).
Qed.

(** A change of a node that keeps its links. *)
Lemma dll_data h l xs p n n' :
  h !! p = Some n -> tn_next n' = tn_next n -> tn_prev n' = tn_prev n ->
  dll h l xs -> dll (<[p := n']> h) l xs.
Proof.
  intros Hn E1 E2. destruct xs as [|a k]; [done|]. intros (-> & Hc & Hnd & Hlive & Hlk).
  assert (Hnx : forall q, nx (<[p := n']> h) q = nx h q /\ pv (<[p := n']> h) q = pv h q).
  { intros q. unfold nx, pv. destruct (decide (p = q)) as [->|].
    - by rewrite lookup_insert_eq, Hn.
    - by rewrite lookup_insert_ne. }
  split; [done|]. split; [done|]. split; [done|]. split.
  - intros x Hx. destruct (Hlive x Hx) as [Hx1 Hx2]. split; [|done].
    destruct (decide (p = x)) as [->|]; [rewrite lookup_insert_eq; eauto|by rewrite lookup_insert_ne].
  - intros u v Huv. destruct (Hnx u) as [-> _], (Hnx v) as [_ ->]. auto.
Qed.

Lemma tw_node_ok p n w : tw_nodes w !! p = Some n -> tw_node p w = (w, Ok n).
Proof. intros H. unfold tw_node, node_at. mrun. by rewrite H. Qed.
Lemma tw_set_ok p n f w : tw_nodes w !! p = Some n ->
  tw_set p f w = (tw_with_nodes (<[p := f n]> (tw_nodes w)) w, Ok tt).
Proof. intros H. unfold tw_set, set_node, node_at. mrun. by rewrite H. Qed.
Lemma free_timer_ok p n w : tw_nodes w !! p = Some n ->
  free_timer p w = (tw_with_log (tw_freed w ++ [tn_id n]) (tw_fired w)
    (tw_with_nodes (<[p := tn_with_state TIMER_STATE_NONE n]> (tw_nodes w)) w), Ok tt).
Proof.
  intros H. unfold free_timer. rewrite (M_bind_ok _ _ _ _ _ (tw_set_ok _ _ _ _ H)).
  erewrite M_bind_ok; [|apply tw_node_ok; simpl; apply lookup_insert_eq]. done.
Qed.

(** A node that runs once and is waiting to. *)
Definition once_timer (h : nodes) (p : Z) : Prop :=
  exists n, h !! p = Some n /\ tn_state n = TIMER_STATE_ACTIVE /\ tn_repeats n = 1.
Definition timer_id (h : nodes) (p : Z) : Z := default 0 (tn_id <$> h !! p).

(** One node of the slot: it runs, and is freed whatever its handler says. *)
Lemma handle_one handler al kept x rest w :
  dll (tw_nodes w) al (kept ++ x :: rest) -> once_timer (tw_nodes w) x ->
  exists al' kept' w', (n ← tw_node x;
    (if bool_decide (tn_state n = TIMER_STATE_ACTIVE) then
       modify (fun w => tw_with_log (tw_freed w) (tw_fired w ++ [x]) w);;
       if handler x : bool then
         w ← get;
         r ← lift (tl_pop x al (tw_nodes w));
         put (tw_with_nodes r.2 w);;
         n ← tw_node x;
         let repeats := if tn_repeats n >? 0 then tn_repeats n - 1 else tn_repeats n in
         tw_set x (tn_with_run repeats (tn_nexttime n));;
         (if repeats =? 0 then free_timer x
          else tw_set x (fun n => tn_with_run (tn_repeats n) (s64 (tn_nexttime n + tn_timeout n)) n);;
               readd_timer x);;
         mret r.1
       else free_timer x;; mret al
     else mret al)) w = (w', Ok al') /\
    dll (tw_nodes w') al' (kept' ++ rest) /\ tw_fired w' = tw_fired w ++ [x] /\
    tw_freed w' = tw_freed w ++ [timer_id (tw_nodes w) x] /\ tw_near_slots w' = tw_near_slots w /\
    (forall y, y ∈ rest -> unlinked <$> tw_nodes w' !! y = unlinked <$> tw_nodes w !! y).
Proof.
  intros Hd (n & Hn & Hact & Hrep).
  assert (Hxr : forall y, y ∈ rest -> y <> x).
  { intros y Hy ->. pose proof (dll_NoDup _ _ _ Hd) as Hnd. apply NoDup_app in Hnd as (_ & _ & Hnd).
    by apply NoDup_cons in Hnd as [? _]. }
  rewrite (M_bind_ok _ _ _ _ _ (tw_node_ok _ _ _ Hn)), bool_decide_true by done.
  set (w1 := tw_with_log (tw_freed w) (tw_fired w ++ [x]) w).
  rewrite (M_bind_ok _ _ w w1 tt) by done. unfold timer_id. rewrite Hn. cbn [fmap option_fmap option_map default].
  destruct (handler x).
  - destruct (tl_pop_ok x al (tw_nodes w1) kept rest Hd) as (al' & h' & E & Hd' & Hr).
    destruct (relinked_node _ _ _ _ _ Hr Hn) as (n' & Hn' & Hun).
    assert (Hid : tn_id n' = tn_id n /\ tn_repeats n' = 1).
    { unfold unlinked, tn_with_prev, tn_with_next in Hun. injection Hun. intros. simpl in *.
      split; congruence. }
    destruct Hid as [Hid Hrep'].
    rewrite M_get, (M_bind_ok _ _ w1 w1 (al', h')) by (unfold lift; by rewrite E).
    rewrite (M_bind_ok _ _ w1 (tw_with_nodes h' w1) tt) by done.
    rewrite (M_bind_ok _ _ _ _ _ (tw_node_ok x n' (tw_with_nodes h' w1) Hn')). cbv zeta.
    rewrite Hrep'. change (if 1 >? 0 then 1 - 1 else 1) with 0.
    rewrite (M_bind_ok _ _ _ _ _ (tw_set_ok x n' _ (tw_with_nodes h' w1) Hn')).
    change (0 =? 0) with true. cbv iota.
    set (n2 := tn_with_run 0 (tn_nexttime n') n').
    rewrite (M_bind_ok _ _ _ _ _ (free_timer_ok x n2 (tw_with_nodes (<[x := n2]> h') w1)
      ltac:(simpl; apply lookup_insert_eq))).
    eexists al', kept, _. split; [done|]. simpl. rewrite insert_insert_eq, Hid.
    split; [|split; [done|split; [done|split; [done|]]]].
    + by apply (dll_data _ _ _ _ n').
    + intros y Hy. rewrite lookup_insert_ne by (apply not_eq_sym; auto). by destruct Hr as [-> _].
  - rewrite (M_bind_ok _ _ _ _ _ (free_timer_ok x n w1 Hn)).
    eexists al, (kept ++ [x]), _. split; [done|]. simpl.
    split; [|split; [done|split; [done|split; [done|]]]].
    + rewrite <- app_assoc. by apply (dll_data _ _ _ _ n).
    + intros y Hy. rewrite lookup_insert_ne; [done|]. by apply not_eq_sym, Hxr.
Qed.

Lemma once_timer_unlinked h h' y : unlinked <$> h' !! y = unlinked <$> h !! y ->
  once_timer h y -> once_timer h' y /\ timer_id h' y = timer_id h y.
Proof.
  intros E (n & Hn & Hs & Hr). rewrite Hn in E. unfold once_timer, timer_id. rewrite Hn.
  destruct (h' !! y) as [n'|]; [|done]. cbn [fmap option_fmap option_map] in E.
  apply (inj Some) in E. unfold unlinked, tn_with_prev, tn_with_next in E. injection E. intros.
  simpl in *. split; [exists n'; split_and!; congruence|congruence].
Qed.

Lemma handle_loop_once handler todo al kept t w :
  dll (tw_nodes w) al (kept ++ todo) -> (todo <> [] -> t = hd 0 todo) ->
  Forall (once_timer (tw_nodes w)) todo ->
  exists w', handle_loop handler (length todo) al t w = (w', Ok tt) /\
    tw_fired w' = tw_fired w ++ todo /\
    tw_freed w' = tw_freed w ++ (timer_id (tw_nodes w) <$> todo) /\
    tw_near_slots w' = tw_near_slots w.
Proof.
  revert al kept t w. induction todo as [|x todo IH]; intros al kept t w Hd Ht Hall.
  { exists w. simpl. by rewrite !app_nil_r. }
  apply Forall_cons in Hall as [Hx Hall]. rewrite (Ht ltac:(done)). cbn [hd length handle_loop].
  destruct Hx as (n & Hn & Hx).
  destruct (handle_one handler al kept x todo w Hd ltac:(by exists n))
    as (al' & kept' & w1 & E & Hd1 & Hf1 & Hr1 & Hs1 & Hrest).
  assert (Forall (once_timer (tw_nodes w1)) todo /\
    timer_id (tw_nodes w1) <$> todo = timer_id (tw_nodes w) <$> todo) as [Hall1 Hids].
  { clear -Hall Hrest. induction Hall as [|y k Hy Hk IH]; [done|].
    destruct (once_timer_unlinked _ _ y (Hrest y ltac:(left)) Hy) as [H1 H2].
    destruct IH as [IH1 IH2]; [intros z Hz; apply Hrest; by right|].
    split; [by constructor|]. by rewrite !fmap_cons, H2, IH2. }
  destruct (IH al' kept' (tn_next n) w1 Hd1) as (w2 & E2 & Hf2 & Hr2 & Hs2); [|done|].
  { intros Hne. destruct todo as [|y k]; [done|]. simpl.
    pose proof (dll_next _ _ _ _ _ _ Hd) as Hy. unfold nx in Hy. by rewrite Hn in Hy. }
  exists w2. split; [|rewrite Hf2, Hf1, Hr2, Hr1, Hids, <- !app_assoc, Hs2, Hs1; done].
  rewrite (M_bind_ok _ _ _ _ _ (tw_node_ok _ _ _ Hn)). cbv zeta.
  rewrite (M_bind_ok _ _ _ _ _ (tw_node_ok _ _ _ Hn)) in E.
  by rewrite (M_bind_ok _ _ _ _ _ E).
Qed.

(** ** Properties *)

(** C29 — The circular list is a list: on a well-formed list [push_back] of a
    node outside it adds the node at the end, [pop] of any node in it takes
    that node out, and both leave every other node and every field but the
    links as they were. *)
Theorem timerlist_refines t l h xs1 xs2 :
  (dll h l xs1 -> t ∉ xs1 -> t <> 0 -> is_Some (h !! t) -> len xs1 + 1 < 2 ^ 64 ->
   exists l' h', tl_push_back t l h = Ok (l', h') /\ dll h' l' (xs1 ++ [t]) /\ relinked (t :: xs1) h h') /\
  (dll h l (xs1 ++ t :: xs2) ->
   exists l' h', tl_pop t l h = Ok (l', h') /\ dll h' l' (xs1 ++ xs2) /\
     relinked (xs1 ++ t :: xs2) h h').
Proof. split; [apply tl_push_back_ok|apply tl_pop_ok]. Qed.

(** C30 — A slot of one-shot timers is run completely and in order: each timer's
    handler is called exactly once, each identifier goes back to the pool
    whatever the handler answers, and the slot is left empty. *)
Theorem handle_timer_once handler w xs :
  let k := tw_tickcount w mod NEAR_SLOTS in
  dll (tw_nodes w) (near_slot k w) xs -> Forall (once_timer (tw_nodes w)) xs ->
  exists w', handle_timer handler w = (w', Ok tt) /\ near_slot k w' = tl_empty /\
    tw_fired w' = tw_fired w ++ xs /\ tw_freed w' = tw_freed w ++ (timer_id (tw_nodes w) <$> xs).
Proof.
  intros k Hd Hall. unfold handle_timer. rewrite M_get. fold k. cbv zeta.
  set (w1 := tw_with_near (<[k := tl_empty]> (tw_near_slots w)) w).
  rewrite (M_bind_ok _ _ w w1 tt) by done.
  assert (Z.to_nat (tl_count (near_slot k w)) = length xs /\
    (xs <> [] -> tl_head (near_slot k w) = hd 0 xs)) as [-> Hhd].
  { destruct xs as [|p l]; [simpl in Hd; by rewrite Hd|]. destruct Hd as (-> & _). simpl.
    split; [unfold len; simpl; lia|done]. }
  destruct (handle_loop_once handler xs (near_slot k w) [] (tl_head (near_slot k w)) w1 Hd Hhd Hall)
    as (w' & E & Hf & Hr & Hs).
  exists w'. split; [done|]. unfold near_slot. rewrite Hs. simpl.
  by rewrite lookup_insert_eq.
Qed.

(** Two one-shot timers in slot 7. *)
Definition two_timers : timewheel :=
  mk_wheel false {[ 7 := mk_tl 101 2 ]} tl_empty 7 1 false (fun _ => tl_empty)
    {[ 101 := mk_node 1 5 7 1 TIMER_STATE_ACTIVE 102 102;
       102 := mk_node 2 5 7 1 TIMER_STATE_ACTIVE 101 101 ]} [] [].

Lemma two_timers_dll : dll (tw_nodes two_timers) (mk_tl 101 2) [101; 102].
Proof.
  split; [done|]. split; [done|]. split; [apply NoDup_cons; split; [by rewrite list_elem_of_singleton|apply NoDup_singleton]|]. split.
  - intros x Hx. apply elem_of_cons in Hx as [->|Hx]; [|apply list_elem_of_singleton in Hx as ->];
      (split; [by eexists|done]).
  - intros u v Huv. apply elem_of_cons in Huv as [E|Huv]; [by simplify_eq|].
    apply list_elem_of_singleton in Huv. by simplify_eq.
Defined.

Lemma timerlist_refines_witness :
  exists l' h', tl_pop 101 (mk_tl 101 2) (tw_nodes two_timers) = Ok (l', h') /\
    dll h' l' [102] /\ relinked [101; 102] (tw_nodes two_timers) h'.
Proof.
  destruct (timerlist_refines 101 (mk_tl 101 2) (tw_nodes two_timers) [] [102]) as [_ H].
  exact (H two_timers_dll).
Defined.

Lemma handle_timer_once_witness :
  exists w', handle_timer (fun p => p =? 101) two_timers = (w', Ok tt) /\
    near_slot 7 w' = tl_empty /\ tw_fired w' = [101; 102] /\ tw_freed w' = [1; 2].
Proof.
  apply (handle_timer_once (fun p => p =? 101) two_timers [101; 102] two_timers_dll).
  repeat constructor; eexists; by split_and!.
Defined.

(** Deleting an active timer goes wrong.  [del_timer] links the node into
    the change list while it is in its slot: a slot of several timers is no
    longer a list, whatever nodes are supposed to be in it.  And
    [remove_timer] looks for a near timer in the slot of its remaining time
    instead of the slot it was put in: when that slot is empty, an assertion
    fails. *)
Theorem del_timer_broken t w n :
  tw_nodes w !! t = Some n -> tn_state n = TIMER_STATE_ACTIVE -> t <> 0 ->
  (tw_changelist w (negb (tw_frontidx w)) = tl_empty ->
   exists w', tw_del_timer (Some t) w = (w', Ok false) /\ tw_near_slots w' = tw_near_slots w /\
     forall l xs, t ∈ xs -> 2 <= len xs -> ~ dll (tw_nodes w') l xs) /\
  (0 < ticks_left n w < NEAR_SLOTS -> near_slot (remove_slot_of n w) w = tl_empty ->
   remove_timer t w = (w, Fault (AssertFail "head"))).
Proof.
  intros Hn Hs Ht0. split.
  - intros Hc. unfold tw_del_timer. rewrite (M_bind_ok _ _ _ _ _ (tw_node_ok _ _ _ Hn)).
    rewrite bool_decide_true by done.
    rewrite (M_bind_ok _ _ _ _ _ (tw_set_ok t n _ w Hn)).
    unfold add_to_changelist, on_change, on_list. mrun. cbn [tw_frontidx tw_with_nodes tw_changelist tw_nodes].
    rewrite Hc. unfold tl_push_back, set_node, node_at. change (tl_head tl_empty =? 0) with true. cbv iota zeta.
    mrun. rewrite lookup_insert_eq, insert_insert_eq, lookup_insert_eq, insert_insert_eq.
    eexists. split; [done|]. split; [done|]. cbn [tw_nodes tw_with_change tw_with_nodes].
    set (h' := <[t := _]> (tw_nodes w)).
    assert (Hnx : nx h' t = t) by (unfold nx, h'; by rewrite lookup_insert_eq).
    intros l xs Hin Hlen Hd. pose proof (dll_NoDup _ _ _ Hd) as Hnd.
    apply list_elem_of_split in Hin as (xs1 & xs2 & ->). destruct xs2 as [|y xs2].
    + destruct xs1 as [|p k]; [done|].
      assert (Hpt : nx h' t = p).
      { destruct Hd as (_ & _ & _ & _ & Hlk). assert (Hin : (t, p) ∈ path p (k ++ [t]) p).
        { rewrite path_app. apply elem_of_app. right. left. }
        by destruct (Hlk _ _ Hin). }
      rewrite Hnx in Hpt. subst p. apply NoDup_cons in Hnd as [Hnd _]. apply Hnd, elem_of_app.
      right. left.
    + pose proof (dll_next _ _ _ _ _ _ Hd) as Hy. rewrite Hnx in Hy. subst y.
      apply NoDup_app in Hnd as (_ & _ & Hnd). apply NoDup_cons in Hnd as [Hnd _]. apply Hnd. left.
  - intros Hleft Hslot. unfold remove_timer. rewrite (M_bind_ok _ _ _ _ _ (tw_node_ok _ _ _ Hn)).
    rewrite M_get. destruct (Z.geb_spec (ticks_left n w) NEAR_SLOTS); [lia|].
    assert (Hr : 0 <= remove_slot_of n w < NEAR_SLOTS).
    { unfold remove_slot_of. destruct (_ >? 0); apply Z.mod_pos_bound; done. }
    unfold on_near. destruct (Z.leb_spec 0 (remove_slot_of n w)); [|lia].
    destruct (Z.ltb_spec (remove_slot_of n w) NEAR_SLOTS); [|lia]. simpl.
    unfold on_list. mrun. by rewrite Hslot.
Qed.

(** The two timers of slot 7, at tick 3. *)
Definition del_demo : timewheel := tw_with_tick 3 two_timers.

Lemma del_timer_broken_witness :
  (exists w', tw_del_timer (Some 101) del_demo = (w', Ok false) /\
    tw_near_slots w' = tw_near_slots del_demo /\ ~ dll (tw_nodes w') (mk_tl 101 2) [101; 102]) /\
  remove_timer 101 del_demo = (del_demo, Fault (AssertFail "head")).
Proof.
  destruct (del_timer_broken 101 del_demo (mk_node 1 5 7 1 TIMER_STATE_ACTIVE 102 102) eq_refl eq_refl
    ltac:(done)) as [H1 H2].
  split.
  - destruct (H1 eq_refl) as (w' & E & Hs & H). exists w'. split; [exact E|]. split; [exact Hs|].
    apply H; [left|vm_compute; discriminate].
  - apply H2; [vm_compute; split; reflexivity|reflexivity].
Defined.

(** A repeating timer shorter than one tick is lost.  [add_timer] gives it
    a timeout of no ticks; once its slot has come round with the count past
    its time, [readd_timer] (whose subtraction is unsigned) puts it among the
    far timers, and its remaining time never again counts as near. *)
Theorem subtick_timer_lost w t n d :
  tw_nodes w !! t = Some n -> 0 <= tn_nexttime n < tw_tickcount w -> 0 <= d ->
  tw_tickcount w + d < 2 ^ 63 ->
  readd_timer t w = (on_hanging (tl_push_back t);; tw_set t (tn_with_state TIMER_STATE_ACTIVE)) w /\
  ticks_left n (tw_with_tick (tw_tickcount w + d) w) >= NEAR_SLOTS /\
  (forall timeout, tw_ticktime w > 0 -> 0 <= timeout < tw_ticktime w ->
     Z.quot timeout (tw_ticktime w) = 0).
Proof.
  intros Hn Hlate Hd Hmax.
  assert (Hleft : forall e, 0 <= e -> tw_tickcount w + e < 2 ^ 63 ->
    ticks_left n (tw_with_tick (tw_tickcount w + e) w) >= NEAR_SLOTS).
  { intros e He Hem. unfold ticks_left. cbn [tw_tickcount tw_with_tick].
    replace (tn_nexttime n - (tw_tickcount w + e))
      with (2 ^ 64 + tn_nexttime n - tw_tickcount w - e + (-1) * 2 ^ 64) by lia.
    rewrite wrapU_add, wrapU_small by (unfold inU; lia). unfold NEAR_SLOTS. lia. }
  split; [|split; [by apply Hleft|intros; apply Z.quot_small; lia]].
  unfold readd_timer. rewrite (M_bind_ok _ _ _ _ _ (tw_node_ok _ _ _ Hn)), M_get.
  specialize (Hleft 0 ltac:(lia) ltac:(lia)).
  change (ticks_left n (tw_with_tick (tw_tickcount w + 0) w))
    with (u64 (tn_nexttime n - (tw_tickcount w + 0))) in Hleft. rewrite Z.add_0_r in Hleft.
  fold (ticks_left n w) in Hleft. destruct (Z.geb_spec (ticks_left n w) NEAR_SLOTS); [done|lia].
Qed.

Lemma subtick_timer_lost_witness :
  readd_timer 101 (tw_with_tick 4103 two_timers)
  = (on_hanging (tl_push_back 101);; tw_set 101 (tn_with_state TIMER_STATE_ACTIVE))
      (tw_with_tick 4103 two_timers) /\
  ticks_left (mk_node 1 5 7 1 TIMER_STATE_ACTIVE 102 102) (tw_with_tick 1000000 two_timers) >= NEAR_SLOTS.
Proof.
  assert (H1 : 0 <= 7 < 4103) by lia. assert (H2 : 4103 + 995897 < 2 ^ 63) by done.
  destruct (subtick_timer_lost (tw_with_tick 4103 two_timers) 101
    (mk_node 1 5 7 1 TIMER_STATE_ACTIVE 102 102) 995897 eq_refl H1 ltac:(done) H2) as (H3 & H4 & _).
  split; [exact H3|exact H4].
Defined.
