(* ===== verification/Rpc.v ===== *)
(** Remote calls (io/rpc.h, io/rpc.cpp): the wire format with its reversal of
    roles, the table of pending calls, replies, proxied calls and timeouts.
    Objects live in a heap; an address is never used twice, so that an access
    to a deleted object is seen as such. *)

From S2P Require Import Prelude Octets Varint Marshal.

Section Rpc.
Context {A R : Type} `{!Marshal A, !Marshal R}.

(** [A] and [R] are the classes of the argument and of the result.  The objects
    behind [_argument] and [_result] have one owner, hence are values. *)
Record rpc := mk_rpc {
  rp_traceid : Z;
  rp_proxy_traceid : Z;
  rp_is_server : bool;
  rp_argument : option A;
  rp_result : option R;
  rp_sid : Z;
  rp_manager : Z;
}.

Definition rpc_with_argument a (o : rpc) := mk_rpc (rp_traceid o) (rp_proxy_traceid o)
  (rp_is_server o) a (rp_result o) (rp_sid o) (rp_manager o).
Definition rpc_with_result r (o : rpc) := mk_rpc (rp_traceid o) (rp_proxy_traceid o)
  (rp_is_server o) (rp_argument o) r (rp_sid o) (rp_manager o).

Definition deref {S X} (x : option X) : M S X :=
  match x with Some v => mret v | None => fail (UB "null rpcdata") end.

(** [operator=] and the move constructor: [dup] copies, the move empties. *)
Definition rpc_assign (lhs rhs : rpc) : rpc :=
  mk_rpc (rp_traceid rhs) (rp_proxy_traceid rhs) (rp_is_server rhs)
    (rp_argument rhs) (rp_result rhs) (rp_sid rhs) (rp_manager rhs).
Definition rpc_move (other : rpc) : rpc * rpc :=
  (other, rpc_with_argument None (rpc_with_result None other)).

(** ** The wire format *)

Definition rpc_pack (o : rpc) : OS unit :=
  push_int U64 (rp_traceid o);;
  push_int Bool8 (if rp_is_server o then 1 else 0);;
  if rp_is_server o then r ← deref (rp_result o); push r
  else a ← deref (rp_argument o); push a.

(** A [bool] that holds neither value must not be read. *)
Definition rpc_unpack (o : rpc) : OS rpc :=
  traceid ← pop_int U64;
  b ← pop_int Bool8;
  if b >? 1 then fail (UB "invalid bool")
  else if b =? 0 then
    a ← deref (rp_argument o);
    a ← pop a;
    r ← deref (rp_result o);
    mret (mk_rpc traceid (rp_proxy_traceid o) true (Some a) (Some r) (rp_sid o) (rp_manager o))
  else
    r ← deref (rp_result o);
    r ← pop r;
    mret (mk_rpc traceid (rp_proxy_traceid o) false None (Some r) (rp_sid o) (rp_manager o)).

(** ** The table of pending calls *)

(** [re_sent], [re_client] and [re_timeout] record what was given to
    [send_protocol], to [client] and to [timeout], oldest first; [re_timers] the
    delay and the captured identifier of every timer that has not run. *)
Record rpc_env := mk_rpc_env {
  re_heap : gmap Z rpc;
  re_brk : Z;
  re_rpcs : gmap Z Z;
  re_next_traceid : Z;
  re_timers : list (Z * Z);
  re_sent : list (Z * rpc);
  re_client : list rpc;
  re_timeout : list rpc;
}.
Definition rpc_env_init : rpc_env := mk_rpc_env ∅ 1 ∅ 0 [] [] [] [].

Abbreviation E := (M rpc_env).

Definition re_with_heap h b (e : rpc_env) := mk_rpc_env h b (re_rpcs e) (re_next_traceid e)
  (re_timers e) (re_sent e) (re_client e) (re_timeout e).
Definition re_with_rpcs m n (e : rpc_env) := mk_rpc_env (re_heap e) (re_brk e) m n
  (re_timers e) (re_sent e) (re_client e) (re_timeout e).
Definition re_with_timers l (e : rpc_env) := mk_rpc_env (re_heap e) (re_brk e) (re_rpcs e)
  (re_next_traceid e) l (re_sent e) (re_client e) (re_timeout e).
Definition re_with_log s c t (e : rpc_env) := mk_rpc_env (re_heap e) (re_brk e) (re_rpcs e)
  (re_next_traceid e) (re_timers e) s c t.

Definition rpc_new (o : rpc) : E Z :=
  e ← get; put (re_with_heap (<[re_brk e := o]> (re_heap e)) (re_brk e + 1) e);; mret (re_brk e).
Definition rpc_at (p : Z) : E rpc := fun e =>
  (e, match re_heap e !! p with Some o => Ok o | None => Fault (UB "invalid rpc") end).
Definition rpc_store (p : Z) (f : rpc -> rpc) : E unit :=
  o ← rpc_at p; modify (fun e => re_with_heap (<[p := f o]> (re_heap e)) (re_brk e) e).
Definition rpc_delete (p : Z) : E unit :=
  rpc_at p;; modify (fun e => re_with_heap (delete p (re_heap e)) (re_brk e) e).

(** [_manager->send_protocol(_sid, o)]. *)
Definition rpc_send (o : rpc) : E unit :=
  if rp_manager o =? 0 then fail (UB "null session_manager")
  else modify (fun e => re_with_log (re_sent e ++ [(rp_sid o, o)]) (re_client e) (re_timeout e) e).

(** What a derived class supplies: [server] answers whether the call is passed
    on, and may change both objects. *)
Context (server : option A -> option R -> bool * option A * option R) (get_timeout : rpc -> Z).

(** [int] arithmetic must not overflow. *)
Definition set_timeout_timer (traceid timeout : Z) : E unit :=
  let ms := timeout * 1000 in
  if (- 2 ^ 31 <=? ms) && (ms <? 2 ^ 31)
  then modify (fun e => re_with_timers (re_timers e ++ [(ms, traceid)]) e)
  else fail (UB "signed overflow").

Definition set_request (p : Z) (is_proxy : bool) : E unit :=
  (if is_proxy
   then rpc_store p (fun o => mk_rpc (rp_traceid o) (rp_traceid o) (rp_is_server o)
          (rp_argument o) (rp_result o) (rp_sid o) (rp_manager o))
   else mret tt);;
  e ← get;
  let next := u64 (re_next_traceid e + 1) in
  put (re_with_rpcs (re_rpcs e) next e);;
  rpc_store p (fun o => mk_rpc next (rp_proxy_traceid o) false
    (rp_argument o) (rp_result o) (rp_sid o) (rp_manager o));;
  modify (fun e => match re_rpcs e !! next with
                   | Some _ => e
                   | None => re_with_rpcs (<[next := p]> (re_rpcs e)) next e
                   end);;
  o ← rpc_at p;
  let timeout := get_timeout o in
  set_timeout_timer (u64 (if timeout >? 0 then timeout else 30)) (s32 (rp_traceid o)).

Definition clr_request (p : Z) (is_proxy : bool) : E unit :=
  rpc_store p (fun o =>
    if is_proxy
    then mk_rpc (rp_proxy_traceid o) 0 true (rp_argument o) (rp_result o) (rp_sid o) (rp_manager o)
    else mk_rpc (rp_traceid o) (rp_proxy_traceid o) true (rp_argument o) (rp_result o)
           (rp_sid o) (rp_manager o)).

Definition do_server (p : Z) : E bool :=
  o ← rpc_at p;
  let '(again, a, r) := server (rp_argument o) (rp_result o) in
  rpc_store p (fun o => rpc_with_argument a (rpc_with_result r o));;
  mret again.
Definition do_client (p : Z) : E unit :=
  o ← rpc_at p; modify (fun e => re_with_log (re_sent e) (re_client e ++ [o]) (re_timeout e) e).
Definition do_timeout (p : Z) : E unit :=
  o ← rpc_at p; modify (fun e => re_with_log (re_sent e) (re_client e) (re_timeout e ++ [o]) e).

(** Look up and erase under the lock. *)
Definition take_rpc (traceid : Z) : E (option Z) :=
  e ← get;
  match re_rpcs e !! traceid with
  | Some q => put (re_with_rpcs (delete traceid (re_rpcs e)) (re_next_traceid e) e);; mret (Some q)
  | None => mret None
  end.

Definition rpc_run (p : Z) : E unit :=
  o ← rpc_at p;
  if rp_is_server o then
    again ← do_server p;
    if (again : bool) then set_request p true
    else o ← rpc_at p; rpc_send o
  else
    prpc ← take_rpc (rp_traceid o);
    match prpc with
    | None => mret tt
    | Some q =>
        c ← rpc_at q;
        rpc_store q (rpc_with_result (rp_result o));;
        rpc_store p (rpc_with_result (rp_result c));;
        c ← rpc_at q;
        (if rp_proxy_traceid c >? 0 then
           clr_request q true;;
           c ← rpc_at q;
           if negb (rp_manager c =? 0) && (rp_sid c >? 0) then rpc_send c else mret tt
         else do_client q);;
        rpc_delete q
    end.

(** [rpc::call(id, argument)]: nothing for an identifier without a stub. *)
Definition rpc_call (stub : option rpc) (argument : A) : E (option Z) :=
  match stub with
  | None => mret None
  | Some o =>
      p ← rpc_new (rpc_with_argument (Some argument) (rpc_with_result None o));
      set_request p false;;
      mret (Some p)
  end.

(** The handler of a timeout timer. *)
Definition rpc_on_timer (traceid : Z) : E unit :=
  prpc ← take_rpc traceid;
  match prpc with
  | Some q => do_timeout q;; rpc_delete q
  | None => mret tt
  end.

(** A timer of the list runs, in whatever order. *)
Definition rpc_fire (i : nat) : E unit :=
  e ← get;
  match re_timers e !! i with
  | Some (_, traceid) =>
      put (re_with_timers (take i (re_timers e) ++ drop (S i) (re_timers e)) e);;
      rpc_on_timer traceid
  | None => mret tt
  end.

(** What the session does with a decoded message: [run], then [delete]. *)
Definition rpc_deliver (o : rpc) : E unit :=
  p ← rpc_new o; rpc_run p;; rpc_delete p.

Inductive rpc_op :=
| OpCall (stub : rpc) (argument : A)
| OpDeliver (o : rpc)
| OpTimer (i : nat).

Definition rpc_step (op : rpc_op) : E unit :=
  match op with
  | OpCall stub a => rpc_call (Some stub) a;; mret tt
  | OpDeliver o => rpc_deliver o
  | OpTimer i => rpc_fire i
  end.
Fixpoint rpc_steps (ops : list rpc_op) : E unit :=
  match ops with
  | [] => mret tt
  | op :: ops => rpc_step op;; rpc_steps ops
  end.

End Rpc.

Arguments rpc A R : clear implicits.
Arguments rpc_env A R : clear implicits.
Arguments rpc_op A R : clear implicits.

(** ** Single operations *)

Section Laws.
Context {A R : Type} `{!Marshal A, !Marshal R}.
Context (server : option A -> option R -> bool * option A * option R) (get_timeout : rpc A R -> Z).

Implicit Types (e : rpc_env A R) (o c : rpc A R).

(** The largest identifier whose timer does not overflow. *)
Definition MAX_TRACEID : Z := 2147483.

(** Addresses in use are below the next one. *)
Definition heap_ok e : Prop := forall p o, re_heap e !! p = Some o -> p < re_brk e.

Lemma heap_ok_fresh e : heap_ok e -> re_heap e !! re_brk e = None.
Proof. intros H. destruct (_ !! _) as [o|] eqn:E; [|done]. apply H in E. lia. Qed.

Lemma rpc_at_ok e p o : re_heap e !! p = Some o -> rpc_at p e = (e, Ok o).
Proof. intros H. unfold rpc_at. by rewrite H. Qed.

Lemma rpc_store_ok e p o f : re_heap e !! p = Some o ->
  rpc_store p f e = (re_with_heap (<[p := f o]> (re_heap e)) (re_brk e) e, Ok tt).
Proof. intros H. unfold rpc_store. by rewrite (M_bind_ok _ _ _ _ _ (rpc_at_ok _ _ _ H)). Qed.

Lemma rpc_delete_ok e p o : re_heap e !! p = Some o ->
  rpc_delete p e = (re_with_heap (delete p (re_heap e)) (re_brk e) e, Ok tt).
Proof. intros H. unfold rpc_delete. by rewrite (M_bind_ok _ _ _ _ _ (rpc_at_ok _ _ _ H)). Qed.

Lemma take_rpc_eq e id :
  take_rpc id e = (re_with_rpcs (delete id (re_rpcs e)) (re_next_traceid e) e, Ok (re_rpcs e !! id)).
Proof.
  unfold take_rpc. rewrite M_get. destruct (_ !! id) eqn:E; [done|].
  rewrite delete_id by done. by destruct e.
Qed.

(** What an object looks like after [set_request] gave it the number [n]. *)
Definition requested (n : Z) (is_proxy : bool) o : rpc A R :=
  mk_rpc n (if is_proxy then rp_traceid o else rp_proxy_traceid o) false
    (rp_argument o) (rp_result o) (rp_sid o) (rp_manager o).

Definition timer_of (timeout n : Z) : Z * Z :=
  (n * 1000, u64 (if timeout >? 0 then timeout else 30)).

Lemma set_request_ok e p o is_proxy n :
  re_heap e !! p = Some o -> n = re_next_traceid e + 1 -> 0 < n <= MAX_TRACEID ->
  re_rpcs e !! n = None ->
  let o' := requested n is_proxy o in
  set_request get_timeout p is_proxy e =
    (mk_rpc_env (<[p := o']> (re_heap e)) (re_brk e) (<[n := p]> (re_rpcs e)) n
       (re_timers e ++ [timer_of (get_timeout o') n]) (re_sent e) (re_client e) (re_timeout e), Ok tt).
Proof.
  intros Hp Hn Hm Hr o'. unfold MAX_TRACEID in Hm. unfold set_request.
  set (o1 := if is_proxy then mk_rpc (rp_traceid o) (rp_traceid o) (rp_is_server o)
               (rp_argument o) (rp_result o) (rp_sid o) (rp_manager o) else o).
  rewrite (M_bind_ok _ _ _ (re_with_heap (<[p := o1]> (re_heap e)) (re_brk e) e) tt).
  2:{ destruct is_proxy; [by rewrite (rpc_store_ok _ _ o)|].
      unfold o1. rewrite insert_id by done. by destruct e. }
  rewrite M_get. cbn [re_next_traceid re_with_heap].
  rewrite <- Hn, (wrapU_small 64 n) by word_lia.
  unfold put at 1. unfold mbind at 1, M_bind at 1.
  rewrite (M_bind_ok _ _ _ _ _ (rpc_store_ok _ p o1 _ (lookup_insert_eq _ _ _))).
  cbn [re_heap re_brk re_with_heap re_with_rpcs]. rewrite insert_insert_eq.
  mrun. cbn [re_rpcs re_with_heap re_with_rpcs]. rewrite Hr.
  unfold rpc_at. cbn [re_heap re_brk re_with_heap re_with_rpcs]. rewrite lookup_insert_eq.
  unfold set_timeout_timer. cbn [rp_traceid].
  rewrite (wrapS_small 32 n) by (done || word_lia).
  rewrite (proj2 (Z.leb_le _ _)), (proj2 (Z.ltb_lt _ _)) by word_lia. cbn [andb].
  unfold o', requested, timer_of, o1. destruct is_proxy; done.
Qed.

Lemma rpc_call_ok e o a n :
  heap_ok e -> n = re_next_traceid e + 1 -> 0 < n <= MAX_TRACEID -> re_rpcs e !! n = None ->
  let o' := mk_rpc n (rp_proxy_traceid o) false (Some a) None (rp_sid o) (rp_manager o) in
  rpc_call get_timeout (Some o) a e =
    (mk_rpc_env (<[re_brk e := o']> (re_heap e)) (re_brk e + 1) (<[n := re_brk e]> (re_rpcs e)) n
       (re_timers e ++ [timer_of (get_timeout o') n]) (re_sent e) (re_client e) (re_timeout e),
     Ok (Some (re_brk e))).
Proof.
  intros Hh Hn Hm Hr o'. unfold rpc_call, rpc_new. mrun.
  match goal with |- context [set_request _ _ _ ?x] => set (e1 := x) end.
  pose proof (set_request_ok e1 (re_brk e) (rpc_with_argument (Some a) (rpc_with_result None o)) false n
    (lookup_insert_eq _ _ _) Hn Hm Hr) as ->.
  cbn. by rewrite insert_insert_eq.
Qed.

(** A reply. *)
Lemma reply_ok e o q c :
  heap_ok e -> rp_is_server o = false -> re_rpcs e !! rp_traceid o = Some q ->
  re_heap e !! q = Some c -> rp_proxy_traceid c <= 0 ->
  rpc_deliver server get_timeout o e =
    (mk_rpc_env (delete q (re_heap e)) (re_brk e + 1) (delete (rp_traceid o) (re_rpcs e))
       (re_next_traceid e) (re_timers e) (re_sent e)
       (re_client e ++ [rpc_with_result (rp_result o) c]) (re_timeout e), Ok tt).
Proof.
  intros Hh Hs Hq Hc Hx. pose proof (Hh _ _ Hc) as Hlt.
  unfold rpc_deliver, rpc_new. mrun. unfold rpc_run.
  rewrite (M_bind_ok _ _ _ _ _ (rpc_at_ok _ _ o (lookup_insert_eq _ _ _))). rewrite Hs.
  mrun. rewrite take_rpc_eq. cbn [re_rpcs re_with_heap]. rewrite Hq.
  unfold rpc_at at 1. cbn [re_heap re_with_heap re_with_rpcs].
  rewrite lookup_insert_ne, Hc by lia.
  rewrite (rpc_store_ok _ q c) by (cbn; rewrite lookup_insert_ne by lia; done).
  cbn [re_heap re_brk re_with_heap re_with_rpcs].
  rewrite (rpc_store_ok _ (re_brk e) o) by (cbn; rewrite lookup_insert_ne by lia; apply lookup_insert_eq).
  unfold rpc_at at 1. cbn [re_heap re_brk re_with_heap re_with_rpcs].
  rewrite lookup_insert_ne, lookup_insert_eq by lia. cbn [rp_proxy_traceid rpc_with_result].
  destruct (Z.gtb_spec (rp_proxy_traceid c) 0); [lia|].
  unfold do_client. mrun. unfold rpc_at at 1. cbn [re_heap re_brk re_with_heap re_with_rpcs].
  rewrite lookup_insert_ne, lookup_insert_eq by lia.
  rewrite (rpc_delete_ok _ q (rpc_with_result (rp_result o) c))
    by (cbn; rewrite lookup_insert_ne, lookup_insert_eq by lia; done).
  rewrite (rpc_delete_ok _ (re_brk e) (rpc_with_result (rp_result c) o))
    by (cbn; rewrite lookup_delete_ne, lookup_insert_eq by lia; done).
  unfold re_with_heap. cbn. f_equal. f_equal. apply map_eq. intros i.
  destruct (decide (i = re_brk e)) as [->|].
  { rewrite lookup_delete_eq, lookup_delete_ne by lia. by rewrite heap_ok_fresh. }
  rewrite lookup_delete_ne by done. destruct (decide (i = q)) as [->|]; [by rewrite !lookup_delete_eq|].
  by rewrite !lookup_delete_ne, !lookup_insert_ne by done.
Qed.

(** A reply nobody waits for, and a call served at once, change no table. *)
Lemma stray_ok e o :
  heap_ok e -> rp_is_server o = false -> re_rpcs e !! rp_traceid o = None ->
  rpc_deliver server get_timeout o e = (re_with_heap (re_heap e) (re_brk e + 1) e, Ok tt).
Proof.
  intros Hh Hs Hq. unfold rpc_deliver, rpc_new. mrun. unfold rpc_run.
  rewrite (M_bind_ok _ _ _ _ _ (rpc_at_ok _ _ o (lookup_insert_eq _ _ _))). rewrite Hs.
  mrun. rewrite take_rpc_eq. cbn [re_rpcs re_with_heap]. rewrite Hq, delete_id by done.
  rewrite (rpc_delete_ok _ _ o (lookup_insert_eq _ _ _)). cbn.
  rewrite delete_insert_id by (by apply heap_ok_fresh). done.
Qed.

Lemma served_ok e o a r :
  heap_ok e -> rp_is_server o = true -> server (rp_argument o) (rp_result o) = (false, a, r) ->
  rp_manager o <> 0 ->
  rpc_deliver server get_timeout o e =
    (mk_rpc_env (re_heap e) (re_brk e + 1) (re_rpcs e) (re_next_traceid e) (re_timers e)
       (re_sent e ++ [(rp_sid o, rpc_with_argument a (rpc_with_result r o))])
       (re_client e) (re_timeout e), Ok tt).
Proof.
  intros Hh Hs Hf Hm. unfold rpc_deliver, rpc_new. mrun. unfold rpc_run.
  rewrite (M_bind_ok _ _ _ _ _ (rpc_at_ok _ _ o (lookup_insert_eq _ _ _))). rewrite Hs.
  unfold do_server. mrun. rewrite (rpc_at_ok _ _ o (lookup_insert_eq _ _ _)). rewrite Hf.
  rewrite (rpc_store_ok _ _ o _ (lookup_insert_eq _ _ _)). cbn [re_heap re_brk re_with_heap].
  rewrite insert_insert_eq. unfold rpc_at at 1. cbn [re_heap re_with_heap]. rewrite lookup_insert_eq.
  unfold rpc_send. cbn [rp_manager rpc_with_argument rpc_with_result].
  destruct (Z.eqb_spec (rp_manager o) 0); [done|]. mrun.
  rewrite (rpc_delete_ok _ _ (rpc_with_argument a (rpc_with_result r o)) (lookup_insert_eq _ _ _)). cbn.
  rewrite delete_insert_id by (by apply heap_ok_fresh). done.
Qed.

(** A timer. *)
Lemma on_timer_ok e id q c :
  re_rpcs e !! id = Some q -> re_heap e !! q = Some c ->
  rpc_on_timer id e =
    (mk_rpc_env (delete q (re_heap e)) (re_brk e) (delete id (re_rpcs e)) (re_next_traceid e)
       (re_timers e) (re_sent e) (re_client e) (re_timeout e ++ [c]), Ok tt).
Proof.
  intros Hq Hc. unfold rpc_on_timer. mrun. rewrite take_rpc_eq, Hq.
  unfold do_timeout. mrun. rewrite (rpc_at_ok _ _ c) by done.
  by rewrite (rpc_delete_ok _ _ c).
Qed.

Lemma on_timer_none e id :
  re_rpcs e !! id = None -> rpc_on_timer id e = (e, Ok tt).
Proof.
  intros Hq. unfold rpc_on_timer. mrun. rewrite take_rpc_eq, Hq, delete_id by done. by destruct e.
Qed.

(** ** The invariant

    Every number given out is pending, answered or timed out, exactly one of
    them, and what is pending is alive. *)

Definition pending_ids e : list Z := (map_to_list (re_rpcs e)).*1.
Definition done_ids e : list Z :=
  (rp_traceid <$> re_client e) ++ (rp_traceid <$> re_timeout e).

Record rpc_inv e : Prop := {
  inv_heap : heap_ok e;
  inv_next : 0 <= re_next_traceid e;
  inv_pend : forall id q, re_rpcs e !! id = Some q ->
    exists c, re_heap e !! q = Some c /\ rp_traceid c = id /\ rp_proxy_traceid c <= 0;
  inv_ids : pending_ids e ++ done_ids e ≡ₚ seqZ 1 (re_next_traceid e);
}.

(** No call is passed on; see [proxied_call_dangles] for those. *)
Definition op_ok (op : rpc_op A R) : Prop :=
  match op with
  | OpCall stub _ => rp_proxy_traceid stub <= 0
  | OpDeliver o => rp_is_server o = false \/
      ((server (rp_argument o) (rp_result o)).1.1 = false /\ rp_manager o <> 0)
  | OpTimer _ => True
  end.
Definition is_call (op : rpc_op A R) : Z := match op with OpCall _ _ => 1 | _ => 0 end.
Definition calls (ops : list (rpc_op A R)) : Z := foldr (fun op n => is_call op + n) 0 ops.

Lemma pending_bound e id q : rpc_inv e -> re_rpcs e !! id = Some q -> 1 <= id <= re_next_traceid e.
Proof.
  intros Hi Hq. assert (id ∈ seqZ 1 (re_next_traceid e)) as Hin.
  { rewrite <- (inv_ids _ Hi). apply elem_of_app. left. unfold pending_ids.
    apply list_elem_of_fmap. exists (id, q). split; [done|]. by apply elem_of_map_to_list. }
  apply elem_of_seqZ in Hin. lia.
Qed.

Lemma pending_delete e id q :
  re_rpcs e !! id = Some q -> pending_ids e ≡ₚ id :: (map_to_list (delete id (re_rpcs e))).*1.
Proof. intros H. unfold pending_ids. by rewrite <- (map_to_list_delete _ _ _ H). Qed.

(** Removing a pending call and recording its object keeps the invariant. *)
Lemma finish_inv e id q c c' brk timers sent client timeout :
  rpc_inv e -> re_rpcs e !! id = Some q -> re_heap e !! q = Some c ->
  rp_traceid c' = rp_traceid c -> re_brk e <= brk ->
  (client = re_client e ++ [c'] /\ timeout = re_timeout e \/
   client = re_client e /\ timeout = re_timeout e ++ [c']) ->
  rpc_inv (mk_rpc_env (delete q (re_heap e)) brk (delete id (re_rpcs e)) (re_next_traceid e)
             timers sent client timeout).
Proof.
  intros [Hh Hn Hp Hi] Hq Hc Hc' Hb Hl.
  assert (rp_traceid c = id) as Hid by (destruct (Hp _ _ Hq) as (c2 & ? & ? & _); simplify_eq; done).
  split; cbn; [| |intros id' q'|].
  - unfold heap_ok. cbn. intros p o [_ Ho]%lookup_delete_Some. apply Hh in Ho. lia.
  - done.
  - intros [Hne Hq']%lookup_delete_Some. destruct (Hp _ _ Hq') as (c2 & ? & ? & ?).
    exists c2. rewrite lookup_delete_ne by (intros ->; simplify_eq). done.
  - rewrite <- Hi, (pending_delete _ _ _ Hq). unfold pending_ids, done_ids. cbn.
    destruct Hl as [[-> ->]|[-> ->]]; rewrite fmap_app; cbn; rewrite Hc', Hid; solve_Permutation.
Qed.

Lemma rpc_step_inv op e :
  rpc_inv e -> op_ok op -> re_next_traceid e + is_call op <= MAX_TRACEID ->
  exists e', rpc_step server get_timeout op e = (e', Ok tt) /\ rpc_inv e' /\
    re_next_traceid e' = re_next_traceid e + is_call op.
Proof.
  intros Hi Hok Hm. pose proof Hi as [Hh Hn Hp Hids]. destruct op as [stub a|o|i]; cbn in *.
  - assert (re_rpcs e !! (re_next_traceid e + 1) = None) as Hnone.
    { destruct (_ !! _) as [q|] eqn:Hq; [|done]. apply (pending_bound _ _ _ Hi) in Hq. lia. }
    rewrite (M_bind_ok _ _ _ _ _ (rpc_call_ok e stub a _ Hh eq_refl ltac:(lia) Hnone)).
    eexists. split; [done|]. split; [|done]. split; cbn; [|lia| |].
    + unfold heap_ok. cbn. intros p o [[-> _]|[_ Ho]]%lookup_insert_Some; [lia|]. apply Hh in Ho. lia.
    + intros id q [[<- <-]|[_ Hq]]%lookup_insert_Some; [rewrite lookup_insert_eq; eauto|].
      destruct (Hp _ _ Hq) as (c & Hc & ?). exists c.
      rewrite lookup_insert_ne by (apply Hh in Hc; lia). done.
    + unfold pending_ids, done_ids in *. cbn. rewrite map_to_list_insert by done. cbn.
      rewrite (seqZ_app 1 (re_next_traceid e) 1), <- Hids by lia.
      replace (seqZ (1 + re_next_traceid e) 1) with [1 + re_next_traceid e] by done.
      rewrite (Z.add_comm 1). solve_Permutation.
  - rewrite Z.add_0_r. destruct (rp_is_server o) eqn:Hs.
    + destruct Hok as [?|[Hf Hman]]; [done|].
      destruct (server _ _) as [[ag a] r] eqn:Hsv. cbn in Hf. subst ag.
      rewrite (served_ok e o a r) by done. eexists. split; [done|]. split; [|done].
      split; [|done..]. intros p x Hx. apply Hh in Hx. cbn. lia.
    + destruct (re_rpcs e !! rp_traceid o) as [q|] eqn:Hq.
      * destruct (Hp _ _ Hq) as (c & Hc & Ht & Hx). rewrite (reply_ok e o q c) by done.
        eexists. split; [done|]. split; [|done]. apply (finish_inv e _ _ c (rpc_with_result (rp_result o) c)); [done..|lia|by left].
      * rewrite stray_ok by done. eexists. split; [done|]. split; [|done].
        split; [|done..]. intros p x Hx. apply Hh in Hx. cbn. lia.
  - rewrite Z.add_0_r. unfold rpc_fire. rewrite M_get.
    destruct (re_timers e !! i) as [[ms id]|]; [|eexists; split; [done|]; done].
    mrun. match goal with |- context [rpc_on_timer id ?x] => set (e1 := x) end.
    assert (rpc_inv e1) as Hi1 by (split; done).
    destruct (re_rpcs e !! id) as [q|] eqn:Hq.
    + destruct (Hp _ _ Hq) as (c & Hc & Ht & Hx). rewrite (on_timer_ok e1 id q c) by done.
      eexists. split; [done|]. split; [|done]. apply (finish_inv e1 _ _ c c); [done..|by right].
    + rewrite (on_timer_none e1 id) by done. eexists. split; done.
Qed.

Lemma calls_nonneg ops : 0 <= calls ops.
Proof. unfold calls. induction ops as [|[] ops]; cbn [foldr is_call]; lia. Qed.

Lemma rpc_steps_inv ops e :
  rpc_inv e -> Forall op_ok ops -> re_next_traceid e + calls ops <= MAX_TRACEID ->
  exists e', rpc_steps server get_timeout ops e = (e', Ok tt) /\ rpc_inv e' /\
    re_next_traceid e' = re_next_traceid e + calls ops.
Proof.
  intros Hi Hf. revert e Hi. induction Hf as [|op ops Hop Hf IH]; intros e Hi Hm.
  { exists e. cbn. rewrite Z.add_0_r. done. }
  change (calls (op :: ops)) with (is_call op + calls ops) in *. cbn [rpc_steps].
  assert (0 <= calls ops) as Hc by apply calls_nonneg.
  destruct (rpc_step_inv op e Hi Hop ltac:(lia)) as (e1 & E1 & Hi1 & Hn1).
  destruct (IH e1 Hi1 ltac:(lia)) as (e2 & E2 & Hi2 & Hn2).
  exists e2. rewrite (M_bind_ok _ _ _ _ _ E1). split; [done|]. split; [done|lia].
Qed.

Lemma rpc_inv_init : rpc_inv rpc_env_init.
Proof.
  split; unfold heap_ok, rpc_env_init; cbn; [intros p o|done|intros id q|done];
    by rewrite lookup_empty.
Qed.

(** A call passed on: the object waits under a new number, its own number and
    its role set aside. *)
Lemma pass_on_ok e p o a r n :
  re_heap e !! p = Some o -> rp_is_server o = true ->
  server (rp_argument o) (rp_result o) = (true, a, r) ->
  n = re_next_traceid e + 1 -> 0 < n <= MAX_TRACEID -> re_rpcs e !! n = None ->
  let o' := requested n true (rpc_with_argument a (rpc_with_result r o)) in
  rpc_run server get_timeout p e =
    (mk_rpc_env (<[p := o']> (re_heap e)) (re_brk e) (<[n := p]> (re_rpcs e)) n
       (re_timers e ++ [timer_of (get_timeout o') n]) (re_sent e) (re_client e) (re_timeout e), Ok tt).
Proof.
  intros Hp Hs Hf Hn Hm Hr o'. unfold rpc_run.
  rewrite (M_bind_ok _ _ _ _ _ (rpc_at_ok _ _ _ Hp)), Hs.
  rewrite (M_bind_ok _ _ _ (re_with_heap (<[p := rpc_with_argument a (rpc_with_result r o)]> (re_heap e))
    (re_brk e) e) true).
  2:{ unfold do_server. rewrite (M_bind_ok _ _ _ _ _ (rpc_at_ok _ _ _ Hp)), Hf.
      by rewrite (M_bind_ok _ _ _ _ _ (rpc_store_ok _ _ _ _ Hp)). }
  rewrite (set_request_ok _ p (rpc_with_argument a (rpc_with_result r o)) true n); try done.
  - cbn. by rewrite insert_insert_eq.
  - apply lookup_insert_eq.
Qed.

(** The reply to a call that was passed on goes back to its caller. *)
Lemma proxy_reply_ok e o q c :
  heap_ok e -> rp_is_server o = false -> re_rpcs e !! rp_traceid o = Some q ->
  re_heap e !! q = Some c -> 0 < rp_proxy_traceid c -> rp_manager c <> 0 -> 0 < rp_sid c ->
  rpc_deliver server get_timeout o e =
    (mk_rpc_env (delete q (re_heap e)) (re_brk e + 1) (delete (rp_traceid o) (re_rpcs e))
       (re_next_traceid e) (re_timers e)
       (re_sent e ++ [(rp_sid c, mk_rpc (rp_proxy_traceid c) 0 true (rp_argument c) (rp_result o)
                                   (rp_sid c) (rp_manager c))])
       (re_client e) (re_timeout e), Ok tt).
Proof.
  intros Hh Hs Hq Hc Hx Hman Hsid. pose proof (Hh _ _ Hc) as Hlt.
  unfold rpc_deliver, rpc_new. mrun. unfold rpc_run.
  rewrite (M_bind_ok _ _ _ _ _ (rpc_at_ok _ _ o (lookup_insert_eq _ _ _))). rewrite Hs.
  mrun. rewrite take_rpc_eq. cbn [re_rpcs re_with_heap]. rewrite Hq.
  unfold rpc_at at 1. cbn [re_heap re_with_heap re_with_rpcs].
  rewrite lookup_insert_ne, Hc by lia.
  rewrite (rpc_store_ok _ q c) by (cbn; rewrite lookup_insert_ne by lia; done).
  cbn [re_heap re_brk re_with_heap re_with_rpcs].
  rewrite (rpc_store_ok _ (re_brk e) o) by (cbn; rewrite lookup_insert_ne by lia; apply lookup_insert_eq).
  unfold rpc_at at 1. cbn [re_heap re_brk re_with_heap re_with_rpcs].
  rewrite lookup_insert_ne, lookup_insert_eq by lia. cbn [rp_proxy_traceid rpc_with_result].
  destruct (Z.gtb_spec (rp_proxy_traceid c) 0); [|lia].
  unfold clr_request. rewrite (rpc_store_ok _ q (rpc_with_result (rp_result o) c))
    by (cbn; rewrite lookup_insert_ne, lookup_insert_eq by lia; done).
  unfold rpc_at at 1. cbn [re_heap re_brk re_with_heap re_with_rpcs].
  rewrite lookup_insert_eq. unfold rpc_send. cbn.
  destruct (Z.eqb_spec (rp_manager c) 0); [done|]. destruct (Z.gtb_spec (rp_sid c) 0); [|lia]. cbn.
  mrun. erewrite (rpc_delete_ok _ q) by (cbn; apply lookup_insert_eq). cbn.
  rewrite (rpc_delete_ok _ (re_brk e) (rpc_with_result (rp_result c) o))
    by (cbn; rewrite lookup_delete_ne, lookup_insert_ne, lookup_insert_eq by lia; done).
  unfold re_with_heap. cbn. f_equal. f_equal. apply map_eq. intros i.
  destruct (decide (i = re_brk e)) as [->|].
  { rewrite lookup_delete_eq, lookup_delete_ne by lia. by rewrite heap_ok_fresh. }
  rewrite lookup_delete_ne by done. destruct (decide (i = q)) as [->|]; [by rewrite !lookup_delete_eq|].
  by rewrite !lookup_delete_ne, !lookup_insert_ne by done.
Qed.

(** A reply whose pending entry names a deleted object. *)
Lemma dangling_fault e o q :
  heap_ok e -> rp_is_server o = false -> re_rpcs e !! rp_traceid o = Some q ->
  re_heap e !! q = None -> q < re_brk e ->
  (rpc_deliver server get_timeout o e).2 = Fault (UB "invalid rpc").
Proof.
  intros Hh Hs Hq Hc Hlt. unfold rpc_deliver, rpc_new. mrun. unfold rpc_run.
  rewrite (M_bind_ok _ _ _ _ _ (rpc_at_ok _ _ o (lookup_insert_eq _ _ _))). rewrite Hs.
  mrun. rewrite take_rpc_eq. cbn [re_rpcs re_with_heap]. rewrite Hq.
  unfold rpc_at at 1. cbn [re_heap re_with_heap re_with_rpcs].
  by rewrite lookup_insert_ne, Hc by lia.
Qed.

End Laws.

(** ** The wire format *)

Section Wire.
Context {A R : Type} `{!Marshal A, !Equiv A, !MarshalOk A, !Marshal R, !Equiv R, !MarshalOk R}.
Implicit Types o : rpc A R.

Definition rpc_wf o : Prop :=
  int_in U64 (rp_traceid o) = true /\
  if rp_is_server o then exists r, rp_result o = Some r /\ m_wf r
  else exists a, rp_argument o = Some a /\ m_wf a.

Definition rpc_payload o : list byte :=
  if rp_is_server o then from_option m_bytes [] (rp_result o)
  else from_option m_bytes [] (rp_argument o).
Definition rpc_bytes o : list byte :=
  varint (rp_traceid o) ++ [byte_of_Z (if rp_is_server o then 1 else 0)] ++ rpc_payload o.

(** What the stubs hold: default objects. *)
Definition rpc_stub o : Prop := rp_argument o = Some fresh /\ rp_result o = Some fresh.

(** What the other side makes of [o]. *)
Definition rpc_received (stub o o' : rpc A R) : Prop :=
  rp_traceid o' = rp_traceid o /\ rp_is_server o' = negb (rp_is_server o) /\
  rp_proxy_traceid o' = rp_proxy_traceid stub /\ rp_sid o' = rp_sid stub /\
  rp_manager o' = rp_manager stub /\
  if rp_is_server o then rp_argument o' = None /\ rp_result o' ≡ rp_result o
  else rp_argument o' ≡ rp_argument o /\ rp_result o' = Some fresh.

Lemma rpc_pack_pushes o : rpc_wf o -> pushes (rpc_pack o) (rpc_bytes o).
Proof.
  intros [Ht Hp]. unfold rpc_pack, rpc_bytes.
  eapply pushes_bind; [by apply (push_int_pushes U64)| |done].
  assert (pushes (push_int Bool8 (if rp_is_server o then 1 else 0))
            [byte_of_Z (if rp_is_server o then 1 else 0)]) as Hb
    by (apply (push_int_pushes Bool8); by destruct (rp_is_server o)).
  eapply pushes_bind; [exact Hb| |done]. unfold rpc_payload. clear Hb.
  destruct (rp_is_server o); destruct Hp as (x & -> & Hx); cbn; by apply m_push.
Qed.

Lemma rpc_unpack_pops o stub :
  rpc_wf o -> rpc_stub stub -> pops (rpc_unpack stub) (rpc_bytes o) (rpc_received stub o).
Proof.
  intros [Ht Hp] [Ha Hr]. unfold rpc_unpack, rpc_bytes.
  eapply pops_bind; [by apply (pop_int_pops U64)| |done]. intros ? <-.
  assert (pops (pop_int Bool8) [byte_of_Z (if rp_is_server o then 1 else 0)]
            (eq (if rp_is_server o then 1 else 0))) as Hb
    by (apply (pop_int_pops Bool8); by destruct (rp_is_server o)).
  eapply pops_bind; [exact Hb| |done]. intros ? <-. clear Hb.
  unfold rpc_payload, rpc_received. destruct (rp_is_server o); destruct Hp as (x & E & Hx);
    rewrite E, ?Ha, ?Hr; cbn.
  - eapply pops_map; [by apply m_pop|]. intros r Hr'. cbn. repeat split; try done. by constructor.
  - eapply pops_map; [by apply m_pop|]. intros a Ha'. cbn. repeat split; try done. by constructor.
Qed.

End Wire.

(** ** A concrete instance

    Argument and result are 32-bit integers; the server answers with the
    successor, and passes on what is negative. *)

Abbreviation demo_rpc := (rpc (cint I32) (cint I32)).
Definition demo_server (a r : option (cint I32)) : bool * option (cint I32) * option (cint I32) :=
  match a with
  | Some v => if v <? 0 then (true, a, r) else (false, a, Some (v + 1))
  | None => (false, a, r)
  end.
Definition demo_timeout (_ : demo_rpc) : Z := 30.
Definition demo_stub : demo_rpc := mk_rpc 0 0 false (Some 0) (Some 0) 0 0.
Definition demo_client (id v : Z) : demo_rpc := mk_rpc id 0 false (Some v) None 4 1.
Definition demo_request (id v : Z) : demo_rpc := mk_rpc id 0 true (Some v) (Some 0) 4 1.
Definition demo_reply (id v : Z) : demo_rpc := mk_rpc id 0 false None (Some v) 4 1.

Section Properties.
Context {A R : Type} `{!Marshal A, !Equiv A, !MarshalOk A, !Marshal R, !Equiv R, !MarshalOk R}.
Context (server : option A -> option R -> bool * option A * option R) (get_timeout : rpc A R -> Z).

(** What [unpack] makes of the bytes [pack] wrote: the same call number,
    the opposite role, and the argument (for the server) or the result (for the
    client); the rest comes from the stub. *)
Theorem rpc_wire_roundtrip (o stub : rpc A R) s bs :
  rpc_wf o -> rpc_stub stub -> os_repr s bs -> os_pos s = len bs ->
  len bs + len (rpc_bytes o) <= MAX_OCTETS ->
  exists s' s'' o',
    rpc_pack o s = (s', Ok tt) /\ os_repr s' (bs ++ rpc_bytes o) /\
    rpc_unpack stub s' = (s'', Ok o') /\ os_pos s'' = len bs + len (rpc_bytes o) /\
    rpc_received stub o o'.
Proof.
  intros Hw Hs Hr Hp Hm.
  destruct (pushes_repr _ _ s bs (rpc_pack_pushes o Hw) Hr Hm) as (s' & E & Hr' & Hp' & _).
  destruct (rpc_unpack_pops o stub Hw Hs s' bs []) as (o' & E' & Ho');
    [by rewrite app_nil_r|congruence|].
  exists s', (os_with_pos (len bs + len (rpc_bytes o)) s'), o'. done.
Qed.

(** C21 — When no call and no request is passed on: of the calls made and the
    replies, requests and timer runs that arrive in any order, none goes wrong, and each call made is answered once, timed
    out once, or still pending, and only one of them; for fewer than
    [MAX_TRACEID] calls and requests that are answered at once. *)
Theorem rpc_exactly_once (ops : list (rpc_op A R)) :
  Forall (op_ok server) ops -> calls ops <= MAX_TRACEID ->
  exists e, rpc_steps server get_timeout ops rpc_env_init = (e, Ok tt) /\
    pending_ids e ++ (rp_traceid <$> re_client e) ++ (rp_traceid <$> re_timeout e)
      ≡ₚ seqZ 1 (calls ops).
Proof.
  intros Hf Hc.
  destruct (rpc_steps_inv server get_timeout ops rpc_env_init rpc_inv_init Hf Hc)
    as (e & E & Hi & Hn).
  exists e. split; [done|]. rewrite (inv_ids _ Hi), Hn. done.
Qed.

(** A server that passes a call on sets number and role aside, and the
    reply under the new number, met while the object is alive, goes to the
    original caller with the original number and the result. *)
Theorem rpc_proxy_backtracks (e : rpc_env A R) p o a r reply n :
  heap_ok e -> re_heap e !! p = Some o -> rp_is_server o = true ->
  server (rp_argument o) (rp_result o) = (true, a, r) ->
  n = re_next_traceid e + 1 -> 0 < n <= MAX_TRACEID -> re_rpcs e !! n = None ->
  0 < rp_traceid o -> rp_manager o <> 0 -> 0 < rp_sid o ->
  rp_is_server reply = false -> rp_traceid reply = n ->
  exists e', (rpc_run server get_timeout p;; rpc_deliver server get_timeout reply) e = (e', Ok tt) /\
    re_sent e' = re_sent e ++
      [(rp_sid o, mk_rpc (rp_traceid o) 0 true a (rp_result reply) (rp_sid o) (rp_manager o))] /\
    re_rpcs e' = re_rpcs e /\ re_heap e' = delete p (re_heap e).
Proof.
  intros Hh Hp Hs Hf Hn Hm Hr Ht Hman Hsid Hrs Hrt.
  rewrite (M_bind_ok _ _ _ _ _ (pass_on_ok server get_timeout e p o a r n Hp Hs Hf Hn Hm Hr)).
  match goal with |- context [rpc_deliver _ _ reply ?x] => set (e1 := x) end.
  eexists. split.
  - apply (proxy_reply_ok server get_timeout e1 reply p
      (requested n true (rpc_with_argument a (rpc_with_result r o)))); try done.
    + unfold heap_ok. cbn. intros q c [[<- _]|[_ Hc]]%lookup_insert_Some; [by apply Hh in Hp|by apply Hh in Hc].
    + rewrite Hrt. apply lookup_insert_eq.
    + apply lookup_insert_eq.
  - cbn. rewrite Hrt, delete_insert_id, delete_insert_eq by done. done.
Qed.

(** The session deletes a message after its [run]: the table then names a
    deleted object for a call that was passed on, and its reply reads it. *)
Theorem proxied_call_dangles (e : rpc_env A R) o a r reply n :
  heap_ok e -> rp_is_server o = true ->
  server (rp_argument o) (rp_result o) = (true, a, r) ->
  n = re_next_traceid e + 1 -> 0 < n <= MAX_TRACEID -> re_rpcs e !! n = None ->
  rp_is_server reply = false -> rp_traceid reply = n ->
  exists e', rpc_deliver server get_timeout o e = (e', Ok tt) /\
    re_rpcs e' !! n = Some (re_brk e) /\ re_heap e' !! re_brk e = None /\
    (rpc_deliver server get_timeout reply e').2 = Fault (UB "invalid rpc").
Proof.
  intros Hh Hs Hf Hn Hm Hr Hrs Hrt.
  set (e1 := re_with_heap (<[re_brk e := o]> (re_heap e)) (re_brk e + 1) e).
  pose proof (pass_on_ok server get_timeout e1 (re_brk e) o a r n (lookup_insert_eq _ _ _) Hs Hf
    Hn Hm Hr) as E.
  unfold rpc_deliver at 1, rpc_new. mrun. fold e1. rewrite E.
  erewrite (rpc_delete_ok _ (re_brk e)) by (cbn; apply lookup_insert_eq).
  eexists. split; [done|]. cbn. split; [apply lookup_insert_eq|]. split; [apply lookup_delete_eq|].
  apply (dangling_fault _ _ _ _ (re_brk e)); cbn; try done.
  - unfold heap_ok. cbn. intros p c [Hne [[? _]|[_ Hc]]%lookup_insert_Some]%lookup_delete_Some; [lia|].
    apply lookup_insert_Some in Hc as [[? _]|[_ Hc]]; [lia|]. apply Hh in Hc. lia.
  - rewrite Hrt. apply lookup_insert_eq.
  - apply lookup_delete_eq.
  - lia.
Qed.

(** [set_timeout_timer] is given its arguments in the wrong order: call
    [n] gets a timer of [n] seconds that looks for the call numbered by the
    timeout.  When no such call is pending the timer removes nothing, and the
    number of seconds overflows from call [MAX_TRACEID + 1] on. *)
Theorem rpc_timer_swapped (e : rpc_env A R) o a n :
  heap_ok e -> n = re_next_traceid e + 1 -> re_rpcs e !! n = None -> rp_is_server o = false ->
  (0 < n <= MAX_TRACEID -> forall t, get_timeout (requested n false
       (rpc_with_argument (Some a) (rpc_with_result None o))) = t -> 0 < t < 2 ^ 31 ->
     exists e', rpc_call get_timeout (Some o) a e = (e', Ok (Some (re_brk e))) /\
       re_timers e' = re_timers e ++ [(n * 1000, t)] /\
       (re_rpcs e !! t = None -> t <> n -> rpc_on_timer t e' = (e', Ok tt) /\
          re_rpcs e' !! n = Some (re_brk e))) /\
  (MAX_TRACEID < n < 2 ^ 31 -> (rpc_call get_timeout (Some o) a e).2 = Fault (UB "signed overflow")).
Proof.
  intros Hh Hn Hr Hs. split.
  - intros Hm t Ht Hb. eexists. split; [by apply rpc_call_ok|]. cbn -[rpc_on_timer]. split.
    + f_equal. f_equal. unfold timer_of. unfold requested in Ht. cbn in Ht. rewrite Ht.
      destruct (Z.gtb_spec t 0); [|lia]. by rewrite wrapU_small by word_lia.
    + intros Hnt Hne. split; [|apply lookup_insert_eq].
      apply on_timer_none. cbn. by rewrite lookup_insert_ne.
  - intros Hm. unfold MAX_TRACEID in Hm.
    unfold rpc_call, rpc_new, set_request, rpc_store, rpc_at. mrun. cbn.
    repeat (rewrite lookup_insert_eq; cbn). rewrite <- Hn, (wrapU_small 64 n), Hr by word_lia. cbn.
    repeat (rewrite lookup_insert_eq; cbn). unfold set_timeout_timer.
    rewrite (wrapS_small 32 n) by (done || word_lia).
    destruct (Z.ltb_spec (n * 1000) (2 ^ 31)); [word_lia|]. by rewrite andb_false_r.
Qed.

End Properties.

(** ** Witnesses *)

Lemma heap_ok_init : heap_ok (A := cint I32) (R := cint I32) rpc_env_init.
Proof. exact (inv_heap _ rpc_inv_init). Qed.

Lemma rpc_wire_roundtrip_witness :
  exists s' s'' o',
    rpc_pack (demo_client 9 5) os_null = (s', Ok tt) /\
    os_repr s' ([] ++ rpc_bytes (demo_client 9 5)) /\
    rpc_unpack demo_stub s' = (s'', Ok o') /\
    os_pos s'' = len (@nil byte) + len (rpc_bytes (demo_client 9 5)) /\
    rpc_received demo_stub (demo_client 9 5) o'.
Proof.
  apply (rpc_wire_roundtrip (demo_client 9 5) demo_stub os_null []).
  - split; [done|]. by exists 5.
  - done.
  - exact os_null_repr.
  - done.
  - vm_compute. discriminate.
Defined.

Definition demo_ops : list (rpc_op (cint I32) (cint I32)) :=
  [OpCall demo_stub 7; OpCall demo_stub 8; OpDeliver (demo_reply 2 40); OpDeliver (demo_request 5 1);
   OpDeliver (demo_reply 2 41); OpTimer 0].

Lemma rpc_exactly_once_witness :
  Forall (op_ok demo_server) demo_ops /\
  exists e, rpc_steps demo_server demo_timeout demo_ops rpc_env_init = (e, Ok tt) /\
    pending_ids e ++ (rp_traceid <$> re_client e) ++ (rp_traceid <$> re_timeout e)
      ≡ₚ seqZ 1 (calls demo_ops).
Proof.
  assert (Forall (op_ok demo_server) demo_ops) as H.
  { repeat constructor; cbn; first [lia|by left|by right|done]. }
  split; [exact H|]. apply (rpc_exactly_once demo_server demo_timeout demo_ops H).
  vm_compute. discriminate.
Defined.

Definition demo_proxy : rpc_env (cint I32) (cint I32) :=
  re_with_heap {[1 := demo_request 9 (-5)]} 2 rpc_env_init.

Lemma rpc_proxy_backtracks_witness :
  exists e', (rpc_run demo_server demo_timeout 1;;
              rpc_deliver demo_server demo_timeout (demo_reply 1 44)) demo_proxy = (e', Ok tt) /\
    re_sent e' = re_sent demo_proxy ++ [(4, mk_rpc 9 0 true (Some (-5)) (Some 44) 4 1)] /\
    re_rpcs e' = re_rpcs demo_proxy /\ re_heap e' = delete 1 (re_heap demo_proxy).
Proof.
  apply (rpc_proxy_backtracks demo_server demo_timeout demo_proxy 1 (demo_request 9 (-5))
    (Some (-5)) (Some 0) (demo_reply 1 44) 1); try done.
  intros p o. unfold demo_proxy. cbn. intros [<- _]%lookup_singleton_Some. lia.
Defined.

Lemma proxied_call_dangles_witness :
  exists e', rpc_deliver demo_server demo_timeout (demo_request 9 (-5)) rpc_env_init = (e', Ok tt) /\
    re_rpcs e' !! 1 = Some 1 /\ re_heap e' !! 1 = None /\
    (rpc_deliver demo_server demo_timeout (demo_reply 1 44) e').2 = Fault (UB "invalid rpc").
Proof.
  apply (proxied_call_dangles demo_server demo_timeout rpc_env_init (demo_request 9 (-5))
    (Some (-5)) (Some 0) (demo_reply 1 44) 1); done.
Defined.

(** The first call: a timer of one second for call number 30. *)
Lemma rpc_timer_swapped_witness :
  exists e', rpc_call demo_timeout (Some demo_stub) 7 rpc_env_init = (e', Ok (Some 1)) /\
    re_timers e' = [(1000, 30)] /\ rpc_on_timer 30 e' = (e', Ok tt) /\ re_rpcs e' !! 1 = Some 1.
Proof.
  destruct (rpc_timer_swapped demo_timeout rpc_env_init demo_stub 7 1 heap_ok_init eq_refl eq_refl
    eq_refl) as [H _].
  destruct (H ltac:(by vm_compute) 30 eq_refl ltac:(by vm_compute)) as (e' & E1 & E2 & E3).
  exists e'. split; [exact E1|]. split; [exact E2|]. by apply E3.
Defined.
