(* ===== verification/ObjectPool.v ===== *)
(** The object pools (common/objectpool.h): the pool behind a spinlock, one
    operation at a time, and the lock-free pool, whose threads interleave at
    every access to shared memory.  Nodes are indices into the array. *)

From S2P Require Import Prelude.

Definition OBJECT_POOL_MAX : Z := 4194304.

(** ** Singly linked lists of nodes *)

Section Chains.
Context {N : Type} (next : N -> option Z).

(** [chain m h l]: from [h] the links of [m] run through the nodes [l]. *)
Fixpoint chain (m : gmap Z N) (h : option Z) (l : list Z) : Prop :=
  match l with
  | [] => h = None
  | i :: l => h = Some i /\ exists n, m !! i = Some n /\ chain m (next n) l
  end.

Lemma chain_insert_ne m h l i n : i ∉ l -> chain m h l -> chain (<[i := n]> m) h l.
Proof.
  revert h. induction l as [|j l IH]; intros h Hi; [done|]. cbn.
  apply not_elem_of_cons in Hi as [Hne Hi]. intros (-> & nj & Hj & Hc). split; [done|].
  exists nj. rewrite lookup_insert_ne by done. auto.
Qed.

Lemma chain_cons m h l i n :
  i ∉ l -> chain m h l -> next n = h -> chain (<[i := n]> m) (Some i) (i :: l).
Proof.
  intros Hi Hc Hn. cbn. split; [done|]. exists n. rewrite lookup_insert_eq, Hn.
  split; [done|]. by apply chain_insert_ne.
Qed.

End Chains.

(** The nodes of a fresh pool, each linked to the one behind it. *)
Definition fresh_nodes {N} (mk : option Z -> N) (cap : Z) : gmap Z N :=
  map_seqZ 0 ((fun i => mk (if i + 1 <? cap then Some (i + 1) else None)) <$> seqZ 0 cap).

Lemma fresh_lookup {N} (mk : option Z -> N) cap i :
  0 <= i < cap -> fresh_nodes mk cap !! i = Some (mk (if i + 1 <? cap then Some (i + 1) else None)).
Proof.
  intros Hi. unfold fresh_nodes. rewrite lookup_map_seqZ_0 by lia.
  rewrite list_lookup_fmap, lookup_seqZ_lt by lia. cbn. do 2 f_equal.
  by rewrite Z2Nat.id by lia.
Qed.

Lemma fresh_chain {N} (mk : option Z -> N) (next : N -> option Z) cap i :
  (forall h, next (mk h) = h) -> 0 <= i <= cap ->
  chain next (fresh_nodes mk cap) (if i <? cap then Some i else None) (seqZ i (cap - i)).
Proof.
  intros Hn. remember (Z.to_nat (cap - i)) as k eqn:Hk. revert i Hk.
  induction k as [|k IH]; intros i Hk Hi.
  { replace i with cap by lia. rewrite Z.sub_diag, Z.ltb_irrefl. done. }
  destruct (Z.ltb_spec i cap); [|lia]. rewrite seqZ_cons by lia. cbn. split; [done|].
  eexists. rewrite fresh_lookup, Hn by lia. split; [done|].
  replace (Z.pred (cap - i)) with (cap - Z.succ i) by lia. apply IH; lia.
Qed.

(** ** The pool behind a lock *)

Record object_node := mk_object_node { n_obj : option Z; n_next : option Z }.

(** [op_brk] is the next address [new T] gives, [op_deleted] what was deleted. *)
Record objectpool := mk_pool {
  op_pool : option (gmap Z object_node);
  op_free : option Z;
  op_size : Z;
  op_cap : Z;
  op_obj_map : gmap Z Z;
  op_brk : Z;
  op_deleted : list Z;
}.
Abbreviation P := (M objectpool).

Definition pool_null : objectpool := mk_pool None None 0 0 ∅ 1 [].

Definition objectpool_init (capacity : Z) : P unit :=
  s ← get;
  match op_pool s with
  | Some _ => mret tt
  | None =>
      if negb ((0 <? capacity) && (capacity <=? OBJECT_POOL_MAX)) then fail (AssertFail "capacity")
      else put (mk_pool (Some (fresh_nodes (mk_object_node None) capacity)) (Some 0) 0 capacity
                  (op_obj_map s) (op_brk s) (op_deleted s))
  end.

Definition pool_node (pool : gmap Z object_node) (i : option Z) : P object_node :=
  match i with
  | None => fail (UB "null node")
  | Some i => match pool !! i with Some n => mret n | None => fail (UB "node out of bounds") end
  end.

(** [{-1, nullptr}] is [None]. *)
Definition objectpool_alloc : P (option (Z * Z)) :=
  s ← get;
  match op_pool s with
  | None => mret None
  | Some pool =>
      if op_size s =? op_cap s then mret None
      else
        node ← pool_node pool (op_free s);
        let i := default 0 (op_free s) in
        match n_obj node with
        | None =>
            let obj := op_brk s in
            put (mk_pool (Some (<[i := mk_object_node (Some obj) (n_next node)]> pool)) (n_next node)
                   (u64 (op_size s + 1)) (op_cap s) (<[obj := i]> (op_obj_map s)) (op_brk s + 1)
                   (op_deleted s));;
            mret (Some (i, obj))
        | Some obj =>
            put (mk_pool (Some pool) (n_next node) (u64 (op_size s + 1)) (op_cap s)
                   (op_obj_map s) (op_brk s) (op_deleted s));;
            mret (Some (i, obj))
        end
  end.

(** Linking node [i] in front; [map] is what becomes of [_obj_map]. *)
Definition pool_put_front (i : Z) (map : gmap Z Z -> gmap Z Z) : P unit :=
  s ← get;
  match op_pool s with
  | None => fail (UB "null pool")
  | Some pool =>
      node ← pool_node pool (Some i);
      put (mk_pool (Some (<[i := mk_object_node (n_obj node) (op_free s)]> pool)) (Some i)
             (u64 (op_size s - 1)) (op_cap s) (map (op_obj_map s)) (op_brk s) (op_deleted s))
  end.

(** The two overloads of [free]: an object and an index. *)
Definition objectpool_free (obj : Z) : P unit :=
  s ← get;
  match op_obj_map s !! obj with
  | None => mret tt
  | Some objidx =>
      if negb ((0 <=? objidx) && (objidx <? op_cap s)) then mret tt
      else pool_put_front objidx (delete obj)
  end.
Definition objectpool_free_idx (objidx : Z) : P unit :=
  s ← get;
  if negb ((0 <=? objidx) && (objidx <? op_cap s)) then mret tt
  else
    match op_pool s with
    | None => fail (UB "null pool")
    | Some pool =>
        node ← pool_node pool (Some objidx);
        pool_put_front objidx (match n_obj node with Some o => delete o | None => id end)
    end.

(** The bound check lets [_cap] itself through. *)
Definition objectpool_find_object (objidx : Z) : P (option Z) :=
  s ← get;
  if objidx >? op_cap s then mret None
  else match op_pool s with
       | None => fail (UB "null pool")
       | Some pool => node ← pool_node pool (Some objidx); mret (n_obj node)
       end.
Definition objectpool_find_node (objidx : Z) (s : objectpool) : option Z :=
  if objidx >=? op_cap s then None else Some objidx.

(** The loop of [destroy] follows the links. *)
Fixpoint destroy_loop (k : nat) (node : option Z) (pool : gmap Z object_node) : P unit :=
  match k with
  | O => mret tt
  | S k =>
      n ← pool_node pool node;
      (match n_obj n with
       | Some o => modify (fun s => mk_pool (op_pool s) (op_free s) (op_size s) (op_cap s)
                     (op_obj_map s) (op_brk s) (op_deleted s ++ [o]))
       | None => mret tt
       end);;
      destroy_loop k (n_next n) (<[default 0 node := mk_object_node None (n_next n)]> pool)
  end.
Definition objectpool_destroy : P unit :=
  s ← get;
  match op_pool s with
  | None => mret tt
  | Some pool =>
      destroy_loop (Z.to_nat (op_cap s)) (Some 0) pool;;
      modify (fun s => mk_pool None None 0 0 ∅ (op_brk s) (op_deleted s))
  end.

(** ** The pool behind a lock: every node is free or in use *)

(** [used] are the indices given out. *)
Record pool_inv (s : objectpool) (used : list Z) : Prop := {
  pi_cap : 0 < op_cap s <= OBJECT_POOL_MAX;
  pi_size : op_size s = len used;
  pi_pool : exists pool free, op_pool s = Some pool /\
    chain n_next pool (op_free s) free /\
    (forall i, is_Some (pool !! i) <-> 0 <= i < op_cap s) /\
    free ++ used ≡ₚ seqZ 0 (op_cap s);
}.

Lemma len_perm {T} (l k : list T) : l ≡ₚ k -> len l = len k.
Proof. intros H. unfold len. by rewrite H. Qed.
Lemma len_seqZ m n : 0 <= n -> len (seqZ m n) = n.
Proof. intros. unfold len. rewrite length_seqZ. lia. Qed.

(** A partition of the indices: what it gives about one of them. *)
Lemma partition_in cap free used i :
  free ++ used ≡ₚ seqZ 0 cap -> i ∈ free \/ i ∈ used -> 0 <= i < cap.
Proof.
  intros Hp Hi. assert (i ∈ seqZ 0 cap) as H by (rewrite <- Hp; by apply elem_of_app).
  apply elem_of_seqZ in H. lia.
Qed.
Lemma partition_disj cap free used i :
  free ++ used ≡ₚ seqZ 0 cap -> i ∈ free -> i ∉ used.
Proof.
  intros Hp Hf Hu. assert (NoDup (free ++ used)) as Hn by (rewrite Hp; apply NoDup_seqZ).
  apply NoDup_app in Hn as (_ & H & _). by apply (H i).
Qed.

Lemma objectpool_init_inv cap :
  0 < cap <= OBJECT_POOL_MAX ->
  exists s, objectpool_init cap pool_null = (s, Ok tt) /\ pool_inv s [].
Proof.
  intros Hc. unfold objectpool_init. mrun. cbn [op_pool pool_null].
  rewrite (proj2 (Z.ltb_lt _ _)), (proj2 (Z.leb_le _ _)) by lia. cbn [andb negb].
  eexists. split; [done|]. split; [done..|]. cbn.
  exists (fresh_nodes (mk_object_node None) cap), (seqZ 0 cap). split; [done|].
  pose proof (fresh_chain (mk_object_node None) n_next cap 0 (fun _ => eq_refl) ltac:(lia)) as H.
  rewrite Z.sub_0_r in H. destruct (Z.ltb_spec 0 cap); [|lia]. split; [done|].
  split; [|by rewrite app_nil_r].
  intros i. unfold fresh_nodes. rewrite lookup_map_seqZ_is_Some, length_fmap, length_seqZ. lia.
Qed.

(** [alloc] gives an index nobody holds, or nothing when all are held. *)
Lemma objectpool_alloc_inv s used :
  pool_inv s used ->
  (len used = op_cap s /\ objectpool_alloc s = (s, Ok None)) \/
  exists s' i obj, objectpool_alloc s = (s', Ok (Some (i, obj))) /\
    0 <= i < op_cap s /\ (i ∉ used) /\ pool_inv s' (i :: used) /\ op_cap s' = op_cap s.
Proof.
  intros [Hc Hs (pool & free & Hp & Hch & Hdom & Hperm)].
  pose proof (len_perm _ _ Hperm) as Hl. rewrite len_app, len_seqZ in Hl by lia.
  unfold objectpool_alloc. mrun. rewrite Hp.
  destruct (Z.eqb_spec (op_size s) (op_cap s)) as [Hfull|Hfull]; [left; split; [lia|done]|right].
  destruct free as [|i free]; [rewrite len_nil in Hl; lia|].
  cbn in Hch. destruct Hch as (Hf & n & Hn & Hch). rewrite Hf. cbn. rewrite Hn.
  assert (i ∉ used) as Hiu by (apply (partition_disj _ _ _ _ Hperm); left).
  assert (0 <= i < op_cap s) as Hi by (apply Hdom; eauto).
  assert (i ∉ free) as Hif.
  { assert (NoDup ((i :: free) ++ used)) as Hnd by (rewrite Hperm; apply NoDup_seqZ).
    apply NoDup_app in Hnd as (Hnd & _). by apply NoDup_cons in Hnd as [? _]. }
  assert (u64 (op_size s + 1) = len (i :: used)) as Hsz.
  { rewrite len_cons, wrapU_small; [lia|]. pose proof (len_nonneg free). rewrite len_cons in Hl.
    pose proof (len_nonneg used). unfold OBJECT_POOL_MAX in Hc. word_lia. }
  assert (free ++ (i :: used) ≡ₚ seqZ 0 (op_cap s)) as Hperm' by (rewrite <- Hperm; solve_Permutation).
  mrun. destruct (n_obj n) as [obj|]; eexists _, i, _; (split; [done|]); (split; [exact Hi|]);
    (split; [done|]); (split; [|done]); (split; [done|done|]); cbn.
  - exists pool, free. done.
  - exists (<[i := mk_object_node (Some (op_brk s)) (n_next n)]> pool), free.
    split; [done|]. split; [by apply chain_insert_ne|]. split; [|done].
    intros j. destruct (decide (j = i)) as [->|].
    + rewrite lookup_insert_eq. split; [done|eauto].
    + by rewrite lookup_insert_ne.
Qed.

(** Giving an index back. *)
Lemma pool_put_front_inv s used i f :
  pool_inv s (i :: used) ->
  exists s', pool_put_front i f s = (s', Ok tt) /\ pool_inv s' used /\ op_cap s' = op_cap s.
Proof.
  intros [Hc Hs (pool & free & Hp & Hch & Hdom & Hperm)].
  assert (0 <= i < op_cap s) as Hi by (eapply partition_in; [done|]; right; left).
  unfold pool_put_front. mrun. rewrite Hp. cbn. destruct (proj2 (Hdom i) Hi) as [n Hn]. rewrite Hn.
  eexists. split; [done|]. split; [|done]. split; cbn; [done| |].
  - rewrite Hs, len_cons. pose proof (len_perm _ _ Hperm) as Hl.
    rewrite len_app, len_cons, len_seqZ in Hl by lia. pose proof (len_nonneg free).
    pose proof (len_nonneg used). unfold OBJECT_POOL_MAX in Hc. rewrite wrapU_small by word_lia. lia.
  - exists (<[i := mk_object_node (n_obj n) (op_free s)]> pool), (i :: free). split; [done|].
    split; [|split].
    + apply (chain_cons _ _ (op_free s)); [|done|done]. intros Hin. apply (partition_disj _ _ _ _ Hperm Hin). left.
    + intros j. destruct (decide (j = i)) as [->|].
      * rewrite lookup_insert_eq. split; [done|eauto].
      * by rewrite lookup_insert_ne.
    + rewrite <- Hperm. solve_Permutation.
Qed.

Lemma objectpool_free_idx_inv s used i :
  pool_inv s (i :: used) ->
  exists s', objectpool_free_idx i s = (s', Ok tt) /\ pool_inv s' used /\ op_cap s' = op_cap s.
Proof.
  intros Hi. pose proof Hi as [Hc Hs (pool & free & Hp & Hch & Hdom & Hperm)].
  assert (0 <= i < op_cap s) as Hb by (eapply partition_in; [done|]; right; left).
  destruct (pool_put_front_inv s used i (match n_obj (default (mk_object_node None None) (pool !! i)) with
    | Some o => delete o | None => id end) Hi) as (s' & E & Hi' & Hc').
  exists s'. split; [|done]. unfold objectpool_free_idx. rewrite M_get.
  rewrite (proj2 (Z.leb_le _ _)), (proj2 (Z.ltb_lt _ _)) by lia. cbn [andb negb].
  rewrite Hp. destruct (proj2 (Hdom i) Hb) as [n Hn]. rewrite Hn in E. unfold pool_node at 1.
  rewrite Hn. exact E.
Qed.

(** A client that keeps the indices it was given and gives some of them back. *)
Inductive pool_op := PoolAlloc | PoolFree (k : nat).
Fixpoint pool_run (ops : list pool_op) (used : list Z) : P (list Z) :=
  match ops with
  | [] => mret used
  | PoolAlloc :: ops =>
      r ← objectpool_alloc;
      match r with Some (i, _) => pool_run ops (i :: used) | None => pool_run ops used end
  | PoolFree k :: ops =>
      match used !! k with
      | Some i => objectpool_free_idx i;; pool_run ops (take k used ++ drop (S k) used)
      | None => pool_run ops used
      end
  end.

Lemma pool_inv_perm s used used' : used ≡ₚ used' -> pool_inv s used -> pool_inv s used'.
Proof.
  intros Hp [Hc Hs (pool & free & Hpo & Hch & Hd & Hperm)]. split; [done|by rewrite <- (len_perm _ _ Hp)|].
  exists pool, free. by rewrite <- Hp.
Qed.

Lemma pool_run_inv ops s used :
  pool_inv s used ->
  exists s' used', pool_run ops used s = (s', Ok used') /\ pool_inv s' used' /\ op_cap s' = op_cap s.
Proof.
  revert s used. induction ops as [|[|k] ops IH]; intros s used Hi; cbn [pool_run].
  - eauto.
  - destruct (objectpool_alloc_inv s used Hi) as [[_ E]|(s1 & i & obj & E & _ & _ & Hi1 & Hc1)];
      rewrite (M_bind_ok _ _ _ _ _ E); [by apply IH|].
    destruct (IH _ _ Hi1) as (s2 & u & E2 & ? & ?). exists s2, u. rewrite Hc1 in *. done.
  - destruct (used !! k) as [i|] eqn:Hk; [|by apply IH].
    pose proof (take_drop_middle _ _ _ Hk) as Hu.
    destruct (objectpool_free_idx_inv s (take k used ++ drop (S k) used) i) as (s1 & E & Hi1 & Hc1).
    { eapply pool_inv_perm; [|done]. rewrite <- Hu at 1. solve_Permutation. }
    rewrite (M_bind_ok _ _ _ _ _ E). destruct (IH _ _ Hi1) as (s2 & u & E2 & ? & ?).
    exists s2, u. rewrite Hc1 in *. done.
Qed.

(** The locked pool: for any script of allocations and returns by index of
    what is held, nothing goes wrong, the indices held are distinct and in
    range, the size counts them, and an allocation fails only when all are
    held. *)
Theorem objectpool_partition cap ops :
  0 < cap <= OBJECT_POOL_MAX ->
  exists s used, (objectpool_init cap;; pool_run ops []) pool_null = (s, Ok used) /\
    NoDup used /\ Forall (fun i => 0 <= i < cap) used /\ op_size s = len used /\
    (objectpool_alloc s = (s, Ok None) <-> len used = cap).
Proof.
  intros Hc. destruct (objectpool_init_inv cap Hc) as (s0 & E0 & Hi0).
  assert (op_cap s0 = cap) as Hcap.
  { unfold objectpool_init in E0. mrun. cbn [op_pool pool_null] in E0.
    rewrite (proj2 (Z.ltb_lt _ _)), (proj2 (Z.leb_le _ _)) in E0 by lia. cbn in E0. by simplify_eq. }
  destruct (pool_run_inv ops s0 [] Hi0) as (s & used & E & Hi & Hc').
  exists s, used. rewrite (M_bind_ok _ _ _ _ _ E0). split; [done|].
  pose proof Hi as [_ Hs (pool & free & _ & _ & _ & Hperm)]. rewrite Hc', Hcap in Hperm.
  split; [|split; [|split; [done|]]].
  - assert (NoDup (free ++ used)) as Hn by (rewrite Hperm; apply NoDup_seqZ).
    by apply NoDup_app in Hn as (_ & _ & ?).
  - apply Forall_forall. intros i Hin. eapply partition_in; [done|by right].
  - destruct (objectpool_alloc_inv s used Hi) as [[Hl Ha]|(s' & i & obj & Ha & Hr & Hni & Hi' & Hcc)].
    + rewrite Ha. split; [intros _; congruence|done].
    + rewrite Ha. split; [done|]. intros Hl. exfalso.
      pose proof Hi' as [_ _ (p2 & f2 & _ & _ & _ & Hp2)].
      apply len_perm in Hp2. rewrite len_app, len_cons, len_seqZ in Hp2 by lia.
      pose proof (len_nonneg f2). lia.
Qed.

Lemma objectpool_partition_witness :
  exists s used, (objectpool_init 2;; pool_run [PoolAlloc; PoolAlloc; PoolFree 1; PoolAlloc] []) pool_null
      = (s, Ok used) /\
    NoDup used /\ Forall (fun i => 0 <= i < 2) used /\ op_size s = len used /\
    (objectpool_alloc s = (s, Ok None) <-> len used = 2).
Proof. apply (objectpool_partition 2). by vm_compute. Defined.

(** Three defects of the locked pool.  An object given back and handed out
    again is not in the map, and giving it back does nothing: the node is lost.
    The index [_cap] passes the check of [find_object] and is read.  And
    [destroy], which follows links instead of walking the array, reads a null
    node when an exhausted pool of several nodes got its first node back. *)
Theorem objectpool_defects s pool used :
  pool_inv s used -> op_pool s = Some pool ->
  (forall i n obj, op_free s = Some i -> pool !! i = Some n -> n_obj n = Some obj ->
     op_obj_map s !! obj = None -> len used < op_cap s ->
     exists s', objectpool_alloc s = (s', Ok (Some (i, obj))) /\
       objectpool_free obj s' = (s', Ok tt) /\ op_size s' = len used + 1) /\
  (objectpool_find_object (op_cap s) s).2 = Fault (UB "node out of bounds") /\
  (len used = op_cap s -> 1 < op_cap s ->
   exists s1, objectpool_free_idx 0 s = (s1, Ok tt) /\
     (objectpool_destroy s1).2 = Fault (UB "null node")).
Proof.
  intros Hi Hp. pose proof Hi as [Hc Hs (pool' & free & Hp' & Hch & Hdom & Hperm)].
  rewrite Hp in Hp'. injection Hp' as <-.
  pose proof (len_perm _ _ Hperm) as Hl. rewrite len_app, len_seqZ in Hl by lia.
  split; [|split].
  - intros i n obj Hf Hn Ho Hm Hlt. unfold objectpool_alloc. mrun. rewrite Hp.
    destruct (Z.eqb_spec (op_size s) (op_cap s)); [lia|]. rewrite Hf. cbn. rewrite Hn. mrun. rewrite Ho.
    eexists. split; [done|]. cbn. unfold objectpool_free. mrun. cbn. rewrite Hm. split; [done|].
    rewrite Hs. pose proof (len_nonneg used). unfold OBJECT_POOL_MAX in Hc. apply wrapU_small. word_lia.
  - unfold objectpool_find_object. mrun. destruct (Z.gtb_spec (op_cap s) (op_cap s)); [lia|].
    rewrite Hp. cbn. destruct (pool !! op_cap s) as [n|] eqn:E; [|done].
    assert (0 <= op_cap s < op_cap s) by (apply Hdom; eauto). lia.
  - intros Hfull H1. destruct free as [|i free]; [|rewrite len_cons in Hl; pose proof (len_nonneg free); lia].
    cbn in Hch. destruct (proj2 (Hdom 0) ltac:(lia)) as [n Hn].
    unfold objectpool_free_idx, pool_put_front. mrun.
    rewrite (proj2 (Z.ltb_lt 0 (op_cap s))) by lia. cbn [Z.leb Z.compare andb negb].
    rewrite Hp. cbn. rewrite Hn. cbn. rewrite Hp. cbn. rewrite Hn. eexists. split; [done|].
    unfold objectpool_destroy. mrun. cbn [op_pool op_cap].
    destruct (Z.to_nat (op_cap s)) as [|[|k]] eqn:Hk; [lia|lia|].
    cbn. rewrite lookup_insert_eq. mrun. cbn. rewrite Hch. by destruct (n_obj n).
Qed.

(** Two nodes, both handed out; and the first of them given back as an object. *)
Definition pool_two (next : option Z) : gmap Z object_node :=
  <[0 := mk_object_node (Some 1) next]> {[1 := mk_object_node (Some 2) None]}.
Definition pool_exhausted : objectpool :=
  mk_pool (Some (pool_two (Some 1))) None 2 2 (<[1 := 0]> {[2 := 1]}) 3 [].
Definition pool_returned : objectpool :=
  mk_pool (Some (pool_two None)) (Some 0) 1 2 {[2 := 1]} 3 [].

Lemma pool_two_dom next i : is_Some (pool_two next !! i) <-> 0 <= i < 2.
Proof.
  unfold pool_two. destruct (decide (i = 0)) as [->|]; [rewrite lookup_insert_eq; split; [lia|eauto]|].
  rewrite lookup_insert_ne by done. destruct (decide (i = 1)) as [->|].
  - rewrite lookup_singleton_eq. split; [lia|eauto].
  - rewrite lookup_singleton_ne by done. split; [by intros []|lia].
Qed.
Lemma pool_exhausted_inv : pool_inv pool_exhausted [1; 0].
Proof.
  split; [by vm_compute|done|]. eexists _, []. split; [done|]. split; [done|].
  split; [apply pool_two_dom|]. apply Permutation_swap.
Qed.
Lemma pool_returned_inv : pool_inv pool_returned [1].
Proof.
  split; [by vm_compute|done|]. eexists _, [0]. split; [done|]. split; [|split; [apply pool_two_dom|done]].
  split; [done|]. by eexists.
Qed.

Lemma objectpool_defects_witness :
  objectpool_free 1 pool_exhausted = (pool_returned, Ok tt) /\
  (exists s', objectpool_alloc pool_returned = (s', Ok (Some (0, 1))) /\
     objectpool_free 1 s' = (s', Ok tt) /\ op_size s' = 2) /\
  (objectpool_find_object 2 pool_exhausted).2 = Fault (UB "node out of bounds") /\
  exists s1, objectpool_free_idx 0 pool_exhausted = (s1, Ok tt) /\
    (objectpool_destroy s1).2 = Fault (UB "null node").
Proof.
  split; [reflexivity|].
  destruct (objectpool_defects _ _ _ pool_returned_inv eq_refl) as (H1 & _ & _).
  destruct (objectpool_defects _ _ _ pool_exhausted_inv eq_refl) as (_ & H2 & H3).
  split; [|split; [exact H2|]].
  - apply (H1 0 (mk_object_node (Some 1) None) 1); done.
  - by apply H3.
Defined.

(** ** The lock-free pool

    A thread is at one of the points between two accesses to shared memory; the
    accesses are sequentially consistent.  [lf_held] lists the nodes the clients
    hold: a client returns only what it holds. *)

Record head_ptr := mk_head { h_node : option Z; h_counter : Z }.
#[export] Instance head_ptr_eq_dec : EqDecision head_ptr.
Proof. solve_decision. Defined.

Inductive lf_pc :=
| LfIdle
| LfAllocHead (old : head_ptr)
| LfAllocNext (node counter : Z) (next_node : option Z)
| LfFreeHead (node : Z) (old : head_ptr)
| LfFreeStored (node : Z) (old : head_ptr).

Record lf_pool := mk_lf {
  lf_next : gmap Z (option Z);
  lf_initialized : gset Z;
  lf_free : head_ptr;
  lf_cap : Z;
  lf_threads : list lf_pc;
  lf_held : list Z;
}.

(** [init] of the mode LAZY or EAGER, for [n] threads.  In the mode LAZY nothing
    writes [initialized] in the memory of [aligned_alloc]: [garbage] are the nodes
    in which it happens to read as set. *)
Definition lf_init (eager : bool) (garbage : gset Z) (capacity : Z) (n : nat) : outcome lf_pool :=
  if negb ((0 <? capacity) && (capacity <=? OBJECT_POOL_MAX)) then Fault (AssertFail "capacity")
  else Ok (mk_lf (fresh_nodes id capacity)
             (if eager then list_to_set (seqZ 0 capacity) else garbage)
             (mk_head (Some 0) 0) capacity (replicate n LfIdle) []).

(** What the scheduler lets a thread do: begin a call, make its next access, or
    let [compare_exchange_weak] fail for no reason. *)
Inductive lf_act := LfAlloc | LfFree (node : Z) | LfGo | LfSpurious.

Definition lf_goto (t : nat) (pc : lf_pc) (s : lf_pool) : lf_pool :=
  mk_lf (lf_next s) (lf_initialized s) (lf_free s) (lf_cap s) (<[t := pc]> (lf_threads s)) (lf_held s).

Definition head_bump (node : option Z) (counter : Z) : head_ptr := mk_head node (u64 (counter + 1)).

Fixpoint remove_first (i : Z) (l : list Z) : option (list Z) :=
  match l with
  | [] => None
  | j :: l => if i =? j then Some l else l' ← remove_first i l; Some (j :: l')
  end.

(** One access of thread [t]; [None] when the thread cannot do this. *)
Definition lf_exec (t : nat) (a : lf_act) (s : lf_pool) : option lf_pool :=
  pc ← lf_threads s !! t;
  match pc, a with
  | LfIdle, LfAlloc => Some (lf_goto t (LfAllocHead (lf_free s)) s)
  | LfAllocHead old, LfGo =>
      match h_node old with
      | None => Some (lf_goto t LfIdle s)
      | Some node => next_node ← lf_next s !! node; Some (lf_goto t (LfAllocNext node (h_counter old) next_node) s)
      end
  | LfAllocNext node counter next_node, LfGo =>
      if decide (lf_free s = mk_head (Some node) counter)
      then Some (mk_lf (lf_next s) ({[node]} ∪ lf_initialized s) (head_bump next_node counter) (lf_cap s)
                   (<[t := LfIdle]> (lf_threads s)) (node :: lf_held s))
      else Some (lf_goto t (LfAllocHead (lf_free s)) s)
  | LfAllocNext _ _ _, LfSpurious => Some (lf_goto t (LfAllocHead (lf_free s)) s)
  | LfIdle, LfFree node =>
      held ← remove_first node (lf_held s);
      if negb ((0 <=? node) && (node <? lf_cap s)) then None
      else Some (mk_lf (lf_next s) (lf_initialized s) (lf_free s) (lf_cap s)
                   (<[t := LfFreeHead node (lf_free s)]> (lf_threads s)) held)
  | LfFreeHead node old, LfGo =>
      Some (mk_lf (<[node := h_node old]> (lf_next s)) (lf_initialized s) (lf_free s) (lf_cap s)
              (<[t := LfFreeStored node old]> (lf_threads s)) (lf_held s))
  | LfFreeStored node old, LfGo =>
      if decide (lf_free s = old)
      then Some (mk_lf (lf_next s) (lf_initialized s) (head_bump (Some node) (h_counter old)) (lf_cap s)
                   (<[t := LfIdle]> (lf_threads s)) (lf_held s))
      else Some (lf_goto t (LfFreeHead node (lf_free s)) s)
  | LfFreeStored node _, LfSpurious => Some (lf_goto t (LfFreeHead node (lf_free s)) s)
  | _, _ => None
  end.

Fixpoint lf_run (sched : list (nat * lf_act)) (s : lf_pool) : option lf_pool :=
  match sched with
  | [] => Some s
  | (t, a) :: sched => s ← lf_exec t a s; lf_run sched s
  end.

Definition lf_find_object (objidx : Z) (s : lf_pool) : option Z :=
  if objidx >=? lf_cap s then None else Some objidx.

(** *** The invariant *)

(** The node a thread is returning. *)
Definition returning (pc : lf_pc) : list Z :=
  match pc with LfFreeHead node _ | LfFreeStored node _ => [node] | _ => [] end.

(** What a thread remembers of the head: an earlier one, and the present one
    when the counters agree.  It is this that makes a reused node harmless. *)
Definition remembers (head old : head_ptr) : Prop :=
  h_counter old <= h_counter head /\ (h_counter old = h_counter head -> h_node old = h_node head).

Definition pc_ok (s : lf_pool) (pc : lf_pc) : Prop :=
  match pc with
  | LfIdle => True
  | LfAllocHead old => remembers (lf_free s) old /\ forall i, h_node old = Some i -> is_Some (lf_next s !! i)
  | LfAllocNext node counter next_node =>
      remembers (lf_free s) (mk_head (Some node) counter) /\
      (counter = h_counter (lf_free s) -> lf_next s !! node = Some next_node)
  | LfFreeHead _ old => remembers (lf_free s) old
  | LfFreeStored node old => remembers (lf_free s) old /\ lf_next s !! node = Some (h_node old)
  end.

(** [c] counts the steps made. *)
Record lf_inv (s : lf_pool) (c : Z) : Prop := {
  lfi_counter : 0 <= h_counter (lf_free s) <= c;
  lfi_dom : forall i, is_Some (lf_next s !! i) <-> 0 <= i < lf_cap s;
  lfi_list : exists free, chain id (lf_next s) (h_node (lf_free s)) free /\
    free ++ lf_held s ++ (lf_threads s ≫= returning) ≡ₚ seqZ 0 (lf_cap s);
  lfi_pcs : Forall (pc_ok s) (lf_threads s);
}.

Lemma remove_first_perm i l l' : remove_first i l = Some l' -> l ≡ₚ i :: l'.
Proof.
  revert l'. induction l as [|j l IH]; intros l'; cbn; [done|].
  destruct (Z.eqb_spec i j) as [->|]; [by intros [= ->]|].
  destruct (remove_first i l) as [k|]; cbn; [|done]. intros [= <-].
  rewrite (IH k eq_refl). apply Permutation_swap.
Qed.

Lemma remembers_refl h : remembers h h.
Proof. by split. Qed.

(** A head with a larger counter. *)
Lemma remembers_bump h h' old : remembers h old -> h_counter h < h_counter h' -> remembers h' old.
Proof. intros [? ?] ?. split; lia. Qed.

(** Threads are not disturbed by a change of the head, nor by a store to a node
    outside the free list that no other thread is returning. *)
Lemma pc_ok_bump s s' pc :
  lf_next s' = lf_next s -> h_counter (lf_free s) < h_counter (lf_free s') -> pc_ok s pc -> pc_ok s' pc.
Proof.
  intros Hn Hc. destruct pc; cbn; rewrite ?Hn; try done.
  - intros [? ?]. split; [|done]. by eapply remembers_bump.
  - intros [Hr ?]. split; [by eapply remembers_bump|]. destruct Hr. cbn in *. lia.
  - intros ?. by eapply remembers_bump.
  - intros [? ?]. split; [by eapply remembers_bump|done].
Qed.

Lemma pc_ok_store s s' pc node v :
  lf_free s' = lf_free s -> lf_next s' = <[node := v]> (lf_next s) ->
  h_node (lf_free s) <> Some node -> node ∉ returning pc -> pc_ok s pc -> pc_ok s' pc.
Proof.
  intros Hf Hn Hh Hr. destruct pc as [|old|i c n|i old|i old]; cbn in *; rewrite ?Hf, ?Hn; try done.
  - intros [? Hs]. split; [done|]. intros j Hj. destruct (decide (j = node)) as [->|].
    + rewrite lookup_insert_eq. eauto.
    + rewrite lookup_insert_ne by done. auto.
  - intros [[? Heq] Hnx]. split; [done|]. intros Hc. cbn in *.
    rewrite lookup_insert_ne; [auto|]. intros ->. apply Hh. by rewrite <- Heq.
  - intros [? Hnx]. split; [done|]. rewrite lookup_insert_ne; [done|]. set_solver.
Qed.

(** Nothing but the thread's own point changed. *)
Lemma pc_ok_same s s' pc : lf_next s' = lf_next s -> lf_free s' = lf_free s -> pc_ok s pc -> pc_ok s' pc.
Proof. intros Hn Hf. destruct pc; cbn; by rewrite ?Hn, ?Hf. Qed.

Lemma Forall_update {T} (Q : T -> Prop) l t x :
  (forall t' y, t' <> t -> l !! t' = Some y -> Q y) -> Q x -> Forall Q (<[t := x]> l).
Proof.
  intros H Hx. apply Forall_lookup. intros i y Hi. apply list_lookup_insert_Some in Hi.
  destruct Hi as [(<- & <- & _)|[Hne Hi]]; [done|]. eapply H; [|done]. done.
Qed.

(** The point of thread [t] changes, the returned nodes as [held] does. *)
Lemma goto_inv s c t pc pc' held :
  lf_inv s c -> lf_threads s !! t = Some pc ->
  held ++ returning pc' ≡ₚ lf_held s ++ returning pc -> pc_ok s pc' ->
  lf_inv (mk_lf (lf_next s) (lf_initialized s) (lf_free s) (lf_cap s) (<[t := pc']> (lf_threads s)) held)
    (c + 1).
Proof.
  intros [Hc Hd (free & Hch & Hp) Hpc] Ht Hh Hok. split; cbn; [lia|done| |].
  - exists free. split; [done|]. rewrite <- Hp.
    pose proof (bind_insert returning _ _ _ pc' Ht) as Hr. apply Permutation_app_head.
    apply (Permutation_app_inv_r (returning pc)). rewrite <- !app_assoc, Hr.
    trans ((held ++ returning pc') ++ (lf_threads s ≫= returning)); [solve_Permutation|].
    rewrite Hh. solve_Permutation.
  - apply Forall_update; [|by eapply pc_ok_same].
    intros t' y _ Hy. eapply pc_ok_same; [done..|]. by eapply Forall_lookup_1.
Qed.

(** The head changes: [free] is the new list. *)
Lemma cas_inv s c t pc node counter init held free :
  lf_inv s c -> c + 1 < 2 ^ 64 -> lf_threads s !! t = Some pc -> counter = h_counter (lf_free s) ->
  chain id (lf_next s) node free ->
  free ++ held ++ (lf_threads s ≫= returning) ≡ₚ seqZ 0 (lf_cap s) ++ returning pc ->
  lf_inv (mk_lf (lf_next s) init (head_bump node counter) (lf_cap s) (<[t := LfIdle]> (lf_threads s)) held)
    (c + 1).
Proof.
  intros [Hc Hd _ Hpc] Hm Ht -> Hch Hp.
  assert (h_counter (head_bump node (h_counter (lf_free s))) = h_counter (lf_free s) + 1) as Hb.
  { cbn. apply wrapU_small. word_lia. }
  split; cbn [lf_free lf_next lf_cap lf_threads lf_held]; [lia|done| |].
  - exists free. split; [done|].
    pose proof (bind_insert returning _ _ _ LfIdle Ht) as Hr. cbn in Hr. rewrite app_nil_r in Hr.
    apply (Permutation_app_inv_r (returning pc)). rewrite <- !app_assoc, Hr, <- Hp. done.
  - apply Forall_update; [|done]. intros t' y _ Hy.
    eapply (pc_ok_bump s); [done| |by eapply Forall_lookup_1]. cbn [lf_free]. lia.
Qed.

Lemma lf_nodup s c free :
  lf_inv s c -> free ++ lf_held s ++ (lf_threads s ≫= returning) ≡ₚ seqZ 0 (lf_cap s) ->
  NoDup (free ++ lf_held s ++ (lf_threads s ≫= returning)).
Proof. intros _ ->. apply NoDup_seqZ. Qed.

Lemma returning_in (ts : list lf_pc) t pc i :
  ts !! t = Some pc -> i ∈ returning pc -> i ∈ (ts ≫= returning).
Proof. intros Ht Hi. apply list_elem_of_bind. exists pc. split; [done|]. by eapply list_elem_of_lookup_2. Qed.

Lemma returning_other (ts : list lf_pc) t t' pc pc' i :
  NoDup (ts ≫= returning) -> ts !! t = Some pc -> i ∈ returning pc ->
  t' <> t -> ts !! t' = Some pc' -> i ∉ returning pc'.
Proof.
  intros Hn Ht Hi Hne Ht' Hi'. pose proof (bind_insert returning _ _ _ LfIdle Ht) as Hr.
  cbn in Hr. rewrite app_nil_r in Hr. rewrite <- Hr in Hn.
  apply NoDup_app in Hn as (_ & Hd & _). apply (Hd i); [|done].
  eapply returning_in; [|done]. rewrite list_lookup_insert_ne by done. exact Ht'.
Qed.

(** The store of a node that is being returned. *)
Lemma store_inv s c t node old :
  lf_inv s c -> lf_threads s !! t = Some (LfFreeHead node old) ->
  lf_inv (mk_lf (<[node := h_node old]> (lf_next s)) (lf_initialized s) (lf_free s) (lf_cap s)
            (<[t := LfFreeStored node old]> (lf_threads s)) (lf_held s)) (c + 1).
Proof.
  intros Hi Ht. pose proof Hi as [Hc Hd (free & Hch & Hp) Hpc].
  pose proof (lf_nodup _ _ _ Hi Hp) as Hnd. apply NoDup_app in Hnd as (_ & Hdf & Hnd).
  apply NoDup_app in Hnd as (_ & _ & Hnd).
  assert (node ∈ lf_threads s ≫= returning) as Hin by (eapply returning_in; [done|by left]).
  assert (node ∉ free) as Hnf by (intros H; apply (Hdf _ H); apply elem_of_app; by right).
  assert (Hr : 0 <= node < lf_cap s).
  { assert (node ∈ seqZ 0 (lf_cap s)) as Hs by (rewrite <- Hp, !elem_of_app; auto).
    apply elem_of_seqZ in Hs. lia. }
  assert (h_node (lf_free s) <> Some node) as Hhead.
  { intros E. destruct free as [|i free]; cbn in Hch; [congruence|].
    destruct Hch as [E' _]. rewrite E in E'. injection E' as <-. apply Hnf. left. }
  pose proof (Forall_lookup_1 _ _ _ _ Hpc Ht) as Hok. cbn in Hok.
  split; cbn [lf_free lf_next lf_cap lf_threads lf_held]; [lia| | |].
  - intros i. destruct (decide (i = node)) as [->|].
    + rewrite lookup_insert_eq. split; [done|eauto].
    + by rewrite lookup_insert_ne.
  - exists free. split; [by apply chain_insert_ne|]. rewrite <- Hp.
    pose proof (bind_insert returning _ _ _ (LfFreeStored node old) Ht) as Hu. cbn in Hu.
    do 2 apply Permutation_app_head. by apply (Permutation_app_inv_r [node]).
  - apply Forall_update.
    + intros t' y Hne Hy. eapply (pc_ok_store s); [done..| |by eapply Forall_lookup_1].
      apply (returning_other _ t t' _ y node Hnd Ht); [by left|done|done].
    + cbn. by rewrite lookup_insert_eq.
Qed.

Lemma lf_exec_inv t a s s' c :
  lf_inv s c -> c + 1 < 2 ^ 64 -> lf_exec t a s = Some s' ->
  lf_inv s' (c + 1) /\ lf_cap s' = lf_cap s.
Proof.
  intros Hi Hm. unfold lf_exec. destruct (lf_threads s !! t) as [pc|] eqn:Ht; [|done]. cbn.
  pose proof Hi as [Hc Hd (free & Hch & Hp) Hpc].
  pose proof (Forall_lookup_1 _ _ _ _ Hpc Ht) as Hok.
  destruct pc as [|old|i k n|i old|i old], a as [|j| |]; try discriminate; cbn in Hok.
  - intros [= <-]. split; [|done]. apply (goto_inv s c t _ _ _ Hi Ht); [done|]. cbn.
    split; [apply remembers_refl|]. intros i Hh. destruct free as [|i' free]; cbn in Hch; [congruence|].
    destruct Hch as (Hh' & m & ? & _). simplify_eq. eauto.
  - destruct (remove_first j (lf_held s)) as [held|] eqn:Hr; cbn; [|done].
    destruct (negb _); [done|]. intros [= <-]. split; [|done].
    apply (goto_inv s c t _ _ _ Hi Ht); [|apply remembers_refl].
    cbn. rewrite (remove_first_perm _ _ _ Hr). solve_Permutation.
  - destruct (h_node old) as [node|] eqn:Hn.
    + destruct (lf_next s !! node) as [n|] eqn:Hnx; cbn; [|done]. intros [= <-]. split; [|done].
      apply (goto_inv s c t _ _ _ Hi Ht); [done|]. cbn. destruct Hok as [[Hle Heq] _]. split; [|done].
      split; cbn; [done|]. intros E. by rewrite <- Hn, Heq.
    + intros [= <-]. split; [|done]. by apply (goto_inv s c t _ _ _ Hi Ht).
  - case_decide as Hcas.
    + intros [= <-]. split; [|done]. destruct Hok as [_ Hnx]. rewrite Hcas in Hnx, Hch.
      destruct free as [|i' free]; cbn in Hch; [done|]. destruct Hch as ([= <-] & m & Hm' & Hch).
      rewrite (Hnx eq_refl) in Hm'. injection Hm' as <-.
      eapply (cas_inv s c t _ _ _ _ _ free); [done|done|done|by rewrite Hcas|done|].
      cbn. rewrite app_nil_r, <- Hp. solve_Permutation.
    + intros [= <-]. split; [|done]. apply (goto_inv s c t _ _ _ Hi Ht); [done|]. cbn.
      split; [apply remembers_refl|]. intros j Hh. destruct free as [|i' free]; cbn in Hch; [congruence|].
      destruct Hch as (Hh' & m & ? & _). simplify_eq. eauto.
  - intros [= <-]. split; [|done]. apply (goto_inv s c t _ _ _ Hi Ht); [done|]. cbn.
    split; [apply remembers_refl|]. intros j Hh. destruct free as [|i' free]; cbn in Hch; [congruence|].
    destruct Hch as (Hh' & m & ? & _). simplify_eq. eauto.
  - intros [= <-]. split; [|done]. by apply store_inv.
  - case_decide as Hcas.
    + intros [= <-]. split; [|done]. destruct Hok as [_ Hnx].
      eapply (cas_inv s c t _ _ _ _ _ (i :: free)); [done|done|done|by rewrite Hcas| |].
      * cbn. split; [done|]. exists (h_node old). split; [done|]. by rewrite <- Hcas.
      * cbn. rewrite <- Hp. solve_Permutation.
    + intros [= <-]. split; [|done]. apply (goto_inv s c t _ _ _ Hi Ht); [done|]. apply remembers_refl.
  - intros [= <-]. split; [|done]. apply (goto_inv s c t _ _ _ Hi Ht); [done|]. apply remembers_refl.
Qed.

Lemma lf_run_inv sched s s' c :
  lf_inv s c -> c + len sched < 2 ^ 64 -> lf_run sched s = Some s' ->
  lf_inv s' (c + len sched) /\ lf_cap s' = lf_cap s.
Proof.
  revert s c. induction sched as [|[t a] sched IH]; intros s c Hi Hm; cbn.
  { intros [= <-]. rewrite len_nil, Z.add_0_r. done. }
  rewrite len_cons in *. pose proof (len_nonneg sched).
  destruct (lf_exec t a s) as [s1|] eqn:E; cbn; [|done]. intros Hrun.
  destruct (lf_exec_inv _ _ _ _ _ Hi ltac:(lia) E) as [Hi1 Hc1].
  destruct (IH s1 (c + 1) Hi1 ltac:(lia) Hrun) as [? ?].
  replace (c + (1 + len sched)) with (c + 1 + len sched) by lia. split; [done|congruence].
Qed.

Lemma lf_init_inv eager garbage cap n s :
  lf_init eager garbage cap n = Ok s -> lf_inv s 0 /\ lf_cap s = cap.
Proof.
  unfold lf_init. destruct (Z.ltb_spec 0 cap); [|done].
  destruct (cap <=? OBJECT_POOL_MAX); [|done]. cbn. intros [= <-]. split; [|done]. split; cbn.
  - done.
  - intros i. unfold fresh_nodes. rewrite lookup_map_seqZ_is_Some, length_fmap, length_seqZ. lia.
  - exists (seqZ 0 cap). pose proof (fresh_chain id id cap 0 (fun _ => eq_refl) ltac:(lia)) as H'.
    rewrite Z.sub_0_r in H'. destruct (Z.ltb_spec 0 cap); [|lia]. split; [done|].
    assert (replicate n LfIdle ≫= returning = []) as -> by (induction n; done). by rewrite !app_nil_r.
  - apply Forall_replicate. done.
Qed.

(** C20 — The lock-free pool, under every interleaving of its threads, spurious
    failures included, of fewer than 2^64 steps: each node is free, held by one
    client, or being returned by one thread, and never two of these, in spite
    of the reuse of nodes.  And an allocation left to itself takes the first
    free node in three accesses, or finds none. *)
Theorem lf_pool_partition eager garbage cap n sched s0 s :
  lf_init eager garbage cap n = Ok s0 -> len sched < 2 ^ 64 - 1 -> lf_run sched s0 = Some s ->
  exists free, chain id (lf_next s) (h_node (lf_free s)) free /\
    free ++ lf_held s ++ (lf_threads s ≫= returning) ≡ₚ seqZ 0 cap /\
    NoDup (free ++ lf_held s ++ (lf_threads s ≫= returning)) /\
    forall t, lf_threads s !! t = Some LfIdle ->
      match free with
      | [] => lf_run [(t, LfAlloc); (t, LfGo)] s = Some s
      | i :: _ => exists s', lf_run [(t, LfAlloc); (t, LfGo); (t, LfGo)] s = Some s' /\
                    lf_held s' = i :: lf_held s /\ lf_threads s' = lf_threads s
      end.
Proof.
  intros H0 Hm Hrun. destruct (lf_init_inv _ _ _ _ _ H0) as [Hi0 Hc0].
  destruct (lf_run_inv sched _ _ 0 Hi0 ltac:(lia) Hrun) as [Hi Hc].
  pose proof Hi as [_ _ (free & Hch & Hp) _]. exists free. split; [done|].
  split; [by rewrite Hp, Hc, Hc0|]. split; [by eapply lf_nodup|].
  intros t Ht. assert (t < length (lf_threads s))%nat as Hlt by (by eapply lookup_lt_Some).
  destruct free as [|i free]; cbn in Hch; unfold lf_run, lf_exec; rewrite Ht; cbn.
  - rewrite list_lookup_insert_eq by done. cbn. rewrite Hch. cbn. unfold lf_goto. cbn.
    rewrite list_insert_insert_eq, list_insert_id by done. by destruct s.
  - destruct Hch as (Hh & m & Hm' & _). rewrite list_lookup_insert_eq by done. cbn.
    rewrite Hh. cbn. rewrite Hm'. cbn. rewrite list_lookup_insert_eq by (by rewrite ?length_insert). cbn.
    rewrite decide_True by (rewrite <- Hh; by destruct (lf_free s)). cbn.
    eexists. split; [done|]. cbn. by rewrite !list_insert_insert_eq, list_insert_id.
Qed.

(** Two threads: the first is interrupted in [alloc] while the second takes two
    nodes and returns the first of them. *)
Definition lf_demo_sched : list (nat * lf_act) :=
  [(0%nat, LfAlloc); (0%nat, LfGo);
   (1%nat, LfAlloc); (1%nat, LfGo); (1%nat, LfGo); (1%nat, LfAlloc); (1%nat, LfGo); (1%nat, LfGo);
   (1%nat, LfFree 0); (1%nat, LfGo); (1%nat, LfGo); (0%nat, LfGo); (0%nat, LfGo); (0%nat, LfGo)].

Lemma lf_pool_partition_witness :
  exists s0 s, lf_init false {[2]} 3 2 = Ok s0 /\ lf_run lf_demo_sched s0 = Some s /\ lf_held s = [0; 1] /\
  exists free, chain id (lf_next s) (h_node (lf_free s)) free /\
    free ++ lf_held s ++ (lf_threads s ≫= returning) ≡ₚ seqZ 0 3 /\
    NoDup (free ++ lf_held s ++ (lf_threads s ≫= returning)).
Proof.
  destruct (lf_init false {[2]} 3 2) as [s0| |] eqn:E0; [|discriminate E0..].
  destruct (lf_run lf_demo_sched s0) as [s|] eqn:E;
    [|exfalso; injection E0 as <-; vm_compute in E; discriminate E].
  exists s0, s. split; [done|]. split; [done|]. split.
  { injection E0 as <-. vm_compute in E. injection E as <-. reflexivity. }
  destruct (lf_pool_partition false {[2]} 3 2 lf_demo_sched s0 s E0 ltac:(by vm_compute) E)
    as (free & H1 & H2 & H3 & _).
  exists free. done.
Defined.
