(* ===== verification/Text.v ===== *)
(** Strings: what the program uses of [std::string] and its own string functions
    (common/common.cpp), percent encoding (utility/util.cpp).  A string is the
    list of its bytes, as in [cpp_string]. *)

From S2P Require Import Prelude Octets Varint Marshal.

Abbreviation str := String.list_byte_of_string.

(** Strings are keys of maps. *)
#[export] Instance byte_countable : Countable byte.
Proof.
  refine (inj_countable Byte.to_N Byte.of_N _). intros b. apply Byte.of_to_N.
Defined.

(** ** [std::string] *)

(** [npos] is the largest [size_t]; positions are computed modulo [2 ^ 64]. *)
Definition npos : Z := 2 ^ 64 - 1.

(** The first position from [from] on whose byte satisfies [p]. *)
Definition find_from (p : byte -> bool) (s : list byte) (from : Z) : Z :=
  match list_find (fun c => p c = true) (drop (Z.to_nat from) s) with
  | Some (i, _) => from + Z.of_nat i
  | None => npos
  end.
(** The last position whose byte satisfies [p]. *)
Definition find_last (p : byte -> bool) (s : list byte) : Z :=
  match list_find (fun c => p c = true) (rev s) with
  | Some (i, _) => len s - 1 - Z.of_nat i
  | None => npos
  end.
Definition is_char (c d : byte) : bool := bool_decide (c = d).
Definition is_in (set : list byte) (d : byte) : bool := bool_decide (d ∈ set).

Definition find_char (c : byte) (s : list byte) (from : Z) : Z := find_from (is_char c) s from.

(** [substr] throws for a start behind the end. *)
Definition substr (s : list byte) (pos n : Z) : outcome (list byte) :=
  if pos >? len s then Throw (ExnOutOfRange "substr")
  else Ok (slice s pos (Z.min n (len s - pos))).
(** [string(count, c)]: the counts behind [max_size] throw. *)
Definition string_fill (count : Z) (c : byte) : outcome (list byte) :=
  if count >? PTRDIFF_MAX then Throw (ExnLength "basic_string::_M_create")
  else Ok (replicate (Z.to_nat count) c).

(** What a function on C strings sees of a string. *)
Fixpoint c_string (s : list byte) : list byte :=
  match s with
  | c :: s => if bool_decide (c = x00) then [] else c :: c_string s
  | [] => []
  end.

Definition tolower (c : byte) : byte :=
  let z := Z_of_byte c in if (65 <=? z) && (z <=? 90) then byte_of_Z (z + 32) else c.
Definition str_tolower (s : list byte) : list byte := tolower <$> s.

(** ** common/common.cpp *)

Definition startswith (s prefix : list byte) : bool :=
  (len prefix <=? len s) && bool_decide (slice s 0 (len prefix) = prefix).
Definition endswith (s suffix : list byte) : bool :=
  (len suffix <=? len s) && bool_decide (slice s (len s - len suffix) (len suffix) = suffix).

Definition ltrim (s delim : list byte) : outcome (list byte) :=
  let b := find_from (fun c => negb (is_in delim c)) s 0 in
  if b =? npos then Ok [] else substr s b npos.
Definition rtrim (s delim : list byte) : outcome (list byte) :=
  let e := find_last (fun c => negb (is_in delim c)) s in
  if e =? npos then Ok [] else substr s 0 (u64 (e + 1)).
Definition trim (s delim : list byte) : outcome (list byte) :=
  let b := find_from (fun c => negb (is_in delim c)) s 0 in
  if b =? npos then Ok []
  else
    let e := find_last (fun c => negb (is_in delim c)) s in
    substr s b (u64 (e - b + 1)).

(** The loop of [split]: a part per step, the empty ones dropped.  Each step
    moves [start] on, so that the length is fuel enough. *)
Fixpoint split_loop (fuel : nat) (s delim : list byte) (start : Z) : list (list byte) :=
  let end_ := find_from (is_in delim) s start in
  match fuel with
  | S fuel =>
      if end_ =? npos then (if start <? len s then [slice s start (len s - start)] else [])
      else
        let rest := split_loop fuel s delim (end_ + 1) in
        if end_ >? start then slice s start (end_ - start) :: rest else rest
  | O => []
  end.
Definition split (s delim : list byte) : list (list byte) := split_loop (S (length s)) s delim 0.

(** ** Decimal numbers *)

(** The digits of [std::to_string]; twenty are enough for 64 bits. *)
Fixpoint digits (fuel : nat) (z : Z) (acc : list byte) : list byte :=
  match fuel with
  | O => acc
  | S fuel => let acc := byte_of_Z (48 + z mod 10) :: acc in
              if z <? 10 then acc else digits fuel (z / 10) acc
  end.
Definition to_string (z : Z) : list byte :=
  if z <? 0 then x2d :: digits 20 (- z) [] else digits 20 z [].

Definition is_digit (c : byte) : bool := (48 <=? Z_of_byte c) && (Z_of_byte c <=? 57).
Definition is_space (c : byte) : bool :=
  (Z_of_byte c =? 32) || ((9 <=? Z_of_byte c) && (Z_of_byte c <=? 13)).

Fixpoint drop_spaces (s : list byte) : list byte :=
  match s with c :: s' => if is_space c then drop_spaces s' else s | [] => [] end.
(** The number at the front of [s], and whether there is one. *)
Fixpoint number (s : list byte) (z : Z) : Z :=
  match s with
  | c :: s => if is_digit c then number s (10 * z + (Z_of_byte c - 48)) else z
  | [] => z
  end.
Definition signed_number (s : list byte) : bool * Z * bool :=
  let '(neg, s) := match drop_spaces s with
                   | x2d :: s => (true, s) | x2b :: s => (false, s) | s => (false, s) end in
  (neg, number s 0, match s with c :: _ => is_digit c | [] => false end).

(** [atoi] is undefined for a number outside [int]; it stops at a null byte,
    which is not a digit. *)
Definition atoi (s : list byte) : outcome Z :=
  let '(neg, z, _) := signed_number s in
  let z := if neg then - z else z in
  if (- 2 ^ 31 <=? z) && (z <? 2 ^ 31) then Ok z else Fault (UB "atoi overflow").
(** [std::stoul]. *)
Definition stoul (s : list byte) : outcome Z :=
  let '(neg, z, ok) := signed_number s in
  if negb ok then Throw (ExnInvalidArg "stoul")
  else if z >=? 2 ^ 64 then Throw (ExnOutOfRange "stoul")
  else Ok (u64 (if neg then - z else z)).

(** ** utility/util.cpp *)

Definition uri_chars : list Z :=
  replicate 32 0 ++
  [0; 0; 0; 0; 0; 0; 0; 0;   0; 0; 1; 0; 0; 1; 1; 0;
   1; 1; 1; 1; 1; 1; 1; 1;   1; 1; 0; 0; 0; 0; 0; 0;
   0; 1; 1; 1; 1; 1; 1; 1;   1; 1; 1; 1; 1; 1; 1; 1;
   1; 1; 1; 1; 1; 1; 1; 1;   1; 1; 1; 0; 0; 0; 0; 1;
   0; 1; 1; 1; 1; 1; 1; 1;   1; 1; 1; 1; 1; 1; 1; 1;
   1; 1; 1; 1; 1; 1; 1; 1;   1; 1; 1; 0; 0; 0; 1; 0] ++
  replicate 128 0.

Definition xdigit_chars : list Z :=
  replicate 48 0 ++ [0; 1; 2; 3; 4; 5; 6; 7; 8; 9; 0; 0; 0; 0; 0; 0] ++
  [0; 10; 11; 12; 13; 14; 15; 0; 0; 0; 0; 0; 0; 0; 0; 0] ++ replicate 16 0 ++
  [0; 10; 11; 12; 13; 14; 15; 0; 0; 0; 0; 0; 0; 0; 0; 0] ++ replicate 144 0.

Definition table_at (t : list Z) (c : byte) : Z := default 0 (t !! Z.to_nat (Z_of_byte c)).
Definition char_is_unreserved (c : byte) : bool := negb (table_at uri_chars c =? 0).

Definition hex_chars : list byte := str "0123456789ABCDEF".
Definition hex_at (z : Z) : byte := default x00 (hex_chars !! Z.to_nat z).

Definition url_encode (s : list byte) (space_as_plus : bool) : list byte :=
  s ≫= fun c =>
    if char_is_unreserved c then [c]
    else if space_as_plus && is_char x20 c then [x2b]
    else [x25; hex_at (Z.shiftr (Z_of_byte c) 4); hex_at (Z.land (Z_of_byte c) 15)].

(** The loop of [url_decode]; [fuel] bounds the length of the string. *)
Fixpoint url_decode_loop (fuel : nat) (s : list byte) (space_as_plus : bool) : list byte :=
  match fuel, s with
  | S fuel, c :: s' =>
      let other := (if is_char x2b c && space_as_plus then x20 else c)
                     :: url_decode_loop fuel s' space_as_plus in
      if is_char x25 c then
        match s' with
        | h1 :: h2 :: s'' =>
            let c1 := table_at xdigit_chars h1 in
            let c2 := table_at xdigit_chars h2 in
            if (negb (c1 =? 0) || is_char x30 h1) && (negb (c2 =? 0) || is_char x30 h2)
            then byte_of_Z (Z.lor (Z.shiftl c1 4) c2) :: url_decode_loop fuel s'' space_as_plus
            else c :: h1 :: h2 :: url_decode_loop fuel s'' space_as_plus
        | _ => other
        end
      else other
  | _, _ => []
  end.
Definition url_decode (s : list byte) (space_as_plus : bool) : list byte :=
  url_decode_loop (length s) s space_as_plus.

(** ** Percent encoding *)

Lemma url_encode_cons c s e :
  url_encode (c :: s) e =
    (if char_is_unreserved c then [c]
     else if e && is_char x20 c then [x2b]
     else [x25; hex_at (Z.shiftr (Z_of_byte c) 4); hex_at (Z.land (Z_of_byte c) 15)]) ++ url_encode s e.
Proof. done. Qed.

(** What [url_decode] does with each kind of output of [url_encode]. *)
Lemma decode_plain fuel c s d : char_is_unreserved c = true ->
  url_decode_loop (S fuel) (c :: s) d = c :: url_decode_loop fuel s d.
Proof. intros H. destruct c; try discriminate H; done. Qed.
Lemma decode_hex fuel c s d :
  url_decode_loop (S fuel)
    (x25 :: hex_at (Z.shiftr (Z_of_byte c) 4) :: hex_at (Z.land (Z_of_byte c) 15) :: s) d
  = c :: url_decode_loop fuel s d.
Proof. destruct c; reflexivity. Qed.

Lemma url_decode_encode fuel s e d :
  (e = true -> d = true) -> (length (url_encode s e) <= fuel)%nat ->
  url_decode_loop fuel (url_encode s e) d = s.
Proof.
  intros Hed. revert fuel. induction s as [|c s IH]; intros fuel Hf; [by destruct fuel|].
  rewrite url_encode_cons in *. destruct (char_is_unreserved c) eqn:Hu; [|case_match eqn:Hs].
  - destruct fuel as [|fuel]; [cbn in Hf; lia|]. cbn [app]. rewrite decode_plain by done.
    f_equal. apply IH. cbn in Hf. lia.
  - apply andb_true_iff in Hs as [-> Hc]. apply bool_decide_eq_true in Hc as <-.
    rewrite Hed in * by done. destruct fuel as [|fuel]; [cbn in Hf; lia|]. cbn in Hf.
    cbn. f_equal. apply IH. lia.
  - destruct fuel as [|fuel]; [cbn in Hf; lia|]. cbn [app]. rewrite decode_hex.
    f_equal. apply IH. cbn in Hf. lia.
Qed.

(** What a query string may contain. *)
Definition url_safe (c : byte) : bool :=
  char_is_unreserved c || is_char x25 c || is_char x2b c.

Lemma url_encode_safe s e : Forall (fun c => url_safe c = true) (url_encode s e).
Proof.
  induction s as [|c s IH]; [done|]. rewrite url_encode_cons. apply Forall_app. split; [|done].
  destruct (char_is_unreserved c) eqn:Hu; [|case_match].
  - repeat constructor. unfold url_safe. by rewrite Hu.
  - repeat constructor.
  - clear. destruct c; repeat constructor.
Qed.

(** Percent encoding: any string of bytes comes back from the decoder, which
    must read the plus sign as a space if the encoder wrote it so, and the
    encoded form consists of unreserved characters, percent and plus signs
    only. *)
Theorem url_roundtrip s e d :
  (e = true -> d = true) ->
  url_decode (url_encode s e) d = s /\ Forall (fun c => url_safe c = true) (url_encode s e).
Proof.
  intros Hed. split; [|apply url_encode_safe]. by apply url_decode_encode.
Qed.

Lemma url_roundtrip_witness :
  url_encode (str "a b&c=%+") true = str "a+b%26c%3D%25%2B" /\
  url_decode (url_encode (str "a b&c=%+") true) true = str "a b&c=%+" /\
  Forall (fun c => url_safe c = true) (url_encode (str "a b&c=%+") true).
Proof. split; [reflexivity|]. by apply url_roundtrip. Defined.

(** ** Searching and cutting *)

Definition free_of (p : byte -> bool) (s : list byte) : Prop := Forall (fun c => p c = false) s.

Lemma find_free_from p s from : free_of p (drop (Z.to_nat from) s) -> find_from p s from = npos.
Proof.
  intros H. unfold find_from. destruct (list_find _ _) as [[i c]|] eqn:E; [|done].
  apply list_find_Some in E as (Hi & Hp & _). exfalso.
  eapply Forall_forall in H; [|by eapply list_elem_of_lookup_2]. congruence.
Qed.
Lemma find_free p s from : free_of p s -> find_from p s from = npos.
Proof. intros H. by apply find_free_from, Forall_drop. Qed.

Lemma find_hit p pre a x b from :
  from = len pre -> free_of p a -> p x = true ->
  find_from p (pre ++ a ++ x :: b) from = from + len a.
Proof.
  intros -> Ha Hx. unfold find_from, len. rewrite Nat2Z.id, drop_app_length.
  rewrite list_find_app_r.
  - cbn. rewrite decide_True by done. cbn. lia.
  - apply list_find_None. eapply Forall_impl; [exact Ha|]. intros c Hc. cbn. congruence.
Qed.

(** At the start of the string. *)
Lemma find_hit0 p a x b : free_of p a -> p x = true -> find_from p (a ++ x :: b) 0 = len a.
Proof. intros. by apply (find_hit p [] a x b 0). Qed.

Lemma substr_rest pre s n :
  len s <= n -> substr (pre ++ s) (len pre) n = Ok s.
Proof.
  intros Hn. unfold substr. rewrite len_app. pose proof (len_nonneg s).
  destruct (Z.gtb_spec (len pre) (len pre + len s)); [lia|].
  rewrite Z.min_r by lia. replace (len pre + len s - len pre) with (len s) by lia.
  pose proof (slice_app_mid pre s []) as E. by rewrite app_nil_r in E; rewrite E.
Qed.

Lemma substr_mid pre s rest n :
  n = len s -> substr (pre ++ s ++ rest) (len pre) n = Ok s.
Proof.
  intros ->. unfold substr. rewrite !len_app. pose proof (len_nonneg s). pose proof (len_nonneg rest).
  destruct (Z.gtb_spec (len pre) (len pre + (len s + len rest))); [lia|].
  rewrite Z.min_l by lia. by rewrite slice_app_mid.
Qed.
Lemma substr_front s rest n : n = len s -> substr (s ++ rest) 0 n = Ok s.
Proof. intros H. exact (substr_mid [] s rest n H). Qed.

Lemma is_char_free c s : free_of (is_char c) s <-> c ∉ s.
Proof.
  unfold free_of, is_char. rewrite Forall_forall. split.
  - intros H Hc. specialize (H c Hc). by rewrite bool_decide_eq_true_2 in H.
  - intros H d Hd. apply bool_decide_eq_false_2. by intros <-.
Qed.
Lemma is_char_refl c : is_char c c = true.
Proof. by apply bool_decide_eq_true_2. Qed.

Lemma free_of_app p a b : free_of p (a ++ b) <-> free_of p a /\ free_of p b.
Proof. unfold free_of. by rewrite Forall_app. Qed.
Lemma free_of_cons p x a : free_of p (x :: a) <-> p x = false /\ free_of p a.
Proof. unfold free_of. by rewrite Forall_cons. Qed.

(** ** Numbers *)

Lemma number_digits fuel z acc :
  0 <= z < 10 ^ Z.of_nat fuel -> number (digits fuel z acc) 0 = number acc z.
Proof.
  revert z acc. induction fuel as [|fuel IH]; intros z acc Hz.
  { cbn in *. by replace z with 0 by lia. }
  pose proof (Z.mod_pos_bound z 10 ltac:(lia)) as Hm.
  assert (Z_of_byte (byte_of_Z (48 + z mod 10)) = 48 + z mod 10) as Hb.
  { rewrite Z_of_byte_of_Z, wrapU_small; [done|]. word_lia. }
  assert (is_digit (byte_of_Z (48 + z mod 10)) = true) as Hd.
  { unfold is_digit. rewrite Hb. apply andb_true_iff. rewrite !Z.leb_le. lia. }
  cbn [digits]. destruct (Z.ltb_spec z 10).
  - cbn [number]. rewrite Hd, Hb. f_equal. rewrite Z.mod_small by lia. lia.
  - rewrite IH.
    + cbn [number]. rewrite Hd, Hb. f_equal. pose proof (Z.div_mod z 10). lia.
    + rewrite Nat2Z.inj_succ, Z.pow_succ_r in Hz by lia. split; [apply Z.div_pos; lia|].
      apply Z.div_lt_upper_bound; lia.
Qed.

Lemma digits_head fuel z acc :
  0 <= z -> exists c l, digits (S fuel) z acc = c :: l /\ is_digit c = true.
Proof.
  revert z acc. induction fuel as [|fuel IH]; intros z acc Hz.
  all: pose proof (Z.mod_pos_bound z 10 ltac:(lia)) as Hm.
  all: assert (is_digit (byte_of_Z (48 + z mod 10)) = true) as Hd
    by (unfold is_digit; rewrite Z_of_byte_of_Z, wrapU_small by word_lia;
        apply andb_true_iff; rewrite !Z.leb_le; lia).
  - cbn. destruct (z <? 10); eauto.
  - change (digits (S (S fuel)) z acc) with
      (if z <? 10 then byte_of_Z (48 + z mod 10) :: acc
       else digits (S fuel) (z / 10) (byte_of_Z (48 + z mod 10) :: acc)).
    destruct (z <? 10); [eauto|]. apply IH. apply Z.div_pos; lia.
Qed.

Lemma signed_number_digit c l : is_digit c = true -> signed_number (c :: l) = (false, number (c :: l) 0, true).
Proof. intros Hd. destruct c; try discriminate Hd; reflexivity. Qed.

Lemma atoi_to_string z : 0 <= z < 2 ^ 31 -> atoi (to_string z) = Ok z.
Proof.
  intros Hz. unfold to_string. destruct (Z.ltb_spec z 0); [lia|].
  destruct (digits_head 19 z [] ltac:(lia)) as (c & l & E & Hd).
  pose proof (number_digits 20 z [] ltac:(word_lia)) as Hn. rewrite E in Hn |- *.
  unfold atoi. rewrite signed_number_digit by done. rewrite Hn. cbn [number].
  rewrite (proj2 (Z.leb_le _ _)), (proj2 (Z.ltb_lt _ _)) by lia. done.
Qed.

Lemma digits_are_digits fuel z acc :
  0 <= z -> Forall (fun c => is_digit c = true) acc ->
  Forall (fun c => is_digit c = true) (digits fuel z acc).
Proof.
  revert z acc. induction fuel as [|fuel IH]; intros z acc Hz Ha; [done|]. cbn [digits].
  pose proof (Z.mod_pos_bound z 10 ltac:(lia)) as Hm.
  assert (is_digit (byte_of_Z (48 + z mod 10)) = true) as Hd
    by (unfold is_digit; rewrite Z_of_byte_of_Z, wrapU_small by word_lia;
        apply andb_true_iff; rewrite !Z.leb_le; lia).
  destruct (z <? 10); [by constructor|]. apply IH; [apply Z.div_pos; lia|by constructor].
Qed.

Lemma to_string_digits z : 0 <= z -> Forall (fun c => is_digit c = true) (to_string z).
Proof.
  intros Hz. unfold to_string. destruct (Z.ltb_spec z 0); [lia|]. by apply digits_are_digits.
Qed.
