(* ===== verification/Random.v ===== *)
(** Random values (source/bee/common/randgen.h, randgen.cpp): strings, names,
    colours, dates, identifiers, choices, samples.  The engine and the
    distributions of the standard library are parameters with what is documented
    of them. *)

From S2P Require Import Prelude Octets Marshal Text.

Section Random.
Context {engine : Type}.
(** [uniform_int_distribution(a, b)(eng)], for [a <= b]. *)
Variable uniform : Z -> Z -> engine -> Z * engine.
Hypothesis uniform_range : forall a b e, a <= b -> a <= (uniform a b e).1 <= b.

Abbreviation RND := (M engine).

(** A distribution with its bounds the wrong way round is undefined. *)
Definition dist (a b : Z) : RND Z := fun e =>
  if a <=? b then let '(z, e) := uniform a b e in (e, Ok z) else (e, Fault (UB "uniform_int_distribution(a, b) with a > b")).

(** [range] and [generate] of an integer type: of [random_engine], and of the engine of [random]. *)
Definition range (min max : Z) : RND Z := dist min max.
Definition generate (max : Z) : RND Z := dist 0 max.

(** The state of a thread is its [thread_local] instance, [None] before it is
    constructed.  The constructor calls [init_seed], which calls [get_instance]
    again: the declaration is entered while the variable is being initialised,
    which is undefined. *)
Abbreviation TLS := (M (option engine)).
Definition get_instance : TLS engine := fun i =>
  match i with Some e => (i, Ok e) | None => (i, Fault (UB "recursive initialisation of the thread_local instance")) end.
(** A static member: what it draws from the instance of its thread. *)
Definition on_instance {A} (f : RND A) : TLS A :=
  e ← get_instance; let '(e, r) := f e in put (Some e);; lift r.
(** [seeded]: the engine [std::mt19937_64::seed] makes. *)
Definition init_seed (seeded : Z -> engine) (seed : Z) : TLS unit := on_instance (fun _ => (seeded seed, Ok tt)).

Fixpoint generate_loop (n : nat) (charset : list byte) : RND (list byte) :=
  match n with
  | O => mret []
  | S n => z ← dist 0 (u64 (len charset - 1)); rest ← generate_loop n charset;
           match charset !! Z.to_nat z with
           | Some c => mret (c :: rest)
           | None => match bool_decide (Z.to_nat z = length charset) with   (* operator[] of size() *)
                     | true => mret (x00 :: rest)
                     | false => fail (UB "operator[] out of range")
                     end
           end
  end.
Definition generate_string (length : Z) (charset : list byte) : RND (list byte) := generate_loop (Z.to_nat length) charset.

Definition charset_of (include_upper include_lower include_digits include_special : bool) : list byte :=
  (if include_upper then str "ABCDEFGHIJKLMNOPQRSTUVWXYZ" else []) ++
  (if include_lower then str "abcdefghijklmnopqrstuvwxyz" else []) ++
  (if include_digits then str "0123456789" else []) ++
  (if include_special then str "!@#$%^&*()_+-=[]{}|;:,.<>?" else []).
Definition safe_chars : list byte := str "abcdefghijklmnopqrstuvwxyz0123456789".
Definition random_filename (length : Z) (extension : list byte) : RND (list byte) :=
  name ← generate_string length safe_chars;
  mret (match extension with [] => name | _ => name ++ x2e :: extension end).

Definition random_color : RND (Z * Z * Z) :=
  r ← dist 0 255; g ← dist 0 255; b ← dist 0 255; mret (u8 r, u8 g, u8 b).

Definition is_leap_year (year : Z) : bool :=
  (Z.rem year 4 =? 0) && (negb (Z.rem year 100 =? 0) || (Z.rem year 400 =? 0)).
Definition days_in_month : list Z := [31; 28; 31; 30; 31; 30; 31; 31; 30; 31; 30; 31].

Definition random_date : RND (Z * Z * Z) :=
  year ← dist 1900 2100;
  month ← dist 1 12;
  day_max ← lift (match days_in_month !! Z.to_nat (month - 1) with Some d => Ok d | None => Fault (UB "out of bounds") end);
  let day_max := if (month =? 2) && is_leap_year year then 29 else day_max in
  day ← dist 1 day_max;
  mret (year, month, day).

Definition hex_digits : list byte := str "0123456789abcdef".
Definition uuid_pattern : list byte := str "xxxxxxxx-xxxx-4xxx-yxxx-xxxxxxxxxxxx".

Fixpoint uuid_loop (pattern : list byte) : RND (list byte) :=
  match pattern with
  | [] => mret []
  | c :: pattern =>
      c ← (if bool_decide (c = x78) then z ← dist 0 15; mret (default x00 (hex_digits !! Z.to_nat z))
           else if bool_decide (c = x79) then z ← dist 0 15; mret (default x00 (str "89ab" !! Z.to_nat (Z.land z 3)))
           else mret c);
      rest ← uuid_loop pattern;
      mret (c :: rest)
  end.
Definition uuid : RND (list byte) := uuid_loop uuid_pattern.

Fixpoint random_bytes (count : nat) : RND (list Z) :=
  match count with O => mret [] | S count => z ← dist 0 255; rest ← random_bytes count; mret (u8 z :: rest) end.

Definition choice {A} (default_value : A) (container : list A) : RND A :=
  match container with
  | [] => mret default_value
  | _ => index ← dist 0 (u64 (len container - 1));
         match container !! Z.to_nat index with Some x => mret x | None => fail (UB "advance behind the end") end
  end.

(** The static members of [random]. *)
Definition random_range (min max : Z) : TLS Z := on_instance (range min max).
Definition random_choice {A} (default_value : A) (container : list A) : TLS A :=
  match container with [] => mret default_value | _ => on_instance (choice default_value container) end.
Definition random_random_string (length : Z) (include_upper include_lower include_digits include_special : bool) : TLS (list byte) :=
  match charset_of include_upper include_lower include_digits include_special with
  | [] => mret []
  | charset => on_instance (generate_string length charset)
  end.
Definition random_random_filename (length : Z) (extension : list byte) : TLS (list byte) := on_instance (random_filename length extension).
Definition random_random_color : TLS (Z * Z * Z) := on_instance random_color.
Definition random_random_date : TLS (Z * Z * Z) := on_instance random_date.
Definition random_uuid : TLS (list byte) := on_instance uuid.
Definition random_random_bytes (count : nat) : TLS (list Z) := on_instance (random_bytes count).

(** ** What they give *)

Lemma dist_ok a b e : a <= b -> exists z e', dist a b e = (e', Ok z) /\ a <= z <= b.
Proof.
  intros H. unfold dist. rewrite (proj2 (Z.leb_le _ _)) by done. pose proof (uniform_range a b e H) as Hr.
  destruct (uniform a b e) as [z e']. by exists z, e'.
Qed.

Ltac draw H := match goal with |- context [(dist ?a ?b ≫= ?k) ?e] =>
  let z := fresh "z" in let e' := fresh "e" in let E := fresh "E" in
  destruct (dist_ok a b e ltac:(cbn; lia)) as (z & e' & E & H); rewrite (M_bind_ok _ _ _ _ _ E) end.

Lemma generate_string_ok length charset e :
  charset <> [] -> len charset < 2 ^ 63 -> 0 <= length ->
  exists s e', generate_string length charset e = (e', Ok s) /\ len s = length /\ Forall (fun c => c ∈ charset) s.
Proof.
  intros Hne Hlen Hl. unfold generate_string. pose proof (len_nonneg charset).
  assert (0 < len charset) as Hpos by (destruct charset; [done|rewrite len_cons; pose proof (len_nonneg charset); lia]).
  enough (exists s e', generate_loop (Z.to_nat length) charset e = (e', Ok s) /\ List.length s = Z.to_nat length /\
    Forall (fun c => c ∈ charset) s) as (s & e' & E & Es & Hs).
  { exists s, e'. split; [done|]. split; [unfold len; lia|done]. }
  clear Hl. generalize (Z.to_nat length). intros n. revert e. induction n as [|n IH]; intros e; cbn [generate_loop].
  { exists [], e. split; [done|]. split; [done|constructor]. }
  rewrite wrapU_small by (unfold inU; lia).
  destruct (dist_ok 0 (len charset - 1) e ltac:(lia)) as (z & e1 & E & Hz). rewrite (M_bind_ok _ _ _ _ _ E).
  destruct (IH e1) as (s & e2 & E2 & Hs & Hf). rewrite (M_bind_ok _ _ _ _ _ E2).
  destruct (lookup_lt_is_Some_2 charset (Z.to_nat z)) as [c Hc]; [unfold len in *; lia|]. rewrite Hc.
  exists (c :: s), e2. split; [done|]. split; [cbn; lia|]. constructor; [by eapply list_elem_of_lookup_2|done].
Qed.

Lemma random_color_ok e : exists r g b e', random_color e = (e', Ok (r, g, b)) /\ inU 8 r /\ inU 8 g /\ inU 8 b.
Proof.
  unfold random_color. draw Hr. draw Hg. draw Hb.
  eexists _, _, _, _. split; [done|]. repeat split; unfold inU; rewrite ?wrapU_small; unfold inU; lia.
Qed.

(** The days a month has. *)
Definition month_length (year month : Z) : Z :=
  if month =? 2 then (if (year mod 4 =? 0) && (negb (year mod 100 =? 0) || (year mod 400 =? 0)) then 29 else 28)
  else if existsb (Z.eqb month) [4; 6; 9; 11] then 30 else 31.

Lemma random_date_ok e :
  exists year month day e', random_date e = (e', Ok (year, month, day)) /\
    1900 <= year <= 2100 /\ 1 <= month <= 12 /\ 1 <= day <= month_length year month.
Proof.
  unfold random_date. draw Hy. draw Hm. rename z into year, z0 into month.
  assert (exists d, days_in_month !! Z.to_nat (month - 1) = Some d /\
    (if (month =? 2) && is_leap_year year then 29 else d) = month_length year month) as (d & Hd & Hl).
  { unfold month_length, is_leap_year. rewrite !Z.rem_mod_nonneg by lia.
    assert (month = 1 \/ month = 2 \/ month = 3 \/ month = 4 \/ month = 5 \/ month = 6 \/ month = 7 \/ month = 8 \/
      month = 9 \/ month = 10 \/ month = 11 \/ month = 12) as Hc by lia.
    destruct Hc as [->|[->|[->|[->|[->|[->|[->|[->|[->|[->|[->| ->]]]]]]]]]]]; eexists; (split; [reflexivity|]); try done. }
  rewrite (M_bind_ok _ _ e1 e1 d) by (unfold lift; by rewrite Hd). rewrite Hl.
  assert (1 <= month_length year month) as Hpos.
  { unfold month_length. repeat case_match; lia. }
  destruct (dist_ok 1 (month_length year month) e1 Hpos) as (day & e2 & E2 & Hday). rewrite (M_bind_ok _ _ _ _ _ E2).
  by eexists _, _, _, _.
Qed.

Lemma uuid_pattern_plain i p : uuid_pattern !! i = Some p -> i ∉ [8; 13; 18; 23; 19]%nat -> p = x78 \/ p = x34.
Proof.
  set (plain := fun i => implb (negb (bool_decide (i ∈ [8; 13; 18; 23; 19]%nat)))
    (match uuid_pattern !! i with Some p => bool_decide (p = x78 \/ p = x34) | None => false end)).
  intros Hp Hi. assert (Forall (fun i => plain i = true) (seq 0 36)) as Hall by (repeat constructor).
  rewrite Forall_forall in Hall. specialize (Hall i). rewrite elem_of_seq in Hall.
  pose proof (lookup_lt_Some _ _ _ Hp) as Hlt. specialize (Hall ltac:(cbn in Hlt; lia)). unfold plain in Hall.
  rewrite bool_decide_false in Hall by done. rewrite Hp in Hall. by apply bool_decide_eq_true in Hall.
Qed.

(** A hexadecimal digit, a digit of the variant, or the character itself. *)
Definition uuid_char (p c : byte) : Prop :=
  if bool_decide (p = x78) then c ∈ hex_digits else if bool_decide (p = x79) then c ∈ str "89ab" else c = p.

Lemma uuid_loop_ok pattern e : exists s e', uuid_loop pattern e = (e', Ok s) /\ Forall2 uuid_char pattern s.
Proof.
  revert e. induction pattern as [|p pattern IH]; intros e; cbn [uuid_loop]; [by eexists [], e|].
  enough (exists c e1, (if bool_decide (p = x78) then z ← dist 0 15; mret (default x00 (hex_digits !! Z.to_nat z))
      else if bool_decide (p = x79) then z ← dist 0 15; mret (default x00 (str "89ab" !! Z.to_nat (Z.land z 3)))
      else mret p) e = (e1, Ok c) /\ uuid_char p c) as (c & e1 & E & Hc).
  { rewrite (M_bind_ok _ _ _ _ _ E). destruct (IH e1) as (s & e2 & E2 & Hs). rewrite (M_bind_ok _ _ _ _ _ E2).
    exists (c :: s), e2. split; [done|by constructor]. }
  unfold uuid_char. destruct (bool_decide (p = x78)).
  { draw Hz. eexists _, _. split; [done|]. destruct (lookup_lt_is_Some_2 hex_digits (Z.to_nat z)) as [c Hc]; [cbn; lia|].
    rewrite Hc. by eapply list_elem_of_lookup_2. }
  destruct (bool_decide (p = x79)); [|by eexists _, _].
  draw Hz. eexists _, _. split; [done|].
  assert (0 <= Z.land z 3 < 4) as Hl by (change 3 with (Z.ones 2); rewrite Z.land_ones by lia; apply Z.mod_pos_bound; lia).
  destruct (lookup_lt_is_Some_2 (str "89ab") (Z.to_nat (Z.land z 3))) as [c Hc]; [cbn; lia|].
  rewrite Hc. by eapply list_elem_of_lookup_2.
Qed.

(** What a static member of [random] that draws does on a thread whose instance
    is not constructed is undefined. *)
Lemma random_unusable {A} (f : RND A) : exists what, on_instance f None = (None, Fault (UB what)).
Proof. by eexists. Qed.

Lemma random_on_instance {A} (f : RND A) e e' a : f e = (e', Ok a) -> on_instance f (Some e) = (Some e', Ok a).
Proof. intros H. unfold on_instance. rewrite (M_bind_ok _ _ (Some e) (Some e) e) by done. by rewrite H. Qed.

(** An identifier has the shape of a version 4 UUID, whatever the engine draws. *)
Lemma uuid_shape e :
  exists s e', uuid e = (e', Ok s) /\ len s = 36 /\
    (forall i, i ∈ [8; 13; 18; 23]%nat -> s !! i = Some x2d) /\ s !! 14%nat = Some x34 /\
    (exists v, s !! 19%nat = Some v /\ v ∈ str "89ab") /\
    (forall i c, s !! i = Some c -> i ∉ [8; 13; 18; 23; 19]%nat -> c ∈ hex_digits).
Proof.
  destruct (uuid_loop_ok uuid_pattern e) as (s & e' & E & Hs). exists s, e'. split; [done|].
  pose proof (Forall2_length _ _ _ Hs) as Hl. split; [by unfold len; rewrite <- Hl|].
  assert (forall i p, uuid_pattern !! i = Some p -> exists c, s !! i = Some c /\ uuid_char p c) as Hat.
  { intros i p Hp. destruct (Forall2_lookup_l _ _ _ _ _ Hs Hp) as (c & ? & ?). eauto. }
  repeat split.
  - intros i Hi. assert (uuid_pattern !! i = Some x2d) as Hp.
    { repeat (apply elem_of_cons in Hi as [->|Hi]; [done|]). by apply not_elem_of_nil in Hi. }
    by destruct (Hat _ _ Hp) as (c & -> & ->).
  - by destruct (Hat 14%nat x34 eq_refl) as (c & -> & ->).
  - destruct (Hat 19%nat x79 eq_refl) as (c & Hc & Hv). by exists c.
  - intros i c Hc Hi. destruct (Forall2_lookup_r _ _ _ _ _ Hs Hc) as (p & Hp & Hpc).
    assert (p = x78 \/ p = x34) as Hx by (by eapply uuid_pattern_plain).
    unfold uuid_char in Hpc. destruct Hx as [-> | ->]; [done|]. cbn in Hpc. rewrite Hpc. by apply (list_elem_of_lookup_2 _ 4).
Qed.
End Random.


(** ** Distributions, samples and weights

    Floating-point numbers are a type [D] with zero, sum and order, and the other
    distributions and algorithms of the standard library are parameters with what
    is documented of them. *)

Inductive distribution (D : Type) :=
  | NormalDist (mean stddev : D)
  | ExponentialDist (lambda : D)
  | GammaDist (alpha beta : D)
  | UniformReal (a b : D).
Arguments NormalDist {D} _ _.
Arguments ExponentialDist {D} _.
Arguments GammaDist {D} _ _.
Arguments UniformReal {D} _ _.

Section Distributions.
Context {engine D : Type} (d0 d1 : D) (dadd : D -> D -> D) (dleb : D -> D -> bool).
Variable draw_real : distribution D -> engine -> D * engine.
Variable draw_poisson : D -> engine -> Z * engine.
Variable draw_bernoulli : D -> engine -> bool * engine.
(** [std::sample] of [n] elements, and [std::shuffle]. *)
Variable std_sample : forall {A}, list A -> Z -> engine -> list A * engine.
Variable std_shuffle : forall {A}, list A -> engine -> list A * engine.
Hypothesis sample_sublist : forall A (l : list A) n e, 0 <= n ->
  sublist (std_sample l n e).1 l /\ len (std_sample l n e).1 = Z.min n (len l).
Hypothesis shuffle_permutes : forall A (l : list A) e, Permutation (std_shuffle l e).1 l.

Abbreviation RND := (M engine).
Abbreviation TLS := (M (option engine)).
Definition drawn {A} (f : engine -> A * engine) : RND A := fun e => let '(a, e) := f e in (e, Ok a).

(** The static members of [random]. *)
Definition normal (mean stddev : D) : TLS D := on_instance (drawn (draw_real (NormalDist mean stddev))).
Definition exponential (lambda : D) : TLS D := on_instance (drawn (draw_real (ExponentialDist lambda))).
Definition random_gamma (alpha beta : D) : TLS D := on_instance (drawn (draw_real (GammaDist alpha beta))).
Definition poisson (mean : D) : TLS Z := on_instance (drawn (draw_poisson mean)).
Definition bernoulli (p : D) : TLS bool := on_instance (drawn (draw_bernoulli p)).
Definition probability (p : D) : TLS bool := bernoulli p.
(** [range] and [generate] of a floating-point type. *)
Definition range_real (min max : D) : TLS D :=
  on_instance (fun e => if dleb min max then drawn (draw_real (UniformReal min max)) e
                        else (e, Fault (UB "uniform_real_distribution(a, b) with a > b"))).
Definition generate_real : TLS D := on_instance (drawn (draw_real (UniformReal d0 d1))).

(** An engine of one's own: [normal] and [exponential] are those of [random]. *)
Record two_engines := mk_engines { own_engine : engine; thread_instance : option engine }.
Definition on_own {A} (f : RND A) : M two_engines A := fun s =>
  let '(e, r) := f (own_engine s) in (mk_engines e (thread_instance s), r).
Definition on_thread {A} (f : TLS A) : M two_engines A := fun s =>
  let '(i, r) := f (thread_instance s) in (mk_engines (own_engine s) i, r).
Definition engine_seed (seeded : Z -> engine) (seed : Z) : M two_engines unit := on_own (fun _ => (seeded seed, Ok tt)).
Definition engine_generate_real : M two_engines D := on_own (drawn (draw_real (UniformReal d0 d1))).
Definition engine_normal (mean stddev : D) : M two_engines D := on_thread (normal mean stddev).
Definition engine_exponential (lambda : D) : M two_engines D := on_thread (exponential lambda).

Definition select {A} (container : list A) (count : Z) : TLS (list A) :=
  if (count =? 0) || bool_decide (length container = 0%nat) then mret []
  else on_instance (drawn (std_sample container count)).

(** [shuffle] changes the container, [shuffled] a copy. *)
Definition shuffle {A} (container : list A) : TLS (list A) := on_instance (drawn (std_shuffle container)).
Definition shuffled {A} (container : list A) : TLS (list A) := let copy := container in shuffle copy.

(** A reference to the default value, which is a temporary, dangles. *)
Fixpoint weighted_loop {A} (r cumulative : D) (items : list A) (weights : list D) (back : A) : A :=
  match items, weights with
  | x :: items, w :: weights =>
      let cumulative := dadd cumulative w in
      if dleb r cumulative then x else weighted_loop r cumulative items weights back
  | _, _ => back
  end.
Definition weighted_choice {A} (items : list A) (weights : list D) : TLS A :=
  match items with
  | [] => fail (UB "reference to a temporary")
  | front :: _ =>
      if negb (len items =? len weights) then mret front
      else
        let total_weight := foldl dadd d0 weights in
        r ← on_instance (fun e => if dleb d0 total_weight then drawn (draw_real (UniformReal d0 total_weight)) e
                                  else (e, Fault (UB "uniform_real_distribution(a, b) with a > b")));
        mret (weighted_loop r d0 items weights (List.last items front))
  end.

(** What is selected is part of the container, in its order, as much as there is. *)
Lemma select_ok {A} (container : list A) count e :
  0 <= count ->
  exists l e', select container count (Some e) = (Some e', Ok l) /\ sublist l container /\ len l = Z.min count (len container).
Proof.
  intros Hc. unfold select. destruct (_ || _) eqn:E.
  - exists [], e. split; [done|]. split; [apply sublist_nil_l|]. apply orb_prop in E as [E|E].
    + apply Z.eqb_eq in E as ->. rewrite len_nil. pose proof (len_nonneg container). lia.
    + apply bool_decide_eq_true in E. unfold len. rewrite E. cbn. lia.
  - destruct (sample_sublist A container count e Hc) as [Hs Hl]. destruct (std_sample container count e) as [l e'] eqn:Es.
    exists l, e'. split; [|done]. apply random_on_instance. unfold drawn. by rewrite Es.
Qed.

Lemma shuffled_ok {A} (container : list A) e :
  exists l e', shuffled container (Some e) = (Some e', Ok l) /\ Permutation l container.
Proof.
  pose proof (shuffle_permutes A container e) as Hp. destruct (std_shuffle container e) as [l e'] eqn:Es.
  exists l, e'. split; [|done]. unfold shuffled, shuffle. apply random_on_instance. unfold drawn. by rewrite Es.
Qed.

(** The sum of the first [n] weights. *)
Definition weight_before (weights : list D) (n : nat) : D := foldl dadd d0 (take n weights).

(** The item taken is the first whose weights up to it reach what was drawn. *)
Lemma weighted_loop_first {A} r (items : list A) weights back i x :
  length items = length weights -> items !! i = Some x ->
  dleb r (weight_before weights (S i)) = true ->
  (forall j, (j < i)%nat -> dleb r (weight_before weights (S j)) = false) ->
  weighted_loop r d0 items weights back = x.
Proof.
  unfold weight_before. generalize d0. revert weights i.
  induction items as [|y items IH]; intros [|w weights] i c Hl Hi Hle Hlt; try done.
  cbn [weighted_loop]. destruct i as [|i].
  - injection Hi as ->. change (dleb r (dadd c w) = true) in Hle. by rewrite Hle.
  - pose proof (Hlt 0%nat ltac:(lia)) as H0. change (dleb r (dadd c w) = false) in H0. rewrite H0.
    apply (IH weights i (dadd c w)); [cbn in Hl; lia|done|done|].
    intros j Hj. apply (Hlt (S j)). lia.
Qed.

(** Whatever its seed, an engine of one's own has no part in its normal and
    exponential values: they come from the thread's instance. *)
Lemma engine_normal_not_own mean stddev e i :
  (engine_normal mean stddev (mk_engines e i)).1 = mk_engines e (normal mean stddev i).1 /\
  (engine_normal mean stddev (mk_engines e i)).2 = (normal mean stddev i).2.
Proof. unfold engine_normal, on_thread. cbn. by destruct (normal mean stddev i). Qed.
End Distributions.
