(* ===== verification/Cli.v ===== *)
(** The command line (source/bee/cli/, source/client/app_command.h): commands on
    a heap of their own, since they point to each other, their options held by
    [shared_ptr], the parser of a line, aliases, files of commands, completion
    and the loop that reads until [QUIT] and exits. *)

From stdpp Require Import sorting fin_sets infinite.
From S2P Require Import Prelude Octets Marshal Text.

(** ** Data *)

(** cli.h *)
Definition OK : Z := 0.
Definition ERROR : Z := 1.
Definition QUIT : Z := 2.
Definition ERR_TOO_MUCH_PARAMS_COUNT : Z := 4.
Definition to_error_string (errcode : Z) : list byte :=
  if errcode =? OK then str "OK" else if errcode =? ERROR then str "Error"
  else if errcode =? QUIT then str "Quit"
  else if errcode =? ERR_TOO_MUCH_PARAMS_COUNT then str "It is too much parameters."
  else str "Unkonwn Error".

(** The classes derived from [command].  [function_command] holds a function
    without arguments, perhaps none; its outcome is all that matters here. *)
Inductive command_class :=
  | command_base
  | global_help_command
  | help_command
  | exit_command
  | function_command (func : option (outcome Z))
  | config_command
  | config_reload_command
  | connect_command.

Record command := mk_command {
  cm_class : command_class;
  cm_name : list byte;
  cm_description : list byte;
  cm_parent : option positive;
  cm_alias : gset (list byte);
  cm_subcommands : gmap (list byte) positive;
  cm_options : gmap (list byte) positive;
}.

Definition cm_with_parent (q : option positive) (c : command) : command :=
  mk_command (cm_class c) (cm_name c) (cm_description c) q (cm_alias c) (cm_subcommands c) (cm_options c).
Definition cm_with_alias (a : gset (list byte)) (c : command) : command :=
  mk_command (cm_class c) (cm_name c) (cm_description c) (cm_parent c) a (cm_subcommands c) (cm_options c).
Definition cm_with_subs (m : gmap (list byte) positive) (c : command) : command :=
  mk_command (cm_class c) (cm_name c) (cm_description c) (cm_parent c) (cm_alias c) m (cm_options c).
Definition cm_with_options (m : gmap (list byte) positive) (c : command) : command :=
  mk_command (cm_class c) (cm_name c) (cm_description c) (cm_parent c) (cm_alias c) (cm_subcommands c) m.

(** What the commands of the client do to the rest of the program. *)
Inductive cli_effect :=
  | EffConfigInit (file : list byte)
  | EffConfigReload
  | EffConnect.

(** The objects, the counts of the [shared_ptr]s, the objects whose destructor
    runs, and the members of [command_line]; then what the process has written,
    its history and its effects. *)
Record cli := mk_cli {
  cl_objs : gmap positive command;
  cl_refs : gmap positive nat;
  cl_dying : gset positive;
  cl_commands : gmap (list byte) positive;
  cl_alias : gmap (list byte) (list byte);
  cl_greeting : list byte;
  cl_out : list byte;
  cl_history : list (list byte);
  cl_effects : list cli_effect;
}.

Definition cl_with_objs f s :=
  mk_cli (f (cl_objs s)) (cl_refs s) (cl_dying s) (cl_commands s) (cl_alias s) (cl_greeting s) (cl_out s) (cl_history s) (cl_effects s).
Definition cl_with_refs f s :=
  mk_cli (cl_objs s) (f (cl_refs s)) (cl_dying s) (cl_commands s) (cl_alias s) (cl_greeting s) (cl_out s) (cl_history s) (cl_effects s).
Definition cl_with_dying f s :=
  mk_cli (cl_objs s) (cl_refs s) (f (cl_dying s)) (cl_commands s) (cl_alias s) (cl_greeting s) (cl_out s) (cl_history s) (cl_effects s).
Definition cl_with_commands f s :=
  mk_cli (cl_objs s) (cl_refs s) (cl_dying s) (f (cl_commands s)) (cl_alias s) (cl_greeting s) (cl_out s) (cl_history s) (cl_effects s).
Definition cl_with_aliases f s :=
  mk_cli (cl_objs s) (cl_refs s) (cl_dying s) (cl_commands s) (f (cl_alias s)) (cl_greeting s) (cl_out s) (cl_history s) (cl_effects s).
Definition cl_with_greeting g s :=
  mk_cli (cl_objs s) (cl_refs s) (cl_dying s) (cl_commands s) (cl_alias s) g (cl_out s) (cl_history s) (cl_effects s).
Definition cl_print out s :=
  mk_cli (cl_objs s) (cl_refs s) (cl_dying s) (cl_commands s) (cl_alias s) (cl_greeting s) (cl_out s ++ out) (cl_history s) (cl_effects s).
Definition cl_with_history f s :=
  mk_cli (cl_objs s) (cl_refs s) (cl_dying s) (cl_commands s) (cl_alias s) (cl_greeting s) (cl_out s) (f (cl_history s)) (cl_effects s).
Definition cl_effect e s :=
  mk_cli (cl_objs s) (cl_refs s) (cl_dying s) (cl_commands s) (cl_alias s) (cl_greeting s) (cl_out s) (cl_history s) (cl_effects s ++ [e]).

Abbreviation CLI := (M cli).

Definition printf (s : list byte) : CLI unit := modify (cl_print s).
Definition nl : list byte := [x0a].

(** [->] on a command, and a member written. *)
Definition cmd_at (p : positive) : CLI command :=
  s ← get; match cl_objs s !! p with Some c => mret c | None => fail (UB "use of a deleted command") end.
Definition cmd_update (p : positive) (f : command -> command) : CLI unit :=
  c ← cmd_at p; modify (cl_with_objs (<[p := f c]>)).

(** One call of [command_generator] with another state: the matches and the
    index are the thread's. *)
Definition generator_next (matches : list (list byte)) (match_index : nat) : option (list byte) * nat :=
  match matches !! match_index with Some m => (Some (c_string m), S match_index) | None => (None, match_index) end.

Section Cli.
(** The order in which the hash tables are walked. *)
Variable order : forall A : Type, gmap (list byte) A -> list (list byte * A).
Hypothesis order_perm : forall A (m : gmap (list byte) A), order A m ≡ₚ map_to_list m.
(** The file system and the configuration, for the client's commands. *)
Variable fs_exists : list byte -> bool.
Variable default_config : list byte.
Variable config_reloads : bool.

(** ** Destruction *)

(** The last reference deletes. *)
Definition opt_release (delete_command : positive -> CLI unit) (p : positive) : CLI unit :=
  s ← get;
  match cl_refs s !! p with
  | Some (S (S n)) => modify (cl_with_refs (<[p := S n]>))
  | _ => modify (cl_with_refs (delete p));; delete_command p
  end.

Fixpoint release_all (delete_command : positive -> CLI unit) (ps : list positive) : CLI unit :=
  match ps with [] => mret tt | p :: ps => opt_release delete_command p;; release_all delete_command ps end.

(** [delete]: the destructor deletes the parent, then gives the options back.
    Destroying an object that is gone, or whose destructor is already running,
    is undefined.  Each level of [delete] under way is one more object dying,
    so that their number is fuel enough. *)
Fixpoint delete_command (fuel : nat) (p : positive) : CLI unit :=
  match fuel with
  | O => fail OutOfFuel
  | S fuel =>
      s ← get;
      match cl_objs s !! p with
      | None => fail (UB "double delete")
      | Some c =>
          if bool_decide (p ∈ cl_dying s) then fail (UB "double delete")
          else
            modify (cl_with_dying (union {[p]}));;
            (match cm_parent c with Some q => delete_command fuel q | None => mret tt end);;
            cmd_update p (cm_with_subs ∅);;
            c ← cmd_at p;
            cmd_update p (cm_with_options ∅);;
            release_all (delete_command fuel) (snd <$> order _ (cm_options c));;
            modify (fun s => cl_with_dying (fun d => d ∖ {[p]}) (cl_with_objs (delete p) s))
      end
  end.
Definition cmd_delete (p : positive) : CLI unit := s ← get; delete_command (S (size (cl_objs s))) p.

(** ** command *)

Definition get_option (p : positive) (option_name : list byte) : CLI (option positive) :=
  c ← cmd_at p; mret (cm_options c !! option_name).

Definition option_copy (o : positive) : CLI unit := modify (cl_with_refs (alter S o)).

(** [emplace] of a copy of the [shared_ptr], and whether the name was free. *)
Definition option_emplace (p : positive) (name : list byte) (o : positive) : CLI bool :=
  c ← cmd_at p;
  match cm_options c !! name with
  | Some _ => mret false
  | None => option_copy o;; cmd_update p (cm_with_options (<[name := o]> (cm_options c)));; mret true
  end.

Definition add_option (p : positive) (short_name long_name : list byte) (o : positive) : CLI Z :=
  modify (cl_with_refs (<[o := 1%nat]>));;
  c ← cmd_at p;
  let refuse msg := printf msg;; opt_release cmd_delete o;; mret ERROR in
  if negb (bool_decide (short_name = [])) && negb (startswith short_name (str "-")) then
    refuse (str "Command " ++ c_string (cm_name c) ++ str " short name option " ++ c_string short_name ++ str " failed, must starts with '-'." ++ nl)
  else if negb (bool_decide (long_name = [])) && negb (startswith long_name (str "--")) then
    refuse (str "Command " ++ c_string (cm_name c) ++ str " long name option " ++ c_string long_name ++ str " failed, must starts with '--'." ++ nl)
  else
    short_ok ← (if bool_decide (short_name = []) then mret true else option_emplace p short_name o);
    if negb short_ok then
      refuse (str "Command " ++ c_string (cm_name c) ++ str " add short name option failed, option " ++ c_string short_name ++ str " repeated." ++ nl)
    else
      long_ok ← (if bool_decide (long_name = []) then mret true else option_emplace p long_name o);
      if negb long_ok then
        refuse (str "Command " ++ c_string (cm_name c) ++ str " add long name option failed, option " ++ c_string long_name ++ str " repeated." ++ nl)
      else
        cmd_update o (cm_with_parent (Some p));;
        opt_release cmd_delete o;;
        mret OK.

Definition remove_option (p : positive) (option_name : list byte) : CLI Z :=
  c ← cmd_at p;
  match cm_options c !! option_name with
  | Some o =>
      cmd_update o (cm_with_parent None);;
      c ← cmd_at p;
      cmd_update p (cm_with_options (delete option_name (cm_options c)));;
      opt_release cmd_delete o;;
      mret OK
  | None =>
      printf (str "Command " ++ c_string (cm_name c) ++ str " remove option failed, option " ++ c_string option_name ++ str " not found." ++ nl);;
      mret ERROR
  end.

Definition get_subcommand (p : positive) (name : list byte) : CLI (option positive) :=
  c ← cmd_at p; mret (cm_subcommands c !! name).

Definition remove_subcommand (p : positive) (name : list byte) : CLI unit :=
  c ← cmd_at p;
  match cm_subcommands c !! name with
  | Some q =>
      cmd_update q (cm_with_parent None);;
      cmd_delete q;;
      c ← cmd_at p;
      cmd_update p (cm_with_subs (delete name (cm_subcommands c)))
  | None => mret tt
  end.

Definition add_subcommand (p : positive) (name : list byte) (q : positive) : CLI unit :=
  remove_subcommand p name;;
  c ← cmd_at p;
  cmd_update p (cm_with_subs (<[name := q]> (cm_subcommands c)));;
  cmd_update q (cm_with_parent (Some p)).

(** [new]: [alloc] for the object, [init_default] for the default option. *)
Definition cmd_alloc (cls : command_class) (name description : list byte) : CLI positive :=
  s ← get;
  let p := base.fresh (dom (cl_objs s)) in
  modify (cl_with_objs (<[p := mk_command cls name description None ∅ ∅ ∅]>));; mret p.

Definition init_default (p : positive) : CLI unit :=
  h ← cmd_alloc help_command (str "help") (str "Print usage information and exit.");
  add_option p (str "-h") (str "--help") h;; mret tt.

Definition command_new (cls : command_class) (name description : list byte) : CLI positive :=
  p ← cmd_alloc cls name description;
  match cls with
  | global_help_command | help_command => mret p
  | config_command =>
      init_default p;;
      r ← cmd_alloc config_reload_command (str "reload") (str "reload config");
      init_default r;;
      add_subcommand p (str "reload") r;;
      mret p
  | _ => init_default p;; mret p
  end.

(** "  %-8s = %s\n" *)
Definition help_line (a b : list byte) : list byte :=
  let a := c_string a in
  [x20; x20] ++ a ++ replicate (8 - length a) x20 ++ str " = " ++ c_string b ++ nl.

Fixpoint help_lines (l : list (list byte * positive)) : CLI (list byte) :=
  match l with
  | [] => mret []
  | (name, q) :: l => c ← cmd_at q; rest ← help_lines l; mret (help_line name (cm_description c) ++ rest)
  end.

(** The order of [std::set<std::string>]. *)
Fixpoint string_leb (a b : list byte) : bool :=
  match a, b with
  | [], _ => true
  | _, [] => false
  | x :: a, y :: b => (Z_of_byte x <? Z_of_byte y) || ((Z_of_byte x =? Z_of_byte y) && string_leb a b)
  end.
Definition sorted_alias (a : gset (list byte)) : list (list byte) :=
  merge_sort (fun a b => Is_true (string_leb a b)) (elements a).

Definition print_help (p : positive) : CLI unit :=
  c ← cmd_at p;
  options ← help_lines (order _ (cm_options c));
  subcommands ← help_lines (order _ (cm_subcommands c));
  printf (c_string (str "Usage: " ++ cm_name c ++ str " [option][subcommand]" ++ nl ++ cm_description c ++ nl ++
    (if bool_decide (cm_options c = ∅) then [] else str "Options:" ++ nl ++ options) ++
    (if bool_decide (cm_subcommands c = ∅) then [] else str "Subcommand:" ++ nl ++ subcommands) ++
    (if bool_decide (cm_alias c = ∅) then [] else
       str "Alias:" ++ nl ++ concat ((fun a => [x20; x20] ++ a ++ nl) <$> sorted_alias (cm_alias c))))).

(** ** The virtual function, per class *)

Definition config_init (file : list byte) (announce : list byte) : CLI Z :=
  if fs_exists file then printf announce;; modify (cl_effect (EffConfigInit file));; mret OK
  else printf (str "Config file " ++ file ++ str " not found." ++ nl);; mret ERROR.

Definition config_do_execute (params : list (list byte)) : CLI Z :=
  match params with
  | [] => config_init default_config
            (str "Use default config file " ++ [x22] ++ default_config ++ [x22] ++ str " because not specify config file." ++ nl)
  | [f] => config_init (c_string f) (str "Use config file " ++ c_string f ++ nl)
  | _ => mret ERR_TOO_MUCH_PARAMS_COUNT
  end.
Definition config_reload_do_execute (params : list (list byte)) : CLI Z :=
  match params with
  | [] => modify (cl_effect EffConfigReload);; mret (if config_reloads then OK else ERROR)
  | [f] => config_init (c_string f) []
  | _ => mret ERR_TOO_MUCH_PARAMS_COUNT
  end.

Definition do_execute (p : positive) (params : list (list byte)) : CLI Z :=
  c ← cmd_at p;
  match cm_class c with
  | command_base => mret OK
  | global_help_command =>
      s ← get;
      lines ← help_lines (order _ (cl_commands s));
      printf (c_string (str "Usage:" ++ nl ++ lines));; mret OK
  | help_command =>
      match cm_parent c with
      | Some q => print_help q;; mret OK
      | None => fail (UB "null parent")
      end
  | exit_command => mret QUIT
  | function_command (Some r) => lift r
  | function_command None => printf (str "Function command _func is null" ++ nl);; mret ERROR
  | config_command => config_do_execute params
  | config_reload_command => config_reload_do_execute params
  | connect_command => modify (cl_effect EffConnect);; mret OK
  end.

(** The command takes its first parameter off and hands the rest on. *)
Fixpoint execute (p : positive) (params : list (list byte)) : CLI Z :=
  match params with
  | [] => do_execute p []
  | param :: rest =>
      if startswith param (str "--") || startswith param (str "-") then
        o ← get_option p param;
        match o with
        | Some q => execute q rest
        | None => printf (str "Unknown options " ++ c_string param ++ str "." ++ nl);; mret ERROR
        end
      else
        sub ← get_subcommand p param;
        match sub with
        | Some q => execute q rest
        | None => do_execute p rest
        end
  end.

(** ** command_line *)

Definition resolve (s : cli) (command_name : list byte) : list byte := default command_name (cl_alias s !! command_name).
Definition get_command (command_name : list byte) : CLI (option positive) :=
  s ← get; mret (cl_commands s !! resolve s command_name).

Fixpoint add_aliases (command_name : list byte) (p : positive) (alias : list (list byte)) : CLI Z :=
  match alias with
  | [] => mret OK
  | a :: alias =>
      s ← get;
      match cl_alias s !! a with
      | None =>
          modify (cl_with_aliases (<[a := command_name]>));;
          c ← cmd_at p;
          cmd_update p (cm_with_alias ({[a]} ∪ cm_alias c));;
          add_aliases command_name p alias
      | Some _ =>
          printf (str "Command " ++ c_string command_name ++ str " alias " ++ c_string a ++ str " is repeated." ++ nl);; mret ERROR
      end
  end.

Definition add_command (command_name : list byte) (p : positive) (alias : list (list byte)) : CLI Z :=
  s ← get;
  match cl_commands s !! command_name with
  | None => modify (cl_with_commands (<[command_name := p]>));; add_aliases command_name p alias
  | Some _ => printf (str "Command " ++ c_string command_name ++ str " already be registed." ++ nl);; mret ERROR
  end.

Definition remove_command (command_name : list byte) : CLI Z :=
  s ← get;
  let name := resolve s command_name in
  match cl_commands s !! name with
  | Some p =>
      c ← cmd_at p;
      modify (cl_with_aliases (fun m => filter (fun kv => kv.1 ∉ cm_alias c) m));;
      cmd_delete p;;
      modify (cl_with_commands (delete name));; mret OK
  | None =>
      printf (str "No need to remove command " ++ c_string command_name ++ str ", command not found." ++ nl);; mret ERROR
  end.

Definition cl_add_alias (command_name alias : list byte) : CLI Z :=
  s ← get;
  match cl_commands s !! resolve s command_name with
  | Some p =>
      match cl_alias s !! alias with
      | None =>
          modify (cl_with_aliases (<[alias := command_name]>));;
          c ← cmd_at p;
          cmd_update p (cm_with_alias ({[alias]} ∪ cm_alias c));; mret OK
      | Some _ => printf (str "Add command alias failed, alias " ++ c_string alias ++ str " is registed." ++ nl);; mret ERROR
      end
  | None =>
      printf (str "Add command alias " ++ c_string alias ++ str " failed, command " ++ c_string command_name ++ str " not found." ++ nl);;
      mret ERROR
  end.

Definition cl_remove_alias (command_name alias : list byte) : CLI Z :=
  s ← get;
  match cl_commands s !! command_name with
  | None =>
      printf (str "Remove command alias " ++ c_string alias ++ str " failed, command " ++ c_string command_name ++ str " not found" ++ nl);;
      mret ERROR
  | Some p =>
      match cl_alias s !! alias with
      | Some _ =>
          modify (cl_with_aliases (delete alias));;
          c ← cmd_at p;
          cmd_update p (cm_with_alias (cm_alias c ∖ {[alias]}));; mret OK
      | None => printf (str "No need to remove command " ++ c_string command_name ++ str " alias " ++ c_string alias ++ nl);; mret OK
      end
  end.

Definition execute_command (cmd : list byte) : CLI Z :=
  match split cmd (str " ") with
  | [] => mret OK
  | name :: params =>
      p ← get_command name;
      match p with
      | None => printf (str "Command " ++ c_string name ++ str " not found." ++ nl);; mret ERROR
      | Some p => execute p params
      end
  end.

(** The lines [std::getline] gives, one after the other. *)
Fixpoint execute_lines (lines : list (list byte)) (counter : Z) : CLI Z :=
  match lines with
  | [] => mret OK
  | cmd :: lines =>
      if bool_decide (head cmd = Some x23) then execute_lines lines counter
      else
        result ← execute_command cmd;
        if negb (result =? OK) then mret result
        else printf ([x5b] ++ to_string counter ++ [x5d] ++ nl);;
             execute_lines lines (s32 (counter + 1))
  end.
(** [None]: the file can not be opened. *)
Definition execute_file (file : option (list (list byte))) : CLI Z :=
  match file with
  | None => printf (str "Could not find the specified file to execute." ++ nl);; mret ERROR
  | Some lines => execute_lines lines 0
  end.

Definition cli_blank : cli := mk_cli ∅ ∅ ∅ ∅ ∅ (str "$ ") [] [] [].

Fixpoint execute_files (files : list (list byte * option (list (list byte)))) : CLI unit :=
  match files with
  | [] => mret tt
  | (path, file) :: files => printf (str "Found " ++ path ++ nl);; execute_file file;; execute_files files
  end.
(** [inits]: the files named .cliinit below the current directory. *)
Definition command_line_ctor (inits : list (list byte * option (list (list byte)))) : CLI unit :=
  h ← command_new global_help_command (str "help") (str "Enter " ++ [x22] ++ str "help" ++ [x22] ++ str " or " ++ [x22] ++ str "h" ++ [x22] ++ str " to print usage.");
  add_command (str "help") h [str "h"];;
  q ← command_new exit_command (str "exit") (str "Enter " ++ [x22] ++ str "q" ++ [x22] ++ str " or " ++ [x22] ++ str "quit" ++ [x22] ++ str " for exit.");
  add_command (str "quit") q [str "q"; str "quit"];;
  execute_files inits.

Fixpoint cmd_delete_all (l : list (list byte * positive)) : CLI unit :=
  match l with [] => mret tt | (_, p) :: l => cmd_delete p;; cmd_delete_all l end.
Definition command_line_dtor : CLI unit :=
  s ← get;
  cmd_delete_all (order _ (cl_commands s));;
  modify (cl_with_commands (fun _ => ∅));; modify (cl_with_aliases (fun _ => ∅)).

(** One line of input, [None] at its end. *)
Definition cl_readline (buffer : option (list byte)) : CLI Z :=
  match buffer with
  | None => printf nl;; mret QUIT
  | Some cmd =>
      (if bool_decide (cmd = []) then mret tt else modify (cl_with_history (fun h => h ++ [cmd])));;
      execute_command cmd
  end.

Definition process_errcode (errcode : Z) : CLI unit :=
  if errcode =? OK then mret tt else printf (to_error_string errcode ++ nl).

(** [exit] destroys the instance, which is a static object. *)
Definition cl_exit : CLI unit := printf (str "bye!" ++ nl);; command_line_dtor.

Fixpoint cl_run (input : list (list byte)) : CLI unit :=
  retcode ← cl_readline (head input);
  (if retcode =? OK then modify (cl_with_greeting (str "$ "))
   else if retcode =? ERROR then modify (cl_with_greeting (str "!$ "))
   else modify (cl_with_greeting (str "!$ "));; process_errcode retcode);;
  if retcode =? QUIT then cl_exit
  else match input with
       | _ :: input => cl_run input
       | [] => cl_exit                       (* not reached: the end of the input is QUIT *)
       end.

(** [run_cli] of the client, up to the start of its thread, and then the thread;
    [file] is its own .cliinit. *)
Definition run_cli (inits : list (list byte * option (list (list byte)))) (file : option (list (list byte))) : CLI unit :=
  command_line_ctor inits;;
  c ← command_new config_command (str "config") (str "Load config");
  add_command (str "config") c [];;
  c ← command_new connect_command (str "connect") (str "Connect server");
  add_command (str "connect") c [];;
  execute_file file;; mret tt.

(** ** Completion *)

(** The character of [token] that [token[++i]] is, with the index of a token. *)
Definition char_of (token : list byte) (i : nat) : outcome (list byte) :=
  match token !! i with
  | Some c => Ok [c]
  | None => if bool_decide (i = length token) then Ok [x00] else Fault (UB "operator[] out of range")
  end.

Definition starts_dash (token : list byte) : bool := bool_decide (head token = Some x2d).

(** The loop of [parse_command] from token [i] on: the command found so far, the
    table it looks in, the parameters and the options. *)
Fixpoint parse_tokens (fuel : nat) (tokens : list (list byte)) (i : nat) (cmd : option positive)
    (commands : gmap (list byte) positive) (params : list (list byte)) (options : gmap (list byte) (list byte)) :
    CLI (option positive * list (list byte) * gmap (list byte) (list byte)) :=
  match fuel, tokens !! i with
  | S fuel, Some token =>
      if starts_dash token then
        match tokens !! S i with
        | Some next =>
            if starts_dash next then parse_tokens fuel tokens (S i) cmd commands params (<[token := []]> options)
            else
              value ← lift (char_of token (S i));
              parse_tokens fuel tokens (S (S i)) cmd commands params (<[token := value]> options)
        | None => parse_tokens fuel tokens (S i) cmd commands params (<[token := []]> options)
        end
      else
        s ← get;
        match commands !! resolve s token with
        | Some p => c ← cmd_at p; parse_tokens fuel tokens (S i) (Some p) (cm_subcommands c) params options
        | None => parse_tokens fuel tokens (S i) cmd commands (params ++ [token]) options
        end
  | _, _ => mret (cmd, params, options)
  end.
Definition parse_command (tokens : list (list byte)) : CLI (option positive * list (list byte) * gmap (list byte) (list byte)) :=
  s ← get; parse_tokens (S (length tokens)) tokens 0 None (cl_commands s) [] ∅.

Definition matching (text : list byte) {A} (m : gmap (list byte) A) : list (list byte) :=
  filter (fun name => startswith name text = true) (fst <$> order _ m).

(** The token the cursor is in decides what is offered. *)
Fixpoint complete_token (tokens : list (list byte)) (token_start cursor_pos : Z) (c : command) (text : list byte) : list (list byte) :=
  match tokens with
  | [] => []
  | token :: tokens =>
      if u64 (token_start + len token) >=? cursor_pos then
        if starts_dash token then matching text (cm_options c) else matching text (cm_subcommands c)
      else complete_token tokens (u64 (token_start + len token + 1)) cursor_pos c text
  end.

(** The matches [command_generator] collects when it is called with state 0, for
    the line and the cursor of readline; the other calls give them one by one. *)
Definition command_matches (line : list byte) (cursor_pos : Z) (text : list byte) : CLI (list (list byte)) :=
  let tokens := split line (str " ") in
  r ← parse_command tokens;
  match r.1.1 with
  | Some p => c ← cmd_at p; mret (complete_token tokens 0 cursor_pos c text)
  | None => s ← get; mret (matching text (cl_commands s) ++ matching text (cl_alias s))
  end.

(** ** What execution leaves alone *)

Definition same_heap (s s' : cli) : Prop :=
  cl_objs s' = cl_objs s /\ cl_refs s' = cl_refs s /\ cl_dying s' = cl_dying s /\
  cl_commands s' = cl_commands s /\ cl_alias s' = cl_alias s.

#[export] Instance same_heap_preorder : PreOrder same_heap.
Proof.
  split; [by intros s|]. intros s1 s2 s3 (? & ? & ? & ? & ?) (? & ? & ? & ? & ?).
  repeat split; congruence.
Qed.

(** How many of the options of a command are the object [q]. *)
Definition occurrences (q : positive) (m : gmap (list byte) positive) : nat :=
  length (filter (fun kv => kv.2 = q) (map_to_list m)).

Definition option_ok (s : cli) (p : positive) (c : command) (q : positive) : Prop :=
  exists c', cl_objs s !! q = Some c' /\ cm_parent c' = Some p /\
    cl_refs s !! q = Some (occurrences q (cm_options c)).
Definition sub_ok (s : cli) (p q : positive) : Prop :=
  exists c', cl_objs s !! q = Some c' /\ cm_parent c' = Some p.

(** What a command's class and members are. *)
Record command_ok (s : cli) (p : positive) (c : command) : Prop := {
  co_options : forall n q, cm_options c !! n = Some q -> option_ok s p c q;
  co_subs : forall n q, cm_subcommands c !! n = Some q -> sub_ok s p q;
  co_function : forall r, cm_class c = function_command (Some r) -> is_ok r;
}.

(** The heap of commands: options and subcommands know their parent, the counts
    are the options' entries, what is registered has no parent and is no help. *)
Record heap_ok (s : cli) : Prop := {
  ci_objs : forall p c, cl_objs s !! p = Some c -> command_ok s p c;
  ci_dying : cl_dying s = ∅;
}.
Record cli_ok (s : cli) : Prop := {
  ci_heap : heap_ok s;
  ci_commands : forall n p, cl_commands s !! n = Some p ->
    exists c, cl_objs s !! p = Some c /\ cm_parent c = None /\ cm_class c <> help_command;
}.

Lemma heap_ok_same s s' :
  cl_objs s' = cl_objs s -> cl_refs s' = cl_refs s -> cl_dying s' = cl_dying s -> heap_ok s -> heap_ok s'.
Proof.
  intros Eo Er Ed [H1 H2]. split; rewrite ?Eo, ?Ed; [|done].
  intros p c Hc. destruct (H1 p c Hc) as [Ho Hs Hf]. split; [| |done]; intros n q Hq.
  - destruct (Ho n q Hq) as (c' & ? & ? & ?). exists c'. by rewrite Eo, Er.
  - destruct (Hs n q Hq) as (c' & ? & ?). exists c'. by rewrite Eo.
Qed.

Lemma cli_ok_same s s' : same_heap s s' -> cli_ok s -> cli_ok s'.
Proof.
  intros (Eo & Er & Ed & Ec & Ea) [H1 H2]. split; [by apply (heap_ok_same s)|]. by rewrite Eo, Ec.
Qed.

Lemma cmd_at_ok p s c : cl_objs s !! p = Some c -> cmd_at p s = (s, Ok c).
Proof. intros H. unfold cmd_at. rewrite M_get, H. done. Qed.

Lemma help_lines_ok s l :
  (forall n q, (n, q) ∈ l -> is_Some (cl_objs s !! q)) -> exists t, help_lines l s = (s, Ok t).
Proof.
  induction l as [|[n q] l IH]; intros H; cbn [help_lines]; [by eexists|].
  destruct (H n q ltac:(set_solver)) as [c Hc]. rewrite (M_bind_ok _ _ s s c) by by apply cmd_at_ok.
  destruct IH as [t Ht]; [set_solver|]. rewrite (M_bind_ok _ _ _ _ _ Ht). by eexists.
Qed.

Lemma in_order {A} (m : gmap (list byte) A) n a : (n, a) ∈ order A m -> m !! n = Some a.
Proof. rewrite order_perm. apply elem_of_map_to_list. Qed.

Lemma print_help_ok s p c :
  cli_ok s -> cl_objs s !! p = Some c -> exists s', print_help p s = (s', Ok tt) /\ same_heap s s'.
Proof.
  intros Hs Hc. destruct (ci_objs s (ci_heap s Hs) p c Hc) as [Ho Hsub _]. unfold print_help.
  rewrite (M_bind_ok _ _ s s c) by by apply cmd_at_ok.
  destruct (help_lines_ok s (order _ (cm_options c))) as [t Ht].
  { intros n q Hq%in_order. destruct (Ho n q Hq) as (c' & ? & _). by eexists. }
  rewrite (M_bind_ok _ _ _ _ _ Ht).
  destruct (help_lines_ok s (order _ (cm_subcommands c))) as [t' Ht'].
  { intros n q Hq%in_order. destruct (Hsub n q Hq) as (c' & ? & _). by eexists. }
  rewrite (M_bind_ok _ _ _ _ _ Ht'). by eexists.
Qed.

(** What [execute] may be called on. *)
Definition runnable (s : cli) (p : positive) : Prop :=
  exists c, cl_objs s !! p = Some c /\ (cm_class c = help_command -> exists q, cm_parent c = Some q /\ is_Some (cl_objs s !! q)).

Lemma runnable_child s p q c c' :
  cl_objs s !! p = Some c -> cl_objs s !! q = Some c' -> cm_parent c' = Some p -> runnable s q.
Proof. intros Hp Hq Hpar. exists c'. split; [done|]. intros _. exists p. split; [done|by eexists]. Qed.

Lemma config_init_ok file announce s : exists s' z, config_init file announce s = (s', Ok z) /\ same_heap s s'.
Proof. unfold config_init. destruct (fs_exists file); by eexists _, _. Qed.

Lemma do_execute_ok s p params :
  cli_ok s -> runnable s p -> exists s' z, do_execute p params s = (s', Ok z) /\ same_heap s s'.
Proof.
  intros Hs (c & Hc & Hh). unfold do_execute. rewrite (M_bind_ok _ _ s s c) by by apply cmd_at_ok.
  destruct (cm_class c) as [| | | |func| | |] eqn:Ecl; try (by eexists _, _).
  - rewrite M_get. destruct (help_lines_ok s (order _ (cl_commands s))) as [t Ht].
    { intros n q Hq%in_order. destruct (ci_commands s Hs n q Hq) as (c' & ? & _). by eexists. }
    rewrite (M_bind_ok _ _ _ _ _ Ht). by eexists _, _.
  - destruct (Hh eq_refl) as (q & -> & [c' Hq]). destruct (print_help_ok s q c' Hs Hq) as (s' & E & ?).
    rewrite (M_bind_ok _ _ _ _ _ E). by eexists _, _.
  - destruct func as [r|]; [|by eexists _, _]. pose proof (co_function _ _ _ (ci_objs s (ci_heap s Hs) p c Hc) r Ecl) as Hr.
    destruct r as [z| |]; [by eexists _, _|done|done].
  - unfold config_do_execute. destruct params as [|f [|]]; [apply config_init_ok..|by eexists _, _].
  - unfold config_reload_do_execute. destruct params as [|f [|]]; [by eexists _, _|apply config_init_ok|by eexists _, _].
Qed.

(** A command never goes wrong, whatever its parameters. *)
Lemma execute_ok s p params :
  cli_ok s -> runnable s p -> exists s' z, execute p params s = (s', Ok z) /\ same_heap s s'.
Proof.
  intros Hs. revert p. induction params as [|param rest IH]; intros p Hp; cbn [execute]; [by apply do_execute_ok|].
  pose proof Hp as (c & Hc & _). destruct (ci_objs s (ci_heap s Hs) p c Hc) as [Ho Hsub _]. case_match.
  - unfold get_option. rewrite (M_bind_ok _ _ s s (cm_options c !! param)) by (by rewrite (M_bind_ok _ _ s s c) by by apply cmd_at_ok).
    destruct (cm_options c !! param) as [q|] eqn:Eq; [|by eexists _, _].
    destruct (Ho _ _ Eq) as (c' & Hq & Hpar & _). apply IH. exact (runnable_child _ _ _ _ _ Hc Hq Hpar).
  - unfold get_subcommand. rewrite (M_bind_ok _ _ s s (cm_subcommands c !! param)) by (by rewrite (M_bind_ok _ _ s s c) by by apply cmd_at_ok).
    destruct (cm_subcommands c !! param) as [q|] eqn:Eq; [|by apply do_execute_ok].
    destruct (Hsub _ _ Eq) as (c' & Hq & Hpar). apply IH. exact (runnable_child _ _ _ _ _ Hc Hq Hpar).
Qed.

Lemma registered_runnable s n p : cli_ok s -> cl_commands s !! n = Some p -> runnable s p.
Proof. intros Hs Hp. destruct (ci_commands s Hs n p Hp) as (c & ? & _ & Hn). exists c. done. Qed.

Lemma execute_command_ok s cmd :
  cli_ok s -> exists s' z, execute_command cmd s = (s', Ok z) /\ same_heap s s'.
Proof.
  intros Hs. unfold execute_command. destruct (split cmd (str " ")) as [|name params]; [by eexists _, _|].
  unfold get_command. rewrite (M_bind_ok _ _ s s (cl_commands s !! resolve s name)) by done.
  destruct (cl_commands s !! _) as [p|] eqn:Ep; [|by eexists _, _].
  apply execute_ok; [done|]. by eapply registered_runnable.
Qed.

Lemma execute_lines_ok lines counter s :
  cli_ok s -> exists s' z, execute_lines lines counter s = (s', Ok z) /\ same_heap s s'.
Proof.
  revert counter s. induction lines as [|cmd lines IH]; intros counter s Hs; cbn [execute_lines]; [by eexists _, _|].
  case_bool_decide; [by apply IH|]. destruct (execute_command_ok s cmd Hs) as (s1 & z & E & H1).
  rewrite (M_bind_ok _ _ _ _ _ E). destruct (negb _); [by eexists _, _|].
  destruct (IH (s32 (counter + 1)) (cl_print ([x5b] ++ to_string counter ++ [x5d] ++ nl) s1)) as (s2 & z2 & E2 & H2).
  { eapply cli_ok_same; [|exact Hs]. by etrans; [exact H1|]. }
  exists s2, z2. split; [exact E2|]. etrans; [exact H1|]. by etrans; [|exact H2].
Qed.

(** ** Deleting *)

Lemma delete_again fuel p s : cl_objs s !! p = None \/ p ∈ cl_dying s -> delete_command (S fuel) p s = (s, Fault (UB "double delete")).
Proof.
  intros H. cbn [delete_command]. rewrite M_get. destruct (cl_objs s !! p) as [c|] eqn:E; [|done].
  destruct H as [|H]; [done|]. by rewrite bool_decide_true.
Qed.

Lemma delete_below_dying fuel q p c s :
  cl_objs s !! q = Some c -> q ∉ cl_dying s -> cm_parent c = Some p -> p ∈ cl_dying s ->
  exists s', delete_command (S (S fuel)) q s = (s', Fault (UB "double delete")).
Proof.
  intros Hq Hqd Hpar Hp. remember (S fuel) as fuel1 eqn:Ef. cbn [delete_command]. rewrite M_get, Hq, bool_decide_false by done.
  rewrite (M_bind_ok _ _ s (cl_with_dying (union {[q]}) s) tt) by done. rewrite Hpar. eexists.
  apply M_bind_fault. subst fuel1. apply delete_again. right. cbn [cl_with_dying cl_dying]. set_solver.
Qed.

Lemma opt_release_last del p s : cl_refs s !! p = Some 1%nat -> opt_release del p s = del p (cl_with_refs (delete p) s).
Proof. intros H. unfold opt_release. by rewrite M_get, H. Qed.
Lemma opt_release_more del p s n :
  cl_refs s !! p = Some (S (S n)) -> opt_release del p s = (cl_with_refs (<[p := S n]>) s, Ok tt).
Proof. intros H. unfold opt_release. by rewrite M_get, H. Qed.

(** The options of [p], which is dying, come back: the last reference to one of
    them deletes it, and its destructor deletes [p]. *)
Lemma release_all_faults fuel p l s :
  l <> [] -> p ∈ cl_dying s ->
  (forall q, q ∈ l -> (q ∉ cl_dying s) /\ exists c', cl_objs s !! q = Some c' /\ cm_parent c' = Some p /\
     cl_refs s !! q = Some (length (filter (fun x => x = q) l))) ->
  exists s', release_all (delete_command (S (S fuel))) l s = (s', Fault (UB "double delete")).
Proof.
  revert s. induction l as [|q l IH]; intros s Hne Hd Hl; [done|]. cbn [release_all].
  destruct (Hl q) as (Hqd & c' & Hq & Hpar & Hr); [by left|]. rewrite filter_cons_True in Hr by done.
  cbn [length] in Hr. destruct (length (filter _ l)) as [|n] eqn:En.
  - destruct (delete_below_dying fuel q p c' (cl_with_refs (delete q) s)) as [s' E]; [done..|].
    exists s'. apply M_bind_fault. by rewrite opt_release_last.
  - rewrite (M_bind_ok _ _ _ _ _ (opt_release_more _ _ _ _ Hr)). apply IH; [by destruct l|done|].
    intros q' Hq'. destruct (Hl q') as (? & c2 & ? & ? & Hr'); [by right|].
    split; [done|]. exists c2. split; [done|]. split; [done|]. cbn [cl_with_refs cl_refs].
    destruct (decide (q' = q)) as [->|]; [by rewrite lookup_insert_eq, En|].
    rewrite lookup_insert_ne, Hr' by done. by rewrite filter_cons_False by done.
Qed.

Lemma occurrences_order q m : occurrences q m = length (filter (fun x => x = q) (snd <$> order _ m)).
Proof.
  unfold occurrences. rewrite <- (order_perm _ m). induction (order _ m) as [|[n x] l IH]; [done|].
  rewrite fmap_cons, !filter_cons. cbn [snd]. destruct (decide (x = q)); cbn [length]; by rewrite IH.
Qed.

Lemma cmd_update_ok p f s c : cl_objs s !! p = Some c -> cmd_update p f s = (cl_with_objs (<[p := f c]>) s, Ok tt).
Proof. intros H. unfold cmd_update. by rewrite (M_bind_ok _ _ _ _ _ (cmd_at_ok p s c H)). Qed.

(** The destructor of a command without a parent, up to its options. *)
Lemma delete_root_to_options fuel s p c :
  cl_objs s !! p = Some c -> cm_parent c = None -> p ∉ cl_dying s ->
  delete_command (S fuel) p s =
    (release_all (delete_command fuel) (snd <$> order _ (cm_options c));;
     modify (fun s => cl_with_dying (fun d => d ∖ {[p]}) (cl_with_objs (delete p) s)))
    (cl_with_objs (<[p := cm_with_options ∅ (cm_with_subs ∅ c)]>) (cl_with_dying (union {[p]}) s)).
Proof.
  intros Hc Hpar Hp. cbn [delete_command]. rewrite M_get, Hc, bool_decide_false by done.
  rewrite (M_bind_ok _ _ s (cl_with_dying (union {[p]}) s) tt) by done. rewrite Hpar.
  rewrite (M_bind_ok _ _ _ (cl_with_dying (union {[p]}) s) tt) by done.
  rewrite (M_bind_ok _ _ _ _ _ (cmd_update_ok p _ (cl_with_dying (union {[p]}) s) c Hc)).
  match goal with |- context [(cmd_at p ≫= ?k) ?s0] =>
    rewrite (M_bind_ok (cmd_at p) k s0 s0 (cm_with_subs ∅ c)) by (apply cmd_at_ok; cbn; apply lookup_insert_eq) end.
  match goal with |- context [(cmd_update p ?f ≫= ?k) ?s0] =>
    rewrite (M_bind_ok _ _ _ _ _ (cmd_update_ok p f s0 (cm_with_subs ∅ c) (lookup_insert_eq _ _ _))) end.
  unfold cl_with_objs. cbn [cl_objs cl_refs cl_dying cl_commands cl_alias cl_greeting cl_out cl_history cl_effects].
  by rewrite insert_insert_eq.
Qed.

(** A command without options leaves the heap; one with options can not. *)
Lemma delete_root_free s p c :
  heap_ok s -> cl_objs s !! p = Some c -> cm_parent c = None -> cm_options c = ∅ ->
  exists s', cmd_delete p s = (s', Ok tt) /\ cl_objs s' = delete p (cl_objs s) /\ cl_refs s' = cl_refs s /\
    cl_dying s' = ∅ /\ cl_commands s' = cl_commands s.
Proof.
  intros Hs Hc Hpar Ho. pose proof (ci_dying s Hs) as Hd. unfold cmd_delete.
  rewrite M_get, (delete_root_to_options _ s p c) by (done || set_solver). rewrite Ho.
  assert (order positive ∅ = []) as -> by (apply Permutation_nil_r; rewrite order_perm; apply Permutation_refl', map_to_list_empty).
  eexists. split; [reflexivity|]. cbn. split; [apply delete_insert_eq|]. repeat split. rewrite Hd. set_solver.
Qed.

Lemma delete_root_faults s p c :
  heap_ok s -> cl_objs s !! p = Some c -> cm_parent c = None -> cm_options c <> ∅ ->
  exists s', cmd_delete p s = (s', Fault (UB "double delete")).
Proof.
  intros Hs Hc Hpar Hne. pose proof (ci_dying s Hs) as Hd. unfold cmd_delete.
  destruct (map_choose _ Hne) as (n & q & Hq). destruct (co_options _ _ _ (ci_objs s Hs p c Hc) n q Hq) as (cq & Hcq & Hparq & _).
  assert (p <> q) as Hpq by congruence.
  rewrite M_get, (delete_root_to_options _ s p c) by (done || set_solver).
  assert (exists fuel, size (cl_objs s) = S (S fuel)) as [fuel ->].
  { rewrite <- (insert_delete_id _ _ _ Hc), map_size_insert_None by apply lookup_delete_eq.
    rewrite <- (insert_delete_id (delete p (cl_objs s)) q cq), map_size_insert_None by
      (rewrite ?lookup_delete_ne by done; apply lookup_delete_eq || done). by eexists. }
  set (s1 := cl_with_objs _ _).
  destruct (release_all_faults fuel p (snd <$> order _ (cm_options c)) s1) as [s' E].
  - intros E%fmap_nil_inv. assert ((n, q) ∈ order _ (cm_options c)) as Hin by (rewrite order_perm; by apply elem_of_map_to_list).
    rewrite E in Hin. by apply elem_of_nil in Hin.
  - subst s1. cbn. set_solver.
  - intros q' Hq'. apply list_elem_of_fmap in Hq' as ([n' x] & -> & Hin%in_order). cbn [snd].
    destruct (co_options _ _ _ (ci_objs s Hs p c Hc) n' x Hin) as (c' & Hx & Hpar' & Hr).
    assert (x <> p) as Hxp by congruence. subst s1. cbn. rewrite Hd. split; [set_solver|].
    exists c'. rewrite lookup_insert_ne by done. by rewrite <- occurrences_order.
  - exists s'. by apply M_bind_fault.
Qed.

Lemma heap_ok_delete s s' p c :
  heap_ok s -> cl_objs s !! p = Some c -> cm_parent c = None ->
  cl_objs s' = delete p (cl_objs s) -> cl_refs s' = cl_refs s -> cl_dying s' = ∅ -> heap_ok s'.
Proof.
  intros [H1 _] Hc Hpar Eo Er Ed. split; [|done]. intros p' c'. rewrite Eo, lookup_delete_Some. intros [Hne Hc'].
  destruct (H1 p' c' Hc') as [Ho Hsub Hf]. split; [| |done]; intros n q Hq.
  - destruct (Ho n q Hq) as (cq & Hcq & Hparq & Hr). exists cq. rewrite Eo, Er, lookup_delete_ne by congruence. done.
  - destruct (Hsub n q Hq) as (cq & Hcq & Hparq). exists cq. rewrite Eo, lookup_delete_ne by congruence. done.
Qed.

Lemma delete_all_faults l s :
  heap_ok s -> (forall n p c, (n, p) ∈ l -> cl_objs s !! p = Some c -> cm_parent c = None) ->
  (exists n p c, (n, p) ∈ l /\ cl_objs s !! p = Some c /\ cm_options c <> ∅) ->
  exists s', cmd_delete_all l s = (s', Fault (UB "double delete")).
Proof.
  revert s. induction l as [|[n p] l IH]; intros s Hs Hroots (n' & p' & c' & Hin & Hc' & Hne); [by apply elem_of_nil in Hin|].
  cbn [cmd_delete_all]. destruct (cl_objs s !! p) as [c|] eqn:Hc.
  2:{ eexists. apply M_bind_fault. unfold cmd_delete. rewrite M_get. apply delete_again. by left. }
  pose proof (Hroots n p c ltac:(by left) Hc) as Hpar. destruct (decide (cm_options c = ∅)) as [Ho|Ho].
  - destruct (delete_root_free s p c Hs Hc Hpar Ho) as (s1 & E & Eo & Er & Ed & _). rewrite (M_bind_ok _ _ _ _ _ E).
    assert (p' <> p) as Hpp by congruence. apply IH.
    + by apply (heap_ok_delete s s1 p c).
    + intros n1 p1 c1 H1. rewrite Eo, lookup_delete_Some. intros [_ Hc1]. apply (Hroots n1 p1 c1); [by right|done].
    + exists n', p', c'. rewrite Eo, lookup_delete_ne by done. split; [|done].
      apply elem_of_cons in Hin as [[= -> ->]|]; done.
  - destruct (delete_root_faults s p c Hs Hc Hpar Ho) as [s' E]. exists s'. by apply M_bind_fault.
Qed.

(** Some registered command has an option: each one but "help" has. *)
Definition has_options (s : cli) : Prop :=
  exists n p c, cl_commands s !! n = Some p /\ cl_objs s !! p = Some c /\ cm_options c <> ∅.

Lemma has_options_same s s' : same_heap s s' -> has_options s -> has_options s'.
Proof. intros (Eo & _ & _ & Ec & _) (n & p & c & Hn & Hc & Hne). exists n, p, c. by rewrite Ec, Eo. Qed.

Lemma exit_faults s : cli_ok s -> has_options s -> exists s', cl_exit s = (s', Fault (UB "double delete")).
Proof.
  intros Hs (n & p & c & Hn & Hc & Hne). unfold cl_exit, command_line_dtor.
  set (s1 := cl_print (str "bye!" ++ nl) s). rewrite (M_bind_ok _ _ s s1 tt), M_get by done.
  assert (same_heap s s1) as Hsame by done.
  destruct (delete_all_faults (order _ (cl_commands s1)) s1) as [s' E].
  - by apply (cli_ok_same s s1).
  - intros n1 p1 c1 H1%in_order Hc1. destruct (ci_commands s Hs n1 p1 H1) as (c2 & Hc2 & Hpar & _). cbn in Hc1. congruence.
  - exists n, p, c. split; [|done]. rewrite order_perm. by apply elem_of_map_to_list.
  - exists s'. by apply M_bind_fault.
Qed.

Lemma run_step s input :
  cli_ok s -> exists s' z, cl_readline (head input) s = (s', Ok z) /\ same_heap s s' /\ (input = [] -> z = QUIT).
Proof.
  intros Hs. destruct input as [|cmd input]; [by eexists _, _|]. cbn [head cl_readline].
  set (s1 := if bool_decide (cmd = []) then s else cl_with_history (fun h => h ++ [cmd]) s).
  rewrite (M_bind_ok _ _ s s1 tt) by (subst s1; by case_bool_decide).
  assert (same_heap s s1) as Hsame by (subst s1; by case_bool_decide).
  destruct (execute_command_ok s1 cmd) as (s' & z & E & H'); [by eapply cli_ok_same|].
  exists s', z. split; [done|]. split; [by etrans|done].
Qed.

(** A turn of the loop. *)
Lemma run_unfold s input :
  cli_ok s -> exists s' z, same_heap s s' /\ (input = [] -> z = QUIT) /\
    cl_run input s = (if z =? QUIT then cl_exit else match input with _ :: input => cl_run input | [] => cl_exit end) s'.
Proof.
  intros Hs. destruct (run_step s input Hs) as (s1 & z & E & Hsame & Hq).
  set (turn := if z =? OK then modify (cl_with_greeting (str "$ "))
    else if z =? ERROR then modify (cl_with_greeting (str "!$ "))
    else (modify (cl_with_greeting (str "!$ "));; process_errcode z) : CLI unit).
  assert (exists s2, turn s1 = (s2, Ok tt) /\ same_heap s1 s2) as (s2 & E2 & Hsame2).
  { subst turn. unfold process_errcode. repeat case_match; by eexists. }
  exists s2, z. split; [by etrans|]. split; [done|].
  destruct input; cbn [cl_run]; rewrite (M_bind_ok _ _ _ _ _ E), (M_bind_ok _ _ _ _ _ E2); by destruct (z =? QUIT).
Qed.

Lemma run_faults input s : cli_ok s -> has_options s -> exists s', cl_run input s = (s', Fault (UB "double delete")).
Proof.
  revert s. induction input as [|cmd input IH]; intros s Hs Ho.
  - destruct (run_unfold s [] Hs) as (s2 & z & Hsame & Hq & ->). rewrite (Hq eq_refl).
    apply exit_faults; [by eapply cli_ok_same|by eapply has_options_same].
  - destruct (run_unfold s (cmd :: input) Hs) as (s2 & z & Hsame & _ & ->).
    destruct (z =? QUIT); [apply exit_faults|apply IH]; (by eapply cli_ok_same) || (by eapply has_options_same).
Qed.

(** ** Deleting ends *)

(** The objects whose destructor can still be entered. *)
Definition live (s : cli) : gset positive := dom (cl_objs s) ∖ cl_dying s.
Definition shrinks {A} (c : CLI A) (s : cli) : Prop := live (c s).1 ⊆ live s /\ (c s).2 <> Fault OutOfFuel.

Lemma shrinks_bind {A B} (c : CLI A) (k : A -> CLI B) s :
  shrinks c s -> (forall a s', live s' ⊆ live s -> shrinks (k a) s') -> shrinks (c ≫= k) s.
Proof using.
  clear order order_perm fs_exists default_config config_reloads.
  unfold shrinks, mbind, M_bind. intros [H1 H2] Hk. destruct (c s) as [s' [a|e|f]]; cbn [fst snd] in *; [|by split|split; [done|intros [= ->]; by apply H2]].
  destruct (Hk a s' H1) as [H3 H4]. split; [set_solver|done].
Qed.

Lemma shrinks_cmd_at p s : shrinks (cmd_at p) s.
Proof. unfold shrinks, cmd_at. rewrite M_get. by destruct (cl_objs s !! p). Qed.

Lemma shrinks_cmd_update p f s : shrinks (cmd_update p f) s.
Proof using order.
  clear order_perm fs_exists default_config config_reloads.
  unfold shrinks, cmd_update, cmd_at. unfold mbind at 1 3, M_bind at 1 3. rewrite M_get.
  destruct (cl_objs s !! p) as [c|] eqn:E; [|done]. split; [|done]. unfold live. cbn.
  rewrite dom_insert_L. apply elem_of_dom_2 in E. set_solver.
Qed.

Lemma shrinks_release_all del ps s (n : nat) :
  (forall p s, (size (live s) < n)%nat -> shrinks (del p) s) -> (size (live s) < n)%nat -> shrinks (release_all del ps) s.
Proof using order.
  clear order_perm fs_exists default_config config_reloads.
  intros Hdel. revert s. induction ps as [|p ps IH]; intros s Hn; cbn [release_all]; [done|]. apply shrinks_bind.
  - unfold opt_release. unfold shrinks. rewrite M_get. destruct (cl_refs s !! p) as [[|[|m]]|]; try done;
      by apply (Hdel p (cl_with_refs (delete p) s)).
  - intros _ s' Hs'. apply IH. by eapply Nat.le_lt_trans, Hn; apply subseteq_size.
Qed.

Lemma delete_shrinks fuel p s : (size (live s) < fuel)%nat -> shrinks (delete_command fuel p) s.
Proof using order.
  clear order_perm fs_exists default_config config_reloads.
  revert p s. induction fuel as [|fuel IH]; intros p s Hn; [lia|]. cbn [delete_command]. unfold shrinks. rewrite M_get.
  destruct (cl_objs s !! p) as [c|] eqn:Hc; [|done]. case_bool_decide as Hd; [done|].
  set (s1 := cl_with_dying (union {[p]}) s).
  assert (p ∈ live s) as Hp by (apply elem_of_dom_2 in Hc; unfold live; set_solver).
  assert (live s1 = live s ∖ {[p]}) as El by (unfold live; cbn; set_solver).
  assert (size (live s1) < fuel)%nat as Hn1.
  { rewrite El, size_difference, size_singleton by set_solver. assert (size (live s) <> 0%nat) by (rewrite size_empty_iff; set_solver). lia. }
  match goal with |- context [(modify _ ≫= ?k) s] => enough (shrinks (k tt) s1) as [H1 H2] by (split; [|done]; etrans; [exact H1|]; set_solver) end.
  assert (forall s', live s' ⊆ live s1 -> size (live s') < fuel)%nat as Hle.
  { intros s' H. eapply Nat.le_lt_trans, Hn1. by apply subseteq_size. }
  apply shrinks_bind; [destruct (cm_parent c); [by apply IH|done]|]. intros _ s2 H2.
  apply shrinks_bind; [apply shrinks_cmd_update|]. intros _ s3 H3.
  apply shrinks_bind; [apply shrinks_cmd_at|]. intros c4 s4 H4.
  apply shrinks_bind; [apply shrinks_cmd_update|]. intros _ s5 H5.
  apply shrinks_bind; [apply (shrinks_release_all _ _ _ fuel); [done|apply Hle; by rewrite H5, H4, H3, H2]|]. intros _ s6 H6.
  split; [|done]. clear. unfold live. cbn. rewrite dom_delete_L. set_solver.
Qed.

(** ** Construction *)

Definition class_ok (cls : command_class) : Prop := forall r, cls = function_command (Some r) -> is_ok r.

(** A new object, which nothing points to. *)
Lemma cmd_alloc_ok cls name description s :
  cli_ok s -> class_ok cls -> exists p, cl_objs s !! p = None /\
    let s' := cl_with_objs (<[p := mk_command cls name description None ∅ ∅ ∅]>) s in
    cmd_alloc cls name description s = (s', Ok p) /\ cli_ok s'.
Proof.
  intros [[H1 Hd] H3] Hcls. set (p := base.fresh (dom (cl_objs s))).
  assert (cl_objs s !! p = None) as Hp by (apply not_elem_of_dom, is_fresh).
  exists p. split; [done|]. intros s'. split; [done|].
  assert (forall q c, cl_objs s !! q = Some c -> cl_objs s' !! q = Some c) as Hold.
  { intros q c Hq. subst s'. cbn. rewrite lookup_insert_ne; [done|congruence]. }
  split; [split|]; [|done|].
  - intros q c. subst s'. cbn. rewrite lookup_insert_Some. intros [[<- <-]|[Hne Hc]].
    + split; cbn; [intros n q; by rewrite lookup_empty..|done].
    + destruct (H1 q c Hc) as [Ho Hsub Hf]. split; [| |done]; intros n q' Hq'.
      * destruct (Ho n q' Hq') as (c' & ? & ? & ?). exists c'. split; [by apply Hold|done].
      * destruct (Hsub n q' Hq') as (c' & ? & ?). exists c'. split; [by apply Hold|done].
  - intros n q Hq. destruct (H3 n q Hq) as (c & ? & ? & ?). exists c. split; [by apply Hold|done].
Qed.


Lemma option_emplace_ok p name o s c :
  cl_objs s !! p = Some c -> cm_options c !! name = None ->
  option_emplace p name o s =
    (cl_with_objs (<[p := cm_with_options (<[name := o]> (cm_options c)) c]>) (cl_with_refs (alter S o) s), Ok true).
Proof.
  intros Hc Hn. unfold option_emplace. rewrite (M_bind_ok _ _ _ _ _ (cmd_at_ok p s c Hc)), Hn.
  rewrite (M_bind_ok _ _ s (cl_with_refs (alter S o) s) tt) by done.
  by rewrite (M_bind_ok _ _ _ _ _ (cmd_update_ok p _ (cl_with_refs (alter S o) s) c Hc)).
Qed.

(** An option with two names: two references, and its parent. *)
Lemma add_option_ok p short long o s c co :
  cl_objs s !! p = Some c -> cl_objs s !! o = Some co -> o <> p ->
  startswith short (str "-") -> startswith long (str "--") -> short <> [] -> long <> [] -> short <> long ->
  cm_options c !! short = None -> cm_options c !! long = None ->
  exists s', add_option p short long o s = (s', Ok OK) /\
    cl_objs s' = <[o := cm_with_parent (Some p) co]> (<[p := cm_with_options (<[long := o]> (<[short := o]> (cm_options c))) c]> (cl_objs s)) /\
    cl_refs s' = <[o := 2%nat]> (cl_refs s) /\ cl_dying s' = cl_dying s /\ cl_commands s' = cl_commands s /\ cl_alias s' = cl_alias s.
Proof.
  intros Hc Hco Hop Hs1 Hs2 Hn1 Hn2 Hne Hf1 Hf2. unfold add_option.
  set (s1 := cl_with_refs (<[o := 1%nat]>) s). rewrite (M_bind_ok _ _ s s1 tt) by done.
  rewrite (M_bind_ok _ _ s1 s1 c) by by apply cmd_at_ok.
  rewrite (Is_true_true_1 _ Hs1), (Is_true_true_1 _ Hs2), !bool_decide_false, !andb_false_r by done.
  rewrite (M_bind_ok _ _ _ _ _ (option_emplace_ok p short o s1 c Hc Hf1)). cbn [negb].
  set (c1 := cm_with_options (<[short := o]> (cm_options c)) c). set (s2 := cl_with_objs _ _).
  assert (cl_objs s2 !! p = Some c1) as Hc1 by (subst s2; cbn; apply lookup_insert_eq).
  rewrite (M_bind_ok _ _ _ _ _ (option_emplace_ok p long o s2 c1 Hc1 ltac:(cbn; by rewrite lookup_insert_ne))). cbn [negb].
  set (s3 := cl_with_objs _ (cl_with_refs _ s2)).
  assert (cl_objs s3 !! o = Some co) as Hco3 by (subst s3 s2; cbn; by rewrite !lookup_insert_ne).
  rewrite (M_bind_ok _ _ _ _ _ (cmd_update_ok o _ s3 co Hco3)).
  set (s4 := cl_with_objs _ s3).
  assert (cl_refs s4 = <[o := 3%nat]> (cl_refs s)) as Hr by (subst s4 s3 s2 s1; cbn; by rewrite !alter_insert_eq).
  rewrite (M_bind_ok _ _ _ _ _ (opt_release_more cmd_delete o s4 1 ltac:(rewrite Hr; apply lookup_insert_eq))).
  eexists. split; [reflexivity|]. split; [|split; [|done]].
  - subst s4 s3 s2 s1. cbn. by rewrite insert_insert_eq.
  - cbn [cl_with_refs cl_refs]. rewrite Hr. apply insert_insert_eq.
Qed.

Definition help_options (h : positive) : gmap (list byte) positive := <[str "--help" := h]> {[str "-h" := h]}.

Lemma help_options_value h n q : help_options h !! n = Some q -> q = h.
Proof. unfold help_options. rewrite lookup_insert_Some, lookup_singleton_Some. naive_solver. Qed.

Lemma default_occurrences h q : q = h -> occurrences q (help_options h) = 2%nat.
Proof.
  intros ->. unfold occurrences, help_options.
  rewrite map_to_list_insert, map_to_list_singleton by (by rewrite lookup_singleton_ne).
  by rewrite !filter_cons_True by done.
Qed.

Lemma init_default_ok p c s :
  cli_ok s -> cl_objs s !! p = Some c -> cm_options c = ∅ -> cm_parent c = None -> exists h s',
    cl_objs s !! h = None /\ init_default p s = (s', Ok tt) /\ cli_ok s' /\
    (forall q cq, q <> p -> cl_objs s !! q = Some cq -> cl_objs s' !! q = Some cq) /\
    cl_objs s' !! p = Some (cm_with_options (help_options h) c) /\
    cl_commands s' = cl_commands s /\ cl_alias s' = cl_alias s.
Proof.
  intros Hs Hp Ho Hpar. unfold init_default.
  destruct (cmd_alloc_ok help_command (str "help") (str "Print usage information and exit.") s Hs) as (h & Hh & E & _); [done|].
  rewrite (M_bind_ok _ _ _ _ _ E). assert (h <> p) as Hhp by congruence. clear E.
  set (hc := mk_command help_command (str "help") _ None ∅ ∅ ∅). set (s1 := cl_with_objs (<[h := hc]>) s).
  destruct (add_option_ok p (str "-h") (str "--help") h s1 c hc) as (s' & E & Eo & Er & Ed & Ec & Ea);
    [subst s1; cbn; by rewrite ?lookup_insert_ne, ?lookup_insert_eq by done|subst s1; cbn; apply lookup_insert_eq|
     done..|by rewrite Ho|by rewrite Ho|].
  exists h, s'. split; [done|]. split; [by rewrite (M_bind_ok _ _ _ _ _ E)|].
  rewrite Ho in Eo. assert (forall q cq, q <> p -> cl_objs s !! q = Some cq -> cl_objs s' !! q = Some cq) as Hold.
  { intros q cq Hqp Hq. rewrite Eo. subst s1. cbn. rewrite !lookup_insert_ne by congruence. done. }
  assert (cl_objs s' !! p = Some (cm_with_options (help_options h) c)) as Hp'.
  { rewrite Eo. rewrite lookup_insert_ne, lookup_insert_eq by done. done. }
  assert (cl_objs s' !! h = Some (cm_with_parent (Some p) hc)) as Hh' by (rewrite Eo; apply lookup_insert_eq).
  split; [|done]. destruct Hs as [[H1 Hd] H3]. split; [split|].
  - intros q cq Hq. destruct (decide (q = p)) as [->|Hqp]; [|destruct (decide (q = h)) as [->|Hqh]].
    + rewrite Hp' in Hq. injection Hq as <-. destruct (H1 p c Hp) as [_ Hsub Hf]. split; cbn [cm_options cm_subcommands cm_class cm_with_options]; [| |done].
      * intros n q ->%help_options_value.
        eexists. split; [done|]. split; [done|]. rewrite Er, lookup_insert_eq. cbn [cm_options cm_with_options]. by rewrite default_occurrences.
      * intros n q Hq. destruct (Hsub n q Hq) as (c' & Hc' & Hpc'). exists c'. split; [|done]. apply Hold; congruence.
    + rewrite Hh' in Hq. injection Hq as <-. split; cbn; [intros n q; by rewrite lookup_empty..|done].
    + assert (cl_objs s !! q = Some cq) as Hq0 by (rewrite Eo in Hq; subst s1; cbn in Hq; by rewrite !lookup_insert_ne in Hq by done).
      destruct (H1 q cq Hq0) as [Hopt Hsub Hf]. split; [| |done]; intros n x Hx.
      * destruct (Hopt n x Hx) as (c' & Hc' & Hpc' & Hr). exists c'. split; [apply Hold; congruence|].
        split; [done|]. rewrite Er, lookup_insert_ne by congruence. done.
      * destruct (Hsub n x Hx) as (c' & Hc' & Hpc'). exists c'. split; [apply Hold; congruence|done].
  - rewrite Ed. exact Hd.
  - intros n q. rewrite Ec. cbn. intros Hq. destruct (H3 n q Hq) as (cq & Hcq & Hpq & Hk).
    destruct (decide (q = p)) as [->|Hqp]; [|exists cq; split; [by apply Hold|done]].
    eexists. split; [exact Hp'|]. cbn. by replace cq with c in * by congruence.
Qed.

(** A free subcommand under a free name. *)
Lemma add_subcommand_ok p name q s c cq :
  cli_ok s -> cl_objs s !! p = Some c -> cl_objs s !! q = Some cq -> q <> p ->
  cm_subcommands c !! name = None -> cm_parent cq = None -> (forall n, cl_commands s !! n <> Some q) ->
  exists s', add_subcommand p name q s = (s', Ok tt) /\ cli_ok s' /\
    cl_objs s' = <[q := cm_with_parent (Some p) cq]> (<[p := cm_with_subs (<[name := q]> (cm_subcommands c)) c]> (cl_objs s)) /\
    cl_commands s' = cl_commands s /\ cl_alias s' = cl_alias s.
Proof.
  intros Hs Hc Hq Hqp Hn Hpar Hreg. unfold add_subcommand, remove_subcommand. set (c1 := cm_with_subs _ c).
  rewrite (M_bind_ok _ _ s s tt) by (by rewrite (M_bind_ok _ _ _ _ _ (cmd_at_ok p s c Hc)), Hn).
  rewrite (M_bind_ok _ _ _ _ _ (cmd_at_ok p s c Hc)), (M_bind_ok _ _ _ _ _ (cmd_update_ok p _ s c Hc)). fold c1.
  set (s1 := cl_with_objs _ s). assert (cl_objs s1 !! q = Some cq) as Hq1 by (subst s1; cbn; by rewrite lookup_insert_ne).
  rewrite (cmd_update_ok q _ s1 cq Hq1). set (s' := cl_with_objs _ s1).
  exists s'. split; [done|]. split; [|done].
  assert (forall x cx, cl_objs s' !! x = Some cx -> (x = q /\ cx = cm_with_parent (Some p) cq) \/
    (x <> q /\ x = p /\ cx = c1) \/ (x <> q /\ x <> p /\ cl_objs s !! x = Some cx)) as Hinv.
  { intros x cx. subst s' s1. cbn. rewrite !lookup_insert_Some. naive_solver. }
  assert (cl_objs s' !! q = Some (cm_with_parent (Some p) cq)) as Hq' by (subst s'; cbn; apply lookup_insert_eq).
  assert (cl_objs s' !! p = Some c1) as Hp' by (subst s' s1; cbn; by rewrite lookup_insert_ne, lookup_insert_eq).
  assert (forall x cx, x <> q -> cl_objs s !! x = Some cx -> exists cx', cl_objs s' !! x = Some cx' /\
    cm_parent cx' = cm_parent cx /\ cm_class cx' = cm_class cx) as Hold.
  { intros x cx Hxq Hx. destruct (decide (x = p)) as [->|Hxp].
    - exists c1. replace cx with c by congruence. done.
    - exists cx. subst s' s1. cbn. by rewrite !lookup_insert_ne. }
  destruct Hs as [[H1 Hd] H3]. split; [split|]; [|exact Hd|].
  - assert (forall x cx cx', cl_objs s !! x = Some cx -> cm_options cx' = cm_options cx -> cm_class cx' = cm_class cx ->
      (forall n y, cm_subcommands cx' !! n = Some y -> sub_ok s' x y) -> command_ok s' x cx') as Hok.
    { intros x cx cx' Hx Eo Ecl Hsub'. destruct (H1 x cx Hx) as [Hopt _ Hf]. split; [|done|by rewrite Ecl].
      intros n y. rewrite Eo. intros Hy. destruct (Hopt n y Hy) as (cy & Hcy & Hpy & Hr).
      destruct (Hold y cy ltac:(congruence) Hcy) as (cy' & ? & Hpy' & _). exists cy'. rewrite Hpy', Eo. done. }
    assert (forall x cx n y, cl_objs s !! x = Some cx -> cm_subcommands cx !! n = Some y -> sub_ok s' x y) as Hsubs.
    { intros x cx n y Hx Hy. destruct (co_subs _ _ _ (H1 x cx Hx) n y Hy) as (cy & Hcy & Hpy).
      destruct (Hold y cy ltac:(congruence) Hcy) as (cy' & ? & Hpy' & _). exists cy'. by rewrite Hpy'. }
    intros x cx [[-> ->]|[(_ & -> & ->)|(_ & _ & Hx)]]%Hinv.
    + apply (Hok q cq); [done..|]. intros n y. by apply (Hsubs q cq).
    + apply (Hok p c); [done..|]. intros n y. cbn. rewrite lookup_insert_Some. intros [[<- <-]|[_ Hy]]; [by eexists|].
      by apply (Hsubs p c n y).
    + apply (Hok x cx); [done..|]. intros n y. by apply (Hsubs x cx).
  - intros n x Hx. destruct (H3 n x Hx) as (cx & Hcx & Hpx & Hkx).
    destruct (Hold x cx) as (cx' & ? & Hpx' & Hkx'); [intros ->; by eapply Hreg|done|]. exists cx'. by rewrite Hpx', Hkx'.
Qed.

(** What [new] gives: a root that nothing points to, with an option unless it is
    the global help. *)
Record new_ok (cls : command_class) (s s' : cli) (p : positive) : Prop := {
  no_ok : cli_ok s';
  no_fresh : cl_objs s !! p = None;
  no_root : exists c, cl_objs s' !! p = Some c /\ cm_parent c = None /\ cm_class c = cls /\
    (cls <> global_help_command -> cm_options c <> ∅);
  no_old : forall q c, cl_objs s !! q = Some c -> cl_objs s' !! q = Some c;
  no_commands : cl_commands s' = cl_commands s;
  no_alias : cl_alias s' = cl_alias s;
}.

Lemma help_options_some h : help_options h <> ∅.
Proof. apply insert_non_empty. Qed.

(** The constructor up to the body of the derived class. *)
Lemma command_new_default cls name description s :
  cli_ok s -> class_ok cls -> cls <> help_command -> exists p s',
    (p ← cmd_alloc cls name description; init_default p;; mret p) s = (s', Ok p) /\ new_ok cls s s' p /\
    exists h, cl_objs s' !! p = Some (mk_command cls name description None ∅ ∅ (help_options h)).
Proof.
  intros Hs Hcls Hne. destruct (cmd_alloc_ok cls name description s Hs Hcls) as (p & Hp & E & Hs1).
  rewrite (M_bind_ok _ _ _ _ _ E). clear E. set (c := mk_command cls name description None ∅ ∅ ∅) in *.
  set (s1 := cl_with_objs (<[p := c]>) s) in *.
  assert (cl_objs s1 !! p = Some c) as Hp1 by (subst s1; cbn; apply lookup_insert_eq).
  destruct (init_default_ok p c s1 Hs1 Hp1 eq_refl eq_refl) as (h & s' & Hh & E & Hs' & Hold & Hp' & Ec & Ea).
  exists p, s'. rewrite (M_bind_ok _ _ _ _ _ E). split; [done|]. split; [|by exists h]. split; try done.
  - eexists. split; [exact Hp'|]. split; [done|]. split; [done|]. intros _. apply help_options_some.
  - intros q cq Hq. apply Hold; [congruence|]. subst s1. cbn. rewrite lookup_insert_ne; [done|congruence].
Qed.

Lemma command_new_ok cls name description s :
  cli_ok s -> class_ok cls -> cls <> help_command ->
  exists p s', command_new cls name description s = (s', Ok p) /\ new_ok cls s s' p.
Proof.
  intros Hs Hcls Hne.
  assert (cls = global_help_command \/ cls <> global_help_command) as [->|Hg] by (destruct cls; (by left) || (by right)).
  { destruct (cmd_alloc_ok global_help_command name description s Hs Hcls) as (p & Hp & E & Hs1).
    eexists p, _. split; [unfold command_new; by rewrite (M_bind_ok _ _ _ _ _ E)|]. split; try done.
    - eexists. cbn. split; [apply lookup_insert_eq|]. done.
    - intros q c Hq. cbn. rewrite lookup_insert_ne; [done|congruence]. }
  destruct (command_new_default cls name description s Hs Hcls Hne) as (p & s1 & E & Hnew & h & Hp).
  assert (cls = config_command \/ cls <> config_command) as [->|Hc] by (destruct cls; (by left) || (by right)).
  2:{ exists p, s1. split; [|done]. rewrite <- E. by destruct cls. }
  destruct (command_new_default config_reload_command (str "reload") (str "reload config") s1) as (r & s2 & E2 & Hnew2 & hr & Hr);
    [apply Hnew|done..|].
  pose proof (no_fresh _ _ _ _ Hnew2) as Hfr. assert (r <> p) as Hrp by congruence.
  destruct (add_subcommand_ok p (str "reload") r s2 _ _ (no_ok _ _ _ _ Hnew2) (no_old _ _ _ _ Hnew2 _ _ Hp) Hr)
    as (s3 & E3 & Hs3 & Eo & Ec & Ea); [done..| |].
  { intros n Hn. rewrite (no_commands _ _ _ _ Hnew2), (no_commands _ _ _ _ Hnew) in Hn.
    destruct (ci_commands s Hs n r Hn) as (cr & Hcr & _). apply (no_old _ _ _ _ Hnew) in Hcr. congruence. }
  exists p, s3. split.
  - unfold command_new. apply M_bind_inv in E as (s0 & p0 & E0 & E). rewrite (M_bind_ok _ _ _ _ _ E0).
    apply M_bind_inv in E as (s01 & [] & E1 & [= -> ->]). rewrite (M_bind_ok _ _ _ _ _ E1).
    apply M_bind_inv in E2 as (s02 & r0 & E2 & E2'). rewrite (M_bind_ok _ _ _ _ _ E2).
    apply M_bind_inv in E2' as (s03 & [] & E4 & [= -> ->]). rewrite (M_bind_ok _ _ _ _ _ E4).
    by rewrite (M_bind_ok _ _ _ _ _ E3).
  - split.
    + done.
    + apply Hnew.
    + eexists. rewrite Eo, lookup_insert_ne, lookup_insert_eq by done. split; [done|]. split; [done|]. split; [done|].
      intros _. apply help_options_some.
    + intros q c Hq. rewrite Eo. pose proof (no_fresh _ _ _ _ Hnew). apply (no_old _ _ _ _ Hnew) in Hq as Hq1.
      rewrite !lookup_insert_ne by congruence. by apply (no_old _ _ _ _ Hnew2).
    + by rewrite Ec, (no_commands _ _ _ _ Hnew2), (no_commands _ _ _ _ Hnew).
    + by rewrite Ea, (no_alias _ _ _ _ Hnew2), (no_alias _ _ _ _ Hnew).
Qed.

(** Aliases are no part of the invariant. *)
Lemma cli_ok_alias s s' p c a :
  cli_ok s -> cl_objs s !! p = Some c -> cl_objs s' = <[p := cm_with_alias a c]> (cl_objs s) ->
  cl_refs s' = cl_refs s -> cl_dying s' = cl_dying s -> cl_commands s' = cl_commands s -> cli_ok s'.
Proof.
  intros [[H1 Hd] H3] Hp Eo Er Ed Ec.
  assert (forall q cq, cl_objs s !! q = Some cq -> exists cq', cl_objs s' !! q = Some cq' /\ cm_parent cq' = cm_parent cq /\ cm_class cq' = cm_class cq) as Hold.
  { intros q cq Hq. rewrite Eo. destruct (decide (q = p)) as [->|Hqp].
    - rewrite lookup_insert_eq. eexists. split; [done|]. by replace cq with c by congruence.
    - rewrite lookup_insert_ne by done. by exists cq. }
  split; [split|]; [|by rewrite Ed|].
  - assert (forall q cq cq', cl_objs s !! q = Some cq -> cm_options cq' = cm_options cq -> cm_subcommands cq' = cm_subcommands cq ->
      cm_class cq' = cm_class cq -> command_ok s' q cq') as Hok.
    { intros q cq cq' Hq E1 E2 E3. destruct (H1 q cq Hq) as [Hopt Hsub Hf]. split; [| |by rewrite E3].
      - intros n y. rewrite E1. intros Hy. destruct (Hopt n y Hy) as (cy & Hcy & Hpy & Hr).
        destruct (Hold y cy Hcy) as (cy' & ? & Hpy' & _). exists cy'. by rewrite Hpy', Er, E1.
      - intros n y. rewrite E2. intros Hy. destruct (Hsub n y Hy) as (cy & Hcy & Hpy).
        destruct (Hold y cy Hcy) as (cy' & ? & Hpy' & _). exists cy'. by rewrite Hpy'. }
    intros q cq. rewrite Eo, lookup_insert_Some. intros [[<- <-]|[_ Hq]]; [by apply (Hok p c)|by apply (Hok q cq)].
  - intros n q. rewrite Ec. intros Hq. destruct (H3 n q Hq) as (cq & Hcq & Hpq & Hk).
    destruct (Hold q cq Hcq) as (cq' & ? & Hpq' & Hk'). exists cq'. by rewrite Hpq', Hk'.
Qed.

Lemma add_aliases_ok name p alias s c :
  cli_ok s -> cl_objs s !! p = Some c -> exists s' z c', add_aliases name p alias s = (s', Ok z) /\ cli_ok s' /\
    cl_commands s' = cl_commands s /\ cl_objs s' = <[p := c']> (cl_objs s) /\ cm_options c' = cm_options c.
Proof.
  revert s c. induction alias as [|a alias IH]; intros s c Hs Hc; cbn [add_aliases].
  { exists s, OK, c. rewrite insert_id by done. done. }
  rewrite M_get. destruct (cl_alias s !! a).
  { eexists _, _, c. split; [reflexivity|]. cbn. rewrite insert_id by done. split; [by apply (cli_ok_same s)|done]. }
  set (s1 := cl_with_aliases (<[a := name]>) s). rewrite (M_bind_ok _ _ s s1 tt) by done.
  assert (cl_objs s1 !! p = Some c) as Hc1 by done.
  rewrite (M_bind_ok _ _ _ _ _ (cmd_at_ok p s1 c Hc1)), (M_bind_ok _ _ _ _ _ (cmd_update_ok p _ s1 c Hc1)).
  set (s2 := cl_with_objs (<[p := cm_with_alias ({[a]} ∪ cm_alias c) c]>) s1).
  destruct (IH s2 (cm_with_alias ({[a]} ∪ cm_alias c) c)) as (s' & z & c' & E & Hs' & Ec & Eo & Eopt).
  - by apply (cli_ok_alias s s2 p c ({[a]} ∪ cm_alias c)).
  - subst s2. cbn. apply lookup_insert_eq.
  - exists s', z, c'. split; [done|]. split; [done|]. split; [by rewrite Ec|]. split; [|done].
    rewrite Eo. subst s2 s1. cbn. by rewrite insert_insert_eq.
Qed.

(** Registering a new command. *)
Lemma add_command_ok name p alias s c :
  cli_ok s -> cl_objs s !! p = Some c -> cm_parent c = None -> cm_class c <> help_command -> cl_commands s !! name = None ->
  exists s' z, add_command name p alias s = (s', Ok z) /\ cli_ok s' /\ cl_commands s' = <[name := p]> (cl_commands s) /\
    (cm_options c <> ∅ \/ has_options s -> has_options s').
Proof.
  intros Hs Hc Hpar Hk Hn. unfold add_command. rewrite M_get, Hn. set (s1 := cl_with_commands (<[name := p]>) s).
  rewrite (M_bind_ok _ _ s s1 tt) by done.
  assert (cli_ok s1) as Hs1.
  { destruct Hs as [Hheap H3]. split; [by apply (heap_ok_same s)|]. intros n q. subst s1. cbn. rewrite lookup_insert_Some.
    intros [[<- <-]|[_ Hq]]; [by exists c|by apply (H3 n)]. }
  destruct (add_aliases_ok name p alias s1 c Hs1 Hc) as (s' & z & c' & E & Hs' & Ec & Eo & Eopt).
  exists s', z. split; [done|]. split; [done|]. split; [done|]. intros [Ho|(n & q & cq & Hq & Hcq & Ho)].
  - exists name, p, c'. rewrite Ec, Eo, Eopt, lookup_insert_eq. subst s1. cbn. by rewrite lookup_insert_eq.
  - assert (n <> name) as Hnn by congruence. destruct (decide (q = p)) as [->|Hqp].
    + exists name, p, c'. rewrite Ec, Eo, Eopt, lookup_insert_eq. subst s1. cbn. rewrite lookup_insert_eq. split; [done|]. split; [done|]. congruence.
    + exists n, q, cq. rewrite Ec, Eo. subst s1. cbn. by rewrite !lookup_insert_ne.
Qed.

(** A new command, registered under a free name. *)
Lemma register_ok cls n d name alias s :
  cli_ok s -> class_ok cls -> cls <> help_command -> cl_commands s !! name = None ->
  exists p s1 s' z, command_new cls n d s = (s1, Ok p) /\ add_command name p alias s1 = (s', Ok z) /\ cli_ok s' /\
    cl_commands s' = <[name := p]> (cl_commands s) /\ (cls <> global_help_command -> has_options s').
Proof.
  intros Hs Hcls Hne Hn. destruct (command_new_ok cls n d s Hs Hcls Hne) as (p & s1 & E1 & Hnew).
  destruct (no_root _ _ _ _ Hnew) as (c & Hc & Hpar & Hk & Ho).
  destruct (add_command_ok name p alias s1 c) as (s' & z & E2 & Hs' & Ec & Hopt);
    [apply Hnew|done|done|by rewrite Hk|by rewrite (no_commands _ _ _ _ Hnew)|].
  exists p, s1, s', z. split; [done|]. split; [done|]. split; [done|]. split; [by rewrite Ec, (no_commands _ _ _ _ Hnew)|].
  intros Hg. apply Hopt. left. by apply Ho.
Qed.

Lemma execute_file_ok file s : cli_ok s -> exists s' z, execute_file file s = (s', Ok z) /\ same_heap s s'.
Proof. intros Hs. destruct file as [lines|]; [by apply execute_lines_ok|by eexists _, _]. Qed.

Lemma execute_files_ok files s : cli_ok s -> exists s', execute_files files s = (s', Ok tt) /\ same_heap s s'.
Proof.
  revert s. induction files as [|[path file] files IH]; intros s Hs; cbn [execute_files]; [by exists s|].
  set (s1 := cl_print (str "Found " ++ path ++ nl) s). rewrite (M_bind_ok _ _ s s1 tt) by done.
  assert (same_heap s s1) as H1 by done. assert (cli_ok s1) as Hs1 by by eapply cli_ok_same.
  destruct (execute_file_ok file s1 Hs1) as (s2 & z & E & H2). rewrite (M_bind_ok _ _ _ _ _ E).
  destruct (IH s2) as (s' & E' & H'); [by eapply cli_ok_same|]. exists s'. split; [done|]. by etrans; [|by etrans].
Qed.

Lemma cli_blank_ok : cli_ok cli_blank.
Proof. split; [split|]; [|done|]; intros ? ? H; exfalso; cbn in H; by rewrite lookup_empty in H. Qed.

Lemma command_line_ctor_ok inits :
  exists s p q, command_line_ctor inits cli_blank = (s, Ok tt) /\ cli_ok s /\
    cl_commands s = <[str "quit" := q]> (<[str "help" := p]> ∅).
Proof.
  unfold command_line_ctor.
  destruct (register_ok global_help_command (str "help") (str "Enter " ++ [x22] ++ str "help" ++ [x22] ++ str " or " ++ [x22] ++ str "h" ++ [x22] ++ str " to print usage.")
    (str "help") [str "h"] cli_blank) as (p & s1 & s2 & z & E1 & E2 & Hs2 & Ec2 & _); [apply cli_blank_ok|done..|].
  rewrite (M_bind_ok _ _ _ _ _ E1), (M_bind_ok _ _ _ _ _ E2).
  destruct (register_ok exit_command (str "exit") (str "Enter " ++ [x22] ++ str "q" ++ [x22] ++ str " or " ++ [x22] ++ str "quit" ++ [x22] ++ str " for exit.")
    (str "quit") [str "q"; str "quit"] s2) as (q & s3 & s4 & z' & E3 & E4 & Hs4 & Ec4 & _); [done..| |].
  { by rewrite Ec2, lookup_insert_ne by done. }
  rewrite (M_bind_ok _ _ _ _ _ E3), (M_bind_ok _ _ _ _ _ E4).
  destruct (execute_files_ok inits s4 Hs4) as (s & E & Hsame). exists s, p, q. split; [done|].
  split; [by eapply cli_ok_same|]. destruct Hsame as (_ & _ & _ & -> & _). by rewrite Ec4, Ec2.
Qed.

Lemma run_cli_ok inits file : exists s, run_cli inits file cli_blank = (s, Ok tt) /\ cli_ok s /\ has_options s.
Proof.
  unfold run_cli. destruct (command_line_ctor_ok inits) as (s & p & q & E & Hs & Ec). rewrite (M_bind_ok _ _ _ _ _ E).
  destruct (register_ok config_command (str "config") (str "Load config") (str "config") [] s)
    as (c1 & s1 & s2 & z & E1 & E2 & Hs2 & Ec2 & _); [done..| |].
  { by rewrite Ec, !lookup_insert_ne by done. }
  rewrite (M_bind_ok _ _ _ _ _ E1), (M_bind_ok _ _ _ _ _ E2).
  destruct (register_ok connect_command (str "connect") (str "Connect server") (str "connect") [] s2)
    as (c2 & s3 & s4 & z' & E3 & E4 & Hs4 & _ & Ho); [done..| |].
  { by rewrite Ec2, Ec, !lookup_insert_ne by done. }
  rewrite (M_bind_ok _ _ _ _ _ E3), (M_bind_ok _ _ _ _ _ E4).
  destruct (execute_file_ok file s4 Hs4) as (s' & z'' & E' & Hsame). rewrite (M_bind_ok _ _ _ _ _ E').
  exists s'. split; [done|]. split; [by eapply cli_ok_same|]. eapply has_options_same; [done|]. by apply Ho.
Qed.

(** ** Parameters and aliases *)

(** A parameter that is no option and no subcommand is taken off and lost: the
    command runs without its first parameter. *)
Lemma execute_param_lost p s c param rest :
  cl_objs s !! p = Some c -> startswith param (str "--") = false -> startswith param (str "-") = false ->
  cm_subcommands c !! param = None -> execute p (param :: rest) s = do_execute p rest s.
Proof.
  intros Hc H1 H2 Hsub. cbn [execute]. rewrite H1, H2. cbn [orb]. unfold get_subcommand.
  rewrite (M_bind_ok _ _ s s None); [done|]. by rewrite (M_bind_ok _ _ _ _ _ (cmd_at_ok p s c Hc)), Hsub.
Qed.

(** The file given to [config] alone is not used. *)
Lemma config_file_lost p s c file :
  cl_objs s !! p = Some c -> cm_class c = config_command -> startswith file (str "--") = false -> startswith file (str "-") = false ->
  cm_subcommands c !! file = None -> fs_exists default_config = true ->
  cl_effects (execute p [file] s).1 = cl_effects s ++ [EffConfigInit default_config].
Proof.
  intros Hc Hk H1 H2 Hsub Hf. rewrite (execute_param_lost p s c) by done. unfold do_execute.
  rewrite (M_bind_ok _ _ _ _ _ (cmd_at_ok p s c Hc)), Hk. unfold config_do_execute, config_init. by rewrite Hf.
Qed.

(** An alias given to an alias is stored as it is written: it finds nothing. *)
Lemma alias_of_alias_lost a b n p c s :
  cl_alias s !! a = Some n -> cl_commands s !! n = Some p -> cl_objs s !! p = Some c ->
  cl_alias s !! b = None -> cl_commands s !! a = None ->
  exists s', cl_add_alias a b s = (s', Ok OK) /\ get_command b s' = (s', Ok None).
Proof.
  intros Ha Hn Hc Hb Hna. unfold cl_add_alias. rewrite M_get. unfold resolve. rewrite Ha. cbn [from_option id]. rewrite Hn, Hb.
  set (s1 := cl_with_aliases (<[b := a]>) s). rewrite (M_bind_ok _ _ s s1 tt) by done.
  rewrite (M_bind_ok _ _ _ _ _ (cmd_at_ok p s1 c Hc)), (M_bind_ok _ _ _ _ _ (cmd_update_ok p _ s1 c Hc)).
  eexists. split; [reflexivity|]. unfold get_command. rewrite M_get. unfold resolve. cbn.
  rewrite lookup_insert_eq. cbn. by rewrite Hna.
Qed.
End Cli.

(** The command line of the client is built without an error, whatever the
    files of commands it finds, and then, whatever is typed, it never ends
    cleanly: leaving it destroys the commands, and the destructor of a command
    gives its default option back, whose destructor deletes the command again. *)
Theorem cli_exit_deletes_twice (order : forall A : Type, gmap (list byte) A -> list (list byte * A))
    fs_exists default_config config_reloads inits file input :
  (forall A (m : gmap (list byte) A), order A m ≡ₚ map_to_list m) ->
  exists s s', run_cli order fs_exists default_config config_reloads inits file cli_blank = (s, Ok tt) /\
    cl_run order fs_exists default_config config_reloads input s = (s', Fault (UB "double delete")).
Proof.
  intros Hord. destruct (run_cli_ok order Hord fs_exists default_config config_reloads inits file) as (s & E & Hs & Ho).
  destruct (run_faults order Hord fs_exists default_config config_reloads input s Hs Ho) as [s' E']. by exists s, s'.
Qed.

Lemma cli_exit_deletes_twice_witness :
  let order := fun A (m : gmap (list byte) A) => map_to_list m in
  exists s s', run_cli order (fun _ => true) (str "client.conf") true [] (Some [str "connect"; str "config my.conf"]) cli_blank = (s, Ok tt) /\
    cl_effects s = [EffConnect; EffConfigInit (str "client.conf")] /\
    cl_run order (fun _ => true) (str "client.conf") true [str "help"; str "q"] s = (s', Fault (UB "double delete")).
Proof.
  intros order. pose proof (cli_exit_deletes_twice order (fun _ => true) (str "client.conf") true []
    (Some [str "connect"; str "config my.conf"]) [str "help"; str "q"] (fun _ _ => Permutation_refl _)) as (s & s' & E & E').
  exists s, s'. split; [exact E|]. split; [|exact E']. clear E'.
  apply (f_equal (fun r => cl_effects r.1)) in E. cbn [fst] in E. rewrite <- E. vm_compute. reflexivity.
Defined.

(** Destroying a command ends whatever the heap looks like, cycles of
    parents and options shared at will included: each destructor that runs marks
    its object, and entering a marked one is the end. *)
Theorem cmd_delete_ends (order : forall A : Type, gmap (list byte) A -> list (list byte * A)) p s :
  (cmd_delete order p s).2 <> Fault OutOfFuel.
Proof.
  unfold cmd_delete. rewrite M_get. refine (proj2 (delete_shrinks order _ p s _)). apply Nat.lt_succ_r. rewrite <- size_dom.
  apply subseteq_size. unfold live. set_solver.
Qed.
