(* ===== verification/Metrics.v ===== *)
(** Values of metrics (source/bee/monitor/metric.h) and what the collectors read
    them with: [double] as IEEE 754 binary64 (the Standard Library's [SpecFloat],
    which computes on integers), [std::to_string] of it, [std::istringstream],
    [std::stoi] and its relatives. *)

From Stdlib Require Import Floats.SpecFloat.
From S2P Require Import Prelude Octets Marshal Text.

(** ** double *)

Abbreviation double := spec_float.
Definition double_of_Z (z : Z) : double := binary_normalize 53 1024 z 0 false.
Definition dadd : double -> double -> double := SFadd 53 1024.
Definition dsub : double -> double -> double := SFsub 53 1024.
Definition dmul : double -> double -> double := SFmul 53 1024.
Definition ddiv : double -> double -> double := SFdiv 53 1024.

(** The conversion to [int64_t] drops the fraction; a value it can not hold is
    undefined. *)
Definition int64_of_double (d : double) : outcome Z :=
  match d with
  | S754_zero _ => Ok 0
  | S754_finite s m e =>
      let n := if e >=? 0 then Z.pos m * 2 ^ e else Z.pos m / 2 ^ (- e) in
      let z := if s then - n else n in
      if (- 2 ^ 63 <=? z) && (z <? 2 ^ 63) then Ok z else Fault (UB "double out of range of int64_t")
  | _ => Fault (UB "double out of range of int64_t")
  end.

(** [n / d] rounded to the nearest, to even when both are as near. *)
Definition round_div (n d : Z) : Z :=
  let q := n / d in let r := n mod d in
  if 2 * r <? d then q else if d <? 2 * r then q + 1 else if Z.even q then q else q + 1.

(** "%f": six digits behind the point.  [nan_text] is how the C library writes
    a NaN, with or without a sign. *)
Definition micros (m e : Z) : Z :=
  if e >=? 0 then m * 2 ^ e * 10 ^ 6 else round_div (m * 10 ^ 6) (2 ^ (- e)).
Definition fixed6 (q : Z) : list byte :=
  digits 320 (q / 10 ^ 6) [] ++ x2e :: drop 1 (digits 7 (10 ^ 6 + q mod 10 ^ 6) []).
Definition to_string_double (nan_text : list byte) (d : double) : list byte :=
  match d with
  | S754_zero s => (if s then [x2d] else []) ++ str "0.000000"
  | S754_infinity s => (if s then [x2d] else []) ++ str "inf"
  | S754_nan => nan_text
  | S754_finite s m e => (if s then [x2d] else []) ++ fixed6 (micros (Z.pos m) e)
  end.

Example print_third : to_string_double [] (ddiv (double_of_Z 100) (double_of_Z 3)) = str "33.333333".
Proof. vm_compute. reflexivity. Qed.

(** ** std::istringstream *)

(** The characters left, and whether the stream is good.  A stream at its end
    fails at the next extraction either way, so [eofbit] is not kept apart. *)
Record isstream := mk_iss { iss_rest : list byte; iss_good : bool }.
Definition iss_new (s : list byte) : isstream := mk_iss s true.
Definition iss_fail (s : isstream) : isstream := mk_iss (iss_rest (s : isstream)) false.

Abbreviation ISS := (M isstream).

(** The sentry skips white space; at the end it fails. *)
Definition sentry : ISS bool := fun s =>
  if iss_good s then
    match drop_spaces (iss_rest (s : isstream)) with
    | [] => (mk_iss [] false, Ok false)
    | r => (mk_iss r true, Ok true)
    end
  else (s, Ok false).

Fixpoint span {A} (p : A -> bool) (l : list A) : list A * list A :=
  match l with
  | x :: l' => if p x then let '(a, b) := span p l' in (x :: a, b) else ([], l)
  | [] => ([], [])
  end.

(** [>> std::string]: left as it is when the sentry fails. *)
Definition extract_string (old : list byte) : ISS (list byte) :=
  ok ← sentry;
  if (ok : bool) then s ← get; let '(w, r) := span (fun c => negb (is_space c)) (iss_rest (s : isstream)) in put (mk_iss r true);; mret w
  else mret old.

(** A variable without an initialiser is [None] until it is written. *)
Abbreviation cellZ := (option Z).

(** A sign, digits: the number, and whether there is one. *)
Definition scan_int (s : list byte) : bool * list byte * list byte :=
  let '(neg, s) := match s with x2d :: s => (true, s) | x2b :: s => (false, s) | s => (false, s) end in
  let '(ds, r) := span is_digit s in (neg, ds, r).

(** [>> uint64_t] and [>> int64_t]: no digits give 0 and fail, what is too large
    gives the nearest value and fails. *)
Definition extract_u64 (old : cellZ) : ISS cellZ :=
  ok ← sentry;
  if (ok : bool) then
    s ← get;
    let '(neg, ds, r) := scan_int (iss_rest (s : isstream)) in
    let z := number ds 0 in
    let fits := negb (bool_decide (ds = [])) && (z <? 2 ^ 64) in
    put (mk_iss r fits);;
    mret (Some (if bool_decide (ds = []) then 0 else if z <? 2 ^ 64 then u64 (if neg then - z else z) else 2 ^ 64 - 1))
  else mret old.
Definition extract_s64 (old : cellZ) : ISS cellZ :=
  ok ← sentry;
  if (ok : bool) then
    s ← get;
    let '(neg, ds, r) := scan_int (iss_rest (s : isstream)) in
    let z := if neg then - number ds 0 else number ds 0 in
    let fits := negb (bool_decide (ds = [])) && ((- 2 ^ 63 <=? z) && (z <? 2 ^ 63)) in
    put (mk_iss r fits);;
    mret (Some (if bool_decide (ds = []) then 0 else if z <? - 2 ^ 63 then - 2 ^ 63 else if 2 ^ 63 <=? z then 2 ^ 63 - 1 else z))
  else mret old.

(** [>> double]: digits with a point, the nearest double to their value; an
    exponent is not among what the kernel writes, and ends the number here. *)
Definition extract_double (old : double) : ISS double :=
  ok ← sentry;
  if (ok : bool) then
    s ← get;
    let '(neg, ds, r) := scan_int (iss_rest (s : isstream)) in
    let '(fs, r) := match r with x2e :: r' => span is_digit r' | _ => ([], r) end in
    match ds ++ fs with
    | [] => put (mk_iss r false);; mret (S754_zero false)
    | ds' =>
        put (mk_iss r true);;
        let v := ddiv (binary_normalize 53 1024 (number ds' 0) 0 false) (binary_normalize 53 1024 (10 ^ len fs) 0 false) in
        mret (if neg then SFopp v else v)
    end
  else mret old.

(** Reading a variable that was never written is undefined. *)
Definition cell_value (c : cellZ) : outcome Z :=
  match c with Some z => Ok z | None => Fault (UB "indeterminate value") end.

(** ** std::stoi, std::stol, std::stoull; std::stoi and std::stoul in base 16 *)

Definition sto (lo hi : Z) (s : list byte) : outcome Z :=
  let '(neg, z, ok) := signed_number s in
  let z := if neg then - z else z in
  if negb ok then Throw (ExnInvalidArg "sto")
  else if (lo <=? z) && (z <=? hi) then Ok z else Throw (ExnOutOfRange "sto").
Definition stoi : list byte -> outcome Z := sto (- 2 ^ 31) (2 ^ 31 - 1).
Definition stol : list byte -> outcome Z := sto (- 2 ^ 63) (2 ^ 63 - 1).

Definition hex_value (c : byte) : Z :=
  let z := Z_of_byte c in
  if (48 <=? z) && (z <=? 57) then z - 48
  else if (65 <=? z) && (z <=? 70) then z - 55
  else if (97 <=? z) && (z <=? 102) then z - 87 else -1.
Definition is_xdigit (c : byte) : bool := 0 <=? hex_value c.
Fixpoint hex_number (s : list byte) (z : Z) : Z :=
  match s with
  | c :: s => if is_xdigit c then hex_number s (16 * z + hex_value c) else z
  | [] => z
  end.
(** [strtol] with base 16: spaces, a sign, "0x" before a digit. *)
Definition signed_hex (s : list byte) : bool * Z * bool :=
  let '(neg, s) := match drop_spaces s with
                   | x2d :: s => (true, s) | x2b :: s => (false, s) | s => (false, s) end in
  let s := match s with
           | x30 :: x78 :: ((c :: _) as s') | x30 :: x58 :: ((c :: _) as s') => if is_xdigit c then s' else s
           | s => s
           end in
  (neg, hex_number s 0, match s with c :: _ => is_xdigit c | [] => false end).
Definition stoi16 (s : list byte) : outcome Z :=
  let '(neg, z, ok) := signed_hex s in
  let z := if neg then - z else z in
  if negb ok then Throw (ExnInvalidArg "stoi")
  else if (- 2 ^ 31 <=? z) && (z <? 2 ^ 31) then Ok z else Throw (ExnOutOfRange "stoi").
Definition stoul16 (s : list byte) : outcome Z :=
  let '(neg, z, ok) := signed_hex s in
  if negb ok then Throw (ExnInvalidArg "stoul")
  else if z >=? 2 ^ 64 then Throw (ExnOutOfRange "stoul")
  else Ok (u64 (if neg then - z else z)).

(** ** metric.h *)

(** [timestamp] has no initialiser. *)
Record influx_metric := mk_influx {
  im_name : list byte;
  im_timestamp : cellZ;
  im_tags : gmap (list byte) (list byte);
  im_fields : gmap (list byte) (list byte);
}.
Definition influx_new (name : list byte) : influx_metric := mk_influx name None ∅ ∅.
Definition set_timestamp (ts : Z) (m : influx_metric) : influx_metric :=
  mk_influx (im_name m) (Some ts) (im_tags m) (im_fields m).

Definition add_tag (key value : list byte) (m : influx_metric) : influx_metric :=
  mk_influx (im_name m) (im_timestamp m) (<[key := value]> (im_tags m)) (im_fields m).
Definition add_field (key value : list byte) (m : influx_metric) : influx_metric :=
  mk_influx (im_name m) (im_timestamp m) (im_tags m) (<[key := value]> (im_fields m)).
Definition add_field_double (nan_text : list byte) (key : list byte) (value : double) : influx_metric -> influx_metric :=
  add_field key (to_string_double nan_text value).
Definition add_field_i32 (key : list byte) (value : Z) : influx_metric -> influx_metric := add_field key (to_string value).
Definition add_field_u32 (key : list byte) (value : Z) : influx_metric -> influx_metric := add_field key (to_string value).
Definition add_field_i64 (key : list byte) (value : Z) : influx_metric -> influx_metric := add_field key (to_string value ++ [x69]).
Definition add_field_u64 (key : list byte) (value : Z) : influx_metric -> influx_metric := add_field key (to_string value ++ [x75]).
Definition add_field_bool (key : list byte) (value : bool) : influx_metric -> influx_metric :=
  add_field key (if value then str "true" else str "false").

Inductive prometheus_type := COUNTER | GAUGE | HISTOGRAM | SUMMARY.
Record prometheus_metric := mk_prometheus {
  pm_name : list byte;
  pm_timestamp : cellZ;
  pm_type : prometheus_type;
  pm_help : list byte;
  pm_labels : list (list byte * list byte);      (* a [std::map]: in the order of its keys *)
  pm_value : double;
}.
Definition prometheus_new (type : prometheus_type) (name : list byte) : prometheus_metric :=
  mk_prometheus name None type [] [] (S754_zero false).
(** The order of [std::map]'s keys. *)
Fixpoint bytes_ltb (a b : list byte) : bool :=
  match a, b with
  | _, [] => false
  | [], _ => true
  | x :: a, y :: b => (Z_of_byte x <? Z_of_byte y) || ((Z_of_byte x =? Z_of_byte y) && bytes_ltb a b)
  end.
Fixpoint map_put (key value : list byte) (l : list (list byte * list byte)) : list (list byte * list byte) :=
  match l with
  | [] => [(key, value)]
  | (k, v) :: l' =>
      if bytes_ltb key k then (key, value) :: l
      else if bool_decide (key = k) then (k, value) :: l'
      else (k, v) :: map_put key value l'
  end.
Definition add_label (key value : list byte) (m : prometheus_metric) : prometheus_metric :=
  mk_prometheus (pm_name m) (pm_timestamp m) (pm_type m) (pm_help m) (map_put key value (pm_labels m)) (pm_value m).
Definition set_value (value : double) (m : prometheus_metric) : prometheus_metric :=
  mk_prometheus (pm_name m) (pm_timestamp m) (pm_type m) (pm_help m) (pm_labels m) value.
Definition set_help (help : list byte) (m : prometheus_metric) : prometheus_metric :=
  mk_prometheus (pm_name m) (pm_timestamp m) (pm_type m) help (pm_labels m) (pm_value m).
Definition label_names (m : prometheus_metric) : list (list byte) := fst <$> pm_labels m.
Definition label_values (m : prometheus_metric) : list (list byte) := snd <$> pm_labels m.

(** ** What the extractions give *)

Lemma span_app {A} (p : A -> bool) w c r :
  Forall (fun x => p x = true) w -> p c = false -> span p (w ++ c :: r) = (w, c :: r).
Proof. intros Hw Hc. induction Hw as [|x w Hx Hw IH]; cbn; [by rewrite Hc|]. by rewrite Hx, IH. Qed.
Lemma span_all {A} (p : A -> bool) w : Forall (fun x => p x = true) w -> span p w = (w, []).
Proof. intros Hw. induction Hw as [|x w Hx Hw IH]; cbn; [done|]. by rewrite Hx, IH. Qed.

Lemma sentry_end s : drop_spaces (iss_rest (s : isstream)) = [] \/ iss_good s = false -> exists s', sentry s = (s', Ok false) /\ iss_good s' = false.
Proof.
  intros H. unfold sentry. destruct (iss_good s) eqn:Eg; [|by exists s].
  destruct H as [->|]; [|done]. by eexists.
Qed.

(** Behind a failure nothing is written. *)
Lemma extract_u64_failed s old : iss_good s = false -> extract_u64 old s = (s, Ok old).
Proof. intros H. unfold extract_u64, sentry, mbind, M_bind. by rewrite H. Qed.
