(* ===== verification/Monitor.v ===== *)
(** The monitor (source/bee/monitor/): the collectors, what they read of the
    system, and the engine that asks them at every tick of its timer and exports
    the metrics.  What the kernel answers is a record; [now] is the monotonic
    clock. *)

From Stdlib Require Import Floats.SpecFloat.
From S2P Require Import Prelude Octets BytesOrder Marshal Text Metrics.

(** ** What the collectors ask the system *)

Record sys_meminfo := mk_sysinfo {
  si_totalram : Z; si_freeram : Z; si_totalswap : Z; si_freeswap : Z; si_mem_unit : Z;
}.
Record sys_vfs := mk_vfs { vf_blocks : Z; vf_bfree : Z; vf_frsize : Z; vf_files : Z; vf_ffree : Z }.
Record sys_usage := mk_rusage {
  ru_utime_sec : Z; ru_utime_usec : Z; ru_stime_sec : Z; ru_stime_usec : Z;
  ru_maxrss : Z; ru_minflt : Z; ru_majflt : Z; ru_inblock : Z; ru_oublock : Z;
}.

Record system := mk_system {
  sys_file : list byte -> option (list (list byte));             (* the lines of a file *)
  sys_ifaddrs : option (list (list byte * option (list byte)));  (* the interfaces, with the text of an IPv4 address *)
  sys_ethtool : list byte -> option Z;                           (* SIOCETHTOOL: the speed *)
  sys_info : option sys_meminfo;
  sys_statvfs : list byte -> option sys_vfs;
  sys_rusage : option sys_usage;
  sys_pagesize : Z;
  sys_links : list byte -> option Z;                             (* the links in a directory *)
  sys_procs : list (list byte * list byte);                      (* the directories of /proc, with the first line of cmdline *)
}.

(** ** The collectors' data *)

Record interface_stats := mk_stats {
  rx_bytes : Z; rx_packets : Z; rx_errors : Z; rx_dropped : Z;
  tx_bytes : Z; tx_packets : Z; tx_errors : Z; tx_dropped : Z;
}.
Definition stats_zero : interface_stats := mk_stats 0 0 0 0 0 0 0 0.

Record net_collector := mk_net {
  nc_interfaces : list (list byte);
  nc_interfaces_set : gset (list byte);
  nc_prev_stats : gmap (list byte) interface_stats;
  nc_monitor_tcp : bool;
  nc_monitor_udp : bool;
  nc_monitor_connections : bool;
}.
Definition nc_with_prev f n :=
  mk_net (nc_interfaces n) (nc_interfaces_set n) (f (nc_prev_stats n)) (nc_monitor_tcp n) (nc_monitor_udp n) (nc_monitor_connections n).
Definition nc_with_interfaces l s n :=
  mk_net l s (nc_prev_stats n) (nc_monitor_tcp n) (nc_monitor_udp n) (nc_monitor_connections n).

Inductive collector_class :=
  | cpu_collector (last_total last_idle : Z)
  | mem_collector
  | disk_collector (mount_points : list (list byte))
  | proc_collector (pid : Z) (process_names : list (list byte))
  | net_collector_class (n : net_collector).

Record metric_collector := mk_collector {
  mc_name : list byte;
  mc_interval : Z;
  mc_last_collect_time : Z;
  mc_event_handlers : gmap (list byte) nat;
  mc_class : collector_class;
}.
Definition collector_new (name : list byte) (interval : Z) (c : collector_class) : metric_collector :=
  mk_collector name interval 0 ∅ c.
Definition register_event_handler (event_type : list byte) (handler : nat) (c : metric_collector) : metric_collector :=
  mk_collector (mc_name c) (mc_interval c) (mc_last_collect_time c) (<[event_type := handler]> (mc_event_handlers c)) (mc_class c).
(** The handler that is called. *)
Definition handle_event (event_type : list byte) (c : metric_collector) : option nat := mc_event_handlers c !! event_type.

Definition set_interval (interval : Z) (c : metric_collector) : metric_collector :=
  mk_collector (mc_name c) interval (mc_last_collect_time c) (mc_event_handlers c) (mc_class c).
Definition set_monitor_tcp (b : bool) (n : net_collector) : net_collector :=
  mk_net (nc_interfaces n) (nc_interfaces_set n) (nc_prev_stats n) b (nc_monitor_udp n) (nc_monitor_connections n).
Definition set_monitor_udp (b : bool) (n : net_collector) : net_collector :=
  mk_net (nc_interfaces n) (nc_interfaces_set n) (nc_prev_stats n) (nc_monitor_tcp n) b (nc_monitor_connections n).
Definition set_monitor_connections (b : bool) (n : net_collector) : net_collector :=
  mk_net (nc_interfaces n) (nc_interfaces_set n) (nc_prev_stats n) (nc_monitor_tcp n) (nc_monitor_udp n) b.
Definition set_pid (pid : Z) (c : collector_class) : collector_class :=
  match c with proc_collector _ names => proc_collector pid names | c => c end.
Definition add_process_name (name : list byte) (c : collector_class) : collector_class :=
  match c with proc_collector pid names => proc_collector pid (names ++ [name]) | c => c end.

Section Monitor.
Context (nan_text : list byte).
(** The order in which the hash tables are walked. *)
Variable order : forall A : Type, gmap (list byte) A -> list (list byte * A).

(** ** cpu_collector.h *)

(** The integers of the first line; an indeterminate one is undefined to add,
    as a sum outside [int64_t] is. *)
Definition add64 (a b : Z) : outcome Z :=
  let z := a + b in if (- 2 ^ 63 <=? z) && (z <? 2 ^ 63) then Ok z else Fault (UB "signed overflow").

Definition cpu_line (line : list byte) : outcome (cellZ * cellZ * cellZ * double * cellZ * cellZ * cellZ) :=
  (( _ ← extract_string [];
     user ← extract_s64 None; nice ← extract_s64 None; sys ← extract_s64 None;
     idle ← extract_double (S754_zero false);
     iowait ← extract_s64 None; irq ← extract_s64 None; softirq ← extract_s64 None;
     mret (user, nice, sys, idle, iowait, irq, softirq) : ISS _) (iss_new line)).2.

Definition cpu_collect (os : system) (last_total last_idle : Z) (m : influx_metric) : outcome (collector_class * influx_metric) :=
  let fill total idle usage last m :=
    Ok (last, add_field_double nan_text (str "usage") usage
      (add_field_double nan_text (str "idle") idle (add_field_i64 (str "total") total (add_tag (str "core") (str "all") m)))) in
  match sys_file os (str "/proc/stat") with
  | Some (line :: _) =>
      v ← cpu_line line;
      let '(user, nice, sys, idle, iowait, irq, softirq) := v in
      user ← cell_value user; nice ← cell_value nice; sys ← cell_value sys;
      t ← add64 user nice; t ← add64 t sys;
      iowait ← cell_value iowait; irq ← cell_value irq; softirq ← cell_value softirq;
      total ← int64_of_double (dadd (dadd (dadd (dadd (double_of_Z t) idle) (double_of_Z iowait)) (double_of_Z irq)) (double_of_Z softirq));
      usage ← (if (last_total <? total) && SFltb (double_of_Z last_idle) idle then
                 d ← (let z := total - last_total in
                      if (- 2 ^ 63 <=? z) && (z <? 2 ^ 63) then Ok z else Fault (UB "signed overflow"));
                 let total_diff := double_of_Z d in
                 let idle_diff := dsub idle (double_of_Z last_idle) in
                 Ok (dmul (double_of_Z 100) (dsub (double_of_Z 1) (ddiv idle_diff total_diff)))
               else Ok (S754_zero false));
      last_idle ← int64_of_double idle;
      fill total idle usage (cpu_collector total last_idle) m
  | _ => fill 0 (S754_zero false) (S754_zero false) (cpu_collector last_total last_idle) m
  end.

(** ** mem_collector.h *)

Definition percent (used total : Z) : double := ddiv (dmul (double_of_Z used) (double_of_Z 100)) (double_of_Z total).

Definition meminfo_line (line : list byte) : outcome (list byte * cellZ * list byte) :=
  ((key ← extract_string []; value ← extract_u64 None; unit_ ← extract_string []; mret (key, value, unit_) : ISS _) (iss_new line)).2.

(** A value never read is copied into the map as it is: it is undefined when the
    unit multiplies it, and when it is copied. *)
Fixpoint meminfo_values (lines : list (list byte)) (values : gmap (list byte) Z) : outcome (gmap (list byte) Z) :=
  match lines with
  | [] => Ok values
  | line :: lines =>
      v ← meminfo_line line;
      let '(key, value, unit_) := v in
      let key := match last key with Some x3a => take (length key - 1) key | _ => key end in
      value ← cell_value value;
      let value := if bool_decide (unit_ = str "kB") then u64 (value * 1024) else value in
      meminfo_values lines (<[key := value]> values)
  end.

Definition meminfo_names : list (list byte) :=
  [str "MemTotal"; str "MemFree"; str "MemAvailable"; str "Buffers"; str "Cached"; str "SwapCached"; str "Active"; str "Inactive";
   str "SwapTotal"; str "SwapFree"].

Definition parse_proc_meminfo (os : system) (m : influx_metric) : outcome influx_metric :=
  match sys_file os (str "/proc/meminfo") with
  | None => Ok m
  | Some lines =>
      values ← meminfo_values lines ∅;
      Ok (fold_left (fun m name => add_field_u64 name (default 0 (values !! name)) m) meminfo_names
            (add_tag (str "type") (str "detailed") m))
  end.

Definition mem_fields (type : list byte) (total free : Z) (usage : double) (m : influx_metric) : influx_metric :=
  add_field_double nan_text (str "usage") usage
    (add_field_u64 (str "free") free
      (add_field_u64 (str "used") (u64 (total - free))
        (add_field_u64 (str "total") total (add_tag (str "type") type m)))).

Definition mem_collect (os : system) (m : influx_metric) : outcome influx_metric :=
  match sys_info os with
  | None => Ok m
  | Some i =>
      let total_ram := u64 (si_totalram i * si_mem_unit i) in
      let free_ram := u64 (si_freeram i * si_mem_unit i) in
      let m := mem_fields (str "physical") total_ram free_ram (percent (u64 (total_ram - free_ram)) total_ram) m in
      let total_swap := u64 (si_totalswap i * si_mem_unit i) in
      let free_swap := u64 (si_freeswap i * si_mem_unit i) in
      let swap_usage := if 0 <? total_swap then percent (u64 (total_swap - free_swap)) total_swap else S754_zero false in
      parse_proc_meminfo os (mem_fields (str "swap") total_swap free_swap swap_usage m)
  end.

(** ** disk_collector.h *)

Definition filtered_fstypes : list (list byte) :=
  [str "tmpfs"; str "devtmpfs"; str "proc"; str "sysfs"; str "cgroup"; str "devpts"].
Definition mount_line (line : list byte) : outcome (list byte * list byte * list byte) :=
  ((device ← extract_string []; mount_point ← extract_string []; fstype ← extract_string []; mret (device, mount_point, fstype) : ISS _) (iss_new line)).2.

(** The vector and the set of the mount points hold the same. *)
Fixpoint init_mount_points (lines : list (list byte)) (mount_points : list (list byte)) : outcome (list (list byte)) :=
  match lines with
  | [] => Ok mount_points
  | line :: lines =>
      v ← mount_line line;
      let '(_, mount_point, fstype) := v in
      if bool_decide (fstype ∈ filtered_fstypes) then init_mount_points lines mount_points
      else if bool_decide (mount_point ∈ mount_points) then init_mount_points lines mount_points
      else init_mount_points lines (mount_points ++ [mount_point])
  end.

Definition disk_mount (os : system) (m : influx_metric) (mount : list byte) : influx_metric :=
  match sys_statvfs os (c_string mount) with
  | None => m
  | Some v =>
      let total := u64 (vf_blocks v * vf_frsize v) in
      let free := u64 (vf_bfree v * vf_frsize v) in
      let used := u64 (total - free) in
      let m := add_tag (str "mount") mount m in
      let m := add_field_u64 (str "total") total m in
      let m := add_field_u64 (str "used") used m in
      let m := add_field_u64 (str "free") free m in
      let m := add_field_double nan_text (str "usage") (percent used total) m in
      let m := add_field_u64 (str "inode_total") (vf_files v) m in
      let m := add_field_u64 (str "inode_used") (u64 (vf_files v - vf_ffree v)) m in
      let m := add_field_u64 (str "inode_free") (vf_ffree v) m in
      add_field_double nan_text (str "inode_usage") (percent (u64 (vf_files v - vf_ffree v)) (vf_files v)) m
  end.
Definition disk_collect (os : system) (mount_points : list (list byte)) (m : influx_metric) : influx_metric :=
  fold_left (disk_mount os) mount_points m.

(** ** proc_collector.h *)

(** The members without an initialiser are indeterminate until they are read;
    the conversions of [parse_proc_stat] write them one after the other. *)
Record process_stat := mk_pstat {
  ps_pid : Z; ps_comm : list byte;
  ps_utime : cellZ; ps_stime : cellZ; ps_rss : cellZ; ps_vsize : cellZ; ps_num_threads : cellZ;
}.
Definition pstat_none : process_stat := mk_pstat 0 [] None None None None None.

Fixpoint stat_tokens (fuel : nat) : ISS (list (list byte)) :=
  match fuel with
  | O => mret []
  | S fuel => ok ← sentry;
              if (ok : bool) then token ← extract_string []; rest ← stat_tokens fuel; mret (token :: rest) else mret []
  end.

Definition token_at (tokens : list (list byte)) (i : nat) : list byte := default [] (tokens !! i).

(** What the [try] does, on the object it fills. *)
Definition stat_fill (tokens : list (list byte)) : M process_stat unit :=
  pid ← lift (stoi (token_at tokens 0)); modify (fun s => mk_pstat pid (ps_comm s) (ps_utime s) (ps_stime s) (ps_rss s) (ps_vsize s) (ps_num_threads s));;
  comm ← lift (let t := token_at tokens 1 in substr t 1 (u64 (len t - 2)));
  modify (fun s => mk_pstat (ps_pid s) comm (ps_utime s) (ps_stime s) (ps_rss s) (ps_vsize s) (ps_num_threads s));;
  _ ← lift (stoi (token_at tokens 3));
  z ← lift (stoul (token_at tokens 13)); modify (fun s => mk_pstat (ps_pid s) (ps_comm s) (Some z) (ps_stime s) (ps_rss s) (ps_vsize s) (ps_num_threads s));;
  z ← lift (stoul (token_at tokens 14)); modify (fun s => mk_pstat (ps_pid s) (ps_comm s) (ps_utime s) (Some z) (ps_rss s) (ps_vsize s) (ps_num_threads s));;
  z ← lift (stol (token_at tokens 23)); modify (fun s => mk_pstat (ps_pid s) (ps_comm s) (ps_utime s) (ps_stime s) (Some z) (ps_vsize s) (ps_num_threads s));;
  z ← lift (stoul (token_at tokens 22)); modify (fun s => mk_pstat (ps_pid s) (ps_comm s) (ps_utime s) (ps_stime s) (ps_rss s) (Some z) (ps_num_threads s));;
  z ← lift (stoi (token_at tokens 19)); modify (fun s => mk_pstat (ps_pid s) (ps_comm s) (ps_utime s) (ps_stime s) (ps_rss s) (ps_vsize s) (Some z)).

Definition proc_path (pid : Z) (file : list byte) : list byte := str "/proc/" ++ to_string pid ++ x2f :: file.

Definition parse_proc_stat (os : system) (pid : Z) : outcome process_stat :=
  match sys_file os (proc_path pid (str "stat")) with
  | Some (line :: _) =>
      tokens ← (stat_tokens (S (length line)) (iss_new line)).2;
      if (length tokens <? 52)%nat then Ok pstat_none
      else match stat_fill tokens pstat_none with
           | (s, Fault f) => Fault f
           | (s, _) => Ok s                      (* the exceptions are caught, and logged *)
           end
  | _ => Ok pstat_none
  end.

Definition count_open_files (os : system) (pid : Z) : Z := default 0 (sys_links os (proc_path pid (str "fd"))).

(** common/common.cpp *)
Definition name_contains (name s : list byte) : bool :=
  existsb (fun i => startswith (drop i s) name) (seq 0 (S (length s))).
Fixpoint find_pids_by_name (procs : list (list byte * list byte)) (name : list byte) : outcome (list Z) :=
  match procs with
  | [] => Ok []
  | (pid_str, cmdline) :: procs =>
      if forallb is_digit pid_str && name_contains name cmdline then
        pid ← stoi pid_str; rest ← find_pids_by_name procs name; Ok (pid :: rest)
      else find_pids_by_name procs name
  end.

Definition seconds (sec usec : Z) : double := dadd (double_of_Z sec) (ddiv (double_of_Z usec) (double_of_Z 1000000)).

Definition collect_process (os : system) (pid : Z) (m : influx_metric) : outcome influx_metric :=
  if pid <=? 0 then Ok m
  else
    stat ← parse_proc_stat os pid;
    if ps_pid stat =? 0 then Ok m
    else
      match sys_rusage os with
      | None => Ok m
      | Some usage =>
          let m := add_tag (str "pid") (to_string pid) m in
          let m := add_tag (str "name") (ps_comm stat) m in
          utime ← cell_value (ps_utime stat); stime ← cell_value (ps_stime stat);
          vsize ← cell_value (ps_vsize stat); rss ← cell_value (ps_rss stat);
          rss ← (let z := rss * sys_pagesize os in
                 if (- 2 ^ 63 <=? z) && (z <? 2 ^ 63) then Ok z else Fault (UB "signed overflow"));
          threads ← cell_value (ps_num_threads stat);
          let m := add_field_u64 (str "cpu_user") utime m in
          let m := add_field_u64 (str "cpu_system") stime m in
          let m := add_field_u64 (str "cpu_total") (u64 (utime + stime)) m in
          let m := add_field_u64 (str "vm_size") vsize m in
          let m := add_field_i64 (str "rss") rss m in
          let m := add_field_i32 (str "threads") threads m in
          let m := add_field_double nan_text (str "user_cpu_usage") (seconds (ru_utime_sec usage) (ru_utime_usec usage)) m in
          let m := add_field_double nan_text (str "system_cpu_usage") (seconds (ru_stime_sec usage) (ru_stime_usec usage)) m in
          let m := add_field_i64 (str "max_rss") (ru_maxrss usage) m in
          let m := add_field_i64 (str "minflt") (ru_minflt usage) m in
          let m := add_field_i64 (str "majflt") (ru_majflt usage) m in
          let m := add_field_i64 (str "inblock") (ru_inblock usage) m in
          let m := add_field_i64 (str "oublock") (ru_oublock usage) m in
          Ok (add_field_i32 (str "open_files") (count_open_files os pid) m)
      end.

Fixpoint collect_processes (os : system) (pids : list Z) (m : influx_metric) : outcome influx_metric :=
  match pids with [] => Ok m | pid :: pids => m ← collect_process os pid m; collect_processes os pids m end.
Fixpoint collect_names (os : system) (names : list (list byte)) (m : influx_metric) : outcome influx_metric :=
  match names with
  | [] => Ok m
  | name :: names => pids ← find_pids_by_name (sys_procs os) name; m ← collect_processes os pids m; collect_names os names m
  end.
Definition proc_collect (os : system) (pid : Z) (names : list (list byte)) (m : influx_metric) : outcome influx_metric :=
  m ← collect_process os pid m; collect_names os names m.

(** ** net_collector.h *)

Abbreviation NET := (M (net_collector * influx_metric)).
Definition on_metric (f : influx_metric -> influx_metric) : NET unit := modify (fun s => (s.1, f s.2)).

Fixpoint net_interfaces (addrs : list (list byte * option (list byte))) (n : net_collector) : net_collector :=
  match addrs with
  | [] => n
  | (name, Some _) :: addrs =>
      net_interfaces addrs
        (if bool_decide (name ∈ nc_interfaces_set n) then n
         else nc_with_interfaces (nc_interfaces n ++ [name]) ({[name]} ∪ nc_interfaces_set n) n)
  | (_, None) :: addrs => net_interfaces addrs n
  end.
Definition init_network_interfaces (os : system) (n : net_collector) : net_collector :=
  match sys_ifaddrs os with None => n | Some addrs => net_interfaces addrs n end.
Definition net_new (os : system) : net_collector := init_network_interfaces os (mk_net [] ∅ ∅ true true true).
Definition add_interface (iface : list byte) (n : net_collector) : net_collector :=
  if bool_decide (iface ∈ nc_interfaces n) then n else nc_with_interfaces (nc_interfaces n ++ [iface]) (nc_interfaces_set n) n.

(** The name is cut to what the request holds; [speed] has sixteen bits. *)
Definition get_interface_speed (os : system) (iface : list byte) : Z :=
  match sys_ethtool os (take 15 (c_string iface)) with Some speed => u16 speed | None => -1 end.

Fixpoint interface_ip (addrs : list (list byte * option (list byte))) (iface : list byte) : list byte :=
  match addrs with
  | [] => []
  | (name, Some ip) :: addrs => if bool_decide (name = c_string iface) then ip else interface_ip addrs iface
  | (_, None) :: addrs => interface_ip addrs iface
  end.
Definition get_interface_ip (os : system) (iface : list byte) : list byte :=
  match sys_ifaddrs os with None => [] | Some addrs => interface_ip addrs iface end.

(** The counters of a line, in the order in which they are extracted. *)
Definition interface_columns : ISS (list cellZ) :=
  rx_bytes ← extract_u64 None; rx_packets ← extract_u64 None; rx_errors ← extract_u64 None;
  rx_dropped ← extract_u64 None; rx_dropped ← extract_u64 rx_dropped; rx_dropped ← extract_u64 rx_dropped;
  rx_dropped ← extract_u64 rx_dropped; rx_dropped ← extract_u64 rx_dropped;
  tx_bytes ← extract_u64 None; tx_packets ← extract_u64 None; tx_errors ← extract_u64 None; tx_dropped ← extract_u64 None;
  mret [rx_bytes; rx_packets; rx_errors; rx_dropped; tx_bytes; tx_packets; tx_errors; tx_dropped].

Definition stats_of (cells : list cellZ) : outcome interface_stats :=
  match cells with
  | [a; b; c; d; e; f; g; h] =>
      a ← cell_value a; b ← cell_value b; c ← cell_value c; d ← cell_value d;
      e ← cell_value e; f ← cell_value f; g ← cell_value g; h ← cell_value h;
      Ok (mk_stats a b c d e f g h)
  | _ => Fault (UB "indeterminate value")
  end.

(** The name of a line and its stream; [back] of an empty name is undefined. *)
Definition interface_name (line : list byte) : outcome (isstream * list byte) :=
  let '(s, iface) := extract_string [] (iss_new line) in
  iface ← iface;
  match last iface with
  | None => Fault (UB "back() of an empty string")
  | Some x3a => Ok (s, take (length iface - 1) iface)
  | Some _ => Ok (s, iface)
  end.

Definition interface_fields (cur prev : interface_stats) (iface : list byte) (m : influx_metric) : influx_metric :=
  let m := add_tag (str "interface") iface m in
  let m := add_field_u64 (str "rx_bytes") (u64 (rx_bytes cur - rx_bytes prev)) m in
  let m := add_field_u64 (str "tx_bytes") (u64 (tx_bytes cur - tx_bytes prev)) m in
  let m := add_field_u64 (str "rx_packets") (u64 (rx_packets cur - rx_packets prev)) m in
  let m := add_field_u64 (str "tx_packets") (u64 (tx_packets cur - tx_packets prev)) m in
  let m := add_field_u64 (str "rx_errors") (u64 (rx_errors cur - rx_errors prev)) m in
  let m := add_field_u64 (str "tx_errors") (u64 (tx_errors cur - tx_errors prev)) m in
  let m := add_field_u64 (str "rx_dropped") (u64 (rx_dropped cur - rx_dropped prev)) m in
  add_field_u64 (str "tx_dropped") (u64 (tx_dropped cur - tx_dropped prev)) m.

Definition collect_interface_line (os : system) (line : list byte) : NET unit :=
  r ← lift (interface_name line);
  let '(s, iface) := r in
  n ← get;
  if negb (bool_decide (nc_interfaces n.1 = [])) && negb (bool_decide (iface ∈ nc_interfaces n.1)) then mret tt
  else
    cur ← lift (cells ← (interface_columns s).2; stats_of cells);
    let prev := default stats_zero (nc_prev_stats n.1 !! iface) in
    modify (fun s => (nc_with_prev (<[iface := cur]>) s.1, s.2));;
    on_metric (interface_fields cur prev iface);;
    (let speed := get_interface_speed os iface in
     if 0 <? speed then on_metric (add_field_i32 (str "speed") speed) else mret tt);;
    (let ip := get_interface_ip os iface in
     if bool_decide (ip = []) then mret tt else on_metric (add_tag (str "ip") ip)).

Fixpoint interface_lines (os : system) (lines : list (list byte)) : NET unit :=
  match lines with [] => mret tt | line :: lines => collect_interface_line os line;; interface_lines os lines end.
Definition collect_interface_stats (os : system) : NET unit :=
  match sys_file os (str "/proc/net/dev") with None => mret tt | Some lines => interface_lines os (drop 2 lines) end.

(** The line behind the header of a protocol; [None] without a header. *)
Fixpoint snmp_line (prefix : list byte) (lines : list (list byte)) : option (list byte) :=
  match lines with
  | [] => None
  | line :: lines => if startswith line prefix then Some (default [] (head lines)) else snmp_line prefix lines
  end.

Fixpoint extract_cells (n : nat) : ISS (list cellZ) :=
  match n with O => mret [] | S n => c ← extract_u64 None; rest ← extract_cells n; mret (c :: rest) end.

(** The fields of a line, each under its name. *)
Fixpoint named_fields (names : list (list byte)) (cells : list cellZ) : NET unit :=
  match names, cells with
  | name :: names, c :: cells => z ← lift (cell_value c); on_metric (add_field_u64 name z);; named_fields names cells
  | _, _ => mret tt
  end.
Definition snmp_cells (n : nat) (line : list byte) : outcome (list cellZ) :=
  ((_ ← extract_string []; extract_cells n) (iss_new line)).2.

Definition tcp_names : list (list byte) :=
  [str "active_opens"; str "passive_opens"; str "attempts"; str "established"; str "in_segments"; str "out_segments";
   str "retrans_segments"; str "in_errors"; str "out_resets"].
Definition collect_tcp_stats (os : system) : NET unit :=
  match sys_file os (str "/proc/net/snmp") with
  | None => mret tt
  | Some lines =>
      match snmp_line (str "Tcp:") lines with
      | None => mret tt
      | Some line =>
          cells ← lift (snmp_cells 9 line);
          on_metric (add_tag (str "protocol") (str "tcp"));; named_fields tcp_names cells
      end
  end.

Definition collect_udp_stats (os : system) : NET unit :=
  match sys_file os (str "/proc/net/snmp") with
  | None => mret tt
  | Some lines =>
      match snmp_line (str "Udp:") lines with
      | None => mret tt
      | Some line =>
          cells ← lift (snmp_cells 4 line);
          on_metric (add_tag (str "protocol") (str "udp"));;
          match cells with
          | [in_datagrams; no_ports; in_errors; out_datagrams] =>
              named_fields [str "in_datagrams"; str "out_datagrams"; str "no_ports"; str "in_errors"]
                [in_datagrams; out_datagrams; no_ports; in_errors]
          | _ => mret tt
          end
      end
  end.

Definition tcp_state_to_string (state : Z) : list byte :=
  if state =? 1 then str "ESTABLISHED" else if state =? 2 then str "SYN_SENT" else if state =? 3 then str "SYN_RECV"
  else if state =? 4 then str "FIN_WAIT1" else if state =? 5 then str "FIN_WAIT2" else if state =? 6 then str "TIME_WAIT"
  else if state =? 7 then str "CLOSE" else if state =? 8 then str "CLOSE_WAIT" else if state =? 9 then str "LAST_ACK"
  else if state =? 10 then str "LISTEN" else if state =? 11 then str "CLOSING" else str "UNKNOWN".

(** [inet_ntop]: the octets in the order of the address. *)
Definition dotted (octets : list byte) : list byte :=
  match octets with
  | [a; b; c; d] => to_string (Z_of_byte a) ++ x2e :: to_string (Z_of_byte b) ++ x2e :: to_string (Z_of_byte c) ++ x2e :: to_string (Z_of_byte d)
  | _ => []
  end.

Definition parse_hex_ip (hex_str : list byte) : outcome (list byte) :=
  if len hex_str <? 8 then Ok []
  else if bool_decide (x3a ∈ hex_str) then
    ip ← stoul16 (take 8 hex_str);
    Ok (dotted (le_bytes 4 (ntohl (u32 ip))))
  else if len hex_str =? 32 then Ok (take 16 hex_str)
  else Ok [].

(** The four words of a line that are looked at. *)
Definition connection_line (line : list byte) : outcome (list byte * list byte) :=
  ((_ ← extract_string []; _ ← extract_string []; remote ← extract_string []; state_str ← extract_string []; mret (remote, state_str) : ISS _) (iss_new line)).2.

Definition count_one (name : list byte) (m : gmap (list byte) Z) : gmap (list byte) Z := <[name := s32 (default 0 (m !! name) + 1)]> m.

Fixpoint process_connections (lines : list (list byte)) (state_count remote_count : gmap (list byte) Z) :
    outcome (gmap (list byte) Z * gmap (list byte) Z) :=
  match lines with
  | [] => Ok (state_count, remote_count)
  | line :: lines =>
      v ← connection_line line;
      state ← stoi16 v.2;
      let state_count := count_one (tcp_state_to_string state) state_count in
      if state =? 1 then
        remote_ip ← parse_hex_ip v.1;
        process_connections lines state_count (count_one remote_ip remote_count)
      else process_connections lines state_count remote_count
  end.

(** The files one after the other, each without its title. *)
Fixpoint connection_files (os : system) (files : list (list byte)) (state_count remote_count : gmap (list byte) Z) :
    outcome (gmap (list byte) Z * gmap (list byte) Z) :=
  match files with
  | [] => Ok (state_count, remote_count)
  | file :: files =>
      match sys_file os file with
      | None => connection_files os files state_count remote_count
      | Some lines =>
          r ← process_connections (drop 1 lines) state_count remote_count;
          connection_files os files r.1 r.2
      end
  end.

Fixpoint counted_fields (tag field : list byte) (l : list (list byte * Z)) (m : influx_metric) : influx_metric :=
  match l with
  | [] => m
  | (name, n) :: l => counted_fields tag field l (add_field_i32 field n (add_tag tag name m))
  end.

Definition collect_connection_stats (os : system) : NET unit :=
  r ← lift (connection_files os [str "/proc/net/tcp"; str "/proc/net/tcp6"; str "/proc/net/udp"; str "/proc/net/udp6"] ∅ ∅);
  on_metric (counted_fields (str "state") (str "connections") (order _ r.1));;
  on_metric (counted_fields (str "remote") (str "remote_connections") (take 10 (order _ r.2))).

Definition net_collect (os : system) : NET unit :=
  collect_interface_stats os;;
  n ← get; (if nc_monitor_tcp n.1 then collect_tcp_stats os else mret tt);;
  n ← get; (if nc_monitor_udp n.1 then collect_udp_stats os else mret tt);;
  n ← get; (if nc_monitor_connections n.1 then collect_connection_stats os else mret tt).

(** ** metric_collector.h *)

(** [collect_impl] of the class: what is left of the object and of the metric,
    also when it throws. *)
Definition collect_impl (os : system) (c : collector_class) (m : influx_metric) : collector_class * influx_metric * outcome unit :=
  let pure r := match r with Ok m => (c, m, Ok tt) | Throw e => (c, m, Throw e) | Fault f => (c, m, Fault f) end in
  match c with
  | cpu_collector t i =>
      match cpu_collect os t i m with Ok (c, m) => (c, m, Ok tt) | Throw e => (c, m, Throw e) | Fault f => (c, m, Fault f) end
  | mem_collector => pure (mem_collect os m)
  | disk_collector mount_points => (c, disk_collect os mount_points m, Ok tt)
  | proc_collector pid names => pure (proc_collect os pid names m)
  | net_collector_class n => let '(s, r) := net_collect os (n, m) in (net_collector_class s.1, s.2, r)
  end.

(** The clock gives milliseconds and nanoseconds of one moment. *)
Definition collect (os : system) (millseconds nanoseconds : Z) (c : metric_collector) (m : influx_metric) :
    metric_collector * influx_metric * outcome unit :=
  if millseconds <? s64 (mc_last_collect_time c + mc_interval c) then (c, m, Ok tt)
  else
    let m := set_timestamp nanoseconds m in
    let '(k, m, r) := collect_impl os (mc_class c) m in
    let last := match r with Ok _ => millseconds | _ => mc_last_collect_time c end in
    (mk_collector (mc_name c) (mc_interval c) last (mc_event_handlers c) k, m, r).

(** ** monitor.cpp *)

Inductive exporter_type := INFLUX | PROMETHEUS.

(** What an exporter hands to the log: the event of [influx_log]. *)
Record influx_point := mk_point {
  ip_measurement : list byte;
  ip_tags : gmap (list byte) (list byte);
  ip_fields : gmap (list byte) (list byte);
  ip_timestamp : Z;
}.

Record monitor_engine := mk_engine {
  me_timerid : Z;
  me_collectors : gmap (list byte) metric_collector;
  me_metrics : list influx_metric;
  me_exporter : option exporter_type;
  me_points : list influx_point;             (* what has been exported *)
}.
Definition me_with_collectors f e := mk_engine (me_timerid e) (f (me_collectors e)) (me_metrics e) (me_exporter e) (me_points e).
Definition me_with_metrics f e := mk_engine (me_timerid e) (me_collectors e) (f (me_metrics e)) (me_exporter e) (me_points e).
Definition me_with_exporter x e := mk_engine (me_timerid e) (me_collectors e) (me_metrics e) x (me_points e).
Definition me_with_timer t e := mk_engine t (me_collectors e) (me_metrics e) (me_exporter e) (me_points e).
Definition me_point p e := mk_engine (me_timerid e) (me_collectors e) (me_metrics e) (me_exporter e) (me_points e ++ [p]).
(** The instance is static: its pointer starts as null. *)
Definition engine_new : monitor_engine := mk_engine (-1) ∅ [] None [].

Abbreviation MON := (M monitor_engine).

Definition register_collector (c : metric_collector) : MON unit :=
  modify (me_with_collectors (fun m => match m !! mc_name c with None => <[mc_name c := c]> m | Some _ => m end)).
Definition unregister_collector (name : list byte) : MON unit := modify (me_with_collectors (delete name)).
Definition find_collector (name : list byte) : MON (option metric_collector) := e ← get; mret (me_collectors e !! name).
Definition add_metric (m : influx_metric) : MON unit := modify (me_with_metrics (fun l => l ++ [m])).
Definition monitor_clear : MON unit :=
  modify (me_with_collectors (fun _ => ∅));; modify (me_with_metrics (fun _ => []));; modify (me_with_exporter None).

(** [new] of a collector of [init], by its name. *)
Definition collector_named (os : system) (pid : Z) (name : list byte) : outcome (option metric_collector) :=
  if bool_decide (name = str "cpu") then Ok (Some (collector_new (str "cpu") 1000 (cpu_collector 0 0)))
  else if bool_decide (name = str "memory") then Ok (Some (collector_new (str "memory") 3000 mem_collector))
  else if bool_decide (name = str "disk") then
    mount_points ← init_mount_points (default [] (sys_file os (str "/proc/mounts"))) [];
    Ok (Some (collector_new (str "disk") 5000 (disk_collector mount_points)))
  else if bool_decide (name = str "process") then Ok (Some (collector_new (str "process") 2000 (proc_collector pid [])))
  else if bool_decide (name = str "network") then Ok (Some (collector_new (str "network") 2000 (net_collector_class (net_new os))))
  else Ok None.

Fixpoint register_named (os : system) (pid : Z) (names : list (list byte)) : MON unit :=
  match names with
  | [] => mret tt
  | name :: names =>
      c ← lift (collector_named os pid name);
      (match c with Some c => register_collector c | None => mret tt end);; register_named os pid names
  end.

(** [exporter] and [collectors] are the section monitor of the configuration. *)
Definition monitor_init (os : system) (pid : Z) (exporter collectors : list byte) : MON unit :=
  (if bool_decide (exporter = []) then fail (AssertFail "exporter_name.size()") else mret tt);;
  (if bool_decide (exporter = str "influx") then modify (me_with_exporter (Some INFLUX)) else mret tt);;
  e ← get;
  (match me_exporter e with None => fail (AssertFail "_exporter") | Some _ => mret tt end);;
  register_named os pid (split collectors (str ", ")).

(** [start] keeps the timer that [add_timer] made; [stop] gives it to
    [del_timer]. *)
Definition monitor_start (timerid : Z) : MON unit := modify (me_with_timer timerid).
Definition monitor_stop : MON (option Z) :=
  e ← get; if me_timerid e <? 0 then mret None else modify (me_with_timer (-1));; mret (Some (me_timerid e)).

(** The destructor. *)
Definition monitor_dtor : MON (option Z) := timer ← monitor_stop; monitor_clear;; mret timer.

(** [influx_metric::export_to] and [influx_exporter::write]: the event is filled
    with the metric, whose timestamp is read. *)
Definition export_metric (exporter : exporter_type) (m : influx_metric) : MON unit :=
  match exporter with
  | INFLUX => ts ← lift (cell_value (im_timestamp m)); modify (me_point (mk_point (im_name m) (im_tags m) (im_fields m) ts))
  | PROMETHEUS => mret tt                      (* no prometheus_metric *)
  end.

Fixpoint export_metrics (exporter : exporter_type) (l : list influx_metric) : MON unit :=
  match l with [] => mret tt | m :: l => export_metric exporter m;; export_metrics exporter l end.
Definition export_to (exporter : exporter_type) : MON unit :=
  e ← get; export_metrics exporter (me_metrics e);; modify (me_with_metrics (fun _ => [])).
Definition export_all : MON unit :=
  e ← get;
  match me_metrics e, me_exporter e with
  | [], _ => mret tt
  | l, Some x => export_metrics x l;; modify (me_with_metrics (fun _ => []))
  | _, None => fail (UB "null exporter")
  end.

Definition collect_one (os : system) (millseconds nanoseconds : Z) (name : list byte) : MON unit :=
  e ← get;
  match me_collectors e !! name, me_exporter e with
  | Some c, Some INFLUX =>
      let '(c, m, r) := collect os millseconds nanoseconds c (influx_new (mc_name c)) in
      modify (me_with_collectors (<[name := c]>));;
      lift r;;
      modify (me_with_metrics (fun l => l ++ [m]))
  | Some _, Some PROMETHEUS => mret tt
  | Some _, None => fail (UB "null exporter")
  | None, _ => mret tt
  end.
(** [clock name] is what the clock says when its collector is asked. *)
Fixpoint collect_names_in (os : system) (clock : list byte -> Z * Z) (names : list (list byte)) : MON unit :=
  match names with
  | [] => mret tt
  | name :: names => collect_one os (clock name).1 (clock name).2 name;; collect_names_in os clock names
  end.
Definition collect_all (os : system) (clock : list byte -> Z * Z) : MON unit :=
  e ← get; collect_names_in os clock (fst <$> order _ (me_collectors e)).

(** One tick of the timer. *)
Definition monitor_run (os : system) (clock : list byte -> Z * Z) : MON unit := collect_all os clock;; export_all.

(** ** A tick of the engine *)

Hypothesis order_perm : forall A (m : gmap (list byte) A), order A m ≡ₚ map_to_list m.

(** The collector is asked and answers. *)
Definition answers (os : system) (clock : list byte -> Z * Z) (name : list byte) (c : metric_collector) : Prop :=
  exists c' m, collect os (clock name).1 (clock name).2 c (influx_new (mc_name c)) = (c', m, Ok tt).
(** Its interval is over. *)
Definition due (clock : list byte -> Z * Z) (name : list byte) (c : metric_collector) : Prop :=
  s64 (mc_last_collect_time c + mc_interval c) <= (clock name).1.

(** The state between two ticks: nothing is waiting, every collector is under its
    name. *)
Record engine_ok (e : monitor_engine) : Prop := {
  eo_exporter : me_exporter e = Some INFLUX;
  eo_metrics : me_metrics e = [];
  eo_names : forall n c, me_collectors e !! n = Some c -> mc_name c = n;
}.

(** *** The name and the timestamp of a metric are not touched *)

Definition same_head (m m' : influx_metric) : Prop := im_name m' = im_name m /\ im_timestamp m' = im_timestamp m.
#[local] Instance same_head_preorder : PreOrder same_head.
Proof. split; [done|]. intros ??? [] []. split; congruence. Qed.

Lemma fold_left_head {A} (f : influx_metric -> A -> influx_metric) l m :
  (forall m a, same_head m (f m a)) -> same_head m (fold_left f l m).
Proof. intros Hf. revert m. induction l as [|a l IH]; intros m; cbn; [done|]. etrans; [apply Hf|apply IH]. Qed.

Lemma cpu_head os t i m k m' : cpu_collect os t i m = Ok (k, m') -> same_head m m'.
Proof.
  unfold cpu_collect. destruct (sys_file os _) as [[|line l]|]; [by intros [= <- <-]| |by intros [= <- <-]].
  intros H. apply outcome_bind_Ok in H as ([[[[[[u n] s] d] w] q] sq] & _ & H).
  repeat (apply outcome_bind_Ok in H as (? & _ & H)). by injection H as <- <-.
Qed.

Lemma mem_head os m m' : mem_collect os m = Ok m' -> same_head m m'.
Proof.
  unfold mem_collect. destruct (sys_info os) as [i|]; [|by intros [= <-]]. cbv zeta. unfold parse_proc_meminfo.
  destruct (sys_file os _) as [lines|]; [|by intros [= <-]].
  intros H. apply outcome_bind_Ok in H as (values & _ & [= <-]).
  split; reflexivity.
Qed.

Lemma disk_head os l m : same_head m (disk_collect os l m).
Proof. apply fold_left_head. intros m0 mount. unfold disk_mount. by destruct (sys_statvfs os _). Qed.

Lemma process_head os pid m m' : collect_process os pid m = Ok m' -> same_head m m'.
Proof.
  unfold collect_process. destruct (pid <=? 0); [by intros [= <-]|].
  intros H. apply outcome_bind_Ok in H as (stat & _ & H). destruct (ps_pid stat =? 0); [by injection H as <-|].
  destruct (sys_rusage os) as [u|]; [|by injection H as <-].
  repeat (apply outcome_bind_Ok in H as (? & _ & H)). by injection H as <-.
Qed.
Lemma processes_head os pids m m' : collect_processes os pids m = Ok m' -> same_head m m'.
Proof.
  revert m. induction pids as [|pid pids IH]; intros m; cbn [collect_processes]; [by intros [= <-]|].
  intros (m1 & H1%process_head & H2%IH)%outcome_bind_Ok. by etrans.
Qed.
Lemma proc_head os pid names m m' : proc_collect os pid names m = Ok m' -> same_head m m'.
Proof.
  unfold proc_collect. intros (m1 & H1%process_head & H2)%outcome_bind_Ok. etrans; [exact H1|]. clear H1.
  revert m1 H2. induction names as [|name names IH]; intros m1; cbn [collect_names]; [by intros [= <-]|].
  intros (pids & _ & (m2 & H2%processes_head & H3%IH)%outcome_bind_Ok)%outcome_bind_Ok. by etrans.
Qed.

(** The same of the network's monad, whatever the outcome. *)
Definition keeps_head {A} (c : NET A) : Prop := forall s, same_head s.2 (c s).1.2.
Lemma head_bind {A B} (c : NET A) (k : A -> NET B) : keeps_head c -> (forall a, keeps_head (k a)) -> keeps_head (c ≫= k).
Proof.
  intros Hc Hk s. unfold mbind, M_bind. specialize (Hc s). destruct (c s) as [s' [a| |]]; [|done|done]. etrans; [exact Hc|apply Hk].
Qed.
Lemma head_lift {A} (o : outcome A) : keeps_head (lift o).
Proof. done. Qed.
Lemma head_metric f : (forall m, same_head m (f m)) -> keeps_head (on_metric f).
Proof. intros Hf s. apply Hf. Qed.
Lemma head_case {A} (b : bool) (c d : NET A) : keeps_head c -> keeps_head d -> keeps_head (if b then c else d).
Proof. by destruct b. Qed.
Lemma head_get : keeps_head get.
Proof. done. Qed.

Lemma counted_head tag field l m : same_head m (counted_fields tag field l m).
Proof. revert m. induction l as [|[name n] l IH]; intros m; cbn [counted_fields]; [done|]. etrans; [|apply IH]. done. Qed.
Lemma named_head names cells : keeps_head (named_fields names cells).
Proof.
  revert cells. induction names as [|name names IH]; intros cells; cbn [named_fields]; [done|].
  destruct cells as [|c cells]; [done|]. apply head_bind; [done|]. intros z. apply head_bind; [done|]. intros _. apply IH.
Qed.

Ltac keeps := repeat first [done | apply head_case | apply head_bind; [|intros ?] | apply named_head
  | apply head_metric; intros ?; apply counted_head | apply head_metric; done].

Lemma interface_line_head os line : keeps_head (collect_interface_line os line).
Proof. unfold collect_interface_line. apply head_bind; [done|]. intros [s iface]. keeps. Qed.
Lemma net_head os : keeps_head (net_collect os).
Proof.
  unfold net_collect. apply head_bind.
  { unfold collect_interface_stats. destruct (sys_file os _) as [lines|]; [|done]. generalize (drop 2 lines). intros l.
    induction l as [|line l IH]; [done|]. apply head_bind; [apply interface_line_head|done]. }
  intros _. keeps.
  - unfold collect_tcp_stats. destruct (sys_file os _) as [lines|]; [|done]. destruct (snmp_line _ lines); keeps.
  - unfold collect_udp_stats. destruct (sys_file os _) as [lines|]; [|done]. destruct (snmp_line _ lines); [|done].
    apply head_bind; [done|]. intros cells. apply head_bind; [done|]. intros _. repeat case_match; keeps.
Qed.

Lemma collect_impl_head os k m k' m' : collect_impl os k m = (k', m', Ok tt) -> same_head m m'.
Proof.
  destruct k as [t i| |l|pid names|n]; cbn [collect_impl].
  - destruct (cpu_collect os t i m) as [[k1 m1]|?|?] eqn:E; [|done..]. intros [= <- <-]. by eapply cpu_head.
  - destruct (mem_collect os m) as [m1|?|?] eqn:E; [|done..]. intros [= <- <-]. by eapply mem_head.
  - intros [= <- <-]. apply disk_head.
  - destruct (proc_collect os pid names m) as [m1|?|?] eqn:E; [|done..]. intros [= <- <-]. by eapply proc_head.
  - pose proof (net_head os (n, m)) as H. destruct (net_collect os (n, m)) as [[n1 m1] r]. intros [= <- <- ->]. exact H.
Qed.

(** The metric a collector leaves, and whether its timestamp was written. *)
Lemma collect_timestamp os ms ns c c' m :
  collect os ms ns c (influx_new (mc_name c)) = (c', m, Ok tt) ->
  mc_name c' = mc_name c /\ mc_interval c' = mc_interval c /\ im_name m = mc_name c /\
  im_timestamp m = (if ms <? s64 (mc_last_collect_time c + mc_interval c) then None else Some ns) /\
  mc_last_collect_time c' = (if ms <? s64 (mc_last_collect_time c + mc_interval c) then mc_last_collect_time c else ms).
Proof.
  unfold collect. destruct (ms <? s64 (mc_last_collect_time c + mc_interval c)); [by intros [= <- <-]|].
  destruct (collect_impl os (mc_class c) _) as [[k m'] r] eqn:E. intros [= <- <- ->]. apply collect_impl_head in E as [En Et].
  done.
Qed.

(** What a collector is after it was asked, and the metric it leaves. *)
Definition is_due (clock : list byte -> Z * Z) (name : list byte) (c : metric_collector) : bool :=
  negb ((clock name).1 <? s64 (mc_last_collect_time c + mc_interval c)).
Definition asked (clock : list byte -> Z * Z) (name : list byte) (c c' : metric_collector) : Prop :=
  mc_name c' = name /\ mc_interval c' = mc_interval c /\
  mc_last_collect_time c' = (if is_due clock name c then (clock name).1 else mc_last_collect_time c).
Definition left_behind (e : monitor_engine) (clock : list byte -> Z * Z) (name : list byte) (m : influx_metric) : Prop :=
  exists c, me_collectors e !! name = Some c /\ im_name m = name /\
    im_timestamp m = (if is_due clock name c then Some (clock name).2 else None).

Lemma collect_one_ok os clock name c e :
  me_exporter e = Some INFLUX -> me_collectors e !! name = Some c -> mc_name c = name -> answers os clock name c ->
  exists c' m, asked clock name c c' /\ left_behind e clock name m /\
    collect_one os (clock name).1 (clock name).2 name e =
      (me_with_metrics (fun l => l ++ [m]) (me_with_collectors (<[name := c']>) e), Ok tt).
Proof.
  intros Hx Hc Hn (c' & m & E). exists c', m. destruct (collect_timestamp _ _ _ _ _ _ E) as (H1 & H2 & H3 & H4 & H5).
  unfold asked, left_behind, is_due. rewrite H1, H2, H5. split; [by destruct (_ <? _)|]. split.
  { exists c. rewrite H3, H4. by destruct (_ <? _). }
  unfold collect_one. rewrite M_get, Hc, Hx, E. done.
Qed.

Lemma collect_names_ok os clock l e :
  NoDup l -> me_exporter e = Some INFLUX ->
  (forall n, n ∈ l -> exists c, me_collectors e !! n = Some c /\ mc_name c = n /\ answers os clock n c) ->
  exists e' ms, collect_names_in os clock l e = (e', Ok tt) /\ me_exporter e' = Some INFLUX /\ me_points e' = me_points e /\
    me_metrics e' = me_metrics e ++ ms /\ Forall2 (left_behind e clock) l ms /\
    (forall n, n ∉ l -> me_collectors e' !! n = me_collectors e !! n) /\
    (forall n c, n ∈ l -> me_collectors e !! n = Some c -> exists c', me_collectors e' !! n = Some c' /\ asked clock n c c').
Proof.
  revert e. induction l as [|name l IH]; intros e Hnd Hx Hall; cbn [collect_names_in].
  { exists e, []. rewrite app_nil_r. do 4 (split; [done|]). split; [constructor|]. split; [done|]. intros n c H. by apply elem_of_nil in H. }
  apply NoDup_cons in Hnd as [Hnl Hnd]. destruct (Hall name) as (c & Hc & Hn & Ha); [by left|].
  destruct (collect_one_ok os clock name c e Hx Hc Hn Ha) as (c' & m & Hask & Hleft & E). rewrite (M_bind_ok _ _ _ _ _ E).
  set (e1 := me_with_metrics _ _).
  assert (forall n, n <> name -> me_collectors e1 !! n = me_collectors e !! n) as Hother by (intros n H; cbn; by rewrite lookup_insert_ne).
  destruct (IH e1 Hnd Hx) as (e' & ms & E' & Hx' & Hp & Hm & Hleft' & Hout & Hin).
  { intros n Hnin. destruct (Hall n) as (cn & Hcn & ?); [by right|]. exists cn. rewrite Hother by congruence. done. }
  exists e', (m :: ms). split; [done|]. split; [done|]. split; [done|]. split; [rewrite Hm; cbn; by rewrite <- app_assoc|].
  split; [|split].
  - constructor; [done|]. apply Forall2_same_length_lookup_2; [by eapply Forall2_length|].
    intros i n mn Hi Hmn. destruct (Forall2_lookup_lr _ _ _ _ _ _ Hleft' Hi Hmn) as (cn & Hcn & ?).
    apply list_elem_of_lookup_2 in Hi. exists cn. rewrite <- Hother; [done|congruence].
  - intros n Hn2. rewrite Hout by set_solver. apply Hother. set_solver.
  - intros n cn [->|Hnin]%elem_of_cons Hcn.
    + exists c'. rewrite Hout by done. split; [cbn; apply lookup_insert_eq|]. by replace cn with c by congruence.
    + apply Hin; [done|]. rewrite Hother; [done|congruence].
Qed.

(** Exporting needs every timestamp. *)
Definition point_of (m : influx_metric) (ts : Z) : influx_point := mk_point (im_name m) (im_tags m) (im_fields m) ts.

Lemma export_metrics_ok l e tss :
  Forall2 (fun m ts => im_timestamp m = Some ts) l tss ->
  exists e', export_metrics INFLUX l e = (e', Ok tt) /\ me_points e' = me_points e ++ zip_with point_of l tss /\
    me_collectors e' = me_collectors e /\ me_exporter e' = me_exporter e /\ me_metrics e' = me_metrics e.
Proof.
  intros H. revert e. induction H as [|m ts l tss Hts _ IH]; intros e; cbn [export_metrics].
  { exists e. by rewrite app_nil_r. }
  assert (export_metric INFLUX m e = (me_point (point_of m ts) e, Ok tt)) as E by (unfold export_metric; by rewrite Hts).
  rewrite (M_bind_ok _ _ _ _ _ E). destruct (IH (me_point (point_of m ts) e)) as (e' & E' & Hp & Hrest).
  exists e'. split; [done|]. split; [|done]. rewrite Hp. cbn. by rewrite <- app_assoc.
Qed.

Lemma export_metrics_fault l e :
  Exists (fun m => im_timestamp m = None) l -> exists e', export_metrics INFLUX l e = (e', Fault (UB "indeterminate value")).
Proof.
  intros H. revert e. induction l as [|m l IH]; intros e; [by apply Exists_nil in H|]. cbn [export_metrics].
  unfold mbind at 1, M_bind at 1, export_metric. destruct (im_timestamp m) as [ts|] eqn:E; [|by eexists].
  apply Exists_cons in H as [H|H]; [congruence|]. apply (IH H).
Qed.

Lemma names_nodup e : NoDup (fst <$> order _ (me_collectors e)).
Proof. rewrite order_perm. apply NoDup_fst_map_to_list. Qed.
Lemma names_in e n : n ∈ (fst <$> order _ (me_collectors e)) -> exists c, me_collectors e !! n = Some c.
Proof.
  intros ([n' c] & -> & H)%list_elem_of_fmap. rewrite order_perm, elem_of_map_to_list in H. by exists c.
Qed.
Lemma in_names e n c : me_collectors e !! n = Some c -> n ∈ (fst <$> order _ (me_collectors e)).
Proof. intros H. apply list_elem_of_fmap. exists (n, c). by rewrite order_perm, elem_of_map_to_list. Qed.

(** Every collector is asked once, in the order of the table. *)
Lemma collect_all_ok os clock e :
  engine_ok e -> (forall n c, me_collectors e !! n = Some c -> answers os clock n c) ->
  exists e', collect_all os clock e = (e', Ok tt) /\ me_exporter e' = Some INFLUX /\ me_points e' = me_points e /\
    Forall2 (left_behind e clock) (fst <$> order _ (me_collectors e)) (me_metrics e') /\
    (forall n, me_collectors e !! n = None -> me_collectors e' !! n = None) /\
    (forall n c, me_collectors e !! n = Some c -> exists c', me_collectors e' !! n = Some c' /\ asked clock n c c').
Proof.
  intros [Hx Hm Hn] Ha. unfold collect_all. rewrite M_get.
  destruct (collect_names_ok os clock _ e (names_nodup e) Hx) as (e' & ms & E & Hx' & Hp & Hms & Hleft & Hout & Hin).
  { intros n [c Hc]%names_in. exists c. auto. }
  exists e'. split; [done|]. split; [done|]. split; [done|]. rewrite Hm in Hms. cbn in Hms. rewrite Hms. split; [done|]. split.
  - intros n Hnone. rewrite Hout; [done|]. intros [c Hc]%names_in. congruence.
  - intros n c Hc. apply Hin; [by eapply in_names|done].
Qed.

Lemma tick_all_due os clock e :
  engine_ok e -> (forall n c, me_collectors e !! n = Some c -> answers os clock n c) ->
  (forall n c, me_collectors e !! n = Some c -> is_due clock n c) ->
  exists e' ps, monitor_run os clock e = (e', Ok tt) /\ engine_ok e' /\ me_points e' = me_points e ++ ps /\
    Forall2 (fun n p => ip_measurement p = n /\ ip_timestamp p = (clock n).2) (fst <$> order _ (me_collectors e)) ps /\
    (forall n c, me_collectors e !! n = Some c -> exists c', me_collectors e' !! n = Some c' /\ mc_last_collect_time c' = (clock n).1).
Proof.
  intros He Ha Hdue. destruct (collect_all_ok os clock e He Ha) as (e1 & E & Hx & Hp & Hleft & Hnone & Hasked).
  unfold monitor_run. rewrite (M_bind_ok _ _ _ _ _ E). clear E.
  assert (Forall2 (fun m n => im_timestamp m = Some (clock n).2) (me_metrics e1) (fst <$> order _ (me_collectors e))) as Hts.
  { apply Forall2_flip. eapply Forall2_impl; [exact Hleft|]. intros n m (c & Hc & _ & ->). by rewrite (Is_true_true_1 _ (Hdue n c Hc)). }
  assert (Forall2 (fun m ts => im_timestamp m = Some ts) (me_metrics e1) ((fun n => (clock n).2) <$> (fst <$> order _ (me_collectors e)))) as Hts'
    by by apply Forall2_fmap_r.
  destruct (export_metrics_ok _ e1 _ Hts') as (e2 & E2 & Hp2 & Hc2 & Hx2 & Hm2).
  set (ps := zip_with point_of _ _) in Hp2.
  exists (me_with_metrics (fun _ => []) e2), ps.
  assert (monitor_run_rest : export_all e1 = (me_with_metrics (fun _ => []) e2, Ok tt)).
  { unfold export_all. rewrite M_get, Hx. destruct (me_metrics e1) as [|m l] eqn:El.
    - cbn in E2. injection E2 as <-. destruct e1; cbn in *; by subst.
    - by rewrite (M_bind_ok _ _ _ _ _ E2). }
  split; [done|]. split; [|split; [|split]].
  - split; cbn; [congruence|done|]. rewrite Hc2. intros n c' Hc'. destruct (me_collectors e !! n) as [c|] eqn:Ec.
    + destruct (Hasked n c Ec) as (c2 & Hc2' & Hnm & _). congruence.
    + rewrite (Hnone n Ec) in Hc'. done.
  - cbn. rewrite Hp2, Hp. done.
  - subst ps. clear -Hleft Hts'. revert Hts'. induction Hleft as [|n m l ms (c & Hc & Hn & Ht) _ IH]; intros Hts'; cbn; [constructor|].
    rewrite fmap_cons in Hts'. apply Forall2_cons in Hts' as [H1 H2]. constructor; [done|by apply IH].
  - intros n c Hc. cbn. rewrite Hc2. destruct (Hasked n c Hc) as (c' & Hc' & _ & _ & Hl). exists c'. split; [done|].
    by rewrite (Is_true_true_1 _ (Hdue n c Hc)) in Hl.
Qed.

Lemma tick_not_due os clock e n c :
  engine_ok e -> (forall n c, me_collectors e !! n = Some c -> answers os clock n c) ->
  me_collectors e !! n = Some c -> is_due clock n c = false ->
  exists e', monitor_run os clock e = (e', Fault (UB "indeterminate value")).
Proof.
  intros He Ha Hc Hd. destruct (collect_all_ok os clock e He Ha) as (e1 & E & Hx & Hp & Hleft & _ & _).
  unfold monitor_run. rewrite (M_bind_ok _ _ _ _ _ E). unfold export_all. rewrite M_get, Hx.
  assert (Exists (fun m => im_timestamp m = None) (me_metrics e1)) as Hex.
  { apply in_names in Hc as Hin. apply list_elem_of_lookup in Hin as [i Hi].
    destruct (Forall2_lookup_l _ _ _ _ _ Hleft Hi) as (m & Hm & c' & Hc' & _ & Ht). apply Exists_exists. exists m.
    split; [by eapply list_elem_of_lookup_2|]. replace c' with c in Ht by congruence. by rewrite Hd in Ht. }
  destruct (export_metrics_fault _ e1 Hex) as [e2 E2]. destruct (me_metrics e1) as [|m l]; [by apply Exists_nil in Hex|].
  exists e2. by apply M_bind_fault.
Qed.

(** ** What the network collector reads *)

(** The octets of an address as the kernel prints them in /proc/net/tcp: the
    number they are in memory, in eight hexadecimal digits. *)
Definition hex_octets (octets : list byte) : list byte :=
  rev octets ≫= fun b => [hex_at (Z.shiftr (Z_of_byte b) 4); hex_at (Z.land (Z_of_byte b) 15)].

Lemma hex_digit_step c s z h : hex_value c = h -> 0 <= h -> hex_number (c :: s) z = hex_number s (16 * z + h).
Proof. intros <- H. cbn [hex_number]. unfold is_xdigit. by rewrite (proj2 (Z.leb_le _ _)). Qed.

Lemma hex_pair b s z :
  hex_number (hex_at (Z.shiftr (Z_of_byte b) 4) :: hex_at (Z.land (Z_of_byte b) 15) :: s) z = hex_number s (256 * z + Z_of_byte b).
Proof.
  assert (exists h l, hex_value (hex_at (Z.shiftr (Z_of_byte b) 4)) = h /\ hex_value (hex_at (Z.land (Z_of_byte b) 15)) = l /\
    0 <= h /\ 0 <= l /\ Z_of_byte b = 16 * h + l) as (h & l & Hh & Hl & Hh0 & Hl0 & Eb).
  { eexists _, _. split; [reflexivity|]. split; [reflexivity|]. destruct b; vm_compute; repeat split; discriminate. }
  rewrite (hex_digit_step _ _ _ h Hh Hh0), (hex_digit_step _ _ _ l Hl Hl0). f_equal. lia.
Qed.

Lemma signed_hex_pair b s :
  signed_hex (hex_at (Z.shiftr (Z_of_byte b) 4) :: hex_at (Z.land (Z_of_byte b) 15) :: s) = (false, hex_number s (Z_of_byte b), true).
Proof.
  assert (hex_number s (Z_of_byte b) = hex_number (hex_at (Z.shiftr (Z_of_byte b) 4) :: hex_at (Z.land (Z_of_byte b) 15) :: s) 0) as ->
    by (rewrite hex_pair; f_equal; lia).
  destruct b; reflexivity.
Qed.

(** The octets of a remote address come out in the wrong order. *)
Lemma parse_hex_ip_reversed a b c d port :
  parse_hex_ip (hex_octets [a; b; c; d] ++ x3a :: port) = Ok (dotted [d; c; b; a]).
Proof.
  unfold parse_hex_ip. rewrite (proj2 (Z.ltb_ge _ _)) by (rewrite len_app, len_cons; pose proof (len_nonneg port); change (len (hex_octets [a; b; c; d])) with 8; lia).
  rewrite bool_decide_true by (apply elem_of_app; right; by left).
  rewrite take_app_le by done. change (take 8 (hex_octets [a; b; c; d])) with (hex_octets [a; b; c; d]).
  unfold hex_octets. cbn [rev app]. unfold mbind, list_bind. cbn [app]. unfold stoul16.
  rewrite signed_hex_pair, !hex_pair. cbn [hex_number negb].
  replace (256 * (256 * (256 * Z_of_byte d + Z_of_byte c) + Z_of_byte b) + Z_of_byte a) with (of_le [a; b; c; d]) by (cbn; lia).
  pose proof (of_le_range [a; b; c; d]) as Hr. change (256 ^ len [a; b; c; d]) with (2 ^ 32) in Hr.
  rewrite (Z.geb_leb), (proj2 (Z.leb_gt _ _)) by word_lia. rewrite (wrapU_small 64) by word_lia.
  cbn [outcome_bind]. rewrite (wrapU_small 32) by word_lia. f_equal. f_equal. apply (htonl_mem [a; b; c; d] eq_refl).
Qed.

(** *** The columns of /proc/net/dev *)

Lemma scan_int_digit d s : is_digit d = true -> scan_int (d :: s) = let '(ds, r) := span is_digit (d :: s) in (false, ds, r).
Proof. intros H. destruct d; try discriminate H; reflexivity. Qed.

Lemma extract_u64_number k z c r :
  0 <= z < 2 ^ 64 -> is_digit c = false ->
  forall old, extract_u64 old (mk_iss (replicate k x20 ++ to_string z ++ c :: r) true) = (mk_iss (c :: r) true, Ok (Some z)).
Proof.
  intros Hz Hc old. unfold to_string. rewrite (proj2 (Z.ltb_ge z 0)) by lia.
  destruct (digits_head 19 z [] ltac:(lia)) as (d & l & E & Hd).
  pose proof (number_digits 20 z [] ltac:(word_lia)) as Hn.
  pose proof (digits_are_digits 20 z [] ltac:(lia) ltac:(constructor)) as Hall. rewrite E in *.
  assert (drop_spaces (replicate k x20 ++ (d :: l) ++ c :: r) = (d :: l) ++ c :: r) as Hsp.
  { induction k as [|k IH]; [|exact IH]. cbn. destruct d; try discriminate Hd; reflexivity. }
  unfold extract_u64, sentry. cbn [iss_good iss_rest]. unfold mbind at 1, M_bind at 1. cbn [iss_good iss_rest]. rewrite Hsp. cbn [app].
  rewrite M_get. cbn [iss_rest].
  assert (scan_int (d :: l ++ c :: r) = (false, d :: l, c :: r)) as ->.
  { rewrite scan_int_digit by done. change (d :: l ++ c :: r) with ((d :: l) ++ c :: r). by rewrite (span_app _ _ _ _ Hall Hc). }
  rewrite Hn. cbn [number]. rewrite bool_decide_false by done. cbn [negb andb].
  rewrite (proj2 (Z.ltb_lt z (2 ^ 64))) by lia. rewrite wrapU_small by done. done.
Qed.

(** A line's counters as the kernel prints them, each with blanks before it. *)
Fixpoint print_columns (l : list (nat * Z)) (r : list byte) : list byte :=
  match l with [] => r | (k, z) :: l => x20 :: replicate k x20 ++ to_string z ++ print_columns l r end.

(** The eighth column, the multicast counter, is what is taken as dropped. *)
Lemma interface_columns_read k1 k2 k3 k4 k5 k6 k7 k8 k9 k10 k11 k12 k13 z1 z2 z3 z4 z5 z6 z7 z8 z9 z10 z11 z12 z13 r :
  Forall (fun z => 0 <= z < 2 ^ 64) [z1; z2; z3; z4; z5; z6; z7; z8; z9; z10; z11; z12] ->
  (interface_columns (mk_iss (print_columns [(k1, z1); (k2, z2); (k3, z3); (k4, z4); (k5, z5); (k6, z6); (k7, z7); (k8, z8);
     (k9, z9); (k10, z10); (k11, z11); (k12, z12); (k13, z13)] r) true)).2
  = Ok [Some z1; Some z2; Some z3; Some z8; Some z9; Some z10; Some z11; Some z12].
Proof.
  intros H. unfold interface_columns. cbn [print_columns].
  repeat (apply Forall_cons in H as [? H]).
  do 12 (match goal with |- context [mk_iss (x20 :: replicate ?k x20 ++ to_string ?z ++ x20 :: ?r) true] =>
    change (x20 :: replicate k x20 ++ to_string z ++ x20 :: r) with (replicate (S k) x20 ++ to_string z ++ x20 :: r);
    erewrite M_bind_ok by (apply extract_u64_number; [done|reflexivity]) end).
  done.
Qed.

(** The physical memory is written and then overwritten: what is exported under
    "total" is the swap space. *)
Lemma mem_total_is_swap os i m m' :
  sys_info os = Some i -> mem_collect os m = Ok m' ->
  im_fields m' !! str "total" = Some (to_string (u64 (si_totalswap i * si_mem_unit i)) ++ [x75]).
Proof.
  intros Hi. unfold mem_collect. rewrite Hi. cbv zeta. unfold parse_proc_meminfo.
  assert (forall name m, name <> str "total" -> forall v, im_fields (add_field_u64 name v m) !! str "total" = im_fields m !! str "total") as Hother.
  { intros name m0 Hn v. cbn. by rewrite lookup_insert_ne. }
  assert (forall total free usage m, im_fields (mem_fields (str "swap") total free usage m) !! str "total" = Some (to_string total ++ [x75])) as Htotal.
  { intros. cbn. rewrite !lookup_insert_ne by done. by rewrite lookup_insert_eq. }
  destruct (sys_file os _) as [lines|]; [|intros [= <-]; apply Htotal].
  intros (values & _ & H)%outcome_bind_Ok. injection H as <-.
  rewrite !Hother by done. apply Htotal.
Qed.

End Monitor.

(** A tick of the monitor either exports one point per collector, in the
    order of the table, with its name and the time it was asked, leaves nothing
    behind and moves the collectors' clocks; or, when the interval of some
    collector is not over, its metric is exported all the same, with a timestamp
    nothing has written, which is undefined. *)
Theorem monitor_tick (nan_text : list byte) (order : forall A : Type, gmap (list byte) A -> list (list byte * A))
    (os : system) (clock : list byte -> Z * Z) (e : monitor_engine) :
  (forall A (m : gmap (list byte) A), order A m ≡ₚ map_to_list m) ->
  engine_ok e -> (forall n c, me_collectors e !! n = Some c -> answers nan_text order os clock n c) ->
  ((forall n c, me_collectors e !! n = Some c -> is_due clock n c) ->
   exists e' ps, monitor_run nan_text order os clock e = (e', Ok tt) /\ engine_ok e' /\ me_points e' = me_points e ++ ps /\
     Forall2 (fun n p => ip_measurement p = n /\ ip_timestamp p = (clock n).2) (fst <$> order _ (me_collectors e)) ps /\
     (forall n c, me_collectors e !! n = Some c ->
        exists c', me_collectors e' !! n = Some c' /\ mc_last_collect_time c' = (clock n).1)) /\
  (forall n c, me_collectors e !! n = Some c -> is_due clock n c = false ->
   exists e', monitor_run nan_text order os clock e = (e', Fault (UB "indeterminate value"))).
Proof.
  intros Hord He Ha. split.
  - intros Hdue. by apply tick_all_due.
  - intros n c Hc Hd. by eapply tick_not_due.
Qed.

Lemma answers_by nan_text order os clock n c :
  (collect nan_text order os (clock n).1 (clock n).2 c (influx_new (mc_name c))).2 = Ok tt -> answers nan_text order os clock n c.
Proof. unfold answers. destruct (collect _ _ _ _ _ _ _) as [[c' m] r]. cbn. intros ->. by exists c', m. Qed.

(** Two ticks a second apart, of the collectors of memory and disks: the first
    exports both, at the second they are not due. *)
Definition demo_system : system :=
  mk_system (fun _ => None) None (fun _ => None) (Some (mk_sysinfo 1000 250 0 0 4096)) (fun _ => None) None 4096 (fun _ => None) [].
Definition demo_order (A : Type) (m : gmap (list byte) A) : list (list byte * A) := map_to_list m.
Definition demo_engine : monitor_engine := (monitor_init demo_system 1 (str "influx") (str "memory, disk") engine_new).1.

Lemma monitor_tick_witness :
  let run ms := monitor_run [] demo_order demo_system (fun _ => (ms, ms * 1000000)) in
  exists e1 e2, run 6000 demo_engine = (e1, Ok tt) /\
    (fun p => (ip_measurement p, ip_timestamp p)) <$> me_points e1 = [(str "memory", 6000000000); (str "disk", 6000000000)] /\
    run 7000 e1 = (e2, Fault (UB "indeterminate value")).
Proof.
  intros run. set (clock ms := fun _ : list byte => (ms, ms * 1000000)).
  assert (engine_ok demo_engine) as He.
  { split; [reflexivity|reflexivity|]. intros n c H. apply elem_of_map_to_list in H. vm_compute in H.
    repeat (apply elem_of_cons in H as [[= -> ->]|H]; [reflexivity|]). exfalso. by apply elem_of_nil in H. }
  assert (forall n c, me_collectors demo_engine !! n = Some c ->
    answers [] demo_order demo_system (clock 6000) n c /\ is_due (clock 6000) n c) as Ha.
  { intros n c H. apply elem_of_map_to_list in H. vm_compute in H.
    repeat (apply elem_of_cons in H as [[= -> ->]|H]; [split; [apply answers_by; vm_compute; reflexivity|vm_compute; exact I]|]).
    exfalso. by apply elem_of_nil in H. }
  destruct (proj1 (monitor_tick [] demo_order demo_system (clock 6000) demo_engine (fun _ _ => Permutation_refl _) He (fun n c H => proj1 (Ha n c H)))
    (fun n c H => proj2 (Ha n c H))) as (e1 & ps & E & He1 & _).
  assert (e1 = (run 6000 demo_engine).1) as E1 by (exact (f_equal fst (eq_sym E))).
  assert (exists c, me_collectors e1 !! str "memory" = Some c /\ is_due (clock 7000) (str "memory") c = false) as (c & Hc & Hd).
  { rewrite E1. clear. exists (mk_collector (str "memory") 3000 6000 ∅ mem_collector). split; vm_compute; reflexivity. }
  assert (forall n c, me_collectors e1 !! n = Some c -> answers [] demo_order demo_system (clock 7000) n c) as Ha1.
  { intros n c' H. rewrite E1 in H. apply elem_of_map_to_list in H. vm_compute in H.
    repeat (apply elem_of_cons in H as [[= -> ->]|H]; [apply answers_by; vm_compute; reflexivity|]). exfalso. by apply elem_of_nil in H. }
  destruct (proj2 (monitor_tick [] demo_order demo_system (clock 7000) e1 (fun _ _ => Permutation_refl _) He1 Ha1) (str "memory") c Hc Hd) as (e2 & E2).
  exists e1, e2. split; [exact E|]. split; [|exact E2]. rewrite E1. vm_compute. reflexivity.
Defined.
