(* ===== verification/Uri.v ===== *)
(** Uniform resource identifiers (http/uri.h, http/uri.cpp): the parser and the
    printer. *)

From S2P Require Import Prelude Marshal Text.

Record uri := mk_uri {
  uri_schema : list byte;
  uri_user : list byte;
  uri_password : list byte;
  uri_host : list byte;
  uri_port : Z;
  uri_path : list byte;
  uri_query : list byte;
  uri_fragment : list byte;
}.
#[export] Instance uri_eq_dec : EqDecision uri.
Proof. solve_decision. Defined.

Definition uri_clear : uri := mk_uri [] [] [] [] 0 [] [] [].

Definition uri_with_user u p (x : uri) := mk_uri (uri_schema x) u p (uri_host x) (uri_port x)
  (uri_path x) (uri_query x) (uri_fragment x).
Definition uri_with_hostport h p (x : uri) := mk_uri (uri_schema x) (uri_user x) (uri_password x) h p
  (uri_path x) (uri_query x) (uri_fragment x).
Definition uri_with_schema s (x : uri) := mk_uri s (uri_user x) (uri_password x) (uri_host x)
  (uri_port x) (uri_path x) (uri_query x) (uri_fragment x).
Definition uri_with_tail p q f (x : uri) := mk_uri (uri_schema x) (uri_user x) (uri_password x)
  (uri_host x) (uri_port x) p q f.

(** ** The parser *)

(** [s.substr(pos + 1)]. *)
Definition substr_after (s : list byte) (pos : Z) : outcome (list byte) :=
  substr s (u64 (pos + 1)) npos.

Definition parse_userinfo (userinfo : list byte) (x : uri) : outcome uri :=
  let colon_pos := find_char ":" userinfo 0 in
  if colon_pos =? npos then Ok (uri_with_user userinfo (uri_password x) x)
  else
    user ← substr userinfo 0 colon_pos;
    password ← substr_after userinfo colon_pos;
    Ok (uri_with_user user password x).

Definition parse_hostport (hostport : list byte) (x : uri) : outcome uri :=
  match hostport with
  | [] => Ok x
  | "["%byte :: _ =>
      let closing_bracket := find_char "]" hostport 1 in
      if closing_bracket =? npos then Ok x
      else
        host ← substr hostport 1 (u64 (closing_bracket - 1));
        let colon_pos := find_char ":" hostport closing_bracket in
        if colon_pos =? npos then Ok (uri_with_hostport host (uri_port x) x)
        else
          p ← substr_after hostport colon_pos;
          port ← atoi p;
          Ok (uri_with_hostport host port x)
  | _ =>
      let colon_pos := find_char ":" hostport 0 in
      if colon_pos =? npos then Ok (uri_with_hostport hostport (uri_port x) x)
      else
        host ← substr hostport 0 colon_pos;
        p ← substr_after hostport colon_pos;
        port ← atoi p;
        Ok (uri_with_hostport host port x)
  end.

Definition parse_authority (authority : list byte) (x : uri) : outcome uri :=
  let user_pos := find_char "@" authority 0 in
  if user_pos =? npos then parse_hostport authority x
  else
    u ← substr authority 0 user_pos;
    x ← parse_userinfo u x;
    h ← substr_after authority user_pos;
    parse_hostport h x.

(** Cutting [s] at the first [c]: what is before and what is behind it. *)
Definition cut_at (c : byte) (s : list byte) : outcome (list byte * list byte) :=
  let pos := find_char c s 0 in
  if pos =? npos then Ok (s, [])
  else
    b ← substr_after s pos;
    a ← substr s 0 pos;
    Ok (a, b).

(** First the fragment, then the query. *)
Definition parse_tail (s : list byte) (x : uri) : outcome uri :=
  f ← cut_at "#" s;
  q ← cut_at "?" f.1;
  Ok (uri_with_tail q.1 q.2 f.2 x).

Definition uri_parse (uri_str : list byte) : outcome uri :=
  let pos := find_char ":" uri_str 0 in
  if negb (pos =? npos) then
    schema ← substr uri_str 0 pos;
    rest ← substr_after uri_str pos;
    let x := uri_with_schema schema uri_clear in
    if (2 <=? len rest) && bool_decide (slice rest 0 2 = str "//") then
      let authority_start := 2 in
      let authority_end := find_from (is_in (str "/?#")) rest authority_start in
      authority ← substr rest authority_start (u64 (authority_end - authority_start));
      x ← parse_authority authority x;
      let path_start := if authority_end =? npos then len rest else authority_end in
      remaining ← substr rest path_start npos;
      parse_tail remaining x
    else Ok (uri_with_tail rest [] [] x)
  else parse_tail uri_str uri_clear.

(** ** The printer *)

Definition is_default_port (x : uri) : bool :=
  if uri_port x =? 0 then true
  else if bool_decide (uri_schema x = str "http") || bool_decide (uri_schema x = str "ws")
  then uri_port x =? 8080
  else if bool_decide (uri_schema x = str "https") || bool_decide (uri_schema x = str "wss")
  then uri_port x =? 443
  else false.

Definition uri_is_valid (x : uri) : bool :=
  negb (bool_decide (uri_schema x = [])) || negb (bool_decide (uri_host x = []))
  || negb (bool_decide (uri_path x = [])).

Definition is_empty {A} (l : list A) : bool := match l with [] => true | _ => false end.

Definition print_schema (x : uri) : list byte :=
  if is_empty (uri_schema x) then []
  else uri_schema x ++ str ":" ++
       (if negb (is_empty (uri_host x)) || (uri_port x >? 0) || negb (is_empty (uri_user x))
        then str "//" else []).
Definition print_user (x : uri) : list byte :=
  if is_empty (uri_user x) then []
  else uri_user x ++ (if is_empty (uri_password x) then [] else str ":" ++ uri_password x) ++ str "@".
Definition print_host (x : uri) : list byte :=
  if is_empty (uri_host x) then []
  else if negb (find_char ":" (uri_host x) 0 =? npos) then str "[" ++ uri_host x ++ str "]"
  else uri_host x.
Definition print_port (x : uri) : list byte :=
  if is_default_port x then [] else str ":" ++ to_string (uri_port x).
Definition print_path (result : list byte) (x : uri) : list byte :=
  if is_empty (uri_path x) then []
  else (if negb (is_empty result) && negb (bool_decide (head (uri_path x) = Some ("/"%byte)))
           && negb (is_empty (uri_host x)) then str "/" else []) ++ uri_path x.

Definition uri_to_string (x : uri) : list byte :=
  let result := print_schema x ++ print_user x ++ print_host x ++ print_port x in
  result ++ print_path result x
    ++ (if is_empty (uri_query x) then [] else str "?" ++ uri_query x)
    ++ (if is_empty (uri_fragment x) then [] else str "#" ++ uri_fragment x).

(** [get_path] shows an empty path as the root. *)
Definition uri_get_path (x : uri) : list byte := if is_empty (uri_path x) then str "/" else uri_path x.

(** ** Cutting *)

Lemma npos_val : npos = 18446744073709551615.
Proof. done. Qed.

Lemma substr_after_hit a c b :
  len (a ++ c :: b) < npos -> substr_after (a ++ c :: b) (len a) = Ok b.
Proof.
  rewrite len_app, len_cons. intros Hl. pose proof (len_nonneg a). pose proof (len_nonneg b).
  rewrite npos_val in Hl. unfold substr_after. rewrite wrapU_small by word_lia.
  pose proof (substr_rest (a ++ [c]) b npos) as E. rewrite <- app_assoc, len_app in E.
  apply E. rewrite npos_val. lia.
Qed.

Lemma find_char_hit a c b : c ∉ a -> find_char c (a ++ c :: b) 0 = len a.
Proof. intros H. apply find_hit0; [by apply is_char_free|apply is_char_refl]. Qed.
Lemma find_char_free a c from : c ∉ a -> find_char c a from = npos.
Proof. intros H. apply find_free. by apply is_char_free. Qed.

Lemma len_not_npos {A} (a : list A) : len a < npos -> (len a =? npos) = false.
Proof. intros H. apply Z.eqb_neq. lia. Qed.

Lemma cut_at_hit c a b : c ∉ a -> len (a ++ c :: b) < npos -> cut_at c (a ++ c :: b) = Ok (a, b).
Proof.
  intros Hc Hl. unfold cut_at. rewrite find_char_hit by done.
  pose proof Hl as Hl'. rewrite len_app, len_cons in Hl'. pose proof (len_nonneg b).
  rewrite len_not_npos by lia. rewrite substr_after_hit by done. cbn.
  by rewrite substr_front.
Qed.
Lemma cut_at_free c a : c ∉ a -> cut_at c a = Ok (a, []).
Proof. intros Hc. unfold cut_at. by rewrite find_char_free, Z.eqb_refl. Qed.

(** What is printed behind the authority. *)
Definition part (c : byte) (s : list byte) : list byte := if is_empty s then [] else c :: s.

Lemma cut_at_part c a s : c ∉ a -> len (a ++ part c s) < npos -> cut_at c (a ++ part c s) = Ok (a, s).
Proof.
  intros Hc Hl. destruct s as [|b s].
  - cbn. rewrite app_nil_r. by apply cut_at_free.
  - by apply cut_at_hit.
Qed.

Lemma not_in_part c d s : c <> d -> c ∉ s -> c ∉ part d s.
Proof. intros Hd Hs. destruct s; [apply not_elem_of_nil|]. cbn. rewrite not_elem_of_cons. done. Qed.

Lemma parse_tail_ok p q f x :
  "#"%byte ∉ p -> "?"%byte ∉ p -> "#"%byte ∉ q ->
  len (p ++ part "?" q ++ part "#" f) < npos ->
  parse_tail (p ++ part "?" q ++ part "#" f) x = Ok (uri_with_tail p q f x).
Proof.
  intros Hp Hp' Hq Hl. unfold parse_tail. rewrite app_assoc in *. rewrite cut_at_part; [|..|done].
  - cbn. rewrite cut_at_part; [done|done|]. rewrite len_app in Hl.
    pose proof (len_nonneg (part "#" f)). lia.
  - rewrite elem_of_app. intros [?|Hin]; [done|]. by apply (not_in_part "#" "?" q).
Qed.

(** ** The authority *)

Definition host_ok (h : list byte) : Prop :=
  ((":"%byte ∉ h) /\ exists c t, h = c :: t /\ c <> "["%byte) \/ ((":"%byte ∈ h) /\ ("]"%byte ∉ h)).

Definition port_part (port : Z) : list byte := if port =? 0 then [] else ":"%byte :: to_string port.

Lemma find_char_in c s : c ∈ s -> len s < npos -> find_char c s 0 <> npos.
Proof.
  intros Hin Hl E. unfold find_char, find_from in E. change (Z.to_nat 0) with 0%nat in E.
  rewrite drop_0 in E. destruct (list_find _ s) as [[i e]|] eqn:F.
  - apply list_find_Some in F as (Hi & _). apply lookup_lt_Some in Hi. unfold len in Hl. lia.
  - apply list_find_None in F. eapply Forall_forall in F; [|exact Hin]. by rewrite is_char_refl in F.
Qed.

Lemma print_host_cases h : host_ok h -> len h < npos ->
  ((":"%byte ∉ h) /\ (exists c t, h = c :: t /\ c <> "["%byte) /\
     (if is_empty h then [] else if negb (find_char ":" h 0 =? npos) then str "[" ++ h ++ str "]" else h) = h) \/
  ((":"%byte ∈ h) /\ ("]"%byte ∉ h) /\
     (if is_empty h then [] else if negb (find_char ":" h 0 =? npos) then str "[" ++ h ++ str "]" else h)
     = str "[" ++ h ++ str "]").
Proof.
  intros [[Hc (c & t & -> & Hne)]|[Hc Hb]] Hl.
  - left. split; [done|]. split; [eauto|]. cbn [is_empty]. by rewrite find_char_free, Z.eqb_refl.
  - right. split; [done|]. split; [done|]. destruct h as [|c h]; [by apply not_elem_of_nil in Hc|].
    cbn [is_empty]. rewrite (proj2 (Z.eqb_neq _ _)) by (by apply find_char_in). done.
Qed.

Lemma parse_hostport_ok h port x :
  host_ok h -> 0 <= port < 2 ^ 31 -> uri_port x = 0 ->
  let shown := if is_empty h then [] else
    if negb (find_char ":" h 0 =? npos) then str "[" ++ h ++ str "]" else h in
  len h < npos -> len (shown ++ port_part port) < npos ->
  parse_hostport (shown ++ port_part port) x = Ok (uri_with_hostport h port x).
Proof.
  intros Hh Hp Hx shown Hlh Hl. subst shown.
  destruct (print_host_cases h Hh Hlh) as [(Hc & (c & t & -> & Hne) & E)|(Hc & Hb & E)];
    rewrite E in *; clear E.
  - set (h := c :: t) in *. unfold port_part in *. destruct (Z.eqb_spec port 0) as [->|Hp0].
    + rewrite app_nil_r in *. unfold parse_hostport. subst h. rewrite find_char_free by done.
      rewrite Z.eqb_refl, Hx. destruct c; done.
    + assert (parse_hostport (h ++ ":"%byte :: to_string port) x =
        (host ← substr (h ++ ":"%byte :: to_string port) 0 (len h);
         p ← substr_after (h ++ ":"%byte :: to_string port) (len h);
         port ← atoi p; Ok (uri_with_hostport host port x))) as ->.
      { unfold parse_hostport. rewrite find_char_hit by done.
        rewrite len_app, len_cons in Hl. pose proof (len_nonneg (to_string port)).
        rewrite len_not_npos by lia. subst h. destruct c; done. }
      rewrite substr_front by done. cbn [mbind outcome_bind].
      rewrite substr_after_hit by done. cbn [mbind outcome_bind].
      rewrite atoi_to_string by done. done.
  - assert ((str "[" ++ h ++ str "]") ++ port_part port = "["%byte :: h ++ "]"%byte :: port_part port) as E.
    { change (str "[") with ["["%byte]. change (str "]") with ["]"%byte]. cbn [app]. by rewrite <- app_assoc. }
    rewrite E in *. clear E.
    rewrite len_cons, len_app, len_cons in Hl. pose proof (len_nonneg h). pose proof (len_nonneg (port_part port)).
    rewrite npos_val in Hl.
    unfold parse_hostport.
    assert (find_char "]" ("["%byte :: h ++ "]"%byte :: port_part port) 1 = 1 + len h) as ->.
    { unfold find_char. by rewrite (find_hit _ ["["%byte] h "]"%byte (port_part port) 1)
        by (done || by apply is_char_free). }
    rewrite (proj2 (Z.eqb_neq _ _)) by (rewrite npos_val; lia).
    rewrite wrapU_small by word_lia. replace (1 + len h - 1) with (len h) by lia.
    pose proof (substr_mid ["["%byte] h ("]"%byte :: port_part port) (len h) eq_refl) as E.
    change (len ["["%byte]) with 1 in E. cbn [app] in E. rewrite E. clear E. cbn [mbind outcome_bind].
    unfold port_part in *. destruct (Z.eqb_spec port 0) as [->|Hp0].
    + unfold find_char. rewrite find_free_from, Z.eqb_refl, Hx; [done|].
      unfold len. replace (Z.to_nat (1 + Z.of_nat (length h))) with (S (length h)) by lia.
      cbn [drop]. rewrite drop_app_length. by repeat constructor.
    + unfold find_char. rewrite (find_hit _ ("["%byte :: h) ["]"%byte] ":"%byte (to_string port))
        by (rewrite ?len_cons; first [lia|by repeat constructor|done]).
      rewrite (proj2 (Z.eqb_neq _ _)) by (rewrite npos_val, len_cons, len_nil; lia).
      change (len ["]"%byte]) with 1.
      pose proof (substr_after_hit ("["%byte :: h ++ ["]"%byte]) ":"%byte (to_string port)) as Es.
      assert (len ("["%byte :: h ++ ["]"%byte]) = 1 + (len h + 1)) as El by (by rewrite len_cons, len_app).
      rewrite El in Es.
      replace (1 + len h + 1) with (1 + (len h + 1)) by lia.
      cbn [app] in Es. rewrite <- app_assoc in Es. cbn [app] in Es. rewrite Es.
      * cbn. by rewrite atoi_to_string.
      * rewrite len_cons, len_app, !len_cons, npos_val. rewrite len_cons in Hl. lia.
Qed.

(** ** The round trip *)

(** A decidable fact about literals. *)
Ltac in_set := apply (bool_decide_unpack _); exact I.

(** No character of [set] in [s]. *)
Abbreviation without set s := (free_of (is_in (str set)) s).

Lemma without_not_in set s c : without set s -> c ∈ str set -> c ∉ s.
Proof.
  intros H Hc Hs. eapply Forall_forall in H; [|exact Hs]. unfold is_in in H.
  by rewrite bool_decide_eq_true_2 in H.
Qed.

Lemma to_string_without set z : 0 <= z -> Forall (fun c => is_digit c = false) (str set) ->
  without set (to_string z).
Proof.
  intros Hz Hs. eapply Forall_impl; [by apply to_string_digits|]. intros c Hc. cbn in *.
  apply bool_decide_eq_false_2. intros Hin. eapply Forall_forall in Hs; [|exact Hin]. cbn in Hs. congruence.
Qed.

(** A canonical identifier with a host. *)
Record uri_ok (x : uri) : Prop := {
  uo_schema : uri_schema x <> [] /\ ":"%byte ∉ uri_schema x;
  uo_user : without ":/?#@" (uri_user x);
  uo_password : without "/?#@" (uri_password x) /\ (uri_user x = [] -> uri_password x = []);
  uo_host : without "/?#@" (uri_host x) /\ host_ok (uri_host x);
  uo_port : 0 <= uri_port x < 2 ^ 31 /\ (is_default_port x = true -> uri_port x = 0);
  uo_path : without "?#" (uri_path x) /\ (uri_path x = [] \/ head (uri_path x) = Some "/"%byte);
  uo_query : "#"%byte ∉ uri_query x;
  uo_len : len (uri_to_string x) < npos - 2;
}.

Lemma print_port_part x : uri_ok x -> print_port x = port_part (uri_port x).
Proof.
  intros Ho. destruct (uo_port _ Ho) as [_ Hd]. unfold print_port, port_part.
  destruct (is_default_port x) eqn:E.
  - by rewrite Hd.
  - destruct (Z.eqb_spec (uri_port x) 0) as [H0|]; [|done].
    unfold is_default_port in E. by rewrite H0 in E.
Qed.

Definition print_authority (x : uri) : list byte := print_user x ++ print_host x ++ print_port x.

Lemma brackets_without h : without "/?#@" h ->
  without "/?#@" (str "[" ++ h ++ str "]").
Proof. intros H. rewrite !free_of_app. repeat split; [by repeat constructor|done|by repeat constructor]. Qed.

Lemma hostport_without x : uri_ok x -> without "/?#@" (print_host x ++ print_port x).
Proof.
  intros Ho. rewrite print_port_part by done. apply free_of_app. split.
  - unfold print_host. destruct (is_empty _); [constructor|]. destruct (uo_host _ Ho) as [Hh _].
    case_match; [by apply brackets_without|done].
  - unfold port_part. case_match; [constructor|]. apply free_of_cons. split; [done|].
    apply to_string_without; [by apply (uo_port _ Ho)|by repeat constructor].
Qed.

Lemma without_weaken set set' s :
  without set s -> Forall (fun c => c ∈ str set) (str set') -> without set' s.
Proof.
  intros H Hs. eapply Forall_impl; [exact H|]. intros c Hc. unfold is_in in *.
  apply bool_decide_eq_false_1 in Hc. apply bool_decide_eq_false_2. intros Hin. apply Hc.
  eapply Forall_forall in Hs; [|exact Hin]. done.
Qed.
Ltac weaken H := eapply without_weaken; [exact H|in_set].

Lemma authority_without x : uri_ok x -> without "/?#" (print_authority x).
Proof.
  intros Ho. apply free_of_app. split.
  - unfold print_user. destruct (is_empty _); [constructor|]. rewrite !free_of_app.
    split; [weaken (uo_user _ Ho)|]. split; [|by repeat constructor].
    destruct (is_empty (uri_password x)); [constructor|]. apply free_of_app.
    split; [by repeat constructor|]. weaken (proj1 (uo_password _ Ho)).
  - weaken (hostport_without _ Ho).
Qed.

Lemma parse_authority_ok x y :
  uri_ok x -> len (print_authority x) < npos ->
  uri_user y = [] -> uri_password y = [] -> uri_port y = 0 ->
  parse_authority (print_authority x) y =
    Ok (uri_with_hostport (uri_host x) (uri_port x) (uri_with_user (uri_user x) (uri_password x) y)).
Proof.
  intros Ho Hl Hu Hpw Hp. pose proof (hostport_without _ Ho) as Hw.
  destruct (uo_host _ Ho) as [_ Hh]. destruct (uo_port _ Ho) as [Hr _].
  assert (forall y, uri_port y = 0 -> parse_hostport (print_host x ++ print_port x) y =
            Ok (uri_with_hostport (uri_host x) (uri_port x) y)) as Hhp.
  { intros z Hz. rewrite print_port_part by done. unfold print_authority in Hl.
    rewrite print_port_part, !len_app in Hl by done. pose proof (len_nonneg (print_user x)).
    apply parse_hostport_ok; [done|done|done| |by rewrite len_app; unfold print_host in Hl; lia].
    pose proof (len_nonneg (port_part (uri_port x))). unfold print_host in Hl.
    destruct (uri_host x) as [|c h] eqn:E; [done|]. cbn [is_empty] in Hl. case_match; [|lia].
    rewrite !len_app in Hl. change (len (str "[")) with 1 in Hl. change (len (str "]")) with 1 in Hl. lia. }
  unfold print_authority, print_user in *. unfold parse_authority.
  destruct (uri_user x) as [|c u] eqn:Eu; cbn [is_empty].
  - cbn [app]. rewrite find_char_free by (by eapply without_not_in; [exact Hw|]; in_set).
    rewrite Z.eqb_refl, Hhp by done. destruct y; cbn in *. subst.
    by rewrite (proj2 (uo_password _ Ho)).
  - rewrite <- Eu in *. set (HP := print_host x ++ print_port x) in *.
    set (UI := uri_user x ++ (if is_empty (uri_password x) then [] else str ":" ++ uri_password x)).
    assert (uri_user x ++ (if is_empty (uri_password x) then [] else str ":" ++ uri_password x) ++ str "@"
            = UI ++ str "@") as E by (unfold UI; by rewrite app_assoc).
    cbn [is_empty] in Hl. rewrite Eu in Hl. cbn [is_empty] in Hl. rewrite <- Eu in Hl.
    rewrite E in *. clear E.
    rewrite <- app_assoc in *. change (str "@" ++ HP) with ("@"%byte :: HP) in *.
    pose proof (uo_user _ Ho) as Huu. destruct (uo_password _ Ho) as [Hpp _].
    assert ("@"%byte ∉ UI) as Hat.
    { unfold UI. rewrite elem_of_app. intros [Hin|Hin].
      - revert Hin. eapply without_not_in; [exact Huu|]. in_set.
      - destruct (is_empty (uri_password x)); [by apply not_elem_of_nil in Hin|].
        change (str ":" ++ uri_password x) with (":"%byte :: uri_password x) in Hin.
        apply elem_of_cons in Hin as [?|Hin]; [done|].
        revert Hin. eapply without_not_in; [exact Hpp|]. in_set. }
    rewrite find_char_hit by done. rewrite len_app, len_cons in Hl.
    pose proof (len_nonneg HP). pose proof (len_nonneg UI). rewrite len_not_npos by lia.
    rewrite substr_front by done. cbn [mbind outcome_bind].
    assert (parse_userinfo UI y = Ok (uri_with_user (uri_user x) (uri_password x) y)) as ->.
    { assert (":"%byte ∉ uri_user x) as Hcol by (eapply without_not_in; [exact Huu|]; in_set).
      unfold parse_userinfo, UI. destruct (uri_password x) as [|c' p'] eqn:Ep; cbn [is_empty].
      - rewrite app_nil_r, find_char_free, Z.eqb_refl, Hpw by done. done.
      - change (str ":" ++ c' :: p') with (":"%byte :: c' :: p').
        rewrite find_char_hit by done. unfold UI in Hl. cbn [is_empty] in Hl.
        change (str ":" ++ c' :: p') with (":"%byte :: c' :: p') in Hl.
        rewrite len_app, len_cons in Hl. pose proof (len_nonneg (c' :: p')).
        pose proof (len_nonneg (uri_user x)).
        rewrite len_not_npos by lia. rewrite substr_front by done. cbn [mbind outcome_bind].
        rewrite substr_after_hit by (rewrite len_app, len_cons; lia). done. }
    cbn [mbind outcome_bind]. rewrite substr_after_hit by (rewrite len_app, len_cons; lia).
    cbn [mbind outcome_bind]. by rewrite Hhp.
Qed.

(** What follows the authority. *)
Definition print_tail (x : uri) : list byte :=
  uri_path x ++ part "?" (uri_query x) ++ part "#" (uri_fragment x).

Lemma print_path_eq r x : uri_ok x -> print_path r x = uri_path x.
Proof.
  intros Ho. unfold print_path. destruct (uo_path _ Ho) as [_ [->|Hp]]; [done|].
  destruct (uri_path x) as [|c p]; [done|]. cbn [is_empty]. rewrite Hp.
  rewrite bool_decide_eq_true_2 by done. by rewrite andb_false_r.
Qed.

Lemma uri_to_string_eq x : uri_ok x ->
  uri_to_string x = uri_schema x ++ ":"%byte :: "/"%byte :: "/"%byte :: print_authority x ++ print_tail x.
Proof.
  intros Ho. unfold uri_to_string. rewrite print_path_eq by done.
  unfold print_authority, print_tail, print_schema. destruct (uo_schema _ Ho) as [Hs _].
  destruct (uri_schema x) as [|c s] eqn:E; [done|]. cbn [is_empty].
  destruct (uo_host _ Ho) as [_ Hh].
  assert (is_empty (uri_host x) = false) as ->.
  { destruct Hh as [(_ & c' & t & -> & _)|[Hin _]]; [done|].
    destruct (uri_host x); [by apply not_elem_of_nil in Hin|done]. }
  cbn [negb orb]. change (str ":" ++ str "//") with [":"%byte; "/"%byte; "/"%byte].
  unfold part. rewrite <- !app_assoc. done.
Qed.

Lemma print_tail_start x : uri_ok x ->
  print_tail x = [] \/ exists c t, print_tail x = c :: t /\ is_in (str "/?#") c = true.
Proof.
  intros Ho. unfold print_tail. destruct (uo_path _ Ho) as [_ Hp].
  destruct (uri_path x) as [|c p].
  - destruct (uri_query x) as [|c q]; [|right; by eexists _, _].
    destruct (uri_fragment x) as [|c f]; [by left|right; by eexists _, _].
  - destruct Hp as [?|[= ->]]; [done|]. right. by eexists _, _.
Qed.

(** C18 — Parsing what the printer wrote gives the identifier back: for every
    identifier with a scheme and a host (an IPv6 host in brackets, or a name),
    optional user, password, port, query and fragment, whose parts do not
    contain the separators that end them, and whose port is not the one that
    [is_default_port] leaves out. *)
Theorem uri_roundtrip x : uri_ok x -> uri_parse (uri_to_string x) = Ok x.
Proof.
  intros Ho. pose proof (uo_len _ Ho) as Hl. rewrite uri_to_string_eq in * by done.
  destruct (uo_schema _ Ho) as [_ Hs]. rewrite len_app, !len_cons, len_app in Hl.
  pose proof (len_nonneg (uri_schema x)). pose proof (len_nonneg (print_authority x)).
  pose proof (len_nonneg (print_tail x)). rewrite npos_val in Hl.
  unfold uri_parse. rewrite find_char_hit by done.
  rewrite len_not_npos by (rewrite npos_val; lia). cbn [negb].
  rewrite substr_front by done. cbn [mbind outcome_bind].
  rewrite substr_after_hit by (rewrite len_app, !len_cons, len_app, npos_val; lia).
  cbn [mbind outcome_bind].
  set (A := print_authority x) in *. set (T := print_tail x) in *.
  rewrite !len_cons, len_app. destruct (Z.leb_spec 2 (1 + (1 + (len A + len T)))); [|lia].
  rewrite bool_decide_eq_true_2 by done. cbn [andb].
  assert (parse_tail T (uri_with_hostport (uri_host x) (uri_port x)
    (uri_with_user (uri_user x) (uri_password x) (uri_with_schema (uri_schema x) uri_clear))) = Ok x) as HT.
  { unfold T, print_tail. rewrite parse_tail_ok; [by destruct x| | |by apply (uo_query _ Ho)|].
    - eapply without_not_in; [apply (uo_path _ Ho)|in_set].
    - eapply without_not_in; [apply (uo_path _ Ho)|in_set].
    - change (len T < npos). rewrite npos_val. lia. }
  assert (parse_authority A (uri_with_schema (uri_schema x) uri_clear) =
    Ok (uri_with_hostport (uri_host x) (uri_port x)
    (uri_with_user (uri_user x) (uri_password x) (uri_with_schema (uri_schema x) uri_clear)))) as HA.
  { apply parse_authority_ok; try done. fold A. rewrite npos_val. lia. }
  pose proof (authority_without _ Ho) as Hw. fold A in Hw.
  destruct (print_tail_start _ Ho) as [E|(c & t & E & Hc)]; fold T in E.
  - rewrite E, app_nil_r in *. rewrite find_free_from by done.
    rewrite Z.eqb_refl.
    rewrite (substr_rest ["/"%byte; "/"%byte] A) by (unfold npos, wrapU; rewrite Z.mod_small; lia).
    cbn [mbind outcome_bind]. rewrite HA. cbn [mbind outcome_bind].
    pose proof (substr_rest ("/"%byte :: "/"%byte :: A) [] npos) as Er.
    rewrite app_nil_r, !len_cons in Er. replace (1 + (1 + (len A + len []))) with (1 + (1 + len A)) by
      (change (len (@nil byte)) with 0; lia). rewrite Er by (by rewrite npos_val).
    exact HT.
  - rewrite E in *. rewrite (find_hit _ ["/"%byte; "/"%byte] A c t 2) by done.
    rewrite len_cons in Hl. pose proof (len_nonneg t).
    rewrite (proj2 (Z.eqb_neq _ _)) by (rewrite npos_val; lia).
    rewrite wrapU_small by word_lia. replace (2 + len A - 2) with (len A) by lia.
    rewrite (substr_mid ["/"%byte; "/"%byte] A (c :: t)) by done.
    cbn [mbind outcome_bind]. rewrite HA. cbn [mbind outcome_bind].
    pose proof (substr_rest ("/"%byte :: "/"%byte :: A) (c :: t) npos) as Er.
    rewrite !len_cons in Er. cbn [app] in Er. replace (2 + len A) with (1 + (1 + len A)) by lia.
    rewrite Er by (rewrite npos_val; lia). exact HT.
Qed.

Definition demo_uri : uri :=
  mk_uri (str "https") (str "user") (str "p:w") (str "2001:db8::1") 8443 (str "/a/b")
    (str "k=v?w") (str "top").

Lemma demo_uri_ok : uri_ok demo_uri.
Proof.
  split; cbn [uri_schema uri_user uri_password uri_host uri_port uri_path uri_query uri_fragment demo_uri].
  - split; [done|in_set].
  - in_set.
  - split; [in_set|done].
  - split; [in_set|]. right. split; in_set.
  - split; [lia|done].
  - split; [in_set|by right].
  - in_set.
  - by vm_compute.
Qed.

Lemma uri_roundtrip_witness :
  uri_ok demo_uri /\ uri_to_string demo_uri = str "https://user:p:w@[2001:db8::1]:8443/a/b?k=v?w#top" /\
  uri_parse (uri_to_string demo_uri) = Ok demo_uri.
Proof.
  split; [exact demo_uri_ok|]. split; [reflexivity|]. by apply uri_roundtrip, demo_uri_ok.
Defined.
