(* ===== verification/Http.v ===== *)
(** HTTP messages (http/http.h, http/http.cpp, http/httpprotocol.h,
    http/httpprotocol.cpp, http/internal/httpsession.cpp): the tables of names,
    the parser as a state machine over the stream, the printer, and the decoder
    of a session. *)

From S2P Require Import Prelude Octets Varint Marshal Session Protocol Text.

(** The tables of names; the text of an entry is the C++ token. *)
Inductive HTTP_METHOD := | HTTP_METHOD_UNKNOWN | HTTP_METHOD_GET | HTTP_METHOD_POST
  | HTTP_METHOD_PUT | HTTP_METHOD_DELETE | HTTP_METHOD_HEAD | HTTP_METHOD_OPTIONS
  | HTTP_METHOD_PATCH | HTTP_METHOD_TRACE | HTTP_METHOD_CONNECT.
#[export] Instance HTTP_METHOD_eq_dec : EqDecision HTTP_METHOD.
Proof. solve_decision. Defined.

Inductive HTTP_VERSION := | HTTP_VERSION_UNKNOWN | HTTP_VERSION_1_0 | HTTP_VERSION_1_1
  | HTTP_VERSION_2_0.
#[export] Instance HTTP_VERSION_eq_dec : EqDecision HTTP_VERSION.
Proof. solve_decision. Defined.

Inductive HTTP_CONTENT_TYPE := | HTTP_CONTENT_TYPE_PLAIN | HTTP_CONTENT_TYPE_HTML
  | HTTP_CONTENT_TYPE_CSS | HTTP_CONTENT_TYPE_MARKDOWN | HTTP_CONTENT_TYPE_XML_TEXT
  | HTTP_CONTENT_TYPE_JS | HTTP_CONTENT_TYPE_XML | HTTP_CONTENT_TYPE_JSON
  | HTTP_CONTENT_TYPE_FORM_URLENCODED | HTTP_CONTENT_TYPE_OCTET_STREAM | HTTP_CONTENT_TYPE_PDF
  | HTTP_CONTENT_TYPE_ZIP | HTTP_CONTENT_TYPE_XLS | HTTP_CONTENT_TYPE_XLSX | HTTP_CONTENT_TYPE_PNG
  | HTTP_CONTENT_TYPE_JPEG | HTTP_CONTENT_TYPE_GIF | HTTP_CONTENT_TYPE_WEBP | HTTP_CONTENT_TYPE_SVG
  | HTTP_CONTENT_TYPE_ICO | HTTP_CONTENT_TYPE_MP3 | HTTP_CONTENT_TYPE_WAV
  | HTTP_CONTENT_TYPE_OGG_AUDIO | HTTP_CONTENT_TYPE_MP4 | HTTP_CONTENT_TYPE_WEBM
  | HTTP_CONTENT_TYPE_OGG_VIDEO | HTTP_CONTENT_TYPE_FORM_DATA | HTTP_CONTENT_TYPE_BYTERANGES.
#[export] Instance HTTP_CONTENT_TYPE_eq_dec : EqDecision HTTP_CONTENT_TYPE.
Proof. solve_decision. Defined.

Definition HTTP_METHOD_MAP : list (HTTP_METHOD * string) :=
  [(HTTP_METHOD_UNKNOWN, "Unknown");
   (HTTP_METHOD_GET, "GET");
   (HTTP_METHOD_POST, "POST");
   (HTTP_METHOD_PUT, "PUT");
   (HTTP_METHOD_DELETE, "DELETE");
   (HTTP_METHOD_HEAD, "HEAD");
   (HTTP_METHOD_OPTIONS, "OPTIONS");
   (HTTP_METHOD_PATCH, "PATCH");
   (HTTP_METHOD_TRACE, "TRACE");
   (HTTP_METHOD_CONNECT, "CONNECT")].

Definition HTTP_VERSION_MAP : list (HTTP_VERSION * string) :=
  [(HTTP_VERSION_UNKNOWN, "Unknown");
   (HTTP_VERSION_1_0, "HTTP/1.0");
   (HTTP_VERSION_1_1, "HTTP/1.1");
   (HTTP_VERSION_2_0, "HTTP/2.0")].

Definition HTTP_CONTENT_TYPE_MAP : list (HTTP_CONTENT_TYPE * string) :=
  [(HTTP_CONTENT_TYPE_PLAIN, "text/plain");
   (HTTP_CONTENT_TYPE_HTML, "text/html");
   (HTTP_CONTENT_TYPE_CSS, "text/css");
   (HTTP_CONTENT_TYPE_MARKDOWN, "text/markdown");
   (HTTP_CONTENT_TYPE_XML_TEXT, "text/xml");
   (HTTP_CONTENT_TYPE_JS, "application/javascript");
   (HTTP_CONTENT_TYPE_XML, "application/xml");
   (HTTP_CONTENT_TYPE_JSON, "application/json");
   (HTTP_CONTENT_TYPE_FORM_URLENCODED, "application/x-www-form-urlencoded");
   (HTTP_CONTENT_TYPE_OCTET_STREAM, "application/octet-stream");
   (HTTP_CONTENT_TYPE_PDF, "application/pdf");
   (HTTP_CONTENT_TYPE_ZIP, "application/zip");
   (HTTP_CONTENT_TYPE_XLS, "application/vnd.ms-excel");
   (HTTP_CONTENT_TYPE_XLSX, "application/vnd.openxmlformats-officedocument.spreadsheetml.sheet");
   (HTTP_CONTENT_TYPE_PNG, "image/png");
   (HTTP_CONTENT_TYPE_JPEG, "image/jpeg");
   (HTTP_CONTENT_TYPE_GIF, "image/gif");
   (HTTP_CONTENT_TYPE_WEBP, "image/webp");
   (HTTP_CONTENT_TYPE_SVG, "image/svg+xml");
   (HTTP_CONTENT_TYPE_ICO, "image/x-icon");
   (HTTP_CONTENT_TYPE_MP3, "audio/mpeg");
   (HTTP_CONTENT_TYPE_WAV, "audio/wav");
   (HTTP_CONTENT_TYPE_OGG_AUDIO, "audio/ogg");
   (HTTP_CONTENT_TYPE_MP4, "video/mp4");
   (HTTP_CONTENT_TYPE_WEBM, "video/webm");
   (HTTP_CONTENT_TYPE_OGG_VIDEO, "video/ogg");
   (HTTP_CONTENT_TYPE_FORM_DATA, "multipart/form-data");
   (HTTP_CONTENT_TYPE_BYTERANGES, "multipart/byteranges")].

(** [HTTP_STATUS] and [HTTP_RESULT] are integers: a status is read from the wire. *)
Definition HTTP_STATUS_MAP : list (Z * string) :=
  [(0, "Unknown");
   (100, "Continue");
   (101, "Switching Protocols");
   (102, "Processing");
   (200, "OK");
   (201, "Created");
   (202, "Accepted");
   (203, "Non-Authoritative Information");
   (204, "No Content");
   (205, "Reset Content");
   (206, "Partial Content");
   (207, "Multi Status");
   (208, "Already Reported");
   (226, "Im Used");
   (300, "Multiple Choices");
   (301, "Moved Permanently");
   (302, "Found");
   (303, "See Other");
   (304, "Not Modified");
   (307, "Temporary Redirect");
   (308, "Permanent Redirect");
   (400, "Bad Request");
   (401, "Unauthorized");
   (403, "Forbidden");
   (404, "Not Found");
   (405, "Method Not Allowed");
   (408, "Request Timeout");
   (409, "Conflict");
   (410, "Gone");
   (411, "Length Required");
   (413, "Payload Too Large");
   (414, "URI Too Long");
   (415, "Unsupported Media Type");
   (416, "Range Not Satisfiable");
   (417, "Expectation Failed");
   (426, "Upgrade Required");
   (428, "Precondition Required");
   (429, "Too Many Requests");
   (431, "Request Header Fields Too Large");
   (500, "Internal Server Error");
   (501, "Not Implemented");
   (502, "Bad Gateway");
   (503, "Service Unavailable");
   (504, "Gateway Timeout");
   (505, "HTTP Version Not Supported");
   (511, "Network Authentication Required")].

Definition HTTP_RESULT_MAP : list (Z * string) :=
  [(0, "OK");
   (-1, "Timeout");
   (-2, "Invalid URL");
   (-3, "Invalid host");
   (-4, "Connection failed");
   (-5, "Send closed by peer");
   (-6, "Wait closed by peer");
   (-7, "Send socket error");
   (-8, "SSL not enabled");
   (-9, "Create socket error");
   (-10, "Get connection from pool error");
   (-11, "Invalid connection from pool")].

(** The macros stringify a token that is itself a string literal: the names keep
    their quotes. *)
Definition stringified (desc : string) : list byte := x22 :: str desc ++ [x22].

Section Tables.
Context {K : Type} `{!EqDecision K}.
Fixpoint name_of (k : K) (t : list (K * string)) (other : string) : list byte :=
  match t with
  | (k', d) :: t => if decide (k = k') then stringified d else name_of k t other
  | [] => str other
  end.
Fixpoint of_name (s : list byte) (t : list (K * string)) (other : K) : K :=
  match t with
  | (k, d) :: t => if decide (s = stringified d) then k else of_name s t other
  | [] => other
  end.
End Tables.

Definition http_method_to_string (m : HTTP_METHOD) : list byte := name_of m HTTP_METHOD_MAP "Unknown".
Definition string_to_http_method (s : list byte) : HTTP_METHOD :=
  of_name s HTTP_METHOD_MAP HTTP_METHOD_UNKNOWN.
Definition http_status_to_string (s : Z) : list byte := name_of s HTTP_STATUS_MAP "Unknown".
Definition string_to_http_status (s : list byte) : Z := of_name s HTTP_STATUS_MAP 0.
Definition http_result_to_string (r : Z) : list byte := name_of r HTTP_RESULT_MAP "Unknown error".
Definition http_version_to_string (v : HTTP_VERSION) : list byte := name_of v HTTP_VERSION_MAP "Unknown".
Definition string_to_http_version (s : list byte) : HTTP_VERSION :=
  of_name s HTTP_VERSION_MAP HTTP_VERSION_UNKNOWN.
Definition http_content_type_to_string (c : HTTP_CONTENT_TYPE) : list byte :=
  name_of c HTTP_CONTENT_TYPE_MAP "Unknown".

(** ** Messages *)

Inductive HTTP_PARSE_STATE :=
| HTTP_PARSE_STATE_NONE | HTTP_PARSE_STATE_FIRST_LINE | HTTP_PARSE_STATE_HEADER
| HTTP_PARSE_STATE_BODY | HTTP_PARSE_STATE_CHUNKED_SIZE | HTTP_PARSE_STATE_CHUNKED_DATA
| HTTP_PARSE_STATE_CHUNKED_END | HTTP_PARSE_STATE_COMPLETE | HTTP_PARSE_STATE_ERROR.
#[export] Instance HTTP_PARSE_STATE_eq_dec : EqDecision HTTP_PARSE_STATE.
Proof. solve_decision. Defined.

Abbreviation headers := (gmap (list byte) (list byte)).

(** [hp_version] is indeterminate until it is set. *)
Record httpprotocol := mk_http {
  hp_parse_state : HTTP_PARSE_STATE;
  hp_is_chunked : bool;
  hp_chunk_size : Z;
  hp_is_websocket : bool;
  hp_is_keepalive : bool;
  hp_version : option HTTP_VERSION;
  hp_body : list byte;
  hp_headers : headers;
}.
Definition httpprotocol_new : httpprotocol :=
  mk_http HTTP_PARSE_STATE_NONE false 0 false false None [] ∅.

Definition hp_with_state st (h : httpprotocol) := mk_http st (hp_is_chunked h) (hp_chunk_size h)
  (hp_is_websocket h) (hp_is_keepalive h) (hp_version h) (hp_body h) (hp_headers h).
Definition hp_with_chunk n (h : httpprotocol) := mk_http (hp_parse_state h) (hp_is_chunked h) n
  (hp_is_websocket h) (hp_is_keepalive h) (hp_version h) (hp_body h) (hp_headers h).
Definition hp_with_flags chunked websocket keepalive (h : httpprotocol) := mk_http (hp_parse_state h)
  chunked (hp_chunk_size h) websocket keepalive (hp_version h) (hp_body h) (hp_headers h).
Definition set_version v (h : httpprotocol) := mk_http (hp_parse_state h) (hp_is_chunked h)
  (hp_chunk_size h) (hp_is_websocket h) (hp_is_keepalive h) (Some v) (hp_body h) (hp_headers h).
Definition set_body b (h : httpprotocol) := mk_http (hp_parse_state h) (hp_is_chunked h)
  (hp_chunk_size h) (hp_is_websocket h) (hp_is_keepalive h) (hp_version h) b (hp_headers h).
Definition hp_with_headers m (h : httpprotocol) := mk_http (hp_parse_state h) (hp_is_chunked h)
  (hp_chunk_size h) (hp_is_websocket h) (hp_is_keepalive h) (hp_version h) (hp_body h) m.

(** [set_header] transforms into empty strings: the first character is written
    behind their end. *)
Definition set_header (key value : list byte) (h : httpprotocol) : outcome httpprotocol :=
  match key, value with
  | [], _ | _, [] => Ok h
  | _, _ => Fault (UB "write behind the end of a string")
  end.
Definition del_header (key : list byte) (h : httpprotocol) : httpprotocol :=
  hp_with_headers (delete key (hp_headers h)) h.
Definition get_header (key : list byte) (h : httpprotocol) : list byte := default [] (hp_headers h !! key).
Definition has_header (key : list byte) (h : httpprotocol) : bool := bool_decide (is_Some (hp_headers h !! key)).

Definition strcasecmp_eq (a b : list byte) : bool :=
  bool_decide (str_tolower (c_string a) = str_tolower (c_string b)).

Definition on_parse_header_finished (h : httpprotocol) : httpprotocol :=
  let connection := get_header (str "connection") h in
  let h :=
    if strcasecmp_eq connection (str "close")
    then hp_with_flags (hp_is_chunked h) (hp_is_websocket h) false h
    else if strcasecmp_eq connection (str "keep-alive")
    then hp_with_flags (hp_is_chunked h) (hp_is_websocket h) true h
    else if strcasecmp_eq connection (str "upgrade")
    then hp_with_flags (hp_is_chunked h) true (hp_is_keepalive h) h
    else h in
  if strcasecmp_eq (get_header (str "transfer-encoding") h) (str "chunked")
  then hp_with_flags true (hp_is_websocket h) true h else h.

(** ** Lines *)

(** The loop of [getline]: the position it stops at, and the length. *)
Fixpoint getline_scan (fuel : nat) (declm : byte) (pos n : Z) : OS (Z * Z) :=
  match fuel with
  | O => fail OutOfFuel
  | S fuel =>
      s ← get;
      if pos <? os_size s then
        c ← lift (octets_index (os_data s) pos);
        c ← lift (cells_init [c]);
        if bool_decide (c = [declm]) then mret (pos, n)
        else getline_scan fuel declm (pos + 1) (n + 1)
      else mret (pos, n)
  end.

(** A character of the buffer, and [std::string(buf[pos], n)]: the constructor
    that takes a count and a character. *)
Definition char_at (pos : Z) : OS byte :=
  s ← get;
  c ← lift (octets_index (os_data s) pos);
  bs ← lift (cells_init [c]);
  match bs with [b] => mret b | _ => fail (UB "indeterminate value") end.
(** [char] is signed; the count is a [size_t]. *)
Definition string_of_char (c : byte) (n : Z) : outcome (list byte) :=
  string_fill (u64 (wrapS 8 (Z_of_byte c))) (byte_of_Z n).

Definition getline (declm : byte) : OS (option (list byte)) :=
  pop_transaction BEGIN;;
  s ← get;
  r ← getline_scan (S (Z.to_nat (os_size s))) declm (os_pos s) 0;
  let '(pos, n) := r in
  c ← char_at pos;
  if bool_decide (c = declm) then
    modify (os_advance n);;
    c ← char_at (u64 (pos - n));
    line ← lift (string_of_char c n);
    pop_transaction COMMIT;;
    mret (Some line)
  else pop_transaction ROLLBACK;; mret None.

(** ** The parser of what both kinds of messages share *)

(** The stream and the message that is being read. *)
Abbreviation HP := (M (octetsstream * httpprotocol)).
Definition on_os {A} (c : OS A) : HP A := fun '(os, h) => let '(os, r) := c os in ((os, h), r).
Definition on_http (f : httpprotocol -> httpprotocol) : HP unit := modify (fun '(os, h) => (os, f h)).
Definition get_http : HP httpprotocol := s ← get; mret s.2.

Definition reads_lines (h : httpprotocol) : bool :=
  match hp_parse_state h with
  | HTTP_PARSE_STATE_BODY | HTTP_PARSE_STATE_CHUNKED_DATA => false
  | _ => true
  end.

Definition unpack_header (line : list byte) : HP unit :=
  if bool_decide (line = [x0d]) then
    on_http on_parse_header_finished;;
    on_http (fun h => hp_with_state (if hp_is_chunked h then HTTP_PARSE_STATE_CHUNKED_SIZE
                                     else HTTP_PARSE_STATE_BODY) h)
  else
    let colon := find_char ":" line 0 in
    if colon =? npos then mret tt
    else
      key ← lift (substr line 0 colon);
      value ← lift (substr line (u64 (colon + 2)) (u64 (len line - colon - 3)));
      on_http (fun h => hp_with_headers (<[str_tolower key := str_tolower value]> (hp_headers h)) h).

(** Taking [n] bytes: a string made of one character, as in [getline]. *)
Definition unpack_body : HP unit :=
  h ← get_http;
  match get_header (str "content-length") h with
  | [] => mret tt
  | content_length =>
      on_os (pop_transaction BEGIN);;
      l ← lift (stoul content_length);
      let n := s32 l in
      s ← get;
      if negb (os_data_ready (u64 n) s.1) then on_os (pop_transaction ROLLBACK)
      else
        c ← on_os (char_at (os_pos s.1));
        body ← lift (string_of_char c n);
        on_http (set_body body);;
        (if n + 2 <? 2 ^ 31 then on_os (modify (os_advance (u64 (n + 2)))) else fail (UB "signed overflow"));;
        on_os (pop_transaction COMMIT);;
        on_http (hp_with_state HTTP_PARSE_STATE_COMPLETE)
  end.

Definition unpack_chunk_size (line : list byte) : HP unit :=
  n ← lift (stoul line);
  on_http (hp_with_chunk n);;
  on_http (hp_with_state (if n =? 0 then HTTP_PARSE_STATE_COMPLETE else HTTP_PARSE_STATE_CHUNKED_DATA)).

Definition unpack_chunk_data : HP unit :=
  h ← get_http;
  on_os (pop_transaction BEGIN);;
  s ← get;
  let n := hp_chunk_size h in
  if negb (os_data_ready n s.1) then on_os (pop_transaction ROLLBACK)
  else
    c ← on_os (char_at (os_pos s.1));
    data ← lift (string_of_char c n);
    on_http (fun h => set_body (hp_body h ++ data) h);;
    on_os (modify (os_advance (u64 (n + 2))));;
    on_os (pop_transaction COMMIT);;
    on_http (hp_with_chunk 0);;
    on_http (hp_with_state HTTP_PARSE_STATE_CHUNKED_SIZE).

(** One turn of the loop. *)
Definition unpack_turn (line : list byte) : HP unit :=
  h ← get_http;
  match hp_parse_state h with
  | HTTP_PARSE_STATE_HEADER => unpack_header line
  | HTTP_PARSE_STATE_BODY => unpack_body
  | HTTP_PARSE_STATE_CHUNKED_SIZE => unpack_chunk_size line
  | HTTP_PARSE_STATE_CHUNKED_DATA => unpack_chunk_data
  | _ => mret tt
  end.

(** The loop need not end: see [http_body_hangs]. *)
Fixpoint http_unpack (fuel : nat) (line : list byte) : HP unit :=
  match fuel with
  | O => fail OutOfFuel
  | S fuel =>
      h ← get_http;
      r ← (if reads_lines h then on_os (getline x0a) else mret (Some line));
      match r with
      | None => mret tt
      | Some line => unpack_turn line;; http_unpack fuel line
      end
  end.

(** ** Requests and responses *)

Record httprequest := mk_request {
  hq_http : httpprotocol;
  hq_method : option HTTP_METHOD;
  hq_path : list byte;
  hq_query : list byte;
  hq_fragment : list byte;
  hq_params : headers;
  hq_cookies : headers;
  hq_parsed : gset Z;
}.
Definition PARSE_QUERY_PARAM : Z := 0.
Definition PARSE_BODY_PARAM : Z := 1.
Definition PARSE_COOKIES : Z := 2.

Record httpresponse := mk_response {
  hr_http : httpprotocol;
  hr_status : Z;
  hr_cookies : list (list byte);
  hr_reason : list byte;
}.
Definition httprequest_new : httprequest := mk_request httpprotocol_new None [] [] [] ∅ ∅ ∅.
Definition httpresponse_new : httpresponse := mk_response httpprotocol_new 200 [] [].

(** Whether the first line is still to be read. *)
Definition first_line_due (h : httpprotocol) : bool :=
  match hp_parse_state h with HTTP_PARSE_STATE_NONE | HTTP_PARSE_STATE_FIRST_LINE => true | _ => false end.

(** The stream, and the message as far as it was read. *)
Abbreviation HM X := (M (octetsstream * X)).
Definition on_stream {X A} (c : OS A) : HM X A := fun '(os, x) => let '(os, r) := c os in ((os, x), r).
Definition on_message {X} (f : X -> X) : HM X unit := modify (fun '(os, x) => (os, f x)).
Definition unpack_rest {X} (rd : X -> httpprotocol) (wr : httpprotocol -> X -> X) (fuel : nat) : HM X unit :=
  fun '(os, x) => let '((os, h), r) := http_unpack fuel [] (os, rd x) in ((os, wr h x), r).

Definition hq_with_http h (q : httprequest) := mk_request h (hq_method q) (hq_path q) (hq_query q)
  (hq_fragment q) (hq_params q) (hq_cookies q) (hq_parsed q).
Definition hq_with_line m p (q : httprequest) := mk_request (hq_http q) m p (hq_query q)
  (hq_fragment q) (hq_params q) (hq_cookies q) (hq_parsed q).
Definition hr_with_http h (r : httpresponse) := mk_response h (hr_status r) (hr_cookies r) (hr_reason r).
Definition hr_with_status st (r : httpresponse) := mk_response (hr_http r) st (hr_cookies r) (hr_reason r).

(** The request line; whether there was a line. *)
Definition request_line : HM httprequest bool :=
  line ← on_stream (getline x0a);
  match line with
  | None => mret false
  | Some [] => throw (ExnProtocol "Empty request line")
  | Some line =>
      let method_end := find_char x20 line 0 in
      m ← lift (substr line 0 method_end);
      let method := string_to_http_method m in
      on_message (fun q => hq_with_line (Some method) (hq_path q) q);;
      if decide (method = HTTP_METHOD_UNKNOWN) then throw (ExnProtocol "Unknown HTTP method")
      else
        let path_end := find_char x20 line (u64 (method_end + 1)) in
        path ← lift (substr line (u64 (method_end + 1)) (u64 (path_end - method_end - 1)));
        on_message (fun q => hq_with_line (hq_method q) path q);;
        if bool_decide (path = []) then throw (ExnProtocol "Empty URL")
        else
          v ← lift (substr line (u64 (path_end + 1)) npos);
          let version := string_to_http_version v in
          on_message (fun q => hq_with_http (set_version version (hq_http q)) q);;
          if decide (version = HTTP_VERSION_UNKNOWN) then throw (ExnProtocol "Unknown HTTP version")
          else mret true
  end.

(** The start of a message, then the common part. *)
Definition httprequest_unpack (fuel : nat) : HM httprequest unit :=
  s ← get;
  if first_line_due (hq_http s.2) then
    on_message (fun q => hq_with_http (hp_with_state HTTP_PARSE_STATE_FIRST_LINE (hq_http q)) q);;
    l ← request_line;
    if (l : bool) then
      on_message (fun q => hq_with_http (hp_with_state HTTP_PARSE_STATE_HEADER (hq_http q)) q);;
      unpack_rest hq_http hq_with_http fuel
    else mret tt
  else unpack_rest hq_http hq_with_http fuel.

(** The status line; the status is whatever number stands there.  Its text is
    built from a pointer and a length, and nothing checks the bounds. *)
Definition string_of_region (s : list byte) (pos n : Z) : outcome (list byte) :=
  if n >? PTRDIFF_MAX then Throw (ExnLength "basic_string::_M_create")
  else if pos + n <=? len s then Ok (slice s pos n)
  else Fault (UB "read behind the end of a string").

Definition status_line : HM httpresponse bool :=
  line ← on_stream (getline x0a);
  match line with
  | None => mret false
  | Some [] => throw (ExnProtocol "Empty request line")
  | Some line =>
      let version_end := find_char x20 line 0 in
      v ← lift (substr line 0 version_end);
      let version := string_to_http_version v in
      on_message (fun r => hr_with_http (set_version version (hr_http r)) r);;
      if decide (version = HTTP_VERSION_UNKNOWN) then throw (ExnProtocol "Unknown HTTP version")
      else
        let status_end := find_char x20 line (u64 (version_end + 1)) in
        code ← lift (string_of_region line (u64 (version_end + 1)) (u64 (status_end - version_end - 1)));
        status ← lift (atoi code);
        on_message (hr_with_status status);;
        if status =? 0 then throw (ExnProtocol "Unknown HTTP status")
        else mret true
  end.

Definition httpresponse_unpack (fuel : nat) : HM httpresponse unit :=
  s ← get;
  if first_line_due (hr_http s.2) then
    on_message (fun r => hr_with_http (hp_with_state HTTP_PARSE_STATE_FIRST_LINE (hr_http r)) r);;
    l ← status_line;
    if (l : bool) then
      on_message (fun r => hr_with_http (hp_with_state HTTP_PARSE_STATE_HEADER (hr_http r)) r);;
      unpack_rest hr_http hr_with_http fuel
    else mret tt
  else unpack_rest hr_http hr_with_http fuel.

(** ** Parameters of a request *)

Fixpoint parse_pairs (pairs : list (list byte)) (params : headers)
    (trim_func : list byte -> outcome (list byte)) : outcome headers :=
  match pairs with
  | [] => Ok params
  | keyval :: pairs =>
      let pos := find_char "=" keyval 0 in
      if pos =? npos then Ok params
      else
        key ← substr keyval 0 pos;
        value ← substr keyval (u64 (pos + 1)) npos;
        key ← trim_func key;
        parse_pairs pairs (<[key := url_decode value true]> params) trim_func
  end.
Definition parse_param (s : list byte) (params : headers) (flag : list byte)
    (trim_func : list byte -> outcome (list byte)) : outcome headers :=
  parse_pairs (split s flag) params trim_func.

Definition hq_with_params m f (q : httprequest) := mk_request (hq_http q) (hq_method q) (hq_path q)
  (hq_query q) (hq_fragment q) m (hq_cookies q) ({[f]} ∪ hq_parsed q).

Definition init_query_param (q : httprequest) : outcome httprequest :=
  if bool_decide (PARSE_QUERY_PARAM ∈ hq_parsed q) then Ok q
  else m ← parse_param (hq_query q) (hq_params q) (str "&") (fun k => Ok k);
       Ok (hq_with_params m PARSE_QUERY_PARAM q).

(** [strcasestr]: whether the needle occurs. *)
Fixpoint contains (s needle : list byte) : bool :=
  startswith s needle || match s with [] => false | _ :: s => contains s needle end.

Definition init_body_param (q : httprequest) : outcome httprequest :=
  if bool_decide (PARSE_BODY_PARAM ∈ hq_parsed q) then Ok q
  else
    m ← (if contains (str_tolower (c_string (get_header (str "content-type") (hq_http q))))
              (str "application/x-www-form-urlencoded")
         then parse_param (hp_body (hq_http q)) (hq_params q) (str "&") (fun k => Ok k)
         else Ok (hq_params q));
    Ok (hq_with_params m PARSE_BODY_PARAM q).

Definition init_cookies (q : httprequest) : outcome httprequest :=
  if bool_decide (PARSE_COOKIES ∈ hq_parsed q) then Ok q
  else
    match get_header (str "cookie") (hq_http q) with
    | [] => Ok q
    | cookie =>
        m ← parse_param cookie (hq_cookies q) (str ";") (fun k => trim k [x09; x0d; x0a]);
        Ok (mk_request (hq_http q) (hq_method q) (hq_path q) (hq_query q) (hq_fragment q) (hq_params q) m
              ({[PARSE_COOKIES]} ∪ hq_parsed q))
    end.

Definition init_param (q : httprequest) : outcome httprequest :=
  q ← init_query_param q; q ← init_body_param q; init_cookies q.
Definition get_param (key : list byte) (q : httprequest) : outcome (list byte) :=
  q ← init_query_param q; q ← init_body_param q; Ok (default [] (hq_params q !! key)).
Definition get_cookie (key : list byte) (q : httprequest) : outcome (list byte) :=
  q ← init_cookies q; Ok (default [] (hq_cookies q !! key)).

(** ** Printing *)

Definition crlf : list byte := [x0d; x0a].

Definition show_version (h : httpprotocol) : outcome (list byte) :=
  match hp_version h with
  | Some v => Ok (http_version_to_string v)
  | None => Fault (UB "indeterminate value")
  end.

(** The lines of the headers; [order] is the order in which the unordered map
    runs through its entries. *)
Definition dump_headers (order : list (list byte * list byte)) (h : httpprotocol) : list byte :=
  (if hp_is_websocket h then []
   else str "connection: " ++ str (if hp_is_keepalive h then "keep-alive" else "close") ++ crlf) ++
  (order ≫= fun '(key, value) =>
     if negb (hp_is_websocket h) && strcasecmp_eq key (str "connection") then []
     else key ++ str ": " ++ value ++ crlf).

Definition httprequest_dump (order : list (list byte * list byte)) (q : httprequest) : outcome (list byte) :=
  let h := hq_http q in
  version ← show_version h;
  method ← match hq_method q with
           | Some m => Ok (http_method_to_string m)
           | None => Fault (UB "indeterminate value")
           end;
  Ok (method ++ str " " ++ hq_path q
      ++ (if bool_decide (hq_query q = []) then [] else str "?") ++ hq_query q
      ++ (if bool_decide (hq_fragment q = []) then [] else str "#") ++ hq_fragment q
      ++ str " HTTP/" ++ version ++ crlf
      ++ dump_headers order h
      ++ (if bool_decide (hp_body h = []) then crlf
          else str "content-length: " ++ to_string (len (hp_body h)) ++ crlf ++ crlf)).

Definition httpresponse_dump (order : list (list byte * list byte)) (r : httpresponse) : outcome (list byte) :=
  let h := hr_http r in
  version ← show_version h;
  Ok (str "HTTP/" ++ version ++ str " " ++ to_string (hr_status r) ++ str " "
      ++ http_status_to_string (hr_status r) ++ crlf
      ++ dump_headers order h
      ++ (hr_cookies r ≫= fun cookie => str "set-cookie: " ++ cookie ++ crlf)
      ++ (if bool_decide (hp_body h = []) then crlf
          else str "content-length: " ++ to_string (len (hp_body h)) ++ crlf ++ crlf ++ hp_body h)).

(** [encode]: the text as a C string; what it throws is swallowed. *)
Definition http_pack (text : outcome (list byte)) : OS unit :=
  t ← lift text; on_data (fun d => octets_append_cstr d (c_string t)).
Definition httprequest_encode order (q : httprequest) : OS unit :=
  try_catch (http_pack (httprequest_dump order q)) (fun _ => mret tt).
Definition httpresponse_encode order (r : httpresponse) : OS unit :=
  try_catch (http_pack (httpresponse_dump order r)) (fun _ => mret tt).

Definition set_redirect (url : list byte) (r : httpresponse) : outcome httpresponse :=
  h ← set_header (str "location") url (hr_http r); Ok (mk_response h 302 (hr_cookies r) (hr_reason r)).

(** [set_cookie]; [expires] is the formatted time, if any. *)
Definition set_cookie (key value : list byte) (expires : option (list byte)) (path domain : list byte)
    (secure httponly : bool) (r : httpresponse) : httpresponse :=
  mk_response (hr_http r) (hr_status r) (hr_cookies r ++
    [key ++ str "=" ++ value
     ++ (match expires with Some e => str ";expires=" ++ e ++ str " GMT" | None => [] end)
     ++ (if bool_decide (domain = []) then [] else str ";domain=" ++ domain)
     ++ (if bool_decide (path = []) then [] else str ";path=" ++ path)
     ++ (if secure then str ";secure" else []) ++ (if httponly then str ";httponly" else [])])
    (hr_reason r).

(** ** The decoder *)

Inductive http_message :=
| http_request (q : httprequest)
| http_response (r : httpresponse).

(** An [httpsession]: the session and the message that is not complete yet. *)
Record httpsession := mk_httpsession { hs_session : session; hs_unfinished : option http_message }.

Definition message_http (m : http_message) : httpprotocol :=
  match m with http_request q => hq_http q | http_response r => hr_http r end.
Definition message_unpack (fuel : nat) (m : http_message) (os : octetsstream)
    : octetsstream * http_message * outcome unit :=
  match m with
  | http_request q => let '((os, q), r) := httprequest_unpack fuel (os, q) in (os, http_request q, r)
  | http_response p => let '((os, p), r) := httpresponse_unpack fuel (os, p) in (os, http_response p, r)
  end.

(** A fresh message, of the kind the first line tells. *)
Definition fresh_message : OS http_message :=
  pop_transaction BEGIN;;
  line ← getline x0a;
  let temp := if startswith (default [] line) (str "HTTP/") then http_response httpresponse_new
              else http_request httprequest_new in
  pop_transaction ROLLBACK;;
  mret temp.

(** [decode].  After an exception the message in progress stays the session's
    (one just made is lost). *)
Definition http_decode (fuel : nat) (os : octetsstream) (ses : httpsession)
    : octetsstream * httpsession * outcome (option http_message) :=
  let close_with os u :=
    let r := (pop_transaction ROLLBACK;; mret None) os in
    (r.1, mk_httpsession (session_set_close SESSION_CLOSE_REASON_EXCEPTION (hs_session ses)) u, r.2) in
  if negb (os_data_ready 1 os) then (os, ses, Ok None)
  else
    let '(os, temp) :=
      match hs_unfinished ses with
      | Some m => (os, Ok m)
      | None => fresh_message os
      end in
    match temp with
    | Throw _ => close_with os (hs_unfinished ses)
    | Fault f => (os, ses, Fault f)
    | Ok m =>
        match message_unpack fuel m os with
        | (os, m', Ok _) =>
            if decide (hp_parse_state (message_http m') = HTTP_PARSE_STATE_COMPLETE)
            then (os, mk_httpsession (hs_session ses) None, Ok (Some m'))
            else (os, mk_httpsession (hs_session ses) (Some m'), Ok None)
        | (os, m', Throw _) =>
            close_with os (match hs_unfinished ses with Some _ => Some m' | None => None end)
        | (os, m', Fault f) => (os, ses, Fault f)
        end
    end.

(** ** Lines of the stream *)

(** An initialised stream whose rollback position is inside. *)
Definition os_ok (s : octetsstream) : Prop :=
  exists bs, os_repr s bs /\ 0 <= os_transpos s <= len bs.

Lemma char_at_in s bs p b :
  os_repr s bs -> 0 <= p -> bs !! Z.to_nat p = Some b -> char_at p s = (s, Ok b).
Proof.
  intros Hr Hp Hb. unfold char_at. rewrite M_get. pose proof (lookup_lt_Some _ _ _ Hb) as Hlt.
  pose proof Hr as [Hd _]. pose proof (repr_len _ _ Hd) as Hl.
  destruct (repr_split _ _ Hd) as (tl & Hbuf & _). unfold octets_index.
  destruct (Z.geb_spec p (o_len (os_data s))); [unfold len in Hl; lia|].
  rewrite Hbuf. rewrite <- (take_drop_middle bs (Z.to_nat p) b Hb), fmap_app, fmap_cons, <- app_assoc.
  assert (p = len (Some <$> take (Z.to_nat p) bs)) as Hpl by (unfold len; rewrite length_fmap, length_take; lia).
  rewrite mem_read_ok.
  - pose proof (slice_app_mid (Some <$> take (Z.to_nat p) bs) [Some b]
      ((Some <$> drop (S (Z.to_nat p)) bs) ++ tl)) as E. rewrite <- Hpl in E.
    change (len [Some b]) with 1 in E. cbn [app] in E |- *. rewrite E. done.
  - lia.
  - lia.
  - rewrite len_app, <- Hpl. cbn [app]. rewrite len_cons.
    pose proof (len_nonneg ((Some <$> drop (S (Z.to_nat p)) bs) ++ tl)). lia.
Qed.

Lemma char_at_end s bs p :
  os_repr s bs -> len bs <= p ->
  char_at p s = (s, Throw (ExnOutOfRange "octets::operator[]: index out of range")).
Proof.
  intros [Hd _] Hp. unfold char_at. rewrite M_get. unfold octets_index. pose proof (repr_len _ _ Hd) as Hl.
  destruct (Z.geb_spec p (o_len (os_data s))); [done|lia].
Qed.

Lemma getline_scan_step d fuel p n s bs :
  os_repr s bs -> 0 <= p ->
  getline_scan (S fuel) d p n s =
    match bs !! Z.to_nat p with
    | Some b => if bool_decide (b = d) then (s, Ok (p, n)) else getline_scan fuel d (p + 1) (n + 1) s
    | None => (s, Ok (p, n))
    end.
Proof.
  intros Hr Hp. cbn [getline_scan]. rewrite M_get. rewrite (os_size_repr _ _ Hr).
  destruct (bs !! Z.to_nat p) as [b|] eqn:Hb.
  - pose proof (lookup_lt_Some _ _ _ Hb). destruct (Z.ltb_spec p (len bs)); [|unfold len in *; lia].
    pose proof (char_at_in _ _ _ _ Hr Hp Hb) as E. unfold char_at in E. rewrite M_get in E.
    mrun. destruct (octets_index (os_data s) p) as [[c|]| |]; cbn in E |- *; simplify_eq.
    destruct (decide (b = d)) as [->|]; [by rewrite !bool_decide_eq_true_2|].
    rewrite !bool_decide_eq_false_2 by congruence. done.
  - apply lookup_ge_None in Hb. destruct (Z.ltb_spec p (len bs)); [unfold len in *; lia|]. done.
Qed.

Lemma getline_scan_ok d fuel p n s bs :
  os_repr s bs -> 0 <= p <= len bs -> len bs - p < Z.of_nat fuel ->
  exists k, 0 <= k /\ p + k <= len bs /\ getline_scan fuel d p n s = (s, Ok (p + k, n + k)) /\
    (p + k < len bs -> bs !! Z.to_nat (p + k) = Some d).
Proof.
  intros Hr. revert p n. induction fuel as [|fuel IH]; intros p n Hp Hf; [lia|].
  rewrite (getline_scan_step _ _ _ _ _ _ Hr) by lia.
  destruct (bs !! Z.to_nat p) as [b|] eqn:Hb.
  - pose proof (lookup_lt_Some _ _ _ Hb). case_bool_decide as Hd.
    + exists 0. rewrite !Z.add_0_r. subst. repeat split; try done; lia.
    + destruct (IH (p + 1) (n + 1)) as (k & Hk & Hk2 & E & Hx); [unfold len in *; lia|lia|].
      exists (1 + k). rewrite E. rewrite !Z.add_assoc. repeat split; try done; lia.
  - apply lookup_ge_None in Hb. exists 0. rewrite !Z.add_0_r.
    split; [lia|]. split; [lia|]. split; [done|]. unfold len. lia.
Qed.

(** What [getline] returns, if it returns: copies of one character. *)
Lemma getline_outcome d s bs :
  os_repr s bs ->
  (exists s' e, getline d s = (s', Throw e) /\ os_ok s') \/
  (exists s' n c, getline d s = (s', Ok (Some (replicate n c))) /\ os_ok s').
Proof.
  intros Hr. pose proof Hr as [Hd Hp].
  set (s1 := mk_os (os_data s) (os_pos s) (os_pos s)).
  assert (os_repr s1 bs) as Hr1 by (by split). pose proof (os_repr_max _ _ Hr) as Hmax.
  destruct (getline_scan_ok d (S (Z.to_nat (os_size s1))) (os_pos s1) 0 s1 bs Hr1) as (k & Hk & Hk2 & E & Hx);
    [done|rewrite (os_size_repr _ _ Hr1); cbn in *; unfold len in *; lia|].
  change (os_pos s1) with (os_pos s) in *. rewrite Z.add_0_l in E.
  unfold getline. rewrite (M_bind_ok _ _ s s1 tt) by done. rewrite M_get.
  change (os_pos s1) with (os_pos s). rewrite (M_bind_ok _ _ _ _ _ E).
  destruct (decide (os_pos s + k < len bs)) as [Hlt|Hge].
  - rewrite (M_bind_ok _ _ _ _ _ (char_at_in _ _ (os_pos s + k) d Hr1 ltac:(lia) (Hx Hlt))).
    rewrite bool_decide_eq_true_2 by done.
    set (s2 := os_advance k s1). assert (os_pos s2 = os_pos s + k) as Hp2.
    { cbn. apply wrapU_small. unfold inU, MAX_OCTETS in *. word_lia. }
    assert (os_repr s2 bs) as Hr2 by (split; [done|rewrite Hp2; lia]).
    rewrite (M_bind_ok _ _ _ s2 tt) by done.
    assert (u64 (os_pos s + k - k) = os_pos s) as ->.
    { replace (os_pos s + k - k) with (os_pos s) by lia. apply wrapU_small.
      unfold inU, MAX_OCTETS in *. word_lia. }
    destruct (lookup_lt_is_Some_2 bs (Z.to_nat (os_pos s))) as [c Hc]; [unfold len in *; lia|].
    rewrite (M_bind_ok _ _ _ _ _ (char_at_in _ _ (os_pos s) c Hr2 ltac:(lia) Hc)).
    unfold string_of_char, string_fill. destruct (_ >? _).
    + left. exists s2. eexists. split; [done|]. exists bs. split; [done|]. cbn. lia.
    + right. destruct (try_shrink_ok s2 bs Hr2) as (s3 & bs3 & E3 & Hr3 & _).
      exists s3. eexists _, _. unfold lift. unfold mbind at 1, M_bind at 1.
      rewrite (M_bind_ok _ _ _ _ _ E3). split; [done|]. exists bs3. split; [done|].
      unfold try_shrink in E3. destruct (_ >? _); [|injection E3 as <-].
      * destruct (octets_erase _ _ _); simplify_eq. cbn. split; [lia|apply len_nonneg].
      * destruct Hr3 as [Hd3 _]. pose proof (repr_len _ _ Hd3) as Hl3.
        pose proof (repr_len _ _ Hd) as Hl. cbn in *. lia.
  - left. exists s1. eexists. unfold mbind at 1, M_bind at 1.
    rewrite (char_at_end s1 bs) by (done || lia). split; [done|]. exists bs. split; [done|]. cbn. lia.
Qed.

Lemma os_ok_begin s : os_ok s -> os_ok (pop_transaction BEGIN s).1.
Proof. intros (bs & [Hd Hp] & _). exists bs. split; [by split|done]. Qed.

Lemma os_ok_rollback s : os_ok s -> exists s', pop_transaction ROLLBACK s = (s', Ok tt) /\ os_ok s'.
Proof.
  intros (bs & [Hd Hp] & Ht). unfold pop_transaction. rewrite M_get.
  rewrite (os_size_repr s bs) by (by split). destruct (Z.gtb_spec (os_transpos s) (len bs)); [lia|].
  eexists. split; [done|]. exists bs. split; [by split|done].
Qed.

(** ** No line is a request line *)

Lemma stringified_replicate d n c :
  (match str d with c0 :: _ => c0 <> x22 | [] => False end) -> replicate n c <> stringified d.
Proof.
  unfold stringified. intros Hd E. destruct (str d) as [|c0 l]; [done|]. cbn in E.
  destruct n as [|[|n]]; cbn in E; simplify_eq.
Qed.

Lemma of_name_replicate {K} (t : list (K * string)) other n c :
  Forall (fun kd => match str kd.2 with c0 :: _ => c0 <> x22 | [] => False end) t ->
  of_name (replicate n c) t other = other.
Proof.
  induction 1 as [|[k d] t Hd _ IH]; [done|]. cbn [of_name].
  destruct (decide _) as [E|_]; [by apply stringified_replicate in E|done].
Qed.

Lemma method_replicate n c : string_to_http_method (replicate n c) = HTTP_METHOD_UNKNOWN.
Proof. apply of_name_replicate. by repeat constructor. Qed.

Lemma slice_replicate {A} n (c : A) off k : exists m, slice (replicate n c) off k = replicate m c.
Proof. unfold slice. rewrite drop_replicate, take_replicate. eauto. Qed.

Lemma startswith_replicate n c : startswith (replicate n c) (str "HTTP/") = false.
Proof.
  unfold startswith. apply andb_false_iff. right. apply bool_decide_eq_false_2.
  destruct (slice_replicate n c 0 (len (str "HTTP/"))) as [m ->]. intros E.
  destruct m as [|[|m]]; cbn in E; simplify_eq.
Qed.

Lemma request_line_throws s q :
  os_ok s -> exists s' q' e, request_line (s, q) = ((s', q'), Throw e) /\ os_ok s'.
Proof.
  intros (bs & Hr & _). unfold request_line, on_stream. mrun.
  destruct (getline_outcome x0a s bs Hr) as [(s' & e & E & Ho)|(s' & n & c & E & Ho)]; rewrite E.
  - by eexists _, _, _.
  - destruct n as [|n]; [by eexists _, _, _|].
    destruct (replicate (S n) c) as [|c' l] eqn:El; [done|]. rewrite <- El.
    unfold substr at 1. destruct (_ >? _); [by eexists _, _, _|].
    destruct (slice_replicate (S n) c 0 (Z.min (find_char x20 (replicate (S n) c) 0)
      (len (replicate (S n) c) - 0))) as [m ->].
    unfold on_message at 1. mrun. rewrite method_replicate. by eexists _, _, _.
Qed.

Lemma fresh_message_outcome s :
  os_ok s ->
  (exists s' e, fresh_message s = (s', Throw e) /\ os_ok s') \/
  (exists s', fresh_message s = (s', Ok (http_request httprequest_new)) /\ os_ok s').
Proof.
  intros Hs. apply os_ok_begin in Hs as (bs & Hr & _). unfold fresh_message.
  set (s1 := (pop_transaction BEGIN s).1) in *.
  rewrite (M_bind_ok _ _ s s1 tt) by done.
  destruct (getline_outcome x0a s1 bs Hr) as [(s' & e & E & Ho)|(s' & n & c & E & Ho)].
  - left. exists s', e. unfold mbind, M_bind. by rewrite E.
  - right. rewrite (M_bind_ok _ _ _ _ _ E). change (default [] (Some (replicate n c))) with (replicate n c).
    rewrite startswith_replicate.
    destruct (os_ok_rollback _ Ho) as (s2 & E2 & Ho2). rewrite (M_bind_ok _ _ _ _ _ E2). eauto.
Qed.

(** No message is ever decoded: whatever bytes arrive at a session without a
    message in progress, the decoder returns nothing and closes the session,
    because every line [getline] returns consists of copies of its first
    character (the constructor of a count and a character is chosen), and a
    missing line end is an exception. *)
Theorem http_never_decodes fuel os bs ses :
  os_repr os bs -> os_pos os < len bs -> hs_unfinished ses = None ->
  exists os', http_decode fuel os ses =
    (os', mk_httpsession (session_set_close SESSION_CLOSE_REASON_EXCEPTION (hs_session ses)) None, Ok None) /\ os_ok os'.
Proof.
  intros Hr Hlt Hu. unfold http_decode. rewrite Hu.
  pose proof (os_repr_max _ _ Hr) as Hmax. pose proof Hr as [Hd Hp].
  assert (os_data_ready 1 os = true) as ->.
  { unfold os_data_ready. rewrite (os_size_repr _ _ Hr), wrapU_small by (unfold MAX_OCTETS in *; word_lia).
    apply Z.geb_le. lia. }
  cbn [negb].
  assert (forall s, os_ok s -> exists s', (pop_transaction ROLLBACK;; mret (None (A := http_message))) s = (s', Ok None) /\ os_ok s')
    as Hback.
  { intros s Hs. destruct (os_ok_rollback s Hs) as (s' & E & Ho). exists s'. by rewrite (M_bind_ok _ _ _ _ _ E). }
  assert (os_ok (mk_os (os_data os) (os_pos os) (os_pos os))) as Hbegin by (exists bs; split; [by split|done]).
  assert ((exists s' e, fresh_message os = (s', Throw e) /\ os_ok s') \/
    (exists s', fresh_message os = (s', Ok (http_request httprequest_new)) /\ os_ok s')) as Hf.
  { exact (fresh_message_outcome _ Hbegin). }
  destruct Hf as [(s' & e & -> & Ho)|(s' & -> & Ho)].
  - destruct (Hback s' Ho) as (s2 & -> & Ho2). by eexists.
  - set (q0 := hq_with_http (hp_with_state HTTP_PARSE_STATE_FIRST_LINE httpprotocol_new) httprequest_new).
    destruct (request_line_throws s' q0 Ho) as (s2 & q2 & e & E & Ho2).
    assert (message_unpack fuel (http_request httprequest_new) s' = (s2, http_request q2, Throw e)) as ->.
    { unfold message_unpack, httprequest_unpack, on_message. mrun.
      cbn [snd hq_http httprequest_new httpprotocol_new first_line_due hp_parse_state].
      fold httpprotocol_new. fold httprequest_new. fold q0. by rewrite E. }
    destruct (Hback s2 Ho2) as (s3 & -> & Ho3). by eexists.
Qed.

(** A request as a browser sends it. *)
Definition demo_request_bytes : list byte :=
  str "GET / HTTP/1.1" ++ crlf ++ str "Content-Length: 0" ++ crlf ++ crlf.

Definition demo_stream : octetsstream :=
  mk_os (mk_octets ((Some <$> demo_request_bytes) ++ []) (len demo_request_bytes) (len demo_request_bytes)) 0 0.

Lemma http_never_decodes_witness :
  os_repr demo_stream demo_request_bytes /\
  exists os', http_decode 10 demo_stream (mk_httpsession demo_session None) =
    (os', mk_httpsession (session_set_close SESSION_CLOSE_REASON_EXCEPTION demo_session) None, Ok None) /\ os_ok os'.
Proof.
  assert (os_repr demo_stream demo_request_bytes) as Hr.
  { split; [|split; [done|by vm_compute]]. apply cells_repr, cells_join; [done|done|by vm_compute]. }
  split; [exact Hr|]. apply (http_never_decodes 10 demo_stream demo_request_bytes); done.
Defined.

(** The other end of the parser: a message without a [content-length] is never
    complete, its body being due the loop turns without reading. *)
Lemma http_body_hangs fuel line os h :
  hp_parse_state h = HTTP_PARSE_STATE_BODY -> get_header (str "content-length") h = [] ->
  http_unpack fuel line (os, h) = ((os, h), Fault OutOfFuel).
Proof.
  intros Hs Hc. revert line. induction fuel as [|fuel IH]; intros line; [done|].
  cbn [http_unpack]. unfold get_http at 1. mrun. unfold reads_lines. cbn [snd]. rewrite Hs.
  unfold unpack_turn, get_http. mrun. cbn [snd]. rewrite Hs. unfold unpack_body, get_http. mrun.
  cbn [snd]. rewrite Hc. apply IH.
Qed.
