(* ===== verification/Buffers.v ===== *)
(** Fixed-capacity buffers (utility/ring_buffer.h, utility/fixed_buffer.h) and the
    list of blocks (utility/block_list.h). *)

From S2P Require Import Prelude.

(** ** The ring buffer *)

Section RingBuffer.
Context (N : Z) (HN : 0 < N).

Record ring_buffer := mk_ring {
  rb_write_cursor : Z;
  rb_read_cursor : Z;
  rb_size : Z;
  rb_data : list byte;
}.
Definition ring_new : ring_buffer := mk_ring 0 0 0 (replicate (Z.to_nat N) x00).
Definition ring_reset (r : ring_buffer) : ring_buffer := mk_ring 0 0 0 (rb_data r).
Definition ring_free_space (r : ring_buffer) : Z := u64 (N - rb_size r).
Definition ring_full (r : ring_buffer) : bool := rb_size r =? N.
Definition ring_empty (r : ring_buffer) : bool := rb_size r =? 0.

(** The loop of [write]: [cursor] and [data] change, at most to the end of the
    array at a time. *)
Fixpoint ring_write_loop (fuel : nat) (src : list byte) (length written cursor : Z) (data : list byte)
    : outcome (Z * Z * list byte) :=
  match fuel with
  | O => Fault OutOfFuel
  | S fuel =>
      if written <? length then
        let write_length := Z.min (u64 (N - cursor)) (u64 (length - written)) in
        chunk ← mem_read src written write_length;
        data ← mem_write data cursor chunk;
        ring_write_loop fuel src length (u64 (written + write_length))
          (u64 (cursor + write_length) mod N) data
      else Ok (written, cursor, data)
  end.
Definition ring_write (src : list byte) (length : Z) (r : ring_buffer) : outcome (ring_buffer * Z) :=
  let length := Z.min (ring_free_space r) length in
  w ← ring_write_loop (S (Z.to_nat length)) src length 0 (rb_write_cursor r) (rb_data r);
  let '(written, cursor, data) := w in
  Ok (mk_ring cursor (rb_read_cursor r) (u64 (rb_size r + written)) data, written).

(** The loop of [read]; [dest] is what was copied out. *)
Fixpoint ring_read_loop (fuel : nat) (length read cursor : Z) (data dest : list byte)
    : outcome (Z * Z * list byte) :=
  match fuel with
  | O => Fault OutOfFuel
  | S fuel =>
      if read <? length then
        let read_length := Z.min (u64 (N - cursor)) (u64 (length - read)) in
        chunk ← mem_read data cursor read_length;
        ring_read_loop fuel length (u64 (read + read_length)) (u64 (cursor + read_length) mod N) data
          (dest ++ chunk)
      else Ok (read, cursor, dest)
  end.
Definition ring_read (length : Z) (r : ring_buffer) : outcome (ring_buffer * list byte) :=
  let length := Z.min (rb_size r) length in
  w ← ring_read_loop (S (Z.to_nat length)) length 0 (rb_read_cursor r) (rb_data r) [];
  let '(read, cursor, dest) := w in
  Ok (mk_ring (rb_write_cursor r) cursor (u64 (rb_size r - read)) (rb_data r), dest).

(** *** A queue of bytes *)

Record ring_repr (r : ring_buffer) (q : list byte) : Prop := {
  rr_data : len (rb_data r) = N;
  rr_read : 0 <= rb_read_cursor r < N;
  rr_size : rb_size r = len q;
  rr_fits : len q <= N;
  rr_write : rb_write_cursor r = (rb_read_cursor r + len q) mod N;
  rr_bytes : forall i, 0 <= i < len q ->
    rb_data r !! Z.to_nat ((rb_read_cursor r + i) mod N) = q !! Z.to_nat i;
}.

Lemma mod_wrap a : 0 <= a < 2 * N -> a mod N = if a <? N then a else a - N.
Proof.
  intros Ha. destruct (Z.ltb_spec a N); [apply Z.mod_small; lia|].
  symmetry. apply (Z.mod_unique_pos a N 1); lia.
Qed.

Lemma lookup_blit_in (data : list byte) off src i :
  0 <= off -> off + len src <= len data -> off <= i < off + len src ->
  blit data off src !! Z.to_nat i = src !! Z.to_nat (i - off).
Proof.
  intros Ho Hl Hi. unfold blit, len in *. rewrite lookup_app_r by (rewrite length_take; lia).
  rewrite length_take, lookup_app_l by lia. f_equal. lia.
Qed.
Lemma lookup_blit_out (data : list byte) off src i :
  0 <= off -> 0 <= i -> off + len src <= len data -> i < off \/ off + len src <= i ->
  blit data off src !! Z.to_nat i = data !! Z.to_nat i.
Proof.
  intros Ho Hi Hl [Hlt|Hge]; unfold blit, len in *.
  - rewrite lookup_app_l by (rewrite length_take; lia). apply lookup_take_lt. lia.
  - rewrite lookup_app_r by (rewrite length_take; lia).
    rewrite lookup_app_r by (rewrite length_take; lia). rewrite lookup_drop, length_take. f_equal. lia.
Qed.

(** A piece written behind the end of the queue. *)
Lemma ring_write_piece r q chunk :
  ring_repr r q -> len q + len chunk <= N -> rb_write_cursor r + len chunk <= N ->
  ring_repr (mk_ring ((rb_write_cursor r + len chunk) mod N) (rb_read_cursor r) (len q + len chunk)
               (blit (rb_data r) (rb_write_cursor r) chunk)) (q ++ chunk).
Proof.
  intros [Hd Hr Hs Hf Hw Hb] Hq Hc. pose proof (len_nonneg q) as H0. pose proof (len_nonneg chunk) as H1.
  assert (0 <= rb_write_cursor r < N) as Hwr by (rewrite Hw; apply Z.mod_pos_bound; lia).
  pose proof (mod_wrap (rb_read_cursor r + len q) ltac:(lia)) as Hm.
  split; cbn; rewrite ?len_app; try lia.
  - rewrite len_blit by lia. done.
  - rewrite Hw, Zplus_mod_idemp_l. f_equal. lia.
  - intros i Hi. pose proof (mod_wrap (rb_read_cursor r + i) ltac:(lia)) as Hmi.
    destruct (Z.ltb_spec (rb_read_cursor r + len q) N), (Z.ltb_spec (rb_read_cursor r + i) N);
    (destruct (decide (i < len q)) as [Hlt|Hge];
      [rewrite lookup_blit_out, Hb by lia; symmetry; apply lookup_app_l; unfold len in *; lia
      |rewrite lookup_blit_in by lia; rewrite lookup_app_r by (unfold len in *; lia);
       f_equal; unfold len in *; lia]).
Qed.

Lemma slice_join {A} (l : list A) off k n :
  0 <= off -> 0 <= k <= n -> slice l off n = slice l off k ++ slice l (off + k) (n - k).
Proof.
  intros Ho Hk. unfold slice. replace (Z.to_nat (off + k)) with (Z.to_nat off + Z.to_nat k)%nat by lia.
  rewrite <- drop_drop. set (l' := drop (Z.to_nat off) l).
  replace (Z.to_nat n) with (Z.to_nat k + Z.to_nat (n - k))%nat by lia. by rewrite take_take_drop.
Qed.

Lemma ring_write_loop_ok fuel src length written r q :
  N <= PTRDIFF_MAX -> ring_repr r q -> 0 <= written <= length -> length <= len src -> length <= PTRDIFF_MAX ->
  len q + (length - written) <= N -> length - written < Z.of_nat fuel ->
  exists wc data,
    ring_write_loop fuel src length written (rb_write_cursor r) (rb_data r) = Ok (length, wc, data) /\
    ring_repr (mk_ring wc (rb_read_cursor r) (len q + (length - written)) data)
      (q ++ slice src written (length - written)).
Proof.
  intros HM. revert written r q. induction fuel as [|fuel IH]; intros written r q Hr Hw Hl HL Hq Hf; [lia|].
  cbn [ring_write_loop]. pose proof (len_nonneg q) as H0. destruct (Z.ltb_spec written length).
  - assert (0 <= rb_write_cursor r < N) as Hwr by (rewrite (rr_write _ _ Hr); apply Z.mod_pos_bound; lia).
    rewrite (wrapU_small 64 (N - _)), (wrapU_small 64 (length - written)) by word_lia.
    set (k := Z.min (N - rb_write_cursor r) (length - written)).
    rewrite mem_read_ok by lia. cbn [mbind outcome_bind].
    assert (len (slice src written k) = k) as Hk by (apply len_slice; lia).
    rewrite mem_write_ok by (rewrite ?Hk, ?(rr_data _ _ Hr); lia). cbn [mbind outcome_bind].
    rewrite (wrapU_small 64 (written + k)), (wrapU_small 64 (rb_write_cursor r + k)) by word_lia.
    pose proof (ring_write_piece r q (slice src written k) Hr ltac:(lia) ltac:(lia)) as Hr'.
    rewrite Hk in Hr'. pose proof Hr' as Hr2.
    apply (IH (written + k)) in Hr' as (wc & data & E & Hrr); rewrite ?len_app, ?Hk; [|lia..].
    cbn [rb_write_cursor rb_data rb_read_cursor] in *. exists wc, data. split; [exact E|].
    rewrite len_app, Hk, <- app_assoc in Hrr.
    rewrite (slice_join src written k (length - written)) by lia.
    replace (length - written - k) with (length - (written + k)) by lia.
    replace (len q + (length - written)) with (len q + k + (length - (written + k))) by lia. done.
  - assert (written = length) as -> by lia. eexists _, _. split; [done|].
    rewrite Z.sub_diag, Z.add_0_r. unfold slice. cbn. rewrite app_nil_r.
    destruct Hr. split; done.
Qed.

(** A piece read from the front of the queue. *)
Lemma ring_read_piece r q k :
  ring_repr r q -> 0 <= k <= len q -> rb_read_cursor r + k <= N ->
  slice (rb_data r) (rb_read_cursor r) k = take (Z.to_nat k) q /\
  ring_repr (mk_ring (rb_write_cursor r) ((rb_read_cursor r + k) mod N) (len q - k) (rb_data r))
    (drop (Z.to_nat k) q).
Proof.
  intros [Hd Hr Hs Hf Hw Hb] Hk Hc.
  assert (len (drop (Z.to_nat k) q) = len q - k) as Hl by (unfold len in *; rewrite length_drop; lia).
  split.
  - apply list_eq. intros i. unfold slice. destruct (decide (Z.of_nat i < k)) as [Hi|Hi].
    + rewrite !lookup_take_lt, lookup_drop by lia. specialize (Hb (Z.of_nat i) ltac:(lia)).
      rewrite Z.mod_small, Nat2Z.id in Hb by lia. rewrite <- Hb. f_equal. lia.
    + rewrite !lookup_take_ge by lia. done.
  - split; cbn; rewrite ?Hl; try done; try lia.
    + apply Z.mod_pos_bound. lia.
    + rewrite Hw, Zplus_mod_idemp_l. f_equal. lia.
    + intros i Hi. rewrite Zplus_mod_idemp_l, lookup_drop. specialize (Hb (k + i) ltac:(lia)).
      rewrite Z.add_assoc in Hb. rewrite Hb. f_equal. lia.
Qed.

Lemma ring_read_loop_ok fuel length read r q dest :
  N <= PTRDIFF_MAX -> ring_repr r q -> 0 <= read <= length -> length <= PTRDIFF_MAX -> length - read <= len q ->
  length - read < Z.of_nat fuel ->
  exists rc,
    ring_read_loop fuel length read (rb_read_cursor r) (rb_data r) dest =
      Ok (length, rc, dest ++ take (Z.to_nat (length - read)) q) /\
    ring_repr (mk_ring (rb_write_cursor r) rc (len q - (length - read)) (rb_data r))
      (drop (Z.to_nat (length - read)) q).
Proof.
  intros HM. revert read r q dest. induction fuel as [|fuel IH]; intros read r q dest Hr Hd HL Hl Hf; [lia|].
  cbn [ring_read_loop]. pose proof (rr_fits _ _ Hr) as Hfit. destruct (Z.ltb_spec read length).
  - pose proof (rr_read _ _ Hr) as Hrc. rewrite (wrapU_small 64 (N - _)), (wrapU_small 64 (length - read)) by word_lia.
    set (k := Z.min (N - rb_read_cursor r) (length - read)).
    rewrite mem_read_ok by (rewrite ?(rr_data _ _ Hr); lia). cbn [mbind outcome_bind].
    rewrite (wrapU_small 64 (read + k)), (wrapU_small 64 (rb_read_cursor r + k)) by word_lia.
    destruct (ring_read_piece r q k Hr ltac:(lia) ltac:(lia)) as [-> Hr'].
    assert (len (drop (Z.to_nat k) q) = len q - k) as Hlk by (unfold len in *; rewrite length_drop; lia).
    destruct (IH (read + k) _ _ (dest ++ take (Z.to_nat k) q) Hr') as (rc & E & Hrr); [lia..|].
    cbn [rb_write_cursor rb_data rb_read_cursor] in *. exists rc. split.
    + rewrite E. f_equal. f_equal. rewrite <- app_assoc. f_equal.
      replace (Z.to_nat (length - read)) with (Z.to_nat k + Z.to_nat (length - (read + k)))%nat by lia.
      by rewrite take_take_drop.
    + rewrite Hlk, drop_drop in Hrr.
      replace (len q - (length - read)) with (len q - k - (length - (read + k))) by lia.
      replace (Z.to_nat (length - read)) with (Z.to_nat k + Z.to_nat (length - (read + k)))%nat by lia. done.
  - assert (read = length) as -> by lia. exists (rb_read_cursor r). rewrite Z.sub_diag, Z.sub_0_r.
    cbn [Z.to_nat take drop]. rewrite app_nil_r. split; [done|]. destruct Hr. by split.
Qed.

(** The operations on the queue. *)
Definition queue_write (src : list byte) (q : list byte) : list byte * Z :=
  let n := Z.min (N - len q) (len src) in (q ++ take (Z.to_nat n) src, n).
Definition queue_read (n : Z) (q : list byte) : list byte * list byte :=
  (drop (Z.to_nat n) q, take (Z.to_nat n) q).

Lemma ring_write_ok src r q :
  N <= PTRDIFF_MAX -> ring_repr r q -> len src <= PTRDIFF_MAX ->
  exists r', ring_write src (len src) r = Ok (r', (queue_write src q).2) /\
    ring_repr r' (queue_write src q).1.
Proof.
  intros HM Hr Hs. pose proof (rr_size _ _ Hr) as Hsz. pose proof (rr_fits _ _ Hr) as Hf.
  pose proof (len_nonneg q). pose proof (len_nonneg src). unfold ring_write, ring_free_space, queue_write.
  rewrite Hsz, (wrapU_small 64 (N - len q)) by word_lia. set (n := Z.min (N - len q) (len src)).
  destruct (ring_write_loop_ok (S (Z.to_nat n)) src n 0 r q) as (wc & data & E & Hr'); try lia; [done..|].
  rewrite E. cbn [mbind outcome_bind]. rewrite wrapU_small by word_lia.
  rewrite Z.sub_0_r in Hr'. eexists. split; [done|]. unfold slice in Hr'. by rewrite drop_0 in Hr'.
Qed.

Lemma ring_read_ok n r q :
  N <= PTRDIFF_MAX -> ring_repr r q -> 0 <= n ->
  exists r', ring_read n r = Ok (r', (queue_read n q).2) /\ ring_repr r' (queue_read n q).1.
Proof.
  intros HM Hr Hn. pose proof (rr_size _ _ Hr) as Hsz. pose proof (rr_fits _ _ Hr) as Hf.
  pose proof (len_nonneg q). unfold ring_read, queue_read. rewrite Hsz. set (k := Z.min (len q) n).
  destruct (ring_read_loop_ok (S (Z.to_nat k)) k 0 r q []) as (rc & E & Hr'); try lia; [done..|].
  rewrite E. cbn [mbind outcome_bind]. rewrite wrapU_small by word_lia.
  rewrite Z.sub_0_r in Hr' |- *. cbn [app snd fst].
  assert (take (Z.to_nat k) q = take (Z.to_nat n) q /\ drop (Z.to_nat k) q = drop (Z.to_nat n) q) as [<- <-].
  { destruct (decide (n <= len q)); [by replace k with n by lia|].
    unfold len in *. rewrite !take_ge, !drop_ge by lia. done. }
  eauto.
Qed.

Lemma ring_new_repr : ring_repr ring_new [].
Proof.
  split; unfold ring_new; cbn [rb_write_cursor rb_read_cursor rb_size rb_data]; rewrite ?len_nil.
  - rewrite len_replicate. lia.
  - lia.
  - done.
  - lia.
  - by rewrite Z.mod_0_l by lia.
  - intros i Hi. exfalso. change (len (@nil byte)) with 0 in Hi. lia.
Qed.

(** Scripts of writes and reads; the answers are the counts and the bytes. *)
Inductive ring_op := RingWrite (src : list byte) | RingRead (n : Z).
Fixpoint ring_run (ops : list ring_op) (r : ring_buffer) : outcome (ring_buffer * list (Z + list byte)) :=
  match ops with
  | [] => Ok (r, [])
  | RingWrite src :: ops =>
      w ← ring_write src (len src) r; rest ← ring_run ops w.1; Ok (rest.1, inl w.2 :: rest.2)
  | RingRead n :: ops =>
      w ← ring_read n r; rest ← ring_run ops w.1; Ok (rest.1, inr w.2 :: rest.2)
  end.
Fixpoint queue_run (ops : list ring_op) (q : list byte) : list byte * list (Z + list byte) :=
  match ops with
  | [] => (q, [])
  | RingWrite src :: ops =>
      let w := queue_write src q in let rest := queue_run ops w.1 in (rest.1, inl w.2 :: rest.2)
  | RingRead n :: ops =>
      let w := queue_read n q in let rest := queue_run ops w.1 in (rest.1, inr w.2 :: rest.2)
  end.

Definition ring_op_ok (op : ring_op) : Prop :=
  match op with RingWrite src => len src <= PTRDIFF_MAX | RingRead n => 0 <= n end.

Lemma ring_run_ok ops r q :
  N <= PTRDIFF_MAX -> ring_repr r q -> Forall ring_op_ok ops ->
  exists r', ring_run ops r = Ok (r', (queue_run ops q).2) /\ ring_repr r' (queue_run ops q).1.
Proof.
  intros HM Hr Ho. revert r q Hr. induction Ho as [|[src|n] ops Hop _ IH]; intros r q Hr; cbn [ring_run queue_run].
  - by exists r.
  - destruct (ring_write_ok src r q HM Hr Hop) as (r1 & -> & Hr1). cbn [mbind outcome_bind fst snd].
    destruct (IH _ _ Hr1) as (r2 & -> & Hr2). cbn. eauto.
  - destruct (ring_read_ok n r q HM Hr Hop) as (r1 & -> & Hr1). cbn [mbind outcome_bind fst snd].
    destruct (IH _ _ Hr1) as (r2 & -> & Hr2). cbn. eauto.
Qed.
End RingBuffer.

(** C19 — The ring buffer of any positive size is a bounded queue of bytes: for
    every script of writes and reads the loops end inside the array, and counts
    and bytes are those of the queue, which takes what fits and gives back the
    oldest bytes in order. *)
Theorem ring_buffer_fifo N ops :
  0 < N <= PTRDIFF_MAX -> Forall ring_op_ok ops ->
  exists r, ring_run N ops (ring_new N) = Ok (r, (queue_run N ops []).2) /\
    ring_repr N r (queue_run N ops []).1.
Proof.
  intros HN Ho. apply ring_run_ok; [lia|lia| |done]. apply ring_new_repr. lia.
Qed.

(** Four bytes of room; the second write wraps around and is cut. *)
Definition ring_demo : list ring_op :=
  [RingWrite [x61; x62; x63]; RingRead 2; RingWrite [x64; x65; x66; x67]; RingRead 9].
Lemma ring_buffer_fifo_witness :
  queue_run 4 ring_demo [] = ([], [inl 3; inr [x61; x62]; inl 3; inr [x63; x64; x65; x66]]) /\
  exists r, ring_run 4 ring_demo (ring_new 4) = Ok (r, (queue_run 4 ring_demo []).2) /\
    ring_repr 4 r (queue_run 4 ring_demo []).1.
Proof.
  split; [reflexivity|]. apply ring_buffer_fifo; [by vm_compute|].
  repeat constructor; by vm_compute.
Defined.

(** ** The fixed buffer *)

Section FixedBuffer.
Context (N : Z).

Record fixed_buffer := mk_fixed { fb_cursor : Z; fb_data : list byte }.
Definition fixed_new : fixed_buffer := mk_fixed 0 (replicate (Z.to_nat N) x00).
Definition fixed_reset (b : fixed_buffer) : fixed_buffer := mk_fixed 0 (fb_data b).
Definition fixed_free_space (b : fixed_buffer) : Z := u64 (N - fb_cursor b).

Definition fixed_write (src : list byte) (length : Z) (b : fixed_buffer) : outcome (fixed_buffer * Z) :=
  let free_space := fixed_free_space b in
  let write_length := if length >? free_space then free_space else length in
  if write_length >? 0 then
    chunk ← mem_read src 0 write_length;
    data ← mem_write (fb_data b) (fb_cursor b) chunk;
    Ok (mk_fixed (u64 (fb_cursor b + write_length)) data, write_length)
  else Ok (b, write_length).

(** [read] copies from the start and moves the cursor back. *)
Definition fixed_read (length : Z) (b : fixed_buffer) : outcome (fixed_buffer * list byte) :=
  let avail_length := fb_cursor b in
  let read_length := if length >? avail_length then avail_length else length in
  if read_length >? 0 then
    dest ← mem_read (fb_data b) 0 read_length;
    Ok (mk_fixed (u64 (fb_cursor b - read_length)) (fb_data b), dest)
  else Ok (b, []).

(** The buffer holds [q]. *)
Record fixed_repr (b : fixed_buffer) (q : list byte) : Prop := {
  fr_data : len (fb_data b) = N;
  fr_size : fb_cursor b = len q;
  fr_fits : len q <= N;
  fr_bytes : take (length q) (fb_data b) = q;
}.

Lemma fixed_write_ok src b q :
  N <= PTRDIFF_MAX -> fixed_repr b q ->
  let n := Z.min (N - len q) (len src) in
  exists b', fixed_write src (len src) b = Ok (b', n) /\ fixed_repr b' (q ++ take (Z.to_nat n) src).
Proof.
  intros HM [Hd Hs Hf Hb] n. pose proof (len_nonneg q). pose proof (len_nonneg src).
  unfold fixed_write, fixed_free_space. rewrite Hs, wrapU_small by word_lia.
  assert ((if len src >? N - len q then N - len q else len src) = n) as ->
    by (destruct (Z.gtb_spec (len src) (N - len q)); lia).
  destruct (Z.gtb_spec n 0).
  - rewrite mem_read_ok by lia. cbn [mbind outcome_bind]. unfold slice.
    change (Z.to_nat 0) with 0%nat. rewrite drop_0.
    assert (len (take (Z.to_nat n) src) = n) as Hl by (unfold len in *; rewrite length_take; lia).
    rewrite mem_write_ok by lia. cbn [mbind outcome_bind]. eexists. split; [done|]. split; cbn.
    + rewrite len_blit by lia. done.
    + rewrite wrapU_small by word_lia. rewrite len_app. lia.
    + rewrite len_app. lia.
    + pose proof (take_blit_app (fb_data b) (len q) (take (Z.to_nat n) src) ltac:(lia)) as E.
      trans (take (Z.to_nat (len q + len (take (Z.to_nat n) src))) (blit (fb_data b) (len q) (take (Z.to_nat n) src))).
      { f_equal. rewrite length_app. unfold len. lia. }
      rewrite E. unfold len. by rewrite Nat2Z.id, Hb.
  - eexists. split; [done|]. assert (n = 0) as -> by lia. cbn. rewrite app_nil_r. by split.
Qed.

(** A read gives the oldest bytes and keeps the oldest bytes: the newest are
    lost. *)
Lemma fixed_read_keeps_front n b q :
  N <= PTRDIFF_MAX -> fixed_repr b q -> 0 <= n <= len q ->
  exists b', fixed_read n b = Ok (b', take (Z.to_nat n) q) /\
    fixed_repr b' (take (Z.to_nat (len q - n)) q).
Proof.
  intros HM [Hd Hs Hf Hb] Hn. unfold fixed_read. rewrite Hs.
  destruct (Z.gtb_spec n (len q)); [lia|].
  assert (forall k, 0 <= k <= len q -> take (Z.to_nat k) (fb_data b) = take (Z.to_nat k) q) as Hk.
  { intros k Hk. rewrite <- Hb at 1. rewrite take_take. f_equal. unfold len in *. lia. }
  destruct (Z.gtb_spec n 0).
  - rewrite mem_read_ok by lia. cbn [mbind outcome_bind]. unfold slice.
    change (Z.to_nat 0) with 0%nat. rewrite drop_0, Hk by lia. eexists. split; [done|].
    rewrite wrapU_small by word_lia. split; cbn; [done| | |].
    + unfold len in *. rewrite length_take. lia.
    + unfold len in *. rewrite length_take. lia.
    + rewrite <- Hk by lia. rewrite length_take. f_equal. unfold len in *. lia.
  - assert (n = 0) as -> by lia. rewrite Z.sub_0_r. exists b. split; [done|].
    rewrite take_ge by (unfold len; lia). by split.
Qed.

End FixedBuffer.

(** ** The list of blocks *)

Definition BLOCK_CAPACITY_DEFAULT : Z := 16.
Definition ITEMS_COUNT_PER_BLOCK : Z := 128.

Section BlockList.
Context {T : Type} (zero : T).

(** The chain of blocks; an item is set to zero bytes when it is made. *)
Record block_list := mk_blocks { bl_block_map : list (list T); bl_block_size : Z; bl_max_size : Z }.

Definition block_allocate (block_size : Z) (b : block_list) : block_list :=
  mk_blocks (bl_block_map b ++ replicate (Z.to_nat block_size) (replicate (Z.to_nat ITEMS_COUNT_PER_BLOCK) zero))
    (u64 (bl_block_size b + block_size)) (u64 (bl_max_size b + block_size * ITEMS_COUNT_PER_BLOCK)).
Definition block_resize (size : Z) (b : block_list) : block_list :=
  if size <=? bl_max_size b then b
  else block_allocate (u64 (size / ITEMS_COUNT_PER_BLOCK + 1 - bl_block_size b)) b.

(** The constructor rounds up; sizes are below 2^53, where [double] is exact. *)
Definition block_list_new (size : Z) : block_list :=
  let empty := mk_blocks [] 0 0 in
  if size =? 0 then block_allocate BLOCK_CAPACITY_DEFAULT empty
  else block_allocate ((size + 127) / ITEMS_COUNT_PER_BLOCK) empty.

(** Following [_next], then [operator[]] of the block, whose check lets the
    index 128 through. *)
Definition block_find (pos : Z) (b : block_list) : outcome (nat * list T * nat) :=
  let which := Z.to_nat (pos / ITEMS_COUNT_PER_BLOCK) in
  let idx := pos mod ITEMS_COUNT_PER_BLOCK in
  match bl_block_map b !! which with
  | None => Fault (UB "null block")
  | Some items =>
      if idx >? ITEMS_COUNT_PER_BLOCK then Throw (ExnRuntime "items access out of range!!!")
      else Ok (which, items, Z.to_nat idx)
  end.

Definition block_insert (pos : Z) (value : T) (b : block_list) : outcome block_list :=
  let b := block_resize (u64 (pos + 1)) b in
  p ← block_find pos b;
  let '(which, items, idx) := p in
  match items !! idx with
  | Some _ => Ok (mk_blocks (<[which := <[idx := value]> items]> (bl_block_map b)) (bl_block_size b) (bl_max_size b))
  | None => Fault (UB "write out of bounds")
  end.
Definition block_index (pos : Z) (b : block_list) : outcome (block_list * T) :=
  let b := block_resize pos b in
  p ← block_find pos b;
  let '(_, items, idx) := p in
  match items !! idx with
  | Some v => Ok (b, v)
  | None => Fault (UB "read out of bounds")
  end.

(** Every block is full of items, and the sizes count them. *)
Record blocks_wf (b : block_list) : Prop := {
  bw_blocks : Forall (fun items => len items = ITEMS_COUNT_PER_BLOCK) (bl_block_map b);
  bw_size : bl_block_size b = len (bl_block_map b);
  bw_max : bl_max_size b = ITEMS_COUNT_PER_BLOCK * len (bl_block_map b);
}.

(** The item at [pos]. *)
Definition block_item (b : block_list) (pos : Z) : option T :=
  items ← bl_block_map b !! Z.to_nat (pos / ITEMS_COUNT_PER_BLOCK);
  items !! Z.to_nat (pos mod ITEMS_COUNT_PER_BLOCK).

Lemma block_allocate_wf n b :
  blocks_wf b -> 0 <= n -> bl_max_size b + n * ITEMS_COUNT_PER_BLOCK < 2 ^ 64 ->
  blocks_wf (block_allocate n b).
Proof.
  intros [Hb Hs Hm] Hn Hl. unfold ITEMS_COUNT_PER_BLOCK in *.
  pose proof (len_nonneg (bl_block_map b)). split; cbn -[Z.mul].
  - apply Forall_app. split; [done|]. apply Forall_replicate. by rewrite len_replicate.
  - rewrite len_app, len_replicate, Hs, wrapU_small by word_lia. lia.
  - unfold ITEMS_COUNT_PER_BLOCK. rewrite len_app, len_replicate, Hm, wrapU_small by word_lia. lia.
Qed.

(** The last position of a full list is one too far for [operator[]]: no block
    is added and the walk ends at a null pointer. *)
Lemma block_index_edge b :
  blocks_wf b -> block_index (bl_max_size b) b = Fault (UB "null block").
Proof.
  intros [Hb Hs Hm]. unfold block_index, block_resize. rewrite Z.leb_refl. unfold block_find.
  assert (bl_block_map b !! Z.to_nat (bl_max_size b / ITEMS_COUNT_PER_BLOCK) = None) as ->; [|done].
  apply lookup_ge_None. rewrite Hm, Z.mul_comm, Z.div_mul by done. unfold len. lia.
Qed.

(** Inside the list, what was stored is found and nothing else changes. *)
Lemma block_insert_index pos value b :
  blocks_wf b -> 0 <= pos -> pos + 1 <= bl_max_size b -> bl_max_size b < 2 ^ 64 ->
  exists b', block_insert pos value b = Ok b' /\ blocks_wf b' /\ block_index pos b' = Ok (b', value) /\
    forall p, 0 <= p -> p <> pos -> block_item b' p = block_item b p.
Proof.
  intros [Hb Hs Hm] Hp Hlt Hmax. unfold block_insert, block_resize.
  rewrite (wrapU_small 64 (pos + 1)) by word_lia. rewrite (proj2 (Z.leb_le (pos + 1) (bl_max_size b))) by done.
  unfold block_find. set (w := Z.to_nat (pos / ITEMS_COUNT_PER_BLOCK)).
  pose proof (Z.mod_pos_bound pos ITEMS_COUNT_PER_BLOCK ltac:(done)) as Hmod.
  assert (w < length (bl_block_map b))%nat as Hw.
  { unfold w. pose proof (Z.div_pos pos ITEMS_COUNT_PER_BLOCK Hp ltac:(done)).
    assert (pos / ITEMS_COUNT_PER_BLOCK < len (bl_block_map b)); [|unfold len in *; lia].
    apply Z.div_lt_upper_bound; [done|]. lia. }
  destruct (lookup_lt_is_Some_2 _ _ Hw) as [items Hit]. rewrite Hit.
  destruct (Z.gtb_spec (pos mod ITEMS_COUNT_PER_BLOCK) ITEMS_COUNT_PER_BLOCK); [lia|].
  cbn [mbind outcome_bind]. pose proof (Forall_lookup_1 _ _ _ _ Hb Hit) as Hli. cbn in Hli.
  destruct (lookup_lt_is_Some_2 items (Z.to_nat (pos mod ITEMS_COUNT_PER_BLOCK))) as [old Hold];
    [unfold len in *; lia|]. rewrite Hold.
  eexists. split; [done|]. split; [|split].
  - split; cbn -[Z.mul]; unfold len in *; rewrite ?length_insert; try done.
    apply Forall_insert; [done|]. by rewrite length_insert.
  - unfold block_index, block_resize. cbn [bl_max_size bl_block_map].
    rewrite (proj2 (Z.leb_le pos (bl_max_size b))) by lia. unfold block_find. cbn [bl_block_map].
    fold w. rewrite list_lookup_insert_eq by done.
    destruct (Z.gtb_spec (pos mod ITEMS_COUNT_PER_BLOCK) ITEMS_COUNT_PER_BLOCK); [lia|].
    cbn [mbind outcome_bind]. rewrite list_lookup_insert_eq by (unfold len in *; lia). done.
  - intros p Hp0 Hne. unfold block_item. cbn [bl_block_map].
    destruct (decide (Z.to_nat (p / ITEMS_COUNT_PER_BLOCK) = w)) as [Ew|Ew].
    + rewrite Ew, list_lookup_insert_eq by done. rewrite Hit. cbn.
      apply list_lookup_insert_ne. intros Em. apply Hne.
      pose proof (Z.mod_pos_bound p ITEMS_COUNT_PER_BLOCK ltac:(done)).
      pose proof (Z.div_pos p ITEMS_COUNT_PER_BLOCK ltac:(lia) ltac:(done)).
      pose proof (Z.div_pos pos ITEMS_COUNT_PER_BLOCK ltac:(lia) ltac:(done)).
      assert (p / ITEMS_COUNT_PER_BLOCK = pos / ITEMS_COUNT_PER_BLOCK) as Eq by (unfold w in Ew; lia).
      pose proof (Z.div_mod p ITEMS_COUNT_PER_BLOCK ltac:(done)) as Ep. rewrite Eq in Ep.
      pose proof (Z.div_mod pos ITEMS_COUNT_PER_BLOCK ltac:(done)). lia.
    + by rewrite list_lookup_insert_ne.
Qed.
End BlockList.
