(* ===== verification/Threads.v ===== *)
(** Threads and locks (source/bee/thread/lock.h).

    A component that is shared by threads is a machine: [list pc] is where each
    thread stands, an access to shared memory is one step, and the scheduler
    chooses who makes the next one.  Memory is sequentially consistent: the
    memory orders of the source are not distinguished.  The file holds what the
    machines share -- counting the threads that stand somewhere -- and the
    locks: [spinlock], [atomic_spinlock] and [ticket_spinlock].  [mutex],
    [resursive_mutex] and [rwlock] only wrap the library's. *)

From S2P Require Import Prelude.

(** ** Counting threads *)

Fixpoint tally {P} (f : nat -> P -> bool) (ts : list P) : Z :=
  match ts with
  | [] => 0
  | pc :: ts => Z.b2z (f 0%nat pc) + tally (fun t => f (S t)) ts
  end.

Lemma tally_insert {P} f (ts : list P) t pc pc' :
  ts !! t = Some pc -> tally f (<[t := pc']> ts) = tally f ts - Z.b2z (f t pc) + Z.b2z (f t pc').
Proof.
  revert f t. induction ts as [|p ts IH]; intros f [|t] Ht; cbn in *; [done|done|simplify_eq; lia|].
  rewrite (IH _ _ Ht). lia.
Qed.

Lemma tally_bound {P} f (ts : list P) : 0 <= tally f ts <= len ts.
Proof.
  revert f. induction ts as [|p ts IH]; intros f; [done|]. rewrite len_cons. cbn.
  specialize (IH (fun t => f (S t))). destruct (f 0%nat p); cbn; lia.
Qed.

Lemma tally_pos {P} f (ts : list P) t pc : ts !! t = Some pc -> f t pc = true -> 0 < tally f ts.
Proof.
  revert f t. induction ts as [|p ts IH]; intros f [|t] Ht Hf; cbn in *; simplify_eq.
  - rewrite Hf. pose proof (tally_bound (fun t => f (S t)) ts). cbn. lia.
  - pose proof (IH (fun t => f (S t)) _ Ht Hf). destruct (f 0%nat p); cbn; lia.
Qed.

Lemma tally_none {P} f (ts : list P) :
  (forall t pc, ts !! t = Some pc -> f t pc = false) -> tally f ts = 0.
Proof.
  revert f. induction ts as [|p ts IH]; intros f H; [done|]. cbn.
  rewrite (H 0%nat p eq_refl), IH; [done|]. intros t pc Ht. by apply (H (S t)).
Qed.

Lemma tally_some {P} f (ts : list P) : tally f ts <> 0 -> exists t pc, ts !! t = Some pc /\ f t pc = true.
Proof.
  revert f. induction ts as [|p ts IH]; intros f H; [done|]. cbn in H. destruct (f 0%nat p) eqn:E.
  - by exists 0%nat, p.
  - destruct (IH (fun t => f (S t))) as (t & pc & Ht & Hf); [done|]. by exists (S t), pc.
Qed.

(** Two threads counted by a tally that does not exceed one are the same. *)
Lemma tally_unique {P} f (ts : list P) t t' pc pc' :
  tally f ts <= 1 -> ts !! t = Some pc -> ts !! t' = Some pc' ->
  f t pc = true -> f t' pc' = true -> t = t'.
Proof.
  revert f t t'. induction ts as [|p ts IH]; intros f [|t] [|t'] Hle Ht Ht' Hf Hf'; cbn in *; simplify_eq; [done|..].
  - pose proof (tally_pos (fun t => f (S t)) _ _ _ Ht' Hf'). rewrite Hf in Hle. cbn in Hle. lia.
  - pose proof (tally_pos (fun t => f (S t)) _ _ _ Ht Hf). rewrite Hf' in Hle. cbn in Hle. lia.
  - f_equal. eapply (IH (fun t => f (S t))); try done. destruct (f 0%nat p); cbn in Hle; lia.
Qed.

(** The point of thread [t'] after a step of thread [t]. *)
Lemma step_cases {P} (ts : list P) t t' pc' y :
  <[t := pc']> ts !! t' = Some y -> (t' = t /\ y = pc') \/ (t' <> t /\ ts !! t' = Some y).
Proof. intros H. apply list_lookup_insert_Some in H as [(-> & -> & _)|[? ?]]; auto. Qed.

(** ** spinlock and atomic_spinlock

    [SlSpin] is the inner loop of [spinlock], which only loads. *)

Inductive sl_pc := SlOut | SlTry | SlSpin | SlIn.

Record spinlock := mk_spinlock { sl_atomic : bool; sl_threads : list sl_pc }.

Definition spinlock_new (n : nat) : spinlock := mk_spinlock false (replicate n SlOut).

Inductive lock_act := ActLock | ActTryLock | ActUnlock | ActGo.

(** [exchange(true)]: it is ours when it was false; else [pc] is next. *)
Definition sl_exchange (t : nat) (pc : sl_pc) (s : spinlock) : spinlock :=
  mk_spinlock true (<[t := if sl_atomic s then pc else SlIn]> (sl_threads s)).

Definition sl_exec (t : nat) (a : lock_act) (s : spinlock) : option spinlock :=
  pc ← sl_threads s !! t;
  match pc, a with
  | SlOut, ActLock => Some (mk_spinlock (sl_atomic s) (<[t := SlTry]> (sl_threads s)))
  | SlTry, ActGo => Some (sl_exchange t SlSpin s)
  | SlSpin, ActGo =>
      Some (mk_spinlock (sl_atomic s)
              (<[t := if sl_atomic s then SlSpin else SlTry]> (sl_threads s)))
  | SlOut, ActTryLock => Some (sl_exchange t SlOut s)
  | SlIn, ActUnlock => Some (mk_spinlock false (<[t := SlOut]> (sl_threads s)))
  | _, _ => None
  end.

(** [atomic_spinlock]: [lock] tests and sets until it was clear. *)
Definition asl_exec (t : nat) (a : lock_act) (s : spinlock) : option spinlock :=
  pc ← sl_threads s !! t;
  match pc, a with
  | SlOut, ActLock => Some (mk_spinlock (sl_atomic s) (<[t := SlTry]> (sl_threads s)))
  | SlTry, ActGo => Some (sl_exchange t SlTry s)
  | SlOut, ActTryLock => Some (sl_exchange t SlOut s)
  | SlIn, ActUnlock => Some (mk_spinlock false (<[t := SlOut]> (sl_threads s)))
  | _, _ => None
  end.

(** ** ticket_spinlock

    [TkTry] is [try_lock] between its two loads. *)

Inductive tk_pc := TkOut | TkSpin (ticket : Z) | TkTry (ticket : Z) | TkIn.

Record ticket_spinlock := mk_ticket {
  tk_serving : Z;
  tk_next_ticket : Z;
  tk_threads : list tk_pc;
}.

Definition ticket_new (n : nat) : ticket_spinlock := mk_ticket 0 0 (replicate n TkOut).

Definition tk_goto (t : nat) (pc : tk_pc) (s : ticket_spinlock) : ticket_spinlock :=
  mk_ticket (tk_serving s) (tk_next_ticket s) (<[t := pc]> (tk_threads s)).

Definition tk_exec (t : nat) (a : lock_act) (s : ticket_spinlock) : option ticket_spinlock :=
  pc ← tk_threads s !! t;
  match pc, a with
  | TkOut, ActLock =>
      Some (mk_ticket (tk_serving s) (u32 (tk_next_ticket s + 1))
              (<[t := TkSpin (tk_next_ticket s)]> (tk_threads s)))
  | TkSpin ticket, ActGo =>
      Some (if tk_serving s =? ticket then tk_goto t TkIn s else s)
  | TkOut, ActTryLock => Some (tk_goto t (TkTry (tk_next_ticket s)) s)
  | TkTry ticket, ActGo => Some (tk_goto t (if tk_serving s =? ticket then TkIn else TkOut) s)
  | TkIn, ActUnlock =>
      Some (mk_ticket (u32 (tk_serving s + 1)) (tk_next_ticket s) (<[t := TkOut]> (tk_threads s)))
  | _, _ => None
  end.

Section run.
Context {S : Type} (exec : nat -> lock_act -> S -> option S).
Fixpoint lock_run (sched : list (nat * lock_act)) (s : S) : option S :=
  match sched with
  | [] => Some s
  | (t, a) :: sched => s ← exec t a s; lock_run sched s
  end.

(** Rule induction over a schedule. *)
Lemma lock_run_ind (ok : nat * lock_act -> Prop) (P : S -> Prop) sched s s' :
  (forall t a s s', ok (t, a) -> P s -> exec t a s = Some s' -> P s') ->
  Forall ok sched -> P s -> lock_run sched s = Some s' -> P s'.
Proof.
  intros Hstep Hok. revert s. induction Hok as [|[t a] sched Ha _ IH]; intros s Hs; cbn.
  - by intros [= <-].
  - destruct (exec t a s) as [s1|] eqn:E; cbn; [|done]. apply IH. by eapply Hstep.
Qed.
End run.

(** ** Mutual exclusion *)

Definition sl_inside (_ : nat) (pc : sl_pc) : bool := match pc with SlIn => true | _ => false end.

Definition sl_inv (s : spinlock) : Prop := tally sl_inside (sl_threads s) = Z.b2z (sl_atomic s).

Lemma sl_exchange_inv t pc pc' s :
  sl_inv s -> sl_threads s !! t = Some pc -> sl_inside t pc = false -> sl_inside t pc' = false ->
  sl_inv (sl_exchange t pc' s).
Proof.
  intros Hi Ht Hp Hp'. unfold sl_inv, sl_exchange in *. cbn. rewrite (tally_insert _ _ _ _ _ Ht), Hp, Hi.
  destruct (sl_atomic s); rewrite ?Hp'; done.
Qed.

(** The memory word is untouched and nobody enters or leaves. *)
Lemma sl_goto_inv t pc pc' s :
  sl_inv s -> sl_threads s !! t = Some pc -> sl_inside t pc = sl_inside t pc' ->
  sl_inv (mk_spinlock (sl_atomic s) (<[t := pc']> (sl_threads s))).
Proof.
  intros Hi Ht Hp. unfold sl_inv in *. cbn. rewrite (tally_insert _ _ _ _ _ Ht), Hp, Hi. lia.
Qed.

Lemma sl_unlock_inv t s :
  sl_inv s -> sl_threads s !! t = Some SlIn ->
  sl_inv (mk_spinlock false (<[t := SlOut]> (sl_threads s))).
Proof.
  intros Hi Ht. unfold sl_inv in *. cbn. rewrite (tally_insert _ _ _ _ _ Ht), Hi.
  pose proof (tally_pos sl_inside _ _ _ Ht eq_refl) as Hp. rewrite Hi in Hp.
  destruct (sl_atomic s); cbn in *; lia.
Qed.

Lemma sl_exec_inv t a s s' : sl_inv s -> sl_exec t a s = Some s' -> sl_inv s'.
Proof.
  intros Hi. unfold sl_exec. destruct (sl_threads s !! t) as [pc|] eqn:Ht; [|done]. cbn.
  destruct pc, a; try discriminate; intros [= <-]; eauto using sl_unlock_inv, sl_exchange_inv.
  - by eapply sl_goto_inv.
  - eapply sl_goto_inv; [done..|]. by destruct (sl_atomic s).
Qed.

Lemma asl_exec_inv t a s s' : sl_inv s -> asl_exec t a s = Some s' -> sl_inv s'.
Proof.
  intros Hi. unfold asl_exec. destruct (sl_threads s !! t) as [pc|] eqn:Ht; [|done]. cbn.
  destruct pc, a; try discriminate; intros [= <-]; eauto using sl_unlock_inv, sl_exchange_inv.
  by eapply sl_goto_inv.
Qed.

Lemma sl_new_inv n : sl_inv (spinlock_new n).
Proof.
  unfold sl_inv. cbn. apply tally_none. intros t pc Ht. by apply lookup_replicate in Ht as [-> _].
Qed.

Lemma spin_mutual_exclusion n sched s t t' exec :
  exec = sl_exec \/ exec = asl_exec -> lock_run exec sched (spinlock_new n) = Some s ->
  sl_threads s !! t = Some SlIn -> sl_threads s !! t' = Some SlIn -> t = t'.
Proof.
  intros He Hrun Ht Ht'. assert (sl_inv s) as Hi.
  { eapply (lock_run_ind exec (fun _ => True)); [|by apply Forall_true|apply sl_new_inv|done].
    intros ???? _. destruct He as [-> | ->]; [apply sl_exec_inv|apply asl_exec_inv]. }
  eapply (tally_unique sl_inside); [|done..]. unfold sl_inv in Hi. rewrite Hi. by destruct (sl_atomic s).
Qed.

(** *** Tickets: the queue of a ticket lock

    [q] lists the threads that took a ticket, in the order they did. *)

Definition waiting (pc : tk_pc) : Prop := match pc with TkSpin _ | TkIn => True | _ => False end.

Record tk_inv (s : ticket_spinlock) (q : list nat) : Prop := {
  tki_serving : inU 32 (tk_serving s);
  tki_next : tk_next_ticket s = u32 (tk_serving s + len q);
  tki_nodup : NoDup q;
  tki_queue : forall k t, q !! k = Some t ->
    tk_threads s !! t = Some (TkSpin (u32 (tk_serving s + Z.of_nat k))) \/
    (k = 0%nat /\ tk_threads s !! t = Some TkIn);
  tki_in : forall t pc, tk_threads s !! t = Some pc -> waiting pc -> t ∈ q;
  tki_try : forall t k, tk_threads s !! t <> Some (TkTry k);
}.

(** The first-in first-out lock: a step takes a place at the end, enters from
    the front or leaves. *)
Inductive fifo_step : list nat -> nat * lock_act -> list nat -> Prop :=
| fifo_lock q t : t ∉ q -> fifo_step q (t, ActLock) (q ++ [t])
| fifo_wait q t : t ∈ q -> fifo_step q (t, ActGo) q
| fifo_unlock q t : fifo_step (t :: q) (t, ActUnlock) q.

Lemma len_le_threads q (ts : list tk_pc) : NoDup q -> (forall t, t ∈ q -> is_Some (ts !! t)) -> len q <= len ts.
Proof.
  intros Hn Hs. assert (q ⊆+ seq 0 (length ts)) as Hsub.
  { apply NoDup_submseteq; [done|]. intros t Ht. apply elem_of_seq.
    destruct (Hs t Ht) as [pc Hpc]. apply lookup_lt_Some in Hpc. lia. }
  apply submseteq_length in Hsub. rewrite length_seq in Hsub. unfold len. lia.
Qed.

Lemma u32_shift a b : u32 (u32 a + b) = u32 (a + b).
Proof. unfold wrapU. apply Z.add_mod_idemp_l. lia. Qed.

Lemma u32_serving_inj s k : 0 <= s < 2 ^ 32 -> 0 <= k < 2 ^ 32 -> u32 (s + k) = s -> k = 0.
Proof.
  intros Hs Hk. unfold wrapU. destruct (decide (s + k < 2 ^ 32)).
  - rewrite Z.mod_small by lia. lia.
  - rewrite <- (Z.mod_unique (s + k) (2 ^ 32) 1 (s + k - 2 ^ 32)) by lia. lia.
Qed.

Section ticket_steps.
Context (s : ticket_spinlock) (q : list nat) (t : nat).
Hypothesis Hi : tk_inv s q.
Hypothesis Hlen : len (tk_threads s) < 2 ^ 32.

Lemma tk_len : len q < 2 ^ 32.
Proof.
  destruct Hi as [_ _ Hn Hq _ _]. pose proof (len_le_threads q (tk_threads s) Hn) as H.
  enough (len q <= len (tk_threads s)) by lia. apply H. intros t' Ht'.
  apply list_elem_of_lookup in Ht' as [k Hk]. destruct (Hq k t' Hk) as [-> | [_ ->]]; eauto.
Qed.

Lemma tk_lock_inv :
  tk_threads s !! t = Some TkOut ->
  (t ∉ q) /\
  tk_inv (mk_ticket (tk_serving s) (u32 (tk_next_ticket s + 1))
            (<[t := TkSpin (tk_next_ticket s)]> (tk_threads s))) (q ++ [t]).
Proof.
  intros Ht. pose proof tk_len as Hl. destruct Hi as [Hs Hx Hn Hq Hin Htry].
  assert (t ∉ q) as Hnot.
  { intros H. apply list_elem_of_lookup in H as [k Hk]. destruct (Hq k t Hk) as [? | [_ ?]]; congruence. }
  split; [done|]. split; cbn.
  - done.
  - rewrite Hx, u32_shift, len_app, len_cons, len_nil. f_equal. lia.
  - apply NoDup_app. split; [done|]. split; [|apply NoDup_singleton]. intros x ? ?. set_solver.
  - intros k t' Hk. apply lookup_app_Some in Hk as [Hk|[Hge Hk]].
    + rewrite list_lookup_insert_ne; [by apply Hq|]. intros ->. apply Hnot. by eapply list_elem_of_lookup_2.
    + apply list_lookup_singleton_Some in Hk as [Hk <-].
      rewrite list_lookup_insert_eq by (by eapply lookup_lt_Some). left. rewrite Hx.
      do 3 f_equal. unfold len. lia.
  - intros t' pc Hpc Hw. apply step_cases in Hpc as [[-> ->]|[_ Hpc]]; [set_solver|].
    apply elem_of_app. left. by eapply Hin.
  - intros t' k Hpc. apply step_cases in Hpc as [[_ ?]|[_ ?]]; [done|]. by eapply Htry.
Qed.

Lemma tk_enter_inv :
  tk_threads s !! t = Some (TkSpin (tk_serving s)) -> tk_inv (tk_goto t TkIn s) q /\ head q = Some t.
Proof.
  intros Ht. pose proof tk_len as Hl. destruct Hi as [Hs Hx Hn Hq Hin Htry].
  pose proof (Hin t _ Ht I) as Hel. apply list_elem_of_lookup in Hel as [k0 Hk0].
  assert (k0 = 0%nat) as ->.
  { destruct (Hq _ _ Hk0) as [Hq0 | [-> _]]; [|done]. rewrite Ht in Hq0. injection Hq0 as E.
    apply lookup_lt_Some in Hk0. unfold len in Hl.
    enough (Z.of_nat k0 = 0) by lia. eapply u32_serving_inj; [exact Hs|lia|done]. }
  split; [|by destruct q as [|t0 q']; cbn in *; simplify_eq]. split; cbn; try done.
  - intros k t' Hk. destruct (decide (t' = t)) as [->|Hne].
    + rewrite list_lookup_insert_eq by (by eapply lookup_lt_Some). right.
      split; [|done]. eapply NoDup_lookup; [exact Hn|exact Hk|exact Hk0].
    + rewrite list_lookup_insert_ne by done. by apply Hq.
  - intros t' pc Hpc Hw. apply step_cases in Hpc as [[-> ->]|[_ Hpc]]; [by eapply list_elem_of_lookup_2|].
    by eapply Hin.
  - intros t' k Hpc. apply step_cases in Hpc as [[_ ?]|[_ ?]]; [done|]. by eapply Htry.
Qed.

Lemma tk_unlock_inv :
  tk_threads s !! t = Some TkIn ->
  exists q', q = t :: q' /\
  tk_inv (mk_ticket (u32 (tk_serving s + 1)) (tk_next_ticket s) (<[t := TkOut]> (tk_threads s))) q'.
Proof.
  intros Ht. destruct Hi as [Hs Hx Hn Hq Hin Htry].
  pose proof (Hin t _ Ht I) as Hel. apply list_elem_of_lookup in Hel as [k0 Hk0].
  destruct (Hq _ _ Hk0) as [? | [-> _]]; [congruence|].
  destruct q as [|t0 q']; cbn in Hk0; simplify_eq. exists q'. split; [done|].
  apply NoDup_cons in Hn as [Hnot Hn]. split; cbn.
  - by apply wrapU_range.
  - rewrite Hx, u32_shift, len_cons. f_equal. lia.
  - done.
  - intros k t' Hk. assert (t' <> t) as Hne.
    { intros ->. apply Hnot. by eapply list_elem_of_lookup_2. }
    rewrite list_lookup_insert_ne by done. destruct (Hq (S k) t' Hk) as [-> | [? _]]; [|done].
    left. rewrite u32_shift. do 3 f_equal. lia.
  - intros t' pc Hpc Hw. apply step_cases in Hpc as [[-> ->]|[Hne Hpc]]; [done|].
    pose proof (Hin _ _ Hpc Hw) as Hel. set_solver.
  - intros t' k Hpc. apply step_cases in Hpc as [[_ ?]|[_ ?]]; [done|]. by eapply Htry.
Qed.
End ticket_steps.

Lemma tk_exec_inv s q t a s' :
  tk_inv s q -> len (tk_threads s) < 2 ^ 32 -> a <> ActTryLock -> tk_exec t a s = Some s' ->
  exists q', fifo_step q (t, a) q' /\ tk_inv s' q' /\ len (tk_threads s') = len (tk_threads s) /\
    (forall t, tk_threads s !! t <> Some TkIn -> tk_threads s' !! t = Some TkIn -> head q' = Some t).
Proof.
  intros Hi Hl Ha. unfold tk_exec. destruct (tk_threads s !! t) as [pc|] eqn:Ht; [|done]. cbn.
  destruct pc as [|ticket|ticket|], a; try done; [| |by destruct (tki_try _ _ Hi t ticket)|].
  - intros [= <-]. destruct (tk_lock_inv s q t Hi Hl Ht) as [Hnot Hi'].
    exists (q ++ [t]). split; [by constructor|]. split; [done|]. cbn. split; [unfold len; by rewrite length_insert|].
    intros t' Hout Hin. apply step_cases in Hin as [[_ ?]|[_ ?]]; done.
  - assert (t ∈ q) as Hel by (by eapply (tki_in _ _ Hi)).
    destruct (Z.eqb_spec (tk_serving s) ticket) as [<-|]; intros [= <-].
    + destruct (tk_enter_inv s q t Hi Hl Ht) as [Hi' Hh]. exists q. split; [by constructor|].
      split; [done|]. cbn. split; [unfold len; by rewrite length_insert|].
      intros t' Hout Hin. apply step_cases in Hin as [[-> _]|[_ ?]]; done.
    + exists q. split; [by constructor|]. done.
  - intros [= <-]. destruct (tk_unlock_inv s q t Hi Hl Ht) as (q' & -> & Hi').
    exists q'. split; [by constructor|]. split; [done|]. cbn. split; [unfold len; by rewrite length_insert|].
    intros t' Hout Hin. apply step_cases in Hin as [[_ ?]|[_ ?]]; done.
Qed.

Inductive fifo_run : list nat -> list (nat * lock_act) -> list nat -> Prop :=
| fifo_done q : fifo_run q [] q
| fifo_more q x q' xs q'' : fifo_step q x q' -> fifo_run q' xs q'' -> fifo_run q (x :: xs) q''.

Lemma tk_run_inv sched s q s' :
  tk_inv s q -> len (tk_threads s) < 2 ^ 32 -> Forall (fun x => x.2 <> ActTryLock) sched ->
  lock_run tk_exec sched s = Some s' ->
  exists q', fifo_run q sched q' /\ tk_inv s' q' /\ len (tk_threads s') = len (tk_threads s).
Proof.
  intros Hi Hl Hall. revert s q Hi Hl. induction Hall as [|[t a] sched Ha _ IH]; intros s q Hi Hl; cbn.
  - intros [= <-]. exists q. split; [constructor|done].
  - destruct (tk_exec t a s) as [s1|] eqn:E; cbn; [|done]. intros Hrun.
    destruct (tk_exec_inv _ _ _ _ _ Hi Hl Ha E) as (q1 & Hf & Hi1 & Hl1 & _).
    destruct (IH s1 q1 Hi1 ltac:(by rewrite Hl1) Hrun) as (q' & Hr & Hi' & Hl').
    exists q'. split; [by econstructor|]. split; [done|congruence].
Qed.

Lemma ticket_new_inv n : tk_inv (ticket_new n) [].
Proof.
  split; cbn; [done|done|constructor|done| |].
  - intros t pc Hpc Hw. by apply lookup_replicate in Hpc as [-> _].
  - intros t k Hpc. by apply lookup_replicate in Hpc as [? _].
Qed.

(** C17 — The ticket lock, for fewer than 2^32 threads that do not call
    [try_lock]: every interleaving is one of a first-in first-out lock, also
    when the tickets wrap around.  The one thread inside is the head of the
    queue, and a head that still waits finds its ticket served, so the lock
    never stops. *)
Theorem ticket_lock_fifo n sched s :
  Z.of_nat n < 2 ^ 32 -> Forall (fun x => x.2 <> ActTryLock) sched ->
  lock_run tk_exec sched (ticket_new n) = Some s ->
  exists q, fifo_run [] sched q /\ NoDup q /\
    (forall t, tk_threads s !! t = Some TkIn -> head q = Some t) /\
    forall t, head q = Some t -> tk_threads s !! t <> Some TkIn ->
      exists s', tk_exec t ActGo s = Some s' /\ tk_threads s' !! t = Some TkIn.
Proof.
  intros Hn Hall Hrun.
  destruct (tk_run_inv sched _ [] s (ticket_new_inv n)) as (q & Hf & Hi & Hl); [|done..|].
  { cbn. by rewrite len_replicate. }
  exists q. split; [done|]. destruct Hi as [Hs Hx Hnd Hq Hin Htry]. split; [done|]. split.
  - intros t Ht. pose proof (Hin t _ Ht I) as Hel. apply list_elem_of_lookup in Hel as [k Hk].
    destruct (Hq _ _ Hk) as [? | [-> _]]; [congruence|]. by destruct q; cbn in *; simplify_eq.
  - intros t Hh Hout. destruct q as [|t0 q]; cbn in Hh; simplify_eq.
    destruct (Hq 0%nat t eq_refl) as [Ht | [_ ?]]; [|done].
    rewrite Z.add_0_r, (wrapU_small 32 _ Hs) in Ht.
    eexists. unfold tk_exec. rewrite Ht. cbn. rewrite Z.eqb_refl. split; [done|].
    cbn. apply list_lookup_insert_eq. by eapply lookup_lt_Some.
Qed.

Lemma ticket_lock_fifo_witness :
  let sched := [(0%nat, ActLock); (1%nat, ActLock); (1%nat, ActGo); (0%nat, ActGo); (0%nat, ActUnlock)] in
  exists s, lock_run tk_exec sched (ticket_new 2) = Some s /\
  exists q, fifo_run [] sched q /\ NoDup q /\
    (forall t, tk_threads s !! t = Some TkIn -> head q = Some t) /\
    forall t, head q = Some t -> tk_threads s !! t <> Some TkIn ->
      exists s', tk_exec t ActGo s = Some s' /\ tk_threads s' !! t = Some TkIn.
Proof.
  eexists. split; [reflexivity|].
  apply (ticket_lock_fifo 2 [(0%nat, ActLock); (1%nat, ActLock); (1%nat, ActGo); (0%nat, ActGo); (0%nat, ActUnlock)]);
    [done|repeat constructor; done|reflexivity].
Defined.

(** [try_lock] takes no ticket: two threads get in, and the [unlock] of the
    first serves a ticket that nobody holds. *)
Lemma ticket_try_lock_two_inside :
  (exists s, lock_run tk_exec [(0%nat, ActTryLock); (1%nat, ActTryLock); (0%nat, ActGo); (1%nat, ActGo)]
               (ticket_new 2) = Some s /\ tk_threads s = [TkIn; TkIn]) /\
  exists s, lock_run tk_exec [(0%nat, ActTryLock); (0%nat, ActGo); (0%nat, ActUnlock); (1%nat, ActLock)]
              (ticket_new 2) = Some s /\ tk_exec 1 ActGo s = Some s /\ tk_threads s = [TkOut; TkSpin 0].
Proof. split; eexists; (split; [reflexivity|]); repeat split. Qed.
