(* ===== verification/Wakeup.v ===== *)
(** Waking the reactor (io/reactor.cpp, io/demultiplexer.cpp): threads that add
    events to the change list while the reactor loads it, waits in [epoll_wait]
    and handles what is ready.

    A machine in the sense of Threads over the change list (of which
    DoubleBuffer shows that a write is in the next load), the flag [_wakeup] and
    the counter behind [_wakeup_fd], which the control event has registered.
    A descriptor that becomes ready, or a timeout, is up to the scheduler. *)

From S2P Require Import Prelude Threads.

(** A thread inside [reactor::add_event] or [del_event]: outside, between the
    change list and the guard [_wakeup_fd < 0], between the guard and
    [_wakeup.exchange], and between the exchange and [write]. *)
Inductive wr_pc := WrIdle | WrChanged (p : Z) | WrArmed (p : Z) | WrExchanged.

(** The reactor's round: before the change list is swapped, with the swapped
    list to apply, before [_wakeup.store(false)], inside [epoll_wait], and
    handling what it reported, the control event or not. *)
Inductive rc_pc := RcLoad | RcApply (batch : list Z) | RcClear | RcWait | RcHandle (control : bool).

(** [wk_fd] is [_wakeup_fd >= 0]. [wk_late] are changes whose writer found the
    flag still set from before, between the swap and the clearing of the flag,
    and [wk_early] those whose writer found no eventfd, between the swap and the
    loading of the control event. *)
Record wakeup_state := mk_wakeup {
  wk_fd : bool;
  wk_flag : bool;
  wk_counter : Z;
  wk_changes : list Z;
  wk_loaded : list Z;
  wk_reactor : rc_pc;
  wk_writers : list wr_pc;
  wk_late : list Z;
  wk_early : list Z;
}.

(** The events [reactor::init] adds before any other; no eventfd is known yet. *)
Definition SIGIO_EVENT : Z := -1.
Definition CONTROL_EVENT : Z := -2.
Definition wakeup_new (n : nat) : wakeup_state :=
  mk_wakeup false false 0 [SIGIO_EVENT; CONTROL_EVENT] [] RcLoad (replicate n WrIdle) [] [].

Definition wk_set_writer (t : nat) (pc : wr_pc) (s : wakeup_state) : wakeup_state :=
  mk_wakeup (wk_fd s) (wk_flag s) (wk_counter s) (wk_changes s) (wk_loaded s) (wk_reactor s)
    (<[t := pc]> (wk_writers s)) (wk_late s) (wk_early s).

Inductive wk_act := WkAdd (p : Z) | WkGo.

(** The reactor is between the swap and the loading of the list, or has not
    cleared the flag since the swap. *)
Definition rc_applying (pc : rc_pc) : bool := match pc with RcApply _ => true | _ => false end.
Definition rc_clearing (pc : rc_pc) : bool := match pc with RcApply _ | RcClear => true | _ => false end.

(** A writer's step. *)
Definition writer_exec (t : nat) (a : wk_act) (s : wakeup_state) : option wakeup_state :=
  pc ← wk_writers s !! t;
  match pc, a with
  | WrIdle, WkAdd p =>
      Some (wk_set_writer t (WrChanged p)
              (mk_wakeup (wk_fd s) (wk_flag s) (wk_counter s) (wk_changes s ++ [p]) (wk_loaded s) (wk_reactor s)
                 (wk_writers s) (wk_late s) (wk_early s)))
  | WrChanged p, WkGo =>
      if wk_fd s then Some (wk_set_writer t (WrArmed p) s)
      else Some (wk_set_writer t WrIdle
                   (mk_wakeup false (wk_flag s) (wk_counter s) (wk_changes s) (wk_loaded s) (wk_reactor s)
                      (wk_writers s) (wk_late s)
                      (if rc_applying (wk_reactor s) then wk_early s ++ [p] else wk_early s)))
  | WrArmed p, WkGo =>
      Some (wk_set_writer t (if wk_flag s then WrIdle else WrExchanged)
              (mk_wakeup (wk_fd s) true (wk_counter s) (wk_changes s) (wk_loaded s) (wk_reactor s) (wk_writers s)
                 (if wk_flag s && rc_clearing (wk_reactor s) then wk_late s ++ [p] else wk_late s) (wk_early s)))
  | WrExchanged, WkGo =>
      Some (wk_set_writer t WrIdle
              (mk_wakeup (wk_fd s) (wk_flag s) (wk_counter s + 1) (wk_changes s) (wk_loaded s) (wk_reactor s)
                 (wk_writers s) (wk_late s) (wk_early s)))
  | _, _ => None
  end.

(** The reactor's step; [ready] tells whether [epoll_wait] has something else to
    report than the counter. Loading the control event sets [_wakeup_fd]. *)
Definition reactor_exec (ready : bool) (s : wakeup_state) : option wakeup_state :=
  match wk_reactor s with
  | RcLoad =>
      Some (mk_wakeup (wk_fd s) (wk_flag s) (wk_counter s) [] (wk_loaded s) (RcApply (wk_changes s))
              (wk_writers s) [] [])
  | RcApply batch =>
      Some (mk_wakeup (wk_fd s || bool_decide (CONTROL_EVENT ∈ batch)) (wk_flag s) (wk_counter s) (wk_changes s)
              (wk_loaded s ++ batch) RcClear (wk_writers s) (wk_late s) (wk_early s))
  | RcClear =>
      Some (mk_wakeup (wk_fd s) false (wk_counter s) (wk_changes s) (wk_loaded s) RcWait (wk_writers s)
              (wk_late s) (wk_early s))
  | RcWait =>
      if ready || (0 <? wk_counter s)
      then Some (mk_wakeup (wk_fd s) (wk_flag s) (wk_counter s) (wk_changes s) (wk_loaded s)
                   (RcHandle (0 <? wk_counter s)) (wk_writers s) (wk_late s) (wk_early s))
      else None
  | RcHandle control =>
      Some (mk_wakeup (wk_fd s) (wk_flag s) (if control then 0 else wk_counter s) (wk_changes s) (wk_loaded s) RcLoad
              (wk_writers s) (wk_late s) (wk_early s))
  end.

Inductive wk_move := WkWriter (t : nat) (a : wk_act) | WkReactor (ready : bool).

Definition wk_exec (m : wk_move) (s : wakeup_state) : option wakeup_state :=
  match m with WkWriter t a => writer_exec t a s | WkReactor ready => reactor_exec ready s end.

Fixpoint wk_run (sched : list wk_move) (s : wakeup_state) : option wakeup_state :=
  match sched with [] => Some s | m :: sched => s ← wk_exec m s; wk_run sched s end.

(** ** What a waiting reactor has missed *)

(** The counter is not zero, or about to be raised. *)
Definition wake_coming (s : wakeup_state) : Prop := 0 < wk_counter s \/ WrExchanged ∈ wk_writers s.

(** A thread has written [p] and has yet to announce it. *)
Definition announcing (p : Z) (s : wakeup_state) : Prop :=
  WrChanged p ∈ wk_writers s \/ WrArmed p ∈ wk_writers s.

(** The eventfd is known, or the control event is still on its way. *)
Definition eventfd_coming (s : wakeup_state) : Prop :=
  wk_fd s = true \/
  match wk_reactor s with
  | RcLoad => CONTROL_EVENT ∈ wk_changes s
  | RcApply batch => CONTROL_EVENT ∈ batch
  | _ => False
  end.

(** Between the swap and the end of the wait. *)
Definition rc_inside (pc : rc_pc) : bool :=
  match pc with RcApply _ | RcClear | RcWait => true | _ => false end.

(** From the swap to the end of the wait a change has been or will be announced,
    is late or early; and while the reactor waits, a set flag means that it is
    being woken. *)
Record wk_inv (s : wakeup_state) : Prop := {
  wi_counter : 0 <= wk_counter s;
  wi_fd : eventfd_coming s;
  wi_flag : wk_reactor s = RcWait -> wk_flag s = true -> wake_coming s;
  wi_changes p : rc_inside (wk_reactor s) -> p ∈ wk_changes s ->
    wake_coming s \/ announcing p s \/ p ∈ wk_late s \/ p ∈ wk_early s;
}.

Lemma wakeup_new_inv n : wk_inv (wakeup_new n).
Proof. split; cbn; [done| |done|done]. right. cbn. set_solver. Qed.

(** A thread that stands elsewhere stays there. *)
Lemma elem_insert_other (ts : list wr_pc) t pc pc' x :
  ts !! t = Some pc -> x <> pc -> x ∈ ts -> x ∈ <[t := pc']> ts.
Proof.
  intros Ht Hne [i Hi]%list_elem_of_lookup. apply (list_elem_of_lookup_2 _ i).
  rewrite list_lookup_insert_ne; [done|]. intros ->. congruence.
Qed.
Lemma elem_insert_self (ts : list wr_pc) t pc pc' : ts !! t = Some pc -> pc' ∈ <[t := pc']> ts.
Proof. intros Ht. apply (list_elem_of_lookup_2 _ t). apply list_lookup_insert_eq. by eapply lookup_lt_Some. Qed.

(** A writer's step that keeps the counter keeps a wake-up that is coming,
    unless it is the writer's own. *)
Lemma wake_coming_step s s' t pc pc' :
  wk_writers s !! t = Some pc -> pc <> WrExchanged -> wk_counter s' = wk_counter s ->
  wk_writers s' = <[t := pc']> (wk_writers s) -> wake_coming s -> wake_coming s'.
Proof.
  unfold wake_coming. intros Ht Hne -> -> [?|?]; [by left|right]. by eapply elem_insert_other; [|apply not_eq_sym|].
Qed.
Lemma announcing_step s s' t pc pc' x :
  wk_writers s !! t = Some pc -> pc <> WrChanged x -> pc <> WrArmed x ->
  wk_writers s' = <[t := pc']> (wk_writers s) -> announcing x s -> announcing x s'.
Proof.
  unfold announcing. intros Ht H1 H2 -> [?|?]; [left|right]; by eapply elem_insert_other; [|apply not_eq_sym|].
Qed.

Lemma writer_exec_inv t a s s' : wk_inv s -> writer_exec t a s = Some s' -> wk_inv s'.
Proof.
  intros [Hc Hfd Hf Hch]. unfold writer_exec. destruct (wk_writers s !! t) as [pc|] eqn:Ht; [|done]. cbn.
  destruct pc as [|p|p|], a as [q|]; try done.
  - intros [= <-]. split; cbn; [done| | |].
    + destruct Hfd as [?|Hfd]; [by left|right]. cbn. destruct (wk_reactor s); set_solver.
    + intros Hr Hfl. by eapply wake_coming_step, Hf.
    + intros x Hr [Hx|Hx]%elem_of_app.
      * destruct (Hch x Hr Hx) as [?|[?|[?|?]]]; [left; by eapply wake_coming_step| |by do 2 right; left|by do 3 right].
        right. left. by eapply announcing_step.
      * apply list_elem_of_singleton in Hx as ->. right. left. left. cbn. by eapply elem_insert_self.
  - destruct (wk_fd s) eqn:Efd; intros [= <-]; (split; cbn; [done| | |]).
    + left. done.
    + intros Hr Hfl. by eapply wake_coming_step, Hf.
    + intros x Hr Hx. destruct (decide (x = p)) as [->|Hne].
      { right. left. right. cbn. by eapply elem_insert_self. }
      destruct (Hch x Hr Hx) as [?|[?|[?|?]]]; [left; by eapply wake_coming_step| |by do 2 right; left|by do 3 right].
      right. left. eapply announcing_step; [done|congruence|done|done|done].
    + destruct Hfd as [?|Hfd]; [congruence|by right].
    + intros Hr Hfl. by eapply wake_coming_step, Hf.
    + intros x Hr Hx. destruct Hfd as [?|Hfd]; [congruence|]. destruct (wk_reactor s) as [|l| | |] eqn:Er; try done.
      cbn. destruct (decide (x = p)) as [->|Hne]; [do 3 right; set_solver|].
      destruct (Hch x Hr Hx) as [?|[?|[?|?]]];
        [left; by eapply wake_coming_step| |by do 2 right; left|do 3 right; apply elem_of_app; by left].
      right. left. eapply announcing_step; [done|congruence|done|done|done].
  - intros [= <-]. split; cbn; [done|done| |].
    + intros Hr _. destruct (wk_flag s) eqn:Hfl; [by eapply wake_coming_step, Hf|].
      right. cbn. by eapply elem_insert_self.
    + intros x Hr Hx. destruct (wk_flag s) eqn:Hfl; [|left; right; cbn; by eapply elem_insert_self].
      destruct (rc_clearing (wk_reactor s)) eqn:Ecl;
        [|left; eapply wake_coming_step; [done..|apply Hf; [by destruct (wk_reactor s)|done]]].
      destruct (decide (x = p)) as [->|Hne]; [do 2 right; left; cbn; set_solver|].
      destruct (Hch x Hr Hx) as [?|[?|[?|?]]];
        [left; by eapply wake_coming_step| |do 2 right; left; apply elem_of_app; by left|by do 3 right].
      right. left. eapply announcing_step; [done|done|congruence|done|done].
  - intros [= <-]. split; cbn; [lia|done| |].
    + intros _ _. left. cbn. lia.
    + intros x _ _. left. left. cbn. lia.
Qed.

Lemma reactor_exec_inv ready s s' : wk_inv s -> reactor_exec ready s = Some s' -> wk_inv s'.
Proof.
  intros [Hc Hfd Hf Hch]. unfold reactor_exec. unfold eventfd_coming in Hfd.
  destruct (wk_reactor s) as [|batch| | |control] eqn:Hr.
  - intros [= <-]. split; cbn; [done|done|done|]. intros p _ Hp. by apply not_elem_of_nil in Hp.
  - intros [= <-]. split; cbn; [done| |done|]; [|intros p _ Hp; by apply Hch].
    left. cbn. destruct Hfd as [->|Hfd]; [done|]. rewrite (bool_decide_eq_true_2 _ Hfd). apply orb_true_r.
  - intros [= <-]. split; cbn; [done| |done|]; [by left; destruct Hfd|]. intros p _ Hp. by apply Hch.
  - destruct (ready || (0 <? wk_counter s)); [|done]. intros [= <-]. split; cbn; [done| |done|done]. by left; destruct Hfd.
  - intros [= <-]. split; cbn; [by destruct control| |done|done]. by left; destruct Hfd.
Qed.

Lemma wk_run_inv sched s s' : wk_inv s -> wk_run sched s = Some s' -> wk_inv s'.
Proof.
  revert s. induction sched as [|m sched IH]; intros s Hi; cbn; [by intros [= <-]|].
  destruct (wk_exec m s) as [s1|] eqn:E; [|done]. cbn. apply IH.
  destruct m; cbn in E; [by eapply writer_exec_inv|by eapply reactor_exec_inv].
Qed.

(** Once the eventfd is known no change is early any more. *)
Lemma wk_exec_not_early m s s' :
  wk_fd s = true -> wk_early s = [] -> wk_exec m s = Some s' -> wk_fd s' = true /\ wk_early s' = [].
Proof.
  intros Hfd He. destruct m as [t a|ready]; cbn; [unfold writer_exec|unfold reactor_exec].
  - destruct (wk_writers s !! t) as [pc|]; [|done]. cbn. rewrite Hfd.
    by destruct pc, a; try done; intros [= <-].
  - rewrite Hfd. destruct (wk_reactor s); try (by intros [= <-]). by destruct (_ || _); intros [= <-].
Qed.
Lemma wk_run_not_early sched s s' :
  wk_fd s = true -> wk_early s = [] -> wk_run sched s = Some s' -> wk_early s' = [].
Proof.
  revert s. induction sched as [|m sched IH]; intros s Hfd He; cbn; [by intros [= <-]|].
  destruct (wk_exec m s) as [s1|] eqn:E; [|done]. cbn.
  destruct (wk_exec_not_early _ _ _ Hfd He E) as [??]. by apply IH.
Qed.

(** C36 — From [reactor::init] on, for any number of threads and any interleaving:
    when the reactor waits with nothing to wake it and no thread is about to,
    every change it has not loaded was written after the change list was last
    swapped, in one of two windows: by a thread that found the flag still set
    from an earlier wake-up before the reactor cleared it, or, in the round that
    loads the control event, by a thread that found no eventfd yet. No other
    wake-up is ever lost. That [eventfd] succeeded is assumed. *)
Theorem wakeups_lost_only_in_window n sched s :
  wk_run sched (wakeup_new n) = Some s ->
  wk_reactor s = RcWait -> wk_counter s = 0 -> Forall (fun pc => pc = WrIdle) (wk_writers s) ->
  Forall (fun p => p ∈ wk_late s \/ p ∈ wk_early s) (wk_changes s).
Proof.
  intros Hrun Hr Hc Hidle. destruct (wk_run_inv _ _ _ (wakeup_new_inv n) Hrun) as [_ _ _ Hch].
  apply Forall_forall. intros p Hp. rewrite Hr in Hch.
  assert (forall pc, pc ∈ wk_writers s -> pc = WrIdle) as Hall by by apply Forall_forall.
  destruct (Hch p I Hp) as [[?|Hin]|[[Hin|Hin]|?]]; [lia| | | |done]; by apply Hall in Hin.
Qed.

(** Both windows are there. A second thread adds an event after the reactor,
    woken by the first, has swapped the list, and before it clears the flag; the
    reactor then waits, and the event with it. *)
Definition first_round : list wk_move := replicate 3 (WkReactor false).
Definition lost_sched : list wk_move :=
  first_round ++
  [WkWriter 0 (WkAdd 1); WkWriter 0 WkGo; WkWriter 0 WkGo; WkWriter 0 WkGo;
   WkReactor false; WkReactor false; WkReactor false; WkReactor false;
   WkWriter 1 (WkAdd 2); WkWriter 1 WkGo; WkWriter 1 WkGo; WkReactor false].

Lemma wakeup_lost :
  exists s, wk_run lost_sched (wakeup_new 2) = Some s /\ wk_reactor s = RcWait /\
    wk_loaded s = [SIGIO_EVENT; CONTROL_EVENT; 1] /\ wk_changes s = [2] /\ wk_writers s = [WrIdle; WrIdle] /\
    wk_exec (WkReactor false) s = None.
Proof. eexists. split; [vm_compute; reflexivity|]. vm_compute. done. Qed.

(** And in the first round, before the control event of the swapped list is
    loaded, a thread's event is in the next list and nobody is woken. *)
Definition early_sched : list wk_move :=
  [WkReactor false; WkWriter 0 (WkAdd 1); WkWriter 0 WkGo; WkReactor false; WkReactor false].

Lemma wakeup_early_lost :
  exists s, wk_run early_sched (wakeup_new 1) = Some s /\ wk_reactor s = RcWait /\
    wk_loaded s = [SIGIO_EVENT; CONTROL_EVENT] /\ wk_changes s = [1] /\ wk_writers s = [WrIdle] /\
    wk_exec (WkReactor false) s = None.
Proof. eexists. split; [vm_compute; reflexivity|]. vm_compute. done. Qed.

Lemma wakeups_lost_only_in_window_witness :
  exists s, wk_run lost_sched (wakeup_new 2) = Some s /\ wk_changes s = [2] /\
    Forall (fun p => p ∈ wk_late s \/ p ∈ wk_early s) (wk_changes s).
Proof.
  eexists. split; [vm_compute; reflexivity|]. split; [reflexivity|].
  apply (wakeups_lost_only_in_window 2 lost_sched); [vm_compute; reflexivity|reflexivity|reflexivity|].
  repeat constructor.
Defined.
