(* ===== verification/LeftRight.v ===== *)
(** Left-right: wait-free reads of a replicated object
    (source/bee/thread/left_right.h, lr_vector.h, lr_list.h, lr_deque.h, lr_set.h,
    lr_map.h, lr_unordered_map.h).

    The two instances, the side readers are sent to, the version and the two
    read indicators are the shared state of a machine in the sense of Threads; a
    call of the user's function on an instance has a beginning and an end, so
    that a race would be visible.  The function of [apply_write] is a state
    [W] (what it captured by reference) with [invoke], since the code invokes
    it twice. *)

From S2P Require Import Prelude Threads.

Inductive LEFT_RIGHT := READS_LEFT | READS_RIGHT.
#[export] Instance LEFT_RIGHT_eq_dec : EqDecision LEFT_RIGHT.
Proof. solve_decision. Defined.

(** The instance that is not read. *)
Definition lr_other (sd : LEFT_RIGHT) : LEFT_RIGHT :=
  match sd with READS_LEFT => READS_RIGHT | READS_RIGHT => READS_LEFT end.

Definition CACHELINE_WORDS : nat := 64 / 8.
#[global] Arguments CACHELINE_WORDS : simpl never.
#[local] Arguments Nat.ltb : simpl never.

(** ** The read indicator with distributed counters *)

(** The number of counters: [hardware_concurrency()] or the default. *)
Definition ri_counters_nums (hardware_concurrency : nat) : nat :=
  if (hardware_concurrency =? 0)%nat then 8 else hardware_concurrency.

Definition ri_distributed_counter (nums : nat) : list Z := replicate (nums * CACHELINE_WORDS) 0.

(** [hash] is [std::hash<std::thread::id>] on the thread's number. *)
Definition thread_to_idx (hash : nat -> Z) (nums : nat) (t : nat) : nat :=
  Z.to_nat (hash t mod Z.of_nat nums) * CACHELINE_WORDS.

Definition ri_arrive (idx : nat) (counters : list Z) : list Z :=
  alter (fun n => u64 (n + 1)) idx counters.
Definition ri_depart (idx : nat) (counters : list Z) : list Z :=
  alter (fun n => u64 (n - 1)) idx counters.

Section left_right.
Context {T W : Type}.
Variable invoke : W -> T -> W * T.
Variable hash : nat -> Z.
Variable nums : nat.

(** ** The machine *)

(** Where a thread stands: before the step its name says.  [LrRead] is inside
    the reader's function, [LrFirst] and [LrSecond] inside the writer's.
    [LrWait w sd pre next again idx] is in [is_empty] of the indicator [next],
    or of [pre] in the second wait, about to look at counter [idx]. *)
Inductive lr_pc :=
| LrIdle
| LrArrive (vi : Z)
| LrLoad (vi : Z)
| LrRead (vi : Z) (sd : LEFT_RIGHT)
| LrDepart (vi : Z)
| LrLocked (w : W)
| LrFirst (w : W) (sd : LEFT_RIGHT)
| LrPublish (w : W) (sd : LEFT_RIGHT)
| LrLoadVersion (w : W) (sd : LEFT_RIGHT)
| LrWait (w : W) (sd : LEFT_RIGHT) (pre next : Z) (again : bool) (idx : nat)
| LrToggle (w : W) (sd : LEFT_RIGHT) (pre next : Z)
| LrSecond (w : W) (sd : LEFT_RIGHT)
| LrUnlock.

Record left_right := mk_lr {
  lr_left_inst : T;
  lr_right_inst : T;
  lr_left_right : LEFT_RIGHT;
  lr_version_index : Z;
  lr_indic0 : list Z;
  lr_indic1 : list Z;
  lr_writer_lock : bool;
  lr_threads : list lr_pc;
}.

Definition lr_new (n : nat) (x : T) : left_right :=
  mk_lr x x READS_LEFT 0 (ri_distributed_counter nums) (ri_distributed_counter nums) false
    (replicate n LrIdle).

Definition lr_inst (sd : LEFT_RIGHT) (s : left_right) : T :=
  match sd with READS_LEFT => lr_left_inst s | READS_RIGHT => lr_right_inst s end.

Definition lr_indic (vi : Z) (s : left_right) : list Z :=
  if vi =? 0 then lr_indic0 s else lr_indic1 s.

Definition lr_goto (t : nat) (pc : lr_pc) (s : left_right) : left_right :=
  mk_lr (lr_left_inst s) (lr_right_inst s) (lr_left_right s) (lr_version_index s)
    (lr_indic0 s) (lr_indic1 s) (lr_writer_lock s) (<[t := pc]> (lr_threads s)).

Definition lr_set_inst (sd : LEFT_RIGHT) (x : T) (s : left_right) : left_right :=
  mk_lr (match sd with READS_LEFT => x | _ => lr_left_inst s end)
    (match sd with READS_RIGHT => x | _ => lr_right_inst s end) (lr_left_right s)
    (lr_version_index s) (lr_indic0 s) (lr_indic1 s) (lr_writer_lock s) (lr_threads s).

Definition lr_set_indic (vi : Z) (f : list Z -> list Z) (s : left_right) : left_right :=
  mk_lr (lr_left_inst s) (lr_right_inst s) (lr_left_right s) (lr_version_index s)
    (if vi =? 0 then f (lr_indic0 s) else lr_indic0 s)
    (if vi =? 0 then lr_indic1 s else f (lr_indic1 s)) (lr_writer_lock s) (lr_threads s).

Definition lr_set_vars (sd : LEFT_RIGHT) (vi : Z) (lock : bool) (s : left_right) : left_right :=
  mk_lr (lr_left_inst s) (lr_right_inst s) sd vi (lr_indic0 s) (lr_indic1 s) lock (lr_threads s).

Inductive lr_act := LrApplyRead | LrApplyWrite (w : W) | LrGo.

(** What a client can see: when a reader chose its instance, what its function
    was applied to, when a write got the lock and when it took effect. *)
Inductive lr_event := LrChose (t : nat) | LrReturned (t : nat) (x : T) | LrCalled (w : W) | LrCommitted.

Definition lr_exec (t : nat) (a : lr_act) (s : left_right) : option (left_right * list lr_event) :=
  pc ← lr_threads s !! t;
  let go pc s := Some (lr_goto t pc s, []) in
  match pc, a with
  (* apply_read *)
  | LrIdle, LrApplyRead => go (LrArrive (lr_version_index s)) s
  | LrArrive vi, LrGo => go (LrLoad vi) (lr_set_indic vi (ri_arrive (thread_to_idx hash nums t)) s)
  | LrLoad vi, LrGo => Some (lr_goto t (LrRead vi (lr_left_right s)) s, [LrChose t])
  | LrRead vi sd, LrGo => Some (lr_goto t (LrDepart vi) s, [LrReturned t (lr_inst sd s)])
  | LrDepart vi, LrGo => go LrIdle (lr_set_indic vi (ri_depart (thread_to_idx hash nums t)) s)
  (* apply_write *)
  | LrIdle, LrApplyWrite w =>
      if lr_writer_lock s then None
      else Some (lr_goto t (LrLocked w) (lr_set_vars (lr_left_right s) (lr_version_index s) true s),
                 [LrCalled w])
  | LrLocked w, LrGo => go (LrFirst w (lr_other (lr_left_right s))) s
  | LrFirst w sd, LrGo =>
      let '(w, x) := invoke w (lr_inst sd s) in go (LrPublish w sd) (lr_set_inst sd x s)
  | LrPublish w sd, LrGo =>
      Some (lr_goto t (LrLoadVersion w sd) (lr_set_vars sd (lr_version_index s) (lr_writer_lock s) s),
            [LrCommitted])
  | LrLoadVersion w sd, LrGo =>
      let local_vi := lr_version_index s in
      go (LrWait w sd (Z.land local_vi 1) (Z.land (local_vi + 1) 1) false 0) s
  | LrWait w sd pre next again idx, LrGo =>
      if (idx <? nums * CACHELINE_WORDS)%nat then
        n ← lr_indic (if again then pre else next) s !! idx;
        if n >? 0 then go (LrWait w sd pre next again 0) s
        else go (LrWait w sd pre next again (idx + CACHELINE_WORDS)) s
      else if again then go (LrSecond w sd) s
      else go (LrToggle w sd pre next) s
  | LrToggle w sd pre next, LrGo =>
      go (LrWait w sd pre next true 0) (lr_set_vars (lr_left_right s) next (lr_writer_lock s) s)
  | LrSecond w sd, LrGo =>
      let '(w, x) := invoke w (lr_inst (lr_other sd) s) in
      go LrUnlock (lr_set_inst (lr_other sd) x s)
  | LrUnlock, LrGo => go LrIdle (lr_set_vars (lr_left_right s) (lr_version_index s) false s)
  | _, _ => None
  end.

Fixpoint lr_run (sched : list (nat * lr_act)) (s : left_right) : option (left_right * list lr_event) :=
  match sched with
  | [] => Some (s, [])
  | (t, a) :: sched =>
      r ← lr_exec t a s;
      let '(s, evs) := r in
      r ← lr_run sched s;
      let '(s, evs') := r in
      Some (s, evs ++ evs')
  end.

(** ** The invariant *)

(** Counted in the indicator of version [vi] at [idx]. *)
Definition registered (vi : Z) (idx : nat) (t : nat) (pc : lr_pc) : bool :=
  match pc with
  | LrLoad v | LrRead v _ | LrDepart v => (v =? vi) && (thread_to_idx hash nums t =? idx)%nat
  | _ => false
  end.

Definition writing (_ : nat) (pc : lr_pc) : bool :=
  match pc with
  | LrIdle | LrArrive _ | LrLoad _ | LrRead _ _ | LrDepart _ => false
  | _ => true
  end.

(** A writer at [wpc] has not yet made sure that no reader registered at
    ([vi], [idx]) is left in the instance it will change. *)
Definition unchecked (wpc : lr_pc) (vi : Z) (idx : nat) : Prop :=
  match wpc with
  | LrLoadVersion _ _ => True
  | LrWait _ _ pre next again k =>
      vi = pre /\ (again = true -> (k <= idx)%nat) \/ vi = next /\ again = false /\ (k <= idx)%nat
  | LrToggle _ _ pre _ => vi = pre
  | _ => False
  end.

Definition is_version (v : Z) : Prop := v = 0 \/ v = 1.

(** Each point by itself. *)
Definition pc_inv (s : left_right) (pc : lr_pc) : Prop :=
  match pc with
  | LrArrive vi | LrLoad vi | LrRead vi _ | LrDepart vi => is_version vi
  | LrFirst _ sd | LrPublish _ sd => sd = lr_other (lr_left_right s)
  | LrLoadVersion _ sd | LrSecond _ sd => sd = lr_left_right s
  | LrWait _ sd pre next _ idx =>
      sd = lr_left_right s /\ is_version pre /\ next = 1 - pre /\
      exists k, idx = (k * CACHELINE_WORDS)%nat
  | LrToggle _ sd pre next => sd = lr_left_right s /\ is_version pre /\ next = 1 - pre
  | _ => True
  end.

Record lr_inv (s : left_right) : Prop := {
  lri_nums : (0 < nums)%nat;
  lri_version : is_version (lr_version_index s);
  lri_counters : forall vi, is_version vi -> length (lr_indic vi s) = (nums * CACHELINE_WORDS)%nat /\
    forall idx n, lr_indic vi s !! idx = Some n -> n = tally (registered vi idx) (lr_threads s);
  lri_lock : tally writing (lr_threads s) = Z.b2z (lr_writer_lock s);
  lri_pcs : forall t pc, lr_threads s !! t = Some pc -> pc_inv s pc;
  (* a reader in the instance readers are no longer sent to *)
  lri_stale : forall t vi sd, lr_threads s !! t = Some (LrRead vi sd) -> sd <> lr_left_right s ->
    exists tw wpc, lr_threads s !! tw = Some wpc /\ unchecked wpc vi (thread_to_idx hash nums t);
}.

Lemma lr_other_ne sd : lr_other sd <> sd.
Proof. by destruct sd. Qed.
Lemma lr_other_involutive sd : lr_other (lr_other sd) = sd.
Proof. by destruct sd. Qed.
Lemma lr_ne_other sd sd' : sd <> sd' -> sd = lr_other sd'.
Proof. by destruct sd, sd'. Qed.

Lemma thread_idx_spec t : (0 < nums)%nat ->
  (thread_to_idx hash nums t < nums * CACHELINE_WORDS)%nat /\
  exists k, thread_to_idx hash nums t = (k * CACHELINE_WORDS)%nat.
Proof.
  intros Hn. unfold thread_to_idx. split; [|eauto].
  pose proof (Z.mod_pos_bound (hash t) (Z.of_nat nums) ltac:(lia)). unfold CACHELINE_WORDS.
  change (64 / 8)%nat with 8%nat. lia.
Qed.

Lemma pc_inv_same s s' pc :
  lr_left_right s' = lr_left_right s \/ (forall t, writing t pc = false) -> pc_inv s pc -> pc_inv s' pc.
Proof. intros [E|E]; [by destruct pc; cbn; rewrite ?E|]. specialize (E 0%nat). by destruct pc. Qed.

(** A step of thread [t] from [pc] to [pc'], and what it owes. *)
Lemma inv_update s s' t pc pc' :
  lr_inv s -> lr_threads s !! t = Some pc -> lr_threads s' = <[t := pc']> (lr_threads s) ->
  is_version (lr_version_index s') ->
  (forall vi, is_version vi -> length (lr_indic vi s') = length (lr_indic vi s) /\
    forall idx n, lr_indic vi s' !! idx = Some n ->
      n = tally (registered vi idx) (lr_threads s) - Z.b2z (registered vi idx t pc)
            + Z.b2z (registered vi idx t pc')) ->
  Z.b2z (lr_writer_lock s') = Z.b2z (lr_writer_lock s) - Z.b2z (writing t pc) + Z.b2z (writing t pc') ->
  lr_left_right s' = lr_left_right s \/ writing t pc = true ->
  pc_inv s' pc' ->
  (forall vi sd, pc' = LrRead vi sd -> sd = lr_left_right s') ->
  (forall t' vi sd, lr_threads s !! t' = Some (LrRead vi sd) ->
    (lr_left_right s' = lr_left_right s -> unchecked pc vi (thread_to_idx hash nums t')) ->
    unchecked pc' vi (thread_to_idx hash nums t')) ->
  lr_inv s'.
Proof.
  intros [Hn Hv Hc Hl Hp Hs] Ht Hts Hv' Hc' Hl' Hlr Hpc Hrd Hst. split; [done|done|..]; rewrite ?Hts.
  - intros vi Hvi. destruct (Hc' vi Hvi) as [Hlen Hcnt]. split; [by rewrite Hlen; apply Hc|].
    intros idx n Hin. by rewrite (tally_insert _ _ _ _ _ Ht), (Hcnt _ _ Hin).
  - rewrite (tally_insert _ _ _ _ _ Ht). lia.
  - intros t' y Hy. apply step_cases in Hy as [[-> ->]|[Hne Hy]]; [done|].
    eapply pc_inv_same; [|by eapply Hp]. destruct Hlr as [?|Hw]; [by left|right].
    intros _t. destruct (writing t' y) eqn:E; [|by destruct y]. exfalso. apply Hne.
    eapply (tally_unique writing); [|exact Hy|exact Ht|done|done]. rewrite Hl. by destruct (lr_writer_lock s).
  - intros t' vi sd Hy Hsd. apply step_cases in Hy as [[-> Hy]|[Hne Hy]]; [symmetry in Hy; by apply Hrd in Hy|].
    destruct (decide (lr_left_right s' = lr_left_right s)) as [E|E].
    + rewrite E in Hsd. destruct (Hs _ _ _ Hy Hsd) as (tw & wpc & Htw & Hu).
      destruct (decide (tw = t)) as [->|Hnt].
      * exists t, pc'. rewrite list_lookup_insert_eq by (by eapply lookup_lt_Some). split; [done|].
        eapply Hst; [done|]. by simplify_eq.
      * exists tw, wpc. by rewrite list_lookup_insert_ne by done.
    + exists t, pc'. rewrite list_lookup_insert_eq by (by eapply lookup_lt_Some). split; [done|].
      eapply Hst; [done|]. done.
Qed.

(** A step that leaves the indicators alone. *)
Lemma inv_plain s s' t pc pc' :
  lr_inv s -> lr_threads s !! t = Some pc -> lr_threads s' = <[t := pc']> (lr_threads s) ->
  lr_indic0 s' = lr_indic0 s -> lr_indic1 s' = lr_indic1 s -> is_version (lr_version_index s') ->
  (forall vi idx, registered vi idx t pc' = registered vi idx t pc) ->
  Z.b2z (lr_writer_lock s') = Z.b2z (lr_writer_lock s) - Z.b2z (writing t pc) + Z.b2z (writing t pc') ->
  lr_left_right s' = lr_left_right s \/ writing t pc = true ->
  pc_inv s' pc' ->
  (forall vi sd, pc' = LrRead vi sd -> sd = lr_left_right s') ->
  (forall t' vi sd, lr_threads s !! t' = Some (LrRead vi sd) ->
    (lr_left_right s' = lr_left_right s -> unchecked pc vi (thread_to_idx hash nums t')) ->
    unchecked pc' vi (thread_to_idx hash nums t')) ->
  lr_inv s'.
Proof.
  intros Hi Ht Hts H0 H1 Hv Hr. eapply inv_update; [exact Hi|exact Ht|exact Hts|exact Hv|].
  intros vi Hvi. assert (lr_indic vi s' = lr_indic vi s) as -> by (unfold lr_indic; by rewrite H0, H1).
  split; [done|]. intros idx n Hin. rewrite Hr. apply (lri_counters _ Hi vi Hvi) in Hin. lia.
Qed.

(** [arrive] and [depart]: [d] is 1 or -1. *)
Lemma inv_count s t pc pc' vi d :
  lr_inv s -> len (lr_threads s) < 2 ^ 64 - 1 -> is_version vi -> lr_threads s !! t = Some pc ->
  (forall v idx, Z.b2z (registered v idx t pc') = Z.b2z (registered v idx t pc) +
     (if (v =? vi) && (thread_to_idx hash nums t =? idx)%nat then d else 0)) ->
  writing t pc = false -> writing t pc' = false ->
  (forall s', pc_inv s' pc') -> (forall v sd, pc' <> LrRead v sd) -> (d = 1 \/ d = -1) ->
  lr_inv (lr_goto t pc' (lr_set_indic vi (alter (fun n => u64 (n + d)) (thread_to_idx hash nums t)) s)).
Proof.
  intros Hi Hlen Hvi Ht Hreg Hw Hw' Hpc Hrd Hd.
  eapply (inv_update s _ t pc pc'); [done|done|done|apply Hi| | |by left|done|..].
  - intros v Hv. destruct (lri_counters _ Hi v Hv) as [_ Hcnt].
    assert (lr_indic v (lr_goto t pc' (lr_set_indic vi (alter (fun n => u64 (n + d)) (thread_to_idx hash nums t)) s))
            = if v =? vi then alter (fun n => u64 (n + d)) (thread_to_idx hash nums t) (lr_indic v s)
              else lr_indic v s) as ->.
    { destruct Hv, Hvi; subst; done. }
    split; [destruct (v =? vi); by rewrite ?length_alter|]. intros idx n Hin.
    specialize (Hreg v idx). destruct (Z.eqb_spec v vi) as [->|]; cbn in Hreg.
    + destruct (Nat.eqb_spec (thread_to_idx hash nums t) idx) as [E|].
      * subst idx. rewrite list_lookup_alter in Hin. case_decide; [|done].
        destruct (lr_indic vi s !! _) as [m|] eqn:Em; cbn in Hin; [|done].
        injection Hin as <-. apply Hcnt in Em as ->.
        pose proof (tally_bound (registered vi (thread_to_idx hash nums t)) (lr_threads s)) as Hb.
        pose proof (tally_pos (registered vi (thread_to_idx hash nums t)) _ _ _ Ht) as Hpos.
        rewrite wrapU_small; [lia|]. unfold inU.
        destruct (registered vi (thread_to_idx hash nums t) t pc) eqn:E; cbn in *;
          destruct (registered vi (thread_to_idx hash nums t) t pc'); cbn in *; try lia.
      * rewrite list_lookup_alter, decide_False in Hin by done. apply Hcnt in Hin. lia.
    + apply Hcnt in Hin. lia.
  - rewrite Hw, Hw'. cbn. lia.
  - intros v sd E. by destruct (Hrd v sd).
  - intros t' v sd Ht' Hu. specialize (Hu eq_refl). by destruct pc.
Qed.

Lemma unchecked_writing pc vi idx t : unchecked pc vi idx -> writing t pc = true.
Proof. by destruct pc. Qed.

Lemma version_land v : is_version v -> Z.land v 1 = v /\ Z.land (v + 1) 1 = 1 - v.
Proof. by intros [-> | ->]. Qed.

Lemma lr_exec_threads t a s s' evs :
  lr_exec t a s = Some (s', evs) -> exists pc', lr_threads s' = <[t := pc']> (lr_threads s).
Proof.
  unfold lr_exec. destruct (lr_threads s !! t) as [pc|]; [|done]. cbn.
  destruct pc, a; cbn; intros H; repeat (case_match; try discriminate); simplify_eq; cbn; eauto.
  all: destruct (lr_indic _ _ !! _); cbn in *; repeat (case_match; try discriminate); simplify_eq; cbn; eauto.
Qed.

(** A counter that reads zero: no reader is registered there. *)
Lemma counter_zero s vi idx n t v sd :
  lr_inv s -> is_version vi -> lr_indic vi s !! idx = Some n -> n <= 0 ->
  lr_threads s !! t = Some (LrRead v sd) -> v = vi -> thread_to_idx hash nums t <> idx.
Proof.
  intros Hi Hv Hin Hn Ht -> E. apply (lri_counters _ Hi vi Hv) in Hin as ->.
  pose proof (tally_pos (registered vi idx) _ _ _ Ht) as Hp. cbn in Hp.
  rewrite Z.eqb_refl, E, Nat.eqb_refl in Hp. specialize (Hp eq_refl). lia.
Qed.

(** The scan moves on: the counter just read was zero. *)
Lemma wait_step s t w sd pre next again idx n :
  lr_inv s -> lr_threads s !! t = Some (LrWait w sd pre next again idx) ->
  lr_indic (if again then pre else next) s !! idx = Some n -> n <= 0 ->
  lr_inv (lr_goto t (LrWait w sd pre next again (idx + CACHELINE_WORDS)) s).
Proof.
  intros Hi Ht Hin Hn. pose proof (lri_pcs _ Hi _ _ Ht) as (-> & Hpre & -> & k & ->).
  assert (is_version (if again then pre else 1 - pre)) as Hver.
  { destruct again; [done|]. destruct Hpre; subst; [right|left]; done. }
  eapply inv_plain; [exact Hi|exact Ht|done|done|done|apply Hi|done|cbn; lia|by left| |done|].
  - cbn. split; [done|]. split; [done|]. split; [done|]. exists (S k). lia.
  - intros t' vi sd Ht' Hu. specialize (Hu eq_refl). cbn [unchecked] in *.
    destruct (thread_idx_spec t' (lri_nums _ Hi)) as [_ [k' Hk']].
    assert (forall v, v = vi -> v = (if again then pre else 1 - pre) -> (k * CACHELINE_WORDS <= thread_to_idx hash nums t')%nat ->
      (k * CACHELINE_WORDS + CACHELINE_WORDS <= thread_to_idx hash nums t')%nat) as Hstep.
    { intros v -> Hvi Hle. pose proof (counter_zero _ _ _ _ _ _ _ Hi Hver Hin Hn Ht' Hvi) as Hne.
      rewrite Hk' in *. unfold CACHELINE_WORDS in *. change (64 / 8)%nat with 8%nat in *. lia. }
    destruct Hu as [[-> Hu]|(-> & -> & Hu)].
    + left. split; [done|]. intros ->. by eapply Hstep; auto.
    + right. split; [done|]. split; [done|]. by eapply Hstep.
Qed.

Lemma wait_done s t w sd pre next again idx :
  lr_inv s -> lr_threads s !! t = Some (LrWait w sd pre next again idx) ->
  (nums * CACHELINE_WORDS <= idx)%nat ->
  lr_inv (lr_goto t (if again then LrSecond w sd else LrToggle w sd pre next) s).
Proof.
  intros Hi Ht Hge. pose proof (lri_pcs _ Hi _ _ Ht) as (-> & Hpre & -> & _).
  eapply inv_plain; [exact Hi|exact Ht|done|done|done|apply Hi|by destruct again|destruct again; cbn; lia|by left
    |by destruct again|by destruct again|].
  intros t' vi sd Ht' Hu. specialize (Hu eq_refl). cbn [unchecked] in *.
  destruct (thread_idx_spec t' (lri_nums _ Hi)) as [Hlt _].
  destruct Hu as [[-> Hu]|(-> & -> & Hu)]; [|lia]. destruct again; cbn; [|done].
  specialize (Hu eq_refl). lia.
Qed.

Lemma lr_exec_inv t a s s' evs :
  lr_inv s -> len (lr_threads s) < 2 ^ 64 - 1 -> lr_exec t a s = Some (s', evs) -> lr_inv s'.
Proof.
  intros Hi Hlen. unfold lr_exec. destruct (lr_threads s !! t) as [pc|] eqn:Ht; [|done]. cbn.
  pose proof (lri_pcs _ Hi _ _ Ht) as Hpc.
  destruct pc, a; try discriminate; cbn [pc_inv] in Hpc.
  - intros [= <- <-]. eapply inv_plain; [exact Hi|exact Ht|done..|apply Hi|done|cbn; lia|by left|apply Hi|done|].
    intros t' vi sd _ Hu. by specialize (Hu eq_refl).
  - destruct (lr_writer_lock s) eqn:Hl; [done|]. intros [= <- <-].
    eapply inv_plain; [exact Hi|exact Ht|done..|apply Hi|done|by cbn; rewrite Hl|by left|done|done|].
    intros t' vi sd _ Hu. by specialize (Hu eq_refl).
  - intros [= <- <-]. eapply (inv_count s t _ _ vi 1); try done; [|by left]. intros v idx. cbn.
    rewrite (Z.eqb_sym vi v). by destruct (_ && _).
  - intros [= <- <-]. eapply inv_plain; [exact Hi|exact Ht|done..|apply Hi|done|cbn; lia|by left|done| |].
    + by intros ? ? [= _ <-].
    + intros t' v sd _ Hu. by specialize (Hu eq_refl).
  - intros [= <- <-]. eapply inv_plain; [exact Hi|exact Ht|done..|apply Hi|done|cbn; lia|by left|done|done|].
    intros t' v sd' _ Hu. by specialize (Hu eq_refl).
  - intros [= <- <-]. eapply (inv_count s t _ _ vi (-1)); try done; [|by right]. intros v idx. cbn.
    rewrite (Z.eqb_sym vi v). by destruct (_ && _).
  - intros [= <- <-]. eapply inv_plain; [exact Hi|exact Ht|done..|apply Hi|done|cbn; lia|by left|done|done|].
    intros t' v sd _ Hu. by specialize (Hu eq_refl).
  - destruct (invoke w (lr_inst sd s)) as [w' x]. intros [= <- <-].
    eapply inv_plain; [exact Hi|exact Ht|by destruct sd..|apply Hi|done|cbn; lia|by left|done|done|].
    intros t' v sd' _ Hu. by specialize (Hu eq_refl).
  - intros [= <- <-]. eapply inv_plain; [exact Hi|exact Ht|done..|apply Hi|done|cbn; lia|by right|done|done|].
    by cbn.
  - intros [= <- <-]. destruct (version_land _ (lri_version _ Hi)) as [-> ->].
    eapply inv_plain; [exact Hi|exact Ht|done..|apply Hi|done|cbn; lia|by left| |done|].
    + cbn. split; [done|]. split; [apply Hi|]. split; [done|]. by exists 0%nat.
    + intros t' v sd' Ht' _. cbn. pose proof (lri_pcs _ Hi _ _ Ht') as Hv. cbn in Hv.
      destruct Hv, (lri_version _ Hi) as [-> | ->]; subst; auto with lia.
      all: right; repeat split; lia.
  - destruct (Nat.ltb_spec idx (nums * CACHELINE_WORDS)) as [Hlt|Hge].
    + destruct (lr_indic _ s !! idx) as [n|] eqn:En; cbn; [|done].
      destruct (Z.gtb_spec n 0); intros [= <- <-]; [|by eapply wait_step].
      destruct Hpc as (-> & Hpre & -> & _).
      eapply inv_plain; [exact Hi|exact Ht|done..|apply Hi|done|cbn; lia|by left| |done|].
      * cbn. split; [done|]. split; [done|]. split; [done|]. by exists 0%nat.
      * intros t' v sd' Ht' Hu. specialize (Hu eq_refl). cbn [unchecked] in *.
        destruct Hu as [[-> Hu]|(-> & -> & Hu)]; [left|right]; repeat split; lia.
    + intros H. assert (s' = lr_goto t (if again then LrSecond w sd else LrToggle w sd pre next) s) as ->.
      { destruct again; by simplify_eq. }
      by eapply wait_done.
  - intros [= <- <-]. destruct Hpc as (-> & Hpre & ->).
    eapply inv_plain; [exact Hi|exact Ht|done..| |done|cbn; lia|by left| |done|].
    + cbn. destruct Hpre as [-> | ->]; [by right|by left].
    + cbn. split; [done|]. split; [done|]. split; [done|]. by exists 0%nat.
    + intros t' v sd' Ht' Hu. specialize (Hu eq_refl). cbn in *. left. split; [done|]. lia.
  - destruct (invoke w (lr_inst (lr_other sd) s)) as [w' x]. intros [= <- <-].
    eapply inv_plain; [exact Hi|exact Ht|by destruct sd..|apply Hi|done|cbn; lia|by left|done|done|].
    intros t' v sd' _ Hu. by specialize (Hu eq_refl).
  - intros [= <- <-]. eapply inv_plain; [exact Hi|exact Ht|done..|apply Hi|done| |by left|done|done|].
    + cbn. pose proof (tally_pos writing _ _ _ Ht eq_refl). rewrite (lri_lock _ Hi) in H.
      destruct (lr_writer_lock s); cbn in *; lia.
    + intros t' v sd' _ Hu. by specialize (Hu eq_refl).
Qed.

(** ** The abstract object

    One value: a write takes effect at once, a read returns the value there was
    when it chose its instance. *)

Record lr_spec := mk_lr_spec { sp_value : T; sp_reads : gmap nat T; sp_write : option W }.

Inductive lr_spec_step : lr_spec -> lr_event -> lr_spec -> Prop :=
| SpecChose x rs w t : lr_spec_step (mk_lr_spec x rs w) (LrChose t) (mk_lr_spec x (<[t := x]> rs) w)
| SpecReturned x rs w t y :
    rs !! t = Some y -> lr_spec_step (mk_lr_spec x rs w) (LrReturned t y) (mk_lr_spec x rs w)
| SpecCalled x rs w0 w : lr_spec_step (mk_lr_spec x rs w0) (LrCalled w) (mk_lr_spec x rs (Some w))
| SpecCommitted x rs w :
    lr_spec_step (mk_lr_spec x rs (Some w)) LrCommitted (mk_lr_spec (invoke w x).2 rs (Some w)).

Inductive lr_spec_run : lr_spec -> list lr_event -> lr_spec -> Prop :=
| SpecDone sp : lr_spec_run sp [] sp
| SpecMore sp e sp' evs sp'' :
    lr_spec_step sp e sp' -> lr_spec_run sp' evs sp'' -> lr_spec_run sp (e :: evs) sp''.

Lemma lr_spec_run_app sp evs sp' evs' sp'' :
  lr_spec_run sp evs sp' -> lr_spec_run sp' evs' sp'' -> lr_spec_run sp (evs ++ evs') sp''.
Proof. induction 1; [done|]. intros. econstructor; eauto. Qed.

(** Invoking the function again does again what it did. *)
Definition repeatable : Prop := forall w x, (invoke (invoke w x).1 x).2 = (invoke w x).2.

(** What the instances hold while a writer is at [pc]. *)
Definition pc_values (s : left_right) (sp : lr_spec) (pc : lr_pc) : Prop :=
  let cur := lr_inst (lr_left_right s) s in
  let old := lr_inst (lr_other (lr_left_right s)) s in
  match pc with
  | LrLocked w | LrFirst w _ => sp_write sp = Some w /\ old = cur
  | LrPublish w _ => exists w0, sp_write sp = Some w0 /\ invoke w0 cur = (w, old)
  | LrLoadVersion w _ | LrWait w _ _ _ _ _ | LrToggle w _ _ _ | LrSecond w _ =>
      exists w0, invoke w0 old = (w, cur)
  | LrUnlock => old = cur
  | _ => True
  end.

Record lr_rel (s : left_right) (sp : lr_spec) : Prop := {
  lrr_inv : lr_inv s;
  lrr_value : sp_value sp = lr_inst (lr_left_right s) s;
  lrr_reads : forall t vi sd, lr_threads s !! t = Some (LrRead vi sd) -> sp_reads sp !! t = Some (lr_inst sd s);
  lrr_writer : forall t pc, lr_threads s !! t = Some pc -> writing t pc = true -> pc_values s sp pc;
  lrr_idle : lr_writer_lock s = false -> lr_inst READS_LEFT s = lr_inst READS_RIGHT s;
}.

(** While a writer is inside its function nobody reads the other instance. *)
Lemma no_stale s t pc t' vi sd :
  lr_inv s -> lr_threads s !! t = Some pc -> writing t pc = true ->
  (forall v idx, ~ unchecked pc v idx) -> lr_threads s !! t' = Some (LrRead vi sd) -> sd = lr_left_right s.
Proof.
  intros Hi Ht Hw Hu Ht'. destruct (decide (sd = lr_left_right s)); [done|]. exfalso.
  destruct (lri_stale _ Hi _ _ _ Ht' ltac:(done)) as (tw & wpc & Htw & Hun).
  assert (tw = t) as ->.
  { eapply (tally_unique writing); [|exact Htw|exact Ht|by eapply unchecked_writing|done].
    rewrite (lri_lock _ Hi). by destruct (lr_writer_lock s). }
  simplify_eq. by eapply Hu.
Qed.

Lemma writer_unique s t pc t' pc' :
  lr_inv s -> lr_threads s !! t = Some pc -> lr_threads s !! t' = Some pc' ->
  writing t pc = true -> writing t' pc' = true -> t' = t.
Proof.
  intros Hi Ht Ht' Hw Hw'. eapply (tally_unique writing); [|done..].
  rewrite (lri_lock _ Hi). by destruct (lr_writer_lock s).
Qed.

Lemma lock_held s t pc :
  lr_inv s -> lr_threads s !! t = Some pc -> writing t pc = true -> lr_writer_lock s = true.
Proof.
  intros Hi Ht Hw. pose proof (tally_pos writing _ _ _ Ht Hw) as H. rewrite (lri_lock _ Hi) in H.
  by destruct (lr_writer_lock s).
Qed.

Lemma equal_instances s : lr_inst (lr_other (lr_left_right s)) s = lr_inst (lr_left_right s) s ->
  lr_inst READS_LEFT s = lr_inst READS_RIGHT s.
Proof. by destruct (lr_left_right s). Qed.

(** A step that leaves the instances and the side alone. *)
Lemma rel_goto s s' t pc pc' sp :
  lr_rel s sp -> lr_inv s' -> lr_threads s !! t = Some pc -> lr_threads s' = <[t := pc']> (lr_threads s) ->
  (forall sd, lr_inst sd s' = lr_inst sd s) -> lr_left_right s' = lr_left_right s ->
  (forall vi sd, pc' = LrRead vi sd -> exists vi', pc = LrRead vi' sd) ->
  (writing t pc' = true -> pc_values s sp pc') ->
  (lr_writer_lock s' = false -> lr_inst READS_LEFT s = lr_inst READS_RIGHT s) ->
  lr_rel s' sp.
Proof.
  intros [Hi Hv Hr Hw Hl] Hi' Ht Hts Hin Hlr Hrd Hpc Hl'. split; [done|..]; rewrite ?Hts, ?Hlr, ?Hin; try done.
  - intros t' vi sd Hy. rewrite Hin. apply step_cases in Hy as [[-> Hy]|[_ Hy]]; [|by eapply Hr].
    symmetry in Hy. destruct (Hrd _ _ Hy) as [vi' ->]. by eapply Hr.
  - intros t' y Hy Hwy. assert (pc_values s sp y) as Hpv.
    { apply step_cases in Hy as [[-> ->]|[_ Hy]]; [by apply Hpc|by eapply Hw]. }
    destruct y; cbn in *; rewrite ?Hlr, ?Hin; done.
Qed.

(** The writer writes the instance [sd] nobody reads. *)
Lemma rel_set_inst s t pc pc' sp x sd :
  lr_rel s sp -> lr_inv (lr_goto t pc' (lr_set_inst sd x s)) -> lr_threads s !! t = Some pc ->
  writing t pc = true -> (forall v idx, ~ unchecked pc v idx) -> (forall v sd, pc' <> LrRead v sd) ->
  sd = lr_other (lr_left_right s) -> writing t pc' = true ->
  pc_values (lr_set_inst sd x s) sp pc' -> lr_rel (lr_goto t pc' (lr_set_inst sd x s)) sp.
Proof.
  intros [Hi Hv Hr Hw Hl] Hi' Ht Hwr Hun Hrd -> Hwr' Hpc. split; [done|..].
  - rewrite Hv. cbn. by destruct (lr_left_right s).
  - cbn. intros t' vi sd Hy. apply step_cases in Hy as [[-> Hy]|[_ Hy]]; [by destruct (Hrd vi sd)|].
    rewrite (Hr _ _ _ Hy). rewrite (no_stale _ _ _ _ _ _ Hi Ht Hwr Hun Hy). by destruct (lr_left_right s).
  - cbn. intros t' y Hy Hwy. apply step_cases in Hy as [[-> ->]|[Hne Hy]]; [by destruct pc'|].
    destruct Hne. eapply writer_unique; [exact Hi|exact Ht|exact Hy|done|done].
  - intros E. pose proof (lock_held _ t pc' Hi') as H. cbn in *. rewrite E in H.
    rewrite list_lookup_insert_eq in H by (by eapply lookup_lt_Some). by specialize (H eq_refl Hwr').
Qed.

Lemma lr_exec_rel t a s s' evs sp :
  repeatable -> lr_rel s sp -> len (lr_threads s) < 2 ^ 64 - 1 -> lr_exec t a s = Some (s', evs) ->
  exists sp', lr_spec_run sp evs sp' /\ lr_rel s' sp'.
Proof.
  intros Hrep HR Hlen Hex. pose proof (lr_exec_inv _ _ _ _ _ (lrr_inv _ _ HR) Hlen Hex) as Hi'.
  revert Hex. unfold lr_exec. destruct (lr_threads s !! t) as [pc|] eqn:Ht; [|done]. cbn.
  pose proof HR as [Hi Hv Hr Hw Hl]. pose proof (lri_pcs _ Hi _ _ Ht) as Hpc.
  pose proof (lock_held _ _ _ Hi Ht) as Hlock.
  assert (forall s'' pc', s' = lr_goto t pc' s'' -> (forall sd, lr_inst sd s'' = lr_inst sd s) ->
    lr_left_right s'' = lr_left_right s -> lr_threads s'' = lr_threads s ->
    (forall vi sd, pc' = LrRead vi sd -> exists vi', pc = LrRead vi' sd) ->
    (writing t pc' = true -> pc_values s sp pc') ->
    (lr_writer_lock s'' = false -> lr_inst READS_LEFT s = lr_inst READS_RIGHT s) ->
    exists sp', lr_spec_run sp [] sp' /\ lr_rel s' sp') as Hgoto.
  { intros s'' pc' -> Hin Hlr Hts Hrd Hpv Hll. exists sp. split; [constructor|].
    eapply (rel_goto s _ t pc pc'); try done. cbn. by rewrite Hts. }
  destruct pc, a; try discriminate; cbn [pc_inv writing] in *.
  - intros [= <- <-]. by eapply Hgoto.
  - destruct (lr_writer_lock s) eqn:El; [done|]. intros [= <- <-].
    exists (mk_lr_spec (sp_value sp) (sp_reads sp) (Some w)). destruct sp as [sx sr sw]. cbn in *.
    split; [econstructor; constructor|]. split; [done|done|..]; cbn.
    + intros t' vi sd Hy. apply step_cases in Hy as [[_ ?]|[_ Hy]]; [done|]. by apply (Hr t' vi).
    + intros t' y Hy Hwy. apply step_cases in Hy as [[-> ->]|[Hne Hy]]; cbn.
      * split; [done|]. specialize (Hl eq_refl). cbn in Hl. by destruct (lr_left_right s).
      * pose proof (lock_held _ _ _ Hi Hy Hwy). congruence.
    + done.
  - intros [= <- <-]. by eapply Hgoto.
  - intros [= <- <-]. destruct sp as [sx sr sw]. cbn in *. eexists.
    split; [econstructor; constructor|]. split; [done|done|..]; cbn.
    + intros t' v sd Hy. apply step_cases in Hy as [[-> Hy]|[Hne Hy]].
      * injection Hy as -> ->. by rewrite lookup_insert_eq, Hv.
      * rewrite lookup_insert_ne by done. by apply (Hr t' v).
    + intros t' y Hy Hwy. apply step_cases in Hy as [[-> ->]|[Hne Hy]]; [done|]. specialize (Hw _ _ Hy Hwy).
      by destruct y.
    + done.
  - intros [= <- <-]. destruct (Hgoto s (LrDepart vi) eq_refl) as (sp' & _ & HR'); try done.
    exists sp. destruct sp as [sx sr sw]. cbn in *. split; [econstructor; [constructor; by eapply Hr|constructor]|].
    eapply (rel_goto s _ t); try done.
  - intros [= <- <-]. by eapply Hgoto.
  - intros [= <- <-]. eapply Hgoto; try done. intros _. by apply (Hw _ _ Ht).
  - pose proof (Hw _ _ Ht eq_refl) as [Hsw Heq]. cbn in Heq. subst sd.
    destruct (invoke w _) as [w' x] eqn:Einv. intros [= <- <-]. exists sp. split; [constructor|].
    eapply (rel_set_inst s t); try done; [by intros ?? []|]. cbn. exists w. split; [done|].
    rewrite Heq in Einv. destruct (lr_left_right s); cbn in *; congruence.
  - pose proof (Hw _ _ Ht eq_refl) as (w0 & Hsw & Hin). subst sd. intros [= <- <-].
    destruct sp as [sx sr sw]. cbn in *. subst sw sx. eexists.
    split; [econstructor; constructor|]. cbn in *. split; [done|..]; cbn.
    + rewrite Hin. done.
    + intros t' v sd Hy. apply step_cases in Hy as [[_ ?]|[_ Hy]]; [done|]. by apply (Hr t' v).
    + intros t' y Hy Hwy. apply step_cases in Hy as [[-> ->]|[Hne Hy]].
      * cbn. exists w0. rewrite lr_other_involutive. done.
      * destruct Hne. eapply writer_unique; [exact Hi|exact Ht|exact Hy|done|done].
    + rewrite (Hlock eq_refl). done.
  - intros [= <- <-]. eapply Hgoto; try done. intros _. by apply (Hw _ _ Ht).
  - intros Hst. assert (exists pc', s' = lr_goto t pc' s /\ evs = [] /\
      ((exists k, pc' = LrWait w sd pre next again k) \/ pc' = LrSecond w sd \/ pc' = LrToggle w sd pre next))
      as (pc' & -> & -> & Hcase).
    { destruct (idx <? _)%nat; [destruct (lr_indic _ s !! idx) as [n|]; cbn in Hst; [destruct (n >? 0)|done]
        |destruct again]; simplify_eq; eexists; (split; [done|split; [done|eauto]]). }
    pose proof (Hw _ _ Ht eq_refl) as Hval.
    destruct Hcase as [[k ->]|[-> | ->]]; (eapply Hgoto; [done..|intros _; exact Hval|done]).
  - intros [= <- <-]. pose proof (Hw _ _ Ht eq_refl) as Hval. by eapply Hgoto.
  - subst sd. pose proof (Hw _ _ Ht eq_refl) as (w0 & Hin). cbn in Hin.
    destruct (invoke w _) as [w' x] eqn:Einv. intros [= <- <-]. exists sp. split; [constructor|].
    eapply (rel_set_inst s t); try done; [by intros ?? []|]. cbn.
    pose proof (Hrep w0 (lr_inst (lr_other (lr_left_right s)) s)) as Hr2. rewrite Hin in Hr2. cbn in Hr2.
    rewrite Einv in Hr2. cbn in Hr2. subst x. by destruct (lr_left_right s).
  - intros [= <- <-]. eapply Hgoto; try done. intros _. apply equal_instances. by apply (Hw _ _ Ht).
Qed.

Lemma lr_exec_len t a s s' evs : lr_exec t a s = Some (s', evs) -> len (lr_threads s') = len (lr_threads s).
Proof. intros H. apply lr_exec_threads in H as [pc ->]. unfold len. by rewrite length_insert. Qed.

Lemma lr_run_cons t a sched s s'' evs :
  lr_run ((t, a) :: sched) s = Some (s'', evs) ->
  exists s' evs1 evs2, lr_exec t a s = Some (s', evs1) /\ lr_run sched s' = Some (s'', evs2) /\
    evs = evs1 ++ evs2.
Proof.
  cbn. destruct (lr_exec t a s) as [[s' evs1]|]; cbn; [|done].
  destruct (lr_run sched s') as [[s1 evs2]|] eqn:E; cbn; [|done]. intros [= -> <-]. eauto 10.
Qed.

Lemma lr_run_rel sched s s' evs sp :
  repeatable -> lr_rel s sp -> len (lr_threads s) < 2 ^ 64 - 1 -> lr_run sched s = Some (s', evs) ->
  exists sp', lr_spec_run sp evs sp' /\ lr_rel s' sp'.
Proof.
  intros Hrep. revert s evs sp. induction sched as [|[t a] sched IH]; intros s evs sp HR Hl Hrun.
  - injection Hrun as <- <-. exists sp. split; [constructor|done].
  - apply lr_run_cons in Hrun as (s1 & e1 & e2 & Hex & Hrun & ->).
    destruct (lr_exec_rel _ _ _ _ _ _ Hrep HR Hl Hex) as (sp1 & Hs1 & HR1).
    rewrite <- (lr_exec_len _ _ _ _ _ Hex) in Hl. destruct (IH _ _ _ HR1 Hl Hrun) as (sp2 & Hs2 & HR2).
    exists sp2. split; [by eapply lr_spec_run_app|done].
Qed.

Lemma lr_run_inv sched s s' evs :
  lr_inv s -> len (lr_threads s) < 2 ^ 64 - 1 -> lr_run sched s = Some (s', evs) ->
  lr_inv s' /\ len (lr_threads s') = len (lr_threads s).
Proof.
  revert s evs. induction sched as [|[t a] sched IH]; intros s evs Hi Hl Hrun; [by injection Hrun as <- <-|].
  apply lr_run_cons in Hrun as (s1 & e1 & e2 & Hex & Hrun & ->).
  pose proof (lr_exec_len _ _ _ _ _ Hex) as El. rewrite <- El in *.
  destruct (IH _ _ (lr_exec_inv _ _ _ _ _ Hi ltac:(by rewrite <- El) Hex) Hl Hrun) as [? ?]. done.
Qed.

Lemma lr_new_inv n x : (0 < nums)%nat -> lr_inv (lr_new n x).
Proof.
  intros Hn. split; cbn.
  - done.
  - by left.
  - intros vi Hvi. assert (lr_indic vi (lr_new n x) = ri_distributed_counter nums) as -> by (by destruct Hvi; subst).
    unfold ri_distributed_counter. rewrite length_replicate. split; [done|]. intros idx m Hm.
    apply lookup_replicate in Hm as [-> _]. symmetry. apply tally_none.
    intros t pc Ht. by apply lookup_replicate in Ht as [-> _].
  - apply tally_none. intros t pc Ht. by apply lookup_replicate in Ht as [-> _].
  - intros t pc Ht. by apply lookup_replicate in Ht as [-> _].
  - intros t vi sd Ht. by apply lookup_replicate in Ht as [? _].
Qed.

Lemma lr_new_rel n x : (0 < nums)%nat -> lr_rel (lr_new n x) (mk_lr_spec x ∅ None).
Proof.
  intros Hn. split; [by apply lr_new_inv|done|..]; cbn.
  - intros t vi sd Ht. by apply lookup_replicate in Ht as [? _].
  - intros t pc Ht Hw. by apply lookup_replicate in Ht as [-> _].
  - done.
Qed.

(** C8 — Linearizability: with a function that does the same when invoked
    again on the other instance ([repeatable]; [lr_push_back_move_diverges] has
    one that does not), a slot at least in the read indicator and fewer than
    2^64 - 1 threads, under every interleaving the object behaves as one value: every read
    returns the value there was when it chose its instance, every write takes
    effect at one point.  No reader is inside the instance a writer is changing,
    and when no writer holds the lock both instances hold the value. *)
Theorem left_right_linearizable n x sched s evs :
  repeatable -> (0 < nums)%nat -> Z.of_nat n < 2 ^ 64 - 1 ->
  lr_run sched (lr_new n x) = Some (s, evs) ->
  exists sp, lr_spec_run (mk_lr_spec x ∅ None) evs sp /\ sp_value sp = lr_inst (lr_left_right s) s /\
    (lr_writer_lock s = false -> lr_left_inst s = sp_value sp /\ lr_right_inst s = sp_value sp) /\
    forall t t' vi sd w sd', lr_threads s !! t = Some (LrRead vi sd) ->
      (lr_threads s !! t' = Some (LrFirst w sd') -> sd <> sd') /\
      (lr_threads s !! t' = Some (LrSecond w sd') -> sd <> lr_other sd').
Proof.
  intros Hrep Hn Hlen Hrun.
  destruct (lr_run_rel sched _ s evs _ Hrep (lr_new_rel n x Hn)) as (sp & Hsp & HR); [|done|].
  { cbn. by rewrite len_replicate. }
  exists sp. split; [done|]. destruct HR as [Hi Hv _ _ Hl]. split; [done|]. split.
  - intros E. specialize (Hl E). cbn in Hl. rewrite Hv. destruct (lr_left_right s); cbn; by rewrite Hl.
  - intros t t' vi sd w sd' Ht. split; intros Ht'; pose proof (lri_pcs _ Hi _ _ Ht') as Hpc; cbn in Hpc; subst sd';
      (rewrite (no_stale s t' _ t vi sd Hi Ht'); [|done|by intros ?? []|done]);
      intros E; by apply (lr_other_ne (lr_left_right s)).
Qed.

(** ** Progress *)

(** The accesses a reader has left. *)
Definition read_rank (pc : lr_pc) : nat :=
  match pc with LrArrive _ => 4 | LrLoad _ => 3 | LrRead _ _ => 2 | LrDepart _ => 1 | _ => 0 end.

Lemma read_step s t pc :
  lr_threads s !! t = Some pc -> (0 < read_rank pc)%nat ->
  exists s' evs pc', lr_exec t LrGo s = Some (s', evs) /\ lr_threads s' !! t = Some pc' /\
    read_rank pc' = (read_rank pc - 1)%nat /\ (read_rank pc = 1%nat -> pc' = LrIdle) /\
    (read_rank pc = 2%nat -> exists x, evs = [LrReturned t x]).
Proof.
  intros Ht Hr. pose proof (lookup_lt_Some _ _ _ Ht) as Hlt. unfold lr_exec. rewrite Ht. cbn.
  destruct pc; cbn in Hr; try lia; eexists _, _, _; (split; [done|]); cbn;
    (split; [by apply list_lookup_insert_eq|]); split_and!; try done; eauto.
Qed.

Lemma other_step s t t' a s' evs :
  lr_exec t' a s = Some (s', evs) -> t' <> t -> lr_threads s' !! t = lr_threads s !! t.
Proof. intros H Hne. apply lr_exec_threads in H as [pc ->]. by rewrite list_lookup_insert_ne by done. Qed.

Lemma read_rank_run s t pc sched s' evs :
  lr_threads s !! t = Some pc -> (0 < read_rank pc)%nat -> lr_run sched s = Some (s', evs) ->
  Forall (fun x => x.1 = t -> x.2 = LrGo) sched ->
  length (filter (fun x => x.1 = t) sched) = read_rank pc ->
  lr_threads s' !! t = Some LrIdle /\ ((1 < read_rank pc)%nat -> exists x, LrReturned t x ∈ evs).
Proof.
  revert s pc evs. induction sched as [|[t' a] sched IH]; intros s pc evs Ht Hr Hrun Hgo Hcnt.
  { cbn in Hcnt. lia. }
  apply lr_run_cons in Hrun as (s1 & e1 & e2 & Hex & Hrun & ->).
  apply Forall_cons in Hgo as [Hgo1 Hgo]. rewrite filter_cons in Hcnt. cbn in *.
  case_decide as Heq.
  - subst t'. rewrite (Hgo1 eq_refl) in Hex.
    destruct (read_step _ _ _ Ht Hr) as (s1' & e1' & pc' & Hex' & Ht' & Hrk & Hone & Htwo).
    rewrite Hex in Hex'. injection Hex' as <- <-. cbn in Hcnt.
    destruct (decide (read_rank pc = 1%nat)) as [E|E].
    + split; [|lia]. rewrite (Hone E) in Ht'.
      assert (Forall (fun x => x.1 <> t) sched) as Hoth.
      { apply Forall_forall. intros y Hy Hyt.
        assert (y ∈ filter (fun x => x.1 = t) sched) as Hel by (by apply list_elem_of_filter).
        destruct (filter _ sched); [by apply elem_of_nil in Hel|]. cbn in Hcnt. lia. }
      clear -Hoth Ht' Hrun. revert s1 e2 Ht' Hrun. induction Hoth as [|[t1 a1] l Hne _ IH]; intros s1 e2 Ht Hrun.
      * by injection Hrun as <- <-.
      * apply lr_run_cons in Hrun as (s2 & ? & ? & Hex & Hrun & _). eapply IH; [|exact Hrun].
        by rewrite (other_step _ _ _ _ _ _ Hex Hne).
    + destruct (IH s1 pc' e2 Ht') as [Hidle Hret]; [lia|done|done|lia|]. split; [done|]. intros _.
      destruct (decide (read_rank pc = 2%nat)) as [E2|E2].
      * destruct (Htwo E2) as [x ->]. exists x. by left.
      * destruct Hret as [x Hx]; [lia|]. exists x. apply elem_of_app. by right.
  - destruct (IH s1 pc e2) as [Hidle Hret]; [by rewrite (other_step _ _ _ _ _ _ Hex Heq)|done..|].
    split; [done|]. intros Hrk. destruct (Hret Hrk) as [x Hx]. exists x. apply elem_of_app. by right.
Qed.

(** Reads are wait-free: from any reachable state, whatever the other
    threads do and wherever they stand, [apply_read] starts and has returned
    after four more accesses of its own, each of which it can always make. *)
Theorem left_right_read_wait_free n x pre s0 evs0 t sched s evs :
  (0 < nums)%nat -> Z.of_nat n < 2 ^ 64 - 1 -> lr_run pre (lr_new n x) = Some (s0, evs0) ->
  lr_threads s0 !! t = Some LrIdle ->
  is_Some (lr_exec t LrApplyRead s0) /\
  (forall pc, lr_threads s !! t = Some pc -> (0 < read_rank pc)%nat -> is_Some (lr_exec t LrGo s)) /\
  (lr_run ((t, LrApplyRead) :: sched) s0 = Some (s, evs) ->
   Forall (fun x => x.1 = t -> x.2 = LrGo) sched ->
   length (filter (fun x => x.1 = t) sched) = 4%nat ->
   lr_threads s !! t = Some LrIdle /\ exists x, LrReturned t x ∈ evs).
Proof.
  intros Hn Hlen Hpre Ht. split; [|split].
  - unfold lr_exec. rewrite Ht. cbn. eauto.
  - intros pc Hpc Hr. destruct (read_step _ _ _ Hpc Hr) as (s' & e' & _ & -> & _). eauto.
  - intros Hrun Hgo Hcnt. apply lr_run_cons in Hrun as (s1 & e1 & e2 & Hex & Hrun & ->).
    unfold lr_exec in Hex. rewrite Ht in Hex. cbn in Hex. injection Hex as <- <-.
    destruct (read_rank_run (lr_goto t (LrArrive (lr_version_index s0)) s0) t (LrArrive (lr_version_index s0))
      sched s e2) as [Hidle Hret]; [|cbn; lia|done..|].
    { cbn. apply list_lookup_insert_eq. by eapply lookup_lt_Some. }
    split; [done|]. apply Hret. cbn. lia.
Qed.

(** The accesses a writer has left, when no counter stops it. *)
Definition write_rank (pc : lr_pc) : nat :=
  let left (idx : nat) := (nums - idx / CACHELINE_WORDS)%nat in
  match pc with
  | LrLocked _ => (9 + 2 * nums)%nat
  | LrFirst _ _ => (8 + 2 * nums)%nat
  | LrPublish _ _ => (7 + 2 * nums)%nat
  | LrLoadVersion _ _ => (6 + 2 * nums)%nat
  | LrWait _ _ _ _ false idx => (5 + nums + left idx)%nat
  | LrToggle _ _ _ _ => (4 + nums)%nat
  | LrWait _ _ _ _ true idx => (3 + left idx)%nat
  | LrSecond _ _ => 2
  | LrUnlock => 1
  | _ => 0
  end.

Definition no_reader (s : left_right) : Prop :=
  forall vi idx, tally (registered vi idx) (lr_threads s) = 0.

(** The counter a scan is at can be read, and is zero when nobody reads. *)
Lemma wait_reads s vi k :
  lr_inv s -> no_reader s -> is_version vi -> (k * CACHELINE_WORDS < nums * CACHELINE_WORDS)%nat ->
  lr_indic vi s !! (k * CACHELINE_WORDS)%nat = Some 0.
Proof.
  intros Hi Hno Hv Hlt. destruct (lri_counters _ Hi vi Hv) as [Hlen Hcnt].
  destruct (lookup_lt_is_Some_2 (lr_indic vi s) (k * CACHELINE_WORDS)) as [m Hm]; [by rewrite Hlen|].
  rewrite Hm. f_equal. rewrite (Hcnt _ _ Hm). apply Hno.
Qed.

Lemma words_lt k : (k * CACHELINE_WORDS < nums * CACHELINE_WORDS)%nat <-> (k < nums)%nat.
Proof. unfold CACHELINE_WORDS. change (64 / 8)%nat with 8%nat. lia. Qed.

Lemma words_div k : (k * CACHELINE_WORDS / CACHELINE_WORDS = k)%nat.
Proof. by apply Nat.div_mul. Qed.

Lemma write_step s t pc :
  lr_inv s -> no_reader s -> lr_threads s !! t = Some pc -> writing t pc = true ->
  exists s' evs pc', lr_exec t LrGo s = Some (s', evs) /\ lr_threads s' = <[t := pc']> (lr_threads s) /\
    write_rank pc' = (write_rank pc - 1)%nat /\ (1 < write_rank pc -> writing t pc' = true)%nat /\
    (write_rank pc = 1%nat -> pc' = LrIdle) /\ forall vi idx, registered vi idx t pc' = false.
Proof.
  intros Hi Hno Ht Hw. pose proof (lri_pcs _ Hi _ _ Ht) as Hpc. unfold lr_exec. rewrite Ht. cbn.
  destruct pc; cbn in Hw; try done; cbn [pc_inv] in Hpc.
  - eexists _, _, _. split; [done|]. split; [done|]. repeat split; cbn; lia.
  - destruct (invoke _ _) as [w' x]. eexists _, _, _. split; [done|]. split; [done|]. repeat split; cbn; lia.
  - eexists _, _, _. split; [done|]. split; [done|]. repeat split; cbn; lia.
  - eexists _, _, _. split; [done|]. split; [done|]. cbn. change (0 / CACHELINE_WORDS)%nat with 0%nat.
    repeat split; lia.
  - destruct Hpc as (-> & Hpre & -> & k & ->).
    assert (is_version (if again then pre else 1 - pre)) as Hver.
    { destruct again; [done|]. destruct Hpre; subst; [right|left]; done. }
    destruct (Nat.ltb_spec (k * CACHELINE_WORDS) (nums * CACHELINE_WORDS)) as [Hlt|Hge].
    + rewrite (wait_reads s _ k Hi Hno Hver Hlt). cbn.
      eexists _, _, _. split; [done|]. split; [done|]. apply words_lt in Hlt.
      replace (k * CACHELINE_WORDS + CACHELINE_WORDS)%nat with (S k * CACHELINE_WORDS)%nat by lia.
      cbn [write_rank]. rewrite !words_div. destruct again; repeat split; cbn; lia.
    + assert (~ (k < nums)%nat) as Hk by (rewrite <- words_lt; lia).
      destruct again; eexists _, _, _; (split; [done|]); (split; [done|]); cbn; rewrite words_div; repeat split; lia.
  - eexists _, _, _. split; [done|]. split; [done|]. cbn. change (0 / CACHELINE_WORDS)%nat with 0%nat.
    repeat split; lia.
  - destruct (invoke _ _) as [w' x]. eexists _, _, _. split; [done|]. split; [by destruct sd|]. repeat split; cbn; lia.
  - eexists _, _, _. split; [done|]. split; [done|]. repeat split; cbn; lia.
Qed.

Lemma write_rank_pos t pc : writing t pc = true -> (0 < write_rank pc)%nat.
Proof. destruct pc; cbn; try done; try lia. destruct again; lia. Qed.

Lemma write_run m s t pc :
  lr_inv s -> len (lr_threads s) < 2 ^ 64 - 1 -> no_reader s -> lr_threads s !! t = Some pc ->
  writing t pc = true -> write_rank pc = m ->
  exists s' evs, lr_run (replicate m (t, LrGo)) s = Some (s', evs) /\ lr_threads s' !! t = Some LrIdle /\ lr_inv s'.
Proof.
  revert s pc. induction m as [|m IH]; intros s pc Hi Hl Hno Ht Hw Hm.
  { pose proof (write_rank_pos _ _ Hw). lia. }
  destruct (write_step _ _ _ Hi Hno Ht Hw) as (s1 & e1 & pc1 & Hex & Hts & Hrk & Hwr & Hone & Hreg).
  pose proof (lr_exec_inv _ _ _ _ _ Hi Hl Hex) as Hi1.
  assert (lr_threads s1 !! t = Some pc1) as Ht1.
  { rewrite Hts. apply list_lookup_insert_eq. by eapply lookup_lt_Some. }
  cbn. rewrite Hex. cbn. destruct m as [|m'].
  - exists s1. eexists. split; [done|]. by rewrite Ht1, (Hone Hm).
  - destruct (IH s1 pc1) as (s' & e' & Hrun & Hidle & Hi'); [done| | |done|apply Hwr; lia|lia|].
    + by rewrite (lr_exec_len _ _ _ _ _ Hex).
    + intros vi idx. rewrite Hts, (tally_insert _ _ _ _ _ Ht), Hno, Hreg.
      destruct (registered vi idx t pc) eqn:E; [by destruct pc|done].
    + exists s'. eexists. rewrite Hrun. split; [done|]. done.
Qed.

(** C13 — A write completes: from any reachable state without a registered
    reader, a writer that holds the lock and runs alone returns after at most
    2n + 9 accesses, with n counters, and leaves the lock free. *)
Theorem left_right_write_completes n x pre s evs t pc :
  (0 < nums)%nat -> Z.of_nat n < 2 ^ 64 - 1 -> lr_run pre (lr_new n x) = Some (s, evs) ->
  lr_threads s !! t = Some pc -> writing t pc = true -> no_reader s ->
  exists m s' evs', (m <= 9 + 2 * nums)%nat /\ lr_run (replicate m (t, LrGo)) s = Some (s', evs') /\
    lr_threads s' !! t = Some LrIdle /\ lr_writer_lock s' = false.
Proof.
  intros Hn Hlen Hpre Ht Hw Hno.
  destruct (lr_run_inv _ _ _ _ (lr_new_inv n x Hn) ltac:(cbn; by rewrite len_replicate) Hpre) as [Hi Hl].
  assert (len (lr_threads s) < 2 ^ 64 - 1) as Hl' by (rewrite Hl; cbn; by rewrite len_replicate).
  destruct (write_run _ s t pc Hi Hl' Hno Ht Hw eq_refl) as (s' & e' & Hrun & Hidle & Hi').
  exists (write_rank pc), s', e'. split; [|split; [done|split; [done|]]].
  { destruct pc; cbn; try lia. destruct again; lia. }
  assert (forall b, Z.b2z b = 0 -> b = false) as Hb by (by intros []). apply Hb.
  rewrite <- (lri_lock _ Hi'). apply tally_none.
  intros t' pc' Ht'. destruct (decide (t' = t)) as [->|Hne]; [by simplify_eq|].
  destruct (writing t' pc') eqn:E; [|done]. exfalso.
  (* another writer would have been one before *)
  assert (forall m s s' evs, lr_run (replicate m (t, LrGo)) s = Some (s', evs) ->
    lr_threads s' !! t' = lr_threads s !! t') as Hsame.
  { clear -Hne. induction m as [|m IH]; intros s s' evs Hrun; [by injection Hrun as <- <-|].
    cbn [replicate] in Hrun. apply lr_run_cons in Hrun as (s1 & ? & ? & Hex & Hrun & _).
    rewrite (IH _ _ _ Hrun). by eapply other_step. }
  rewrite (Hsame _ _ _ _ Hrun) in Ht'. apply Hne. eapply writer_unique; [exact Hi|exact Ht|exact Ht'|done|done].
Qed.

End left_right.

(** ** The containers

    The functions the containers hand to [apply_write]: what they captured by
    reference is the operation's argument, so a move empties it for the second
    invocation.  [moved] is what a moved-from element holds: the library leaves
    it unspecified. *)

Section containers.
Context {K V : Type} `{Countable K}.
Variable moved : V -> V.

Inductive seq_op :=
| PushFront (v : V) | PushFrontMove (v : V) | EmplaceFront (v : V)
| PushBack (v : V) | PushBackMove (v : V) | EmplaceBack (v : V)
| PopFront | PopBack | SeqClear.

(** [lr_deque]; [emplace] is given an rvalue here. *)
Definition lr_deque_invoke (op : seq_op) (x : outcome (list V)) : seq_op * outcome (list V) :=
  match op with
  | PushFront v => (op, l ← x; Ok (v :: l))
  | PushFrontMove v => (PushFrontMove (moved v), l ← x; Ok (v :: l))
  | EmplaceFront v => (EmplaceFront (moved v), l ← x; Ok (v :: l))
  | PushBack v => (op, l ← x; Ok (l ++ [v]))
  | PushBackMove v => (PushBackMove (moved v), l ← x; Ok (l ++ [v]))
  | EmplaceBack v => (EmplaceBack (moved v), l ← x; Ok (l ++ [v]))
  | PopFront => (op, l ← x; match l with [] => Fault (UB "pop_front of an empty deque") | _ :: l => Ok l end)
  | PopBack =>
      (op, l ← x; match l with [] => Fault (UB "pop_back of an empty deque")
                  | _ => Ok (take (length l - 1) l) end)
  | SeqClear => (op, _ ← x; Ok [])
  end.

(** [lr_list] has the operations of [lr_deque]; [lr_vector] those at the back. *)
Definition lr_list_invoke : seq_op -> outcome (list V) -> seq_op * outcome (list V) := lr_deque_invoke.

Inductive vector_op := VecPushBack (v : V) | VecPushBackMove (v : V) | VecEmplaceBack (v : V) | VecPopBack | VecClear.

Definition lr_vector_invoke (op : vector_op) (x : outcome (list V)) : vector_op * outcome (list V) :=
  match op with
  | VecPushBack v => (op, l ← x; Ok (l ++ [v]))
  | VecPushBackMove v => (VecPushBackMove (moved v), l ← x; Ok (l ++ [v]))
  | VecEmplaceBack v => (VecEmplaceBack (moved v), l ← x; Ok (l ++ [v]))
  | VecPopBack =>
      (op, l ← x; match l with [] => Fault (UB "pop_back of an empty vector")
                  | _ => Ok (take (length l - 1) l) end)
  | VecClear => (op, _ ← x; Ok [])
  end.

Definition lr_vector_empty (l : list V) : bool := match l with [] => true | _ => false end.
Definition lr_vector_size (l : list V) : Z := len l.
Definition lr_deque_at (pos : nat) (l : list V) : outcome V :=
  match l !! pos with Some v => Ok v | None => Fault (UB "out of range") end.
Definition lr_deque_front (l : list V) : outcome V := lr_deque_at 0 l.
Definition lr_deque_back (l : list V) : outcome V := lr_deque_at (length l - 1) l.

Inductive map_op := MapEmplace (k : K) (v : V) | MapErase (k : K) | MapClear | MapIndex (k : K).

(** [lr_unordered_map]: [emplace] keeps a value that is there and then leaves
    its arguments alone; [operator[]] inserts a default. *)
Definition lr_unordered_map_invoke (def : V) (op : map_op) (m : gmap K V) : map_op * gmap K V :=
  match op with
  | MapEmplace k v =>
      match m !! k with
      | Some _ => (op, m)
      | None => (MapEmplace k (moved v), <[k := v]> m)
      end
  | MapErase k => (op, delete k m)
  | MapClear => (op, ∅)
  | MapIndex k => (op, match m !! k with Some _ => m | None => <[k := def]> m end)
  end.

Definition lr_unordered_map_at (k : K) (m : gmap K V) : outcome V :=
  match m !! k with Some v => Ok v | None => Throw (ExnOutOfRange "unordered_map::at") end.

(** [lr_map]: the same, but [operator[]] is run as a read. *)
Definition lr_map_invoke : V -> map_op -> gmap K V -> map_op * gmap K V := lr_unordered_map_invoke.
Definition lr_map_index (def : V) (k : K) (m : gmap K V) : gmap K V * V :=
  match m !! k with Some v => (m, v) | None => (<[k := def]> m, def) end.

Inductive set_op := SetEmplace (k : K) | SetErase (k : K) | SetClear.

Definition lr_set_invoke (op : set_op) (x : gset K) : set_op * gset K :=
  match op with
  | SetEmplace k => (op, {[k]} ∪ x)
  | SetErase k => (op, x ∖ {[k]})
  | SetClear => (op, ∅)
  end.

(** A type whose move is a copy: the two instances stay equal. *)
Lemma lr_deque_repeatable : (forall v, moved v = v) -> repeatable lr_deque_invoke.
Proof. intros Hm op x. destruct op; cbn; by rewrite ?Hm. Qed.

Lemma lr_vector_repeatable : (forall v, moved v = v) -> repeatable lr_vector_invoke.
Proof. intros Hm op x. destruct op; cbn; by rewrite ?Hm. Qed.

Lemma lr_map_repeatable def : (forall v, moved v = v) -> repeatable (lr_unordered_map_invoke def).
Proof.
  intros Hm op m. destruct op as [k v|k| |k]; cbn; [|done..].
  destruct (m !! k) eqn:E; cbn; rewrite E; by rewrite ?Hm.
Qed.

Lemma lr_set_repeatable : repeatable lr_set_invoke.
Proof. by intros []. Qed.

(** [push_back(T&&)] of any other type: one write by one thread leaves the
    instances different, and readers see one or the other in turn. *)
Lemma lr_push_back_move_diverges v hash :
  moved v <> v ->
  exists s evs, lr_run lr_vector_invoke hash 1
      ((0%nat, LrApplyWrite (VecPushBackMove v)) :: replicate 11 (0%nat, LrGo)) (lr_new 1 1 (Ok [])) = Some (s, evs) /\
    lr_threads s = [LrIdle] /\ lr_right_inst s = Ok [v] /\ lr_left_inst s = Ok [moved v] /\
    lr_left_inst s <> lr_right_inst s.
Proof.
  intros Hm. eexists _, _. split; [vm_compute; reflexivity|]. repeat split. cbn. congruence.
Qed.

(** A lookup through [lr_map]'s [operator[]] changes the instance it reads. *)
Lemma lr_map_index_writes def k m : m !! k = None -> (lr_map_index def k m).1 <> m.
Proof.
  intros Hk E. unfold lr_map_index in E. rewrite Hk in E. cbn in E.
  apply (f_equal (lookup k)) in E. rewrite lookup_insert_eq in E. congruence.
Qed.
End containers.

(** *** Witnesses *)

(** A writer appends 7 while a reader, already registered, reads. *)
Definition lr_demo_sched : list (nat * lr_act (W := @seq_op Z)) :=
  [(0%nat, LrApplyRead); (0%nat, LrGo); (0%nat, LrGo);
   (1%nat, LrApplyWrite (PushBack 7)); (1%nat, LrGo); (1%nat, LrGo); (1%nat, LrGo); (1%nat, LrGo);
   (0%nat, LrGo); (0%nat, LrGo); (0%nat, LrApplyRead); (0%nat, LrGo); (0%nat, LrGo); (0%nat, LrGo)].

Definition lr_demo_hash (t : nat) : Z := Z.of_nat t.

Lemma left_right_linearizable_witness :
  exists s evs, lr_run (lr_deque_invoke id) lr_demo_hash 2 lr_demo_sched (lr_new 2 2 (Ok [])) = Some (s, evs) /\
    lr_threads s !! 0%nat = Some (LrDepart 0) /\ LrReturned 0 (Ok [7]) ∈ evs /\
    exists sp, lr_spec_run (lr_deque_invoke id) (mk_lr_spec (Ok []) ∅ None) evs sp /\
      sp_value sp = lr_inst (lr_left_right s) s.
Proof.
  destruct (lr_run (lr_deque_invoke id) lr_demo_hash 2 lr_demo_sched (lr_new 2 2 (Ok []))) as [[s evs]|] eqn:E;
    [|vm_compute in E; discriminate E].
  exists s, evs. split; [done|]. split; [|split].
  - vm_compute in E. by injection E as <- _.
  - vm_compute in E. injection E as _ <-. repeat (first [left | right]); fail.
  - destruct (left_right_linearizable (lr_deque_invoke id) lr_demo_hash 2 2 (Ok []) lr_demo_sched s evs)
      as (sp & Hsp & Hv & _); [by apply lr_deque_repeatable|lia|done|exact E|]. by exists sp.
Defined.

(** A reader in the middle of a write that waits for it. *)
Definition lr_demo_busy : list (nat * lr_act (W := @seq_op Z)) :=
  [(1%nat, LrApplyWrite (PushBack 7)); (1%nat, LrGo); (1%nat, LrGo)].

Definition lr_demo_read : list (nat * lr_act (W := @seq_op Z)) :=
  [(0%nat, LrGo); (1%nat, LrGo); (1%nat, LrGo); (0%nat, LrGo); (1%nat, LrGo); (0%nat, LrGo); (1%nat, LrGo);
   (0%nat, LrGo)].

Lemma left_right_read_wait_free_witness :
  exists s0 evs0 s evs,
    lr_run (lr_deque_invoke id) lr_demo_hash 2 lr_demo_busy (lr_new 2 2 (Ok [])) = Some (s0, evs0) /\
    lr_run (lr_deque_invoke id) lr_demo_hash 2 ((0%nat, LrApplyRead) :: lr_demo_read) s0 = Some (s, evs) /\
    lr_threads s !! 0%nat = Some LrIdle /\ exists x, LrReturned 0 x ∈ evs.
Proof.
  destruct (lr_run (lr_deque_invoke id) lr_demo_hash 2 lr_demo_busy (lr_new 2 2 (Ok []))) as [[s0 evs0]|] eqn:E0;
    [|vm_compute in E0; discriminate E0].
  destruct (lr_run (lr_deque_invoke id) lr_demo_hash 2 ((0%nat, LrApplyRead) :: lr_demo_read) s0)
    as [[s evs]|] eqn:E; [|vm_compute in E0; injection E0 as <- <-; vm_compute in E; discriminate E].
  exists s0, evs0, s, evs. split; [done|]. split; [done|].
  destruct (left_right_read_wait_free (lr_deque_invoke id) lr_demo_hash 2 2 (Ok []) lr_demo_busy s0 evs0 0
    lr_demo_read s evs ltac:(lia) eq_refl E0) as (_ & _ & H).
  { vm_compute in E0. by injection E0 as <- _. }
  apply H; [exact E|repeat constructor; done|reflexivity].
Defined.

Lemma left_right_write_completes_witness :
  exists s evs, lr_run (lr_deque_invoke id) lr_demo_hash 2 lr_demo_busy (lr_new 2 2 (Ok [])) = Some (s, evs) /\
    exists m s' evs', (m <= 13)%nat /\
      lr_run (lr_deque_invoke id) lr_demo_hash 2 (replicate m (1%nat, LrGo)) s = Some (s', evs') /\
      lr_threads s' !! 1%nat = Some LrIdle /\ lr_writer_lock s' = false.
Proof.
  destruct (lr_run (lr_deque_invoke id) lr_demo_hash 2 lr_demo_busy (lr_new 2 2 (Ok []))) as [[s evs]|] eqn:E;
    [|vm_compute in E; discriminate E].
  exists s, evs. split; [done|].
  apply (left_right_write_completes (lr_deque_invoke id) lr_demo_hash 2 2 (Ok []) lr_demo_busy s evs 1
    (LrPublish (PushBack 7) READS_RIGHT) ltac:(lia) eq_refl E).
  - vm_compute in E. by injection E as <- _.
  - reflexivity.
  - intros vi idx. vm_compute in E. by injection E as <- _.
Defined.
