(* ===== verification/ThreadPool.v ===== *)
(** The thread pool (source/bee/thread/threadpool.h, threadpool.cpp).

    A machine in the sense of Threads: a worker's loop is cut where it takes or
    releases the group's [_queue_lock] or sleeps on [_cond], and a region under
    the lock is one step.  A task is a number; what it does while it runs is up
    to the scheduler: a running task, like a client thread, may hand in tasks. *)

From S2P Require Import Prelude Text Threads.

Abbreviation task := Z.

Record thread_group := mk_group {
  tg_maxsize : Z;
  tg_threadcnt : nat;
  tg_stop : bool;
  tg_busy : Z;
  tg_task_queue : list task;
  tg_deleted : bool;
}.

(** Clients first, then the points of a worker of group [g].  [ClSleep] and
    [WkSleep] wait on the group's condition variable, [ClWake] and [WkRelock]
    have left it and are about to take the lock again. *)
Inductive tp_pc :=
| ClIdle
| ClSleep (g : nat) (timed : bool)
| ClWake (g : nat) (timed : bool)
| ClJoin (g : nat)
| WkLoop (g : nat)
| WkSteal (g : nat)
| WkRelock (g : nat)
| WkSleep (g : nat)
| WkTaken (g : nat) (tk : task)
| WkRunning (g : nat) (tk : task)
| WkDestroy (g : nat) (tk : task)
| WkFinish (g : nat)
| WkCheck (g : nat)
| WkExit (g : nat).

(** A thread with its own [_essential_task_queue], and the task it is handing
    to a group when it is inside [add_task]. *)
Record tp_thread := mk_thread {
  th_pc : tp_pc;
  th_essential : list task;
  th_adding : option (nat * task);
}.

(** [stop] deletes the groups one after the other and clears the list at the end.
    [tp_dangling] says that a thread has used a deleted group; what it did then,
    and what anybody does after that, is undefined. *)
Record threadpool := mk_tp {
  tp_stop : bool;
  tp_is_steal : bool;
  tp_groups : list thread_group;
  tp_threads : list tp_thread;
  tp_ran : list task;
  tp_refused : list task;
  tp_finished : list task;
  tp_dangling : bool;
}.

Definition tg_with_queue (q : list task) (grp : thread_group) : thread_group :=
  mk_group (tg_maxsize grp) (tg_threadcnt grp) (tg_stop grp) (tg_busy grp) q (tg_deleted grp).
Definition tg_with_busy (n : Z) (grp : thread_group) : thread_group :=
  mk_group (tg_maxsize grp) (tg_threadcnt grp) (tg_stop grp) n (tg_task_queue grp) (tg_deleted grp).
Definition tg_with_stop (grp : thread_group) : thread_group :=
  mk_group (tg_maxsize grp) (tg_threadcnt grp) true (tg_busy grp) (tg_task_queue grp) (tg_deleted grp).
Definition tg_delete (grp : thread_group) : thread_group :=
  mk_group (tg_maxsize grp) (tg_threadcnt grp) (tg_stop grp) (tg_busy grp) (tg_task_queue grp) true.

Definition tp_set_group (g : nat) (f : thread_group -> thread_group) (s : threadpool) : threadpool :=
  mk_tp (tp_stop s) (tp_is_steal s) (alter f g (tp_groups s)) (tp_threads s)
    (tp_ran s) (tp_refused s) (tp_finished s) (tp_dangling s).
Definition tp_set_threads (ts : list tp_thread) (s : threadpool) : threadpool :=
  mk_tp (tp_stop s) (tp_is_steal s) (tp_groups s) ts (tp_ran s) (tp_refused s) (tp_finished s) (tp_dangling s).
Definition tp_set_thread (t : nat) (th : tp_thread) (s : threadpool) : threadpool :=
  tp_set_threads (<[t := th]> (tp_threads s)) s.
Definition th_goto (pc : tp_pc) (th : tp_thread) : tp_thread :=
  mk_thread pc (th_essential th) (th_adding th).
Definition tp_goto (t : nat) (pc : tp_pc) (s : threadpool) : threadpool :=
  tp_set_threads (alter (th_goto pc) t (tp_threads s)) s.
Definition tp_log (ran refused finished : list task) (s : threadpool) : threadpool :=
  mk_tp (tp_stop s) (tp_is_steal s) (tp_groups s) (tp_threads s)
    (tp_ran s ++ ran) (tp_refused s ++ refused) (tp_finished s ++ finished) (tp_dangling s).
Definition tp_set_stop (s : threadpool) : threadpool :=
  mk_tp true (tp_is_steal s) (tp_groups s) (tp_threads s) (tp_ran s) (tp_refused s) (tp_finished s) (tp_dangling s).
Definition tp_set_dangling (s : threadpool) : threadpool :=
  mk_tp (tp_stop s) (tp_is_steal s) (tp_groups s) (tp_threads s) (tp_ran s) (tp_refused s) (tp_finished s) true.

(** [_groups[g]->...] by a thread that does not keep the group alive. *)
Definition use_group (g : nat) (s : threadpool) (k : thread_group -> option threadpool) : option threadpool :=
  grp ← tp_groups s !! g;
  if tg_deleted grp then Some (tp_set_dangling s) else k grp.

(** [thread_group::has_task], which looks at the calling thread's own queue. *)
Definition has_task (th : tp_thread) (grp : thread_group) : bool :=
  negb (bool_decide (th_essential th = [])) || negb (bool_decide (tg_task_queue grp = [])).

(** *** The condition variable *)

Definition asleep (g : nat) (pc : tp_pc) : bool :=
  match pc with WkSleep g' | ClSleep g' _ => (g' =? g)%nat | _ => false end.

Definition woken (pc : tp_pc) : tp_pc :=
  match pc with WkSleep g => WkRelock g | ClSleep g timed => ClWake g timed | _ => pc end.

(** [wake] is the thread the implementation picks; none when nobody waits. *)
Definition notify_one (g : nat) (wake : option nat) (s : threadpool) : option threadpool :=
  match wake with
  | Some t =>
      th ← tp_threads s !! t;
      if asleep g (th_pc th) then Some (tp_goto t (woken (th_pc th)) s) else None
  | None => if existsb (fun th => asleep g (th_pc th)) (tp_threads s) then None else Some s
  end.

Definition notify_all (g : nat) (s : threadpool) : threadpool :=
  tp_set_threads ((fun th => if asleep g (th_pc th) then th_goto (woken (th_pc th)) th else th) <$> tp_threads s) s.

(** *** Operations *)

Inductive tp_act :=
| ActGo
| ActSpurious
| ActSteal (offset : nat) (locked : list bool) (wake : option nat)
| ActAdd (g : nat) (tk : task)
| ActPush (wake : option nat)
| ActEssential (tk : task)
| ActWait (g : nat) (millsecond : Z)
| ActTimeout
| ActStop
| ActStopGroup (g : nat).

(** Taking a task under the lock: the thread's own queue goes first. *)
Definition wk_take (t g : nat) (th : tp_thread) (grp : thread_group) (s : threadpool) : option threadpool :=
  match th_essential th, tg_task_queue grp with
  | tk :: es, _ => Some (tp_set_thread t (mk_thread (WkTaken g tk) es (th_adding th)) s)
  | [], tk :: q => Some (tp_goto t (WkTaken g tk) (tp_set_group g (tg_with_queue q) s))
  | [], [] => None
  end.

(** The groups [try_steal_one] looks at, in its order. *)
Definition steal_order (current_idx offset group_size : nat) : list nat :=
  filter (fun idx => idx <> current_idx) ((fun i => (offset + i) mod group_size)%nat <$> seq 0 group_size).

(** [locked]: which [try_lock]s succeed; the lock is in the group. *)
Inductive stolen := StolenNone | StolenTask (idx : nat) (tk : task) (q : list task) | StolenDangling.

Fixpoint try_steal_one (th : tp_thread) (groups : list thread_group) (locked : list bool) (order : list nat)
    : stolen :=
  match order with
  | [] => StolenNone
  | idx :: order =>
      match groups !! idx with
      | Some grp =>
          if tg_deleted grp then StolenDangling
          else if default false (locked !! idx) && has_task th grp then
            match tg_task_queue grp with tk :: q => StolenTask idx tk q | [] => StolenNone end
          else try_steal_one th groups locked order
      | None => StolenNone
      end
  end.

(** May call the pool: a client between calls, a worker in its task. *)
Definition can_call (th : tp_thread) : bool :=
  match th_pc th, th_adding th with
  | ClIdle, None | WkRunning _ _, None => true
  | _, _ => false
  end.

(** The region of [thread_group::add_task] under the lock. *)
Definition group_add_task (g : nat) (tk : task) (wake : option nat) (grp : thread_group) (s : threadpool)
    : option threadpool :=
  if len (tg_task_queue grp) >=? tg_maxsize grp then Some (tp_log [] [tk] [] s)
  else if tg_stop grp then Some (tp_log [] [tk] [] s)
  else notify_one g wake (tp_set_group g (tg_with_queue (tg_task_queue grp ++ [tk])) s).

(** The worker's loop and the rest of its round. *)
Definition worker_exec (t : nat) (th : tp_thread) (a : tp_act) (s : threadpool) : option threadpool :=
  match th_pc th, a with
  | WkLoop g, ActGo =>
      grp ← tp_groups s !! g;
      if has_task th grp then wk_take t g th grp s
      else if tg_stop grp then Some (tp_goto t (WkExit g) s)
      else if tp_is_steal s then Some (tp_goto t (WkSteal g) s)
      else Some (tp_goto t (WkSleep g) s)
  | WkSteal g, ActSteal offset locked wake =>
      match try_steal_one th (tp_groups s) locked (steal_order g offset (length (tp_groups s))) with
      | StolenTask idx tk q =>
          s ← (if bool_decide (q = []) then Some (tp_set_group idx (tg_with_queue q) s)
               else notify_one idx wake (tp_set_group idx (tg_with_queue q) s));
          Some (tp_goto t (WkTaken g tk) s)
      | StolenNone => Some (tp_goto t (WkRelock g) s)
      | StolenDangling => Some (tp_set_dangling s)
      end
  | WkRelock g, ActGo =>
      grp ← tp_groups s !! g;
      if has_task th grp then wk_take t g th grp s
      else if tg_stop grp then Some (tp_goto t (WkExit g) s)
      else Some (tp_goto t (WkSleep g) s)
  | WkSleep g, ActSpurious => Some (tp_goto t (WkRelock g) s)
  | WkTaken g tk, ActGo =>
      grp ← tp_groups s !! g;
      Some (tp_goto t (WkRunning g tk) (tp_set_group g (tg_with_busy (tg_busy grp + 1)) s))
  | WkRunning g tk, ActGo =>
      match th_adding th with
      | None => Some (tp_goto t (WkDestroy g tk) (tp_log [tk] [] [] s))
      | Some _ => None
      end
  | WkDestroy g tk, ActGo => Some (tp_goto t (WkFinish g) (tp_log [] [] [tk] s))
  | WkFinish g, ActGo =>
      grp ← tp_groups s !! g;
      Some (tp_goto t (WkCheck g) (tp_set_group g (tg_with_busy (tg_busy grp - 1)) s))
  | WkCheck g, ActGo =>
      grp ← tp_groups s !! g;
      Some (tp_goto t (WkLoop g)
              (if (tg_busy grp =? 0) && negb (has_task th grp) then notify_all g s else s))
  | _, _ => None
  end.

(** [wait_for_all_done], and [delete] of a group: its destructor joins the
    workers, and then it is gone. *)
Definition client_exec (t : nat) (th : tp_thread) (a : tp_act) (s : threadpool) : option threadpool :=
  match th_pc th, a with
  | ClIdle, ActWait g millsecond =>
      use_group g s (fun grp =>
        if has_task th grp then Some (tp_goto t (ClSleep g (0 <? millsecond)) s) else Some s)
  | ClSleep g timed, ActSpurious => Some (tp_goto t (ClWake g timed) s)
  | ClSleep g true, ActTimeout => use_group g s (fun _ => Some (tp_goto t ClIdle s))
  | ClWake g timed, ActGo =>
      use_group g s (fun grp => Some (tp_goto t (if has_task th grp then ClSleep g timed else ClIdle) s))
  | ClIdle, ActStop => Some (tp_set_stop s)
  | ClIdle, ActStopGroup g =>
      use_group g s (fun _ => Some (tp_goto t (ClJoin g) (notify_all g (tp_set_group g tg_with_stop s))))
  | ClJoin g, ActGo =>
      if forallb (fun th => match th_pc th with
          | WkLoop g' | WkSteal g' | WkRelock g' | WkSleep g' | WkTaken g' _ | WkRunning g' _
          | WkDestroy g' _ | WkFinish g' | WkCheck g' => negb (g' =? g)%nat
          | _ => true end) (tp_threads s)
      then use_group g s (fun _ => Some (tp_goto t ClIdle (tp_set_group g tg_delete s)))
      else None
  | _, _ => None
  end.

(** [add_task] in two steps, the test of [_stop] and the group's part, and
    [add_essential_task]. *)
Definition add_exec (t : nat) (th : tp_thread) (a : tp_act) (s : threadpool) : option threadpool :=
  match a with
  | ActAdd g tk =>
      if tp_stop s then Some (tp_log [] [tk] [] s)
      else
        _ ← tp_groups s !! g;  (* the ASSERT of the source *)
        Some (tp_set_thread t (mk_thread (th_pc th) (th_essential th) (Some (g, tk))) s)
  | ActEssential tk =>
      if tp_stop s then Some (tp_log [] [tk] [] s)
      else Some (tp_set_thread t (mk_thread (th_pc th) (th_essential th ++ [tk]) (th_adding th)) s)
  | _ => None
  end.

Definition tp_exec (t : nat) (a : tp_act) (s : threadpool) : option threadpool :=
  if tp_dangling s then None else
  th ← tp_threads s !! t;
  match a with
  | ActAdd _ _ | ActEssential _ => if can_call th then add_exec t th a s else None
  | ActPush wake =>
      p ← th_adding th;
      use_group p.1 s (fun grp =>
        group_add_task p.1 p.2 wake grp (tp_set_thread t (mk_thread (th_pc th) (th_essential th) None) s))
  | _ =>
      match th_pc th with
      | ClIdle | ClSleep _ _ | ClWake _ _ | ClJoin _ => 
          match th_adding th with None => client_exec t th a s | Some _ => None end
      | _ => worker_exec t th a s
      end
  end.

Fixpoint tp_run (sched : list (nat * tp_act)) (s : threadpool) : option threadpool :=
  match sched with
  | [] => Some s
  | (t, a) :: sched => s ← tp_exec t a s; tp_run sched s
  end.

(** *** Starting *)

(** [std::stoi]. *)
Definition stoi (s : list byte) : outcome Z :=
  let '(neg, z, ok) := signed_number s in
  let z := if neg then - z else z in
  if negb ok then Throw (ExnInvalidArg "stoi")
  else if (- 2 ^ 31 <=? z) && (z <? 2 ^ 31) then Ok z else Throw (ExnOutOfRange "stoi").

Fixpoint group_pairs (result : list (list byte)) : outcome (list (Z * Z)) :=
  match result with
  | a :: b :: result =>
      a ← stoi a; b ← stoi b; rest ← group_pairs result; Ok ((a, b) :: rest)
  | [] => Ok []
  | [_] => Fault (AssertFail "result.size() % 2 == 0")
  end.

(** The [groups] entry of the configuration: pairs of a queue limit and a
    number of threads. *)
Definition threadpool_config (s : list byte) : outcome (list (Z * Z)) :=
  match split s (str "(,) ") with
  | [] => Fault (AssertFail "result.size() > 0")
  | result => if Nat.even (length result) then group_pairs result
              else Fault (AssertFail "result.size() % 2 == 0")
  end.

Definition thread_group_new (p : Z * Z) : thread_group :=
  mk_group (u64 p.1) (Z.to_nat (u64 p.2)) false 0 [] false.

(** [clients] threads besides the workers. *)
Definition threadpool_start (steal : bool) (cfg : list (Z * Z)) (clients : nat) : threadpool :=
  mk_tp false steal (thread_group_new <$> cfg)
    (replicate clients (mk_thread ClIdle [] None) ++
     (imap (fun g p => replicate (Z.to_nat (u64 p.2)) (mk_thread (WkLoop g) [] None)) cfg ≫= id))
    [] [] [] false.

(** ** Every task is accounted for *)

Definition held (pc : tp_pc) : list task :=
  match pc with WkTaken _ tk | WkRunning _ tk => [tk] | _ => [] end.
Definition th_tasks (th : tp_thread) : list task :=
  th_essential th ++ match th_adding th with Some (_, tk) => [tk] | None => [] end ++ held (th_pc th).
Definition destroying (th : tp_thread) : list task :=
  match th_pc th with WkDestroy _ tk => [tk] | _ => [] end.

(** Handed in and not yet run. *)
Definition pending (s : threadpool) : list task :=
  (tp_groups s ≫= tg_task_queue) ++ (tp_threads s ≫= th_tasks).

Definition act_tasks (a : tp_act) : list task :=
  match a with ActAdd _ tk | ActEssential tk => [tk] | _ => [] end.

Lemma alter_insert {A} (f : A -> A) (l : list A) (i : nat) x : l !! i = Some x -> alter f i l = <[i := f x]> l.
Proof.
  intros Hi. apply list_eq. intros j. destruct (decide (i = j)) as [<-|Hne].
  - rewrite list_lookup_alter, decide_True, Hi by done. cbn.
    rewrite list_lookup_insert_eq; [done|by eapply lookup_lt_Some].
  - by rewrite list_lookup_alter, decide_False, list_lookup_insert_ne by done.
Qed.

(** What a step moves: the tasks of thread [t], those of group [g]. *)
Lemma pending_thread s t th th' :
  tp_threads s !! t = Some th ->
  pending (tp_set_thread t th' s) ++ th_tasks th ≡ₚ pending s ++ th_tasks th'.
Proof.
  intros Ht. unfold pending. cbn. pose proof (bind_insert th_tasks _ _ _ th' Ht) as H.
  rewrite <- !app_assoc, H. solve_Permutation.
Qed.

Lemma pending_group s g grp q :
  tp_groups s !! g = Some grp ->
  pending (tp_set_group g (tg_with_queue q) s) ++ tg_task_queue grp ≡ₚ pending s ++ q.
Proof.
  intros Hg. unfold pending. cbn. rewrite (alter_insert _ _ _ _ Hg).
  pose proof (bind_insert tg_task_queue _ _ _ (tg_with_queue q grp) Hg) as H. cbn in H.
  rewrite (Permutation_app_comm (_ ≫= tg_task_queue)), <- !app_assoc, H. solve_Permutation.
Qed.

Lemma pending_busy s g n : pending (tp_set_group g (tg_with_busy n) s) = pending s.
Proof.
  unfold pending. cbn. f_equal. destruct (tp_groups s !! g) as [grp|] eqn:Hg.
  - rewrite (alter_insert _ _ _ _ Hg). generalize dependent (tp_groups s).
    induction g as [|g IH]; intros [|x l] Hg; cbn in *; simplify_eq; [done|]. f_equal. by apply IH.
  - generalize dependent (tp_groups s). induction g as [|g IH]; intros [|x l] Hg; cbn in *; try done.
    f_equal. by apply IH.
Qed.

(** Waking threads moves nothing: [f] does not tell a woken thread. *)
Definition blind {A} (f : tp_thread -> A) : Prop :=
  forall g th, asleep g (th_pc th) = true -> f (th_goto (woken (th_pc th)) th) = f th.

Lemma th_tasks_blind : blind th_tasks.
Proof. intros g [pc es ad]. unfold th_tasks. by destruct pc. Qed.
Lemma destroying_blind : blind destroying.
Proof. intros g [pc es ad]. by destruct pc. Qed.

Lemma notify_one_blind {B} (f : tp_thread -> list B) g wake s s' :
  blind f -> notify_one g wake s = Some s' -> tp_threads s' ≫= f = tp_threads s ≫= f.
Proof.
  intros Hf. unfold notify_one. destruct wake as [t|].
  - destruct (tp_threads s !! t) as [th|] eqn:Ht; cbn; [|done].
    destruct (asleep g (th_pc th)) eqn:Ha; [|done]. intros [= <-]. cbn.
    rewrite (alter_insert _ _ _ _ Ht). eapply bind_insert_same; [done|]. by apply (Hf g).
  - destruct (existsb _ _); [done|]. by intros [= <-].
Qed.

Lemma notify_all_blind {B} (f : tp_thread -> list B) g s :
  blind f -> tp_threads (notify_all g s) ≫= f = tp_threads s ≫= f.
Proof.
  intros Hf. cbn. induction (tp_threads s) as [|th l IH]; [done|]. rewrite fmap_cons, !bind_cons, IH. f_equal.
  destruct (asleep g (th_pc th)) eqn:Ha; [by apply (Hf g)|done].
Qed.

(** ... and changes neither the groups nor the logs. *)
Lemma notify_one_frame g wake s s' :
  notify_one g wake s = Some s' -> s' = tp_set_threads (tp_threads s') s.
Proof.
  unfold notify_one. destruct wake as [t|].
  - destruct (tp_threads s !! t) as [th|]; cbn; [|done]. destruct (asleep g (th_pc th)); [|done]. by intros [= <-].
  - destruct (existsb _ _); [done|]. intros [= <-]. by destruct s.
Qed.

(** [xs] were handed in. *)
Definition books (xs : list task) (s : threadpool) : Prop :=
  xs ≡ₚ pending s ++ tp_refused s ++ tp_ran s /\
  tp_ran s ≡ₚ tp_finished s ++ (tp_threads s ≫= destroying).

Lemma books_thread xs ys s t th th' :
  books xs s -> tp_threads s !! t = Some th -> th_tasks th' ≡ₚ th_tasks th ++ ys -> destroying th' = destroying th ->
  books (xs ++ ys) (tp_set_thread t th' s).
Proof.
  intros [Hx Hr] Ht Htk Hd. split.
  - pose proof (pending_thread s t th th' Ht) as Hp. rewrite Htk in Hp.
    apply (Permutation_app_inv_r (th_tasks th)).
    change (tp_refused (tp_set_thread t th' s)) with (tp_refused s).
    change (tp_ran (tp_set_thread t th' s)) with (tp_ran s).
    rewrite Hx. transitivity ((pending (tp_set_thread t th' s) ++ th_tasks th) ++ tp_refused s ++ tp_ran s);
      [rewrite Hp|]; solve_Permutation.
  - cbn. rewrite Hr. by rewrite (bind_insert_same _ _ _ _ _ Ht Hd).
Qed.

Lemma goto_set s t th pc : tp_threads s !! t = Some th -> tp_goto t pc s = tp_set_thread t (th_goto pc th) s.
Proof. intros Ht. unfold tp_goto, tp_set_thread. by rewrite (alter_insert _ _ _ _ Ht). Qed.

Lemma books_goto xs s t th pc :
  books xs s -> tp_threads s !! t = Some th -> held pc = held (th_pc th) ->
  destroying (th_goto pc th) = destroying th -> books xs (tp_goto t pc s).
Proof.
  intros Hb Ht Hh Hd. rewrite (goto_set _ _ _ _ Ht), <- (app_nil_r xs).
  eapply books_thread; [done|done| |done]. unfold th_tasks. cbn. by rewrite Hh, app_nil_r.
Qed.

Lemma books_group xs ys s g grp q :
  books xs s -> tp_groups s !! g = Some grp -> q ≡ₚ tg_task_queue grp ++ ys ->
  books (xs ++ ys) (tp_set_group g (tg_with_queue q) s).
Proof.
  intros [Hx Hr] Hg Hq. split; [|done].
  assert (pending (tp_set_group g (tg_with_queue q) s) ++ tg_task_queue grp ≡ₚ
          pending s ++ tg_task_queue grp ++ ys) as Hp.
  { rewrite (pending_group s g grp q Hg). by apply Permutation_app_head. }
  apply (Permutation_app_inv_r (tg_task_queue grp)).
  change (tp_refused (tp_set_group g (tg_with_queue q) s)) with (tp_refused s).
  change (tp_ran (tp_set_group g (tg_with_queue q) s)) with (tp_ran s). rewrite Hx.
  transitivity ((pending (tp_set_group g (tg_with_queue q) s) ++ tg_task_queue grp) ++ tp_refused s ++ tp_ran s);
    [rewrite Hp|]; solve_Permutation.
Qed.

Lemma books_frame xs s s' :
  pending s' = pending s -> tp_refused s' = tp_refused s -> tp_ran s' = tp_ran s -> tp_finished s' = tp_finished s ->
  tp_threads s' ≫= destroying = tp_threads s ≫= destroying -> books xs s -> books xs s'.
Proof. unfold books. by intros -> -> -> -> ->. Qed.

Lemma books_busy xs s g n : books xs s -> books xs (tp_set_group g (tg_with_busy n) s).
Proof. apply books_frame; try done. apply pending_busy. Qed.

Lemma pending_stop s g : pending (tp_set_group g tg_with_stop s) = pending s.
Proof.
  unfold pending. cbn. f_equal. generalize (tp_groups s). induction g as [|g IH]; intros [|x l]; cbn; try done.
  f_equal. apply IH.
Qed.

Lemma books_stop xs s g : books xs s -> books xs (tp_set_group g tg_with_stop s).
Proof. apply books_frame; try done. apply pending_stop. Qed.

Lemma pending_group_delete s g : pending (tp_set_group g tg_delete s) = pending s.
Proof.
  unfold pending. cbn. f_equal. generalize (tp_groups s). induction g as [|g IH]; intros [|x l]; cbn; try done.
  f_equal. apply IH.
Qed.

Lemma books_delete xs s g : books xs s -> books xs (tp_set_group g tg_delete s).
Proof. apply books_frame; try done. apply pending_group_delete. Qed.

Lemma books_dangling xs s : books xs s -> books xs (tp_set_dangling s).
Proof. by apply books_frame. Qed.

Lemma use_group_inv g s k s' : use_group g s k = Some s' ->
  s' = tp_set_dangling s \/ exists grp, tp_groups s !! g = Some grp /\ tg_deleted grp = false /\ k grp = Some s'.
Proof.
  unfold use_group. destruct (tp_groups s !! g) as [grp|] eqn:Hg; cbn; [|done].
  destruct (tg_deleted grp) eqn:Hd; [intros [= <-]; by left|]. right. eauto.
Qed.

Lemma books_notify_one xs s s' g wake : notify_one g wake s = Some s' -> books xs s -> books xs s'.
Proof.
  intros Hn. pose proof (notify_one_frame _ _ _ _ Hn) as E. apply books_frame; try (by rewrite E).
  - unfold pending. rewrite (notify_one_blind _ _ _ _ _ th_tasks_blind Hn). by rewrite E.
  - apply (notify_one_blind _ _ _ _ _ destroying_blind Hn).
Qed.

Lemma books_notify_all xs s g : books xs s -> books xs (notify_all g s).
Proof.
  apply books_frame; try done.
  - unfold pending. by rewrite (notify_all_blind _ _ _ th_tasks_blind).
  - apply (notify_all_blind _ _ _ destroying_blind).
Qed.

Lemma books_refused xs s tk : books xs s -> books (xs ++ [tk]) (tp_log [] [tk] [] s).
Proof.
  intros [Hx Hr]. split; unfold pending in *; cbn; rewrite ?app_nil_r; [|done]. rewrite Hx. solve_Permutation.
Qed.

(** A task leaves the queue of a group for a thread's hand. *)
Lemma books_unqueue xs s g grp tk q :
  books xs s -> tp_groups s !! g = Some grp -> tg_task_queue grp = tk :: q ->
  exists zs, xs ≡ₚ zs ++ [tk] /\ books zs (tp_set_group g (tg_with_queue q) s).
Proof.
  intros [Hx Hr] Hg Hq. pose proof (pending_group s g grp q Hg) as Hp. rewrite Hq in Hp.
  assert (pending (tp_set_group g (tg_with_queue q) s) ++ [tk] ≡ₚ pending s) as Hp'.
  { apply (Permutation_app_inv_r q). rewrite <- Hp. solve_Permutation. }
  exists (pending (tp_set_group g (tg_with_queue q) s) ++ tp_refused s ++ tp_ran s). split; [|done].
  rewrite Hx, <- Hp'. solve_Permutation.
Qed.

Lemma books_hand xs zs s t th g tk :
  xs ≡ₚ zs ++ [tk] -> books zs s -> tp_threads s !! t = Some th -> held (th_pc th) = [] -> destroying th = [] ->
  books xs (tp_goto t (WkTaken g tk) s).
Proof.
  intros Hzs Hb Ht Hh Hd. rewrite (goto_set _ _ th) by done.
  destruct (books_thread zs [tk] s t th (th_goto (WkTaken g tk) th) Hb Ht) as [H1 H2]; [|by rewrite Hd|].
  - unfold th_tasks. cbn. rewrite Hh. solve_Permutation.
  - split; [by rewrite Hzs|done].
Qed.

Lemma books_take xs s t g th grp s' :
  books xs s -> tp_threads s !! t = Some th -> tp_groups s !! g = Some grp ->
  held (th_pc th) = [] -> destroying th = [] -> wk_take t g th grp s = Some s' -> books xs s'.
Proof.
  intros Hb Ht Hg Hh Hd. unfold wk_take. destruct (th_essential th) as [|tk es] eqn:Ees.
  - destruct (tg_task_queue grp) as [|tk q] eqn:Eq; [done|]. intros [= <-].
    destruct (books_unqueue _ _ _ _ _ _ Hb Hg Eq) as (zs & Hzs & Hb'). by eapply books_hand.
  - intros [= <-]. rewrite <- (app_nil_r xs). eapply books_thread; [done|done| |by rewrite Hd].
    unfold th_tasks. cbn. rewrite Hh, Ees. cbn. solve_Permutation.
Qed.

Lemma steal_spec th groups locked order idx tk q :
  try_steal_one th groups locked order = StolenTask idx tk q ->
  idx ∈ order /\ exists grp, groups !! idx = Some grp /\ tg_task_queue grp = tk :: q.
Proof.
  induction order as [|i order IH]; cbn; [done|]. destruct (groups !! i) as [grp|] eqn:Hg; [|done].
  destruct (tg_deleted grp); [done|]. destruct (_ && _).
  - destruct (tg_task_queue grp) as [|tk' q'] eqn:Eq; [done|]. intros [= <- <- <-]. split; [by left|eauto].
  - intros H. destruct (IH H) as (? & ?). split; [by right|done].
Qed.

(** Only waiters are touched by a notification. *)
Lemma notify_one_other g wake s s' t th :
  notify_one g wake s = Some s' -> tp_threads s !! t = Some th -> asleep g (th_pc th) = false ->
  tp_threads s' !! t = Some th.
Proof.
  unfold notify_one. intros Hn Ht Ha. destruct wake as [t'|].
  - destruct (tp_threads s !! t') as [th'|] eqn:Ht'; cbn in Hn; [|done].
    destruct (asleep g (th_pc th')) eqn:Ha'; [|done]. injection Hn as <-. cbn.
    rewrite list_lookup_alter. case_decide; [|done]. subst. congruence.
  - destruct (existsb _ _); [done|]. by injection Hn as <-.
Qed.

Lemma books_steal xs s t th g locked order idx tk q wake s' :
  books xs s -> tp_threads s !! t = Some th -> th_pc th = WkSteal g ->
  try_steal_one th (tp_groups s) locked order = StolenTask idx tk q ->
  (s ← (if bool_decide (q = []) then Some (tp_set_group idx (tg_with_queue q) s)
        else notify_one idx wake (tp_set_group idx (tg_with_queue q) s));
   Some (tp_goto t (WkTaken g tk) s)) = Some s' -> books xs s'.
Proof.
  intros Hb Ht Epc Est Hst. apply steal_spec in Est as (_ & grp & Hg & Hq).
  destruct (books_unqueue _ _ _ _ _ _ Hb Hg Hq) as (zs & Hzs & Hb1).
  assert (held (th_pc th) = [] /\ destroying th = []) as [Hh Hd] by (unfold destroying; by rewrite Epc).
  destruct (bool_decide (q = [])).
  - injection Hst as <-. by eapply books_hand.
  - destruct (notify_one idx wake _) as [s1|] eqn:En; [|done]. cbn in Hst. injection Hst as <-.
    eapply books_hand; [done|by eapply books_notify_one| |done|done].
    eapply notify_one_other; [done|done|by rewrite Epc].
Qed.

Lemma books_ran xs s t th g tk :
  books xs s -> tp_threads s !! t = Some th -> th_pc th = WkRunning g tk -> th_adding th = None ->
  books xs (tp_goto t (WkDestroy g tk) (tp_log [tk] [] [] s)).
Proof.
  intros [Hx Hr] Ht Epc Ead. rewrite (goto_set _ _ th) by done.
  pose proof (pending_thread s t th (th_goto (WkDestroy g tk) th) Ht) as Hp.
  pose proof (bind_insert destroying _ _ _ (th_goto (WkDestroy g tk) th) Ht) as Hd.
  unfold th_tasks, destroying in Hp, Hd. cbn in Hp, Hd. rewrite Epc, Ead in Hp. rewrite Epc in Hd. cbn in Hp, Hd.
  rewrite app_nil_r in *. split; cbn.
  - rewrite app_nil_r, Hx. apply (Permutation_app_inv_l (th_essential th)).
    change (pending (tp_set_thread t (th_goto (WkDestroy g tk) th) (tp_log [tk] [] [] s)))
      with (pending (tp_set_thread t (th_goto (WkDestroy g tk) th) s)).
    transitivity ((pending s ++ th_essential th) ++ tp_refused s ++ tp_ran s); [solve_Permutation|].
    transitivity ((pending (tp_set_thread t (th_goto (WkDestroy g tk) th) s) ++ th_essential th ++ [tk])
                    ++ tp_refused s ++ tp_ran s); [rewrite Hp|]; solve_Permutation.
  - rewrite app_nil_r, Hr. unfold destroying. rewrite Hd. solve_Permutation.
Qed.

Lemma books_destroyed xs s t th g tk :
  books xs s -> tp_threads s !! t = Some th -> th_pc th = WkDestroy g tk ->
  books xs (tp_goto t (WkFinish g) (tp_log [] [] [tk] s)).
Proof.
  intros [Hx Hr] Ht Epc. rewrite (goto_set _ _ th) by done.
  pose proof (pending_thread s t th (th_goto (WkFinish g) th) Ht) as Hp.
  pose proof (bind_insert destroying _ _ _ (th_goto (WkFinish g) th) Ht) as Hd.
  unfold th_tasks, destroying in Hp, Hd. cbn in Hp, Hd. rewrite Epc in Hp. rewrite Epc in Hd. cbn in Hp, Hd.
  rewrite app_nil_r in *. apply Permutation_app_inv_r in Hp. split; cbn.
  - rewrite !app_nil_r, Hx.
    change (pending (tp_set_thread t (th_goto (WkFinish g) th) (tp_log [] [] [tk] s)))
      with (pending (tp_set_thread t (th_goto (WkFinish g) th) s)). by rewrite Hp.
  - rewrite app_nil_r, Hr. unfold destroying at 1. rewrite <- Hd. unfold destroying. solve_Permutation.
Qed.

Lemma books_worker xs s t th a s' :
  books xs s -> tp_threads s !! t = Some th -> worker_exec t th a s = Some s' -> books xs s'.
Proof.
  intros Hb Ht. unfold worker_exec.
  assert (forall s1 pc, books xs s1 -> tp_threads s1 !! t = Some th -> held pc = held (th_pc th) ->
            destroying (th_goto pc th) = destroying th -> books xs (tp_goto t pc s1)) as Hgo by eauto using books_goto.
  unfold destroying in Hgo. cbn in Hgo.
  destruct (th_pc th) as [| | | |g|g|g|g|g tk|g tk|g tk|g|g|g] eqn:Epc, a; try done.
  - destruct (tp_groups s !! g) as [grp|] eqn:Hg; cbn; [|done]. destruct (has_task th grp).
    + eapply books_take; try done; [by rewrite Epc|unfold destroying; by rewrite Epc].
    + destruct (tg_stop grp); [|destruct (tp_is_steal s)]; intros [= <-]; by apply Hgo.
  - destruct (try_steal_one _ _ _ _) as [|idx tk q|] eqn:Est; [|by eapply books_steal|];
      intros [= <-]; [by apply Hgo|by apply books_dangling].
  - destruct (tp_groups s !! g) as [grp|] eqn:Hg; cbn; [|done]. destruct (has_task th grp).
    + eapply books_take; try done; [by rewrite Epc|unfold destroying; by rewrite Epc].
    + destruct (tg_stop grp); intros [= <-]; by apply Hgo.
  - intros [= <-]. by apply Hgo.
  - destruct (tp_groups s !! g) as [grp|] eqn:Hg; cbn; [|done]. intros [= <-].
    apply Hgo; [by apply books_busy|done..].
  - destruct (th_adding th) as [|] eqn:Ead; [done|]. intros [= <-]. by eapply books_ran.
  - intros [= <-]. by eapply books_destroyed.
  - destruct (tp_groups s !! g) as [grp|] eqn:Hg; cbn; [|done]. intros [= <-].
    apply Hgo; [by apply books_busy|done..].
  - destruct (tp_groups s !! g) as [grp|] eqn:Hg; cbn; [|done]. intros [= <-].
    destruct (_ && _); [|by apply Hgo]. apply Hgo; [by apply books_notify_all| |done..].
    cbn. rewrite list_lookup_fmap, Ht. cbn. by rewrite Epc.
Qed.

Lemma books_client xs s t th a s' :
  books xs s -> tp_threads s !! t = Some th -> client_exec t th a s = Some s' -> books xs s'.
Proof.
  intros Hb Ht. unfold client_exec.
  assert (forall s1 pc, books xs s1 -> tp_threads s1 !! t = Some th -> held pc = held (th_pc th) ->
            destroying (th_goto pc th) = destroying th -> books xs (tp_goto t pc s1)) as Hgo by eauto using books_goto.
  unfold destroying in Hgo. cbn in Hgo.
  destruct (th_pc th) as [|g []|g timed|g| | | | | | | | | |] eqn:Epc, a; try done.
  - intros [->|(grp & Hg & _ & Hk)]%use_group_inv; [by apply books_dangling|]. revert Hk.
    destruct (has_task th grp); intros [= <-]; [|done]. by apply Hgo.
  - by intros [= <-].
  - intros [->|(grp & Hg & _ & Hk)]%use_group_inv; [by apply books_dangling|]. injection Hk as <-.
    apply Hgo; [by apply books_notify_all, books_stop| |done..].
    cbn. rewrite list_lookup_fmap, Ht. cbn. by rewrite Epc.
  - intros [= <-]. by apply Hgo.
  - intros [->|(grp & Hg & _ & Hk)]%use_group_inv; [by apply books_dangling|]. injection Hk as <-. by apply Hgo.
  - intros [= <-]. by apply Hgo.
  - intros [->|(grp & Hg & _ & Hk)]%use_group_inv; [by apply books_dangling|]. injection Hk as <-.
    by destruct (has_task th grp); apply Hgo.
  - destruct (forallb _ _); [|done]. intros [->|(grp & Hg & _ & Hk)]%use_group_inv; [by apply books_dangling|].
    injection Hk as <-. apply Hgo; [by apply books_delete|done..].
Qed.

Lemma books_push xs s t th wake s' :
  books xs s -> tp_threads s !! t = Some th ->
  (p ← th_adding th; use_group p.1 s (fun grp =>
   group_add_task p.1 p.2 wake grp (tp_set_thread t (mk_thread (th_pc th) (th_essential th) None) s))) = Some s' ->
  books xs s'.
Proof.
  intros Hb Ht. destruct (th_adding th) as [[g tk]|] eqn:Ead; cbn; [|done].
  intros [->|(grp & Hg & _ & Hk)]%use_group_inv; [by apply books_dangling|]. revert Hk.
  set (s1 := tp_set_thread t (mk_thread (th_pc th) (th_essential th) None) s).
  assert (exists zs, xs ≡ₚ zs ++ [tk] /\ books zs s1) as (zs & Hzs & Hb1).
  { destruct Hb as [Hx Hr]. exists (pending s1 ++ tp_refused s ++ tp_ran s). split.
    - pose proof (pending_thread s t th (mk_thread (th_pc th) (th_essential th) None) Ht) as Hp.
      unfold th_tasks in Hp. rewrite Ead in Hp. cbn in Hp.
      assert (pending s1 ++ [tk] ≡ₚ pending s) as Hp'.
      { apply (Permutation_app_inv_r (th_essential th ++ held (th_pc th))). rewrite <- Hp. solve_Permutation. }
      rewrite Hx, <- Hp'. solve_Permutation.
    - split; [done|]. cbn. rewrite Hr. by rewrite (bind_insert_same _ _ _ _ _ Ht). }
  assert (forall s2, books (zs ++ [tk]) s2 -> books xs s2) as Hxs by (intros s2 [H1 H2]; split; [by rewrite Hzs|done]).
  unfold group_add_task. intros H. apply Hxs. revert H.
  destruct (_ >=? _); [intros [= <-]; by apply books_refused|].
  destruct (tg_stop grp); [intros [= <-]; by apply books_refused|]. intros Hn.
  eapply books_notify_one; [done|]. eapply books_group; [done|exact Hg|done].
Qed.

Lemma tp_exec_books xs t a s s' : books xs s -> tp_exec t a s = Some s' -> books (xs ++ act_tasks a) s'.
Proof.
  intros Hb. unfold tp_exec. destruct (tp_dangling s); [done|].
  destruct (tp_threads s !! t) as [th|] eqn:Ht; [|done]. cbn.
  assert (forall o, o = Some s' -> act_tasks a = [] -> (o = client_exec t th a s \/ o = worker_exec t th a s) ->
            books (xs ++ act_tasks a) s') as Hother.
  { intros o -> -> [E|E]; rewrite app_nil_r; [by eapply books_client|by eapply books_worker]. }
  destruct a as [| |ofs lk wk|g tk|wk|tk|g ms| | |g].
  4: { destruct (can_call th) eqn:Hc; [|done]. cbn. destruct (tp_stop s).
    - intros [= <-]. by apply books_refused.
    - destruct (tp_groups s !! g); cbn; [|done]. intros [= <-]. eapply books_thread; [done|done| |done].
      unfold can_call in Hc. destruct (th_adding th) eqn:Ead; [by destruct (th_pc th)|].
      unfold th_tasks. cbn. rewrite Ead. cbn. solve_Permutation. }
  4: { rewrite app_nil_r. by eapply books_push. }
  4: { destruct (can_call th) eqn:Hc; [|done]. cbn. destruct (tp_stop s); intros [= <-]; [by apply books_refused|].
    eapply books_thread; [done|done| |done]. unfold th_tasks. cbn. solve_Permutation. }
  all: intros H; destruct (th_pc th); try (destruct (th_adding th); [done|]); eapply Hother; eauto.
Qed.

(** Handed in by the schedule. *)
Definition submitted (sched : list (nat * tp_act)) : list task := sched ≫= fun x => act_tasks x.2.

Lemma tp_run_books sched xs s s' : books xs s -> tp_run sched s = Some s' -> books (xs ++ submitted sched) s'.
Proof.
  revert xs s. induction sched as [|[t a] sched IH]; intros xs s Hb; cbn.
  - intros [= <-]. by rewrite app_nil_r.
  - destruct (tp_exec t a s) as [s1|] eqn:E; cbn; [|done]. intros Hr.
    rewrite app_assoc. eapply IH; [|exact Hr]. by eapply tp_exec_books.
Qed.

Lemma bind_nil {A B} (f : A -> list B) l : (forall x, x ∈ l -> f x = []) -> l ≫= f = [].
Proof.
  induction l as [|x l IH]; intros H; [done|]. cbn. rewrite (H x) by (by left). cbn. apply IH. intros y Hy.
  apply H. by right.
Qed.

Lemma start_threads steal cfg clients th :
  th ∈ tp_threads (threadpool_start steal cfg clients) ->
  th_essential th = [] /\ th_adding th = None /\ (th_pc th = ClIdle \/ exists g, th_pc th = WkLoop g).
Proof.
  cbn. rewrite elem_of_app. intros [H|H].
  - apply elem_of_replicate in H as [-> _]. eauto.
  - apply list_elem_of_bind in H as (l & Hth & Hl). apply list_elem_of_lookup in Hl as [g Hl].
    rewrite list_lookup_imap in Hl. destruct (cfg !! g) as [p|]; cbn in Hl; [|done]. injection Hl as <-.
    apply elem_of_replicate in Hth as [-> _]. eauto.
Qed.

Lemma start_books steal cfg clients : books [] (threadpool_start steal cfg clients).
Proof.
  assert (forall f : tp_thread -> list task, (forall th, th_essential th = [] -> th_adding th = None ->
      (th_pc th = ClIdle \/ exists g, th_pc th = WkLoop g) -> f th = []) ->
      tp_threads (threadpool_start steal cfg clients) ≫= f = []) as Hnil.
  { intros f Hf. apply bind_nil. intros th Hth. destruct (start_threads _ _ _ _ Hth) as (? & ? & ?). by apply Hf. }
  split.
  - unfold pending. rewrite Hnil.
    + cbn. rewrite !app_nil_r. rewrite bind_nil; [done|]. intros grp Hgrp.
      by apply list_elem_of_fmap in Hgrp as (p & -> & _).
    + intros th E1 E2 Hpc. unfold th_tasks. rewrite E1, E2. by destruct Hpc as [-> | [g ->]].
  - cbn [tp_ran threadpool_start tp_finished]. rewrite Hnil; [done|]. intros th _ _ [E | [g E]]; unfold destroying; by rewrite E.
Qed.

(** C14 — Every task is accounted for, under every interleaving, with stealing
    or without, up to the moment when a deleted group is used: what was handed in
    is in one place -- a queue, a thread's hand, the list of those that were
    refused, which are destroyed without running, or of those that ran -- and in
    none twice; and each task that ran has been destroyed once, or is about to
    be.  Nothing is said of when a task in a queue runs. *)
Theorem threadpool_tasks_accounted steal cfg clients sched s :
  tp_run sched (threadpool_start steal cfg clients) = Some s ->
  submitted sched ≡ₚ pending s ++ tp_refused s ++ tp_ran s /\
  tp_ran s ≡ₚ tp_finished s ++ (tp_threads s ≫= destroying) /\
  (NoDup (submitted sched) -> NoDup (pending s ++ tp_refused s ++ tp_ran s) /\ NoDup (tp_finished s)).
Proof.
  intros Hrun. destruct (tp_run_books _ _ _ _ (start_books steal cfg clients) Hrun) as [Hx Hr].
  split; [done|]. split; [done|]. intros Hnd. cbn in Hx. rewrite Hx in Hnd. split; [done|].
  apply NoDup_app in Hnd as (_ & _ & Hnd). apply NoDup_app in Hnd as (_ & _ & Hnd). rewrite Hr in Hnd.
  by apply NoDup_app in Hnd as (? & _ & _).
Qed.

(** ** No task is forgotten

    The liveness argument is about one group [g], without stealing.  A sleeping
    worker must have been notified if there is something to do; the
    notification of [add_task] can go to a thread in [wait_for_all_done]
    instead, and it is harmless only because then some worker is awake. *)

Section liveness.
Variable g : nat.

Definition awake (pc : tp_pc) : bool :=
  match pc with
  | WkLoop g' | WkSteal g' | WkRelock g' | WkTaken g' _ | WkRunning g' _ | WkDestroy g' _
  | WkFinish g' | WkCheck g' => (g' =? g)%nat
  | _ => false
  end.

Definition worker (pc : tp_pc) : bool :=
  awake pc || match pc with WkSleep g' | WkExit g' => (g' =? g)%nat | _ => false end.

(** Between [++_busy] and [--_busy]. *)
Definition counted (_ : nat) (th : tp_thread) : bool :=
  match th_pc th with WkRunning g' _ | WkDestroy g' _ | WkFinish g' => (g' =? g)%nat | _ => false end.

(** Will look whether all is done, after the present task or the next. *)
Definition will_check (th : tp_thread) : bool :=
  match th_pc th with
  | WkTaken g' _ | WkRunning g' _ | WkDestroy g' _ | WkFinish g' | WkCheck g' => (g' =? g)%nat
  | _ => awake (th_pc th) && negb (bool_decide (th_essential th = []))
  end.

Definition is_client (pc : tp_pc) : bool :=
  match pc with ClIdle | ClSleep _ _ | ClWake _ _ | ClJoin _ => true | _ => false end.

(** What a thread may not be. *)
Definition th_ok (th : tp_thread) : Prop :=
  match th_pc th with
  | WkSteal _ => False
  | WkSleep _ | WkExit _ | ClIdle | ClSleep _ _ | ClWake _ _ | ClJoin _ => th_essential th = []
  | _ => True
  end.

Record tp_live (s : threadpool) (grp : thread_group) : Prop := {
  tpl_steal : tp_is_steal s = false;
  tpl_group : tp_groups s !! g = Some grp;
  tpl_ok : forall t th, tp_threads s !! t = Some th -> th_ok th;
  tpl_worker : exists t th, tp_threads s !! t = Some th /\ worker (th_pc th) = true;
  tpl_exit : forall t th, tp_threads s !! t = Some th -> th_pc th = WkExit g ->
    tg_stop grp = true /\ tg_task_queue grp = [];
  tpl_busy : tg_busy grp = tally counted (tp_threads s);
  tpl_awake : tg_task_queue grp <> [] ->
    exists t th, tp_threads s !! t = Some th /\ awake (th_pc th) = true;
  tpl_wait : forall t th timed, tp_threads s !! t = Some th -> th_pc th = ClSleep g timed ->
    tg_task_queue grp <> [] \/ exists t' th', tp_threads s !! t' = Some th' /\ will_check th' = true;
}.

(** What may happen to the other threads: they are woken. *)
Definition same_or_woken (th th' : tp_thread) : Prop :=
  th' = th \/ exists g', asleep g' (th_pc th) = true /\ th' = th_goto (woken (th_pc th)) th.

Definition others (t : nat) (ts ts' : list tp_thread) : Prop :=
  length ts' = length ts /\
  forall t' th, t' <> t -> ts !! t' = Some th -> exists th', ts' !! t' = Some th' /\ same_or_woken th th'.

Lemma same_or_woken_spec th th' : same_or_woken th th' ->
  (awake (th_pc th) = true -> th' = th) /\ (will_check th = true -> th' = th) /\ (th_ok th -> th_ok th') /\
  (th_pc th' = WkExit g -> th' = th) /\ (forall timed, th_pc th' = ClSleep g timed -> th' = th) /\
  (forall n, counted n th' = counted n th) /\ (worker (th_pc th) = true -> worker (th_pc th') = true).
Proof.
  intros [->|(g' & Ha & ->)]; [done|]. destruct th as [pc es ad]. unfold counted, will_check, th_ok. cbn in *.
  destruct pc; cbn in *; try done. split_and!; try done. unfold worker. cbn. by intros ->.
Qed.

Lemma others_back t ts ts' t' th' :
  others t ts ts' -> t' <> t -> ts' !! t' = Some th' -> exists th, ts !! t' = Some th /\ same_or_woken th th'.
Proof.
  intros [Hl Ho] Hne Ht'. destruct (lookup_lt_is_Some_2 ts t') as [th Hth].
  { rewrite <- Hl. by eapply lookup_lt_Some. }
  exists th. split; [done|]. destruct (Ho _ _ Hne Hth) as (th2 & H2 & ?). by simplify_eq.
Qed.

Lemma tally_ext {P} f (ts ts' : list P) :
  length ts = length ts' ->
  (forall t pc pc', ts !! t = Some pc -> ts' !! t = Some pc' -> f t pc = f t pc') -> tally f ts = tally f ts'.
Proof.
  revert f ts'. induction ts as [|p ts IH]; intros f [|p' ts'] Hl H; try done. cbn in *.
  rewrite (H 0%nat p p' eq_refl eq_refl). f_equal. apply IH; [lia|]. intros t pc pc' ? ?. by apply (H (S t)).
Qed.

Lemma tally_others t ts ts' th th' :
  others t ts ts' -> ts !! t = Some th -> ts' !! t = Some th' ->
  tally counted ts' = tally counted ts - Z.b2z (counted t th) + Z.b2z (counted t th').
Proof.
  intros Ho Ht Ht'. rewrite <- (tally_insert _ _ _ _ th' Ht). symmetry. apply tally_ext.
  { rewrite length_insert. symmetry. apply Ho. }
  intros t2 y y' Hy Hy'. apply step_cases in Hy as [[-> ->]|[Hne Hy]]; [by simplify_eq|].
  destruct (others_back _ _ _ _ _ Ho Hne Hy') as (z & Hz & Hs). simplify_eq.
  apply same_or_woken_spec in Hs as (_ & _ & _ & _ & _ & Hc & _). by rewrite Hc.
Qed.

(** A step of thread [t], and what it owes. *)
Lemma live_step s s' t th th' grp grp' :
  tp_live s grp -> tp_is_steal s' = false -> tp_groups s' !! g = Some grp' ->
  tp_threads s !! t = Some th -> tp_threads s' !! t = Some th' -> others t (tp_threads s) (tp_threads s') ->
  th_ok th' -> (worker (th_pc th) = true -> worker (th_pc th') = true) ->
  (tg_stop grp = true /\ tg_task_queue grp = [] -> tg_stop grp' = true /\ tg_task_queue grp' = []) ->
  (th_pc th' = WkExit g -> tg_stop grp' = true /\ tg_task_queue grp' = []) ->
  tg_busy grp' = tg_busy grp - Z.b2z (counted t th) + Z.b2z (counted t th') ->
  (tg_task_queue grp' <> [] -> awake (th_pc th') = true \/ awake (th_pc th) = false /\ tg_task_queue grp <> [] \/
     exists t2 th2, tp_threads s' !! t2 = Some th2 /\ awake (th_pc th2) = true) ->
  ((exists t2 th2 timed, tp_threads s' !! t2 = Some th2 /\ th_pc th2 = ClSleep g timed) ->
     tg_task_queue grp' <> [] \/ will_check th' = true \/
     (tg_task_queue grp = [] /\ will_check th = false /\ forall timed, th_pc th' <> ClSleep g timed) \/
     exists t2 th2, tp_threads s' !! t2 = Some th2 /\ will_check th2 = true) ->
  tp_live s' grp'.
Proof.
  intros [H1 H2 H3 H4 H5 H6 H7 H8] Hs Hg Ht Ht' Ho Hok Hwk Hst Hex Hb Haw Hwt.
  assert (forall t2 th2, t2 <> t -> tp_threads s !! t2 = Some th2 -> exists th2', tp_threads s' !! t2 = Some th2' /\
    same_or_woken th2 th2') as Hfw by apply Ho.
  split; try done.
  - intros t2 y Hy. destruct (decide (t2 = t)) as [->|Hne]; [by simplify_eq|].
    destruct (others_back _ _ _ _ _ Ho Hne Hy) as (z & Hz & Hsw). apply same_or_woken_spec in Hsw as (_ & _ & Hsw & _).
    by eapply Hsw, H3.
  - destruct H4 as (t2 & y & Hy & Hw). destruct (decide (t2 = t)) as [->|Hne]; [simplify_eq; eauto|].
    destruct (Hfw _ _ Hne Hy) as (y' & Hy' & Hsw). apply same_or_woken_spec in Hsw as (_ & _ & _ & _ & _ & _ & Hsw). eauto.
  - intros t2 y Hy Hpc. destruct (decide (t2 = t)) as [->|Hne]; [simplify_eq; by apply Hex|].
    destruct (others_back _ _ _ _ _ Ho Hne Hy) as (z & Hz & Hsw). apply same_or_woken_spec in Hsw as (_ & _ & _ & Hsw & _).
    specialize (Hsw Hpc) as ->. by eapply Hst, H5.
  - rewrite Hb, H6. symmetry. by apply tally_others.
  - intros Hq. destruct (Haw Hq) as [?|[[Hna Hq']|?]]; [eauto| |done].
    destruct (H7 Hq') as (t2 & y & Hy & Ha). destruct (decide (t2 = t)) as [->|Hne]; [simplify_eq; congruence|].
    destruct (Hfw _ _ Hne Hy) as (y' & Hy' & Hsw). apply same_or_woken_spec in Hsw as (Hsw & _).
    specialize (Hsw Ha) as ->. eauto.
  - intros t2 y timed Hy Hpc. destruct Hwt as [?|[?|[(Hq & Hnc & Hncl)|?]]]; [by eauto 10|by left|right; by eauto| |by right].
    destruct (decide (t2 = t)) as [->|Hne]; [simplify_eq; by destruct (Hncl timed)|].
    destruct (others_back _ _ _ _ _ Ho Hne Hy) as (z & Hz & Hsw).
    apply same_or_woken_spec in Hsw as (_ & _ & _ & _ & Hsw & _). specialize (Hsw _ Hpc) as ->.
    destruct (H8 _ _ _ Hz Hpc) as [?|(t3 & w & Hw & Hc)]; [done|]. right.
    destruct (decide (t3 = t)) as [->|Hne3]; [simplify_eq; congruence|].
    destruct (Hfw _ _ Hne3 Hw) as (w' & Hw' & Hsw'). apply same_or_woken_spec in Hsw' as (_ & Hsw' & _).
    specialize (Hsw' Hc) as ->. eauto.
Qed.

(** The thread is as useful to the group as before. *)
Lemma live_mono s s' t th th' grp grp' :
  tp_live s grp -> tp_is_steal s' = false -> tp_groups s' !! g = Some grp' ->
  tp_threads s !! t = Some th -> tp_threads s' !! t = Some th' -> others t (tp_threads s) (tp_threads s') ->
  tg_task_queue grp' = tg_task_queue grp -> (tg_stop grp = true -> tg_stop grp' = true) ->
  th_ok th' -> (worker (th_pc th) = true -> worker (th_pc th') = true) ->
  (th_pc th' = WkExit g -> th_pc th = WkExit g) ->
  tg_busy grp' = tg_busy grp - Z.b2z (counted t th) + Z.b2z (counted t th') ->
  (awake (th_pc th) = true -> awake (th_pc th') = true) ->
  (will_check th = true -> will_check th' = true) ->
  (forall timed, th_pc th' = ClSleep g timed -> th_pc th = ClSleep g timed) ->
  tp_live s' grp'.
Proof.
  intros HL Hs Hg Ht Ht' Ho Hq Hst Hok Hwk Hex Hb Ha Hw Hcl.
  eapply (live_step s s' t th th' grp grp'); try done.
  - intros [? ?]. rewrite Hq. auto.
  - intros Hpc. destruct (tpl_exit _ _ HL t th Ht (Hex Hpc)). rewrite Hq. auto.
  - rewrite Hq. intros Hne. destruct (awake (th_pc th)) eqn:E; [left; by apply Ha|right; by left].
  - intros (t2 & th2 & timed & Ht2 & Hpc). rewrite Hq.
    assert (exists y, tp_threads s !! t2 = Some y /\ th_pc y = ClSleep g timed) as (y & Hy & Hypc).
    { destruct (decide (t2 = t)) as [->|Hne]; [simplify_eq; eauto|].
      destruct (others_back _ _ _ _ _ Ho Hne Ht2) as (z & Hz & Hsw).
      apply same_or_woken_spec in Hsw as (_ & _ & _ & _ & Hsw & _). specialize (Hsw _ Hpc) as ->. eauto. }
    destruct (tpl_wait _ _ HL _ _ _ Hy Hypc) as [?|(t3 & w & Hw3 & Hc)]; [by left|right].
    destruct (decide (t3 = t)) as [->|Hne3]; [left; simplify_eq; by apply Hw|right; right].
    destruct (proj2 Ho _ _ Hne3 Hw3) as (w' & Hw' & Hsw'). apply same_or_woken_spec in Hsw' as (_ & Hsw' & _).
    specialize (Hsw' Hc) as ->. eauto.
Qed.

Lemma others_insert t ts th' : others t ts (<[t := th']> ts).
Proof.
  split; [by rewrite length_insert|]. intros t' th Hne Ht'. exists th. rewrite list_lookup_insert_ne by done.
  split; [done|by left].
Qed.

Lemma others_refl t ts : others t ts ts.
Proof. split; [done|]. intros t' th _ ?. exists th. split; [done|by left]. Qed.

Lemma others_notify_all t th' g1 s :
  others t (tp_threads s) (<[t := th']> (tp_threads (notify_all g1 s))).
Proof.
  split; [rewrite length_insert; cbn; by rewrite length_fmap|]. intros t' th Hne Ht'.
  rewrite list_lookup_insert_ne by done. cbn. rewrite list_lookup_fmap, Ht'. cbn. eexists. split; [done|].
  destruct (asleep g1 (th_pc th)) eqn:E; [right; eauto|by left].
Qed.

Lemma insert_self (ts : list tp_thread) t th th' : ts !! t = Some th -> <[t := th']> ts !! t = Some th'.
Proof. intros H. apply list_lookup_insert_eq. by eapply lookup_lt_Some. Qed.

Lemma group_ne (f : thread_group -> thread_group) (l : list thread_group) g1 :
  g1 <> g -> alter f g1 l !! g = l !! g.
Proof. intros Hne. rewrite list_lookup_alter, decide_False by done. done. Qed.

Lemma group_eq (f : thread_group -> thread_group) (l : list thread_group) grp :
  l !! g = Some grp -> alter f g l !! g = Some (f grp).
Proof. intros Hg. by rewrite list_lookup_alter, decide_True, Hg. Qed.

Lemma eqb_neq g1 : g1 <> g -> (g1 =? g)%nat = false.
Proof. by apply Nat.eqb_neq. Qed.

(** Thread [t] goes on to [pc], in the state [s1] that differs at most in group. *)
Lemma live_goto s s1 t th pc grp grp' :
  tp_live s grp -> tp_threads s1 = tp_threads s -> tp_is_steal s1 = false -> tp_groups s1 !! g = Some grp' ->
  tp_threads s !! t = Some th ->
  tg_task_queue grp' = tg_task_queue grp -> (tg_stop grp = true -> tg_stop grp' = true) ->
  th_ok (th_goto pc th) -> (worker (th_pc th) = true -> worker pc = true) ->
  (pc = WkExit g -> th_pc th = WkExit g) ->
  tg_busy grp' = tg_busy grp - Z.b2z (counted t th) + Z.b2z (counted t (th_goto pc th)) ->
  (awake (th_pc th) = true -> awake pc = true) -> (will_check th = true -> will_check (th_goto pc th) = true) ->
  (forall timed, pc <> ClSleep g timed) ->
  tp_live (tp_goto t pc s1) grp'.
Proof.
  intros HL Hts Hs Hg Ht Hq Hst Hok Hwk Hex Hb Ha Hw Hcl.
  assert (tp_goto t pc s1 = tp_set_thread t (th_goto pc th) s1) as -> by (apply goto_set; by rewrite Hts).
  eapply (live_mono s _ t th (th_goto pc th) grp grp'); try done; cbn; rewrite ?Hts.
  - by eapply insert_self.
  - apply others_insert.
  - intros timed E. by destruct (Hcl timed).
Qed.

Lemma wk_take_spec s t g1 th grp1 s' :
  tp_threads s !! t = Some th -> wk_take t g1 th grp1 s = Some s' ->
  exists tk es s1, s' = tp_set_thread t (mk_thread (WkTaken g1 tk) es (th_adding th)) s1 /\
    (s1 = s \/ exists q, tg_task_queue grp1 = tk :: q /\ s1 = tp_set_group g1 (tg_with_queue q) s).
Proof.
  intros Ht. unfold wk_take. destruct (th_essential th) as [|tk es] eqn:Ees.
  - destruct (tg_task_queue grp1) as [|tk q] eqn:Eq; [done|]. intros [= <-].
    exists tk, [], (tp_set_group g1 (tg_with_queue q) s). split; [|eauto].
    rewrite (goto_set _ _ th) by done. unfold th_goto. by rewrite Ees.
  - intros [= <-]. exists tk, es, s. auto.
Qed.

(** A worker of group [g1] takes a task. *)
Lemma live_take s t th g1 grp1 grp s' :
  tp_live s grp -> tp_threads s !! t = Some th -> (th_pc th = WkLoop g1 \/ th_pc th = WkRelock g1) ->
  tp_groups s !! g1 = Some grp1 -> wk_take t g1 th grp1 s = Some s' -> exists grp', tp_live s' grp'.
Proof.
  intros HL Ht Hpc Hg1 Htake. destruct (wk_take_spec _ _ _ _ _ _ Ht Htake) as (tk & es & s1 & -> & Hs1).
  pose proof (tpl_group _ _ HL) as Hg.
  assert (tp_threads s1 = tp_threads s) as Hts by (by destruct Hs1 as [->|(q & _ & ->)]).
  assert (tp_is_steal s1 = false) as Hst by (destruct Hs1 as [->|(q & _ & ->)]; apply HL).
  set (th' := mk_thread (WkTaken g1 tk) es (th_adding th)).
  assert (tp_threads (tp_set_thread t th' s1) !! t = Some th') as Ht' by (cbn; rewrite Hts; by eapply insert_self).
  assert (others t (tp_threads s) (tp_threads (tp_set_thread t th' s1))) as Ho by (cbn; rewrite Hts; apply others_insert).
  destruct (decide (g1 = g)) as [->|Hne].
  - assert (grp1 = grp) as -> by congruence. assert (exists grp', tp_groups s1 !! g = Some grp' /\ tg_stop grp' = tg_stop grp /\
      tg_busy grp' = tg_busy grp /\ (tg_task_queue grp = [] -> tg_task_queue grp' = [])) as (grp' & Hg' & Hs' & Hb' & Hq').
    { destruct Hs1 as [->|(q & Hq & ->)]; [by eauto|]. cbn. rewrite (group_eq _ _ _ Hg). eexists. split; [done|].
      cbn. split; [done|]. split; [done|]. by rewrite Hq. }
    exists grp'. eapply (live_step s _ t th th' grp); try done.
    + unfold worker. cbn. by rewrite Nat.eqb_refl.
    + intros [? ?]. rewrite Hs'. auto.
    + unfold counted. destruct Hpc as [-> | ->]; cbn; lia.
    + intros _. left. cbn. apply Nat.eqb_refl.
    + intros _. right. left. cbn. apply Nat.eqb_refl.
  - exists grp. assert (tp_groups (tp_set_thread t th' s1) !! g = Some grp) as Hg'.
    { cbn. destruct Hs1 as [->|(q & _ & ->)]; [done|]. cbn. by rewrite group_ne. }
    eapply (live_mono s _ t th th' grp); try done; unfold worker, counted, will_check; cbn;
      destruct Hpc as [Hp|Hp]; rewrite ?Hp; cbn; rewrite ?(eqb_neq _ Hne); cbn; try done; lia.
Qed.

Lemma has_task_false th grp1 :
  has_task th grp1 = false -> th_essential th = [] /\ tg_task_queue grp1 = [].
Proof. unfold has_task. intros H. apply orb_false_iff in H as [H1 H2]. by case_bool_decide; case_bool_decide. Qed.

Lemma has_task_true th grp1 :
  has_task th grp1 = true -> th_essential th <> [] \/ tg_task_queue grp1 <> [].
Proof. unfold has_task. intros H. case_bool_decide; case_bool_decide; auto. Qed.

(** A worker without anything to do goes to sleep or leaves. *)
Lemma live_rest s t th g1 grp1 grp pc :
  tp_live s grp -> tp_threads s !! t = Some th -> (th_pc th = WkLoop g1 \/ th_pc th = WkRelock g1) ->
  tp_groups s !! g1 = Some grp1 -> has_task th grp1 = false ->
  pc = WkSleep g1 \/ pc = WkExit g1 /\ tg_stop grp1 = true -> tp_live (tp_goto t pc s) grp.
Proof.
  intros HL Ht Hpc Hg1 Hno Hpc'. apply has_task_false in Hno as [Hes Hq]. pose proof (tpl_group _ _ HL) as Hg.
  rewrite (goto_set _ _ th) by done.
  assert (tp_threads (tp_set_thread t (th_goto pc th) s) !! t = Some (th_goto pc th)) as Ht' by (cbn; by eapply insert_self).
  pose proof (others_insert t (tp_threads s) (th_goto pc th)) as Ho.
  destruct (decide (g1 = g)) as [->|Hne].
  - assert (grp1 = grp) as -> by congruence. eapply (live_step s _ t th (th_goto pc th) grp grp); try done.
    + apply HL.
    + unfold th_ok. by destruct Hpc' as [->|[-> _]].
    + unfold worker. destruct Hpc' as [->|[-> _]]; cbn; by rewrite Nat.eqb_refl.
    + by destruct Hpc' as [->|[-> ?]].
    + unfold counted. destruct Hpc as [-> | ->], Hpc' as [->|[-> _]]; cbn; lia.
    + intros _. right. right. left. split; [done|]. split; [|by destruct Hpc' as [->|[-> _]]].
      unfold will_check. rewrite Hes. destruct Hpc as [-> | ->]; cbn; by rewrite andb_false_r.
  - eapply (live_mono s _ t th (th_goto pc th) grp grp); try done; unfold worker, counted, will_check, th_ok; cbn.
    all: destruct Hpc as [Hp|Hp], Hpc' as [Hp'|[Hp' _]]; subst pc; rewrite ?Hp; cbn; rewrite ?(eqb_neq _ Hne); cbn;
      try done; try lia; try (by apply HL); by intros [= ->].
Qed.

(** After the task: the check of the last one. *)
Lemma live_check s t th g1 grp1 grp :
  tp_live s grp -> tp_threads s !! t = Some th -> th_pc th = WkCheck g1 -> tp_groups s !! g1 = Some grp1 ->
  tp_live (tp_goto t (WkLoop g1)
    (if (tg_busy grp1 =? 0) && negb (has_task th grp1) then notify_all g1 s else s)) grp.
Proof.
  intros HL Ht Hpc Hg1. pose proof (tpl_group _ _ HL) as Hg.
  assert (forall s1, tp_threads s1 !! t = Some th -> tp_goto t (WkLoop g1) s1 = tp_set_thread t (th_goto (WkLoop g1) th) s1) as Hgs
    by (intros; by apply goto_set).
  destruct (decide (g1 = g)) as [->|Hne].
  - assert (grp1 = grp) as -> by congruence. destruct ((tg_busy grp =? 0) && negb (has_task th grp)) eqn:E.
    + apply andb_true_iff in E as [_ E]. apply negb_true_iff, has_task_false in E as [Hes Hq].
      rewrite Hgs by (cbn; rewrite list_lookup_fmap, Ht; cbn; by rewrite Hpc).
      eapply (live_step s _ t th (th_goto (WkLoop g) th) grp grp); try done; cbn.
      * apply HL.
      * rewrite (insert_self _ _ (if asleep g (th_pc th) then th_goto (woken (th_pc th)) th else th)); [done|].
        by rewrite list_lookup_fmap, Ht.
      * apply others_notify_all.
      * unfold worker. cbn. by rewrite Nat.eqb_refl.
      * unfold counted. rewrite Hpc. cbn. lia.
      * intros (t2 & th2 & timed & Ht2 & Hpc2). exfalso. apply step_cases in Ht2 as [[-> ->]|[_ Ht2]]; [done|].
        rewrite list_lookup_fmap in Ht2. destruct (tp_threads s !! t2) as [y|]; cbn in Ht2; [|done].
        injection Ht2 as <-. destruct (asleep g (th_pc y)) eqn:Ea; cbn in Hpc2; [by destruct (th_pc y)|].
        rewrite Hpc2 in Ea. cbn in Ea. by rewrite Nat.eqb_refl in Ea.
    + rewrite Hgs by done. eapply (live_step s _ t th (th_goto (WkLoop g) th) grp grp); try done; cbn.
      * apply HL.
      * by eapply insert_self.
      * apply others_insert.
      * unfold worker. cbn. by rewrite Nat.eqb_refl.
      * unfold counted. rewrite Hpc. cbn. lia.
      * intros _. left. by apply Nat.eqb_refl.
      * intros _. apply andb_false_iff in E as [E|E].
        -- right. right. right. apply Z.eqb_neq in E. rewrite (tpl_busy _ _ HL) in E.
           destruct (tally_some _ _ E) as (t2 & y & Hy & Hc). exists t2, y.
           assert (t2 <> t) as Hne by (intros ->; simplify_eq; unfold counted in Hc; by rewrite Hpc in Hc).
           rewrite list_lookup_insert_ne by done. split; [done|]. unfold counted in Hc. unfold will_check.
           by destruct (th_pc y).
        -- apply negb_false_iff, has_task_true in E as [E|E]; [|by left]. right. left.
           unfold will_check. cbn. rewrite Nat.eqb_refl. by rewrite bool_decide_eq_false_2.
  - assert (exists s1, tp_threads s1 !! t = Some th /\ tp_is_steal s1 = false /\ tp_groups s1 = tp_groups s /\
      (if (tg_busy grp1 =? 0) && negb (has_task th grp1) then notify_all g1 s else s) = s1 /\
      others t (tp_threads s) (<[t := th_goto (WkLoop g1) th]> (tp_threads s1))) as (s1 & Ht1 & Hs1 & Hgs1 & -> & Ho).
    { destruct (_ && _); eexists; (split; [|split; [|split; [|split; [reflexivity|]]]]); cbn; try done; try apply HL.
      - by rewrite list_lookup_fmap, Ht; cbn; rewrite Hpc.
      - apply others_notify_all.
      - apply others_insert. }
    rewrite Hgs by done. eapply (live_mono s _ t th (th_goto (WkLoop g1) th) grp grp); try done; cbn; rewrite ?Hgs1;
      try done; try (by eapply insert_self);
      unfold worker, counted, will_check; rewrite ?Hpc; cbn; rewrite ?(eqb_neq _ Hne); cbn; try done; lia.
Qed.

Lemma will_check_awake th : will_check th = true -> awake (th_pc th) = true.
Proof. unfold will_check. destruct th as [[] es ad]; cbn; try done; intros H; by apply andb_true_iff in H as [H _]. Qed.

Lemma live_log s grp a b c : tp_live s grp -> tp_live (tp_log a b c s) grp.
Proof. intros []. by split. Qed.

Lemma live_dangling s grp : tp_live s grp -> tp_live (tp_set_dangling s) grp.
Proof. intros []. by split. Qed.

Lemma live_thread s t th th' grp :
  tp_live s grp -> tp_threads s !! t = Some th -> th_pc th' = th_pc th -> th_ok th' ->
  (th_essential th <> [] -> th_essential th' <> []) -> tp_live (tp_set_thread t th' s) grp.
Proof.
  intros HL Ht Hpc Hok Hes. eapply (live_mono s _ t th th' grp grp); try done; rewrite ?Hpc; try done.
  - apply HL.
  - apply HL.
  - cbn. by eapply insert_self.
  - apply others_insert.
  - unfold counted. rewrite Hpc. lia.
  - unfold will_check. rewrite Hpc. destruct (th_pc th); try done.
    all: destruct (awake _); cbn; try done; intros H; apply negb_true_iff, bool_decide_eq_false in H.
    all: by apply negb_true_iff, bool_decide_eq_false, Hes.
Qed.

Lemma existsb_lookup {A} (f : A -> bool) l i x : existsb f l = false -> l !! i = Some x -> f x = false.
Proof.
  intros H Hi. destruct (f x) eqn:E; [|done]. enough (existsb f l = true) by congruence.
  apply existsb_exists. exists x. split; [|done]. apply list_elem_of_In. by eapply list_elem_of_lookup_2.
Qed.

(** A notification when the group's queue has just grown. *)
Lemma live_notify_grown s grp q wake s' :
  tp_live s grp -> tg_stop grp = false -> q <> [] ->
  notify_one g wake (tp_set_group g (tg_with_queue q) s) = Some s' -> tp_live s' (tg_with_queue q grp).
Proof.
  intros HL Hst Hq. pose proof (tpl_group _ _ HL) as Hg. unfold notify_one. destruct wake as [t|].
  - cbn. destruct (tp_threads s !! t) as [th|] eqn:Ht; cbn; [|done].
    destruct (asleep g (th_pc th)) eqn:Ha; [|done]. intros [= <-]. rewrite (goto_set _ _ th) by done.
    pose proof (tpl_ok _ _ HL _ _ Ht) as Hok.
    eapply (live_step s _ t th (th_goto (woken (th_pc th)) th) grp (tg_with_queue q grp)); try done; cbn.
    + apply HL.
    + by apply group_eq.
    + by eapply insert_self.
    + apply others_insert.
    + unfold th_ok in *. cbn. by destruct (th_pc th).
    + unfold worker. destruct (th_pc th); cbn in *; try done. by rewrite Ha.
    + rewrite Hst. by intros [? ?].
    + by destruct (th_pc th).
    + unfold counted. cbn. destruct (th_pc th); cbn in *; try done; lia.
    + intros _. destruct (th_pc th) eqn:Epc; cbn in *; try done; [|by left].
      apply Nat.eqb_eq in Ha as ->. right. destruct (tpl_wait _ _ HL _ _ _ Ht Epc) as [?|(t2 & y & Hy & Hc)]; [by left|right].
      exists t2, y. split; [|by apply will_check_awake]. rewrite list_lookup_insert_ne; [done|]. intros ->.
      simplify_eq. apply will_check_awake in Hc. by rewrite Epc in Hc.
    + by left.
  - destruct (existsb _ _) eqn:Ex; [done|]. intros [= <-]. cbn in Ex.
    destruct (tpl_worker _ _ HL) as (t & th & Ht & Hw).
    assert (awake (th_pc th) = true) as Haw.
    { pose proof (existsb_lookup _ _ _ _ Ex Ht) as Ha. cbn in Ha. unfold worker in Hw.
      destruct (awake (th_pc th)) eqn:E; [done|]. cbn in Hw. destruct (th_pc th) eqn:Epc; try done; cbn in *; [congruence|].
      apply Nat.eqb_eq in Hw as ->. destruct (tpl_exit _ _ HL _ _ Ht Epc). congruence. }
    eapply (live_step s _ t th th grp (tg_with_queue q grp)); try done; cbn.
    + apply HL.
    + by apply group_eq.
    + apply others_refl.
    + by eapply (tpl_ok _ _ HL).
    + rewrite Hst. by intros [? ?].
    + intros E. by rewrite E in Haw.
    + lia.
    + by left.
    + by left.
Qed.

Lemma live_notify_other g1 s grp q wake s' :
  tp_live s grp -> g1 <> g ->
  notify_one g1 wake (tp_set_group g1 (tg_with_queue q) s) = Some s' -> tp_live s' grp.
Proof.
  intros HL Hne. pose proof (tpl_group _ _ HL) as Hg.
  assert (tp_live (tp_set_group g1 (tg_with_queue q) s) grp) as HL1.
  { destruct HL. split; try done. cbn. by rewrite group_ne. }
  unfold notify_one. destruct wake as [t|].
  - cbn. destruct (tp_threads s !! t) as [th|] eqn:Ht; cbn; [|done].
    destruct (asleep g1 (th_pc th)) eqn:Ha; [|done]. intros [= <-]. pose proof (tpl_ok _ _ HL _ _ Ht) as Hok.
    eapply (live_goto (tp_set_group g1 (tg_with_queue q) s) _ t th); try done; try apply HL1;
      unfold counted, will_check, worker, th_ok in *; destruct (th_pc th); cbn in *; try done; try lia;
      apply Nat.eqb_eq in Ha as ->; rewrite ?(eqb_neq _ Hne); cbn; done.
  - destruct (existsb _ _); [done|]. by intros [= <-].
Qed.

(** [add_task] under the lock of group [g1]. *)
Lemma live_add s g1 tk wake grp1 grp s' :
  tp_live s grp -> tp_groups s !! g1 = Some grp1 -> group_add_task g1 tk wake grp1 s = Some s' ->
  exists grp', tp_live s' grp'.
Proof.
  intros HL Hg1. unfold group_add_task. destruct (_ >=? _); [intros [= <-]; eauto using live_log|].
  destruct (tg_stop grp1) eqn:Hst; [intros [= <-]; eauto using live_log|]. intros Hn.
  destruct (decide (g1 = g)) as [->|Hne].
  - pose proof (tpl_group _ _ HL). assert (grp1 = grp) as -> by congruence.
    eexists. eapply live_notify_grown; [done|done| |done]. by destruct (tg_task_queue grp).
  - eexists. by eapply live_notify_other.
Qed.

Lemma live_sleep s t th g1 grp1 grp timed :
  tp_live s grp -> tp_threads s !! t = Some th -> is_client (th_pc th) = true -> tp_groups s !! g1 = Some grp1 ->
  has_task th grp1 = true -> tp_live (tp_goto t (ClSleep g1 timed) s) grp.
Proof.
  intros HL Ht Hcl Hg1 Htask. pose proof (tpl_group _ _ HL) as Hg. pose proof (tpl_ok _ _ HL _ _ Ht) as Hok.
  assert (th_essential th = []) as Hes by (unfold th_ok in Hok; by destruct (th_pc th)).
  apply has_task_true in Htask as [?|Hq]; [done|]. rewrite (goto_set _ _ th) by done.
  destruct (decide (g1 = g)) as [->|Hne].
  - assert (grp1 = grp) as -> by congruence.
    eapply (live_step s _ t th (th_goto (ClSleep g timed) th) grp grp); try done; cbn.
    + apply HL.
    + by eapply insert_self.
    + apply others_insert.
    + unfold worker. by destruct (th_pc th).
    + unfold counted. destruct (th_pc th); cbn in *; try done; lia.
    + intros _. right. left. split; [by destruct (th_pc th)|done].
    + by left.
  - eapply (live_mono s _ t th (th_goto (ClSleep g1 timed) th) grp grp); try done; cbn; try apply HL.
    + by eapply insert_self.
    + apply others_insert.
    + unfold worker. by destruct (th_pc th).
    + unfold counted. destruct (th_pc th); cbn in *; try done; lia.
    + by destruct (th_pc th).
    + unfold will_check. by destruct (th_pc th).
    + by intros timed' [= ->].
Qed.

Lemma live_client s t th a grp s' :
  tp_live s grp -> tp_threads s !! t = Some th -> client_exec t th a s = Some s' -> exists grp', tp_live s' grp'.
Proof.
  intros HL Ht. pose proof (tpl_group _ _ HL) as Hg. pose proof (tpl_ok _ _ HL _ _ Ht) as Hok.
  assert (forall pc, is_client (th_pc th) = true -> is_client pc = true -> (forall timed, pc <> ClSleep g timed) ->
            exists grp', tp_live (tp_goto t pc s) grp') as Hgo.
  { intros pc Hc Hc' Hcl. exists grp. eapply (live_goto s s t th pc grp grp); try done; try apply HL;
      unfold th_ok, worker, counted, will_check in *; destruct (th_pc th), pc; cbn in *; try done; lia. }
  unfold client_exec.
  destruct (th_pc th) as [|g1 []|g1 timed|g1| | | | | | | | | |] eqn:Epc, a; try done.
  - intros [->|(grp1 & Hg1 & _ & Hk)]%use_group_inv; [eauto using live_dangling|]. revert Hk.
    destruct (has_task th grp1) eqn:E; intros [= <-].
    + exists grp. eapply live_sleep; try done. by rewrite Epc.
    + by exists grp.
  - intros [= <-]. exists grp. destruct HL. by split.
  - intros [->|(grp1 & Hg1 & _ & Hk)]%use_group_inv; [eauto using live_dangling|]. injection Hk as <-.
    rewrite (goto_set _ _ th) by (cbn; rewrite list_lookup_fmap, Ht; cbn; by rewrite Epc).
    exists (if decide (g0 = g) then tg_with_stop grp else grp).
    eapply (live_mono s _ t th (th_goto (ClJoin g0) th)); [exact HL|..]; try done; cbn; try apply HL.
    + case_decide; [subst; by apply group_eq|by rewrite group_ne].
    + rewrite (insert_self _ _ (if asleep g0 (th_pc th) then th_goto (woken (th_pc th)) th else th)); [done|].
      by rewrite list_lookup_fmap, Ht.
    + apply (others_notify_all t _ g0 s).
    + by case_decide.
    + by case_decide.
    + unfold th_ok in *. cbn. by rewrite Epc in Hok.
    + unfold worker. by rewrite Epc.
    + unfold counted. rewrite Epc. cbn. case_decide; cbn; lia.
    + by rewrite Epc.
    + unfold will_check. by rewrite Epc.
  - intros [= <-]. by apply Hgo.
  - intros [->|(grp1 & Hg1 & _ & Hk)]%use_group_inv; [eauto using live_dangling|]. injection Hk as <-. by apply Hgo.
  - intros [= <-]. by apply Hgo.
  - intros [->|(grp1 & Hg1 & _ & Hk)]%use_group_inv; [eauto using live_dangling|]. injection Hk as <-.
    destruct (has_task th grp1) eqn:E; [|by apply Hgo]. exists grp. eapply live_sleep; try done. by rewrite Epc.
  - destruct (forallb _ _); [|done]. intros [->|(grp1 & Hg1 & _ & Hk)]%use_group_inv; [eauto using live_dangling|].
    injection Hk as <-. exists (if decide (g1 = g) then tg_delete grp else grp).
    eapply (live_goto s _ t th); try done; try apply HL;
      unfold th_ok, worker, counted, will_check in *; rewrite ?Epc in *; cbn; try done; try (case_decide; cbn; done || lia).
    case_decide; [subst; by apply group_eq|by rewrite group_ne].
Qed.

Lemma live_worker s t th a grp s' :
  tp_live s grp -> tp_threads s !! t = Some th -> worker_exec t th a s = Some s' -> exists grp', tp_live s' grp'.
Proof.
  intros HL Ht. pose proof (tpl_group _ _ HL) as Hg. pose proof (tpl_ok _ _ HL _ _ Ht) as Hok.
  unfold worker_exec.
  destruct (th_pc th) as [| | | |g1|g1|g1|g1|g1 tk|g1 tk|g1 tk|g1|g1|g1] eqn:Epc, a; try done.
  - destruct (tp_groups s !! g1) as [grp1|] eqn:Hg1; cbn; [|done]. destruct (has_task th grp1) eqn:E.
    + intros H. eapply live_take; eauto.
    + rewrite (tpl_steal _ _ HL). destruct (tg_stop grp1) eqn:Es; intros [= <-]; exists grp; eapply live_rest; eauto.
  - unfold th_ok in Hok. by rewrite Epc in Hok.
  - destruct (tp_groups s !! g1) as [grp1|] eqn:Hg1; cbn; [|done]. destruct (has_task th grp1) eqn:E.
    + intros H. eapply live_take; eauto.
    + destruct (tg_stop grp1) eqn:Es; intros [= <-]; exists grp; eapply live_rest; eauto.
  - intros [= <-]. exists grp. eapply (live_goto s s t th); try done; try apply HL;
      unfold worker, counted, will_check, th_ok in *; rewrite Epc in *; cbn; rewrite ?orb_false_r; try done; lia.
  - destruct (tp_groups s !! g1) as [grp1|] eqn:Hg1; cbn; [|done]. intros [= <-].
    exists (if decide (g1 = g) then tg_with_busy (tg_busy grp + 1) grp else grp).
    eapply (live_goto s _ t th); try done; try apply HL; unfold worker, counted, will_check, th_ok; rewrite ?Epc; cbn; try done.
    + case_decide; [subst; assert (grp1 = grp) as -> by congruence; by apply group_eq|by rewrite group_ne].
    + by case_decide.
    + by case_decide.
    + case_decide; [subst; rewrite Nat.eqb_refl; cbn; lia|]. rewrite eqb_neq by done. cbn. lia.
  - destruct (th_adding th); [done|]. intros [= <-]. exists grp. apply (live_log _ _ [tk] [] []) in HL.
    eapply (live_goto (tp_log [tk] [] [] s) _ t th); try done; try apply HL;
      unfold worker, counted, will_check, th_ok; rewrite ?Epc; cbn; try done. lia.
  - intros [= <-]. exists grp. apply (live_log _ _ [] [] [tk]) in HL.
    eapply (live_goto (tp_log [] [] [tk] s) _ t th); try done; try apply HL;
      unfold worker, counted, will_check, th_ok; rewrite ?Epc; cbn; try done. lia.
  - destruct (tp_groups s !! g1) as [grp1|] eqn:Hg1; cbn; [|done]. intros [= <-].
    exists (if decide (g1 = g) then tg_with_busy (tg_busy grp - 1) grp else grp).
    eapply (live_goto s _ t th); try done; try apply HL; unfold worker, counted, will_check, th_ok; rewrite ?Epc; cbn; try done.
    + case_decide; [subst; assert (grp1 = grp) as -> by congruence; by apply group_eq|by rewrite group_ne].
    + by case_decide.
    + by case_decide.
    + case_decide; [subst; rewrite Nat.eqb_refl; cbn; lia|]. rewrite eqb_neq by done. cbn. lia.
  - destruct (tp_groups s !! g1) as [grp1|] eqn:Hg1; cbn; [|done]. intros [= <-]. exists grp. by eapply live_check.
Qed.

Lemma live_exec s t a grp s' :
  tp_live s grp ->
  (forall tk, a = ActEssential tk -> exists th, tp_threads s !! t = Some th /\ is_client (th_pc th) = false) ->
  tp_exec t a s = Some s' -> exists grp', tp_live s' grp'.
Proof.
  intros HL Hes. unfold tp_exec. destruct (tp_dangling s); [done|]. destruct (tp_threads s !! t) as [th|] eqn:Ht; [|done]. cbn.
  pose proof (tpl_ok _ _ HL _ _ Ht) as Hok.
  destruct a as [| |ofs lk wk|g1 tk|wk|tk|g1 ms| | |g1].
  4: { destruct (can_call th); [|done]. cbn. destruct (tp_stop s); [intros [= <-]; eauto using live_log|].
    destruct (tp_groups s !! g1); cbn; [|done]. intros [= <-]. exists grp. by eapply live_thread. }
  4: { destruct (th_adding th) as [[g1 tk]|]; cbn; [|done].
    intros [->|(grp1 & Hg1 & _ & H)]%use_group_inv; [eauto using live_dangling|]. eapply live_add; [| |exact H]; [by eapply live_thread|exact Hg1]. }
  4: { destruct (can_call th) eqn:Hc; [|done]. cbn. destruct (tp_stop s); intros [= <-]; [eauto using live_log|].
    exists grp. destruct (Hes tk eq_refl) as (y & Hy & Hcl). simplify_eq. eapply live_thread; try done; cbn.
    - unfold can_call in Hc. unfold th_ok. cbn. by destruct (th_pc y).
    - intros _. by destruct (th_essential y). }
  all: intros H; destruct (th_pc th) eqn:Epc; try (destruct (th_adding th); [done|]); eauto using live_client, live_worker.
Qed.

(** Only workers use [add_essential_task]. *)
Fixpoint essential_by_workers (sched : list (nat * tp_act)) (s : threadpool) : bool :=
  match sched with
  | [] => true
  | (t, a) :: sched =>
      match a, tp_threads s !! t with
      | ActEssential _, Some th => negb (is_client (th_pc th))
      | _, _ => true
      end &&
      match tp_exec t a s with Some s => essential_by_workers sched s | None => true end
  end.

Lemma live_run sched s grp s' :
  tp_live s grp -> essential_by_workers sched s = true -> tp_run sched s = Some s' -> exists grp', tp_live s' grp'.
Proof.
  revert s grp. induction sched as [|[t a] sched IH]; intros s grp HL He; cbn in *.
  - intros [= <-]. eauto.
  - apply andb_true_iff in He as [He1 He2]. destruct (tp_exec t a s) as [s1|] eqn:E; cbn; [|done].
    assert (forall tk, a = ActEssential tk -> exists th, tp_threads s !! t = Some th /\ is_client (th_pc th) = false) as Hes.
    { intros tk ->. unfold tp_exec in E. destruct (tp_dangling s); [done|]. destruct (tp_threads s !! t) as [th|]; [|done]. exists th.
      split; [done|by apply negb_true_iff]. }
    destruct (live_exec _ _ _ _ _ HL Hes E) as [grp1 HL1].
    by eapply IH.
Qed.

Lemma start_live cfg clients p :
  cfg !! g = Some p -> 0 < u64 p.2 -> tp_live (threadpool_start false cfg clients) (thread_group_new p).
Proof.
  intros Hp Hn. assert (forall t th, tp_threads (threadpool_start false cfg clients) !! t = Some th ->
    th_essential th = [] /\ th_adding th = None /\ (th_pc th = ClIdle \/ exists g, th_pc th = WkLoop g)) as Hth.
  { intros t th Ht. eapply start_threads. by eapply list_elem_of_lookup_2. }
  split; try done.
  - cbn. by rewrite list_lookup_fmap, Hp.
  - intros t th Ht. destruct (Hth _ _ Ht) as (He & _ & [E|[g' E]]); unfold th_ok; by rewrite E.
  - assert (mk_thread (WkLoop g) [] None ∈ tp_threads (threadpool_start false cfg clients)) as Hin.
    { cbn. apply elem_of_app. right. apply list_elem_of_bind.
      exists (replicate (Z.to_nat (u64 p.2)) (mk_thread (WkLoop g) [] None)). split.
      - apply elem_of_replicate. split; [done|lia].
      - apply list_elem_of_lookup. exists g. by rewrite list_lookup_imap, Hp. }
    apply list_elem_of_lookup in Hin as [t Ht]. exists t. eexists. split; [done|]. unfold worker. cbn.
    by rewrite Nat.eqb_refl.
  - intros t th Ht E. destruct (Hth _ _ Ht) as (_ & _ & [E'|[g' E']]); by rewrite E' in E.
  - cbn [tg_busy thread_group_new]. symmetry. apply tally_none. intros t th Ht.
    destruct (Hth _ _ Ht) as (_ & _ & [E'|[g' E']]); unfold counted; by rewrite E'.
  - intros t th timed Ht E. destruct (Hth _ _ Ht) as (_ & _ & [E'|[g' E']]); by rewrite E' in E.
Qed.

(** C15 — No lost wake-up: without stealing, with essential tasks handed in by
    workers only, in every reachable state a group that has a thread at all and a
    queued task has a worker that is awake, and a thread asleep in [wait_for_all_done] has a task
    still to wait for or a worker that is going to check and wake it. *)
Theorem threadpool_no_lost_wakeup cfg clients p sched s :
  cfg !! g = Some p -> 0 < u64 p.2 -> essential_by_workers sched (threadpool_start false cfg clients) = true ->
  tp_run sched (threadpool_start false cfg clients) = Some s ->
  exists grp, tp_groups s !! g = Some grp /\
    (tg_task_queue grp <> [] -> exists t th, tp_threads s !! t = Some th /\ awake (th_pc th) = true) /\
    (forall t th timed, tp_threads s !! t = Some th -> th_pc th = ClSleep g timed ->
       tg_task_queue grp <> [] \/ exists t' th', tp_threads s !! t' = Some th' /\ will_check th' = true).
Proof.
  intros Hp Hn He Hrun. destruct (live_run _ _ _ _ (start_live _ clients _ Hp Hn) He Hrun) as [grp HL].
  exists grp. split; [apply HL|]. split; [apply HL|apply HL].
Qed.

End liveness.

(** *** Witnesses and the failure with stealing *)

Definition tp_demo_cfg : list (Z * Z) := [(8, 1); (8, 1)].

(** A client hands a task to group 0; the worker of group 1 steals it while the
    client waits.  The worker of group 0 wakes up, finds nothing and sleeps
    again; the thief, when done, notifies its own group. *)
Definition tp_steal_sched : list (nat * tp_act) :=
  [(1%nat, ActGo); (1%nat, ActSteal 0 [] None); (1%nat, ActGo); (2%nat, ActGo);
   (0%nat, ActAdd 0 42); (0%nat, ActPush (Some 1%nat)); (0%nat, ActWait 0 0);
   (2%nat, ActSteal 0 [true; true] None); (1%nat, ActGo);
   (2%nat, ActGo); (2%nat, ActGo); (2%nat, ActGo); (2%nat, ActGo); (2%nat, ActGo);
   (2%nat, ActGo); (2%nat, ActSteal 1 [true; true] None); (2%nat, ActGo)].

(** With stealing [stop] can hang: every thread is asleep, nothing is left to
    do, and only a spurious wake-up could let the client go on. *)
Lemma threadpool_steal_hangs :
  exists s, tp_run tp_steal_sched (threadpool_start true tp_demo_cfg 1) = Some s /\
    th_pc <$> tp_threads s = [ClSleep 0 false; WkSleep 0; WkSleep 1] /\
    tp_groups s ≫= tg_task_queue = [] /\ tp_ran s = [42] /\
    forall t a, a <> ActSpurious -> tp_exec t a s = None.
Proof.
  eexists. split; [vm_compute; reflexivity|]. split; [done|]. split; [done|]. split; [done|].
  intros [|[|[|t]]] a Ha; destruct a; done.
Qed.

(** [stop] deletes the groups one by one while the workers of the others run: the
    client has deleted group 0 when the worker of group 1, with nothing to do,
    looks for something to steal. *)
Definition tp_delete_sched : list (nat * tp_act) :=
  [(0%nat, ActStop); (0%nat, ActWait 0 0); (0%nat, ActStopGroup 0); (1%nat, ActGo); (0%nat, ActGo);
   (2%nat, ActGo); (2%nat, ActSteal 0 [true; true] None)].
Lemma thief_uses_deleted_group :
  exists s, tp_run tp_delete_sched (threadpool_start true tp_demo_cfg 1) = Some s /\
    tg_deleted <$> tp_groups s = [true; false] /\ tp_dangling s = true.
Proof. eexists. split; [vm_compute; reflexivity|done]. Qed.

(** So does a client that is inside [add_task] when the pool is stopped. *)
Lemma client_uses_deleted_group :
  exists s, tp_run [(1%nat, ActAdd 0 7); (0%nat, ActStop); (0%nat, ActWait 0 0); (0%nat, ActStopGroup 0);
      (2%nat, ActGo); (0%nat, ActGo); (1%nat, ActPush None)] (threadpool_start false tp_demo_cfg 2) = Some s /\
    tp_dangling s = true /\ pending s = [7].
Proof. eexists. split; [vm_compute; reflexivity|done]. Qed.

(** A task a client puts in its own queue is never run: no worker looks there. *)
Lemma client_essential_stays :
  exists s, tp_run [(0%nat, ActEssential 7); (0%nat, ActWait 0 0)] (threadpool_start false tp_demo_cfg 1) = Some s /\
    tp_threads s !! 0%nat = Some (mk_thread (ClSleep 0 false) [7] None) /\ tp_groups s ≫= tg_task_queue = [].
Proof. eexists. split; [vm_compute; reflexivity|done]. Qed.

Definition tp_demo_sched : list (nat * tp_act) :=
  [(1%nat, ActGo); (0%nat, ActAdd 0 1); (0%nat, ActPush (Some 1%nat)); (0%nat, ActAdd 0 2); (0%nat, ActPush None);
   (1%nat, ActGo); (1%nat, ActGo); (1%nat, ActEssential 3); (0%nat, ActWait 0 0); (1%nat, ActGo); (1%nat, ActGo)].

Lemma threadpool_tasks_accounted_witness :
  exists s, tp_run tp_demo_sched (threadpool_start false tp_demo_cfg 1) = Some s /\
    submitted tp_demo_sched ≡ₚ pending s ++ tp_refused s ++ tp_ran s /\ tp_ran s = [1] /\ pending s = [2; 3].
Proof.
  destruct (tp_run tp_demo_sched (threadpool_start false tp_demo_cfg 1)) as [s|] eqn:E; [|vm_compute in E; discriminate E].
  exists s. split; [done|]. split; [by apply (threadpool_tasks_accounted false tp_demo_cfg 1 tp_demo_sched s E)|].
  vm_compute in E. by injection E as <-.
Defined.

Lemma threadpool_no_lost_wakeup_witness :
  exists s grp, tp_run tp_demo_sched (threadpool_start false tp_demo_cfg 1) = Some s /\
    tp_groups s !! 0%nat = Some grp /\
    (tg_task_queue grp <> [] -> exists t th, tp_threads s !! t = Some th /\ awake 0 (th_pc th) = true) /\
    tg_task_queue grp = [2] /\ tp_threads s !! 0%nat = Some (mk_thread (ClSleep 0 false) [] None).
Proof.
  destruct (tp_run tp_demo_sched (threadpool_start false tp_demo_cfg 1)) as [s|] eqn:E; [|vm_compute in E; discriminate E].
  destruct (threadpool_no_lost_wakeup 0 tp_demo_cfg 1 (8, 1) tp_demo_sched s eq_refl ltac:(by vm_compute)
    ltac:(by vm_compute) E) as (grp & Hg & H & _).
  exists s, grp. split; [done|]. split; [done|]. split; [done|].
  vm_compute in E. injection E as <-. by injection Hg as <-.
Defined.
