(* ===== verification/AsyncPool.v ===== *)
(** The pool of thread/async_threadpool.h: workers, clients that add tasks, stop
    the pool or wait for the queue to empty, and one condition variable for all
    of them.

    A machine as in Threads: a region under [_queue_lock] is one step, as are the
    accesses to [_busy] and each notification.  A sleeping thread may wake by
    itself.  A task is known by its number; what it does, exceptions included,
    ends in the worker's [try]. *)

From S2P Require Import Prelude Threads.

(** A worker: before the test of its wait, asleep in it, with a task taken, in a
    task, after it, before the last region of its round, and ended.  A client:
    outside, between adding and [notify_one], between stopping and [notify_all],
    and in [wait_for_all_done]: before the test and asleep. *)
Inductive ap_pc :=
  | ApTest | ApAsleep | ApTaken (t : Z) | ApRunning (t : Z) | ApRan | ApNotify | ApEnded
  | ApOutside | ApAdded | ApStopped | ApWaitTest | ApWaitAsleep.

(** The histories: tasks added, tasks taken from the queue, tasks that ran, tasks
    that were refused, and the results of [wait_for_all_done] with the tasks that
    were taken and had not run. *)
Record async_pool := mk_ap {
  ap_tasks : list Z;
  ap_stop : bool;
  ap_busy : Z;
  ap_threads : list ap_pc;
  ap_added : list Z;
  ap_taken : list Z;
  ap_ran : list Z;
  ap_refused : list Z;
  ap_waited : list (list Z);
}.

(** After [init], with [n] workers and [k] clients. *)
Definition async_pool_init (n k : nat) : async_pool :=
  mk_ap [] false 0 (replicate n ApTest ++ replicate k ApOutside) [] [] [] [] [].

Definition ap_goto (t : nat) (pc : ap_pc) (s : async_pool) : async_pool :=
  mk_ap (ap_tasks s) (ap_stop s) (ap_busy s) (<[t := pc]> (ap_threads s)) (ap_added s) (ap_taken s) (ap_ran s)
    (ap_refused s) (ap_waited s).
Definition ap_with_threads ts (s : async_pool) : async_pool :=
  mk_ap (ap_tasks s) (ap_stop s) (ap_busy s) ts (ap_added s) (ap_taken s) (ap_ran s) (ap_refused s) (ap_waited s).

(** The tasks that are taken and have not run. *)
Definition ap_held1 (pc : ap_pc) : list Z := match pc with ApTaken t | ApRunning t => [t] | _ => [] end.
Definition ap_held (ts : list ap_pc) : list Z := ts ≫= ap_held1.

Definition ap_wake (pc : ap_pc) : ap_pc := match pc with ApAsleep => ApTest | ApWaitAsleep => ApWaitTest | pc => pc end.
Definition ap_sleeps (pc : ap_pc) : bool := match pc with ApAsleep | ApWaitAsleep => true | _ => false end.
Definition ap_notify_all (s : async_pool) : async_pool := ap_with_threads (ap_wake <$> ap_threads s) s.
(** [notify_one]: a thread that sleeps, if there is one. *)
Definition ap_notify_one (who : option nat) (s : async_pool) : option async_pool :=
  match who with
  | Some i =>
      pc ← ap_threads s !! i;
      if ap_sleeps pc then Some (ap_goto i (ap_wake pc) s) else None
  | None => if existsb ap_sleeps (ap_threads s) then None else Some s
  end.

Inductive ap_act := ApGo | ApNotifyOne (who : option nat) | ApAdd (t : Z) | ApStop | ApWait | ApTimeout.

(** [wait_for_all_done]: the test, with its result recorded. *)
Definition ap_wait_done (t : nat) (s : async_pool) : async_pool :=
  mk_ap (ap_tasks s) (ap_stop s) (ap_busy s) (<[t := ApOutside]> (ap_threads s)) (ap_added s) (ap_taken s) (ap_ran s)
    (ap_refused s) (ap_waited s ++ [ap_held (ap_threads s)]).

Definition ap_exec (t : nat) (a : ap_act) (s : async_pool) : option async_pool :=
  pc ← ap_threads s !! t;
  match pc, a with
  | ApTest, ApGo =>
      match ap_tasks s with
      | [] => Some (ap_goto t (if ap_stop s then ApEnded else ApAsleep) s)
      | task :: tasks =>
          Some (mk_ap tasks (ap_stop s) (ap_busy s) (<[t := ApTaken task]> (ap_threads s)) (ap_added s)
                  (ap_taken s ++ [task]) (ap_ran s) (ap_refused s) (ap_waited s))
      end
  | ApAsleep, ApGo => Some (ap_goto t ApTest s)
  | ApTaken task, ApGo =>
      Some (mk_ap (ap_tasks s) (ap_stop s) (s32 (ap_busy s + 1)) (<[t := ApRunning task]> (ap_threads s)) (ap_added s)
              (ap_taken s) (ap_ran s) (ap_refused s) (ap_waited s))
  | ApRunning task, ApGo =>
      Some (mk_ap (ap_tasks s) (ap_stop s) (ap_busy s) (<[t := ApRan]> (ap_threads s)) (ap_added s) (ap_taken s)
              (ap_ran s ++ [task]) (ap_refused s) (ap_waited s))
  | ApRan, ApGo =>
      Some (mk_ap (ap_tasks s) (ap_stop s) (s32 (ap_busy s - 1)) (<[t := ApNotify]> (ap_threads s)) (ap_added s)
              (ap_taken s) (ap_ran s) (ap_refused s) (ap_waited s))
  | ApNotify, ApGo =>
      let s := ap_goto t ApTest s in
      Some (if (ap_busy s =? 0) && (match ap_tasks s with [] => true | _ => false end) then ap_notify_all s else s)
  | ApOutside, ApAdd task =>
      if ap_stop s
      then Some (mk_ap (ap_tasks s) (ap_stop s) (ap_busy s) (ap_threads s) (ap_added s) (ap_taken s) (ap_ran s)
                   (ap_refused s ++ [task]) (ap_waited s))
      else Some (mk_ap (ap_tasks s ++ [task]) (ap_stop s) (ap_busy s) (<[t := ApAdded]> (ap_threads s))
                   (ap_added s ++ [task]) (ap_taken s) (ap_ran s) (ap_refused s) (ap_waited s))
  | ApAdded, ApNotifyOne who => ap_notify_one who (ap_goto t ApOutside s)
  | ApOutside, ApStop =>
      Some (mk_ap (ap_tasks s) true (ap_busy s) (<[t := ApStopped]> (ap_threads s)) (ap_added s) (ap_taken s) (ap_ran s)
              (ap_refused s) (ap_waited s))
  | ApStopped, ApGo => Some (ap_notify_all (ap_goto t ApOutside s))
  | ApOutside, ApWait => Some (ap_goto t ApWaitTest s)
  | ApWaitTest, ApGo =>
      Some (match ap_tasks s with [] => ap_wait_done t s | _ => ap_goto t ApWaitAsleep s end)
  | ApWaitAsleep, ApGo => Some (ap_goto t ApWaitTest s)
  | ApWaitAsleep, ApTimeout => Some (ap_wait_done t s)
  | _, _ => None
  end.

Fixpoint ap_run (sched : list (nat * ap_act)) (s : async_pool) : option async_pool :=
  match sched with [] => Some s | (t, a) :: sched => s ← ap_exec t a s; ap_run sched s end.

(** The members that [stop] indexes: it joins [_threads_count] workers, of which
    none is there before [init] or after another [stop]. *)
Definition ap_join (threads_count : nat) (workers : list nat) : outcome (list nat) :=
  if (threads_count <=? length workers)%nat then Ok (take threads_count workers) else Fault (UB "index out of range").

(** ** What is proved *)

Lemma ap_held_wake ts : ap_held (ap_wake <$> ts) = ap_held ts.
Proof. induction ts as [|pc ts IH]; [done|]. cbn. unfold ap_held in IH. rewrite IH. by destruct pc. Qed.

Lemma ap_held_insert ts t pc pc' :
  ts !! t = Some pc -> ap_held (<[t := pc']> ts) ++ ap_held1 pc ≡ₚ ap_held ts ++ ap_held1 pc'.
Proof.
  revert t. induction ts as [|q ts IH]; intros [|t]; cbn; intros H; simplify_eq.
  - rewrite (Permutation_app_comm (_ ++ _) (ap_held1 pc)), <- !app_assoc. f_equiv. apply Permutation_app_comm.
  - rewrite <- !app_assoc. by rewrite (IH t H).
Qed.
Lemma ap_held_same ts t pc pc' :
  ts !! t = Some pc -> ap_held1 pc' = ap_held1 pc -> ap_held (<[t := pc']> ts) ≡ₚ ap_held ts.
Proof. intros Ht He. apply (Permutation_app_inv_r (ap_held1 pc)). by rewrite (ap_held_insert ts t pc pc' Ht), He. Qed.

(** Every task added is in the queue, in a worker's hands or has run, and they are
    taken in the order in which they were added. *)
Record ap_books (s : async_pool) : Prop := {
  ab_fifo : ap_added s = ap_taken s ++ ap_tasks s;
  ab_taken : ap_taken s ≡ₚ ap_held (ap_threads s) ++ ap_ran s;
}.

Lemma ap_books_goto s t pc pc' :
  ap_books s -> ap_threads s !! t = Some pc -> ap_held1 pc' = ap_held1 pc -> ap_books (ap_goto t pc' s).
Proof. intros [Hf Ht] Hpc He. split; [done|]. cbn. by rewrite (ap_held_same _ _ _ _ Hpc He). Qed.
Lemma ap_books_wake s : ap_books s -> ap_books (ap_notify_all s).
Proof. intros [Hf Ht]. split; [done|]. cbn. by rewrite ap_held_wake. Qed.
Lemma ap_books_one s who s' : ap_books s -> ap_notify_one who s = Some s' -> ap_books s'.
Proof.
  intros Hb. unfold ap_notify_one. destruct who as [i|].
  - destruct (ap_threads s !! i) as [pc|] eqn:E; [|done]. cbn. destruct (ap_sleeps pc) eqn:Es; [|done]. intros [= <-].
    eapply ap_books_goto; [done|done|]. by destruct pc.
  - destruct (existsb _ _); [done|]. by intros [= <-].
Qed.

Lemma ap_exec_books t a s s' : ap_books s -> ap_exec t a s = Some s' -> ap_books s'.
Proof.
  intros Hb. unfold ap_exec. destruct (ap_threads s !! t) as [pc|] eqn:Hpc; [|done]. cbn.
  destruct pc, a; try done; cbn; try (intros [= <-]; by eapply ap_books_goto).
  - destruct Hb as [Hf Ht]. destruct (ap_tasks s) as [|task tasks] eqn:E; intros [= <-].
    + eapply ap_books_goto; [by split; rewrite ?E|done|]. by destruct (ap_stop s).
    + split; cbn; [by rewrite Hf, <- app_assoc|].
      pose proof (ap_held_insert _ _ _ (ApTaken task) Hpc) as Hi. cbn in Hi. rewrite app_nil_r in Hi.
      rewrite Hi, Ht, <- !app_assoc. by rewrite (Permutation_app_comm (ap_ran s)).
  - destruct Hb as [Hf Ht]. intros [= <-]. split; [done|]. cbn. by rewrite (ap_held_same _ _ _ (ApRunning t0) Hpc).
  - destruct Hb as [Hf Ht]. intros [= <-]. split; [done|]. cbn. rewrite Ht.
    pose proof (ap_held_insert _ _ _ ApRan Hpc) as Hi. cbn in Hi. rewrite app_nil_r in Hi.
    rewrite <- Hi, <- app_assoc. by rewrite (Permutation_app_comm (ap_ran s)).
  - destruct Hb as [Hf Ht]. intros [= <-]. split; [done|]. cbn. by rewrite (ap_held_same _ _ _ ApNotify Hpc).
  - intros [= <-]. destruct (_ && _); [apply ap_books_wake|]; by eapply ap_books_goto.
  - destruct Hb as [Hf Ht]. destruct (ap_stop s); intros [= <-]; (split; cbn); [done|done|by rewrite Hf, <- app_assoc|].
    by rewrite (ap_held_same _ _ _ ApAdded Hpc).
  - destruct Hb as [Hf Ht]. intros [= <-]. split; [done|]. cbn. by rewrite (ap_held_same _ _ _ ApStopped Hpc).
  - apply ap_books_one. by eapply ap_books_goto.
  - intros [= <-]. apply ap_books_wake. by eapply ap_books_goto.
  - destruct Hb as [Hf Ht]. destruct (ap_tasks s) eqn:E; intros [= <-].
    + split; cbn; [by rewrite E|]. by rewrite (ap_held_same _ _ _ ApOutside Hpc).
    + eapply ap_books_goto; [by split; rewrite ?E|done|done].
  - destruct Hb as [Hf Ht]. intros [= <-]. split; [done|]. cbn. by rewrite (ap_held_same _ _ _ ApOutside Hpc).
Qed.

(** *** No task is left lying *)

(** A worker that will come back to the queue. *)
Definition ap_awake (pc : ap_pc) : bool :=
  match pc with ApTest | ApTaken _ | ApRunning _ | ApRan | ApNotify => true | _ => false end.
Definition ap_worker (pc : ap_pc) : bool := ap_awake pc || match pc with ApAsleep | ApEnded => true | _ => false end.
Definition ap_waits (pc : ap_pc) : bool := match pc with ApWaitTest | ApWaitAsleep => true | _ => false end.
Definition ap_pending (pc : ap_pc) : bool := ap_awake pc || match pc with ApAdded => true | _ => false end.

Record ap_live (s : async_pool) : Prop := {
  al_worker : existsb ap_worker (ap_threads s) = true;
  al_nowait : existsb ap_waits (ap_threads s) = false;
  al_ended : ApEnded ∈ ap_threads s -> ap_stop s = true /\ ap_tasks s = [];
  al_tasks : ap_tasks s <> [] -> existsb ap_pending (ap_threads s) = true;
}.

Lemma existsb_at {A} (f : A -> bool) l : existsb f l = true <-> exists i x, l !! i = Some x /\ f x = true.
Proof.
  rewrite existsb_exists. split.
  - intros (x & Hin%list_elem_of_In & Hf). apply list_elem_of_lookup in Hin as [i Hi]. eauto.
  - intros (i & x & Hi & Hf). exists x. split; [|done]. apply list_elem_of_In. by eapply list_elem_of_lookup_2.
Qed.
Lemma existsb_insert {A} (f : A -> bool) l t x y :
  l !! t = Some x -> (f x = true -> f y = true) -> existsb f l = true -> existsb f (<[t := y]> l) = true.
Proof.
  intros Ht Hxy (i & z & Hi & Hf)%existsb_at. apply existsb_at. destruct (decide (i = t)) as [->|Hne].
  - exists t, y. rewrite list_lookup_insert_eq by by eapply lookup_lt_Some. split; [done|]. apply Hxy. congruence.
  - exists i, z. by rewrite list_lookup_insert_ne.
Qed.
Lemma existsb_insert_self {A} (f : A -> bool) l t x y : l !! t = Some x -> f y = true -> existsb f (<[t := y]> l) = true.
Proof.
  intros Ht Hy. apply existsb_at. exists t, y. by rewrite list_lookup_insert_eq by by eapply lookup_lt_Some.
Qed.
Lemma existsb_insert_false {A} (f : A -> bool) l t y : f y = false -> existsb f l = false -> existsb f (<[t := y]> l) = false.
Proof.
  intros Hy Hl. destruct (existsb f (<[t:=y]> l)) eqn:E; [|done]. apply existsb_at in E as (i & z & Hi & Hf).
  apply list_lookup_insert_Some in Hi as [(-> & <- & _)|(_ & Hi)]; [congruence|].
  assert (existsb f l = true) by (apply existsb_at; eauto). congruence.
Qed.
Lemma existsb_wake (f : ap_pc -> bool) ts :
  (forall pc, f pc = true -> f (ap_wake pc) = true) -> existsb f ts = true -> existsb f (ap_wake <$> ts) = true.
Proof.
  intros Hf (i & pc & Hi & Hpc)%existsb_at. apply existsb_at. exists i, (ap_wake pc).
  by rewrite list_lookup_fmap, Hi, Hf.
Qed.
Lemma waits_wake ts : existsb ap_waits (ap_wake <$> ts) = existsb ap_waits ts.
Proof. induction ts as [|pc ts IH]; [done|]. cbn. rewrite IH. by destruct pc. Qed.
Lemma ended_insert (ts : list ap_pc) t pc : pc <> ApEnded -> ApEnded ∈ <[t := pc]> ts -> ApEnded ∈ ts.
Proof.
  intros Hpc [i Hi]%list_elem_of_lookup. apply list_lookup_insert_Some in Hi as [(_ & ? & _)|(_ & Hi)]; [done|].
  by eapply list_elem_of_lookup_2.
Qed.
Lemma ended_wake (ts : list ap_pc) : ApEnded ∈ ap_wake <$> ts -> ApEnded ∈ ts.
Proof. intros (pc & Heq & Hin)%list_elem_of_fmap. by destruct pc. Qed.

(** A thread goes on: the queue is as it was, and the thread stays a worker or a
    client. *)
Lemma ap_live_goto s t pc pc' :
  ap_live s -> ap_threads s !! t = Some pc -> ap_worker pc' = ap_worker pc -> ap_waits pc' = false -> pc' <> ApEnded ->
  (ap_pending pc = true -> ap_tasks s <> [] -> existsb ap_pending (<[t := pc']> (ap_threads s)) = true) ->
  ap_live (ap_goto t pc' s).
Proof.
  intros [Hw Hn He Ht] Hpc Hwk Hwt Hne Hp. split; cbn.
  - eapply existsb_insert; [done|by rewrite Hwk|done].
  - by apply existsb_insert_false.
  - intros Hin. by apply He, (ended_insert _ t pc').
  - intros Hq. destruct (ap_pending pc) eqn:Ep; [by apply Hp|]. eapply existsb_insert; [done|congruence|by apply Ht].
Qed.

Lemma ap_live_all s : ap_live s -> ap_live (ap_notify_all s).
Proof.
  intros [Hw Hn He Ht]. split; cbn.
  - apply existsb_wake; [|done]. by intros [].
  - by rewrite waits_wake.
  - intros Hin. by apply He, ended_wake.
  - intros Hq. apply existsb_wake; [by intros []|]. by apply Ht.
Qed.

(** After [notify_one] a worker is awake, whoever was waiting to be woken. *)
Lemma ap_live_one s t who s' :
  ap_live s -> ap_threads s !! t = Some ApAdded -> ap_notify_one who (ap_goto t ApOutside s) = Some s' -> ap_live s'.
Proof.
  intros [Hw Hn He Ht] Hpc Hone. set (ts := <[t := ApOutside]> (ap_threads s)) in *.
  assert (existsb ap_worker ts = true) as Hw' by (eapply existsb_insert; [done|done|done]).
  assert (existsb ap_waits ts = false) as Hn' by (by apply existsb_insert_false).
  assert (ApEnded ∈ ts -> ap_stop s = true /\ ap_tasks s = []) as He' by (intros Hin; by apply He, (ended_insert _ t ApOutside)).
  unfold ap_notify_one in Hone. cbn [ap_threads ap_goto] in Hone. fold ts in Hone. destruct who as [i|].
  - destruct (ts !! i) as [pc|] eqn:Hi; [|done]. cbn in Hone. destruct (ap_sleeps pc) eqn:Es; [|done]. injection Hone as <-.
    assert (pc = ApAsleep) as ->.
    { destruct pc; try done. exfalso. assert (existsb ap_waits ts = true) by (apply existsb_at; eauto). congruence. }
    split; cbn; fold ts.
    + eapply existsb_insert; [done|done|done].
    + by apply existsb_insert_false.
    + intros Hin. by apply He', (ended_insert _ i ApTest).
    + intros _. by eapply existsb_insert_self.
  - destruct (existsb ap_sleeps ts) eqn:Es; [done|]. injection Hone as <-. split; cbn; fold ts; [done|done|done|].
    intros Hq. apply existsb_at in Hw' as (i & pc & Hi & Hpcw). apply existsb_at. exists i, pc. split; [done|].
    destruct pc; try done.
    + exfalso. assert (existsb ap_sleeps ts = true) by (apply existsb_at; eauto). congruence.
    + exfalso. destruct He' as [_ Hnil]; [by eapply list_elem_of_lookup_2|done].
Qed.

Lemma ap_no_waiter s t pc : ap_live s -> ap_threads s !! t = Some pc -> ap_waits pc = false.
Proof.
  intros [_ Hn _ _] Ht. destruct (ap_waits pc) eqn:E; [|done].
  assert (existsb ap_waits (ap_threads s) = true) by (apply existsb_at; eauto). congruence.
Qed.

Definition no_wait (x : nat * ap_act) : bool := match x.2 with ApWait => false | _ => true end.

(** The fields that the invariant does not look at. *)
Lemma ap_live_fields s b added taken ran refused waited :
  ap_live s -> ap_live (mk_ap (ap_tasks s) (ap_stop s) b (ap_threads s) added taken ran refused waited).
Proof. by intros [? ? ? ?]. Qed.

Lemma ap_exec_live t a s s' : ap_live s -> no_wait (t, a) = true -> ap_exec t a s = Some s' -> ap_live s'.
Proof.
  intros Hl Ha. unfold ap_exec. destruct (ap_threads s !! t) as [pc|] eqn:Hpc; [|done]. cbn.
  assert (forall pc', ap_worker pc' = ap_worker pc -> ap_waits pc' = false -> pc' <> ApEnded ->
    (ap_pending pc = true -> ap_pending pc' = true) -> ap_live (ap_goto t pc' s)) as Hgo.
  { intros pc' Hwk Hwt Hne Hp. eapply ap_live_goto; try done. intros Hpp _.
    eapply existsb_insert_self; [done|by apply Hp]. }
  destruct pc, a; try done; cbn; try (by intros [= <-]; apply Hgo).
  - destruct (ap_tasks s) as [|task tasks] eqn:E.
    + intros [= <-]. destruct Hl as [Hw Hn He Ht]. split; cbn; rewrite ?E.
      * eapply existsb_insert; [done|by destruct (ap_stop s)|done].
      * apply existsb_insert_false; [by destruct (ap_stop s)|done].
      * destruct (ap_stop s) eqn:Es; [done|]. intros Hin. apply (ended_insert _ t ApAsleep) in Hin; [|done]. by destruct (He Hin).
      * done.
    + intros [= <-]. destruct Hl as [Hw Hn He Ht]. split; cbn.
      * eapply existsb_insert; [done|done|done].
      * by apply existsb_insert_false.
      * intros Hin. apply (ended_insert _ t (ApTaken task)) in Hin; [|done]. destruct (He Hin) as [_ ?]. congruence.
      * intros _. by eapply existsb_insert_self.
  - intros [= <-]. by apply (ap_live_fields (ap_goto t (ApRunning t0) s)), Hgo.
  - intros [= <-]. by apply (ap_live_fields (ap_goto t ApRan s)), Hgo.
  - intros [= <-]. by apply (ap_live_fields (ap_goto t ApNotify s)), Hgo.
  - intros [= <-]. destruct (_ && _); [apply ap_live_all|]; by apply Hgo.
  - destruct (ap_stop s) eqn:Es; intros [= <-]; [rewrite <- Es; by apply ap_live_fields|].
    destruct Hl as [Hw Hn He Ht]. split; cbn.
    + eapply existsb_insert; [done|done|done].
    + by apply existsb_insert_false.
    + intros Hin. apply (ended_insert _ t ApAdded) in Hin; [|done]. destruct (He Hin). congruence.
    + intros _. by eapply existsb_insert_self.
  - intros [= <-]. destruct (Hgo ApStopped) as [Hw Hn He Ht]; try done. split; cbn; try done.
    intros Hin. split; [done|]. by apply He.
  - by apply ap_live_one.
  - intros [= <-]. apply ap_live_all. by apply Hgo.
  - by pose proof (ap_no_waiter s t _ Hl Hpc).
  - by pose proof (ap_no_waiter s t _ Hl Hpc).
  - by pose proof (ap_no_waiter s t _ Hl Hpc).
Qed.

Lemma ap_run_invs sched s s' :
  ap_books s -> ap_live s -> forallb no_wait sched = true -> ap_run sched s = Some s' -> ap_books s' /\ ap_live s'.
Proof.
  revert s. induction sched as [|[t a] sched IH]; intros s Hb Hl; cbn; [by intros _ [= <-]|].
  intros [Ha Hs]%andb_prop. destruct (ap_exec t a s) as [s1|] eqn:E; [|done]. cbn.
  apply IH; [by eapply ap_exec_books|by eapply ap_exec_live|done].
Qed.
Lemma ap_run_books sched s s' : ap_books s -> ap_run sched s = Some s' -> ap_books s'.
Proof.
  revert s. induction sched as [|[t a] sched IH]; intros s Hb; cbn; [by intros [= <-]|].
  destruct (ap_exec t a s) as [s1|] eqn:E; [|done]. cbn. apply IH. by eapply ap_exec_books.
Qed.

Lemma ap_init_books n k : ap_books (async_pool_init n k).
Proof.
  assert (forall pc m, ap_held1 pc = [] -> ap_held (replicate m pc) = []) as H.
  { intros pc m Hpc. induction m as [|m IH]; [done|]. unfold ap_held in *. cbn. by rewrite Hpc. }
  split; [done|]. cbn. unfold ap_held. rewrite bind_app. fold (ap_held (replicate n ApTest)) (ap_held (replicate k ApOutside)).
  by rewrite !H.
Qed.
Lemma ap_init_live n k : (0 < n)%nat -> ap_live (async_pool_init n k).
Proof.
  intros Hn. split; cbn.
  - apply existsb_at. exists 0%nat, ApTest. by destruct n; [lia|].
  - rewrite existsb_app. assert (forall m pc, ap_waits pc = false -> existsb ap_waits (replicate m pc) = false) as H.
    { intros m pc Hpc. induction m as [|m IH]; [done|]. cbn. by rewrite Hpc. }
    by rewrite !H.
  - intros [Hin|Hin]%elem_of_app; apply elem_of_replicate in Hin as [? _]; done.
  - done.
Qed.

(** C16 — As long as nobody waits for the queue to empty, every task is run: for
    any number of workers and clients and any interleaving, when no thread has
    anything left to do, all the tasks added have run, each of them once, and
    they were taken in the order in which they were added; and while a task is in
    the queue a worker is awake or about to be woken. *)
Theorem async_pool_runs_every_task n k sched s :
  (0 < n)%nat -> forallb no_wait sched = true -> ap_run sched (async_pool_init n k) = Some s ->
  (ap_tasks s <> [] -> existsb ap_pending (ap_threads s) = true) /\
  ap_added s = ap_taken s ++ ap_tasks s /\
  (existsb ap_pending (ap_threads s) = false -> ap_tasks s = [] /\ ap_ran s ≡ₚ ap_added s).
Proof.
  intros Hn Hs Hrun. destruct (ap_run_invs _ _ _ (ap_init_books n k) (ap_init_live n k Hn) Hs Hrun) as [[Hf Ht] [_ _ _ Hq]].
  split_and!; [done|done|]. intros Hidle.
  assert (ap_tasks s = []) as He by (destruct (ap_tasks s) as [|x l]; [done|]; rewrite Hq in Hidle by done; done).
  split; [done|]. rewrite Hf, He, app_nil_r, Ht. assert (ap_held (ap_threads s) = []) as ->; [|done].
  clear -Hidle. induction (ap_threads s) as [|pc ts IH]; [done|]. cbn in Hidle. apply orb_false_elim in Hidle as [Hpc Hts].
  unfold ap_held in *. cbn. rewrite IH by done. by destruct pc.
Qed.

Definition async_demo : list (nat * ap_act) :=
  [(0%nat, ApGo); (1%nat, ApAdd 5); (1%nat, ApNotifyOne (Some 0%nat)); (0%nat, ApGo); (0%nat, ApGo); (0%nat, ApGo);
   (0%nat, ApGo); (0%nat, ApGo); (0%nat, ApGo)].
Lemma async_pool_runs_every_task_witness :
  exists s, ap_run async_demo (async_pool_init 1 1) = Some s /\
    (ap_tasks s <> [] -> existsb ap_pending (ap_threads s) = true) /\ ap_added s = ap_taken s ++ ap_tasks s /\
    (existsb ap_pending (ap_threads s) = false -> ap_tasks s = [] /\ ap_ran s ≡ₚ ap_added s) /\
    ap_ran s = [5].
Proof.
  eexists. split; [vm_compute; reflexivity|].
  destruct (async_pool_runs_every_task 1 1 async_demo _ ltac:(lia) eq_refl (ltac:(vm_compute; reflexivity))) as (H1 & H2 & H3).
  split_and!; [exact H1|exact H2|exact H3|reflexivity].
Defined.

(** With a client that waits, the notification that the adding client owes to a
    worker can go to the waiting one, which finds the queue not empty and sleeps
    again: the task stays in the queue and everybody sleeps. *)
Definition async_deadlock : list (nat * ap_act) :=
  [(0%nat, ApGo); (1%nat, ApAdd 5); (2%nat, ApWait); (2%nat, ApGo); (1%nat, ApNotifyOne (Some 2%nat)); (2%nat, ApGo)].
Lemma async_pool_deadlocks :
  exists s, ap_run async_deadlock (async_pool_init 1 2) = Some s /\
    ap_threads s = [ApAsleep; ApOutside; ApWaitAsleep] /\ ap_tasks s = [5] /\ ap_ran s = [].
Proof. eexists. split; [vm_compute; reflexivity|]. vm_compute. done. Qed.

(** [wait_for_all_done] looks at the queue only: it returns while a task runs. *)
Lemma wait_returns_early :
  exists s, ap_run [(1%nat, ApAdd 5); (1%nat, ApNotifyOne None); (0%nat, ApGo); (1%nat, ApWait); (1%nat, ApGo)] (async_pool_init 1 1) = Some s /\
    ap_waited s = [[5]] /\ ap_ran s = [].
Proof. eexists. split; [vm_compute; reflexivity|]. vm_compute. done. Qed.

(** Stopping before [init], or twice, indexes workers that are not there. *)
Lemma stop_without_workers n : (0 < n)%nat -> ap_join n [] = Fault (UB "index out of range").
Proof. intros Hn. unfold ap_join. cbn. by destruct n; [lia|]. Qed.
