(* ===== verification/Balance.v ===== *)
(** Sharing out work: the load balancer (source/bee/utility/load_balance.h, and
    create_load_balancer of io/reactor.cpp with the lookup of utility/factory.h),
    the token bucket (io/traffic_shaper.h) and identifiers (common/id_gen.h).

    Every operation of the three runs under the object's lock, so that an
    operation is one step. *)

From S2P Require Import Prelude.

Module LoadBalance.
Section load_balance.
Context {T : Type} `{EqDecision T}.

(** ** Strategies *)

Inductive load_balance_strategy :=
| round_robin_strategy (index : Z)
| random_strategy
| least_connections_strategy (connection_counter : T -> Z).

(** [std::min_element]: the first of the smallest. *)
Fixpoint min_element (counter : T -> Z) (best : T) (l : list T) : T :=
  match l with
  | [] => best
  | x :: l => min_element counter (if counter x <? counter best then x else best) l
  end.

(** [draw] is what the random distribution gives. *)
Definition strategy_select (draw : nat) (st : load_balance_strategy) (resources : list T)
    : load_balance_strategy * outcome T :=
  match resources with
  | [] => (st, Throw (ExnRuntime "No resources available"))
  | x :: l =>
      match st with
      | round_robin_strategy index =>
          (round_robin_strategy (u64 (index + 1)),
           match resources !! Z.to_nat (index mod len resources) with
           | Some r => Ok r
           | None => Fault (UB "out of range")
           end)
      | random_strategy =>
          (st, match resources !! (draw mod length resources)%nat with
               | Some r => Ok r
               | None => Fault (UB "out of range")
               end)
      | least_connections_strategy counter => (st, Ok (min_element counter x l))
      end
  end.

Definition strategy_update (st : load_balance_strategy) : load_balance_strategy :=
  match st with round_robin_strategy _ => round_robin_strategy 0 | _ => st end.

(** ** The balancer *)

(** [None]: a null strategy. *)
Record load_balancer := mk_lb {
  lb_resources : list T;
  lb_strategy : option load_balance_strategy;
}.

Abbreviation LB := (M load_balancer).

Definition load_balancer_default : load_balancer := mk_lb [] (Some (round_robin_strategy 0)).
Definition load_balancer_with (st : option load_balance_strategy) : load_balancer := mk_lb [] st.

Definition notify_strategy_update : LB unit :=
  b ← get;
  match lb_strategy b with
  | Some st => put (mk_lb (lb_resources b) (Some (strategy_update st)))
  | None => fail (UB "null strategy")
  end.

Definition add_resource (r : T) : LB unit :=
  modify (fun b => mk_lb (lb_resources b ++ [r]) (lb_strategy b));; notify_strategy_update.

Definition add_resources (rs : list T) : LB unit :=
  modify (fun b => mk_lb (fold_left (fun l r => l ++ [r]) rs (lb_resources b)) (lb_strategy b));;
  notify_strategy_update.

Fixpoint erase_first (r : T) (l : list T) : option (list T) :=
  match l with
  | [] => None
  | x :: l => if decide (x = r) then Some l else l' ← erase_first r l; Some (x :: l')
  end.

Definition del_resource (r : T) : LB bool :=
  b ← get;
  match erase_first r (lb_resources b) with
  | Some l => put (mk_lb l (lb_strategy b));; notify_strategy_update;; mret true
  | None => mret false
  end.

Definition get_nect (draw : nat) : LB T :=
  b ← get;
  match lb_strategy b with
  | Some st =>
      let '(st, r) := strategy_select draw st (lb_resources b) in
      put (mk_lb (lb_resources b) (Some st));; lift r
  | None => fail (UB "null strategy")
  end.

Definition set_strategy (st : option load_balance_strategy) : LB unit :=
  modify (fun b => mk_lb (lb_resources b) st);; notify_strategy_update.

Definition get_resources : LB (list T) := b ← get; mret (lb_resources b).

(** ** The factory and the reactor's choice *)

(** [factory_impl::create]: the first product of that name that can be built
    from the arguments.  [None] as a product: it cannot. *)
Fixpoint factory_create {A} (products : list (string * option A)) (id : string) : option A :=
  match products with
  | [] => None
  | (name, p) :: products =>
      match (if String.eqb id name then p else None) with
      | Some p => Some p
      | None => factory_create products id
      end
  end.

Inductive LOAD_BALANCE_STRATEGY := ROUND_ROBIN | RANDOM | LEAST_CONNECTIONS.

(** [create] is called without arguments.  ROUND_ROBIN has no [break]. *)
Definition create_load_balancer (create : string -> option load_balance_strategy)
    (strategy : LOAD_BALANCE_STRATEGY) : load_balancer :=
  let s0 : option load_balance_strategy := None in
  let random (_ : option load_balance_strategy) := create "random_strategy<sub_reactor>"%string in
  load_balancer_with
    match strategy with
    | ROUND_ROBIN => random (create "round_robin_strategy<sub_reactor>"%string)
    | RANDOM => random s0
    | LEAST_CONNECTIONS => create "least_connection_strategy<sub_reactor>"%string
    end.

(** ** Properties *)

(** [n] calls of [get_nect]. *)
Fixpoint get_many (n : nat) : LB (list T) :=
  match n with
  | O => mret []
  | S n => r ← get_nect 0; rs ← get_many n; mret (r :: rs)
  end.

Lemma get_nect_round_robin rs index :
  rs <> [] -> inU 64 index ->
  exists r, rs !! Z.to_nat (index mod len rs) = Some r /\
    get_nect 0 (mk_lb rs (Some (round_robin_strategy index))) =
      (mk_lb rs (Some (round_robin_strategy (u64 (index + 1)))), Ok r).
Proof.
  intros Hrs Hi. assert (0 < len rs) as Hpos by (destruct rs; [done|]; rewrite len_cons; pose proof (len_nonneg rs); lia).
  destruct (lookup_lt_is_Some_2 rs (Z.to_nat (index mod len rs))) as [r Hr].
  { pose proof (Z.mod_pos_bound index (len rs) Hpos). unfold len in *. lia. }
  exists r. split; [done|]. unfold get_nect. rewrite M_get. cbn [lb_strategy lb_resources].
  unfold strategy_select. destruct rs as [|x l]; [done|]. by rewrite Hr.
Qed.

(** The resources in the order round robin goes through them. *)
Lemma get_many_round_robin n rs index :
  rs <> [] -> inU 64 index -> index + Z.of_nat n <= 2 ^ 64 ->
  exists index' out, get_many n (mk_lb rs (Some (round_robin_strategy index))) =
      (mk_lb rs (Some (round_robin_strategy index')), Ok out) /\ length out = n /\
    forall k, (k < n)%nat -> out !! k = rs !! Z.to_nat ((index + Z.of_nat k) mod len rs).
Proof.
  intros Hrs. revert index. induction n as [|n IH]; intros index Hi Hn.
  { exists index, []. split; [done|]. split; [done|lia]. }
  destruct (get_nect_round_robin rs index Hrs Hi) as (r & Hr & Eg).
  assert (exists index' out, get_many n (mk_lb rs (Some (round_robin_strategy (u64 (index + 1))))) =
      (mk_lb rs (Some (round_robin_strategy index')), Ok out) /\ length out = n /\
    forall k, (k < n)%nat -> out !! k = rs !! Z.to_nat ((index + 1 + Z.of_nat k) mod len rs)) as (index' & out & E & Hl & Hk).
  { destruct n as [|n]; [exists (u64 (index + 1)), []; split; [done|split; [done|lia]]|].
    assert (u64 (index + 1) = index + 1) as Eu by (apply wrapU_small; word_lia). rewrite Eu.
    apply IH; word_lia. }
  exists index', (r :: out). split; [|split; [by cbn; rewrite Hl|]].
  - cbn [get_many]. rewrite (M_bind_ok _ _ _ _ _ Eg), (M_bind_ok _ _ _ _ _ E). done.
  - intros [|k] Hkn; cbn; [by rewrite Z.add_0_r|]. rewrite Hk by lia. do 3 f_equal. lia.
Qed.

Lemma rotate_lookup (rs : list T) (m k : nat) :
  (m < length rs)%nat -> (k < length rs)%nat ->
  (drop m rs ++ take m rs) !! k = rs !! ((m + k) mod length rs)%nat.
Proof.
  intros Hm Hk. destruct (decide (k < length rs - m)%nat).
  - rewrite lookup_app_l by (rewrite length_drop; lia). rewrite lookup_drop, Nat.mod_small by lia. done.
  - rewrite lookup_app_r by (rewrite length_drop; lia). rewrite length_drop, lookup_take_lt by lia.
    f_equal. symmetry. rewrite <- (Nat.mod_unique (m + k) (length rs) 1 (m + k - length rs)); lia.
Qed.

(** Fair turns: with the round-robin strategy, as many calls as there are
    resources give each of them its turn exactly once, in the order of the list
    rotated to where the index stands (until the index wraps at 2^64). *)
Theorem round_robin_fair rs index :
  rs <> [] -> inU 64 index -> index + len rs <= 2 ^ 64 ->
  exists b out, get_many (length rs) (mk_lb rs (Some (round_robin_strategy index))) = (b, Ok out) /\
    lb_resources b = rs /\ out ≡ₚ rs /\
    out = drop (Z.to_nat (index mod len rs)) rs ++ take (Z.to_nat (index mod len rs)) rs.
Proof.
  intros Hrs Hi Hn. destruct (get_many_round_robin (length rs) rs index Hrs Hi Hn) as (i' & out & E & Hl & Hk).
  assert (0 < len rs) as Hpos by (destruct rs; [done|]; rewrite len_cons; pose proof (len_nonneg rs); lia).
  pose proof (Z.mod_pos_bound index (len rs) Hpos) as Hm. unfold len in Hm.
  assert (out = drop (Z.to_nat (index mod len rs)) rs ++ take (Z.to_nat (index mod len rs)) rs) as Hout.
  { apply list_eq. intros k. destruct (decide (k < length rs)%nat) as [Hlt|Hge].
    - rewrite (Hk _ Hlt), rotate_lookup by (unfold len; lia). f_equal.
      rewrite <- Z.add_mod_idemp_l by lia. unfold len.
      rewrite Z2Nat.inj_mod by lia. rewrite Z2Nat.inj_add, !Nat2Z.id by lia. done.
    - rewrite !lookup_ge_None_2; [done| |lia]. rewrite length_app, length_drop, length_take. unfold len. lia. }
  eexists _, out. split; [exact E|]. split; [done|]. split; [|done].
  rewrite Hout, Permutation_app_comm. by rewrite take_drop.
Qed.

(** The least connected, and the first such. *)
Lemma min_element_spec counter best l :
  let m := min_element counter best l in
  m ∈ best :: l /\ (forall y, y ∈ best :: l -> counter m <= counter y) /\
  exists before after, best :: l = before ++ m :: after /\ forall y, y ∈ before -> counter m < counter y.
Proof.
  cbn. revert best. induction l as [|x l IH]; intros best; cbn.
  - split; [by left|]. split; [intros y Hy; apply list_elem_of_singleton in Hy; subst; lia|].
    exists [], []. split; [done|]. intros y Hy. by apply elem_of_nil in Hy.
  - destruct (Z.ltb_spec (counter x) (counter best)) as [Hlt|Hge].
    + destruct (IH x) as (Hin & Hmin & before & after & Hl & Hb). split; [by right|]. split.
      * intros y Hy. apply elem_of_cons in Hy as [->|Hy]; [|by apply Hmin].
        pose proof (Hmin x ltac:(by left)). lia.
      * exists (best :: before), after. split; [by cbn; rewrite <- Hl|]. intros y Hy.
        apply elem_of_cons in Hy as [->|Hy]; [|by apply Hb]. pose proof (Hmin x ltac:(by left)). lia.
    + destruct (IH best) as (Hin & Hmin & before & after & Hl & Hb).
      generalize dependent (min_element counter best l). intros m Hin Hmin Hl Hb. split.
      { apply elem_of_cons in Hin as [Hin|Hin]; apply elem_of_cons; [by left|right; by right]. }
      split.
      * intros y Hy. apply elem_of_cons in Hy as [->|Hy]; [apply Hmin; by left|].
        apply elem_of_cons in Hy as [->|Hy]; [|apply Hmin; by right]. pose proof (Hmin best ltac:(by left)). lia.
      * destruct before as [|b before]; cbn in Hl.
        -- injection Hl as Hm ->. exists [], (x :: after). rewrite <- Hm. split; [done|].
           intros y Hy. by apply elem_of_nil in Hy.
        -- injection Hl as <- ->. exists (best :: x :: before), after. split; [done|]. intros y Hy.
           pose proof (Hb best ltac:(by left)).
           apply elem_of_cons in Hy as [->|Hy]; [done|]. apply elem_of_cons in Hy as [->|Hy]; [lia|].
           apply Hb. by right.
Qed.

(** An empty balancer throws, whatever its strategy; nothing is changed. *)
Lemma get_nect_empty draw st :
  get_nect draw (mk_lb [] (Some st)) = (mk_lb [] (Some st), Throw (ExnRuntime "No resources available")).
Proof. done. Qed.

(** A resource added comes last, and removing what was added last restores the list. *)
Lemma erase_first_app r rs : r ∉ rs -> erase_first r (rs ++ [r]) = Some rs.
Proof.
  induction rs as [|x rs IH]; intros Hr; cbn; [by rewrite decide_True|].
  rewrite decide_False by set_solver. rewrite IH by set_solver. done.
Qed.

Lemma add_del_resource r rs st :
  r ∉ rs -> (add_resource r;; del_resource r) (mk_lb rs (Some st)) =
    (mk_lb rs (Some (strategy_update (strategy_update st))), Ok true).
Proof.
  intros Hr. unfold add_resource, del_resource, notify_strategy_update. mrun. cbn.
  by rewrite erase_first_app.
Qed.

(** The reactor: ROUND_ROBIN is RANDOM, and LEAST_CONNECTIONS, asked for under a
    name that no product has and without the counter it needs, is nothing. *)
Lemma create_load_balancer_wrong create :
  create_load_balancer create ROUND_ROBIN = create_load_balancer create RANDOM.
Proof. done. Qed.
End load_balance.

Lemma round_robin_fair_witness :
  exists b out, get_many 3 (mk_lb [10; 20; 30] (Some (round_robin_strategy 4))) = (b, Ok out) /\
    lb_resources b = [10; 20; 30] /\ out ≡ₚ [10; 20; 30] /\ out = [20; 30; 10].
Proof. apply (round_robin_fair [10; 20; 30] 4); [done|split; done|done]. Defined.
End LoadBalance.

Module TrafficShaper.

Record traffic_shaper := mk_shaper { ts_capacity : Z; ts_tokens : Z; ts_last_fill : Z }.

Definition traffic_shaper_new (rate_bps now : Z) : traffic_shaper := mk_shaper rate_bps rate_bps now.

(** [now] is [get_millseconds()]; the times are [int64_t], the rest [size_t]. *)
Definition acquire (now bytes : Z) (s : traffic_shaper) : traffic_shaper * bool :=
  let elapsed := s64 (now - ts_last_fill s) in
  let new_tokens := u64 (u64 elapsed * (ts_capacity s / 1000)) in
  let tokens := Z.min (ts_capacity s) (u64 (ts_tokens s + new_tokens)) in
  if tokens >=? bytes then (mk_shaper (ts_capacity s) (u64 (tokens - bytes)) now, true)
  else (mk_shaper (ts_capacity s) tokens now, false).

(** A sequence of requests: a time and a size each.  The bytes let through. *)
Fixpoint granted (rs : list (Z * Z)) (s : traffic_shaper) : traffic_shaper * Z :=
  match rs with
  | [] => (s, 0)
  | (now, bytes) :: rs =>
      let '(s, ok) := acquire now bytes s in
      let '(s, n) := granted rs s in
      (s, (if ok : bool then bytes else 0) + n)
  end.

Definition shaper_ok (s : traffic_shaper) : Prop :=
  0 <= ts_tokens s <= ts_capacity s /\ inU 64 (ts_capacity s) /\ 0 <= ts_last_fill s < 2 ^ 62.

(** The clock does not run back, and the tokens of the whole time fit a word. *)
Fixpoint clock_ok (t : Z) (rs : list (Z * Z)) : Prop :=
  match rs with [] => True | (now, bytes) :: rs => t <= now < 2 ^ 62 /\ 0 <= bytes /\ clock_ok now rs end.

Definition last_time (t : Z) (rs : list (Z * Z)) : Z := fold_left (fun _ r => r.1) rs t.

Lemma clock_last t rs : clock_ok t rs -> t <= last_time t rs.
Proof.
  unfold last_time. revert t. induction rs as [|[now bytes] rs IH]; intros t; cbn; [lia|]. intros (? & _ & H).
  specialize (IH _ H). lia.
Qed.

Lemma acquire_spec now bytes s s' ok :
  shaper_ok s -> ts_last_fill s <= now < 2 ^ 62 -> 0 <= bytes ->
  ts_capacity s + (now - ts_last_fill s) * (ts_capacity s / 1000) < 2 ^ 64 ->
  acquire now bytes s = (s', ok) ->
  let filled := Z.min (ts_capacity s) (ts_tokens s + (now - ts_last_fill s) * (ts_capacity s / 1000)) in
  ok = (bytes <=? filled) /\ ts_tokens s' = (if ok then filled - bytes else filled) /\
  ts_capacity s' = ts_capacity s /\ ts_last_fill s' = now /\ shaper_ok s'.
Proof.
  intros (Htok & Hcap & Hlast) Hnow Hb Hfit. unfold acquire.
  change (2 ^ 62) with 4611686018427387904 in *.
  pose proof (Z.div_pos (ts_capacity s) 1000 ltac:(word_lia) ltac:(lia)) as Hr.
  assert (0 <= (now - ts_last_fill s) * (ts_capacity s / 1000)) as Hn by (apply Z.mul_nonneg_nonneg; lia).
  assert (s64 (now - ts_last_fill s) = now - ts_last_fill s) as ->.
  { unfold wrapS. rewrite Z.mod_small; change (2 ^ (64 - 1)) with 9223372036854775808; word_lia. }
  rewrite (wrapU_small 64 (now - ts_last_fill s)) by word_lia.
  rewrite (wrapU_small 64 ((now - ts_last_fill s) * _)) by word_lia.
  rewrite (wrapU_small 64 (ts_tokens s + _)) by word_lia.
  set (filled := Z.min _ _). assert (0 <= filled <= ts_capacity s) as Hf by lia.
  rewrite Z.geb_leb. destruct (Z.leb_spec bytes filled); intros [= <- <-]; cbn;
    (split; [done|]); (split; [try (apply wrapU_small; word_lia); done|]); (split; [done|]); (split; [done|]).
  - split; cbn; [rewrite wrapU_small; word_lia|]. split; [done|]. change (2 ^ 62) with 4611686018427387904. lia.
  - split; cbn; [lia|]. split; [done|]. change (2 ^ 62) with 4611686018427387904. lia.
Qed.

(** C27 — The rate is kept as long as the clock does not run back and the tokens
    of the whole time fit a word: over any sequence of requests the bytes let through
    never exceed the tokens there were plus [capacity / 1000] per millisecond,
    and the bucket never holds more than its capacity. *)
Theorem shaper_rate_bound rs s :
  shaper_ok s -> clock_ok (ts_last_fill s) rs ->
  ts_capacity s + (last_time (ts_last_fill s) rs - ts_last_fill s) * (ts_capacity s / 1000) < 2 ^ 64 ->
  let '(s', n) := granted rs s in
  shaper_ok s' /\
  n + ts_tokens s' <= ts_tokens s + (last_time (ts_last_fill s) rs - ts_last_fill s) * (ts_capacity s / 1000).
Proof.
  revert s. induction rs as [|[now bytes] rs IH]; intros s Hok Hclk Hfit; cbn [granted].
  { split; [done|]. cbn. lia. }
  destruct Hclk as (Hnow & Hb & Hclk). pose proof (clock_last _ _ Hclk) as Hlast. unfold last_time in *. cbn [fold_left fst] in *.
  assert (0 <= ts_capacity s / 1000) as Hr by (apply Z.div_pos; [destruct Hok as (_ & [? _] & _); done|lia]).
  destruct (acquire now bytes s) as [s1 ok] eqn:E.
  destruct (acquire_spec _ _ _ _ _ Hok Hnow Hb ltac:(nia) E) as (Hokb & Htok & Hcap & Hl & Hok1).
  destruct (granted rs s1) as [s2 n] eqn:E2.
  specialize (IH s1 Hok1). rewrite E2, Hl, Hcap in IH. destruct IH as [Hok2 Hn]; [done|nia|].
  split; [done|]. destruct ok; cbn in *; nia.
Qed.

Lemma shaper_rate_bound_witness :
  let s := traffic_shaper_new 5000 100 in
  let rs := [(100, 4000); (150, 2000); (400, 2000)] in
  granted rs s = (mk_shaper 5000 500 400, 6000) /\
  (let '(s', n) := granted rs s in shaper_ok s' /\ n + ts_tokens s' <= 5000 + (400 - 100) * 5).
Proof.
  cbn zeta. split; [reflexivity|].
  apply (shaper_rate_bound [(100, 4000); (150, 2000); (400, 2000)] (traffic_shaper_new 5000 100)).
  - repeat split; done.
  - repeat split; done.
  - reflexivity.
Defined.

(** Below 1000 bytes a second nothing is ever refilled. *)
Lemma slow_shaper_never_refills now s :
  0 <= ts_capacity s < 1000 -> shaper_ok s -> ts_tokens s = 0 -> (acquire now 1 s).2 = false.
Proof.
  intros Hc _ Ht. unfold acquire. rewrite Z.div_small by lia. rewrite Z.mul_0_r, Ht.
  change (u64 (0 + u64 0)) with 0. rewrite Z.min_r by lia. done.
Qed.

(** A clock set back by a second fills the bucket. *)
Lemma shaper_clock_back_refills :
  acquire 9000 5000 (mk_shaper 5000 0 10000) = (mk_shaper 5000 0 9000, true).
Proof. reflexivity. Qed.
End TrafficShaper.

(** ** Identifiers *)

Module IdGen.

(** [id_type] is an unsigned integer of [w] bits; [INVALID_ID] is 0. *)
Record sequential_id_generator := mk_idgen { ig_nextid : Z }.

Definition idgen_new : sequential_id_generator := mk_idgen 0.
Definition gen (w : Z) (g : sequential_id_generator) : sequential_id_generator * Z :=
  let id := wrapU w (ig_nextid g + 1) in (mk_idgen id, id).
Definition idgen_reset (g : sequential_id_generator) : sequential_id_generator := mk_idgen 0.

Fixpoint gen_many (w : Z) (n : nat) (g : sequential_id_generator) : sequential_id_generator * list Z :=
  match n with
  | O => (g, [])
  | S n => let '(g, id) := gen w g in let '(g, ids) := gen_many w n g in (g, id :: ids)
  end.

(** The first 2^w - 1 identifiers are 1, 2, ...: all valid and all different. *)
Lemma gen_many_spec w n g :
  0 <= w -> 0 <= ig_nextid g -> ig_nextid g + Z.of_nat n < 2 ^ w ->
  gen_many w n g = (mk_idgen (ig_nextid g + Z.of_nat n), seqZ (ig_nextid g + 1) (Z.of_nat n)).
Proof.
  intros Hw. revert g. induction n as [|n IH]; intros [next] Hg Hn; cbn [ig_nextid] in *.
  { cbn. by rewrite Z.add_0_r. }
  cbn [gen_many]. unfold gen. cbn [ig_nextid].
  rewrite (wrapU_small w) by (unfold inU; lia). rewrite IH by (cbn; lia). cbn [ig_nextid].
  rewrite (seqZ_cons (next + 1)) by lia. f_equal; f_equal; [lia|]. f_equal; lia.
Qed.

Lemma gen_wraps w : 0 < w -> (gen w (mk_idgen (2 ^ w - 1))).2 = 0.
Proof. intros. unfold gen. cbn. unfold wrapU. replace (2 ^ w - 1 + 1) with (2 ^ w) by lia. apply Z.mod_same. lia. Qed.
End IdGen.
