(* ===== verification/Address.v ===== *)
(** Addresses (source/bee/io/address.h, address.cpp): socket addresses as the
    fields of their structures, their text, and the look-up of a host, which cuts
    the node and the service out of one string.  A field that nothing has written
    is [None]; [inet_pton], [inet_ntop] and [getaddrinfo] are the C library's. *)

From S2P Require Import Prelude Text Balance.

(** [htobe16] of a 16-bit integer on a little-endian host; [ntohs] is the same
    exchange. *)
Definition htobe16 (z : Z) : Z := Z.lor (Z.shiftl (Z.land z 255) 8) (Z.shiftr z 8).

Definition AF_UNIX : Z := 1.
Definition AF_INET : Z := 2.
Definition AF_INET6 : Z := 10.
Definition SIZEOF_SOCKADDR : Z := 16.
Definition SIZEOF_SOCKADDR_IN : Z := 16.
Definition SIZEOF_SOCKADDR_IN6 : Z := 28.
Definition SUN_PATH_SIZE : Z := 108.

(** The subclasses of [address].  The network's address is what [inet_pton] makes
    of the text. *)
Inductive address {I4 I6 : Type} :=
  | general_address (sa_family : Z) (sa_data : list byte) (socklen : Z)
  | ipv4_address (sin_addr : option I4) (sin_port : Z) (socklen : Z)
  | ipv6_address (sin6_addr : option I6) (sin6_port : Z) (socklen : Z)
  | unix_address (sun_path : list cell) (socklen : Z).
Arguments address : clear implicits.

Section Address.
Context {I4 I6 : Type}.
Variable inet_pton4 : list byte -> option I4.
Variable inet_pton6 : list byte -> option I6.
Variable inet_ntop4 : I4 -> list byte.
Variable inet_ntop6 : I6 -> list byte.
Abbreviation addr := (address I4 I6).

(** The structure is copied into a [sockaddr], which has 14 bytes of data. *)
Definition general_address_new (sa_family : Z) (sa_data : list byte) (socklen : Z) : addr :=
  general_address sa_family (take 14 sa_data) socklen.
Definition ipv4_address_new (ip : list byte) (port : Z) : addr :=
  ipv4_address (inet_pton4 ip) (htobe16 (u16 port)) SIZEOF_SOCKADDR_IN.
Definition ipv6_address_new (ip : list byte) (port : Z) : addr :=
  ipv6_address (inet_pton6 ip) (htobe16 (u16 port)) SIZEOF_SOCKADDR_IN.

(** [strncpy] of one byte less than the array, which is not written before. *)
Definition sun_path_of (path : list byte) : list cell :=
  let n := Z.to_nat (SUN_PATH_SIZE - 1) in
  let copied := take n (c_string path) in
  (Some <$> copied ++ replicate (n - length copied) x00) ++ [None].

(** [strlen] of an array of characters. *)
Fixpoint cells_strlen (l : list cell) : outcome Z :=
  match l with
  | [] => Fault (UB "read out of bounds")
  | None :: _ => Fault (UB "indeterminate value")
  | Some c :: l => if bool_decide (c = x00) then Ok 0 else n ← cells_strlen l; Ok (n + 1)
  end.

Definition unix_address_new (path : list byte) : outcome addr :=
  let sun_path := sun_path_of path in
  n ← cells_strlen sun_path;
  Ok (unix_address sun_path (2 + n + 1)).

Definition address_family (a : addr) : Z :=
  match a with
  | general_address f _ _ => f
  | ipv4_address _ _ _ => AF_INET
  | ipv6_address _ _ _ => AF_INET6
  | unix_address _ _ => AF_UNIX
  end.
Definition address_len (a : addr) : Z :=
  match a with general_address _ _ l | ipv4_address _ _ l | ipv6_address _ _ l | unix_address _ l => l end.

Definition set_port (port : Z) (a : addr) : addr :=
  match a with
  | ipv4_address ip _ l => ipv4_address ip (htobe16 (u16 port)) l
  | ipv6_address ip _ l => ipv6_address ip (htobe16 (u16 port)) l
  | _ => a
  end.

(** The copy constructors copy both members. *)
Definition address_dup (a : addr) : addr := a.

Definition address_ip (a : addr) : outcome (list byte) :=
  match a with
  | ipv4_address (Some i) _ _ => Ok (inet_ntop4 i)
  | ipv6_address (Some i) _ _ => Ok (inet_ntop6 i)
  | _ => Fault (UB "indeterminate value")
  end.
Definition address_port (a : addr) : Z :=
  match a with ipv4_address _ p _ | ipv6_address _ p _ => htobe16 p | _ => 0 end.
Definition address_path (a : addr) : outcome (list byte) :=
  match a with
  | unix_address p _ =>
      n ← cells_strlen p; cells_init (take (Z.to_nat n) p)
  | _ => Ok []
  end.

Definition address_to_string (a : addr) : outcome (list byte) :=
  match a with
  | general_address f data l =>
      (* [%s] of an array that has no null character of its own *)
      if existsb (fun c => bool_decide (c = x00)) data then
        Ok (str "general_address family:" ++ to_string f ++ str " sa_data:" ++ c_string data ++ str " socklen:" ++ to_string l)
      else Fault (UB "read out of bounds")
  | ipv4_address _ _ _ =>
      ip ← address_ip a; Ok (str "ipv4_address ip:" ++ c_string ip ++ str " port:" ++ to_string (address_port a))
  | ipv6_address _ _ _ =>
      ip ← address_ip a; Ok (str "ipv6_address ip:" ++ c_string ip ++ str " port:" ++ to_string (address_port a))
  | unix_address _ _ => path ← address_path a; Ok (str "unix_address path:" ++ path)
  end.

(** [address_factory]: what its products are made from. *)
Inductive address_params :=
  | IpPort (ip : list byte) (port : Z)
  | Sockaddr (sa_family : Z) (sa_data : list byte) (socklen : Z).
Definition address_products (p : address_params) : list (string * option addr) :=
  [("general_address", match p with Sockaddr f d l => Some (general_address_new f d l) | IpPort _ _ => None end);
   ("ipv4_address", match p with IpPort ip port => Some (ipv4_address_new ip port) | Sockaddr _ _ _ => None end);
   ("ipv6_address", match p with IpPort ip port => Some (ipv6_address_new ip port) | Sockaddr _ _ _ => None end)]%string.
Definition address_create (id : string) (params : address_params) : option addr := LoadBalance.factory_create (address_products params) id.

(** [infomation] of a factory: the names of its products. *)
Definition factory_infomation {A} (products : list (string * option A)) : list byte := products ≫= fun p => str p.1 ++ [x20].

(** *** Looking a host up *)

(** [memchr(s + from, c, ...)], as a position. *)
Definition memchr (c : byte) (s : list byte) (from : nat) : option nat :=
  (fun p => (from + p.1)%nat) <$> list_find (fun d => d = c) (drop from s).

(** The node and the service that are given to [getaddrinfo]: both end at the
    first null character. *)
Definition lookup_node (host : list byte) : list byte * option (list byte) :=
  let '(node, service) :=
    match host with
    | x5b :: _ =>
        match memchr x5d host 1 with
        | Some endipv6 =>
            (take (endipv6 - 1) (drop 1 host),
             if bool_decide (host !! S endipv6 = Some x3a) then Some (drop (endipv6 + 2) host) else None)
        | None => ([], None)
        end
    | _ => ([], None)
    end in
  let '(node, service) :=
    match node with
    | [] =>
        match memchr x3a host 0 with
        | Some colon =>
            match memchr x3a host (S colon) with
            | None => (take colon host, Some (drop (S colon) host))
            | Some _ => ([], Some (drop colon host))
            end
        | None => ([], None)
        end
    | _ => (node, service)
    end in
  (match node with [] => host | _ => node end, service).

(** [getaddrinfo]: the addresses found, or an error. *)
Variable getaddrinfo : list byte -> option (list byte) -> Z -> Z -> Z -> option (list (Z * list byte * Z)).

Definition address_lookup (host : list byte) (family type protocol : Z) (addrs : list addr) : bool * list addr :=
  let '(node, service) := lookup_node host in
  match getaddrinfo (c_string node) (c_string <$> service) family type protocol with
  | None => (false, addrs)
  | Some results =>
      let addrs := addrs ++ omap (fun r => address_create "general_address" (Sockaddr r.1.1 r.1.2 r.2)) results in
      (match addrs with [] => false | _ => true end, addrs)
  end.

Definition lookup_any (host : list byte) (family type protocol : Z) : option addr :=
  match address_lookup host family type protocol [] with
  | (true, a :: _) => Some a
  | _ => None
  end.
End Address.

(** * What is proved of them *)

Lemma htobe16_swaps z : inU 16 z -> htobe16 z = z / 256 + z mod 256 * 256.
Proof.
  intros [Hlo Hhi]. change (2 ^ 16) with 65536 in Hhi. unfold htobe16.
  change 255 with (Z.ones 8). rewrite Z.land_ones, Z.shiftr_div_pow2, Z.lor_comm by lia.
  change (2 ^ 8) with 256. rewrite lor_shiftl_add; [done|lia|].
  change (2 ^ 8) with 256. pose proof (Z.div_pos z 256). pose proof (Z.div_lt_upper_bound z 256 256). lia.
Qed.

Lemma htobe16_involutive z : inU 16 z -> htobe16 (htobe16 z) = z.
Proof.
  intros Hz. rewrite (htobe16_swaps z Hz). destruct Hz as [Hlo Hhi]. change (2 ^ 16) with 65536 in Hhi.
  pose proof (Z.mod_pos_bound z 256 ltac:(lia)). pose proof (Z.div_pos z 256 ltac:(lia) ltac:(lia)).
  pose proof (Z.div_lt_upper_bound z 256 256 ltac:(lia) ltac:(lia)).
  rewrite htobe16_swaps by (unfold inU; change (2 ^ 16) with 65536; lia).
  rewrite Z.div_add, Z.mod_add, (Z.div_small (z / 256)), (Z.mod_small (z / 256)) by lia.
  rewrite (Z.div_mod z 256) at 3 by lia. lia.
Qed.

Section AddressLaws.
Context {I4 I6 : Type}.
Variable inet_pton4 : list byte -> option I4.
Variable inet_pton6 : list byte -> option I6.
Variable inet_ntop4 : I4 -> list byte.
Variable inet_ntop6 : I6 -> list byte.

(** An address gives back the port it was made with, or set to, and the network's
    form of the text; for a text that is no address it has nothing to give. *)
Lemma ipv4_reads_back ip port :
  inU 16 port ->
  let a := ipv4_address_new (I6 := I6) inet_pton4 ip port in
  address_port a = port /\
  address_ip inet_ntop4 inet_ntop6 a = match inet_pton4 ip with Some i => Ok (inet_ntop4 i) | None => Fault (UB "indeterminate value") end /\
  (forall p, inU 16 p -> address_port (set_port p a) = p).
Proof.
  intros Hp. cbn [address_port ipv4_address_new set_port address_ip].
  split_and!; [by rewrite wrapU_small, htobe16_involutive by done|by destruct (inet_pton4 ip)|].
  intros p Hp'. by rewrite wrapU_small, htobe16_involutive by done.
Qed.

(** The length of an IPv6 address is that of an IPv4 address. *)
Lemma ipv6_too_short ip port : address_len (ipv6_address_new (I4 := I4) inet_pton6 ip port) < SIZEOF_SOCKADDR_IN6.
Proof. done. Qed.

Lemma c_string_no_null s : Forall (fun c => c <> x00) (c_string s).
Proof. induction s as [|c s IH]; cbn; [constructor|]. case_bool_decide; by constructor. Qed.

Lemma cells_strlen_at s rest :
  Forall (fun c => c <> x00) s -> cells_strlen ((Some <$> s) ++ Some x00 :: rest) = Ok (len s).
Proof.
  induction 1 as [|c s Hc Hs IH]; [done|]. cbn. rewrite bool_decide_eq_false_2 by done.
  cbn in IH. rewrite IH. cbn [mbind outcome_bind]. rewrite len_cons. f_equal. lia.
Qed.

(** A path of up to 106 characters is kept; a longer one fills the array but for
    its last character, which nothing has written, and [strlen] runs into it. *)
Lemma unix_path_kept path :
  len (c_string path) < SUN_PATH_SIZE - 1 ->
  exists a, unix_address_new (I4 := I4) (I6 := I6) path = Ok a /\
    address_path a = Ok (c_string path) /\ address_len a = 2 + len (c_string path) + 1.
Proof.
  intros Hlen. unfold unix_address_new, sun_path_of.
  set (n := Z.to_nat (SUN_PATH_SIZE - 1)). assert (length (c_string path) < n)%nat as Hn by (unfold n, len in *; lia).
  rewrite (take_ge (c_string path)) by lia.
  replace (n - length (c_string path))%nat with (S (n - length (c_string path) - 1)) by lia. cbn [replicate].
  rewrite fmap_app, fmap_cons, <- app_assoc, <- app_comm_cons.
  rewrite cells_strlen_at by apply c_string_no_null. cbn [mbind outcome_bind].
  eexists. split; [done|]. split; [|done]. cbn [address_path].
  rewrite cells_strlen_at by apply c_string_no_null. cbn [mbind outcome_bind].
  rewrite take_app_le by (rewrite length_fmap; unfold len; lia).
  rewrite take_ge by (rewrite length_fmap; unfold len; lia). apply cells_init_Some.
Qed.

Lemma unix_path_runs_on path :
  SUN_PATH_SIZE - 1 <= len (c_string path) ->
  unix_address_new (I4 := I4) (I6 := I6) path = Fault (UB "indeterminate value").
Proof.
  intros Hlen. unfold unix_address_new, sun_path_of.
  set (n := Z.to_nat (SUN_PATH_SIZE - 1)). assert (n <= length (c_string path))%nat as Hn by (unfold n, len in *; lia).
  rewrite length_take, Nat.min_l, Nat.sub_diag by lia. cbn [replicate]. rewrite app_nil_r.
  pose proof (c_string_no_null path) as Hnn. apply (Forall_take _ n) in Hnn.
  generalize dependent (take n (c_string path)). intros s Hs.
  assert (cells_strlen ((Some <$> s) ++ [None]) = Fault (UB "indeterminate value")) as ->; [|done].
  induction Hs as [|c s Hc Hs IH]; [done|]. cbn. rewrite bool_decide_eq_false_2 by done. cbn in IH. by rewrite IH.
Qed.
End AddressLaws.

(** ** The factory *)

(** With names that differ, a product is made by its name or not at all. *)
Lemma factory_create_by_name {A} (products : list (string * option A)) id product :
  NoDup products.*1 -> (id, product) ∈ products -> LoadBalance.factory_create products id = product.
Proof.
  induction products as [|[value c] products IH]; cbn; [by intros _ []%not_elem_of_nil|].
  intros [Hn Hnd]%NoDup_cons [[= <- <-]|Hin]%elem_of_cons.
  - rewrite String.eqb_refl. destruct product; [done|]. clear IH Hnd.
    induction products as [|[v c] products IH]; [done|]. apply not_elem_of_cons in Hn as [Hne Hn]. cbn in *.
    apply String.eqb_neq in Hne as ->. by apply IH.
  - destruct (String.eqb_spec id value) as [->|]; [exfalso|by apply IH]. apply Hn. by apply (list_elem_of_fmap_2 fst) in Hin.
Qed.

Lemma address_create_general {I4 I6} (pton4 : list byte -> option I4) (pton6 : list byte -> option I6) f d l :
  address_create pton4 pton6 "general_address" (Sockaddr f d l) = Some (general_address_new f d l).
Proof. done. Qed.

(** ** Cutting the node and the service out of a host *)

Lemma memchr_hit c a b : c ∉ a -> memchr c (a ++ c :: b) 0 = Some (length a).
Proof.
  intros Ha. unfold memchr. rewrite drop_0, list_find_app_r.
  - cbn. rewrite decide_True by done. cbn. f_equal; lia.
  - apply list_find_None, Forall_forall. intros x Hx ->. done.
Qed.
Lemma memchr_free c s : c ∉ s -> memchr c s 0 = None.
Proof.
  intros Hs. unfold memchr. rewrite drop_0, (proj2 (list_find_None _ s)); [done|].
  apply Forall_forall. by intros x Hx ->.
Qed.
Lemma memchr_from c s n : memchr c s n = (Nat.add n) <$> memchr c (drop n s) 0.
Proof. unfold memchr. rewrite drop_0. by destruct (list_find _ (drop n s)). Qed.

Lemma no_bracket h : head h <> Some x5b ->
  (match h with
   | x5b :: _ => match memchr x5d h 1 with
        | Some e => (take (e - 1) (drop 1 h), if bool_decide (h !! S e = Some x3a) then Some (drop (e + 2) h) else None)
        | None => ([], None) end
   | _ => ([], None) end) = ([], None : option (list byte)).
Proof. destruct h as [|c h]; [done|]. destruct c; try done. Qed.

(** What a host is cut into: [host] alone, [host:service], [address] in
    brackets with or without a service. *)
Theorem lookup_node_cases h p :
  x3a ∉ h -> x3a ∉ p -> x5b ∉ h -> h <> [] ->
  lookup_node h = (h, None) /\
  lookup_node (h ++ x3a :: p) = (h, Some p).
Proof.
  intros Hh Hp Hb Hne. assert (forall k, head (h ++ k) <> Some x5b) as Hhead.
  { intros k. destruct h as [|c h]; [done|]. cbn. intros [= ->]. apply Hb. by left. }
  split; unfold lookup_node.
  - pose proof (Hhead []) as H. rewrite app_nil_r in H. rewrite no_bracket by done.
    rewrite memchr_free by done. done.
  - rewrite no_bracket by done. rewrite memchr_hit by done.
    rewrite memchr_from, drop_app_ge by lia.
    replace (S (length h) - length h)%nat with 1%nat by lia. cbn [drop].
    rewrite memchr_free by done. cbn [fmap option_fmap option_map].
    rewrite take_app_length. by destruct h.
Qed.

Lemma lookup_node_brackets a p :
  x5d ∉ a -> a <> [] ->
  lookup_node (x5b :: a ++ [x5d]) = (a, None) /\
  lookup_node (x5b :: a ++ x5d :: x3a :: p) = (a, Some p).
Proof.
  intros Ha Hne. unfold lookup_node.
  assert (forall k, memchr x5d (x5b :: a ++ x5d :: k) 1 = Some (S (length a))) as Hm.
  { intros k. rewrite memchr_from. change (drop 1 (x5b :: a ++ x5d :: k)) with (a ++ x5d :: k). by rewrite memchr_hit. }
  assert (forall k, take (S (length a) - 1) (a ++ x5d :: k) = a) as Ht.
  { intros k. replace (S (length a) - 1)%nat with (length a) by lia. apply take_app_length. }
  assert (forall n (l : list byte), drop (S n) (x5b :: l) = drop n l) as Hd by done.
  assert (forall n (l : list byte), (x5b :: l) !! S n = l !! n) as Hl by done.
  split; rewrite Hm, Hd, drop_0, Ht, Hl, lookup_app_r by lia;
    replace (S (length a) - length a)%nat with 1%nat by lia; cbn [lookup list_lookup].
  - by destruct a.
  - rewrite bool_decide_eq_true_2 by done.
    replace (S (length a) + 2)%nat with (S (length a + 2)) by lia. rewrite Hd, drop_app_ge by lia.
    replace (length a + 2 - length a)%nat with 2%nat by lia. by destruct a.
Qed.

(** An IPv6 address without brackets is passed on with a service that is its own
    tail, the colon included. *)
Lemma bare_ipv6_gets_service a b c :
  x3a ∉ a -> x5b ∉ a -> a <> [] ->
  lookup_node (a ++ x3a :: b ++ x3a :: c) = (a ++ x3a :: b ++ x3a :: c, Some (x3a :: b ++ x3a :: c)).
Proof.
  intros Ha Hb Hne. unfold lookup_node. rewrite no_bracket.
  2: { destruct a as [|d a]; [done|]. cbn. intros [= ->]. apply Hb. by left. }
  rewrite memchr_hit by done. rewrite memchr_from, drop_app_ge by lia.
  replace (S (length a) - length a)%nat with 1%nat by lia. cbn [drop]. rewrite !drop_0.
  destruct (memchr x3a (b ++ x3a :: c) 0) as [k|] eqn:E.
  - cbn [fmap option_fmap option_map]. by rewrite drop_app_length.
  - exfalso. unfold memchr in E. rewrite drop_0 in E. apply fmap_None, list_find_None in E.
    apply (proj1 (Forall_forall _ _) E x3a); [apply elem_of_app; right; left|done].
Qed.
