(* ===== verification/Config.v ===== *)
(** The configuration file (source/bee/common/config.h, config.cpp): its text,
    line by line, into sections of items, reading it again, and the typed
    accessors. *)

From S2P Require Import Prelude Octets Marshal Text.

Abbreviation ITEM_MAP := (gmap (list byte) (list byte)).
Abbreviation SECTION_MAP := (gmap (list byte) ITEM_MAP).

Definition blanks : list byte := [x20; x09; x0a; x0d].

(** The lines [std::getline] gives: no empty one after the last line feed. *)
Fixpoint file_lines (s : list byte) : list (list byte) :=
  match s with
  | [] => []
  | c :: s =>
      if bool_decide (c = x0a) then [] :: file_lines s
      else match file_lines s with [] => [[c]] | line :: rest => (c :: line) :: rest end
  end.

(** The section the items belong to, and what was read. *)
Record config_parser := mk_parser { cp_section : list byte; cp_sections : SECTION_MAP }.

(** [_sections[section].emplace(key, value).second]: the section is there from
    now on, a key stays with its first value. *)
Definition emplace_item (key value : list byte) (p : config_parser) : bool * config_parser :=
  let items := default ∅ (cp_sections p !! cp_section p) in
  match items !! key with
  | Some _ => (false, mk_parser (cp_section p) (<[cp_section p := items]> (cp_sections p)))
  | None => (true, mk_parser (cp_section p) (<[cp_section p := <[key := value]> items]> (cp_sections p)))
  end.

(** The tail comment of a value is cut off, and the blanks before it. *)
Definition cut_comment (value : list byte) : outcome (list byte) :=
  let n := find_char x23 value 0 in
  if n =? npos then Ok value else rtrim (take (Z.to_nat n) value) blanks.

Definition is_section (line : list byte) : bool :=
  bool_decide (head line = Some x5b) && bool_decide (last line = Some x5d).

(** One turn of the loop of [parse], [false] when it returns. *)
Definition parse_line (open_version : bool) (line : list byte) : M config_parser bool :=
  if bool_decide (line = []) then mret true
  else if is_section line then
    section ← lift (substr line 1 (len line - 2));
    modify (fun p => mk_parser section (cp_sections p));;
    mret true
  else
    let pos := find_char x3d line 0 in
    if pos =? npos then mret true
    else
      front ← lift (substr line 0 pos); key ← lift (trim front blanks);
      back ← lift (substr line (pos + 1) npos); value ← lift (trim back blanks);
      match key with
      | [] => fail (UB "front of an empty string")
      | c :: _ =>
          if bool_decide (c = x23) then mret true
          else
            value ← lift (cut_comment value);
            if bool_decide (value = []) then mret true
            else
              p ← get;
              let '(added, p) := emplace_item key value p in
              put p;;
              if added then mret true
              else if open_version then mret false
              else fail (AssertFail "_sections[section].emplace(key, value).second")
      end.

Fixpoint parse_lines (open_version : bool) (lines : list (list byte)) : M config_parser bool :=
  match lines with
  | [] => mret true
  | line :: lines => go ← parse_line open_version line; if (go : bool) then parse_lines open_version lines else mret false
  end.

Abbreviation Config := (M SECTION_MAP).

Definition config_parse (open_version : bool) (text : list byte) : Config bool := fun sections =>
  let '(p, r) := parse_lines open_version (file_lines text) (mk_parser [] sections) in (cp_sections p, r).

(** [reload]; [None] is a file that does not open. *)
Definition config_reload (open_version : bool) (file : option (list byte)) : Config bool :=
  match file with
  | None => mret false
  | Some text =>
      old_config ← get;
      put ∅;;
      ok ← config_parse open_version text;
      if (ok : bool) then mret true else put old_config;; mret false
  end.

Definition config_get (section item : list byte) (default_value : list byte) (c : SECTION_MAP) : list byte :=
  match c !! section with
  | Some items => default default_value (items !! item)
  | None => default_value
  end.

(** The template [get], an instance for each kind of type: a truth value, an
    integer converted by [conv], and the others, [std::string] among them, for
    which the value found is not used.  (A floating-point type, read with [atof],
    has no use in the program.) *)
Definition config_get_bool (section item : list byte) (default_value : bool) (c : SECTION_MAP) : bool :=
  match config_get section item [] c with
  | [] => default_value
  | value => bool_decide (value = str "true") || bool_decide (value = str "1")
  end.
Definition config_get_int (conv : Z -> Z) (section item : list byte) (default_value : Z) (c : SECTION_MAP) : outcome Z :=
  match config_get section item [] c with
  | [] => Ok default_value
  | value => z ← atoi value; Ok (conv z)
  end.
Definition config_get_other {A} (section item : list byte) (default_value : A) (c : SECTION_MAP) : A :=
  match config_get section item [] c with [] => default_value | _ => default_value end.

(** ** Round trip *)

(** A text whose ends are no blanks. *)
Definition trimmed (s : list byte) : Prop :=
  match s with
  | [] => False
  | x :: _ => is_in blanks x = false /\ is_in blanks (default x (last s)) = false
  end.

Lemma find_last_hit p a x : p x = true -> find_last p (a ++ [x]) = len a.
Proof.
  intros Hx. unfold find_last. rewrite rev_app_distr. cbn. rewrite decide_True by done. cbn.
  rewrite len_app, len_cons, len_nil. lia.
Qed.

Lemma trim_trimmed s : trimmed s -> len s < 2 ^ 63 -> trim s blanks = Ok s.
Proof.
  destruct s as [|x l]; [done|]. intros [Hx Hl] Hlen. unfold trim.
  assert (find_from (fun c => negb (is_in blanks c)) (x :: l) 0 = 0) as ->.
  { apply (find_hit0 _ [] x l); [by constructor|by rewrite Hx]. }
  change (0 =? npos) with false. cbv iota.
  destruct (exists_last (l := x :: l) ltac:(done)) as (a & y & Ey). rewrite Ey in *.
  rewrite last_snoc in Hl. cbn [default from_option id] in Hl.
  rewrite find_last_hit by (by rewrite Hl).
  rewrite len_app, len_cons, len_nil in Hlen. pose proof (len_nonneg a).
  rewrite wrapU_small by (unfold inU; lia).
  pose proof (substr_front (a ++ [y]) [] (len a - 0 + 1)) as E. rewrite app_nil_r in E. apply E.
  rewrite len_app. change (len [y]) with 1. lia.
Qed.

(** What a file can hold and give back. *)
Definition name_ok (name : list byte) : Prop := x0a ∉ name.
Definition key_ok (key : list byte) : Prop :=
  trimmed key /\ (x0a ∉ key) /\ (x3d ∉ key) /\ head key <> Some x23 /\ head key <> Some x5b.
Definition value_ok (value : list byte) : Prop := trimmed value /\ (x0a ∉ value) /\ (x23 ∉ value).
Definition short (s : list byte) : Prop := len s < 2 ^ 62.

Definition item_line (kv : list byte * list byte) : list byte := kv.1 ++ x3d :: kv.2.
Definition section_line (name : list byte) : list byte := x5b :: name ++ [x5d].
Definition section_lines (sec : list byte * list (list byte * list byte)) : list (list byte) :=
  section_line sec.1 :: (item_line <$> sec.2).
Definition config_print (secs : list (list byte * list (list byte * list byte))) : list byte :=
  (secs ≫= section_lines) ≫= (fun line => line ++ [x0a]).

Lemma file_lines_line line s : x0a ∉ line -> file_lines (line ++ x0a :: s) = line :: file_lines s.
Proof.
  induction line as [|c line IH]; intros Hn; cbn.
  - done.
  - rewrite bool_decide_eq_false_2 by set_solver. rewrite IH by set_solver. done.
Qed.

Lemma file_lines_print lines :
  Forall (fun line => x0a ∉ line) lines -> file_lines (lines ≫= fun line => line ++ [x0a]) = lines.
Proof.
  induction 1 as [|line lines Hl _ IH]; [done|]. rewrite bind_cons, <- app_assoc. cbn.
  by rewrite file_lines_line, IH.
Qed.

Lemma parse_section_line ov name p :
  parse_line ov (section_line name) p = (mk_parser name (cp_sections p), Ok true).
Proof.
  unfold parse_line, section_line. rewrite bool_decide_eq_false_2 by done.
  unfold is_section. rewrite bool_decide_eq_true_2 by done.
  rewrite bool_decide_eq_true_2 by (by rewrite app_comm_cons, last_snoc). cbn [andb].
  assert (len (x5b :: name ++ [x5d]) - 2 = len name) as -> by (rewrite len_cons, len_app, len_cons, len_nil; lia).
  by rewrite (substr_mid [x5b] name [x5d] (len name) eq_refl : substr (x5b :: name ++ [x5d]) 1 (len name) = Ok name).
Qed.

Definition add_item (kv : list byte * list byte) (p : config_parser) : config_parser := (emplace_item kv.1 kv.2 p).2.

Lemma parse_item_line ov key value p :
  key_ok key -> value_ok value -> short key -> short value ->
  default ∅ (cp_sections p !! cp_section p) !! key = None ->
  parse_line ov (item_line (key, value)) p = (add_item (key, value) p, Ok true).
Proof.
  intros (Hk & _ & Hke & Hk1 & Hk2) (Hv & _ & Hv1) Hks Hvs Hnew. unfold parse_line, item_line. cbn [fst snd].
  assert (key <> []) as Hkne by (by intros ->).
  rewrite bool_decide_eq_false_2 by (by destruct key).
  assert (is_section (key ++ x3d :: value) = false) as ->.
  { unfold is_section. rewrite bool_decide_eq_false_2; [done|]. by destruct key. }
  assert (find_char x3d (key ++ x3d :: value) 0 = len key) as ->.
  { apply find_hit0; [by apply is_char_free|apply is_char_refl]. }
  unfold short in *. pose proof (len_nonneg key).
  rewrite (proj2 (Z.eqb_neq _ _)) by (unfold npos; lia).
  rewrite (substr_front key) by done.
  assert (substr (key ++ x3d :: value) (len key + 1) npos = Ok value) as ->.
  { replace (len key + 1) with (len (key ++ [x3d])) by (rewrite len_app, len_cons, len_nil; lia).
    rewrite (app_assoc key [x3d] value : key ++ x3d :: value = _). apply substr_rest. unfold npos. lia. }
  mrun. rewrite !trim_trimmed by (done || lia). destruct key as [|c key]; [done|].
  rewrite bool_decide_eq_false_2 by (intros ->; by apply Hk1).
  unfold cut_comment, find_char. rewrite find_free by (by apply is_char_free). change (npos =? npos) with true. cbv iota.
  rewrite bool_decide_eq_false_2 by (by intros ->).
  unfold add_item, emplace_item. cbn [fst snd]. by rewrite Hnew.
Qed.

Definition item_ok (kv : list byte * list byte) : Prop :=
  key_ok kv.1 /\ value_ok kv.2 /\ short kv.1 /\ short kv.2.

Definition items_of (p : config_parser) : ITEM_MAP := default ∅ (cp_sections p !! cp_section p).

Lemma add_item_eq kv p :
  items_of p !! kv.1 = None ->
  add_item kv p = mk_parser (cp_section p) (<[cp_section p := <[kv.1 := kv.2]> (items_of p)]> (cp_sections p)).
Proof. unfold add_item, emplace_item. fold (items_of p). by intros ->. Qed.

Lemma parse_items ov kvs lines p :
  Forall item_ok kvs -> NoDup kvs.*1 -> kvs <> [] -> (forall k, k ∈ kvs.*1 -> items_of p !! k = None) ->
  parse_lines ov ((item_line <$> kvs) ++ lines) p =
  parse_lines ov lines (mk_parser (cp_section p) (<[cp_section p := list_to_map kvs ∪ items_of p]> (cp_sections p))).
Proof.
  revert p. induction kvs as [|kv kvs IH]; intros p Hok Hnd Hne Hnew; [done|].
  apply Forall_cons in Hok as [(Hk & Hv & Hks & Hvs) Hok]. cbn in Hnd. apply NoDup_cons in Hnd as [Hkn Hnd].
  assert (items_of p !! kv.1 = None) as Hkv by (apply Hnew; by left).
  rewrite fmap_cons. cbn [app parse_lines].
  rewrite (M_bind_ok _ _ p (add_item kv p) true).
  2: { destruct kv as [key value]. by apply parse_item_line. }
  rewrite add_item_eq by done.
  destruct kvs as [|kv' kvs].
  { cbn. destruct kv as [key value]. cbn. by rewrite <- insert_union_l, (left_id_L ∅ (∪)). }
  set (p' := mk_parser _ _).
  assert (items_of p' = <[kv.1 := kv.2]> (items_of p)) as Hp'.
  { unfold items_of at 1, p'. cbn [cp_section cp_sections]. by rewrite lookup_insert_eq. }
  rewrite IH, Hp'; try done; cbn [p' cp_section cp_sections].
  - rewrite insert_insert_eq. do 3 f_equal. destruct kv as [key value]. cbn [fst snd] in *.
    rewrite <- insert_union_r by (by apply not_elem_of_list_to_map_1).
    by rewrite insert_union_l.
  - intros k' Hk'. rewrite Hp', lookup_insert_ne by (intros <-; done). apply Hnew. by right.
Qed.

Definition secs_map (secs : list (list byte * list (list byte * list byte))) : SECTION_MAP :=
  list_to_map ((fun sec => (sec.1, list_to_map sec.2)) <$> secs).

(** A configuration with its sections and items in some order. *)
Definition config_ok (secs : list (list byte * list (list byte * list byte))) : Prop :=
  NoDup secs.*1 /\
  Forall (fun sec => name_ok sec.1 /\ Forall item_ok sec.2 /\ NoDup sec.2.*1 /\ sec.2 <> []) secs.

#[export] Instance config_ok_dec secs : Decision (config_ok secs).
Proof.
  assert (forall s, Decision (trimmed s)) by (intros []; cbn; apply _).
  unfold config_ok, name_ok, item_ok, key_ok, value_ok, short. apply _.
Defined.

Lemma parse_sections ov secs p :
  config_ok secs -> (forall name, name ∈ secs.*1 -> cp_sections p !! name = None) ->
  exists p', parse_lines ov (secs ≫= section_lines) p = (p', Ok true) /\
    cp_sections p' = secs_map secs ∪ cp_sections p.
Proof.
  revert p. induction secs as [|[name kvs] secs IH]; intros p [Hnd Hok] Hnew.
  { exists p. split; [done|]. cbn. by rewrite (left_id_L ∅ (∪)). }
  apply Forall_cons in Hok as [(Hn & Hkv & Hkn & Hne) Hok]. cbn in Hnd, Hkv, Hkn, Hne. apply NoDup_cons in Hnd as [Hnn Hnd].
  rewrite bind_cons. cbn [section_lines fst snd app parse_lines].
  rewrite (M_bind_ok _ _ p (mk_parser name (cp_sections p)) true) by apply parse_section_line.
  assert (cp_sections p !! name = None) as Hname by (apply Hnew; by left).
  rewrite parse_items; try done; unfold items_of; cbn [cp_section cp_sections]; rewrite ?Hname;
    [|intros; apply lookup_empty]. cbn [default from_option].
  edestruct IH as (p' & -> & Hp').
  - by split.
  - intros name' Hin. cbn. rewrite lookup_insert_ne by (intros <-; done). apply Hnew. by right.
  - exists p'. split; [done|]. rewrite Hp'. cbn. rewrite (right_id_L ∅ (∪)).
    rewrite <- insert_union_r, insert_union_l; [done|].
    apply not_elem_of_list_to_map_1. rewrite <- list_fmap_compose. done.
Qed.

Lemma config_parse_print ov secs :
  config_ok secs -> config_parse ov (config_print secs) ∅ = (secs_map secs, Ok true).
Proof.
  intros Hok. unfold config_parse, config_print. rewrite file_lines_print.
  - destruct (parse_sections ov secs (mk_parser [] ∅) Hok ltac:(intros; apply lookup_empty)) as (p' & -> & Hp').
    rewrite Hp'. cbn [cp_sections]. by rewrite (right_id_L ∅ (∪)).
  - destruct Hok as [_ Hok]. apply Forall_forall. intros line Hl. apply list_elem_of_bind in Hl as (sec & Hl & Hs).
    eapply Forall_forall in Hok; [|done]. destruct Hok as (Hn & Hkv & _).
    apply elem_of_cons in Hl as [->|Hl]; [unfold section_line, name_ok in *; set_solver|].
    apply list_elem_of_fmap in Hl as (kv & -> & Hi). eapply Forall_forall in Hkv; [|done].
    destruct Hkv as ((_ & H1 & _) & (_ & H2 & _) & _). unfold item_line. set_solver.
Qed.

(** C26 — A configuration written section by section, an item a line, is read
    back as it was, whatever was there before: names without a line feed, keys
    and values without the characters that mean something, no blanks at their
    ends, no key twice in a section and no section empty. *)
Theorem config_roundtrip ov secs old :
  config_ok secs -> config_reload ov (Some (config_print secs)) old = (secs_map secs, Ok true).
Proof. intros Hok. unfold config_reload. mrun. by rewrite config_parse_print. Qed.

Definition demo_secs : list (list byte * list (list byte * list byte)) :=
  [(str "log", [(str "dir", str "./debug/logs"); (str "level", str "1")]); (str "client 2", [(str "uri", str "[::1]:80/=")])].

Lemma config_roundtrip_witness :
  config_ok demo_secs /\
  config_print demo_secs = str "[log]" ++ x0a :: str "dir=./debug/logs" ++ x0a :: str "level=1" ++ x0a ::
    str "[client 2]" ++ x0a :: str "uri=[::1]:80/=" ++ [x0a] /\
  config_reload false (Some (config_print demo_secs)) ∅ = (secs_map demo_secs, Ok true).
Proof.
  assert (config_ok demo_secs) as H by (apply (bool_decide_unpack _); by vm_compute).
  split; [exact H|]. split; [reflexivity|]. by apply config_roundtrip.
Defined.

(** ** Reading again, and reading out *)

(** A file that is refused leaves the configuration as it was. *)
Lemma config_reload_refused ov file c c' : config_reload ov file c = (c', Ok false) -> c' = c.
Proof.
  destruct file as [text|]; cbn; [|by intros [= ->]]. unfold config_reload. mrun.
  destruct (config_parse ov text ∅) as [c1 [[]| |]]; intros [= <-]; done.
Qed.

(** [get] as a string gives the default for every item, the ones the file has
    included. *)
Lemma config_get_string_default section item (default_value : list byte) c :
  config_get_other section item default_value c = default_value.
Proof. unfold config_get_other. by destruct (config_get section item [] c). Qed.

(** A line of an equals sign and a value reads the first character of an empty
    key. *)
Lemma config_empty_key_undefined ov value p :
  len value < 2 ^ 62 -> (exists v, trim value blanks = Ok v) ->
  (parse_line ov (x3d :: value) p).2 = Fault (UB "front of an empty string").
Proof.
  intros Hl [v Hv]. unfold parse_line. rewrite bool_decide_eq_false_2 by done.
  assert (is_section (x3d :: value) = false) as -> by done.
  assert (find_char x3d (x3d :: value) 0 = 0) as -> by done.
  change (0 =? npos) with false. cbv iota. change (substr (x3d :: value) 0 0) with (Ok (A := list byte) []).
  assert (substr (x3d :: value) (0 + 1) npos = Ok value) as ->.
  { apply (substr_rest [x3d]). unfold npos. lia. }
  mrun. cbn [trim]. by rewrite Hv.
Qed.

(** A section header with a blank or a comment behind it is passed over: what
    follows belongs to the section before. *)
Lemma config_header_passed_over :
  let text := str "[a]" ++ x0a :: str "[b] # the other" ++ x0a :: str "k=v" in
  (config_reload false (Some text) ∅).2 = Ok true /\
  config_get (str "b") (str "k") [] (config_reload false (Some text) ∅).1 = [] /\
  config_get (str "a") (str "k") [] (config_reload false (Some text) ∅).1 = str "v".
Proof. by vm_compute. Qed.
