(* ===== verification/HttpClient.v ===== *)
(** The HTTP client's requests and connections (source/bee/http/httpclient.h,
    httpclient.cpp, internal/http_task.h, internal/http_callback.h,
    internal/httpsession_manager.cpp).

    A request is a task under a number; it waits in [pending] for an idle
    connection, which is then busy with it, and leaves when its response has
    come or its time is over: the user is called back and the task destroyed, by
    the thread pool when the library is built for threads ([_REENTRANT]), and on
    the spot when it is not.  The build is a parameter, [reentrant], of the
    operations it tells apart.  The manager's lock is held around every operation;
    [on_add_session] and [on_del_session] are called with it held and take it
    again, which does nothing without threads and with them never ends
    ([client_told_deadlocks] of HttpSession).  What a user's callback does is not
    modelled: it does not use the client. *)

From S2P Require Import Prelude Octets Marshal Session Text Uri Http.

Definition HTTP_RESULT_OK : Z := 0.
Definition HTTP_RESULT_INVALID_URL : Z := -2.
Definition HTTP_RESULT_SSL_NOT_ENABLED : Z := -8.
Definition HTTP_STATUS_REQUEST_TIMEOUT : Z := 408.

(** [http_callback]: a task with what the user is told.  The callback itself is
    the user's. *)
Record http_callback := mk_callback {
  cb_taskid : Z;
  cb_timeout : Z;
  cb_req : httprequest;
  cb_rsp : option httpresponse;
  cb_status : Z;
}.

Definition http_callback_new (taskid : Z) (req : httprequest) (timeout : Z) : http_callback :=
  mk_callback taskid timeout req None 200.
Definition cb_set_status (st : Z) (c : http_callback) : http_callback :=
  mk_callback (cb_taskid c) (cb_timeout c) (cb_req c) (cb_rsp c) st.
Definition cb_set_response (rsp : httpresponse) (c : http_callback) : http_callback :=
  mk_callback (cb_taskid c) (cb_timeout c) (cb_req c) (Some rsp) (cb_status c).

(** [hc_finished] is what [finish_task] was given, [hc_connects] how often a
    connection was asked for, [hc_permits] the sessions told to send. *)
Record httpclient := mk_hc {
  hc_uri : uri;
  hc_ssl : bool;
  hc_max_connections : Z;
  hc_task_timeout : Z;
  hc_next_taskid : Z;
  hc_tasks : gmap Z http_callback;
  hc_idle : gset Z;
  hc_busy : gmap Z Z;
  hc_pending : list Z;
  hc_sessions : gmap Z session;
  hc_finished : list http_callback;
  hc_connects : Z;
  hc_permits : list Z;
}.

Definition hc_with_tasks m (c : httpclient) := mk_hc (hc_uri c) (hc_ssl c) (hc_max_connections c) (hc_task_timeout c)
  (hc_next_taskid c) m (hc_idle c) (hc_busy c) (hc_pending c) (hc_sessions c) (hc_finished c) (hc_connects c) (hc_permits c).
Definition hc_with_next n (c : httpclient) := mk_hc (hc_uri c) (hc_ssl c) (hc_max_connections c) (hc_task_timeout c)
  n (hc_tasks c) (hc_idle c) (hc_busy c) (hc_pending c) (hc_sessions c) (hc_finished c) (hc_connects c) (hc_permits c).
Definition hc_with_connections idle busy pending (c : httpclient) := mk_hc (hc_uri c) (hc_ssl c) (hc_max_connections c)
  (hc_task_timeout c) (hc_next_taskid c) (hc_tasks c) idle busy pending (hc_sessions c) (hc_finished c) (hc_connects c) (hc_permits c).
Definition hc_with_sessions m (c : httpclient) := mk_hc (hc_uri c) (hc_ssl c) (hc_max_connections c) (hc_task_timeout c)
  (hc_next_taskid c) (hc_tasks c) (hc_idle c) (hc_busy c) (hc_pending c) m (hc_finished c) (hc_connects c) (hc_permits c).
Definition hc_finish ts (c : httpclient) := mk_hc (hc_uri c) (hc_ssl c) (hc_max_connections c) (hc_task_timeout c)
  (hc_next_taskid c) (hc_tasks c) (hc_idle c) (hc_busy c) (hc_pending c) (hc_sessions c) (hc_finished c ++ ts) (hc_connects c)
  (hc_permits c).
Definition hc_connect (c : httpclient) := mk_hc (hc_uri c) (hc_ssl c) (hc_max_connections c) (hc_task_timeout c)
  (hc_next_taskid c) (hc_tasks c) (hc_idle c) (hc_busy c) (hc_pending c) (hc_sessions c) (hc_finished c) (hc_connects c + 1)
  (hc_permits c).
Definition hc_permit_send sid (c : httpclient) := mk_hc (hc_uri c) (hc_ssl c) (hc_max_connections c) (hc_task_timeout c)
  (hc_next_taskid c) (hc_tasks c) (hc_idle c) (hc_busy c) (hc_pending c) (hc_sessions c) (hc_finished c) (hc_connects c)
  (hc_permits c ++ [sid]).

Abbreviation HC := (M httpclient).

(** [*idle.begin()]: the set is ordered. *)
Definition set_begin (s : gset Z) : option Z :=
  match elements s with [] => None | x :: l => Some (fold_left Z.min l x) end.

Section httpclient.
(** The build, and the order in which an unordered map of headers is gone through. *)
Variable reentrant : bool.
Variable order : headers -> list (list byte * list byte).

(** ** httpsession_manager *)

Definition send_request_nolock (sid : Z) (req : httprequest) : HC unit :=
  c ← get;
  match hc_sessions c !! sid with
  | None => mret tt
  | Some ses =>
      let '(os, r) := httprequest_encode (order (hp_headers (hq_http req))) req os_null in
      _ ← lift r;
      let w := ses_writeos ses in
      if os_size os >? octets_free_space (os_data w) then mret tt
      else
        d ← lift (octets_append (os_data w) (o_buf (os_data os)) (os_size os));
        put (hc_permit_send sid
          (hc_with_sessions
             (<[sid := ses_with_write (ses_write_offset ses) (os_with_data d w) (ses_writebuf ses) ses]> (hc_sessions c)) c))
  end.

(** ** Tasks *)

Definition find_task (taskid : Z) : HC (option http_callback) := c ← get; mret (hc_tasks c !! taskid).

(** [finish_task]: with threads the task is handed to the pool, without them it
    is run and destroyed; then it leaves the table. *)
Definition finish_task (task : http_callback) : HC unit :=
  modify (hc_finish [task]);;
  modify (fun c => hc_with_tasks (delete (cb_taskid task) (hc_tasks c)) c).

Definition start_task (now : Z) (req : httprequest) (timeout : Z) : HC unit :=
  c ← get;
  let taskid := u64 (hc_next_taskid c + 1) in
  let task := http_callback_new taskid req (now + timeout) in
  put (hc_with_connections (hc_idle c) (hc_busy c) (hc_pending c ++ [taskid])
         (hc_with_tasks (match hc_tasks c !! taskid with Some _ => hc_tasks c | None => <[taskid := task]> (hc_tasks c) end)
            (hc_with_next taskid c))).

(** [http_check_timeouts]: the tasks whose time has come, each out of the table and
    finished.  The numbers that wait in [pending] stay there. *)
Definition http_check_timeouts (now : Z) : HC unit :=
  c ← get;
  let late (t : http_callback) := cb_timeout t <=? now in
  put (hc_finish ((fun kt => cb_set_status HTTP_STATUS_REQUEST_TIMEOUT kt.2) <$>
                     filter (fun kt => late kt.2 = true) (map_to_list (hc_tasks c)))
         (hc_with_tasks (filter (fun kt => late kt.2 = false) (hc_tasks c)) c)).

(** ** Connections *)

Definition try_new_connection : HC unit :=
  c ← get;
  if negb (hc_max_connections c =? 0) && negb (Z.of_nat (size (hc_sessions c)) <? hc_max_connections c) then mret tt
  else modify hc_connect.

(** The loop of [advance_all]: a waiting request and an idle connection, while
    there are both. *)
Fixpoint advance_loop (fuel : nat) : HC unit :=
  c ← get;
  match fuel, hc_pending c, set_begin (hc_idle c) with
  | S fuel, taskid :: pending, Some sid =>
      put (hc_with_connections (hc_idle c ∖ {[sid]}) (hc_busy c) pending c);;
      task ← find_task taskid;
      match task with
      | None => fail (AssertFail "task")
      | Some task =>
          match hc_sessions c !! sid with
          | Some _ =>
              send_request_nolock sid (cb_req task);;
              modify (fun c => hc_with_connections (hc_idle c) (<[sid := taskid]> (hc_busy c)) (hc_pending c) c)
          | None => mret tt
          end;;
          advance_loop fuel
      end
  | _, _, _ => mret tt
  end.

(** [advance_all]; the condition for a new connection asks that [pending] is
    both empty and not. *)
Definition advance_all (now : Z) : HC unit :=
  http_check_timeouts now;;
  c ← get;
  advance_loop (length (hc_pending c));;
  c ← get;
  if negb (bool_decide (hc_pending c = [])) && bool_decide (hc_pending c = []) then try_new_connection else mret tt.

(** Told of a session; with threads the lock is the caller's own. *)
Definition on_add_session (now sid : Z) : HC unit :=
  if reentrant then fail (Blocked "lock held by the thread itself")
  else
    modify (fun c => hc_with_connections ({[sid]} ∪ hc_idle c) (hc_busy c) (hc_pending c) c);;
    advance_all now.

Definition on_del_session (now sid : Z) : HC unit :=
  if reentrant then fail (Blocked "lock held by the thread itself")
  else
    modify (fun c => hc_with_connections (hc_idle c ∖ {[sid]}) (delete sid (hc_busy c)) (hc_pending c) c);;
    advance_all now.

(** [session_manager::add_session_nolock] and [del_session_nolock], of a client:
    a session whose number is taken is deleted. *)
Definition client_add_session_nolock (now sid : Z) (ses : session) : HC unit :=
  c ← get;
  match hc_sessions c !! sid with
  | Some _ => mret tt
  | None => put (hc_with_sessions (<[sid := ses]> (hc_sessions c)) c);; on_add_session now sid
  end.
Definition client_del_session_nolock (now sid : Z) : HC unit :=
  modify (fun c => hc_with_sessions (delete sid (hc_sessions c)) c);;
  on_del_session now sid.

Definition recycle_connection (sid : Z) (is_keepalive : bool) : HC unit :=
  if is_keepalive then
    modify (fun c => hc_with_connections ({[sid]} ∪ hc_idle c) (hc_busy c) (hc_pending c) c)
  else
    modify (fun c => hc_with_sessions (alter (session_set_close SESSION_CLOSE_REASON_LOCAL) sid (hc_sessions c)) c).

(** The task is destroyed before the next statement of the caller, which then
    reads a request that is gone: always without threads, and with them when the
    pool is that fast, [pool_first]. *)
Definition handle_response (now sid : Z) (rsp : httpresponse) (pool_first : bool) : HC unit :=
  c ← get;
  match hc_busy c !! sid with
  | None => mret tt
  | Some taskid =>
      match hc_tasks c !! taskid with
      | None =>
          put (hc_with_connections (hc_idle c) (delete sid (hc_busy c)) (hc_pending c) c);;
          recycle_connection sid (hp_is_keepalive (hr_http rsp))
      | Some task =>
          _ ← lift (httpresponse_dump (order (hp_headers (hr_http rsp))) rsp);
          finish_task (cb_set_status (hr_status rsp) (cb_set_response rsp task));;
          modify (fun c => hc_with_connections (hc_idle c) (delete sid (hc_busy c)) (hc_pending c) c);;
          (if negb reentrant || pool_first then fail (UB "request used after it was destroyed") else mret tt);;
          recycle_connection sid (hp_is_keepalive (hq_http (cb_req task)) && hp_is_keepalive (hr_http rsp));;
          advance_all now
      end
  end.

(** ** Requests *)

(** The headers of the user, [connection] taken out. *)
Fixpoint add_headers (hs : list (list byte * list byte)) (has_host : bool) (h : httpprotocol)
    : outcome (bool * httpprotocol) :=
  match hs with
  | [] => Ok (has_host, h)
  | (key, value) :: hs =>
      if strcasecmp_eq key (str "connection") then
        add_headers hs has_host
          (if strcasecmp_eq value (str "keep-alive")
           then hp_with_flags (hp_is_chunked h) (hp_is_websocket h) true h else h)
      else
        let has_host := if negb has_host && strcasecmp_eq key (str "host") then negb (bool_decide (value = [])) else has_host in
        h ← set_header key value h;
        add_headers hs has_host h
  end.

Definition build_request (method : HTTP_METHOD) (x : uri) (hs : list (list byte * list byte)) (body : list byte)
    : outcome httprequest :=
  let h := set_body body (set_version HTTP_VERSION_1_1 httpprotocol_new) in
  r ← add_headers hs false h;
  let '(has_host, h) := r in
  h ← (if (has_host : bool) then Ok h else set_header (str "host") (uri_host x) h);
  Ok (mk_request (set_body body h) (Some method) (uri_get_path x) (uri_query x) (uri_fragment x) ∅ ∅ ∅).

(** What is done under the lock with the request built. *)
Definition submit_request (now : Z) (req : httprequest) (timeout : Z) : HC unit :=
  c ← get;
  start_task now req (if 0 <? timeout then timeout else hc_task_timeout c);;
  advance_all now.

Definition send_request_uri (now : Z) (method : HTTP_METHOD) (x : uri) (timeout : Z)
    (hs : list (list byte * list byte)) (body : list byte) : HC Z :=
  c ← get;
  if negb (uri_is_valid x) then mret HTTP_RESULT_INVALID_URL
  else if bool_decide (uri_schema x = str "https") && negb (hc_ssl c) then mret HTTP_RESULT_SSL_NOT_ENABLED
  else
    req ← lift (build_request method x hs body);
    submit_request now req timeout;;
    mret HTTP_RESULT_OK.

Definition send_request (now : Z) (method : HTTP_METHOD) (path : list byte) (timeout : Z)
    (hs : list (list byte * list byte)) (body : list byte) : HC Z :=
  match path with
  | [] => mret HTTP_RESULT_INVALID_URL
  | _ =>
      c ← get;
      send_request_uri now method (uri_with_tail path (uri_query (hc_uri c)) (uri_fragment (hc_uri c)) (hc_uri c))
        timeout hs body
  end.
End httpclient.

(** ** Invariant

    [n] requests were made. *)

Record hc_inv (n : Z) (c : httpclient) : Prop := {
  hci_next : hc_next_taskid c = n /\ 0 <= n < 2 ^ 64;
  hci_ids : forall k t, hc_tasks c !! k = Some t -> cb_taskid t = k;
  hci_once : (map_to_list (hc_tasks c)).*1 ++ (cb_taskid <$> hc_finished c) ≡ₚ seqZ 1 n;
  hci_sids : hc_idle c ∪ dom (hc_busy c) ⊆ dom (hc_sessions c);
  hci_apart : hc_idle c ## dom (hc_busy c);
  hci_carried : NoDup (hc_pending c ++ (map_to_list (hc_busy c)).*2) /\
    forall k, k ∈ hc_pending c ++ (map_to_list (hc_busy c)).*2 -> 1 <= k <= n;
  hci_connects : hc_connects c = 0;
}.

Definition hc_keeps {X} (n : Z) (m : HC X) : Prop :=
  forall c, hc_inv n c -> hc_inv n (m c).1.

Lemma hc_keeps_bind {X Y} n (m : HC X) (k : X -> HC Y) :
  hc_keeps n m -> (forall x, hc_keeps n (k x)) -> hc_keeps n (m ≫= k).
Proof.
  intros Hm Hk c Hc. specialize (Hm c Hc). unfold mbind, M_bind. destruct (m c) as [c' [x|e|f]]; cbn in *; [|done..].
  by apply Hk.
Qed.

Lemma hc_keeps_get {X} n (k : httpclient -> HC X) :
  (forall c, hc_inv n c -> hc_inv n (k c c).1) -> hc_keeps n (c ← get; k c).
Proof. intros H c Hc. by apply H. Qed.

Lemma hc_keeps_ret {X} n (x : X) : hc_keeps n (mret x).
Proof. by intros c. Qed.
Lemma hc_keeps_fail {X} n f : hc_keeps n (fail f : HC X).
Proof. by intros c. Qed.
Lemma hc_keeps_lift {X} n (o : outcome X) : hc_keeps n (lift o).
Proof. by intros c. Qed.
Lemma hc_keeps_modify n f : (forall c, hc_inv n c -> hc_inv n (f c)) -> hc_keeps n (modify f).
Proof. intros H c Hc. by apply H. Qed.

(** Nothing the invariant speaks of is changed. *)
Lemma inv_sessions n m c : dom (hc_sessions c) ⊆ dom m -> hc_inv n c -> hc_inv n (hc_with_sessions m c).
Proof. intros Hm []. split; cbn; try done. set_solver. Qed.
Lemma inv_permit n sid c : hc_inv n c -> hc_inv n (hc_permit_send sid c).
Proof. intros []. by split. Qed.

Lemma inv_idle n sid c :
  hc_inv n c -> sid ∈ dom (hc_sessions c) -> hc_busy c !! sid = None ->
  hc_inv n (hc_with_connections ({[sid]} ∪ hc_idle c) (hc_busy c) (hc_pending c) c).
Proof.
  intros [Hn Hi Ho Hs Ha Hc Hx] HA Hb. split; cbn; try done; [set_solver|].
  apply not_elem_of_dom in Hb. set_solver.
Qed.

Lemma values_delete (m : gmap Z Z) k v :
  m !! k = Some v -> (map_to_list m).*2 ≡ₚ v :: (map_to_list (delete k m)).*2.
Proof. intros Hk. rewrite <- (map_to_list_delete m k v Hk). done. Qed.

Lemma keys_delete {V} (m : gmap Z V) k v :
  m !! k = Some v -> (map_to_list m).*1 ≡ₚ k :: (map_to_list (delete k m)).*1.
Proof. intros Hk. rewrite <- (map_to_list_delete m k v Hk). done. Qed.

(** A connection is no longer busy. *)
Lemma inv_unbusy n sid c :
  hc_inv n c -> hc_inv n (hc_with_connections (hc_idle c) (delete sid (hc_busy c)) (hc_pending c) c).
Proof.
  intros [Hn Hi Ho Hs Ha [Hc1 Hc2] Hx]. split; cbn; try done.
  - rewrite dom_delete_L. set_solver.
  - rewrite dom_delete_L. set_solver.
  - destruct (hc_busy c !! sid) as [v|] eqn:E; [|by rewrite delete_id].
    pose proof (values_delete _ _ _ E) as Hp. split.
    + rewrite Hp, (Permutation_app_comm (hc_pending c)) in Hc1. cbn in Hc1. apply NoDup_cons in Hc1 as [_ Hc1].
      by rewrite Permutation_app_comm.
    + intros k Hk. apply Hc2. rewrite Hp. rewrite !elem_of_app in *. destruct Hk as [?|?]; [by left|right; by right].
Qed.

(** A waiting request goes to an idle connection. *)
Lemma inv_take n c taskid pending sid :
  hc_inv n c -> hc_pending c = taskid :: pending ->
  hc_inv n (hc_with_connections (hc_idle c ∖ {[sid]}) (hc_busy c) pending c).
Proof.
  intros [Hn Hi Ho Hs Ha [Hc1 Hc2] Hx] Hp. rewrite Hp in Hc1, Hc2. split; cbn; try done; [set_solver..|]. split.
  - cbn in Hc1. by apply NoDup_cons in Hc1 as [_ ?].
  - intros k Hk. apply Hc2. by right.
Qed.

Lemma inv_busy n c taskid sid :
  hc_inv n c -> sid ∈ dom (hc_sessions c) -> sid ∉ hc_idle c -> hc_busy c !! sid = None ->
  taskid ∉ hc_pending c ++ (map_to_list (hc_busy c)).*2 -> 1 <= taskid <= n ->
  hc_inv n (hc_with_connections (hc_idle c) (<[sid := taskid]> (hc_busy c)) (hc_pending c) c).
Proof.
  intros [Hn Hi Ho Hs Ha [Hc1 Hc2] Hx] HA Hni Hnb Hnt Hr.
  assert ((map_to_list (<[sid := taskid]> (hc_busy c))).*2 ≡ₚ taskid :: (map_to_list (hc_busy c)).*2) as Hp.
  { by rewrite map_to_list_insert. }
  split; cbn; try done.
  - rewrite dom_insert_L. set_solver.
  - rewrite dom_insert_L. set_solver.
  - split.
    + rewrite Hp, Permutation_app_comm. cbn. apply NoDup_cons. rewrite Permutation_app_comm. done.
    + intros k. rewrite Hp, elem_of_app, elem_of_cons. intros [?|[->|?]]; [|done|]; apply Hc2; rewrite elem_of_app; auto.
Qed.

Section operations.
Variable reentrant : bool.
Variable order : headers -> list (list byte * list byte).

(** Sending touches the session and nothing else. *)
Lemma send_frame sid req c :
  exists m ps, dom m = dom (hc_sessions c) /\ (send_request_nolock order sid req c).1 =
    mk_hc (hc_uri c) (hc_ssl c) (hc_max_connections c) (hc_task_timeout c) (hc_next_taskid c) (hc_tasks c)
      (hc_idle c) (hc_busy c) (hc_pending c) m (hc_finished c) (hc_connects c) ps.
Proof.
  unfold send_request_nolock. rewrite M_get.
  assert (exists m ps, dom m = dom (hc_sessions c) /\ c = mk_hc (hc_uri c) (hc_ssl c) (hc_max_connections c) (hc_task_timeout c) (hc_next_taskid c)
    (hc_tasks c) (hc_idle c) (hc_busy c) (hc_pending c) m (hc_finished c) (hc_connects c) ps) as Hsame.
  { exists (hc_sessions c), (hc_permits c). split; [done|]. by destruct c. }
  destruct (hc_sessions c !! sid) as [ses|] eqn:Es; [|exact Hsame].
  destruct (httprequest_encode _ req os_null) as [os [u| |]]; [|exact Hsame..].
  cbn -[octets_append]. destruct (_ >? _); [exact Hsame|].
  destruct (octets_append _ _ _) as [d| |]; [|exact Hsame..].
  cbn. apply elem_of_dom_2 in Es. eexists _, _. split; [|reflexivity]. set_solver.
Qed.

Lemma map_to_list_filtered {V} (P : Z * V -> Prop) `{!forall x, Decision (P x)} (m : gmap Z V) :
  map_to_list (filter P m) ≡ₚ filter P (map_to_list m).
Proof.
  apply NoDup_Permutation; [apply NoDup_map_to_list|apply NoDup_filter, NoDup_map_to_list|].
  intros [k v]. rewrite elem_of_map_to_list, map_lookup_filter_Some, list_elem_of_filter, elem_of_map_to_list. tauto.
Qed.

Lemma hc_keeps_http_check_timeouts n now : hc_keeps n (http_check_timeouts now).
Proof.
  intros c [Hn Hi Ho Hs Ha Hc Hx]. unfold http_check_timeouts. rewrite M_get. unfold put.
  split; cbn [fst hc_finish hc_with_tasks hc_tasks hc_finished]; try done.
  - intros k t Hk. apply map_lookup_filter_Some in Hk as [Hk _]. by apply Hi.
  - rewrite <- Ho. rewrite fmap_app, (Permutation_app_comm (cb_taskid <$> hc_finished c)), app_assoc.
    apply Permutation_app_tail. rewrite map_to_list_filtered, <- list_fmap_compose.
    assert (forall l : list (Z * http_callback), (forall kt, kt ∈ l -> cb_taskid kt.2 = kt.1) ->
      (filter (fun kt => (cb_timeout kt.2 <=? now) = false) l).*1 ++
      ((cb_taskid ∘ fun kt => cb_set_status HTTP_STATUS_REQUEST_TIMEOUT kt.2) <$>
         filter (fun kt => (cb_timeout kt.2 <=? now) = true) l) ≡ₚ l.*1) as Hsplit.
    { induction l as [|kt l IH]; intros Hl; [done|]. rewrite !filter_cons.
      pose proof (Hl kt ltac:(by left)) as Hk. specialize (IH (fun x Hx => Hl x ltac:(by right))).
      destruct kt as [k t]. cbn [fst snd] in *. subst k. destruct (cb_timeout t <=? now).
      - rewrite decide_False, decide_True by done. rewrite !fmap_cons. cbn [compose cb_set_status cb_taskid snd].
        rewrite <- IH. by rewrite Permutation_middle.
      - rewrite decide_True, decide_False by done. rewrite !fmap_cons. cbn [fst app]. by rewrite IH. }
    apply Hsplit. intros [k t] Hkt. apply elem_of_map_to_list in Hkt. by apply Hi.
Qed.

Lemma set_begin_in (s : gset Z) x : set_begin s = Some x -> x ∈ s.
Proof.
  unfold set_begin. destruct (elements s) as [|y l] eqn:E; [done|]. intros [= <-].
  apply elem_of_elements. rewrite E.
  assert (forall z, fold_left Z.min l z ∈ z :: l) as H; [|apply H].
  clear. induction l as [|w l IH]; intros z; cbn; [by left|].
  specialize (IH (Z.min z w)). apply elem_of_cons in IH as [->|IH]; [|by right; right].
  destruct (Z.min_spec z w) as [[_ ->]|[_ ->]]; [by left|right; by left].
Qed.

Lemma hc_keeps_advance_loop n fuel : hc_keeps n (advance_loop order fuel).
Proof.
  induction fuel as [|fuel IH]; apply hc_keeps_get; intros c Hc; [done|].
  destruct (hc_pending c) as [|taskid pending] eqn:Ep; [done|].
  destruct (set_begin (hc_idle c)) as [sid|] eqn:Es; [|done]. apply set_begin_in in Es.
  pose proof (inv_take _ _ _ _ sid Hc Ep) as Hc1.
  assert (sid ∈ dom (hc_sessions c)) as HA by (pose proof (hci_sids _ _ Hc); set_solver).
  assert (hc_busy c !! sid = None) as Hb.
  { apply not_elem_of_dom. pose proof (hci_apart _ _ Hc). set_solver. }
  destruct (hci_carried _ _ Hc) as [Hnd Hrange]. rewrite Ep in Hnd, Hrange. cbn in Hnd.
  apply NoDup_cons in Hnd as [Hfresh _]. pose proof (Hrange taskid ltac:(by left)) as Hr.
  revert Hc1. set (c1 := hc_with_connections (hc_idle c ∖ {[sid]}) (hc_busy c) pending c). intros Hc1.
  change (hc_inv n ((task ← find_task taskid;
      match task with
      | None => fail (AssertFail "task")
      | Some task => match hc_sessions c !! sid with
                     | Some _ => send_request_nolock order sid (cb_req task);;
                                 modify (fun c => hc_with_connections (hc_idle c) (<[sid := taskid]> (hc_busy c)) (hc_pending c) c)
                     | None => mret tt end;; advance_loop order fuel end) c1).1).
  destruct (hc_tasks c1 !! taskid) as [task|] eqn:Et.
  2: { unfold find_task. mrun. cbn. change (hc_tasks c1) with (hc_tasks c) in Et. by rewrite Et. }
  rewrite (M_bind_ok _ _ c1 c1 (Some task)) by (unfold find_task; mrun; by rewrite Et).
  destruct (hc_sessions c !! sid) as [ses|]; [|by apply IH].
  destruct (send_frame sid (cb_req task) c1) as (m & ps & Hdom & Esend).
  assert (hc_inv n (send_request_nolock order sid (cb_req task) c1).1) as Hc2.
  { rewrite Esend. apply (inv_sessions _ m) in Hc1; [|by rewrite Hdom]. destruct Hc1. by split. }
  unfold mbind, M_bind. destruct (send_request_nolock order sid (cb_req task) c1) as [c2 [u|e|f]]; [|done..].
  cbn [fst] in *. apply IH. apply inv_busy; try done; rewrite Esend; cbn; [by rewrite Hdom|set_solver|done|done].
Qed.

Lemma hc_keeps_advance_all n now : hc_keeps n (advance_all order now).
Proof.
  apply hc_keeps_bind; [apply hc_keeps_http_check_timeouts|]. intros _. apply hc_keeps_get. intros c0 Hc0.
  revert Hc0. apply hc_keeps_bind; [apply hc_keeps_advance_loop|]. intros _. apply hc_keeps_get. intros c Hc.
  by destruct (bool_decide (hc_pending c = [])).
Qed.

Lemma hc_keeps_recycle n sid b c :
  hc_inv n c -> sid ∈ dom (hc_sessions c) -> hc_busy c !! sid = None -> hc_inv n (recycle_connection sid b c).1.
Proof. intros Hc HA Hb. unfold recycle_connection. destruct b; [by apply inv_idle|apply inv_sessions; [by rewrite dom_alter_L|done]]. Qed.

(** A task leaves the table and is finished. *)
Lemma inv_finish n c taskid task task' :
  hc_inv n c -> hc_tasks c !! taskid = Some task -> cb_taskid task' = cb_taskid task ->
  hc_inv n (finish_task task' c).1.
Proof.
  intros [Hn Hi Ho Hs Ha Hc Hx] Ht Et. pose proof (Hi _ _ Ht) as Eid. rewrite <- Eid in Ht.
  unfold finish_task. mrun. rewrite Et. split; cbn [fst hc_with_tasks hc_finish hc_tasks hc_finished]; try done.
  - intros k t Hk. apply lookup_delete_Some in Hk as [_ Hk]. by apply Hi.
  - rewrite fmap_app, fmap_cons, fmap_nil, Et, <- Ho, (keys_delete _ _ _ Ht). solve_Permutation.
Qed.

Lemma hc_keeps_handle_response n now sid rsp first : hc_keeps n (handle_response reentrant order now sid rsp first).
Proof.
  apply hc_keeps_get. intros c Hc. destruct (hc_busy c !! sid) as [taskid|] eqn:Eb; [|done].
  assert (sid ∈ dom (hc_sessions c)) as HA. { pose proof (hci_sids _ _ Hc). apply elem_of_dom_2 in Eb. set_solver. }
  destruct (hc_tasks c !! taskid) as [task|] eqn:Et.
  - revert c Hc Eb Et HA. intros c0 Hc0 Eb Et HA. unfold lift, mbind at 1, M_bind at 1.
    destruct (httpresponse_dump _ _) as [text| |]; [|done..]. rename c0 into c, Hc0 into Hc.
    pose proof (inv_finish _ _ _ _ (cb_set_status (hr_status rsp) (cb_set_response rsp task)) Hc Et eq_refl) as Hf.
    set (c1 := (finish_task (cb_set_status (hr_status rsp) (cb_set_response rsp task)) c).1) in *.
    pose proof (inv_unbusy _ sid _ Hf) as Hu.
    set (c2 := hc_with_connections (hc_idle c1) (delete sid (hc_busy c1)) (hc_pending c1) c1) in *.
    change (hc_inv n (((if negb reentrant || first then fail (UB "request used after it was destroyed") else mret tt);;
      recycle_connection sid (hp_is_keepalive (hq_http (cb_req task)) && hp_is_keepalive (hr_http rsp));;
      advance_all order now) c2).1).
    destruct (negb reentrant || first); [done|].
    pose proof (hc_keeps_recycle n sid (hp_is_keepalive (hq_http (cb_req task)) && hp_is_keepalive (hr_http rsp)) c2
      Hu HA ltac:(cbn; apply lookup_delete_eq)) as Hr.
    revert Hr. unfold mbind, M_bind, mret, M_ret.
    destruct (recycle_connection _ _ c2) as [c3 [u|e|f]]; [|done..]. apply hc_keeps_advance_all.
  - apply (inv_unbusy _ sid) in Hc. apply (hc_keeps_recycle _ sid _ _ Hc HA). cbn. apply lookup_delete_eq.
Qed.

(** The invariant, but for the sessions: of an operation that never ended. *)
Definition hc_told (n : Z) (c : httpclient) : Prop := exists m, hc_inv n (hc_with_sessions m c).

Lemma told_inv n c : hc_inv n c -> hc_told n c.
Proof. intros Hc. exists (hc_sessions c). by destruct c. Qed.

Lemma hc_keeps_del_session n now sid c : hc_inv n c ->
  let r := client_del_session_nolock reentrant order now sid c in hc_told n r.1 /\ (r.2 = Ok tt -> hc_inv n r.1).
Proof.
  intros Hc. unfold client_del_session_nolock, on_del_session. destruct reentrant.
  - mrun. cbn. split; [|done]. exists (hc_sessions c). by destruct c.
  - assert (hc_inv n (hc_with_connections (hc_idle c ∖ {[sid]}) (delete sid (hc_busy c)) (hc_pending c)
      (hc_with_sessions (delete sid (hc_sessions c)) c))) as Hd.
    { apply (inv_unbusy _ sid) in Hc. destruct Hc as [Hn Hi Ho Hs Ha Hc Hx]. cbn in *. split; cbn; try done; set_solver. }
    pose proof (hc_keeps_advance_all n now _ Hd) as Hk. split; [apply told_inv|intros _]; exact Hk.
Qed.

Lemma hc_keeps_add_session n now sid ses : hc_keeps n (client_add_session_nolock reentrant order now sid ses).
Proof.
  apply hc_keeps_get. intros c Hc. destruct (hc_sessions c !! sid) as [old|] eqn:Es; [done|].
  assert (hc_inv n (hc_with_sessions (<[sid := ses]> (hc_sessions c)) c)) as Hc'.
  { apply inv_sessions; [set_solver|done]. }
  unfold on_add_session. destruct reentrant; [exact Hc'|]. mrun. apply hc_keeps_advance_all.
  apply inv_idle; [done|cbn; set_solver|]. cbn. apply not_elem_of_dom. apply not_elem_of_dom in Es.
  pose proof (hci_sids _ _ Hc). set_solver.
Qed.

Lemma hc_keeps_submit n now req timeout c :
  hc_inv n c -> n + 1 < 2 ^ 64 -> hc_inv (n + 1) (submit_request order now req timeout c).1.
Proof.
  intros [[Hn Hr] Hi Ho Hs Ha [Hc1 Hc2] Hx] Hlt. unfold submit_request. rewrite M_get.
  unfold start_task at 1. mrun. apply hc_keeps_advance_all.
  rewrite Hn, wrapU_small by (unfold inU; lia).
  assert (hc_tasks c !! (n + 1) = None) as Hnew.
  { destruct (hc_tasks c !! (n + 1)) as [t|] eqn:E; [|done].
    assert (n + 1 ∈ seqZ 1 n) as Hin; [|apply elem_of_seqZ in Hin; lia].
    rewrite <- Ho. apply elem_of_app. left. apply list_elem_of_fmap. exists (n + 1, t). split; [done|].
    by apply elem_of_map_to_list. }
  rewrite Hnew. split; cbn; try done.
  - split; [done|lia].
  - intros k t Hk. apply lookup_insert_Some in Hk as [[<- <-]|[_ Hk]]; [done|by apply Hi].
  - rewrite map_to_list_insert by done. cbn. rewrite Ho. rewrite seqZ_app by lia.
    rewrite (seqZ_cons (1 + n) 1), (seqZ_nil (Z.succ (1 + n))), (Z.add_comm 1 n) by lia. solve_Permutation.
  - split.
    + rewrite <- app_assoc. apply NoDup_app. apply NoDup_app in Hc1 as (H1 & H2 & H3). split; [done|]. split.
      * intros k Hk. cbn. rewrite elem_of_cons. intros [->|H]; [|by eapply H2].
        pose proof (Hc2 (n + 1) ltac:(rewrite elem_of_app; by left)). lia.
      * apply NoDup_cons. split; [|done]. intros H. pose proof (Hc2 (n + 1) ltac:(rewrite elem_of_app; by right)). lia.
    + intros k. rewrite !elem_of_app, list_elem_of_singleton. intros [[?| ->]|?]; [|lia|];
        (enough (1 <= k <= n) by lia); apply Hc2; rewrite elem_of_app; auto.
Qed.

(** The client's operations, each with its clock. *)
Inductive hc_op :=
  | OpAdd (now sid : Z) (ses : session)
  | OpDel (now sid : Z)
  | OpSubmit (now : Z) (req : httprequest) (timeout : Z)
  | OpResponse (now sid : Z) (rsp : httpresponse) (pool_first : bool)
  | OpTimeouts (now : Z).

Definition hc_step (op : hc_op) : HC unit :=
  match op with
  | OpAdd now sid ses => client_add_session_nolock reentrant order now sid ses
  | OpDel now sid => client_del_session_nolock reentrant order now sid
  | OpSubmit now req timeout => submit_request order now req timeout
  | OpResponse now sid rsp first => handle_response reentrant order now sid rsp first
  | OpTimeouts now => http_check_timeouts now
  end.

Fixpoint hc_run (ops : list hc_op) : HC unit :=
  match ops with [] => mret tt | op :: ops => hc_step op;; hc_run ops end.

Definition hc_new (x : uri) (ssl : bool) (max_connections task_timeout : Z) : httpclient :=
  mk_hc x ssl max_connections task_timeout 0 ∅ ∅ ∅ [] ∅ [] 0 [].

Definition hc_submitted (op : hc_op) : Z := match op with OpSubmit _ _ _ => 1 | _ => 0 end.
Definition total_submitted (ops : list hc_op) : Z := foldr (fun op n => hc_submitted op + n) 0 ops.

Lemma inv_new x ssl mx tt : hc_inv 0 (hc_new x ssl mx tt).
Proof. split; cbn; try done; [set_solver..|]. split; [apply NoDup_nil_2|]. intros k Hk. by apply not_elem_of_nil in Hk. Qed.

Lemma inv_step n op c : hc_inv n c -> n + hc_submitted op < 2 ^ 64 ->
  hc_told (n + hc_submitted op) (hc_step op c).1 /\
  ((hc_step op c).2 = Ok tt -> hc_inv (n + hc_submitted op) (hc_step op c).1).
Proof.
  intros Hc Hn. assert (forall k d, hc_inv k d -> hc_told k d /\ ((hc_step op c).2 = Ok tt -> hc_inv k d)) as Hboth.
  { intros k d Hd. split; [by apply told_inv|done]. }
  destruct op as [now sid ses|now sid|now req timeout|now sid rsp first|now];
    cbn [hc_submitted hc_step] in *; rewrite ?Z.add_0_r.
  - by apply Hboth, hc_keeps_add_session.
  - by apply hc_keeps_del_session.
  - by apply Hboth, hc_keeps_submit.
  - by apply Hboth, hc_keeps_handle_response.
  - by apply Hboth, hc_keeps_http_check_timeouts.
Qed.

(** A run ends, done or not, after some number [n] of its requests. *)
Lemma inv_run ops n c : hc_inv n c -> n + total_submitted ops < 2 ^ 64 ->
  exists n', hc_told n' (hc_run ops c).1 /\ n <= n' <= n + total_submitted ops /\
    ((hc_run ops c).2 = Ok tt -> n' = n + total_submitted ops).
Proof.
  revert n c. induction ops as [|op ops IH]; intros n c Hc Hn; cbn [hc_run total_submitted foldr] in *.
  { exists n. split; [by apply told_inv|]. lia. }
  fold (total_submitted ops) in *.
  assert (0 <= hc_submitted op) by (by destruct op).
  assert (0 <= total_submitted ops) by (unfold total_submitted; clear; induction ops as [|[] ?]; cbn in *; lia).
  destruct (inv_step n op c Hc ltac:(lia)) as [Ht Hs].
  unfold mbind, M_bind. destruct (hc_step op c) as [c' [[]|e|f]]; cbn [fst snd] in *.
  - destruct (IH _ c' (Hs eq_refl)) as (n' & Hc' & Hr & Hok); [lia|]. exists n'. split; [done|]. split; [lia|].
    intros H'. specialize (Hok H'). lia.
  - eexists. split; [exact Ht|]. split; [lia|done].
  - eexists. split; [exact Ht|]. split; [lia|done].
Qed.
End operations.

(** C22 — In either build, and whatever the client goes through, to its end, to a
    fault or to an operation that never ends, with fewer than 2^64 requests and
    callbacks that leave the client alone: every request it numbered is in exactly
    one place, in the table of tasks or finished (handed to the pool, or run and
    destroyed), and under its own number; a connection is idle or busy, never
    both; no request waits twice, is carried by two connections or both waits
    and is carried; and no connection was ever asked for, the condition of
    [advance_all] being false. *)
Theorem http_client_exactly_once reentrant order x ssl mx tt ops :
  total_submitted ops < 2 ^ 64 ->
  let (c, o) := hc_run reentrant order ops (hc_new x ssl mx tt) in
  (map_to_list (hc_tasks c)).*1 ++ (cb_taskid <$> hc_finished c) ≡ₚ seqZ 1 (hc_next_taskid c) /\
  (o = Ok () -> hc_next_taskid c = total_submitted ops) /\
  hc_idle c ## dom (hc_busy c) /\ NoDup (hc_pending c ++ (map_to_list (hc_busy c)).*2) /\
  hc_connects c = 0.
Proof.
  intros Hn.
  destruct (inv_run reentrant order ops 0 _ (inv_new x ssl mx tt)) as (n & (m & Hc) & Hr & Ht); [lia|].
  destruct (hc_run reentrant order ops (hc_new x ssl mx tt)) as [c o]. cbn in *.
  destruct Hc as [[Hnext _] Hi Ho Hs Ha [Hc1 _] Hx]. cbn in *. subst n. auto.
Qed.

Definition demo_keepalive : httpprotocol :=
  hp_with_flags false false true (set_version HTTP_VERSION_1_1 httpprotocol_new).
Definition demo_get : httprequest := mk_request demo_keepalive (Some HTTP_METHOD_GET) (str "/") [] [] ∅ ∅ ∅.
Definition demo_client_session : session :=
  mk_session 7 5 SESSION_STATE_ACTIVE SESSION_CLOSE_REASON_NONE 0 9 true os_null octets_null 0
    (mk_os (mk_octets (repeat None 256) 0 256) 0 0) octets_null.
(** Without threads: two requests, one connection, which is closed while it
    carries the first and comes again under the same number, as the connections
    of HTTP do, for the second; then both are too late. *)
Definition demo_ops : list hc_op :=
  [OpSubmit 0 demo_get 5; OpAdd 1 0 demo_client_session; OpSubmit 2 demo_get 3; OpDel 3 0;
   OpAdd 3 0 demo_client_session; OpTimeouts 100].
Definition demo_run : httpclient * outcome unit := hc_run false map_to_list demo_ops (hc_new demo_uri true 0 10).

Lemma http_client_exactly_once_witness :
  demo_run.2 = Ok tt /\ ((fun t => (cb_taskid t, cb_status t)) <$> hc_finished demo_run.1) = [(2, 408); (1, 408)] /\
  hc_permits demo_run.1 = [0; 0] /\
  let (c, o) := demo_run in
  (map_to_list (hc_tasks c)).*1 ++ (cb_taskid <$> hc_finished c) ≡ₚ seqZ 1 (hc_next_taskid c) /\
  (o = Ok () -> hc_next_taskid c = total_submitted demo_ops) /\
  hc_idle c ## dom (hc_busy c) /\ NoDup (hc_pending c ++ (map_to_list (hc_busy c)).*2) /\
  hc_connects c = 0.
Proof.
  split; [by vm_compute|]. split; [by vm_compute|]. split; [by vm_compute|].
  apply (http_client_exactly_once false map_to_list demo_uri true 0 10 demo_ops). by vm_compute.
Defined.

(** Without threads every response that is answered in time reads the request its
    task has just destroyed. *)
Definition demo_answer_ops : list hc_op :=
  [OpSubmit 0 demo_get 5; OpAdd 1 0 demo_client_session;
   OpResponse 3 0 (mk_response demo_keepalive 200 [] []) false].

Lemma response_reads_destroyed_request :
  let r := hc_run false map_to_list demo_answer_ops (hc_new demo_uri true 0 10) in
  r.2 = Fault (UB "request used after it was destroyed") /\
  ((fun t => (cb_taskid t, cb_status t)) <$> hc_finished r.1) = [(1, 200)].
Proof. by vm_compute. Qed.

(** With threads the client's first session is the end of it. *)
Lemma client_session_blocks :
  (hc_run true map_to_list demo_answer_ops (hc_new demo_uri true 0 10)).2
  = Fault (Blocked "lock held by the thread itself").
Proof. by vm_compute. Qed.

(** A waiting request whose time is over is taken out of the table, and not out
    of [pending]: the next connection aborts the program. *)
Definition demo_timeout_ops : list hc_op :=
  [OpSubmit 0 demo_get 5; OpTimeouts 6; OpAdd 7 0 demo_client_session].

Lemma pending_timeout_aborts :
  (hc_run false map_to_list demo_timeout_ops (hc_new demo_uri true 0 10)).2 = Fault (AssertFail "task").
Proof. by vm_compute. Qed.

(** A request without headers of its own is never sent: the [host] header is
    written behind the end of an empty string. *)
Lemma send_request_undefined order now method path timeout body c :
  path <> [] -> uri_is_valid (uri_with_tail path (uri_query (hc_uri c)) (uri_fragment (hc_uri c)) (hc_uri c)) = true ->
  uri_host (hc_uri c) <> [] -> hc_ssl c = true ->
  exists what, send_request order now method path timeout [] body c = (c, Fault (UB what)).
Proof.
  intros Hp Hv Hh Hs. unfold send_request. destruct path as [|b path]; [done|]. rewrite M_get.
  unfold send_request_uri. rewrite M_get, Hv, Hs, andb_false_r. cbn -[uri_with_tail set_header].
  destruct (uri_host (hc_uri c)) as [|x h] eqn:Eh; [done|].
  cbn [uri_with_tail uri_host]. rewrite ?Eh. eexists. cbn. reflexivity.
Qed.
