(* ===== verification/Servlet.v ===== *)
(** The HTTP server and its servlets (source/bee/http/httpserver.h,
    httpserver.cpp, internal/servlet.h, internal/servlet.cpp,
    internal/httpsession_manager.cpp, servlets/config_servlet.cpp).

    The dispatcher keeps a prototype per path and per pattern and hands out
    copies of them.  A request becomes a task: a copy that the server knows under
    a number and the thread pool runs and destroys.  A servlet is its class; the
    objects of the server live in a heap, from which they disappear. *)

From S2P Require Import Prelude Octets Marshal Session Text Uri Http Config.

Definition HTTP_STATUS_NOT_FOUND : Z := 404.
Definition HTTP_STATUS_INTERNAL_SERVER_ERROR : Z := 500.
Definition HTTP_STATUS_SERVICE_UNAVAILABLE : Z := 503.

(** What a handler does with its response, in order: it changes it, or replies. *)
Inductive servlet_act :=
  | SvSet (f : httpresponse -> outcome httpresponse)
  | SvReply (content_type : HTTP_CONTENT_TYPE) (result : list byte).

Definition servlet_handler := httprequest -> httpresponse -> outcome (list servlet_act * Z).

Section Servlets.
(** The servlets of the application: what they do and how they are copied. *)
Context {U : Type}.
Variable user_handle : U -> servlet_handler.
Variable user_dup : U -> U.
(** [fnmatch(pattern, string, 0) == 0] of the C library. *)
Variable fnmatch : list byte -> list byte -> bool.

Inductive servlet_class :=
  | FunctionServlet (cbk : httprequest -> httpresponse -> outcome (list (httpresponse -> outcome httpresponse) * Z))
  | ConfigServlet
  | NotFoundServlet (name content : list byte)
  | UserServlet (u : U).

Definition not_found_servlet (name : list byte) : servlet_class :=
  NotFoundServlet name
    (str "<html><head><title>404 Not Found</title></head><body><center><h1>404 Not Found</h1></center><hr><center>"
     ++ name ++ str "</center></body></html>").

Definition servlet_dup (srv : servlet_class) : servlet_class :=
  match srv with UserServlet u => UserServlet (user_dup u) | _ => srv end.

(** ** The dispatcher *)

Record servlet_dispatcher := mk_dispatcher {
  sd_default : servlet_class;
  sd_servlets : gmap (list byte) servlet_class;
  sd_glob_servlets : list (list byte * servlet_class);
}.

Definition servlet_dispatcher_new : servlet_dispatcher :=
  mk_dispatcher (not_found_servlet (str "cassobee/1.0.0")) ∅ [].

Definition add_servlet (u : list byte) (srv : servlet_class) (d : servlet_dispatcher) : servlet_dispatcher :=
  mk_dispatcher (sd_default d) (<[u := srv]> (sd_servlets d)) (sd_glob_servlets d).
Definition add_glob_servlet (u : list byte) (srv : servlet_class) (d : servlet_dispatcher) : servlet_dispatcher :=
  mk_dispatcher (sd_default d) (sd_servlets d) (sd_glob_servlets d ++ [(u, srv)]).
Definition del_servlet (u : list byte) (d : servlet_dispatcher) : servlet_dispatcher :=
  mk_dispatcher (sd_default d) (delete u (sd_servlets d)) (sd_glob_servlets d).
Definition del_glob_servlet (u : list byte) (d : servlet_dispatcher) : servlet_dispatcher :=
  mk_dispatcher (sd_default d) (sd_servlets d) (filter (fun pair => pair.1 <> u) (sd_glob_servlets d)).

Definition get_servlet (u : list byte) (d : servlet_dispatcher) : option servlet_class :=
  servlet_dup <$> sd_servlets d !! u.
Definition glob_matches (u : list byte) (pair : list byte * servlet_class) : bool :=
  fnmatch (c_string pair.1) (c_string u).
Definition get_glob_servlet (u : list byte) (d : servlet_dispatcher) : option servlet_class :=
  (fun hit => servlet_dup hit.2.2) <$> list_find (fun pair => glob_matches u pair = true) (sd_glob_servlets d).
Definition get_matched_servlet (u : list byte) (d : servlet_dispatcher) : option servlet_class :=
  match sd_servlets d !! u with
  | Some srv => Some (servlet_dup srv)
  | None => (fun hit => servlet_dup hit.2.2) <$> list_find (fun pair => glob_matches u pair = true) (sd_glob_servlets d)
  end.

Definition servlet_dispatcher_dup (d : servlet_dispatcher) : servlet_dispatcher :=
  mk_dispatcher (servlet_dup (sd_default d)) (servlet_dup <$> sd_servlets d)
    ((fun pair => (pair.1, servlet_dup pair.2)) <$> sd_glob_servlets d).

(** ** The server *)

(** A task: [sv_req], with the session it came from, and [sv_rsp] are its own
    and go with it. *)
Record servlet := mk_servlet {
  sv_class : servlet_class;
  sv_taskid : Z;
  sv_timeout : Z;
  sv_sid : Z;
  sv_req : httprequest;
  sv_rsp : httpresponse;
}.
Definition sv_with_rsp rsp (t : servlet) : servlet :=
  mk_servlet (sv_class t) (sv_taskid t) (sv_timeout t) (sv_sid t) (sv_req t) rsp.

(** Tasks are known by their address in [hv_heap], which a destroyed task has
    left; [hv_queue] is with the thread pool; [hv_finished] are the numbers that
    were answered, [hv_permits] the sessions told to send. *)
Record httpserver := mk_hv {
  hv_dispatcher : servlet_dispatcher;
  hv_next_taskid : Z;
  hv_task_timeout : Z;
  hv_tasks : gmap Z positive;
  hv_heap : gmap positive servlet;
  hv_next_address : positive;
  hv_sessions : gmap Z session;
  hv_queue : list positive;
  hv_finished : list Z;
  hv_permits : list Z;
}.
Abbreviation HV := (M httpserver).

Definition hv_with_tasks m (s : httpserver) := mk_hv (hv_dispatcher s) (hv_next_taskid s) (hv_task_timeout s) m
  (hv_heap s) (hv_next_address s) (hv_sessions s) (hv_queue s) (hv_finished s) (hv_permits s).
Definition hv_with_heap m (s : httpserver) := mk_hv (hv_dispatcher s) (hv_next_taskid s) (hv_task_timeout s) (hv_tasks s)
  m (hv_next_address s) (hv_sessions s) (hv_queue s) (hv_finished s) (hv_permits s).
Definition hv_with_queue q (s : httpserver) := mk_hv (hv_dispatcher s) (hv_next_taskid s) (hv_task_timeout s) (hv_tasks s)
  (hv_heap s) (hv_next_address s) (hv_sessions s) q (hv_finished s) (hv_permits s).
Definition hv_finish taskid (s : httpserver) := mk_hv (hv_dispatcher s) (hv_next_taskid s) (hv_task_timeout s) (hv_tasks s)
  (hv_heap s) (hv_next_address s) (hv_sessions s) (hv_queue s) (hv_finished s ++ [taskid]) (hv_permits s).
Definition hv_send sid ses (s : httpserver) := mk_hv (hv_dispatcher s) (hv_next_taskid s) (hv_task_timeout s) (hv_tasks s)
  (hv_heap s) (hv_next_address s) (<[sid := ses]> (hv_sessions s)) (hv_queue s) (hv_finished s) (hv_permits s ++ [sid]).

Section httpserver.
Variable order : headers -> list (list byte * list byte).
Variable cfg : SECTION_MAP.

Definition send_response_nolock (sid : Z) (ses : session) (rsp : httpresponse) : HV unit :=
  let '(os, r) := httpresponse_encode (order (hp_headers (hr_http rsp))) rsp os_null in
  _ ← lift r;
  let w := ses_writeos ses in
  if os_size os >? octets_free_space (os_data w) then mret tt
  else
    d ← lift (octets_append (os_data w) (o_buf (os_data os)) (os_size os));
    modify (hv_send sid (ses_with_write (ses_write_offset ses) (os_with_data d w) (ses_writebuf ses) ses)).

(** Reading and writing a task behind its address. *)
Definition servlet_at (a : positive) : HV servlet :=
  s ← get; match hv_heap s !! a with Some t => mret t | None => fail (UB "use of a destroyed servlet") end.
Definition set_rsp (a : positive) (rsp : httpresponse) : HV unit :=
  t ← servlet_at a; modify (fun s => hv_with_heap (<[a := sv_with_rsp rsp t]> (hv_heap s)) s).

Definition answer (a : positive) : HV unit :=
  t ← servlet_at a; s ← get;
  match hv_sessions s !! sv_sid t with
  | Some ses => send_response_nolock (sv_sid t) ses (sv_rsp t)
  | None => mret tt
  end.

(** [set_header] and [set_body] of a response. *)
Definition rsp_set (key value body : list byte) (rsp : httpresponse) : outcome httpresponse :=
  h ← set_header key value (hr_http rsp); Ok (hr_with_http (set_body body h) rsp).

Definition on_finish (a : positive) (content_type : HTTP_CONTENT_TYPE) (result : list byte) : HV unit :=
  t ← servlet_at a;
  (if bool_decide (result = []) then mret tt
   else rsp ← lift (rsp_set (str "Content-Type") (http_content_type_to_string content_type) result (sv_rsp t)); set_rsp a rsp);;
  answer a.

Definition get_retcode_message (retcode : Z) : list byte :=
  if retcode =? 0 then str "OK" else if 0 <? retcode then http_status_to_string retcode else http_result_to_string retcode.

(** [on_error] and [on_timeout], but for the status. *)
Definition answer_status (a : positive) (status : Z) : HV unit :=
  t ← servlet_at a;
  rsp ← lift (rsp_set (str "Content-Type") (http_content_type_to_string HTTP_CONTENT_TYPE_PLAIN)
                (get_retcode_message status) (hr_with_status status (sv_rsp t)));
  set_rsp a rsp;;
  answer a.
Definition on_error (a : positive) : HV unit := answer_status a HTTP_STATUS_INTERNAL_SERVER_ERROR.
Definition on_timeout (a : positive) : HV unit := answer_status a HTTP_STATUS_SERVICE_UNAVAILABLE.

(** [finish_task], which every [reply] comes to. *)
Definition server_finish_task (taskid : Z) (content_type : HTTP_CONTENT_TYPE) (result : list byte) : HV unit :=
  s ← get;
  match hv_tasks s !! taskid with
  | None => mret tt
  | Some a =>
      put (hv_finish taskid (hv_with_tasks (delete taskid (hv_tasks s)) s));;
      on_finish a content_type result
  end.

Definition not_found_handle (content : list byte) (rsp : httpresponse) : outcome httpresponse :=
  let rsp := hr_with_status HTTP_STATUS_NOT_FOUND rsp in
  h ← set_header (str "Server") (str "cassobee/1.0.0") (hr_http rsp);
  h ← set_header (str "Content-Type") (str "txt/html") h;
  Ok (hr_with_http (set_body content h) rsp).

(** [handle] of each class of servlets. *)
Definition servlet_handle (srv : servlet_class) (req : httprequest) (rsp : httpresponse) : outcome (list servlet_act * Z) :=
  match srv with
  | FunctionServlet cbk => r ← cbk req rsp; Ok (map SvSet r.1, r.2)
  | ConfigServlet =>
      section ← get_param (str "section") req;
      key ← get_param (str "key") req;
      Ok ([SvSet (fun rsp => Ok (hr_with_status 200 rsp));
           SvReply HTTP_CONTENT_TYPE_PLAIN (config_get_other section key [] cfg)], 0)
  | NotFoundServlet _ content => Ok ([SvSet (not_found_handle content)], 0)
  | UserServlet u => user_handle u req rsp
  end.

Fixpoint servlet_acts (a : positive) (acts : list servlet_act) : HV unit :=
  match acts with
  | [] => mret tt
  | SvSet f :: acts => t ← servlet_at a; rsp ← lift (f (sv_rsp t)); set_rsp a rsp;; servlet_acts a acts
  | SvReply content_type result :: acts =>
      t ← servlet_at a; server_finish_task (sv_taskid t) content_type result;; servlet_acts a acts
  end.

Definition servlet_run (a : positive) : HV unit :=
  t ← servlet_at a;
  r ← lift (servlet_handle (sv_class t) (sv_req t) (sv_rsp t));
  servlet_acts a r.1;;
  if r.2 =? 0 then mret tt else on_error a.

Definition servlet_destroy (a : positive) : HV unit := modify (fun s => hv_with_heap (delete a (hv_heap s)) s).

(** A thread of the pool runs the next task and destroys it. *)
Definition pool_turn : HV unit :=
  s ← get;
  match hv_queue s with
  | [] => mret tt
  | a :: q => put (hv_with_queue q s);; servlet_run a;; servlet_destroy a
  end.

Definition server_start_task (now sid : Z) (req : httprequest) (rsp : httpresponse) : HV unit :=
  s ← get;
  match get_matched_servlet (hq_path req) (hv_dispatcher s) with
  | None => mret tt
  | Some srv =>
      let taskid := u64 (hv_next_taskid s + 1) in
      let a := hv_next_address s in
      let t := mk_servlet srv taskid (now + hv_task_timeout s) sid req rsp in
      put (mk_hv (hv_dispatcher s) taskid (hv_task_timeout s)
             (match hv_tasks s !! taskid with Some _ => hv_tasks s | None => <[taskid := a]> (hv_tasks s) end)
             (<[a := t]> (hv_heap s)) (Pos.succ a) (hv_sessions s) (hv_queue s ++ [a]) (hv_finished s) (hv_permits s))
  end.

Definition cookie_keys : list (list byte) :=
  [str "sessionid"; str "token"; str "username"; str "password"; str "email"; str "phone"; str "address"; str "city";
   str "state"].

(** [expires] is the formatted time of expiry. *)
Fixpoint copy_cookies (expires : list byte) (keys : list (list byte)) (req : httprequest) (rsp : httpresponse)
    : outcome httpresponse :=
  match keys with
  | [] => Ok rsp
  | key :: keys =>
      rsp ← (match hq_cookies req !! key with
             | Some _ => value ← get_cookie key req; Ok (set_cookie key value (Some expires) (str "/") [] true true rsp)
             | None => Ok rsp
             end);
      copy_cookies expires keys req rsp
  end.

Definition handle_request (now sid : Z) (expires : list byte) (req : httprequest) : HV unit :=
  let rsp := hr_with_http (match hp_version (hq_http req) with
                           | Some v => set_version v httpprotocol_new | None => httpprotocol_new end) httpresponse_new in
  h ← lift (set_header (str "server") (str "httpserver") (hr_http rsp));
  rsp ← lift (copy_cookies expires cookie_keys req (hr_with_http h rsp));
  _ ← lift (httprequest_dump (order (hp_headers (hq_http req))) req);
  server_start_task now sid req rsp.

(** [check_timeouts] over the tasks in the order of the table. *)
Fixpoint server_timeouts_over (now : Z) (tasks : list (Z * positive)) : HV unit :=
  match tasks with
  | [] => mret tt
  | (taskid, a) :: tasks =>
      t ← servlet_at a;
      (if now >=? sv_timeout t then
         on_timeout a;; modify (fun s => hv_with_tasks (delete taskid (hv_tasks s)) s)
       else mret tt);;
      server_timeouts_over now tasks
  end.
Definition server_check_timeouts (task_order : gmap Z positive -> list (Z * positive)) (now : Z) : HV unit :=
  s ← get; server_timeouts_over now (task_order (hv_tasks s)).
End httpserver.

(** What was registered and withdrawn. *)
Inductive dispatcher_op :=
  | AddServlet (u : list byte) (srv : servlet_class)
  | AddGlob (u : list byte) (srv : servlet_class)
  | DelServlet (u : list byte)
  | DelGlob (u : list byte).

Definition dispatcher_step (d : servlet_dispatcher) (op : dispatcher_op) : servlet_dispatcher :=
  match op with
  | AddServlet u srv => add_servlet u srv d
  | AddGlob u srv => add_glob_servlet u srv d
  | DelServlet u => del_servlet u d
  | DelGlob u => del_glob_servlet u d
  end.
Definition dispatcher_run (ops : list dispatcher_op) : servlet_dispatcher :=
  foldl dispatcher_step servlet_dispatcher_new ops.

Definition about_path (u : list byte) (op : dispatcher_op) : bool :=
  match op with AddServlet v _ | DelServlet v => bool_decide (v = u) | _ => false end.
Definition del_glob_of (u : list byte) (op : dispatcher_op) : bool :=
  match op with DelGlob v => bool_decide (v = u) | _ => false end.

(** The registration at place [i] of the history holds: of a path when nothing
    about the path follows, of a pattern when it is not withdrawn. *)
Definition path_holds (ops : list dispatcher_op) (i : nat) (u : list byte) (srv : servlet_class) : Prop :=
  ops !! i = Some (AddServlet u srv) /\ Forall (fun op => about_path u op = false) (drop (S i) ops).
Definition glob_holds (ops : list dispatcher_op) (i : nat) (pat : list byte) (srv : servlet_class) : Prop :=
  ops !! i = Some (AddGlob pat srv) /\ Forall (fun op => del_glob_of pat op = false) (drop (S i) ops).

Lemma dispatcher_run_snoc ops op : dispatcher_run (ops ++ [op]) = dispatcher_step (dispatcher_run ops) op.
Proof. unfold dispatcher_run. by rewrite foldl_app. Qed.

Lemma snoc_cases (ops : list dispatcher_op) op i x :
  (ops ++ [op]) !! i = Some x -> i = length ops /\ x = op \/ (i < length ops)%nat /\ ops !! i = Some x.
Proof.
  intros H. apply lookup_app_Some in H as [H|[Hi H]]; [right; split; [by eapply lookup_lt_Some|done]|left].
  apply list_lookup_singleton_Some in H as [H <-]. split; [lia|done].
Qed.

Lemma drop_snoc {A} (l : list A) x i : (i < length l)%nat -> drop (S i) (l ++ [x]) = drop (S i) l ++ [x].
Proof. intros. apply drop_app_le. lia. Qed.

Lemma path_holds_snoc ops op i u srv :
  path_holds (ops ++ [op]) i u srv <->
  i = length ops /\ op = AddServlet u srv \/ path_holds ops i u srv /\ about_path u op = false.
Proof.
  unfold path_holds. split.
  - intros [Hi Hf]. apply snoc_cases in Hi as [[-> ->]|[Hlt Hi]]; [by left|right].
    rewrite drop_snoc in Hf by done. apply Forall_app in Hf as [Hf Ho]. rewrite Forall_singleton in Ho. done.
  - intros [[-> ->]|[[Hi Hf] Ho]].
    + rewrite lookup_app_r, Nat.sub_diag by lia. split; [done|].
      rewrite drop_ge by (rewrite length_app; cbn; lia). constructor.
    + pose proof (lookup_lt_Some _ _ _ Hi). rewrite lookup_app_l, drop_snoc by done. split; [done|].
      apply Forall_app. split; [done|]. by apply Forall_singleton.
Qed.

Lemma path_holds_unique ops u i j srv srv' : path_holds ops i u srv -> path_holds ops j u srv' -> srv = srv'.
Proof.
  assert (forall i j srv srv', path_holds ops i u srv -> path_holds ops j u srv' -> ~ (i < j)%nat) as Hlt.
  { intros a b x y [_ Hf] [Hb _] H. eapply (Forall_lookup_1 _ _ (b - S a)) in Hf.
    2: { rewrite lookup_drop. replace (S a + (b - S a))%nat with b by lia. exact Hb. }
    cbn in Hf. by rewrite bool_decide_eq_true_2 in Hf. }
  intros Hi Hj. assert (i = j) as <-.
  { pose proof (Hlt _ _ _ _ Hi Hj). pose proof (Hlt _ _ _ _ Hj Hi). lia. }
  destruct Hi as [Hi _], Hj as [Hj _]. congruence.
Qed.

Lemma exact_spec ops u :
  match sd_servlets (dispatcher_run ops) !! u with
  | Some srv => exists i, path_holds ops i u srv
  | None => forall i srv, ~ path_holds ops i u srv
  end.
Proof.
  induction ops as [|op ops IH] using rev_ind.
  { cbn. rewrite lookup_empty. intros i srv [H _]. by rewrite lookup_nil in H. }
  rewrite dispatcher_run_snoc.
  assert (about_path u op = false -> match sd_servlets (dispatcher_run ops) !! u with
    | Some srv => exists i, path_holds (ops ++ [op]) i u srv
    | None => forall i srv, ~ path_holds (ops ++ [op]) i u srv
    end) as Hother.
  { intros Ho. destruct (sd_servlets (dispatcher_run ops) !! u) as [srv|].
    - destruct IH as [i Hi]. exists i. apply path_holds_snoc. by right.
    - intros i srv H. apply path_holds_snoc in H as [[_ ->]|[H _]]; [|by eapply IH].
      cbn in Ho. by rewrite bool_decide_eq_true_2 in Ho. }
  destruct op as [v srv|v srv|v|v]; cbn [dispatcher_step add_servlet add_glob_servlet del_servlet del_glob_servlet sd_servlets];
    [|by apply Hother| |by apply Hother]; destruct (decide (v = u)) as [->|Hne].
  - rewrite lookup_insert_eq. exists (length ops). apply path_holds_snoc. by left.
  - rewrite lookup_insert_ne by done. apply Hother. cbn. by apply bool_decide_eq_false_2.
  - rewrite lookup_delete_eq. intros i srv H. apply path_holds_snoc in H as [[_ ?]|[_ H]]; [done|].
    cbn in H. by rewrite bool_decide_eq_true_2 in H.
  - rewrite lookup_delete_ne by done. apply Hother. cbn. by apply bool_decide_eq_false_2.
Qed.

(** The patterns that were not withdrawn, in their order. *)
Fixpoint live_globs (ops : list dispatcher_op) : list (list byte * servlet_class) :=
  match ops with
  | AddGlob pat srv :: ops => if existsb (del_glob_of pat) ops then live_globs ops else (pat, srv) :: live_globs ops
  | _ :: ops => live_globs ops
  | [] => []
  end.

Lemma live_globs_snoc ops op :
  live_globs (ops ++ [op]) =
  match op with
  | AddGlob pat srv => live_globs ops ++ [(pat, srv)]
  | DelGlob v => filter (fun pair => pair.1 <> v) (live_globs ops)
  | _ => live_globs ops
  end.
Proof.
  induction ops as [|o ops IH]; [by destruct op|].
  destruct o as [v srv|v srv|v|v]; cbn [app live_globs]; rewrite ?IH; try done.
  rewrite existsb_app. destruct (existsb (del_glob_of v) ops); cbn [orb]; [done|].
  destruct op as [w srv'|w srv'|w|w]; try done. rewrite filter_cons. cbn [existsb del_glob_of orb fst].
  destruct (decide (w = v)) as [->|Hne].
  - rewrite bool_decide_eq_true_2 by done. by rewrite decide_False by (intros H; by apply H).
  - rewrite bool_decide_eq_false_2 by done. by rewrite decide_True by congruence.
Qed.

Lemma globs_spec ops : sd_glob_servlets (dispatcher_run ops) = live_globs ops.
Proof.
  induction ops as [|op ops IH] using rev_ind; [done|].
  rewrite dispatcher_run_snoc, live_globs_snoc. by destruct op; cbn; rewrite IH.
Qed.

Lemma existsb_false_Forall {A} (f : A -> bool) l : existsb f l = false <-> Forall (fun x => f x = false) l.
Proof.
  induction l as [|x l IH]; cbn; [split; [constructor|done]|]. rewrite orb_false_iff, IH, Forall_cons. done.
Qed.

Lemma first_glob ops u :
  match list_find (fun pair => glob_matches u pair = true) (live_globs ops) with
  | Some (_, (pat, srv)) => exists i, glob_holds ops i pat srv /\ glob_matches u (pat, srv) = true /\
      forall j pat' srv', (j < i)%nat -> glob_holds ops j pat' srv' -> glob_matches u (pat', srv') = false
  | None => forall i pat srv, glob_holds ops i pat srv -> glob_matches u (pat, srv) = false
  end.
Proof.
  unfold glob_holds. induction ops as [|op ops IH]; cbn; [intros i pat srv [H _]; by rewrite lookup_nil in H|].
  assert ((forall pat srv, op = AddGlob pat srv -> Forall (fun op => del_glob_of pat op = false) ops -> glob_matches u (pat, srv) = false) ->
    match list_find (fun pair => glob_matches u pair = true) (live_globs ops) with
    | Some (_, (pat, srv)) => exists i, ((op :: ops) !! i = Some (AddGlob pat srv) /\ Forall (fun op => del_glob_of pat op = false) (drop i ops)) /\
        glob_matches u (pat, srv) = true /\
        forall j pat' srv', (j < i)%nat -> (op :: ops) !! j = Some (AddGlob pat' srv') /\
          Forall (fun op => del_glob_of pat' op = false) (drop j ops) -> glob_matches u (pat', srv') = false
    | None => forall i pat srv, (op :: ops) !! i = Some (AddGlob pat srv) /\
        Forall (fun op => del_glob_of pat op = false) (drop i ops) -> glob_matches u (pat, srv) = false
    end) as Hskip.
  { intros Hop. destruct (list_find _ _) as [[k [pat srv]]|].
    - destruct IH as (i & Hi & Hm & Hb). exists (S i). split; [done|]. split; [done|].
      intros [|j] pat' srv' Hj [H1 H2]; [injection H1 as H1; by eapply Hop|]. eapply (Hb j); [lia|done].
    - intros [|i] pat srv [H1 H2]; [injection H1 as H1; by eapply Hop|by eapply IH]. }
  destruct op as [v srv|v srv|v|v]; try (apply Hskip; by intros ?? [=]).
  destruct (existsb (del_glob_of v) ops) eqn:E.
  { apply Hskip. intros pat srv' [= -> ->] H. apply existsb_false_Forall in H. congruence. }
  apply existsb_false_Forall in E. cbn. destruct (glob_matches u (v, srv)) eqn:Em.
  - rewrite decide_True by done. exists 0%nat. split; [done|]. split; [done|]. lia.
  - rewrite decide_False by done.
    assert (forall pat srv', AddGlob v srv = AddGlob pat srv' -> Forall (fun op => del_glob_of pat op = false) ops ->
      glob_matches u (pat, srv') = false) as Hop by (by intros ?? [= <- <-]).
    specialize (Hskip Hop). by destruct (list_find _ _) as [[k [pat srv']]|].
Qed.

(** C25 — The dispatcher answers by the history of registrations: the copy of the
    servlet last registered for the path itself, if it is not withdrawn; else of
    the first of the registered patterns not withdrawn that matches; else
    nothing, the default servlet not being asked. *)
Theorem dispatcher_matches_history ops u :
  (forall i srv, path_holds ops i u srv -> get_matched_servlet u (dispatcher_run ops) = Some (servlet_dup srv)) /\
  ((forall i srv, ~ path_holds ops i u srv) ->
   (forall i pat srv, glob_holds ops i pat srv -> fnmatch (c_string pat) (c_string u) = true ->
      (forall j pat' srv', (j < i)%nat -> glob_holds ops j pat' srv' -> fnmatch (c_string pat') (c_string u) = false) ->
      get_matched_servlet u (dispatcher_run ops) = Some (servlet_dup srv)) /\
   ((forall i pat srv, glob_holds ops i pat srv -> fnmatch (c_string pat) (c_string u) = false) ->
      get_matched_servlet u (dispatcher_run ops) = None)).
Proof.
  unfold get_matched_servlet. rewrite globs_spec. pose proof (exact_spec ops u) as He. pose proof (first_glob ops u) as Hg.
  destruct (sd_servlets (dispatcher_run ops) !! u) as [srv|].
  { destruct He as [i Hi]. split; [|intros H; by destruct (H i srv)].
    intros j srv' Hj. do 2 f_equal. by eapply path_holds_unique. }
  split; [intros i srv H; by destruct (He i srv)|]. intros _.
  destruct (list_find _ _) as [[k [pat srv]]|]; cbn; unfold glob_matches in Hg; cbn in Hg.
  - destruct Hg as (i & Hi & Hm & Hb). split; [|intros H; specialize (H i pat srv Hi); congruence].
    intros j pat' srv' Hj Hm' Hb'. destruct (Nat.lt_trichotomy i j) as [Hlt|[->|Hlt]].
    + specialize (Hb' i pat srv Hlt Hi). congruence.
    + destruct Hi as [Hi _], Hj as [Hj _]. congruence.
    + specialize (Hb j pat' srv' Hlt Hj). congruence.
  - split; [|done]. intros i pat srv Hi Hm. specialize (Hg i pat srv Hi). congruence.
Qed.

(** ** Tasks and their life *)

Section life.
Variable order : headers -> list (list byte * list byte).
Variable cfg : SECTION_MAP.

Fixpoint apply_sets (sets : list (httpresponse -> outcome httpresponse)) (rsp : httpresponse) : outcome httpresponse :=
  match sets with [] => Ok rsp | f :: sets => rsp ← f rsp; apply_sets sets rsp end.

Lemma acts_sets a sets t rsp s :
  hv_heap s !! a = Some t -> apply_sets sets (sv_rsp t) = Ok rsp ->
  servlet_acts order a (map SvSet sets) s = (hv_with_heap (<[a := sv_with_rsp rsp t]> (hv_heap s)) s, Ok tt).
Proof.
  revert s t. induction sets as [|f sets IH]; intros s t Ht Hs; cbn [map servlet_acts apply_sets] in *.
  { injection Hs as <-. destruct t, s. cbn in *. unfold hv_with_heap, sv_with_rsp. cbn. by rewrite insert_id. }
  apply outcome_bind_Ok in Hs as (rsp1 & Hf & Hs).
  rewrite (M_bind_ok _ _ s s t) by (unfold servlet_at; mrun; by rewrite Ht).
  rewrite (M_bind_ok _ _ s s rsp1) by (unfold lift; by rewrite Hf).
  rewrite (M_bind_ok _ _ s (hv_with_heap (<[a := sv_with_rsp rsp1 t]> (hv_heap s)) s) tt)
    by (unfold set_rsp, servlet_at; mrun; by rewrite Ht).
  rewrite (IH _ (sv_with_rsp rsp1 t)); [|cbn; by apply lookup_insert_eq|done].
  unfold hv_with_heap, sv_with_rsp. cbn. by rewrite insert_insert_eq.
Qed.

(** A function servlet, which does not know its number, runs without a reply and
    is destroyed; its number stays in the table, and whoever uses it, to reply
    or for the time, uses a destroyed object. *)
Lemma function_servlet_dangles now sid req rsp rsp' s cbk sets :
  hv_queue s = [] -> get_matched_servlet (hq_path req) (hv_dispatcher s) = Some (FunctionServlet cbk) ->
  hv_tasks s !! u64 (hv_next_taskid s + 1) = None ->
  cbk req rsp = Ok (sets, 0) -> apply_sets sets rsp = Ok rsp' ->
  exists s', (server_start_task now sid req rsp;; pool_turn order cfg) s = (s', Ok tt) /\
    hv_finished s' = hv_finished s /\ hv_permits s' = hv_permits s /\ hv_sessions s' = hv_sessions s /\
    (forall content_type result, (server_finish_task order (hv_next_taskid s') content_type result s').2 =
       Fault (UB "use of a destroyed servlet")) /\
    (forall later, (server_timeouts_over order later [(hv_next_taskid s', hv_next_address s)] s').2 =
       Fault (UB "use of a destroyed servlet")).
Proof.
  intros Hq Hm Hnew Hc Hs. unfold server_start_task. mrun. rewrite Hm, Hnew.
  set (taskid := u64 (hv_next_taskid s + 1)). set (a := hv_next_address s).
  set (t := mk_servlet _ _ _ _ _ _). set (s1 := mk_hv _ _ _ _ _ _ _ _ _ _).
  unfold pool_turn. mrun. cbn [hv_queue s1]. rewrite Hq. cbn [app].
  set (s2 := hv_with_queue [] s1).
  assert (hv_heap s2 !! a = Some t) as Ht by (cbn; by apply lookup_insert_eq).
  assert (servlet_run order cfg a s2 = (hv_with_heap (<[a := sv_with_rsp rsp' t]> (hv_heap s2)) s2, Ok tt)) as ->.
  { unfold servlet_run. rewrite (M_bind_ok _ _ s2 s2 t) by (unfold servlet_at; mrun; by rewrite Ht).
    cbn [servlet_handle sv_class t sv_req sv_rsp].
    rewrite (M_bind_ok _ _ s2 s2 (map SvSet sets, 0)) by (unfold lift; by rewrite Hc).
    cbn [fst snd]. rewrite (M_bind_ok _ _ s2 (hv_with_heap (<[a := sv_with_rsp rsp' t]> (hv_heap s2)) s2) tt); [done|].
    by apply acts_sets. }
  eexists. split; [reflexivity|]. repeat (split; [done|]). split.
  - intros ct result. unfold server_finish_task. mrun. cbn. rewrite lookup_insert_eq.
    unfold on_finish, servlet_at. mrun. cbn. by rewrite lookup_delete_eq.
  - intros later. cbn. unfold servlet_at. mrun. cbn. by rewrite lookup_delete_eq.
Qed.

(** No request is handled: the response's [server] header is written behind the
    end of an empty string. *)
Lemma handle_request_undefined now sid expires req s :
  exists what, handle_request order now sid expires req s = (s, Fault (UB what)).
Proof. by eexists. Qed.

(** A request without a servlet is dropped: neither the default servlet nor an
    answer. *)
Lemma unmatched_request_dropped now sid req rsp s :
  get_matched_servlet (hq_path req) (hv_dispatcher s) = None -> server_start_task now sid req rsp s = (s, Ok tt).
Proof. intros H. unfold server_start_task. mrun. by rewrite H. Qed.

(** The configuration servlet replies with an empty text, whatever it is asked. *)
Lemma config_servlet_empty req rsp acts ret :
  servlet_handle cfg ConfigServlet req rsp = Ok (acts, ret) ->
  exists f, acts = [SvSet f; SvReply HTTP_CONTENT_TYPE_PLAIN []].
Proof.
  cbn. intros H. apply outcome_bind_Ok in H as (section & _ & H). apply outcome_bind_Ok in H as (key & _ & [= <- _]).
  rewrite config_get_string_default. eauto.
Qed.
End life.
End Servlets.

(** Two paths, a pattern, and one of them withdrawn; [fnmatch] with a star at
    the end only. *)
Definition demo_fnmatch (pat s : list byte) : bool :=
  match rev pat with
  | x2a :: pre => bool_decide (take (length pre) s = rev pre)
  | _ => bool_decide (pat = s)
  end.
Definition demo_registrations : list (dispatcher_op (U := Z)) :=
  [AddServlet (str "/_/config") ConfigServlet; AddGlob (str "/a/*") (UserServlet 1);
   AddServlet (str "/a/x") (UserServlet 2); AddGlob (str "/a/b/*") (UserServlet 3); AddServlet (str "/a/y") (UserServlet 4);
   DelServlet (str "/a/y"); DelGlob (str "/a/*")].

Lemma dispatcher_matches_history_witness :
  path_holds demo_registrations 2 (str "/a/x") (UserServlet 2) /\
  glob_holds demo_registrations 3 (str "/a/b/*") (UserServlet 3) /\
  get_matched_servlet Z.succ demo_fnmatch (str "/a/x") (dispatcher_run demo_registrations) = Some (UserServlet 3) /\
  get_matched_servlet Z.succ demo_fnmatch (str "/a/y") (dispatcher_run demo_registrations) = None /\
  get_matched_servlet Z.succ demo_fnmatch (str "/a/b/c") (dispatcher_run demo_registrations) = Some (UserServlet 4).
Proof.
  assert (path_holds demo_registrations 2 (str "/a/x") (UserServlet 2)) as Hp by (split; [done|by repeat constructor]).
  split; [exact Hp|]. split; [split; [done|by repeat constructor]|].
  split; [|split; by vm_compute].
  exact (proj1 (dispatcher_matches_history Z.succ demo_fnmatch demo_registrations (str "/a/x")) 2%nat _ Hp).
Defined.
