(* ===== verification/LogFormat.v ===== *)
(** The log formatter (source/bee/log/log_formatter.h, log_formatter.cpp,
    log_event.h, and the time formatting of common/systemtime.h): a pattern is
    compiled into items, each of which writes its part of a line. *)

From S2P Require Import Prelude Octets Marshal Text.

Definition LOG_LEVEL_TRACE : Z := 0.
Definition LOG_LEVEL_DEBUG : Z := 1.
Definition LOG_LEVEL_INFO : Z := 2.
Definition LOG_LEVEL_WARN : Z := 3.
Definition LOG_LEVEL_ERROR : Z := 4.
Definition LOG_LEVEL_FATAL : Z := 5.

Record log_event := mk_log_event {
  le_process_name : list byte;
  le_filename : list byte;
  le_line : Z;
  le_timestamp : Z;
  le_threadid : Z;
  le_fiberid : Z;
  le_elapse : list byte;
  le_content : list byte;
}.

Inductive format_item :=
  | ItMessage | ItLevel | ItElapse | ItProcname | ItThreadid | ItFiberid | ItDatetime (fmt : list byte)
  | ItFilename | ItLine | ItNewline | ItString (s : list byte) | ItTab.

(** ** Compiling the pattern *)

(** [isalpha] of a [char]: undefined for the negative ones. *)
Definition isalpha (c : byte) : outcome bool :=
  let z := Z_of_byte c in
  if z >=? 128 then Fault (UB "isalpha of a negative value")
  else Ok (((65 <=? z) && (z <=? 90)) || ((97 <=? z) && (z <=? 122))).

Definition char_at_index (p : list byte) (n : Z) : byte := default x00 (p !! Z.to_nat n).

(** The inner loop, from the character behind the percent sign at [i]: where it
    stops, whether inside a format, the name and the format. *)
Fixpoint scan_item (fuel : nat) (p : list byte) (i n fmt_begin : Z) (parse_fmt : bool) (name fmt : list byte)
    : outcome (Z * bool * list byte * list byte) :=
  match fuel with
  | O => Fault OutOfFuel
  | S fuel =>
      if n <? len p then
        let c := char_at_index p n in
        let next := fun n name =>
          let n := n + 1 in
          let name := if (n =? len p) && bool_decide (name = []) then drop (Z.to_nat (i + 1)) p else name in
          scan_item fuel p i n fmt_begin parse_fmt name fmt in
        if parse_fmt then
          if bool_decide (c = x7d) then Ok (n + 1, false, name, slice p (fmt_begin + 1) (n - fmt_begin - 1))
          else next n name
        else
          alpha ← isalpha c;
          if negb alpha && negb (bool_decide (c = x7b)) && negb (bool_decide (c = x7d))
          then Ok (n, false, slice p (i + 1) (n - i - 1), fmt)
          else if bool_decide (c = x7b) then scan_item fuel p i (n + 1) n true (slice p (i + 1) (n - i - 1)) fmt
          else next n name
      else Ok (n, parse_fmt, name, fmt)
  end.

(** What the outer loop collects: a text, a format, whether the text is itself
    to be written; and whether there was an error. *)
Definition pattern_part : Type := list byte * list byte * bool.

Definition flush (nstr : list byte) : list pattern_part :=
  match nstr with [] => [] | _ => [(nstr, [], true)] end.

Fixpoint parse_pattern (fuel : nat) (p : list byte) (i : Z) (nstr : list byte) : outcome (list pattern_part * bool) :=
  match fuel with
  | O => Fault OutOfFuel
  | S fuel =>
      if i <? len p then
        if negb (bool_decide (char_at_index p i = x25)) then parse_pattern fuel p (i + 1) (nstr ++ [char_at_index p i])
        else if (i + 1 <? len p) && bool_decide (char_at_index p (i + 1) = x25) then
          parse_pattern fuel p (i + 1) (nstr ++ [x25])
        else
          r ← scan_item (S (length p)) p i (i + 1) 0 false [] [];
          let '(n, parse_fmt, name, fmt) := r in
          if (parse_fmt : bool) then
            rest ← parse_pattern fuel p (i + 1) nstr;
            Ok ((str "<<pattern_error>>", fmt, true) :: rest.1, true)
          else
            rest ← parse_pattern fuel p n [];
            Ok (flush nstr ++ (name, fmt, false) :: rest.1, rest.2)
      else Ok (flush nstr, false)
  end.

Definition format_items_creators (name fmt : list byte) : option format_item :=
  match name with
  | [x6d] => Some ItMessage   (* m *)
  | [x70] => Some ItLevel     (* p *)
  | [x72] => Some ItElapse    (* r *)
  | [x63] => Some ItProcname  (* c *)
  | [x74] => Some ItThreadid  (* t *)
  | [x6e] => Some ItNewline   (* n *)
  | [x64] => Some (ItDatetime fmt) (* d *)
  | [x66] => Some ItFilename  (* f *)
  | [x6c] => Some ItLine      (* l *)
  | [x54] => Some ItTab       (* T *)
  | [x46] => Some ItFiberid   (* F *)
  | _ => None
  end.

Definition make_item (part : pattern_part) : format_item * bool :=
  let '(key, fmt, isstr) := part in
  if (isstr : bool) then (ItString key, false)
  else match format_items_creators key fmt with
       | Some item => (item, false)
       | None => (ItString (str "<<error_format %" ++ key ++ str ">>"), true)
       end.

Record log_formatter := mk_formatter { lf_error : bool; lf_items : list format_item }.

Definition log_formatter_new (pattern : list byte) : outcome log_formatter :=
  r ← parse_pattern (S (length pattern)) pattern 0 [];
  let made := make_item <$> r.1 in
  Ok (mk_formatter (r.2 || existsb snd made) (fst <$> made)).

(** ** Formatting *)

Section format.
(** [localtime_r] and [strftime] with a buffer as long as needed; the clock. *)
Variable strftime : list byte -> Z -> list byte.
Variable clock : Z.

Definition INVALID_TIME : Z := -1.

(** [format_time] writes into 32 characters; what does not fit leaves them
    indeterminate. *)
Definition format_time (now : Z) (fmt : list byte) : outcome (list byte) :=
  let now := if now =? INVALID_TIME then clock else now in
  let text := strftime (c_string fmt) now in
  if len text <? 32 then Ok text else Fault (UB "contents of the buffer are indeterminate").

Definition level_name (level : Z) : list byte :=
  match level with
  | 0 => str "TRACE" | 1 => str "DEBUG" | 2 => str "INFO" | 3 => str "WARN" | 4 => str "ERROR" | 5 => str "FATAL"
  | _ => str "UNKNOWN"
  end.

Definition item_format (level : Z) (ev : log_event) (item : format_item) : outcome (list byte) :=
  match item with
  | ItMessage => Ok (le_content ev)
  | ItLevel => Ok (level_name level)
  | ItElapse => Ok (le_elapse ev)
  | ItProcname => Ok (le_process_name ev)
  | ItThreadid => Ok (to_string (le_threadid ev))
  | ItFiberid => Ok (to_string (le_fiberid ev))
  | ItDatetime fmt => format_time (s64 (le_timestamp ev)) fmt
  | ItFilename => Ok (le_filename ev)
  | ItLine => Ok (to_string (le_line ev))
  | ItNewline => Ok [x0a]
  | ItString s => Ok s
  | ItTab => Ok [x09]
  end.

Fixpoint format_items (level : Z) (ev : log_event) (items : list format_item) : outcome (list byte) :=
  match items with
  | [] => Ok []
  | item :: items => s ← item_format level ev item; rest ← format_items level ev items; Ok (s ++ rest)
  end.
Definition log_format (f : log_formatter) (level : Z) (ev : log_event) : outcome (list byte) :=
  format_items level ev (lf_items f).
End format.

(** ** What a pattern means *)

Inductive pattern_elem := PeText (s : list byte) | PeItem (c : byte) | PeItemFmt (c : byte) (fmt : list byte).










(** The turns of the inner loop. *)
Section scan.
Context (fuel : nat) (p : list byte) (i n fmt_begin : Z) (name fmt : list byte).






End scan.








(** What each letter stands for, by the comment on the constructor: the content,
    the level, the time run, the name of the program, the thread, a new line, the
    time in a format, the file, the line, a tab, the fiber. *)
Section meaning.
Variables (strftime : list byte -> Z -> list byte) (clock level : Z) (ev : log_event).

Definition event_date (fmt : list byte) : outcome (list byte) :=
  let now := s64 (le_timestamp ev) in
  let text := strftime (c_string fmt) (if now =? -1 then clock else now) in
  if len text <? 32 then Ok text else Fault (UB "contents of the buffer are indeterminate").

Definition letter_text (c : byte) (fmt : list byte) : outcome (list byte) :=
  if bool_decide (c = "m"%byte) then Ok (le_content ev)
  else if bool_decide (c = "p"%byte) then
    Ok (default (str "UNKNOWN")
          (if level <? 0 then None
           else [str "TRACE"; str "DEBUG"; str "INFO"; str "WARN"; str "ERROR"; str "FATAL"] !! Z.to_nat level))
  else if bool_decide (c = "r"%byte) then Ok (le_elapse ev)
  else if bool_decide (c = "c"%byte) then Ok (le_process_name ev)
  else if bool_decide (c = "t"%byte) then Ok (to_string (le_threadid ev))
  else if bool_decide (c = "n"%byte) then Ok [x0a]
  else if bool_decide (c = "d"%byte) then event_date fmt
  else if bool_decide (c = "f"%byte) then Ok (le_filename ev)
  else if bool_decide (c = "l"%byte) then Ok (to_string (le_line ev))
  else if bool_decide (c = "T"%byte) then Ok [x09]
  else Ok (to_string (le_fiberid ev)).

Definition elem_text (e : pattern_elem) : outcome (list byte) :=
  match e with PeText s => Ok s | PeItem c => letter_text c [] | PeItemFmt c fmt => letter_text c fmt end.

Fixpoint pattern_text (es : list pattern_elem) : outcome (list byte) :=
  match es with [] => Ok [] | e :: es => s ← elem_text e; rest ← pattern_text es; Ok (s ++ rest) end.
End meaning.





Definition demo_pattern : list pattern_elem :=
  [PeText (str "["); PeItemFmt x64 (str "%H:%M"); PeText (str "] "); PeItem x70; PeItem x54; PeItem x66; PeText (str ":");
   PeItem x6c; PeText (str " "); PeItem x6d; PeItem x6e].
Definition demo_event : log_event := mk_log_event (str "gameserver") (str "a.cpp") 7 0 1 0 (str "3") (str "hello").
Definition demo_strftime (fmt : list byte) (t : Z) : list byte := if bool_decide (fmt = str "%H:%M") then str "08:00" else [].


Lemma demo_event_line :
  pattern_text demo_strftime 0 LOG_LEVEL_INFO demo_event demo_pattern =
  Ok (str "[08:00] INFO" ++ x09 :: str "a.cpp:7 hello" ++ [x0a]).
Proof. by vm_compute. Qed.

(** ** What does not work *)

(** The doubled percent sign is not a literal one: the second begins an item. *)
Lemma doubled_percent_is_an_item :
  log_formatter_new (str "100%%") = Ok (mk_formatter true [ItString (str "100%"); ItString (str "<<error_format %>>")]) /\
  log_formatter_new (str "%%m") = Ok (mk_formatter false [ItString (str "%"); ItMessage]).
Proof. split; by vm_compute. Qed.

(** A date without a format is written as nothing: the creator passes an empty
    format, and the default of the constructor is never used. *)
Lemma date_without_format_empty strftime clock level ev :
  strftime [] (if s64 (le_timestamp ev) =? INVALID_TIME then clock else s64 (le_timestamp ev)) = [] ->
  exists f, log_formatter_new (str "%d") = Ok f /\ log_format strftime clock f level ev = Ok [].
Proof.
  intros Hs. eexists. split; [by vm_compute|]. unfold log_format. cbn [lf_items format_items item_format].
  unfold format_time. cbn [c_string]. by rewrite Hs.
Qed.

(** An error in a format is reported before the text in front of it. *)
Lemma pattern_error_out_of_order :
  log_formatter_new (str "at %d{%H") = Ok (mk_formatter true
    [ItString (str "<<pattern_error>>"); ItString (str "at d{"); ItString (str "<<error_format %H>>")]).
Proof. by vm_compute. Qed.
