(* ===== verification/LogAppender.v ===== *)
(** Where log lines go (source/bee/log/logger.h, logger.cpp, log_appender.h,
    log_appender.cpp, log_rotator.h, log_rotator.cpp): the logger and its
    appenders, the measurement lines, the rotation of files, and the asynchronous
    appender with its thread. *)

From S2P Require Import Prelude Octets Marshal Text Buffers.

(** ** The logger

    Appenders are known by their address; [lg_live] are the ones not deleted. *)

Section Logger.
Variable order : gmap (list byte) positive -> list (list byte * positive).

Record logger := mk_logger {
  lg_level : Z;
  lg_root_appender : positive;
  lg_appenders : gmap (list byte) positive;
  lg_live : gset positive;
}.
Abbreviation LG := (M logger).

Definition lg_with m live (l : logger) := mk_logger (lg_level l) (lg_root_appender l) m live.

(** A virtual call, or [delete], of an appender. *)
Definition appender_log (a : positive) : LG positive :=
  l ← get; if bool_decide (a ∈ lg_live l) then mret a else fail (UB "use of a deleted appender").
Definition appender_delete (a : positive) : LG unit :=
  l ← get;
  if bool_decide (a ∈ lg_live l) then put (lg_with (lg_appenders l) (lg_live l ∖ {[a]}) l)
  else fail (UB "deleted twice").

Fixpoint log_all (appenders : list (list byte * positive)) : LG (list positive) :=
  match appenders with
  | [] => mret []
  | (_, a) :: appenders => a ← appender_log a; rest ← log_all appenders; mret (a :: rest)
  end.

(** [log]: the appenders that wrote the event. *)
Definition logger_log (level : Z) : LG (list positive) :=
  l ← get;
  if level <? lg_level l then mret []
  else a ← appender_log (lg_root_appender l); rest ← log_all (order (lg_appenders l)); mret (a :: rest).

Definition get_appender (name : list byte) : LG (option positive) := l ← get; mret (lg_appenders l !! name).
Definition add_appender (name : list byte) (a : positive) : LG bool :=
  l ← get;
  match lg_appenders l !! name with
  | Some _ => mret false
  | None => put (lg_with (<[name := a]> (lg_appenders l)) (lg_live l) l);; mret true
  end.
(** [del_appender]: the name stays. *)
Definition del_appender (name : list byte) : LG bool :=
  l ← get;
  match lg_appenders l !! name with
  | Some a => appender_delete a;; mret true
  | None => mret false
  end.
Fixpoint delete_all (appenders : list (list byte * positive)) : LG unit :=
  match appenders with [] => mret tt | (_, a) :: appenders => appender_delete a;; delete_all appenders end.
Definition clr_appender : LG unit :=
  l ← get; delete_all (order (lg_appenders l));; modify (fun l => lg_with ∅ (lg_live l) l).

(** A name deleted is a name that cannot be used again, and the next event is
    written through a dangling pointer, or the next cleaning deletes it again. *)
Lemma del_appender_dangles l name a :
  order {[name := a]} = [(name, a)] ->
  lg_appenders l = {[name := a]} -> a ∈ lg_live l -> lg_root_appender l ∈ lg_live l -> a <> lg_root_appender l ->
  exists l', del_appender name l = (l', Ok true) /\
    (forall b, add_appender name b l' = (l', Ok false)) /\
    (forall level, lg_level l <= level -> (logger_log level l').2 = Fault (UB "use of a deleted appender")) /\
    (clr_appender l').2 = Fault (UB "deleted twice").
Proof.
  intros Ho Ha Hl Hr Hne. exists (lg_with (lg_appenders l) (lg_live l ∖ {[a]}) l).
  assert (a ∉ lg_live l ∖ {[a]}) as Hout by set_solver.
  assert (lg_root_appender l ∈ lg_live l ∖ {[a]}) as Hin by set_solver.
  split; [|split; [|split]].
  - unfold del_appender, appender_delete. mrun. rewrite Ha, lookup_singleton_eq. by rewrite (bool_decide_eq_true_2 _ Hl), <- Ha.
  - intros b. unfold add_appender. mrun. cbn. by rewrite Ha, lookup_singleton_eq.
  - intros level Hlv. unfold logger_log, appender_log. mrun. cbn. rewrite (proj2 (Z.ltb_ge _ _)) by done.
    rewrite bool_decide_eq_true_2 by done. rewrite Ha, Ho. cbn. unfold appender_log. mrun. cbn.
    by rewrite bool_decide_eq_false_2.
  - unfold clr_appender. mrun. cbn. rewrite Ha, Ho. cbn. unfold appender_delete. mrun. cbn.
    by rewrite bool_decide_eq_false_2.
Qed.
End Logger.

(** ** Measurements *)

Definition influx_special (c : byte) : bool := bool_decide (c = x2c) || bool_decide (c = x20) || bool_decide (c = x3d).

Fixpoint escape_influx (input : list byte) : list byte :=
  match input with
  | [] => []
  | c :: input => (if influx_special c then [x5c; c] else [c]) ++ escape_influx input
  end.

Definition influx_pair (kv : list byte * list byte) : list byte := escape_influx kv.1 ++ x3d :: escape_influx kv.2.

Fixpoint influx_fields (first_field : bool) (fields : list (list byte * list byte)) : list byte :=
  match fields with
  | [] => []
  | kv :: fields => (if first_field then [] else [x2c]) ++ x2c :: influx_pair kv ++ influx_fields false fields
  end.

(** [influxlog]; the tags and fields in the order of their keys. *)
Definition influx_line (measurement : list byte) (tags fields : list (list byte * list byte)) (timestamp : Z) : list byte :=
  measurement ++ (tags ≫= fun kv => x2c :: influx_pair kv) ++ [x20] ++ influx_fields true fields
  ++ x20 :: to_string timestamp ++ [x0a].

(** What a reader of keys takes back: a backslash in front of a special character
    goes. *)
Fixpoint unescape_influx (s : list byte) : list byte :=
  match s with
  | c :: ((d :: s') as s) => if bool_decide (c = x5c) && influx_special d then d :: unescape_influx s' else c :: unescape_influx s
  | s => s
  end.

Lemma unescape_cons c d s :
  unescape_influx (c :: d :: s) =
  if bool_decide (c = x5c) && influx_special d then d :: unescape_influx s else c :: unescape_influx (d :: s).
Proof. done. Qed.

Lemma unescape_plain c s : influx_special c = false -> unescape_influx (c :: escape_influx s) = c :: unescape_influx (escape_influx s).
Proof.
  intros Hc. destruct s as [|d s]; [done|]. cbn [escape_influx]. destruct (influx_special d) eqn:Ed; cbn [app].
  - rewrite unescape_cons. change (influx_special x5c) with false. by rewrite andb_false_r.
  - by rewrite unescape_cons, Ed, andb_false_r.
Qed.

Lemma influx_escape_roundtrip s : unescape_influx (escape_influx s) = s.
Proof.
  induction s as [|c s IH]; [done|]. cbn [escape_influx]. destruct (influx_special c) eqn:Ec; cbn [app].
  - by rewrite unescape_cons, Ec, bool_decide_eq_true_2, IH.
  - by rewrite unescape_plain, IH.
Qed.

(** Every field is preceded by a comma, the first by the only one and the others
    by two. *)
Lemma influx_fields_commas kv kv' fields :
  influx_fields true (kv :: kv' :: fields) =
  x2c :: influx_pair kv ++ x2c :: x2c :: influx_pair kv' ++ influx_fields false fields.
Proof. done. Qed.

(** ** Rotation *)

Inductive ROTATE_TYPE := ROTATE_TYPE_HOUR | ROTATE_TYPE_DAY.

Definition ONEHOUR : Z := 3600.
Definition ONEDAY : Z := 86400.

Record log_rotator := mk_rotator { lr_pre_suffix : list byte; lr_suffix : list byte; lr_next_rotate_time : Z }.

Section Rotation.
(** [format_time], and [mktime] of a [tm] with all of its fields. *)
Variable format_time : Z -> string -> list byte.

(** [get_today_start] and [get_curhour_start] set some fields of a [tm] and hand
    all of them to [mktime]. *)
Definition get_today_start (curtime : Z) : outcome Z := Fault (UB "indeterminate fields of a tm").
Definition get_nextday_start (curtime : Z) : outcome Z := z ← get_today_start curtime; Ok (z + ONEDAY).
Definition get_curhour_start (curtime : Z) : outcome Z := Fault (UB "indeterminate fields of a tm").
Definition get_nexthour_start (curtime : Z) : outcome Z := z ← get_curhour_start curtime; Ok (z + ONEHOUR).

Definition next_suffix (fmt : string) (before curtime : Z) (r : log_rotator) : log_rotator :=
  mk_rotator (match lr_suffix r with [] => format_time before fmt | s => s end) (format_time curtime fmt)
    (lr_next_rotate_time r).

Definition time_check_rotate (rotate_type : ROTATE_TYPE) (curtime : Z) : M log_rotator bool :=
  r ← get;
  if curtime <? lr_next_rotate_time r then mret false
  else
    match rotate_type with
    | ROTATE_TYPE_HOUR =>
        put (next_suffix "%Y%m%d%H" (curtime - ONEHOUR) curtime r);;
        next ← lift (get_nexthour_start curtime);
        modify (fun r => mk_rotator (lr_pre_suffix r) (lr_suffix r) next);;
        mret true
    | ROTATE_TYPE_DAY =>
        put (next_suffix "%Y%m%d" (curtime - ONEDAY) curtime r);;
        next ← lift (get_nextday_start curtime);
        modify (fun r => mk_rotator (lr_pre_suffix r) (lr_suffix r) next);;
        mret true
    end.

(** [file_size] is the size of the appender's file when it is a regular one. *)
Definition size_check_rotate (threshold : Z) (file_size : option Z) (curtime : Z) : M log_rotator bool :=
  r ← get;
  match file_size with
  | Some size => if size >=? threshold then put (next_suffix "%Y%m%d%H%M%S" (curtime - ONEHOUR) curtime r);; mret true
                 else mret false
  | None => mret false
  end.

(** The constructor asks whether to rotate, with the next time zero: undefined
    at every time there is. *)
Lemma time_rotator_undefined rotate_type curtime :
  0 <= curtime -> (time_check_rotate rotate_type curtime (mk_rotator [] [] 0)).2 = Fault (UB "indeterminate fields of a tm").
Proof.
  intros Hc. unfold time_check_rotate. mrun. cbn. rewrite (proj2 (Z.ltb_ge _ _)) by done. by destruct rotate_type.
Qed.
End Rotation.

(** ** The asynchronous appender

    The threads that log write into a ring buffer under the lock; one thread
    waits for the buffer to fill or for the time and moves it into the file.  A
    call of [log] is one step, as it holds the lock throughout; the thread holds
    the lock in [AaTest], [AaPred] and [AaRead]. *)

Inductive aa_pc :=
  | AaHead                   (* while(true): is it still running? *)
  | AaLock                   (* about to lock *)
  | AaTest                   (* while(_buf.empty()) *)
  | AaPred                   (* wait_for: the condition *)
  | AaSleep                  (* wait_for: asleep, unlocked *)
  | AaRelock (timeout : bool) (* wait_for: awake, about to lock *)
  | AaRead
  | AaExit.

Record async_appender := mk_aa {
  aa_running : bool;
  aa_buf : ring_buffer;
  aa_file : list byte;
  aa_thread : aa_pc;
  aa_accepted : list byte;   (* what the calls of log got into the buffer *)
}.

Inductive aa_act := AaLog (content : list byte) | AaLogEvent (msg : list byte) | AaStop | AaGo | AaTimeout | AaSpurious.

Section Async.
Context (N threshold : Z).
Hypothesis HN : 0 < N <= PTRDIFF_MAX.

Definition aa_with_pc pc (s : async_appender) := mk_aa (aa_running s) (aa_buf s) (aa_file s) pc (aa_accepted s).

Definition aa_new : async_appender := mk_aa true (ring_new N) [] AaHead [].

Definition aa_held (pc : aa_pc) : bool := match pc with AaTest | AaPred | AaRead => true | _ => false end.

(** [notify_one]: the one thread that may sleep wakes up. *)
Definition aa_notify (s : async_appender) : async_appender :=
  match aa_thread s with AaSleep => aa_with_pc (AaRelock false) s | _ => s end.

(** The body of both [log]: what does not fit is lost; the thread is told when
    the threshold is crossed. *)
Definition aa_log (content : list byte) (s : async_appender) : option async_appender :=
  if aa_held (aa_thread s) then None
  else match ring_write N content (len content) (aa_buf s) with
       | Ok (buf, write_len) =>
           let s := mk_aa (aa_running s) buf (aa_file s) (aa_thread s) (aa_accepted s ++ take (Z.to_nat write_len) content) in
           let buf_len := rb_size buf in
           Some (if (u64 (buf_len - write_len) <? threshold) && (threshold <=? buf_len) then aa_notify s else s)
       | _ => None
       end.

Definition aa_go (s : async_appender) : option async_appender :=
  match aa_thread s with
  | AaHead => Some (aa_with_pc (if aa_running s then AaLock else AaExit) s)
  | AaLock => Some (aa_with_pc AaTest s)
  | AaTest => Some (aa_with_pc (if ring_empty (aa_buf s) then AaPred else AaRead) s)
  | AaPred => Some (aa_with_pc (if (threshold <=? rb_size (aa_buf s)) || negb (aa_running s) then AaTest else AaSleep) s)
  | AaRelock timeout => Some (aa_with_pc (if timeout then AaTest else AaPred) s)
  | AaRead =>
      match ring_read N (rb_size (aa_buf s)) (aa_buf s) with
      | Ok (buf, bytes) => Some (mk_aa (aa_running s) buf (aa_file s ++ bytes) AaHead (aa_accepted s))
      | _ => None
      end
  | AaSleep | AaExit => None
  end.

Definition aa_exec (a : aa_act) (s : async_appender) : option async_appender :=
  match a with
  | AaLog content => aa_log content s
  | AaLogEvent msg => if aa_running s then aa_log msg s else Some s
  | AaStop => if aa_running s
              then Some (aa_notify (mk_aa false (aa_buf s) (aa_file s) (aa_thread s) (aa_accepted s))) else Some s
  | AaGo => aa_go s
  | AaTimeout => match aa_thread s with AaSleep => Some (aa_with_pc (AaRelock true) s) | _ => None end
  | AaSpurious => match aa_thread s with AaSleep => Some (aa_with_pc (AaRelock false) s) | _ => None end
  end.

Fixpoint aa_run (acts : list aa_act) (s : async_appender) : option async_appender :=
  match acts with [] => Some s | a :: acts => s ← aa_exec a s; aa_run acts s end.

(** What was accepted is in the file or in the buffer, in its order. *)
Definition aa_inv (s : async_appender) : Prop :=
  exists q, ring_repr N (aa_buf s) q /\ aa_accepted s = aa_file s ++ q.

Lemma aa_notify_inv s : aa_inv s -> aa_inv (aa_notify s).
Proof. unfold aa_notify. by destruct (aa_thread s). Qed.

Lemma aa_log_inv content s s' : len content <= PTRDIFF_MAX -> aa_inv s -> aa_log content s = Some s' -> aa_inv s'.
Proof.
  intros Hc (q & Hr & Ha). unfold aa_log. destruct (aa_held _); [done|].
  destruct (ring_write_ok N ltac:(lia) content _ q ltac:(lia) Hr Hc) as (r' & -> & Hr'). intros [= <-].
  enough (aa_inv (mk_aa (aa_running s) r' (aa_file s) (aa_thread s)
    (aa_accepted s ++ take (Z.to_nat (queue_write N content q).2) content))) as H.
  { destruct (_ && _); [by apply aa_notify_inv|done]. }
  exists (queue_write N content q).1. split; [done|]. cbn. by rewrite Ha, app_assoc.
Qed.

Lemma aa_go_inv s s' : aa_inv s -> aa_go s = Some s' -> aa_inv s'.
Proof.
  intros (q & Hr & Ha). unfold aa_go. destruct (aa_thread s); try (intros [= <-]; by exists q); try done.
  destruct (ring_read_ok N ltac:(lia) (rb_size (aa_buf s)) _ q ltac:(lia) Hr) as (r' & -> & Hr').
  { rewrite (rr_size _ _ _ Hr). apply len_nonneg. }
  intros [= <-]. exists (queue_read (rb_size (aa_buf s)) q).1. split; [done|]. cbn.
  by rewrite Ha, <- app_assoc, take_drop.
Qed.

Definition aa_act_ok (a : aa_act) : Prop :=
  match a with AaLog c | AaLogEvent c => len c <= PTRDIFF_MAX | _ => True end.

Lemma aa_exec_inv a s s' : aa_act_ok a -> aa_inv s -> aa_exec a s = Some s' -> aa_inv s'.
Proof.
  intros Ha Hi. destruct a as [c|c| | | |]; cbn.
  - by apply aa_log_inv.
  - destruct (aa_running s); [by apply aa_log_inv|by intros [= <-]].
  - destruct (aa_running s); intros [= <-]; [|done]. by apply aa_notify_inv.
  - by apply aa_go_inv.
  - destruct (aa_thread s); intros [= <-]. done.
  - destruct (aa_thread s); intros [= <-]. done.
Qed.

Lemma aa_run_inv acts s s' : Forall aa_act_ok acts -> aa_inv s -> aa_run acts s = Some s' -> aa_inv s'.
Proof.
  intros Hok. revert s. induction Hok as [|a acts Ha _ IH]; intros s Hi; cbn; [by intros [= <-]|].
  destruct (aa_exec a s) as [s1|] eqn:E; cbn; [|done]. apply IH. by eapply aa_exec_inv.
Qed.

(** The thread is stuck: told to stop with nothing to write, it goes on asking
    whether there is something to write. *)
Definition aa_stuck (s : async_appender) : Prop :=
  aa_running s = false /\ ring_empty (aa_buf s) = true /\
  match aa_thread s with AaHead | AaRead | AaExit => False | _ => True end.

Definition aa_silent (a : aa_act) : Prop := match a with AaLog _ => False | _ => True end.

Lemma aa_exec_stuck a s s' : aa_silent a -> aa_stuck s -> aa_exec a s = Some s' -> aa_stuck s'.
Proof.
  intros Ha (Hr & He & Hp). destruct a as [c|c| | | |]; cbn; [done|..].
  - rewrite Hr. by intros [= <-].
  - rewrite Hr. by intros [= <-].
  - unfold aa_go. destruct (aa_thread s) as [| | | | |[]| |]; try done; intros [= <-]; (split; [done|]); (split; [done|]);
      cbn; rewrite ?He, ?Hr; try done. by rewrite orb_true_r.
  - destruct (aa_thread s); intros [= <-]. done.
  - destruct (aa_thread s); intros [= <-]. done.
Qed.

Lemma aa_run_stuck acts s s' : Forall aa_silent acts -> aa_stuck s -> aa_run acts s = Some s' -> aa_stuck s'.
Proof.
  intros Hok. revert s. induction Hok as [|a acts Ha _ IH]; intros s Hs; cbn; [by intros [= <-]|].
  destruct (aa_exec a s) as [s1|] eqn:E; cbn; [|done]. apply IH. by eapply aa_exec_stuck.
Qed.

(** Asleep with nothing to write, the thread never ends when it is told to:
    [stop] waits for it for ever. *)
Lemma async_stop_hangs acts s s' :
  aa_running s = true -> aa_thread s = AaSleep -> ring_empty (aa_buf s) = true ->
  Forall aa_silent acts -> aa_run (AaStop :: acts) s = Some s' -> aa_thread s' <> AaExit.
Proof.
  intros Hr Ht He Hok. cbn. rewrite Hr. cbn. intros Hrun.
  eapply aa_run_stuck in Hrun as (_ & _ & H); [by destruct (aa_thread s')|done|].
  unfold aa_notify. cbn. rewrite Ht. done.
Qed.

(** Not told to stop, it writes everything within a timeout. *)
Lemma async_flush s q :
  aa_thread s = AaSleep -> ring_repr N (aa_buf s) q -> q <> [] ->
  exists s', aa_run [AaTimeout; AaGo; AaGo; AaGo] s = Some s' /\ aa_file s' = aa_file s ++ q /\ aa_thread s' = AaHead.
Proof.
  intros Ht Hr Hq. cbn -[ring_read]. rewrite Ht. unfold aa_go. cbn -[ring_read]. unfold ring_empty.
  rewrite (rr_size _ _ _ Hr). rewrite (proj2 (Z.eqb_neq (len q) 0)) by (destruct q; [done|rewrite len_cons; pose proof (len_nonneg q); lia]).
  cbn -[ring_read]. rewrite ?(rr_size _ _ _ Hr).
  destruct (ring_read_ok N ltac:(lia) (len q) _ q ltac:(lia) Hr (len_nonneg q)) as (r' & -> & Hr').
  eexists. split; [done|]. cbn. split; [|done]. f_equal. unfold len. rewrite Nat2Z.id. by apply take_ge.
Qed.
End Async.

(** C32 — Whatever the threads that log and the writing thread do, and however
    they are told to stop: the file is the beginning of what was accepted, and the
    buffer has the rest, in its order. *)
Theorem async_appender_keeps_order N threshold acts s :
  0 < N <= PTRDIFF_MAX -> Forall aa_act_ok acts -> aa_run N threshold acts (aa_new N) = Some s ->
  exists q, ring_repr N (aa_buf s) q /\ aa_accepted s = aa_file s ++ q.
Proof.
  intros HN Hok Hrun. eapply aa_run_inv; [done|done| |done]. exists []. split; [apply ring_new_repr; lia|done].
Qed.

(** A line, the thread's turn, a line that does not fit, and the next turn. *)
Definition demo_async : list aa_act :=
  [AaGo; AaGo; AaGo; AaGo; AaLog (str "one;"); AaTimeout; AaGo; AaGo; AaGo; AaLogEvent (str "second;")].

Lemma async_appender_keeps_order_witness :
  exists s, aa_run 6 100 demo_async (aa_new 6) = Some s /\ aa_file s = str "one;" /\ aa_accepted s = str "one;second" /\
    exists q, ring_repr 6 (aa_buf s) q /\ aa_accepted s = aa_file s ++ q.
Proof.
  destruct (aa_run 6 100 demo_async (aa_new 6)) as [s|] eqn:E; [|by vm_compute in E]. exists s. split; [done|].
  assert (Forall aa_act_ok demo_async) as Hok by (repeat (apply Forall_cons; split); try apply Forall_nil; by vm_compute).
  assert (0 < 6 <= PTRDIFF_MAX) as HN by (unfold PTRDIFF_MAX; lia).
  pose proof (async_appender_keeps_order 6 100 demo_async s HN Hok E) as H.
  split; [|split; [|exact H]]; clear H; vm_compute in E; by injection E as <-.
Defined.

(** A line accepted before [stop] that no one writes any more. *)
Lemma async_stop_loses :
  exists s, aa_run 100 50 [AaLog (str "last words"); AaStop; AaGo] (aa_new 100) = Some s /\
    aa_thread s = AaExit /\ aa_accepted s = str "last words" /\ aa_file s = [].
Proof. eexists. split; [by vm_compute|]. done. Qed.
