(* ===== verification/ConcurrentBuffer.v ===== *)
(** The concurrent double buffer (source/bee/thread/double_buffer.h,
    [concurrent_double_buffer]): its threads as a machine, a load, a store or an
    operation on a vector a step; memory is sequentially consistent.  A vector's
    room is the standard library's own: whether [reserve] finds too little of it
    is part of the schedule, and so is what a consumer leaves in the vector it is
    given, and whether it or an [emplace_back] throws.  [try_consume_for] hands an [int] to [wait_for] and can not be
    instantiated. *)

From S2P Require Import Prelude Threads.

Section ConcurrentBuffer.
Context {T : Type}.

Record buffer_node := mk_bnode { bn_ref_count : Z; bn_data : list T; bn_version : Z }.

Inductive cd_pc :=
  | CdIdle
  (* emplace, with the write lock *)
  | CdLoadBack (v : T) | CdCheckRef (v : T) (b : nat)
  | CdReload (v : T)
  | CdPush (v : T) (b : nat) | CdBump
  (* rotate_buffers, to emplace [v] after it, or for handle_write_exception,
     which is [[noreturn]] and returns *)
  | CdRotate (v : option T) | CdSetBack (v : option T) (old_back : nat) | CdSetFront (v : option T) (old_back : nat)
  | CdPublish (v : option T) | CdNoreturn
  (* consume *)
  | CdLoadFront (current : Z) (f : list T -> list T) | CdAddRef (current : Z) (f : list T -> list T) (front : nat)
  | CdCompare (current : Z) (f : list T -> list T) (front : nat) | CdCall (current : Z) (f : list T -> list T) (front : nat)
  | CdSetVersion (current : Z) (front : nat) | CdDropRef (front : nat)
  (* reserve, with the capacity lock *)
  | CdGrow
  (* clear, with both locks *)
  | CdClearBack | CdClearFront (n : nat) | CdClearGlobal | CdClearPublished
  (* cbegin and cend *)
  | CdIterRef (front : nat).

Record concurrent_double_buffer := mk_cdb {
  cd_nodes : list buffer_node;
  cd_front : nat;
  cd_back : nat;
  cd_global_version : Z;
  cd_published_version : Z;
  cd_write_lock : bool;
  cd_capacity_lock : bool;
  cd_threads : list cd_pc;
}.

(** [CdThrow] is a step whose [emplace_back] or consumer throws. *)
Inductive cd_act :=
  | CdEmplace (v : T) | CdConsume (f : list T -> list T) | CdReserve (grows : bool) | CdClear | CdIter
  | CdGo | CdThrow.

Definition node_new : buffer_node := mk_bnode 0 [] 0.
Definition cdb_new (n : nat) : concurrent_double_buffer :=
  mk_cdb [node_new; node_new] 0 1 0 0 false false (replicate n CdIdle).

Definition cd_goto (t : nat) (pc : cd_pc) (s : concurrent_double_buffer) := mk_cdb (cd_nodes s) (cd_front s) (cd_back s)
  (cd_global_version s) (cd_published_version s) (cd_write_lock s) (cd_capacity_lock s) (<[t := pc]> (cd_threads s)).
Definition cd_with_nodes ns (s : concurrent_double_buffer) := mk_cdb ns (cd_front s) (cd_back s) (cd_global_version s)
  (cd_published_version s) (cd_write_lock s) (cd_capacity_lock s) (cd_threads s).
Definition cd_with_ends front back (s : concurrent_double_buffer) := mk_cdb (cd_nodes s) front back (cd_global_version s)
  (cd_published_version s) (cd_write_lock s) (cd_capacity_lock s) (cd_threads s).
Definition cd_with_versions g p (s : concurrent_double_buffer) := mk_cdb (cd_nodes s) (cd_front s) (cd_back s) g p
  (cd_write_lock s) (cd_capacity_lock s) (cd_threads s).
Definition cd_with_locks w c (s : concurrent_double_buffer) := mk_cdb (cd_nodes s) (cd_front s) (cd_back s)
  (cd_global_version s) (cd_published_version s) w c (cd_threads s).

Definition node_ref (d : Z) (n : buffer_node) : buffer_node := mk_bnode (u64 (bn_ref_count n + d)) (bn_data n) (bn_version n).

(** A step, and what a consumer was given in it.  What throws inside
    [emplace_back] leaves the vector as it was; the function that
    [handle_write_exception] then returns from is declared not to, and nothing is
    said of that thread any more.  A consumer that throws has its reference taken
    back and the version stays. *)
Definition cd_exec (t : nat) (a : cd_act) (s : concurrent_double_buffer) : option (concurrent_double_buffer * option (list T)) :=
  pc ← cd_threads s !! t;
  let go pc s := Some (cd_goto t pc s, None) in
  match pc, a with
  | CdIdle, CdEmplace v => if cd_write_lock s then None else go (CdLoadBack v) (cd_with_locks true (cd_capacity_lock s) s)
  | CdLoadBack v, CdGo => go (CdCheckRef v (cd_back s)) s
  | CdCheckRef v b, CdGo =>
      n ← cd_nodes s !! b;
      go (if bn_ref_count n >? 0 then CdRotate (Some v) else CdPush v b) s
  | CdRotate v, CdGo => go (CdSetBack v (cd_back s)) s
  | CdSetBack v old_back, CdGo =>
      go (CdSetFront v old_back) (cd_with_ends (cd_front s) (length (cd_nodes s)) (cd_with_nodes (cd_nodes s ++ [node_new]) s))
  | CdSetFront v old_back, CdGo => go (CdPublish v) (cd_with_ends old_back (cd_back s) s)
  | CdPublish v, CdGo =>
      go (match v with Some v => CdReload v | None => CdNoreturn end) (cd_with_versions (cd_global_version s) (cd_global_version s) s)
  | CdReload v, CdGo => go (CdPush v (cd_back s)) s
  | CdPush v b, CdGo =>
      go CdBump (cd_with_nodes (alter (fun n => mk_bnode (bn_ref_count n) (bn_data n ++ [v]) (bn_version n)) b (cd_nodes s)) s)
  | CdPush _ _, CdThrow => go (CdRotate None) s
  | CdBump, CdGo =>
      go CdIdle (cd_with_locks false (cd_capacity_lock s)
                   (cd_with_versions (u64 (cd_global_version s + 1)) (cd_published_version s) s))
  | CdIdle, CdConsume f => go (CdLoadFront (cd_global_version s) f) s
  | CdLoadFront current f, CdGo => go (CdAddRef current f (cd_front s)) s
  | CdAddRef current f front, CdGo => go (CdCompare current f front) (cd_with_nodes (alter (node_ref 1) front (cd_nodes s)) s)
  | CdCompare current f front, CdGo =>
      n ← cd_nodes s !! front;
      go (if bn_version n <? current then CdCall current f front else CdDropRef front) s
  | CdCall current f front, CdGo =>
      n ← cd_nodes s !! front;
      Some (cd_goto t (CdSetVersion current front)
              (cd_with_nodes (<[front := mk_bnode (bn_ref_count n) (f (bn_data n)) (bn_version n)]> (cd_nodes s)) s),
            Some (bn_data n))
  | CdCall current f front, CdThrow =>
      n ← cd_nodes s !! front;
      Some (cd_goto t (CdDropRef front)
              (cd_with_nodes (<[front := mk_bnode (bn_ref_count n) (f (bn_data n)) (bn_version n)]> (cd_nodes s)) s),
            Some (bn_data n))
  | CdSetVersion current front, CdGo =>
      go (CdDropRef front) (cd_with_nodes (alter (fun n => mk_bnode (bn_ref_count n) (bn_data n) current) front (cd_nodes s)) s)
  | CdDropRef front, CdGo => go CdIdle (cd_with_nodes (alter (node_ref (-1)) front (cd_nodes s)) s)
  | CdIdle, CdReserve grows =>
      if cd_capacity_lock s then None
      else if grows then go CdGrow (cd_with_locks (cd_write_lock s) true s) else Some (s, None)
  | CdGrow, CdGo =>
      go CdIdle (cd_with_locks (cd_write_lock s) false
                   (cd_with_ends (cd_front s) (length (cd_nodes s)) (cd_with_nodes (cd_nodes s ++ [node_new]) s)))
  | CdIdle, CdClear => if cd_write_lock s || cd_capacity_lock s then None else go CdClearBack (cd_with_locks true true s)
  | CdClearBack, CdGo =>
      go (CdClearFront (length (cd_nodes s)))
        (cd_with_ends (cd_front s) (length (cd_nodes s)) (cd_with_nodes (cd_nodes s ++ [node_new]) s))
  | CdClearFront n, CdGo => go CdClearGlobal (cd_with_ends n (cd_back s) s)
  | CdClearGlobal, CdGo => go CdClearPublished (cd_with_versions 0 (cd_published_version s) s)
  | CdClearPublished, CdGo => go CdIdle (cd_with_locks false false (cd_with_versions (cd_global_version s) 0 s))
  | CdIdle, CdIter => go (CdIterRef (cd_front s)) s
  | CdIterRef front, CdGo => go CdIdle (cd_with_nodes (alter (node_ref 1) front (cd_nodes s)) s)
  | _, _ => None
  end.

(** A schedule, and everything consumers were given. *)
Fixpoint cd_run (sched : list (nat * cd_act)) (s : concurrent_double_buffer) : option (concurrent_double_buffer * list (list T)) :=
  match sched with
  | [] => Some (s, [])
  | (t, a) :: sched =>
      r ← cd_exec t a s; rest ← cd_run sched r.1;
      Some (rest.1, match r.2 with Some d => d :: rest.2 | None => rest.2 end)
  end.

(** ** Without [clear] nothing is ever delivered *)

Definition fresh_pc (nodes : nat) (pc : cd_pc) : Prop :=
  match pc with
  | CdIdle | CdLoadBack _ | CdBump | CdGrow => True
  | CdCheckRef _ b | CdPush _ b => b <> 0%nat
  | CdLoadFront _ f => f [] = []
  | CdAddRef _ f front | CdCompare _ f front | CdCall _ f front => front = 0%nat /\ f [] = []
  | CdSetVersion _ front | CdDropRef front | CdIterRef front => front = 0%nat
  | _ => False
  end.

(** The front is the node of the beginning, which is empty; the back is another,
    and nobody has a reference to it. *)
Record cd_inv (s : concurrent_double_buffer) : Prop := {
  cdi_front : cd_front s = 0%nat;
  cdi_empty : exists r v, cd_nodes s !! 0%nat = Some (mk_bnode r [] v);
  cdi_back : cd_back s <> 0%nat;
  cdi_refs : forall i n, cd_nodes s !! i = Some n -> i <> 0%nat -> bn_ref_count n = 0;
  cdi_threads : forall t pc, cd_threads s !! t = Some pc -> fresh_pc (length (cd_nodes s)) pc;
}.

(** No [clear], no consumer that puts something into an empty vector, and, for
    thread [t] in the state [s], no [emplace_back] that throws. *)
Definition cd_act_ok (t : nat) (a : cd_act) (s : concurrent_double_buffer) : bool :=
  match a, cd_threads s !! t with
  | CdClear, _ => false
  | CdThrow, Some (CdPush _ _) => false
  | _, _ => true
  end.
Definition cd_consumer_ok (a : cd_act) : Prop := match a with CdConsume f => f [] = [] | _ => True end.
Fixpoint cd_sched_ok (sched : list (nat * cd_act)) (s : concurrent_double_buffer) : bool :=
  match sched with
  | [] => true
  | (t, a) :: sched => cd_act_ok t a s && match cd_exec t a s with Some r => cd_sched_ok sched r.1 | None => true end
  end.

(** What a step does to the threads is to move one of them. *)
Lemma inv_goto s t pc : cd_inv s -> fresh_pc (length (cd_nodes s)) pc -> cd_inv (cd_goto t pc s).
Proof.
  intros [Hf He Hb Hr Ht] Hpc. split; try done. intros t' pc' H. apply step_cases in H as [[_ ->]|[_ H]]; [done|by eapply Ht].
Qed.

Lemma inv_locks w c s : cd_inv s -> cd_inv (cd_with_locks w c s).
Proof. intros []. by split. Qed.
Lemma inv_versions g p s : cd_inv s -> cd_inv (cd_with_versions g p s).
Proof. intros []. by split. Qed.

Lemma fresh_pc_nodes n m pc : fresh_pc n pc -> fresh_pc m pc.
Proof. by destruct pc. Qed.

Lemma inv_grow s : cd_inv s -> cd_inv (cd_with_ends (cd_front s) (length (cd_nodes s)) (cd_with_nodes (cd_nodes s ++ [node_new]) s)).
Proof.
  intros [Hf (r & v & He) Hb Hr Ht]. split; cbn.
  - done.
  - exists r, v. by rewrite lookup_app_l by (by eapply lookup_lt_Some).
  - apply lookup_lt_Some in He. lia.
  - intros i n H Hi. apply lookup_app_Some in H as [H|[_ H]]; [by eapply Hr|].
    by apply list_lookup_singleton_Some in H as [_ <-].
  - intros t pc H. eapply fresh_pc_nodes. by eapply Ht.
Qed.

(** A change of the empty node that leaves it empty. *)
Lemma inv_alter_front g s :
  cd_inv s -> (forall r v, bn_data (g (mk_bnode r [] v)) = []) -> cd_inv (cd_with_nodes (alter g 0%nat (cd_nodes s)) s).
Proof.
  intros [Hf (r & v & He) Hb Hr Ht] Hg. split; cbn.
  - done.
  - rewrite list_lookup_alter, He. rewrite decide_True by done. cbn. specialize (Hg r v).
    destruct (g (mk_bnode r [] v)) as [r' d' v']. cbn in Hg. subst. eauto.
  - done.
  - intros i n H Hi. rewrite list_lookup_alter, decide_False in H by done. by eapply Hr.
  - intros t pc H. eapply fresh_pc_nodes. by eapply Ht.
Qed.

Lemma inv_push b v s :
  cd_inv s -> b <> 0%nat ->
  cd_inv (cd_with_nodes (alter (fun n => mk_bnode (bn_ref_count n) (bn_data n ++ [v]) (bn_version n)) b (cd_nodes s)) s).
Proof.
  intros [Hf (r & w & He) Hb Hr Ht] Hne. split; cbn.
  - done.
  - exists r, w. by rewrite list_lookup_alter, decide_False.
  - done.
  - intros i n H Hi. rewrite list_lookup_alter in H. destruct (decide (b = i)) as [<-|].
    + apply fmap_Some in H as (n' & Hn & ->). cbn. by eapply Hr.
    + by eapply Hr.
  - intros t pc H. eapply fresh_pc_nodes. by eapply Ht.
Qed.

Lemma cd_exec_inv t a s s' ev :
  cd_act_ok t a s = true -> cd_consumer_ok a -> cd_inv s -> cd_exec t a s = Some (s', ev) -> cd_inv s' /\ (ev = None \/ ev = Some []).
Proof.
  intros Hok Ha Hi. unfold cd_act_ok in Hok. unfold cd_exec. destruct (cd_threads s !! t) as [pc|] eqn:Et; [|done]. cbn.
  pose proof (cdi_threads _ Hi _ _ Et) as Hpc. pose proof (cdi_front _ Hi) as Hf.
  destruct pc, a; try done; cbn in Hok, Hpc, Ha; rewrite ?Et in Hok; try done.
  - (* emplace *) destruct (cd_write_lock s); intros [= <- <-]. split; [|by left]. apply inv_goto; [by apply inv_locks|done].
  - (* consume *) intros [= <- <-]. split; [|by left]. by apply inv_goto.
  - (* reserve *) destruct (cd_capacity_lock s); [done|]. destruct grows; intros [= <- <-]; (split; [|by left]); [|done].
    apply inv_goto; [by apply inv_locks|done].
  - (* iterator *) intros [= <- <-]. split; [|by left]. by apply inv_goto.
  - (* CdLoadBack *) intros [= <- <-]. split; [|by left]. apply inv_goto; [done|]. apply (cdi_back _ Hi).
  - (* CdCheckRef *) destruct (cd_nodes s !! b) as [n|] eqn:En; [|done]. cbn.
    rewrite (cdi_refs _ Hi _ _ En Hpc). cbn. intros [= <- <-]. split; [|by left]. by apply inv_goto.
  - (* CdPush *) intros [= <- <-]. split; [|by left]. apply inv_goto; [by apply inv_push|done].
  - (* CdBump *) intros [= <- <-]. split; [|by left]. apply inv_goto; [by apply inv_locks, inv_versions|done].
  - (* CdLoadFront *) intros [= <- <-]. split; [|by left]. by apply inv_goto.
  - (* CdAddRef *) destruct Hpc as [-> Hpc]. intros [= <- <-]. split; [|by left]. apply inv_goto; [by apply inv_alter_front|done].
  - (* CdCompare *) destruct Hpc as [-> Hpc]. destruct (cd_nodes s !! 0%nat) as [n|]; [|done]. cbn. intros [= <- <-].
    split; [|by left]. apply inv_goto; [done|]. by destruct (bn_version n <? current).
  - (* CdCall *) destruct Hpc as [-> Hpc]. destruct (cdi_empty _ Hi) as (r & v & He). rewrite He. cbn. rewrite Hpc.
    intros [= <- <-]. split; [|by right]. apply inv_goto; [|done]. by rewrite list_insert_id; [destruct s|].
  - (* a consumer throws *) destruct Hpc as [-> Hpc]. destruct (cdi_empty _ Hi) as (r & v & He). rewrite He. cbn.
    rewrite Hpc. intros [= <- <-]. split; [|by right]. apply inv_goto; [|done]. by rewrite list_insert_id; [destruct s|].
  - (* CdSetVersion *) subst front. intros [= <- <-]. split; [|by left]. apply inv_goto; [by apply inv_alter_front|done].
  - (* CdDropRef *) subst front. intros [= <- <-]. split; [|by left]. apply inv_goto; [by apply inv_alter_front|done].
  - (* CdGrow *) intros [= <- <-]. split; [|by left]. apply inv_goto; [by apply inv_locks, inv_grow|done].
  - (* CdIterRef *) subst front. intros [= <- <-]. split; [|by left]. apply inv_goto; [by apply inv_alter_front|done].
Qed.

Lemma cd_run_inv sched s s' seen :
  cd_sched_ok sched s = true -> Forall (fun x => cd_consumer_ok x.2) sched -> cd_inv s ->
  cd_run sched s = Some (s', seen) -> cd_inv s' /\ Forall (fun d => d = []) seen.
Proof.
  intros Hs Hok. revert s s' seen Hs. induction Hok as [|[t a] sched Ha _ IH]; intros s s' seen Hs Hi; cbn.
  - intros [= <- <-]. split; [done|constructor].
  - cbn in Hs. apply andb_prop in Hs as [Hs1 Hs]. destruct (cd_exec t a s) as [[s1 ev]|] eqn:E; cbn; [|done].
    destruct (cd_exec_inv _ _ _ _ _ Hs1 Ha Hi E) as [Hi1 Hev].
    destruct (cd_run sched s1) as [[s2 rest]|] eqn:Er; cbn; [|done]. intros [= <- <-].
    destruct (IH _ _ _ Hs Hi1 Er) as [Hi2 Hr]. split; [done|]. by destruct Hev as [-> | ->]; [|constructor].
Qed.

Lemma cdb_new_inv n : cd_inv (cdb_new n).
Proof.
  split; cbn; try done; [by eexists _, _| |].
  - intros [|[|i]] nd H Hi; [done|by injection H as <-|done].
  - intros t pc H. by apply lookup_replicate in H as [-> _].
Qed.
End ConcurrentBuffer.

(** ** The members that no thread of the machine calls

    [consume_impl] and [check_capacity] are private, and [consume_impl] is
    called by [try_consume_for] alone; the counters are changed by these two
    only. *)
Section PrivateMembers.
Context {T : Type}.
Implicit Types (n : @buffer_node T).

Record cdb_statistics := mk_stats {
  st_writes : Z; st_reads : Z; st_buffer_switches : Z; st_max_observed_size : Z; st_current_version : Z;
}.

(** The four counters and the global version. *)
Definition get_stats (counters : Z * Z * Z * Z) (s : @concurrent_double_buffer T) : cdb_statistics :=
  let '(writes, reads, switches, max_size) := counters in
  mk_stats writes reads switches max_size (cd_global_version s).

(** The callback gives what it leaves of the vector, or throws.  The result is
    the node, the counter of reads, [last_version] and the answer. *)
Definition consume_impl (func : list T -> outcome (list T)) (reads last_version : Z) (n : @buffer_node T)
    : @buffer_node T * Z * Z * outcome bool :=
  let front := node_ref 1 n in
  if bn_version front >? last_version then
    match func (bn_data front) with
    | Ok d =>
        let front := mk_bnode (bn_ref_count front) d (bn_version front) in
        (node_ref (-1) front, u64 (reads + 1), bn_version front, Ok true)
    | Throw e => (node_ref (-1) front, reads, last_version, Throw e)
    | Fault f => (front, reads, last_version, Fault f)
    end
  else (node_ref (-1) front, reads, last_version, Ok false).

(** [check_capacity(buf)] for a vector of this capacity: the counters, and the
    capacity reserved for the node that takes the place of the back, if any. *)
Definition check_capacity (n : @buffer_node T) (capacity switches max_size : Z) : Z * Z * option Z :=
  let current_size := len (bn_data n) in
  let max_size := Z.max max_size current_size in
  if current_size >=? capacity then (u64 (switches + 1), max_size, Some (u64 (capacity * 2)))
  else (switches, max_size, None).

(** What [check_capacity] leaves as the back. *)
Definition back_after (n : @buffer_node T) (capacity : Z) : @buffer_node T :=
  match (check_capacity n capacity 0 0).2 with Some _ => node_new | None => n end.

(** [consume_impl] gives back the reference it took, however it ends, and calls
    the function just when the node is newer. *)
Lemma consume_impl_balanced func reads last_version n :
  inU 64 (bn_ref_count n) -> (forall d f, func d <> Fault f) ->
  let '(n', _, v, r) := consume_impl func reads last_version n in
  bn_ref_count n' = bn_ref_count n /\ bn_version n' = bn_version n /\
  match r with
  | Ok true => last_version < bn_version n /\ func (bn_data n) = Ok (bn_data n') /\ v = bn_version n
  | Ok false => bn_version n <= last_version /\ n' = n /\ v = last_version
  | Throw e => func (bn_data n) = Throw e /\ bn_data n' = bn_data n /\ v = last_version
  | Fault _ => False
  end.
Proof.
  intros Hr Hf. assert (Hback : u64 (u64 (bn_ref_count n + 1) + -1) = bn_ref_count n).
  { unfold wrapU. rewrite Zplus_mod_idemp_l. replace (bn_ref_count n + 1 + -1) with (bn_ref_count n) by lia.
    apply (wrapU_small 64), Hr. }
  destruct n as [ref d v]. unfold consume_impl. cbn in *. destruct (Z.gtb_spec v last_version).
  - destruct (func d) as [d'|e|f] eqn:E; cbn; [by split_and!|by split_and!|by destruct (Hf d f)].
  - unfold node_ref. cbn. rewrite Hback. split_and!; done.
Qed.

(** A back that is full loses its items when it is replaced. *)
Lemma check_capacity_drops n capacity :
  capacity <= len (bn_data n) -> bn_data (back_after n capacity) = [].
Proof.
  intros H. unfold back_after, check_capacity. by destruct (Z.geb_spec (len (bn_data n)) capacity); [|lia].
Qed.

(** *** [const_iterator]

    It points into the vector of its anchor, a node; a default one has none. *)
Record const_iterator := mk_citer { ci_it : Z; ci_anchor : option nat }.

Definition const_iterator_new (nodes : list (@buffer_node T)) (anchor : option nat) (end_ : bool) : const_iterator :=
  match k ← anchor; nodes !! k with
  | Some n => mk_citer (if end_ then len (bn_data n) else 0) anchor
  | None => mk_citer 0 None
  end.
Definition ci_deref (nodes : list (@buffer_node T)) (i : const_iterator) : outcome T :=
  match k ← ci_anchor i; n ← nodes !! k; if ci_it i <? 0 then None else bn_data n !! Z.to_nat (ci_it i) with
  | Some x => Ok x
  | None => Fault (UB "iterator that can not be dereferenced")
  end.
Definition ci_next (i : const_iterator) : const_iterator := mk_citer (ci_it i + 1) (ci_anchor i).
Definition ci_eq (i j : const_iterator) : outcome bool :=
  if decide (ci_anchor i = ci_anchor j) then Ok (ci_it i =? ci_it j) else Fault (UB "iterators of two vectors").

(** The loop over a range. *)
Fixpoint ci_walk (fuel : nat) (nodes : list (@buffer_node T)) (i e : const_iterator) : outcome (list T) :=
  match fuel with
  | O => Fault OutOfFuel
  | S fuel =>
      done_ ← ci_eq i e;
      if done_ : bool then Ok []
      else x ← ci_deref nodes i; xs ← ci_walk fuel nodes (ci_next i) e; Ok (x :: xs)
  end.

Lemma ci_walk_from nodes k n (i : nat) fuel : nodes !! k = Some n -> (i <= length (bn_data n))%nat ->
  (length (bn_data n) - i < fuel)%nat ->
  ci_walk fuel nodes (mk_citer (Z.of_nat i) (Some k)) (mk_citer (len (bn_data n)) (Some k)) = Ok (drop i (bn_data n)).
Proof.
  intros Hn. revert i. induction fuel as [|fuel IH]; intros i Hi Hf; [lia|]. cbn [ci_walk]. unfold ci_eq. cbn [ci_anchor ci_it].
  rewrite decide_True by done. cbn [mbind outcome_bind]. destruct (Z.eqb_spec (Z.of_nat i) (len (bn_data n))) as [E|E].
  - unfold len in E. by rewrite drop_ge by lia.
  - unfold len in E. destruct (lookup_lt_is_Some_2 (bn_data n) i) as [x Hx]; [lia|].
    unfold ci_deref. cbn [ci_anchor ci_it mbind option_bind]. rewrite Hn. cbn [mbind option_bind].
    destruct (Z.ltb_spec (Z.of_nat i) 0); [lia|]. rewrite Nat2Z.id, Hx. cbn [mbind outcome_bind].
    unfold ci_next. cbn [ci_it ci_anchor]. replace (Z.of_nat i + 1) with (Z.of_nat (S i)) by lia.
    rewrite IH by lia. cbn [mbind outcome_bind]. by rewrite (drop_S _ _ _ Hx).
Qed.

(** From [cbegin] to [cend] the items of the front are visited in order, when
    both find the same front. *)
Lemma ci_walk_visits nodes k n : nodes !! k = Some n ->
  ci_walk (S (length (bn_data n))) nodes (const_iterator_new nodes (Some k) false) (const_iterator_new nodes (Some k) true)
  = Ok (bn_data n).
Proof.
  intros Hn. unfold const_iterator_new. cbn [mbind option_bind]. rewrite Hn.
  by apply (ci_walk_from nodes k n 0); [|lia|lia].
Qed.

(** When the front changes between the two calls, the end is never recognised. *)
Lemma ci_walk_two_fronts nodes k k' n n' fuel : nodes !! k = Some n -> nodes !! k' = Some n' -> k <> k' ->
  ci_walk (S fuel) nodes (const_iterator_new nodes (Some k) false) (const_iterator_new nodes (Some k') true)
  = Fault (UB "iterators of two vectors").
Proof.
  intros Hn Hn' Hk. unfold const_iterator_new. cbn [mbind option_bind]. rewrite Hn, Hn'. cbn [ci_walk]. unfold ci_eq.
  cbn [ci_anchor]. by rewrite decide_False by congruence.
Qed.
End PrivateMembers.

(** C34 — However many threads emplace, consume, iterate and reserve, in whatever
    order their steps come and whichever consumers throw: unless the buffer is
    cleared or an [emplace_back] throws, and when no consumer puts something into
    an empty vector itself, no consumer is ever given anything.  The back has no
    references until it is the front, and it becomes the front only when it has
    some. *)
Theorem cdb_never_delivers {T} n (sched : list (nat * @cd_act T)) s seen :
  cd_sched_ok sched (cdb_new n) = true -> Forall (fun x => cd_consumer_ok x.2) sched ->
  cd_run sched (cdb_new n) = Some (s, seen) -> Forall (fun d => d = []) seen.
Proof. intros Hs Hok Hrun. by eapply (cd_run_inv sched); [| |apply cdb_new_inv|]. Qed.

(** One thread emplaces twice, the other consumes after each. *)
Definition cdb_emplace (v : Z) : list (nat * @cd_act Z) :=
  (0%nat, CdEmplace v) :: replicate 4 (0%nat, CdGo).
Definition cdb_consume : list (nat * @cd_act Z) :=
  (1%nat, CdConsume (fun _ => [])) :: replicate 6 (1%nat, CdGo).
Definition cdb_demo : list (nat * @cd_act Z) := cdb_emplace 7 ++ cdb_consume ++ cdb_emplace 8 ++ cdb_consume.

Lemma cdb_never_delivers_witness :
  exists s seen, cd_run cdb_demo (cdb_new 2) = Some (s, seen) /\ seen = [[]; []] /\
    (exists n, cd_nodes s !! cd_back s = Some n /\ bn_data n = [7; 8]) /\ Forall (fun d => d = []) seen.
Proof.
  destruct (cd_run cdb_demo (cdb_new 2)) as [[s seen]|] eqn:E; [|by vm_compute in E]. exists s, seen.
  assert (Forall (fun x => cd_consumer_ok x.2) cdb_demo) as Hok by (by repeat (apply Forall_cons; split)).
  assert (cd_sched_ok cdb_demo (cdb_new 2) = true) as Hs by by vm_compute.
  pose proof (cdb_never_delivers 2 cdb_demo s seen Hs Hok E) as H.
  split; [done|]. split; [|split; [|exact H]]; clear H Hok Hs; vm_compute in E; injection E as <- <-; [reflexivity|].
  eexists. split; reflexivity.
Defined.

(** An [emplace_back] that throws rotates the buffers, and what was emplaced
    before is delivered; the thread then returns from a function that is declared
    not to, with the write lock held. *)
Lemma cdb_throw_delivers :
  let sched : list (nat * @cd_act Z) := cdb_emplace 7 ++
    [(0%nat, CdEmplace 8); (0%nat, CdGo); (0%nat, CdGo); (0%nat, CdThrow);
     (0%nat, CdGo); (0%nat, CdGo); (0%nat, CdGo); (0%nat, CdGo)] ++ cdb_consume in
  exists s, cd_run sched (cdb_new 2) = Some (s, [[7]]) /\
    cd_threads s = [CdNoreturn; CdIdle] /\ cd_write_lock s = true.
Proof. eexists. split; [by vm_compute|]. by vm_compute. Qed.

(** Cleared, front and back are one node: a consumer can take it up after the
    writer has looked for references, and the two work on one vector at once. *)
Lemma cdb_race_after_clear :
  let sched : list (nat * @cd_act Z) := (0%nat, CdClear) :: replicate 4 (0%nat, CdGo) ++ cdb_emplace 7 ++
    [(0%nat, CdEmplace 8); (0%nat, CdGo); (0%nat, CdGo); (1%nat, CdConsume (fun _ => [])); (1%nat, CdGo); (1%nat, CdGo);
     (1%nat, CdGo)] in
  exists s f seen, cd_run sched (cdb_new 2) = Some (s, seen) /\
    cd_threads s = [CdPush 8 2; CdCall 1 f 2].
Proof. eexists _, _, _. split; [by vm_compute|]. reflexivity. Qed.
