(* ===== verification/Observers.v ===== *)
(** Callbacks kept by an object and called back later: subjects and their
    tokens (common/observer.h), the event dispatcher (common/event_dispatcher.h),
    delegates (utility/delegate.h) and the components of an entity
    (common/entity.h).

    A callback is code of the application.  Where what it does to the object that
    calls it matters, it is a script of operations, which the object runs while it
    notifies.  [delegate::isbound], [component_composer::get_component] and
    [assign] do not compile when they are used ([return] of a [std::function] as
    [bool], [std::static_pointer_cast] of a plain pointer); the first is left
    out, the others are taken with a plain cast. *)

From stdpp Require Import sorting.
From S2P Require Import Prelude.

(** ** Subjects and tokens (common/observer.h) *)

(** What a thread does with subjects and tokens.  The callbacks it registers
    carry a name and, as they may do the same, a script. *)
Inductive ob_op :=
  | ObRegister (s t : Z) (callback : option (Z * list ob_op))  (* t = s->register_observer(callback) *)
  | ObMove (t t' : Z)                                          (* t' constructed from the moved t *)
  | ObMoveAssign (t t' : Z)                                    (* *t' = std::move( *t) *)
  | ObDestroy (t : Z)                                          (* the token goes out of scope *)
  | ObDestroySubject (s : Z)
  | ObNotify (s : Z).

Definition callback : Type := option (Z * list ob_op).

Record subject := mk_subject { sj_callbacks : gmap Z callback; sj_next_id : Z }.
Record observer_token := mk_token { ot_subject : option Z; ot_id : Z }.

(** Subjects and tokens are at addresses; [ow_calls] are the names of the
    callbacks called, oldest first, and [ow_registered] counts the
    registrations. *)
Record observers := mk_observers {
  ow_subjects : gmap Z subject;
  ow_tokens : gmap Z observer_token;
  ow_calls : list Z;
  ow_registered : Z;
}.

Abbreviation OB := (M observers).

Definition ow_set_subject (s : Z) (sj : subject) (w : observers) : observers :=
  mk_observers (<[s := sj]> (ow_subjects w)) (ow_tokens w) (ow_calls w) (ow_registered w).
Definition ow_set_token (t : Z) (tk : observer_token) (w : observers) : observers :=
  mk_observers (ow_subjects w) (<[t := tk]> (ow_tokens w)) (ow_calls w) (ow_registered w).
Definition ow_del_token (t : Z) (w : observers) : observers :=
  mk_observers (ow_subjects w) (delete t (ow_tokens w)) (ow_calls w) (ow_registered w).
Definition ow_del_subject (s : Z) (w : observers) : observers :=
  mk_observers (delete s (ow_subjects w)) (ow_tokens w) (ow_calls w) (ow_registered w).
Definition ow_call (name : Z) (w : observers) : observers :=
  mk_observers (ow_subjects w) (ow_tokens w) (ow_calls w ++ [name]) (ow_registered w).
Definition ow_count_registration (w : observers) : observers :=
  mk_observers (ow_subjects w) (ow_tokens w) (ow_calls w) (ow_registered w + 1).

Definition subject_new : subject := mk_subject ∅ 0.

Definition the_subject (s : Z) : OB subject :=
  w ← get; match ow_subjects w !! s with Some sj => mret sj | None => fail (UB "subject after its destruction") end.
Definition the_token (t : Z) : OB observer_token :=
  w ← get; match ow_tokens w !! t with Some tk => mret tk | None => fail (UB "token after its destruction") end.

Definition unregister_observer (id s : Z) : OB unit :=
  sj ← the_subject s;
  modify (ow_set_subject s (mk_subject (delete id (sj_callbacks sj)) (sj_next_id sj))).

(** [std::make_unique] puts the token at [t], where there is none. *)
Definition register_observer (s t : Z) (cb : callback) : OB unit :=
  sj ← the_subject s;
  w ← get;
  if decide (ow_tokens w !! t = None) then
    let id := sj_next_id sj in
    let callbacks := match sj_callbacks sj !! id with None => <[id := cb]> (sj_callbacks sj) | Some _ => sj_callbacks sj end in
    modify (ow_set_subject s (mk_subject callbacks (u64 (id + 1))));;
    modify (ow_set_token t (mk_token (Some s) id));;
    modify ow_count_registration
  else fail (UB "an object where another one lives").

Definition token_dtor (t : Z) : OB unit :=
  tk ← the_token t;
  (match ot_subject tk with Some s => unregister_observer (ot_id tk) s | None => mret tt end);;
  modify (ow_del_token t).

Definition token_move (t t' : Z) : OB unit :=
  other ← the_token t;
  w ← get;
  if decide (ow_tokens w !! t' = None) then
    modify (ow_set_token t' (mk_token (ot_subject other) (ot_id other)));;
    modify (ow_set_token t (mk_token None (ot_id other)))
  else fail (UB "an object where another one lives").

Definition token_move_assign (t t' : Z) : OB unit :=
  other ← the_token t;
  _ ← the_token t';
  if t =? t' then mret tt
  else
    modify (ow_set_token t' (mk_token (ot_subject other) (ot_id other)));;
    modify (ow_set_token t (mk_token None (ot_id other))).

(** The callbacks copied under the lock are called without it, the empty ones
    passed over. *)
Fixpoint call_all (run : list ob_op -> OB unit) (current_callbacks : list callback) : OB unit :=
  match current_callbacks with
  | [] => mret tt
  | Some (name, script) :: cbs => modify (ow_call name);; run script;; call_all run cbs
  | None :: cbs => call_all run cbs
  end.

Section Notify.
(** The order in which the table of callbacks is gone through. *)
Variable order : gmap Z callback -> list (Z * callback).

Definition subject_notify (run : list ob_op -> OB unit) (s : Z) : OB unit :=
  sj ← the_subject s;
  call_all run (order (sj_callbacks sj)).*2.

Definition observer_count (s : Z) : OB Z :=
  sj ← the_subject s; mret (Z.of_nat (size (sj_callbacks sj))).

(** A thread's operations, with callbacks that may notify in their turn; the
    fuel bounds how deep and how long. *)
Fixpoint ob_run (fuel : nat) (ops : list ob_op) : OB unit :=
  match fuel, ops with
  | _, [] => mret tt
  | O, _ => fail OutOfFuel
  | S fuel, op :: ops =>
      (match op with
       | ObRegister s t cb => register_observer s t cb
       | ObMove t t' => token_move t t'
       | ObMoveAssign t t' => token_move_assign t t'
       | ObDestroy t => token_dtor t
       | ObDestroySubject s => _ ← the_subject s; modify (ow_del_subject s)
       | ObNotify s => subject_notify (ob_run fuel) s
       end);;
      ob_run fuel ops
  end.
End Notify.

(** ** The event dispatcher (common/event_dispatcher.h) *)

Definition EVENT_HANDLE_SUCCESS : Z := 0.
Definition EVENT_HANDLE_INTERRUPT : Z := 1.
Definition EVENT_HANDLE_FAILED : Z := 2.
Definition EVENT_HANDLE_NOT_REGISTERED : Z := 3.

Abbreviation s16 := (wrapS 16).

(** [std::vector<std::vector<..>>::max_size()]. *)
Definition MAX_LISTENERS : Z := PTRDIFF_MAX / 24.

Section EventDispatcher.
Context {H E : Type}.
Variable call : H -> E -> Z.

Record event_listener := mk_listener { el_event_type : Z; el_priority : Z; el_handler : option H }.

Definition event_listener_new (event_type priority : Z) (handler : option H) : event_listener :=
  mk_listener (s16 event_type) (s16 priority) handler.

(** The result, and the handler that was called. *)
Definition listener_handle_event (l : event_listener) (event : E) : Z * list H :=
  match el_handler l with
  | Some h => (call h event, [h])
  | None => (EVENT_HANDLE_NOT_REGISTERED, [])
  end.

(** [std::ranges::sort], which leaves the order of equals open. *)
Variable sort : list event_listener -> list event_listener.

Definition register_handler (event_type : Z) (handler : option H) (priority : Z) : M (list (list event_listener)) unit :=
  ls ← get;
  (if len ls <=? u64 event_type then
     if event_type =? 2 ^ 31 - 1 then fail (UB "signed overflow")
     else
       let n := u64 (event_type + 1) in
       if MAX_LISTENERS <? n then throw (ExnLength "vector::_M_default_append")
       else put (take (Z.to_nat n) ls ++ replicate (Z.to_nat n - length ls) [])
   else mret tt);;
  ls ← get;
  match ls !! Z.to_nat (u64 event_type) with
  | Some listeners =>
      put (<[Z.to_nat (u64 event_type) := sort (listeners ++ [event_listener_new event_type priority handler])]> ls)
  | None => fail (UB "vector index out of range")
  end.

Fixpoint dispatch_loop (event_type : Z) (event : E) (listeners : list event_listener) : list H :=
  match listeners with
  | [] => []
  | listener :: rest =>
      if negb (el_event_type listener =? event_type) then dispatch_loop event_type event rest
      else
        let '(r, called) := listener_handle_event listener event in
        if r =? EVENT_HANDLE_INTERRUPT then called else called ++ dispatch_loop event_type event rest
  end.

(** The handlers called, in order. *)
Definition event_dispatch (event_type : Z) (event : E) (ls : list (list event_listener)) : list H :=
  if (event_type <? 0) || (len ls <=? event_type) then []
  else match ls !! Z.to_nat event_type with
       | Some listeners => dispatch_loop event_type event listeners
       | None => []
       end.
End EventDispatcher.
Arguments event_listener : clear implicits.

(** ** Delegates (utility/delegate.h), with [bee::mutex] as their lock *)

(** A mutex is not recursive: a thread that locks it twice is undefined (it
    waits for itself). *)
Record delegate (X : Type) := mk_delegate { dg_executor : option X; dg_locked : bool }.
Arguments mk_delegate {X}.
Arguments dg_executor {X}.
Arguments dg_locked {X}.

Section Delegate.
Context {X R : Type}.

Definition delegate_lock : M (delegate X) unit :=
  d ← get; if dg_locked d then fail (UB "mutex locked twice by one thread") else put (mk_delegate (dg_executor d) true).
Definition delegate_unlock : M (delegate X) unit := modify (fun d => mk_delegate (dg_executor d) false).

Definition delegate_bind (executor : X) : M (delegate X) bool :=
  delegate_lock;;
  d ← get;
  match dg_executor d with
  | Some _ => delegate_unlock;; mret false
  | None => put (mk_delegate (Some executor) (dg_locked d));; delegate_unlock;; mret true
  end.

Definition delegate_force_bind (executor : X) : M (delegate X) unit :=
  delegate_lock;; modify (fun d => mk_delegate (Some executor) (dg_locked d));; delegate_unlock.

Definition delegate_unbind : M (delegate X) bool :=
  delegate_lock;;
  d ← get;
  match dg_executor d with
  | None => delegate_unlock;; mret false
  | Some _ => put (mk_delegate None (dg_locked d));; delegate_unlock;; mret true
  end.

(** The executor is called without the lock, and may use the delegate. *)
Definition delegate_execute (call : X -> M (delegate X) R) : M (delegate X) R :=
  delegate_lock;;
  d ← get;
  match dg_executor d with
  | None => fail (AssertFail "_executor")
  | Some tmp_executor => delegate_unlock;; call tmp_executor
  end.
End Delegate.

(** What a storage of executors under their numbers is to the multicast
    delegate: [iter] lists it from [begin] to [end]. *)
Class DelegateStorage (St : Type -> Type) := {
  st_data : forall {X}, St X;
  st_add : forall {X}, Z * X -> St X -> St X;
  st_del : forall {X}, Z -> St X -> St X;
  st_iter : forall {X}, St X -> list (Z * X);
}.

(** [delegate_vector_storage] and [delegate_list_storage]. *)
Record delegate_list_storage (X : Type) := mk_list_storage { lst_data : list (Z * X) }.
Arguments mk_list_storage {X}.
Arguments lst_data {X}.

Definition list_storage_add {X} (kv : Z * X) (s : delegate_list_storage X) : delegate_list_storage X :=
  mk_list_storage (lst_data s ++ [kv]).
Definition list_storage_del {X} (key : Z) (s : delegate_list_storage X) : delegate_list_storage X :=
  mk_list_storage (List.filter (fun kv => negb (kv.1 =? key)) (lst_data s)).

#[export] Instance list_storage : DelegateStorage delegate_list_storage := {
  st_data := fun X => mk_list_storage [];
  st_add := @list_storage_add;
  st_del := @list_storage_del;
  st_iter := @lst_data;
}.

(** [delegate_map_storage]: a [std::map], ordered by its keys; [insert] leaves
    the value of a key that is there. *)
Record delegate_map_storage (X : Type) := mk_map_storage { mst_data : list (Z * X) }.
Arguments mk_map_storage {X}.
Arguments mst_data {X}.

Fixpoint stdmap_insert {X} (kv : Z * X) (l : list (Z * X)) : list (Z * X) :=
  match l with
  | [] => [kv]
  | x :: l' => if kv.1 <? x.1 then kv :: l else if kv.1 =? x.1 then l else x :: stdmap_insert kv l'
  end.
Definition map_storage_add {X} (kv : Z * X) (s : delegate_map_storage X) : delegate_map_storage X :=
  mk_map_storage (stdmap_insert kv (mst_data s)).
Definition map_storage_del {X} (key : Z) (s : delegate_map_storage X) : delegate_map_storage X :=
  mk_map_storage (List.filter (fun kv => negb (kv.1 =? key)) (mst_data s)).

#[export] Instance map_storage : DelegateStorage delegate_map_storage := {
  st_data := fun X => mk_map_storage [];
  st_add := @map_storage_add;
  st_del := @map_storage_del;
  st_iter := @mst_data;
}.

(** What an executor does when it is called: it returns, throws, or uses the
    delegate that called it. *)
Inductive executor_result := ExReturns | ExThrows | ExUsesDelegate.

Record multicast_delegate (St : Type -> Type) (X : Type) := mk_multicast {
  mc_storage : St X;
  mc_maxid : Z;
  mc_locked : bool;
  mc_called : list X;       (* executors called, oldest first *)
  mc_errors : Z;            (* lines written with ERRORLOG *)
}.
Arguments mk_multicast {St X}.
Arguments mc_storage {St X}.
Arguments mc_maxid {St X}.
Arguments mc_locked {St X}.
Arguments mc_called {St X}.
Arguments mc_errors {St X}.

Section Multicast.
Context {St : Type -> Type} `{!DelegateStorage St} {X : Type}.
Variable call : X -> executor_result.

Definition multicast_new : multicast_delegate St X := mk_multicast st_data 0 false [] 0.

Definition mc_set_locked (b : bool) (m : multicast_delegate St X) : multicast_delegate St X :=
  mk_multicast (mc_storage m) (mc_maxid m) b (mc_called m) (mc_errors m).
Definition mc_set_storage (s : St X) (m : multicast_delegate St X) : multicast_delegate St X :=
  mk_multicast s (mc_maxid m) (mc_locked m) (mc_called m) (mc_errors m).

Definition multicast_lock : M (multicast_delegate St X) unit :=
  m ← get; if mc_locked m then fail (UB "mutex locked twice by one thread") else put (mc_set_locked true m).
Definition multicast_unlock : M (multicast_delegate St X) unit := modify (mc_set_locked false).

(** [_maxid++] on an [int]. *)
Definition multicast_bind (executor : X) : M (multicast_delegate St X) Z :=
  multicast_lock;;
  m ← get;
  let id := mc_maxid m in
  if id =? 2 ^ 31 - 1 then fail (UB "signed overflow")
  else
    put (mk_multicast (st_add (id, executor) (mc_storage m)) (id + 1) (mc_locked m) (mc_called m) (mc_errors m));;
    multicast_unlock;;
    mret id.

Definition multicast_unbind (id : Z) : M (multicast_delegate St X) unit :=
  multicast_lock;;
  m ← get;
  put (mc_set_storage (st_del id (mc_storage m)) m);;
  multicast_unlock.

(** [isbound], as it is written. *)
Definition multicast_isbound : M (multicast_delegate St X) bool :=
  multicast_lock;;
  m ← get;
  multicast_unlock;;
  mret (match st_iter (mc_storage m) with [] => true | _ => false end).

Fixpoint broadcast_loop (storage : list (Z * X)) : M (multicast_delegate St X) unit :=
  match storage with
  | [] => mret tt
  | (_, x) :: rest =>
      modify (fun m => mk_multicast (mc_storage m) (mc_maxid m) (mc_locked m) (mc_called m ++ [x]) (mc_errors m));;
      (match call x with
       | ExReturns => mret tt
       | ExThrows => modify (fun m => mk_multicast (mc_storage m) (mc_maxid m) (mc_locked m) (mc_called m) (mc_errors m + 1))
       | ExUsesDelegate => multicast_lock
       end);;
      broadcast_loop rest
  end.

Definition multicast_broadcast : M (multicast_delegate St X) unit :=
  multicast_lock;;
  m ← get;
  broadcast_loop (st_iter (mc_storage m));;
  multicast_unlock.

(** A user's calls, and the numbers that binding returned. *)
Inductive multicast_op := McBind (executor : X) | McUnbind (id : Z) | McBroadcast.

Fixpoint multicast_run (ops : list multicast_op) : M (multicast_delegate St X) (list Z) :=
  match ops with
  | [] => mret []
  | McBind x :: ops => id ← multicast_bind x; ids ← multicast_run ops; mret (id :: ids)
  | McUnbind id :: ops => multicast_unbind id;; multicast_run ops
  | McBroadcast :: ops => multicast_broadcast;; multicast_run ops
  end.
End Multicast.
Arguments multicast_op : clear implicits.

(** ** Entities and their components (common/entity.h) *)

(** A component is its type and whether it was assigned. *)
Record component_base := mk_component { cb_type : Z; cb_idx : Z; cb_is_assigned : bool }.

(** An entity, with the numbers that the static variables of
    [get_component_index] hold, one a type. *)
Record entity := mk_entity {
  en_components : list (option component_base);
  en_index : gmap Z Z;
  en_next_index : Z;
}.

Definition entity_new : entity := mk_entity [] ∅ 0.

Definition get_component_index (T : Z) : M entity Z :=
  e ← get;
  match en_index e !! T with
  | Some i => mret i
  | None =>
      put (mk_entity (en_components e) (<[T := en_next_index e]> (en_index e)) (u64 (en_next_index e + 1)));;
      mret (en_next_index e)
  end.

Definition en_set_components (cs : list (option component_base)) (e : entity) : entity :=
  mk_entity cs (en_index e) (en_next_index e).

Definition add_component (T : Z) : M entity unit :=
  index ← get_component_index T;
  e ← get;
  (if len (en_components e) <=? index then
     put (en_set_components (en_components e ++ replicate (Z.to_nat (index + 1) - length (en_components e)) None) e)
   else mret tt);;
  e ← get;
  match en_components e !! Z.to_nat index with
  | Some None => put (en_set_components (<[Z.to_nat index := Some (mk_component T (u8 index) false)]> (en_components e)) e)
  | Some (Some _) => mret tt
  | None => fail (UB "vector index out of range")
  end.

(** [index < _components.size() && _components[index]->_is_assgined] *)
Definition component_found (T : Z) : M entity (option component_base) :=
  index ← get_component_index T;
  e ← get;
  if index <? len (en_components e) then
    match en_components e !! Z.to_nat index with
    | Some (Some c) => mret (if cb_is_assigned c then Some c else None)
    | Some None => fail (UB "null component")
    | None => fail (UB "vector index out of range")
    end
  else mret None.

Definition get_component (T : Z) : M entity (option component_base) := component_found T.
Definition has_component (T : Z) : M entity bool := c ← component_found T; mret (bool_decide (is_Some c)).

(** [comp->assign(..)] is the component's own; [comp] points into the slot of its
    type. *)
Definition component_assign (T : Z) : M entity unit :=
  index ← get_component_index T;
  comp ← get_component T;
  match comp with
  | Some c =>
      modify (fun e => en_set_components
        (<[Z.to_nat index := Some (mk_component (cb_type c) (cb_idx c) true)]> (en_components e)) e)
  | None => mret tt
  end.

Inductive entity_op := EnAdd (T : Z) | EnHas (T : Z) | EnAssign (T : Z).

(** A program's calls, and what [has_component] answered. *)
Fixpoint entity_run (ops : list entity_op) : M entity (list bool) :=
  match ops with
  | [] => mret []
  | EnAdd T :: ops => add_component T;; entity_run ops
  | EnHas T :: ops => b ← has_component T; bs ← entity_run ops; mret (b :: bs)
  | EnAssign T :: ops => component_assign T;; entity_run ops
  end.

(** * What is proved of them *)

(** ** Tokens own their registrations *)

(** Every token that has its subject holds a registration there, which no other
    token holds. *)
Definition tokens_own (w : observers) : Prop :=
  forall s sj, ow_subjects w !! s = Some sj ->
    0 <= sj_next_id sj <= ow_registered w /\
    (forall id cb, sj_callbacks sj !! id = Some cb -> 0 <= id < sj_next_id sj) /\
    (forall t id, ow_tokens w !! t = Some (mk_token (Some s) id) -> is_Some (sj_callbacks sj !! id)) /\
    (forall t1 t2 id, ow_tokens w !! t1 = Some (mk_token (Some s) id) -> ow_tokens w !! t2 = Some (mk_token (Some s) id) -> t1 = t2).

(** One state leads to another: registrations are only added, and as long as
    their numbers have not run out, what tokens own stays so. *)
Definition ob_leads (w w' : observers) : Prop :=
  ow_registered w <= ow_registered w' /\ (ow_registered w' < 2 ^ 64 -> tokens_own w -> tokens_own w').
Definition ob_steps {A} (f : OB A) : Prop := forall w, ob_leads w (f w).1.

Lemma ob_leads_refl w : ob_leads w w.
Proof. split; [lia|auto]. Qed.

Lemma ob_leads_trans w1 w2 w3 : ob_leads w1 w2 -> ob_leads w2 w3 -> ob_leads w1 w3.
Proof. intros [? H1] [? H2]. split; [lia|]. intros. apply H2; [done|]. apply H1; [lia|done]. Qed.

Lemma ob_steps_bind {A B} (f : OB A) (k : A -> OB B) :
  ob_steps f -> (forall a, ob_steps (k a)) -> ob_steps (f ≫= k).
Proof.
  intros Hf Hk w. specialize (Hf w). unfold mbind, M_bind.
  destruct (f w) as [w' [a| |]]; cbn [fst] in *; [|done..].
  eapply ob_leads_trans; [done|apply Hk].
Qed.

Lemma ob_steps_pure {A} (f : OB A) : (forall w, (f w).1 = w) -> ob_steps f.
Proof. intros H w. rewrite H. apply ob_leads_refl. Qed.

Lemma the_subject_pure s w : (the_subject s w).1 = w.
Proof. unfold the_subject. rewrite M_get. by destruct (ow_subjects w !! s). Qed.
Lemma the_token_pure t w : (the_token t w).1 = w.
Proof. unfold the_token. rewrite M_get. by destruct (ow_tokens w !! t). Qed.

Lemma the_subject_ok s w sj : ow_subjects w !! s = Some sj -> the_subject s w = (w, Ok sj).
Proof. intros H. unfold the_subject. rewrite M_get. by rewrite H. Qed.
Lemma the_token_ok t w tk : ow_tokens w !! t = Some tk -> the_token t w = (w, Ok tk).
Proof. intros H. unfold the_token. rewrite M_get. by rewrite H. Qed.

(** A look-up that fails changes nothing; one that succeeds is the rest's. *)
Lemma ob_steps_subject {A} s (k : subject -> OB A) :
  (forall w sj, ow_subjects w !! s = Some sj -> ob_leads w (k sj w).1) -> ob_steps (the_subject s ≫= k).
Proof.
  intros Hk w. destruct (ow_subjects w !! s) as [sj|] eqn:E.
  - rewrite (M_bind_ok _ _ w w sj) by by apply the_subject_ok. by apply Hk.
  - rewrite (M_bind_fault _ _ w w (UB "subject after its destruction")); [apply ob_leads_refl|].
    unfold the_subject. rewrite M_get. by rewrite E.
Qed.
Lemma ob_steps_token {A} t (k : observer_token -> OB A) :
  (forall w tk, ow_tokens w !! t = Some tk -> ob_leads w (k tk w).1) -> ob_steps (the_token t ≫= k).
Proof.
  intros Hk w. destruct (ow_tokens w !! t) as [tk|] eqn:E.
  - rewrite (M_bind_ok _ _ w w tk) by by apply the_token_ok. by apply Hk.
  - rewrite (M_bind_fault _ _ w w (UB "token after its destruction")); [apply ob_leads_refl|].
    unfold the_token. rewrite M_get. by rewrite E.
Qed.

Lemma own_register s t cb sj w :
  ow_subjects w !! s = Some sj -> ow_tokens w !! t = None -> ow_registered w + 1 < 2 ^ 64 -> tokens_own w ->
  tokens_own (ow_count_registration (ow_set_token t (mk_token (Some s) (sj_next_id sj))
    (ow_set_subject s (mk_subject (match sj_callbacks sj !! sj_next_id sj with None => <[sj_next_id sj := cb]> (sj_callbacks sj)
      | Some _ => sj_callbacks sj end) (u64 (sj_next_id sj + 1))) w))).
Proof.
  intros Hs Ht Hlt Hown s' sj'. cbn.
  destruct (Hown s sj Hs) as (Hn & Hid & Htk & Huniq).
  assert (sj_callbacks sj !! sj_next_id sj = None) as Hfresh.
  { destruct (sj_callbacks sj !! sj_next_id sj) eqn:E; [|done]. apply Hid in E. lia. }
  rewrite Hfresh, wrapU_small by word_lia.
  destruct (decide (s' = s)) as [->|Hne].
  - rewrite lookup_insert_eq. intros [= <-]. cbn. split; [lia|]. split_and!.
    + intros id cb'. rewrite lookup_insert_Some. intros [[<- _]|[_ E]]; [lia|]. apply Hid in E. lia.
    + intros t' id. rewrite !lookup_insert_Some. intros [[_ [= <-]]|[_ E]]; [by rewrite lookup_insert_eq|].
      apply Htk in E. destruct (decide (id = sj_next_id sj)) as [->|]; [by rewrite lookup_insert_eq|].
      by rewrite lookup_insert_ne.
    + intros t1 t2 id. rewrite !lookup_insert_Some.
      intros [[<- [= <-]]|[? E1]] [[<- E2]|[? E2]]; simplify_eq; try done; [..|by eapply Huniq].
      * apply Htk in E2. rewrite Hfresh in E2. by destruct E2.
      * apply Htk in E1. rewrite Hfresh in E1. by destruct E1.
  - rewrite lookup_insert_ne by done. intros Hs'. destruct (Hown s' sj' Hs') as (Hn' & Hid' & Htk' & Huniq').
    split; [lia|]. split_and!; [done|..].
    + intros t' id. rewrite lookup_insert_Some. intros [[_ [= ? _]]|[_ E]]; [done|by eapply Htk'].
    + intros t1 t2 id. rewrite !lookup_insert_Some.
      intros [[<- [= ?]]|[? E1]] [[<- [= ?]]|[? E2]]; try done. by eapply Huniq'.
Qed.

Lemma own_unregister s t id sj w :
  ow_subjects w !! s = Some sj -> ow_tokens w !! t = Some (mk_token (Some s) id) -> tokens_own w ->
  tokens_own (ow_del_token t (ow_set_subject s (mk_subject (delete id (sj_callbacks sj)) (sj_next_id sj)) w)).
Proof.
  intros Hs Ht Hown s' sj'. cbn. rewrite lookup_insert_Some.
  intros [[<- <-]|[Hne Hs']]; cbn.
  - destruct (Hown s sj Hs) as (Hn & Hid & Htk & Huniq). split; [done|]. split_and!.
    + intros id' cb. rewrite lookup_delete_Some. intros [_ E]. by eapply Hid.
    + intros t' id'. rewrite lookup_delete_Some. intros [Hne E].
      rewrite lookup_delete_ne; [by eapply Htk|]. intros ->. by apply Hne, (Huniq t t' id').
    + intros t1 t2 id'. rewrite !lookup_delete_Some. intros [_ E1] [_ E2]. by eapply Huniq.
  - destruct (Hown s' sj' Hs') as (Hn & Hid & Htk & Huniq). split; [done|]. split_and!; [done|..].
    + intros t' id'. rewrite lookup_delete_Some. intros [_ E]. by eapply Htk.
    + intros t1 t2 id'. rewrite !lookup_delete_Some. intros [_ E1] [_ E2]. by eapply Huniq.
Qed.

Lemma own_move t t' tk w :
  ow_tokens w !! t = Some tk -> t <> t' -> tokens_own w ->
  tokens_own (ow_set_token t (mk_token None (ot_id tk)) (ow_set_token t' (mk_token (ot_subject tk) (ot_id tk)) w)).
Proof.
  intros Ht Hne Hown s sj Hs. destruct (Hown s sj Hs) as (Hn & Hid & Htk & Huniq).
  assert (forall x id, <[t := mk_token None (ot_id tk)]> (<[t' := mk_token (ot_subject tk) (ot_id tk)]> (ow_tokens w)) !! x
      = Some (mk_token (Some s) id) ->
    exists y, ow_tokens w !! y = Some (mk_token (Some s) id) /\ (if decide (x = t') then y = t else y = x /\ y <> t)) as Hfrom.
  { intros x id. rewrite !lookup_insert_Some. intros [[_ [= _]]|[? [[<- [= <- <-]]|[? E]]]].
    - exists t. rewrite decide_True by done. by destruct tk.
    - exists x. by rewrite decide_False. }
  split; [done|]. split_and!; [done|..]; cbn [ow_tokens ow_set_token].
  - intros x id E. apply Hfrom in E as (y & E & _). by eapply Htk.
  - intros t1 t2 id E1 E2. apply Hfrom in E1 as (y1 & E1 & H1). apply Hfrom in E2 as (y2 & E2 & H2).
    pose proof (Huniq y1 y2 id E1 E2) as ->. repeat case_decide; naive_solver.
Qed.

Lemma ob_steps_register s t cb : ob_steps (register_observer s t cb).
Proof.
  apply ob_steps_subject. intros w sj Hs. rewrite M_get. case_decide as Ht; [|apply ob_leads_refl]. rewrite !M_modify.
  split; [cbn -[Z.add Z.le]; lia|]. intros Hlt Hown. by apply own_register.
Qed.

Lemma ob_steps_dtor t : ob_steps (token_dtor t).
Proof.
  apply ob_steps_token. intros w [[s|] id] Ht; cbn [ot_subject ot_id].
  - destruct (ow_subjects w !! s) as [sj|] eqn:Hs.
    + unfold unregister_observer.
      rewrite (M_bind_ok _ _ w (ow_set_subject s (mk_subject (delete id (sj_callbacks sj)) (sj_next_id sj)) w) tt)
        by by rewrite (M_bind_ok _ _ w w sj) by by apply the_subject_ok.
      split; [cbn -[Z.add Z.le]; lia|]. intros _ Hown. by apply own_unregister.
    + rewrite (M_bind_fault _ _ w w (UB "subject after its destruction")); [apply ob_leads_refl|].
      unfold unregister_observer. apply M_bind_fault. unfold the_subject. rewrite M_get. by rewrite Hs.
  - rewrite (M_bind_ok _ _ w w tt) by done.
    split; [cbn -[Z.add Z.le]; lia|]. intros _ Hown s sj Hs. destruct (Hown s sj Hs) as (Hn & Hid & Htk & Huniq).
    split; [done|]. split_and!; [done|..]; cbn.
    + intros t' id'. rewrite lookup_delete_Some. intros [_ E]. by eapply Htk.
    + intros t1 t2 id'. rewrite !lookup_delete_Some. intros [_ E1] [_ E2]. by eapply Huniq.
Qed.

Lemma ob_steps_move t t' : ob_steps (token_move t t').
Proof.
  apply ob_steps_token. intros w tk Ht. rewrite M_get. case_decide as Ht'; [|apply ob_leads_refl]. rewrite M_modify.
  split; [cbn -[Z.add Z.le]; lia|]. intros _. apply own_move; congruence.
Qed.

Lemma ob_steps_move_assign t t' : ob_steps (token_move_assign t t').
Proof.
  apply ob_steps_token. intros w tk Ht.
  destruct (ow_tokens w !! t') as [tk'|] eqn:Ht'.
  - rewrite (M_bind_ok _ _ w w tk') by by apply the_token_ok.
    destruct (t =? t') eqn:E; [apply ob_leads_refl|]. rewrite M_modify.
    split; [cbn -[Z.add Z.le]; lia|]. intros _. apply own_move; [done|]. by apply Z.eqb_neq.
  - rewrite (M_bind_fault _ _ w w (UB "token after its destruction")); [apply ob_leads_refl|].
    unfold the_token. rewrite M_get. by rewrite Ht'.
Qed.

Lemma ob_steps_call_all run cbs : (forall ops, ob_steps (run ops)) -> ob_steps (call_all run cbs).
Proof.
  intros Hrun. induction cbs as [|[[name script]|] cbs IH]; cbn [call_all]; [by apply ob_steps_pure| |done].
  apply ob_steps_bind; [intros w; split; [cbn -[Z.add Z.le]; lia|auto]|]. intros _.
  by apply ob_steps_bind.
Qed.

Lemma ob_steps_destroy_subject s : ob_steps (_ ← the_subject s; modify (ow_del_subject s)).
Proof.
  apply ob_steps_subject. intros w sj Hs. split; [cbn -[Z.add Z.le]; lia|]. intros _ Hown s' sj'. cbn.
  rewrite lookup_delete_Some. intros [_ Hs']. by apply Hown.
Qed.

Lemma ob_steps_run order fuel ops : ob_steps (ob_run order fuel ops).
Proof.
  revert ops. induction fuel as [|fuel IH]; intros [|op ops]; cbn [ob_run]; [by apply ob_steps_pure..|].
  apply ob_steps_bind; [|done].
  destruct op; auto using ob_steps_register, ob_steps_move, ob_steps_move_assign, ob_steps_dtor, ob_steps_destroy_subject.
  apply ob_steps_subject. intros w sj _. by apply ob_steps_call_all.
Qed.

(** C35 — Whatever a program does with subjects and tokens -- registering, moving,
    assigning and destroying tokens, destroying subjects, notifying, and all of it
    again inside the callbacks -- and however it ends, a token that is bound to a
    living subject holds a registration there, and no two tokens hold the same;
    the numbers of the registrations are what bounds it. *)
Theorem observer_tokens_own order fuel ops w :
  tokens_own w -> ow_registered (ob_run order fuel ops w).1 < 2 ^ 64 -> tokens_own (ob_run order fuel ops w).1.
Proof. intros Hown Hlt. by apply (ob_steps_run order fuel ops w). Qed.

(** Destroying a token takes exactly its own callback out. *)
Lemma token_dtor_unregisters s t id sj w :
  ow_subjects w !! s = Some sj -> ow_tokens w !! t = Some (mk_token (Some s) id) ->
  token_dtor t w = (ow_del_token t (ow_set_subject s (mk_subject (delete id (sj_callbacks sj)) (sj_next_id sj)) w), Ok tt).
Proof.
  intros Hs Ht. unfold token_dtor. rewrite (M_bind_ok _ _ w w _ (the_token_ok t w _ Ht)). cbn [ot_subject ot_id].
  unfold unregister_observer.
  by rewrite (M_bind_ok _ _ w (ow_set_subject s (mk_subject (delete id (sj_callbacks sj)) (sj_next_id sj)) w) tt)
    by by rewrite (M_bind_ok _ _ w w sj) by by apply the_subject_ok.
Qed.

(** The move assignment forgets the registration the token held: the callback
    stays, and nothing unregisters it. *)
Lemma move_assign_leaks s t t' id1 id2 sj w :
  tokens_own w -> t <> t' -> ow_subjects w !! s = Some sj ->
  ow_tokens w !! t = Some (mk_token (Some s) id1) -> ow_tokens w !! t' = Some (mk_token (Some s) id2) ->
  exists w', token_move_assign t t' w = (w', Ok tt) /\
    ow_subjects w' !! s = Some sj /\ is_Some (sj_callbacks sj !! id2) /\
    forall x, ow_tokens w' !! x <> Some (mk_token (Some s) id2).
Proof.
  intros Hown Hne Hs Ht Ht'. destruct (Hown s sj Hs) as (_ & _ & Htk & Huniq).
  eexists. split.
  - unfold token_move_assign. rewrite (M_bind_ok _ _ w w _ (the_token_ok _ _ _ Ht)).
    rewrite (M_bind_ok _ _ w w _ (the_token_ok _ _ _ Ht')), (proj2 (Z.eqb_neq t t') Hne), M_modify. done.
  - cbn. split_and!; [done|by eapply Htk|]. intros x. rewrite !lookup_insert_Some.
    intros [[_ [= _]]|[? [[<- [= E]]|[? E]]]].
    + apply Hne. eapply (Huniq t t' id2); [by rewrite Ht, E|done].
    + by eapply (Huniq x t' id2) in Ht'.
Qed.

(** A script without a notification calls nothing. *)
Definition ob_quiet (ops : list ob_op) : bool := forallb (fun op => match op with ObNotify _ => false | _ => true end) ops.
Definition same_calls {A} (f : OB A) : Prop := forall w, ow_calls (f w).1 = ow_calls w.

Lemma same_calls_bind {A B} (f : OB A) (k : A -> OB B) : same_calls f -> (forall a, same_calls (k a)) -> same_calls (f ≫= k).
Proof.
  intros Hf Hk w. specialize (Hf w). unfold mbind, M_bind.
  destruct (f w) as [w' [a| |]]; cbn [fst] in *; [|done..]. rewrite <- Hf. apply Hk.
Qed.
Lemma same_calls_pure {A} (f : OB A) : (forall w, (f w).1 = w) -> same_calls f.
Proof. intros H w. by rewrite H. Qed.

Ltac same_calls_step :=
  match goal with
  | |- forall _, _ => intros ?
  | |- same_calls (_ ≫= _) => apply same_calls_bind
  | |- same_calls (the_subject _) => apply same_calls_pure, the_subject_pure
  | |- same_calls (the_token _) => apply same_calls_pure, the_token_pure
  | |- same_calls (match _ with _ => _ end) => case_match
  | |- same_calls _ => intros ?; reflexivity
  end.

Lemma ob_quiet_same order fuel ops : ob_quiet ops = true -> same_calls (ob_run order fuel ops).
Proof.
  revert ops. induction fuel as [|fuel IH]; intros [|op ops]; [by intros _; apply same_calls_pure..|].
  cbn [ob_run ob_quiet forallb]. intros [Hop Hops]%andb_true_iff.
  apply same_calls_bind; [|by intros; apply IH].
  unfold register_observer, token_move, token_move_assign, token_dtor, unregister_observer.
  destruct op; [..|done]; repeat same_calls_step.
Qed.

(** The names of the callbacks that are not empty. *)
Definition callback_names (cbs : list callback) : list Z := fst <$> omap id cbs.

Lemma call_all_snapshot order fuel cbs w :
  Forall (fun cb : callback => match cb with Some (_, script) => ob_quiet script = true | None => True end) cbs ->
  (call_all (ob_run order fuel) cbs w).2 = Ok tt ->
  ow_calls (call_all (ob_run order fuel) cbs w).1 = ow_calls w ++ callback_names cbs.
Proof.
  intros Hquiet. revert w.
  induction Hquiet as [|[[name script]|] cbs Hq Hquiet IH]; intros w; cbn [call_all].
  - intros _. change (ow_calls w = ow_calls w ++ []). by rewrite app_nil_r.
  - rewrite M_modify. unfold mbind at 1 2, M_bind at 1 2.
    pose proof (ob_quiet_same order fuel script Hq (ow_call name w)) as Hcalls.
    destruct (ob_run order fuel script (ow_call name w)) as [w' [[]| |]] eqn:E; [|done..].
    cbn [fst] in Hcalls. intros Hok. rewrite IH by done. rewrite Hcalls. cbn. by rewrite <- app_assoc.
  - apply IH.
Qed.

(** A notification calls what was registered when it began, each once, in the
    order of the table, whatever the callbacks do meanwhile: one that an earlier
    one has unregistered is called all the same. *)
Lemma notify_calls_snapshot order fuel s w sj :
  ow_subjects w !! s = Some sj ->
  Forall (fun cb : callback => match cb with Some (_, script) => ob_quiet script = true | None => True end)
    (order (sj_callbacks sj)).*2 ->
  (subject_notify order (ob_run order fuel) s w).2 = Ok tt ->
  ow_calls (subject_notify order (ob_run order fuel) s w).1 = ow_calls w ++ callback_names (order (sj_callbacks sj)).*2.
Proof.
  intros Hs. unfold subject_notify. rewrite (M_bind_ok _ _ w w sj) by by apply the_subject_ok.
  apply call_all_snapshot.
Qed.

(** Two callbacks, the one called first destroys the other's token. *)
Definition demo_scripts : list ob_op :=
  [ObRegister 1 10 (Some (100, [])); ObRegister 1 11 (Some (101, [ObDestroy 10])); ObNotify 1].
Definition demo_observers : observers := mk_observers {[1 := subject_new]} ∅ [] 0.

Lemma own_demo : tokens_own demo_observers.
Proof.
  intros s sj. cbn. rewrite lookup_singleton_Some. intros [<- <-]. cbn.
  split_and!; [lia..| | |]; intros *; rewrite ?lookup_empty; done.
Qed.

Lemma observer_tokens_own_witness :
  tokens_own (ob_run map_to_list 10 demo_scripts demo_observers).1 /\
  ow_calls (ob_run map_to_list 10 demo_scripts demo_observers).1 = [101; 100] /\
  ow_tokens (ob_run map_to_list 10 demo_scripts demo_observers).1 !! 10 = None.
Proof.
  split_and!; [|vm_compute; reflexivity..].
  apply (observer_tokens_own map_to_list 10 demo_scripts demo_observers own_demo). vm_compute. reflexivity.
Defined.

(** ** The dispatcher calls by priority *)

Section DispatcherLaws.
Context {H E : Type}.
Variable call : H -> E -> Z.
Variable sort : list (event_listener H) -> list (event_listener H).

(** What [std::ranges::sort] promises. *)
Definition by_priority (l r : event_listener H) : Prop := el_priority r <= el_priority l.
Hypothesis sort_perm : forall l, sort l ≡ₚ l.
Hypothesis sort_sorted : forall l, StronglySorted by_priority (sort l).

(** A registration, with a type and a priority that fit their 16 bits. *)
Definition reg_ok (r : Z * option H * Z) : Prop := 0 <= r.1.1 < 2 ^ 15 /\ inS 16 r.2.

Fixpoint register_all (regs : list (Z * option H * Z)) : M (list (list (event_listener H))) unit :=
  match regs with
  | [] => mret tt
  | (t, h, p) :: regs => register_handler sort t h p;; register_all regs
  end.

(** The listeners registered for one type, in the order of registration. *)
Definition listeners_of (t : Z) (regs : list (Z * option H * Z)) : list (event_listener H) :=
  omap (fun r => if r.1.1 =? t then Some (mk_listener r.1.1 r.2 r.1.2) else None) regs.

(** The lists hold what was registered, each type's by falling priority. *)
Definition dispatcher_holds (regs : list (Z * option H * Z)) (ls : list (list (event_listener H))) : Prop :=
  len ls <= 2 ^ 15 /\
  forall t, 0 <= t -> default [] (ls !! Z.to_nat t) ≡ₚ listeners_of t regs /\
    StronglySorted by_priority (default [] (ls !! Z.to_nat t)).

(** The calls a sorted list amounts to: up to the first that interrupts. *)
Fixpoint until_interrupt (event : E) (hs : list H) : list H :=
  match hs with
  | [] => []
  | h :: hs => h :: if call h event =? EVENT_HANDLE_INTERRUPT then [] else until_interrupt event hs
  end.

Lemma listeners_of_app t regs regs' : listeners_of t (regs ++ regs') = listeners_of t regs ++ listeners_of t regs'.
Proof. clear. unfold listeners_of. apply omap_app. Qed.

Lemma listeners_of_type t regs : Forall (fun l => el_event_type l = t) (listeners_of t regs).
Proof.
  clear. induction regs as [|[[t' h] p] regs IH]; [constructor|].
  unfold listeners_of in *. cbn. destruct (t' =? t) eqn:E'; [|done]. constructor; [cbn; lia|done].
Qed.

(** The lists after the resize: as before, with empty ones behind. *)
Lemma resized_lookup (ls : list (list (event_listener H))) n i :
  (length ls <= n)%nat -> default [] ((take n ls ++ replicate (n - length ls) []) !! i) = default [] (ls !! i).
Proof.
  clear. intros Hn. rewrite take_ge by done. destruct (decide (i < length ls)%nat) as [Hi|Hi].
  - by rewrite lookup_app_l.
  - rewrite lookup_app_r by lia. rewrite (lookup_ge_None_2 ls) by lia.
    destruct (replicate _ _ !! _) eqn:E'; [|done]. by apply lookup_replicate in E' as [-> _].
Qed.

Lemma register_step regs ls t h p :
  reg_ok (t, h, p) -> dispatcher_holds regs ls ->
  exists ls', register_handler sort t h p ls = (ls', Ok tt) /\ dispatcher_holds (regs ++ [(t, h, p)]) ls'.
Proof using sort_perm sort_sorted.
  intros [Ht Hp] [Hlen Hls]. change (0 <= t < 2 ^ 15) in Ht. change (inS 16 p) in Hp.
  set (n := if len ls <=? t then (Z.to_nat (t + 1)) else length ls).
  set (ls1 := take n ls ++ replicate (n - length ls) []).
  assert (length ls <= n)%nat as Hn by (unfold n, len in *; destruct (Z.of_nat (length ls) <=? t) eqn:E'; lia).
  assert (length ls1 = n) as Hlen1 by (unfold ls1; rewrite length_app, length_take, length_replicate; lia).
  assert (Z.to_nat t < n)%nat as Htn by (unfold n, len in *; destruct (Z.of_nat (length ls) <=? t) eqn:E'; lia).
  destruct (lookup_lt_is_Some_2 ls1 (Z.to_nat t)) as [old Hold]; [lia|].
  exists (<[Z.to_nat t := sort (old ++ [mk_listener t p h])]> ls1). split.
  - unfold register_handler. rewrite M_get, (wrapU_small 64 t) by word_lia.
    erewrite (M_bind_ok _ _ ls ls1 tt).
    + rewrite M_get, Hold. unfold event_listener_new. by rewrite !wrapS_small by (unfold inS in *; change (16 - 1) with 15 in *; lia).
    + unfold ls1, n. destruct (len ls <=? t) eqn:E'.
      * rewrite (proj2 (Z.eqb_neq t (2 ^ 31 - 1))) by lia. rewrite wrapU_small by word_lia.
        rewrite (proj2 (Z.ltb_ge MAX_LISTENERS (t + 1))); [done|].
        assert (2 ^ 15 <= MAX_LISTENERS) by (vm_compute; discriminate). lia.
      * by rewrite take_ge, Nat.sub_diag, app_nil_r by lia.
  - split; [unfold len; rewrite length_insert, Hlen1; unfold n, len in *; destruct (Z.of_nat (length ls) <=? t); lia|].
    intros t' Ht'. destruct (Hls t' Ht') as [Hperm Hsort]. rewrite listeners_of_app.
    unfold listeners_of at 2. cbn. destruct (decide (t' = t)) as [->|Hne].
    + rewrite list_lookup_insert_eq, Z.eqb_refl by lia. cbn. split; [|apply sort_sorted].
      rewrite sort_perm. apply Permutation_app; [|done]. rewrite <- Hperm.
      rewrite <- (resized_lookup ls n (Z.to_nat t) Hn). fold ls1. by rewrite Hold.
    + rewrite list_lookup_insert_ne by lia. rewrite (proj2 (Z.eqb_neq t t')) by done. cbn.
      rewrite app_nil_r. unfold ls1. by rewrite resized_lookup.
Qed.

Lemma register_all_holds regs regs0 ls :
  Forall reg_ok regs -> dispatcher_holds regs0 ls ->
  exists ls', register_all regs ls = (ls', Ok tt) /\ dispatcher_holds (regs0 ++ regs) ls'.
Proof using sort_perm sort_sorted.
  intros Hregs. revert regs0 ls. induction Hregs as [|[[t h] p] regs Hr Hregs IH]; intros regs0 ls Hls.
  - exists ls. by rewrite app_nil_r.
  - destruct (register_step regs0 ls t h p Hr Hls) as (ls' & E1 & Hls').
    destruct (IH _ _ Hls') as (ls'' & E2 & Hls''). exists ls''. cbn [register_all].
    rewrite (M_bind_ok _ _ _ _ _ E1), E2. split; [done|]. by rewrite <- app_assoc in Hls''.
Qed.

Lemma dispatch_loop_calls t event l :
  Forall (fun x => el_event_type x = t) l ->
  dispatch_loop call t event l = until_interrupt event (omap el_handler l).
Proof using Type.
  induction 1 as [|x l Hx Hl IH]; [done|]. cbn [dispatch_loop]. rewrite Hx, Z.eqb_refl. cbn [negb].
  unfold listener_handle_event. cbn. destruct (el_handler x) as [h|]; cbn; [|done].
  destruct (call h event =? EVENT_HANDLE_INTERRUPT); [done|]. by rewrite IH.
Qed.

(** After any registrations (of types and priorities that fit 16 bits) an
    event is handed to the handlers registered for its type, each registration
    once and the empty ones passed over, by falling priority, up to and including
    the first that interrupts. *)
Theorem dispatch_by_priority regs :
  Forall reg_ok regs ->
  exists ls, register_all regs [] = (ls, Ok tt) /\
    forall t event, 0 <= t -> exists l,
      l ≡ₚ listeners_of t regs /\ StronglySorted by_priority l /\
      event_dispatch call t event ls = until_interrupt event (omap el_handler l).
Proof using sort_perm sort_sorted.
  intros Hregs. destruct (register_all_holds regs [] [] Hregs) as (ls & E' & Hlen & Hls).
  { split; [done|]. intros t _. by split; [|constructor]. }
  exists ls. split; [done|]. intros t event Ht. destruct (Hls t Ht) as [Hperm Hsort].
  exists (default [] (ls !! Z.to_nat t)). split; [done|]. split; [done|].
  rewrite <- dispatch_loop_calls with (t := t) by (rewrite Hperm; apply listeners_of_type).
  unfold event_dispatch. rewrite (proj2 (Z.ltb_ge t 0)) by done. cbn [orb].
  destruct (len ls <=? t) eqn:Elen; [|by destruct (ls !! Z.to_nat t)].
  rewrite lookup_ge_None_2 by (unfold len in *; lia). done.
Qed.

(** A type behind 16 bits never matches its own listeners. *)
Lemma wide_type_never_called event (ls : list (event_listener H)) t :
  2 ^ 15 <= t < 2 ^ 31 -> Forall (fun x => exists t' p h, x = event_listener_new t' p h) ls ->
  dispatch_loop call t event ls = [].
Proof using Type.
  intros Ht. induction 1 as [|x ls (t' & p & h & ->) Hls IH]; [done|]. cbn [dispatch_loop].
  rewrite (proj2 (Z.eqb_neq _ t)); [done|]. cbn. pose proof (wrapS_range 16 t' ltac:(lia)) as Hr. unfold inS in Hr. change (16 - 1) with 15 in Hr. lia.
Qed.

(** The type -1 empties the dispatcher and then writes behind its end. *)
Lemma negative_type_undefined h p (ls : list (list (event_listener H))) :
  len ls <= 2 ^ 31 -> register_handler sort (-1) h p ls = ([], Fault (UB "vector index out of range")).
Proof using Type.
  intros Hlen. unfold register_handler. rewrite M_get.
  change (u64 (-1)) with (2 ^ 64 - 1). rewrite (proj2 (Z.leb_le (len ls) (2 ^ 64 - 1))) by lia.
  rewrite (M_bind_ok _ _ ls [] tt) by (change (u64 (-1 + 1)) with 0; done). done.
Qed.
End DispatcherLaws.

(** Insertion sort, by falling priority. *)
#[export] Instance by_priority_dec {H} : RelDecision (@by_priority H) := fun l r => decide (el_priority r <= el_priority l).
#[export] Instance by_priority_total {H} : Total (@by_priority H).
Proof. intros l r. unfold by_priority. lia. Qed.
#[export] Instance by_priority_trans {H} : Transitive (@by_priority H).
Proof. intros l r x. unfold by_priority. lia. Qed.

Definition demo_regs : list (Z * option Z * Z) := [(3, Some 30, 100); (3, Some 31, 300); (3, None, 200); (0, Some 1, 0)].

Lemma dispatch_by_priority_witness :
  exists ls, register_all (merge_sort by_priority) demo_regs [] = (ls, Ok tt) /\
    (exists l, l ≡ₚ listeners_of 3 demo_regs /\ StronglySorted by_priority l /\
      event_dispatch (fun h (_ : unit) => if h =? 31 then EVENT_HANDLE_INTERRUPT else EVENT_HANDLE_SUCCESS) 3 tt ls = [31]).
Proof.
  destruct (dispatch_by_priority (fun h (_ : unit) => if h =? 31 then EVENT_HANDLE_INTERRUPT else EVENT_HANDLE_SUCCESS)
    (merge_sort by_priority) (merge_sort_Permutation by_priority) (fun l => StronglySorted_merge_sort by_priority l) demo_regs) as (ls & E & Hd).
  { unfold demo_regs. rewrite !Forall_cons, Forall_nil. unfold reg_ok, inS. cbn [fst snd]. change (16 - 1) with 15. lia. }
  exists ls. split; [exact E|]. destruct (Hd 3 tt ltac:(lia)) as (l & Hp & Hs & Hcalls).
  exists l. split; [exact Hp|]. split; [exact Hs|]. vm_compute in E. injection E as <-. vm_compute. reflexivity.
Defined.

(** ** Delegates *)

(** Outside a call the lock is free: binding, unbinding and executing then work
    as a cell that holds an executor or none, and an executor may rebind the
    delegate that runs it. *)
Lemma delegate_cell {X R} (d : delegate X) (x : X) (call : X -> M (delegate X) R) :
  dg_locked d = false ->
  delegate_bind x d = match dg_executor d with
    | Some _ => (d, Ok false)
    | None => (mk_delegate (Some x) false, Ok true) end /\
  delegate_force_bind x d = (mk_delegate (Some x) false, Ok tt) /\
  delegate_unbind d = (mk_delegate None false, Ok (bool_decide (is_Some (dg_executor d)))) /\
  (delegate_execute call d).2 = match dg_executor d with
    | Some y => (call y d).2
    | None => Fault (AssertFail "_executor") end.
Proof. destruct d as [[y|] []]; cbn [dg_locked dg_executor]; intros [=]; done. Qed.

(** What a multicast delegate stores, whichever storage it has: the executors
    bound and not unbound since, in the order of binding. *)
Class StorageLaws (St : Type -> Type) `{!DelegateStorage St} := {
  st_iter_data X : st_iter (@st_data St _ X) = [];
  st_iter_add X (k : Z) (x : X) s :
    Forall (fun kv => kv.1 < k) (st_iter s) -> st_iter (st_add (k, x) s) = st_iter s ++ [(k, x)];
  st_iter_del X (k : Z) (s : St X) : st_iter (st_del k s) = List.filter (fun kv => negb (kv.1 =? k)) (st_iter s);
}.

#[export] Instance list_storage_laws : StorageLaws delegate_list_storage.
Proof. by split. Qed.

Lemma stdmap_insert_last {X} k (x : X) l : Forall (fun kv => kv.1 < k) l -> stdmap_insert (k, x) l = l ++ [(k, x)].
Proof.
  induction 1 as [|[k' y] l Hk Hl IH]; [done|]. cbn in Hk |- *.
  rewrite (proj2 (Z.ltb_ge k k')), (proj2 (Z.eqb_neq k k')), IH by lia. done.
Qed.

#[export] Instance map_storage_laws : StorageLaws delegate_map_storage.
Proof. split; [done| |done]. intros. by apply stdmap_insert_last. Qed.

Section MulticastLaws.
Context {X : Type}.
Variable call : X -> executor_result.

(** The specification: a list, and a count. *)
Record multicast_spec := mk_spec { sp_bound : list (Z * X); sp_next : Z; sp_called : list X; sp_errors : Z }.

Definition spec_step (op : multicast_op X) (s : multicast_spec) : multicast_spec * list Z :=
  match op with
  | McBind x => (mk_spec (sp_bound s ++ [(sp_next s, x)]) (sp_next s + 1) (sp_called s) (sp_errors s), [sp_next s])
  | McUnbind id => (mk_spec (List.filter (fun kv => negb (kv.1 =? id)) (sp_bound s)) (sp_next s) (sp_called s) (sp_errors s), [])
  | McBroadcast =>
      (mk_spec (sp_bound s) (sp_next s) (sp_called s ++ (sp_bound s).*2)
        (sp_errors s + len (List.filter (fun x => match call x with ExThrows => true | _ => false end) (sp_bound s).*2)), [])
  end.

Fixpoint spec_run (ops : list (multicast_op X)) (s : multicast_spec) : multicast_spec * list Z :=
  match ops with
  | [] => (s, [])
  | op :: ops => let '(s, ids) := spec_step op s in let '(s, ids') := spec_run ops s in (s, ids ++ ids')
  end.

Definition is_bind (op : multicast_op X) : bool := match op with McBind _ => true | _ => false end.

Context {St : Type -> Type} `{!DelegateStorage St, !StorageLaws St}.

(** The delegate between calls, seen as the specification. *)
Definition mc_shows (m : multicast_delegate St X) (s : multicast_spec) : Prop :=
  mc_locked m = false /\ st_iter (mc_storage m) = sp_bound s /\ mc_maxid m = sp_next s /\
  mc_called m = sp_called s /\ mc_errors m = sp_errors s /\ Forall (fun kv => kv.1 < sp_next s /\ call kv.2 <> ExUsesDelegate) (sp_bound s).

(** No executor uses the delegate that calls it. *)
Definition executors_ok (op : multicast_op X) : Prop :=
  match op with McBind x => call x <> ExUsesDelegate | _ => True end.

Lemma multicast_bind_shows x m s :
  mc_shows m s -> call x <> ExUsesDelegate -> sp_next s < 2 ^ 31 - 1 ->
  exists m', multicast_bind x m = (m', Ok (sp_next s)) /\ mc_shows m' (spec_step (McBind x) s).1.
Proof.
  intros (Hl & Hst & Hid & Hc & He & Hb) Hx Hlt.
  eexists. split.
  - unfold multicast_bind, multicast_lock. rewrite (M_bind_ok _ _ m (mc_set_locked true m) tt) by (rewrite M_get, Hl; done).
    rewrite M_get. cbn [mc_maxid mc_set_locked mc_storage mc_locked mc_called mc_errors].
    rewrite (proj2 (Z.eqb_neq (mc_maxid m) _)) by lia. rewrite <- Hid. done.
  - split; [done|]. cbn [mc_storage mc_maxid mc_called mc_errors mc_set_locked spec_step fst sp_bound sp_next sp_called sp_errors].
    rewrite st_iter_add, Hst, Hid, Hc, He.
    + split_and!; [done..|]. apply Forall_app. split; [|repeat constructor; cbn [fst snd]; [lia|done]].
      eapply Forall_impl; [exact Hb|]. intros kv [? ?]. split; [lia|done].
    + rewrite Hst, Hid. eapply Forall_impl; [exact Hb|]. by intros kv [? _].
Qed.

Lemma multicast_unbind_shows id m s :
  mc_shows m s -> exists m', multicast_unbind id m = (m', Ok tt) /\ mc_shows m' (spec_step (McUnbind id) s).1.
Proof.
  intros (Hl & Hst & Hid & Hc & He & Hb).
  eexists. split.
  - unfold multicast_unbind, multicast_lock. rewrite (M_bind_ok _ _ m (mc_set_locked true m) tt) by (rewrite M_get, Hl; done).
    rewrite M_get. done.
  - split; [done|]. cbn [mc_storage mc_maxid mc_called mc_errors mc_set_locked mc_set_storage spec_step fst sp_bound sp_next sp_called sp_errors].
    rewrite st_iter_del, Hst. split_and!; [done..|]. apply List.Forall_forall. intros kv [Hin _]%List.filter_In.
    by apply (proj1 (List.Forall_forall _ _) Hb).
Qed.

Lemma broadcast_loop_runs st (m : multicast_delegate St X) :
  Forall (fun kv => call kv.2 <> ExUsesDelegate) st ->
  broadcast_loop call st m =
    (mk_multicast (mc_storage m) (mc_maxid m) (mc_locked m) (mc_called m ++ st.*2)
      (mc_errors m + len (List.filter (fun x => match call x with ExThrows => true | _ => false end) st.*2)), Ok tt).
Proof.
  intros Hst. revert m. induction Hst as [|[k x] st Hx Hst IH]; intros m.
  - cbn [broadcast_loop fmap list_fmap List.filter]. rewrite app_nil_r, len_nil, Z.add_0_r. by destruct m.
  - cbn [broadcast_loop fmap list_fmap List.filter]. rewrite M_modify. cbn [snd] in *.
    destruct (call x); [| |done].
    + erewrite M_bind_ok by done. rewrite IH. cbn [mc_storage mc_maxid mc_locked mc_called mc_errors].
      by rewrite <- app_assoc.
    + rewrite M_modify, IH. cbn [mc_storage mc_maxid mc_locked mc_called mc_errors].
      rewrite <- app_assoc, len_cons. do 2 f_equal. lia.
Qed.

Lemma multicast_broadcast_shows m s :
  mc_shows m s -> exists m', multicast_broadcast call m = (m', Ok tt) /\ mc_shows m' (spec_step McBroadcast s).1.
Proof.
  intros (Hl & Hst & Hid & Hc & He & Hb).
  eexists. split.
  - unfold multicast_broadcast, multicast_lock. rewrite (M_bind_ok _ _ m (mc_set_locked true m) tt) by (rewrite M_get, Hl; done).
    rewrite M_get. cbn [mc_storage mc_set_locked]. rewrite Hst.
    erewrite M_bind_ok; [|apply broadcast_loop_runs; eapply Forall_impl; [exact Hb|by intros kv [_ ?]]]. done.
  - unfold mc_shows, mc_set_locked. cbn [mc_locked mc_storage mc_maxid mc_called mc_errors spec_step fst sp_bound sp_next sp_called sp_errors].
    rewrite Hc, He. done.
Qed.

Lemma multicast_run_shows ops m s :
  mc_shows m s -> Forall executors_ok ops -> sp_next s + len (List.filter is_bind ops) < 2 ^ 31 ->
  exists m', multicast_run call ops m = (m', Ok (spec_run ops s).2) /\ mc_shows m' (spec_run ops s).1.
Proof.
  intros Hm Hops. revert m s Hm. induction Hops as [|op ops Hop Hops IH]; intros m s Hm Hlt; [by exists m|].
  cbn [spec_run]. destruct (spec_step op s) as [s1 ids1] eqn:Es. destruct (spec_run ops s1) as [s2 ids2] eqn:Er.
  cbn [fst snd]. cbn [List.filter] in Hlt.
  assert (forall m1, mc_shows m1 s1 -> sp_next s1 + len (List.filter is_bind ops) < 2 ^ 31 ->
    exists m', multicast_run call ops m1 = (m', Ok ids2) /\ mc_shows m' s2) as Hrest.
  { intros m1 Hm1 Hlt1. specialize (IH m1 s1 Hm1 Hlt1). by rewrite Er in IH. }
  destruct op as [x|id|]; cbn [is_bind] in Hlt; cbn [multicast_run].
  - rewrite len_cons in Hlt. pose proof (len_nonneg (List.filter is_bind ops)).
    destruct (multicast_bind_shows x m s Hm Hop ltac:(lia)) as (m1 & E1 & Hm1). rewrite Es in Hm1.
    destruct (Hrest m1 Hm1) as (m' & E2 & Hm'). { injection Es as <- <-. cbn [sp_next]. lia. }
    exists m'. rewrite (M_bind_ok _ _ _ _ _ E1), (M_bind_ok _ _ _ _ _ E2). by injection Es as <- <-.
  - destruct (multicast_unbind_shows id m s Hm) as (m1 & E1 & Hm1). rewrite Es in Hm1.
    destruct (Hrest m1 Hm1) as (m' & E2 & Hm'). { by injection Es as <- <-. }
    exists m'. rewrite (M_bind_ok _ _ _ _ _ E1), E2. by injection Es as <- <-.
  - destruct (multicast_broadcast_shows m s Hm) as (m1 & E1 & Hm1). rewrite Es in Hm1.
    destruct (Hrest m1 Hm1) as (m' & E2 & Hm'). { by injection Es as <- <-. }
    exists m'. rewrite (M_bind_ok _ _ _ _ _ E1), E2. by injection Es as <- <-.
Qed.

(** Whichever storage a multicast delegate has -- a list, a vector or a map
    -- a program that binds fewer than 2^31 executors, none of which uses the
    delegate that calls it, sees the specification: the numbers are counted up,
    every broadcast calls what is bound and was not unbound, once each and in the
    order of binding, and an executor that throws does not stop the others. *)
Theorem multicast_refines ops :
  Forall executors_ok ops -> len (List.filter is_bind ops) < 2 ^ 31 ->
  exists m, multicast_run call ops multicast_new = (m, Ok (spec_run ops (mk_spec [] 0 [] 0)).2) /\
    mc_called m = sp_called (spec_run ops (mk_spec [] 0 [] 0)).1 /\
    mc_errors m = sp_errors (spec_run ops (mk_spec [] 0 [] 0)).1 /\
    st_iter (mc_storage m) = sp_bound (spec_run ops (mk_spec [] 0 [] 0)).1.
Proof.
  intros Hops Hlt. destruct (multicast_run_shows ops multicast_new (mk_spec [] 0 [] 0)) as (m & E & Hm); [|done..|].
  - split_and!; [done| |done..|constructor]. apply st_iter_data.
  - exists m. destruct Hm as (_ & ? & _ & ? & ? & _). done.
Qed.

(** An executor that uses the delegate waits for the lock its own call holds. *)
Lemma multicast_reentry_undefined k x st (m : multicast_delegate St X) :
  mc_locked m = true -> call x = ExUsesDelegate ->
  (broadcast_loop call ((k, x) :: st) m).2 = Fault (UB "mutex locked twice by one thread").
Proof.
  intros Hl Hx. cbn [broadcast_loop]. rewrite M_modify, Hx. unfold multicast_lock.
  unfold mbind at 1, M_bind at 1. rewrite M_get. cbn [mc_locked]. by rewrite Hl.
Qed.
End MulticastLaws.

(** [isbound] tells the opposite of its name. *)
Lemma multicast_isbound_inverted {St} `{!DelegateStorage St, !StorageLaws St} {X} (x : X) :
  (multicast_isbound (St := St) (multicast_new (X := X))).2 = Ok true.
Proof.
  unfold multicast_isbound, multicast_lock, multicast_unlock, multicast_new. mrun.
  cbn [mc_storage mc_set_locked mc_locked snd]. by rewrite st_iter_data.
Qed.

Definition demo_multicast : list (multicast_op Z) := [McBind 7; McBind 8; McBind 9; McUnbind 1; McBroadcast].

Lemma multicast_refines_witness :
  exists m, multicast_run (St := delegate_map_storage) (fun x => if x =? 7 then ExThrows else ExReturns) demo_multicast multicast_new
      = (m, Ok [0; 1; 2]) /\ mc_called m = [7; 9] /\ mc_errors m = 1.
Proof.
  destruct (multicast_refines (St := delegate_map_storage) (fun x => if x =? 7 then ExThrows else ExReturns) demo_multicast) as (m & E & Hc & He & _).
  - repeat constructor; vm_compute; discriminate.
  - vm_compute. reflexivity.
  - exists m. split; [exact E|]. split; [exact Hc|exact He].
Defined.

(** ** Components are never found *)

Definition none_assigned (e : entity) : Prop :=
  Forall (fun oc => match oc with Some c => cb_is_assigned c = false | None => True end) (en_components e).

(** Whatever the call does, no component becomes assigned and, if it returns, it
    returns what [Q] allows. *)
Definition keeps_none {A} (Q : A -> Prop) (f : M entity A) : Prop :=
  forall e, none_assigned e -> none_assigned (f e).1 /\ match (f e).2 with Ok a => Q a | _ => True end.

Lemma keeps_none_bind {A B} (Q : A -> Prop) (R : B -> Prop) (f : M entity A) (k : A -> M entity B) :
  keeps_none Q f -> (forall a, Q a -> keeps_none R (k a)) -> keeps_none R (f ≫= k).
Proof.
  intros Hf Hk e He. specialize (Hf e He). unfold mbind, M_bind.
  destruct (f e) as [e' [a| |]]; cbn [fst snd] in *; [|tauto..]. destruct Hf. by apply Hk.
Qed.
Lemma keeps_none_get : keeps_none none_assigned get.
Proof. intros e He. done. Qed.
Lemma keeps_none_put e : none_assigned e -> keeps_none (fun _ => True) (put e).
Proof. intros He e' _. done. Qed.
Lemma keeps_none_ret {A} (Q : A -> Prop) a : Q a -> keeps_none Q (mret a).
Proof. intros Ha e He. done. Qed.
Lemma keeps_none_fail {A} (Q : A -> Prop) f : keeps_none Q (fail f : M entity A).
Proof. intros e He. done. Qed.

Lemma index_keeps_none T : keeps_none (fun _ => True) (get_component_index T).
Proof.
  unfold get_component_index. eapply keeps_none_bind; [apply keeps_none_get|]. intros e He.
  case_match; [by apply keeps_none_ret|].
  eapply keeps_none_bind; [by apply keeps_none_put|]. intros. by apply keeps_none_ret.
Qed.

Lemma add_keeps_none T : keeps_none (fun _ => True) (add_component T).
Proof.
  unfold add_component. eapply keeps_none_bind; [apply index_keeps_none|]. intros i _.
  eapply keeps_none_bind; [apply keeps_none_get|]. intros e He.
  eapply (keeps_none_bind (fun _ => True)).
  { case_match; [|by apply keeps_none_ret]. apply keeps_none_put. unfold none_assigned. cbn [en_components en_set_components].
    apply Forall_app. split; [done|]. by apply Forall_replicate. }
  intros _ _. eapply keeps_none_bind; [apply keeps_none_get|]. intros e' He'.
  repeat case_match; [by apply keeps_none_ret| |apply keeps_none_fail].
  apply keeps_none_put. by apply Forall_insert.
Qed.

Lemma found_keeps_none T : keeps_none (fun oc => oc = None) (component_found T).
Proof.
  unfold component_found. eapply keeps_none_bind; [apply index_keeps_none|]. intros i _.
  eapply keeps_none_bind; [apply keeps_none_get|]. intros e He.
  case_match; [|by apply keeps_none_ret].
  destruct (en_components e !! Z.to_nat i) as [[c|]|] eqn:E; [|apply keeps_none_fail..].
  apply keeps_none_ret. eapply Forall_lookup_1 in E; [|exact He]. cbn in E. by rewrite E.
Qed.

(** A component is assigned only once it is found, and found only once it is
    assigned: no program ever finds one. *)
Lemma component_never_found ops :
  match (entity_run ops entity_new).2 with Ok bs => Forall (fun b => b = false) bs | _ => True end.
Proof.
  assert (keeps_none (Forall (fun b => b = false)) (entity_run ops)) as H; [|apply (H entity_new); constructor].
  induction ops as [|[T|T|T] ops IH]; cbn [entity_run]; [by apply keeps_none_ret| | |].
  - eapply keeps_none_bind; [apply add_keeps_none|]. done.
  - unfold has_component. eapply (keeps_none_bind (fun b => b = false)).
    + eapply keeps_none_bind; [apply found_keeps_none|]. intros oc ->. by apply keeps_none_ret.
    + intros b ->. eapply keeps_none_bind; [exact IH|]. intros bs Hbs. apply keeps_none_ret. by constructor.
  - unfold component_assign, get_component. eapply (keeps_none_bind (fun _ => True)); [|done].
    eapply keeps_none_bind; [apply index_keeps_none|]. intros i _.
    eapply keeps_none_bind; [apply found_keeps_none|]. intros oc ->. by apply keeps_none_ret.
Qed.

(** Asking for a type that another object has used before the entity got a later
    one follows the null pointer that the resize left. *)
Lemma has_component_null : (entity_run [EnHas 1; EnAdd 2; EnHas 1] entity_new).2 = Fault (UB "null component").
Proof. vm_compute. reflexivity. Qed.
