(* ===== verification/Mysql.v ===== *)
(** MySQL (source/bee/database/mysql/cmysql.h, cmysql.cpp): connections with
    their transactions and savepoints, parameters, streams of rows, the text of
    statements, and the pool of connections over the object pool.

    The driver is a parameter: it answers each call from the calls made before
    it, or throws.  The templates that can not be instantiated ([field::type] but
    for a type that has no such member, the [execute_query] that calls
    [bind_param]) are left out, and [create] is modelled by the text it builds. *)

From S2P Require Import Prelude Text Config ObjectPool.

(** ** The driver *)

Inductive db_value :=
  | DbInt (z : Z)
  | DbInt64 (z : Z)
  | DbDouble (bits : Z)
  | DbString (s : list byte)
  | DbBlob (s : list byte).

(** The calls of the driver's members.  [c], [st], [res] and [sp] are handles of
    connections, statements, results and savepoints. *)
Inductive db_call :=
  | DcConnect (url user password : list byte)
  | DcSetSchema (c : Z) (db : list byte)
  | DcClose (c : Z)
  | DcDelete (c : Z)
  | DcIsClosed (c : Z)
  | DcSetAutoCommit (c : Z) (mode : bool)
  | DcGetAutoCommit (c : Z)
  | DcCommit (c : Z)
  | DcRollback (c : Z)
  | DcSetSavepoint (c : Z) (name : list byte)
  | DcReleaseSavepoint (c sp : Z)
  | DcRollbackTo (c sp : Z)
  | DcCreateStatement (c : Z)
  | DcPrepareStatement (c : Z) (sql : list byte)
  | DcExecute (st : Z) (sql : list byte)
  | DcExecuteQuery (st : Z) (sql : list byte)
  | DcBind (st index : Z) (v : db_value)
  | DcExecuteUpdate (st : Z)
  | DcExecutePrepared (st : Z)
  | DcDeleteStatement (st : Z)
  | DcNext (res : Z)
  | DcGet (res index : Z)
  | DcColumnCount (res : Z)
  | DcDeleteResult (res : Z).

Record db_savepoint := mk_savepoint { sv_name : list byte; sv_handle : Z }.

(** [connection]; a [std::map] of savepoints, in the order of their names. *)
Record connection := mk_connection {
  cn_last_access : Z;
  cn_conn : option Z;
  cn_savepoints : list db_savepoint;
}.
Definition connection_new : connection := mk_connection 0 None [].

(** What a thread works on: the calls made, oldest first, and one connection. *)
Record dbc := mk_dbc { dc_calls : list db_call; dc_this : connection }.
Abbreviation DB := (M dbc).

Definition dc_set (c : connection) (d : dbc) : dbc := mk_dbc (dc_calls d) c.

Fixpoint bytes_lt (a b : list byte) : bool :=
  match a, b with
  | _, [] => false
  | [], _ :: _ => true
  | x :: a, y :: b => (Z_of_byte x <? Z_of_byte y) || ((Z_of_byte x =? Z_of_byte y) && bytes_lt a b)
  end.

(** [std::map::emplace] with a name that is not there. *)
Fixpoint savepoint_insert (s : db_savepoint) (l : list db_savepoint) : list db_savepoint :=
  match l with
  | [] => [s]
  | x :: l' => if bytes_lt (sv_name s) (sv_name x) then s :: l else x :: savepoint_insert s l'
  end.
Definition savepoint_find (name : list byte) (l : list db_savepoint) : option db_savepoint :=
  find (fun s => bool_decide (sv_name s = name)) l.
Definition savepoint_erase (name : list byte) (l : list db_savepoint) : list db_savepoint :=
  List.filter (fun s => negb (bool_decide (sv_name s = name))) l.

Section Mysql.
(** The driver's answers: a handle, a number or a truth value as a number; [None]
    is an [sql::SQLException]. *)
Variable driver : list db_call -> db_call -> option Z.
(** What [getInt] and its relatives give. *)
Variable driver_value : list db_call -> Z -> Z -> db_value.

Definition SQL_EXCEPTION : exn := ExnRuntime "sql::SQLException".

Definition call (c : db_call) : DB Z :=
  d ← get;
  put (mk_dbc (dc_calls d ++ [c]) (dc_this d));;
  match driver (dc_calls d) c with Some n => mret n | None => throw SQL_EXCEPTION end.
Definition call_ (c : db_call) : DB unit := _ ← call c; mret tt.

(** [_conn->...] *)
Definition handle : DB Z :=
  d ← get;
  match cn_conn (dc_this d) with Some c => mret c | None => fail (UB "null connection") end.
Definition set_conn (c : option Z) : DB unit :=
  modify (fun d => dc_set (mk_connection (cn_last_access (dc_this d)) c (cn_savepoints (dc_this d))) d).
Definition set_savepoints (l : list db_savepoint) : DB unit :=
  modify (fun d => dc_set (mk_connection (cn_last_access (dc_this d)) (cn_conn (dc_this d)) l) d).

(** ** Connections *)

Definition connection_connect_to (ip user password db : list byte) (port : Z) : DB bool :=
  try_catch
    (c ← call (DcConnect (str "tcp://" ++ ip ++ str ":" ++ to_string port) user password);
     set_conn (Some c);;
     call_ (DcSetSchema c db);;
     mret true)
    (fun _ => mret false).

Definition connection_connect (cfg : SECTION_MAP) : DB bool :=
  let ip := config_get (str "mysql") (str "ip") [] cfg in
  let user := config_get (str "mysql") (str "user") [] cfg in
  let password := config_get (str "mysql") (str "password") [] cfg in
  let db := config_get (str "mysql") (str "db") [] cfg in
  port ← lift (config_get_int s32 (str "mysql") (str "port") 0 cfg);
  connection_connect_to ip user password db (if port >? 0 then port else 3306).

Definition connection_close : DB unit :=
  d ← get;
  match cn_conn (dc_this d) with
  | Some c => call_ (DcClose c);; call_ (DcDelete c);; set_conn None
  | None => mret tt
  end.

Definition connection_execute (sql : list byte) : DB unit :=
  c ← handle;
  stmt ← call (DcCreateStatement c);
  try_catch (call_ (DcExecute stmt sql);; call_ (DcDeleteStatement stmt))
    (fun e => call_ (DcDeleteStatement stmt);; throw e).

Definition connection_execute_update (sql : list byte) : DB bool := mret true.

Definition connection_execute_query (sql : list byte) : DB Z :=
  c ← handle; stmt ← call (DcCreateStatement c); call (DcExecuteQuery stmt sql).

Definition prepare_statement (sql : list byte) : DB Z :=
  c ← handle; call (DcPrepareStatement c sql).

Definition begin_transaction : DB unit := c ← handle; call_ (DcSetAutoCommit c false).
Definition has_transaction : DB bool := c ← handle; n ← call (DcGetAutoCommit c); mret (n =? 0).
Definition connection_commit : DB unit := c ← handle; call_ (DcCommit c);; call_ (DcSetAutoCommit c true).
Definition connection_rollback : DB unit := c ← handle; call_ (DcRollback c);; call_ (DcSetAutoCommit c true).
Definition set_autocommit (mode : bool) : DB unit := c ← handle; call_ (DcSetAutoCommit c mode).

Definition set_savepoint (name : list byte) : DB unit :=
  d ← get;
  match savepoint_find name (cn_savepoints (dc_this d)) with
  | Some _ => fail (AssertFail "savepoint already exists")
  | None =>
      c ← handle;
      sp ← call (DcSetSavepoint c name);
      set_savepoints (savepoint_insert (mk_savepoint name sp) (cn_savepoints (dc_this d)))
  end.

Fixpoint release_loop (l : list db_savepoint) : DB unit :=
  match l with
  | [] => mret tt
  | s :: l => c ← handle; call_ (DcReleaseSavepoint c (sv_handle s));; release_loop l
  end.

Definition release_savepoint (name : list byte) : DB unit :=
  d ← get;
  match name with
  | [] => release_loop (cn_savepoints (dc_this d));; set_savepoints []
  | _ =>
      match savepoint_find name (cn_savepoints (dc_this d)) with
      | None => fail (AssertFail "savepoint not exists")
      | Some s =>
          c ← handle;
          call_ (DcReleaseSavepoint c (sv_handle s));;
          set_savepoints (savepoint_erase name (cn_savepoints (dc_this d)))
      end
  end.

Definition rollback_to_savepoint (name : list byte) : DB unit :=
  d ← get;
  match savepoint_find name (cn_savepoints (dc_this d)) with
  | None => fail (AssertFail "savepoint not exists")
  | Some s => c ← handle; call_ (DcRollbackTo c (sv_handle s))
  end.

Definition set_last_access (time : Z) : DB unit :=
  modify (fun d => dc_set (mk_connection time (cn_conn (dc_this d)) (cn_savepoints (dc_this d))) d).

Definition is_connected : DB bool :=
  d ← get;
  match cn_conn (dc_this d) with
  | None => mret false
  | Some c => n ← call (DcIsClosed c); mret (n =? 0)
  end.

Definition reconnect (cfg : SECTION_MAP) : DB bool := connection_close;; connection_connect cfg.

(** ** Parameters *)

(** [(field<Args>(std::to_string(index++)).bind(stmt, index, args), ...)]: what
    stands before the dot is evaluated before the arguments. *)
Fixpoint bind_params (stmt index : Z) (args : list db_value) : DB Z :=
  match args with
  | [] => mret index
  | v :: args =>
      let index := s32 (index + 1) in
      call_ (DcBind stmt index v);;
      bind_params stmt index args
  end.

Definition execute_update_with (sql : list byte) (args : list db_value) : DB bool :=
  d ← get;
  match cn_conn (dc_this d) with
  | None => mret false
  | Some c =>
      stmt ← call (DcPrepareStatement c sql);
      _ ← bind_params stmt 1 args;
      n ← call (DcExecuteUpdate stmt);
      mret (negb (n =? 0))
  end.

Definition execute_query_with (sql : list byte) (args : list db_value) : DB (option Z) :=
  d ← get;
  match cn_conn (dc_this d) with
  | None => mret None
  | Some c =>
      stmt ← call (DcPrepareStatement c sql);
      _ ← bind_params stmt 1 args;
      res ← call (DcExecutePrepared stmt);
      mret (Some res)
  end.
End Mysql.

(** ** Fields that are not read and written as they are *)

(** [field<char[Size]>::extract]: [strncpy] stops at a null character and fills
    up with others, and a null character follows; [None] where the array ends
    before. *)
Definition char_extract (size : Z) (resstr : list byte) (value : list cell) : outcome (list cell) :=
  if size <=? len resstr then Fault (UB "write out of bounds")
  else
    let copied := c_string resstr ++ replicate (length resstr - length (c_string resstr)) x00 in
    mem_write value 0 (Some <$> (copied ++ [x00])).

(** [field<std::vector<uint8_t>>::extract]: [std::istream_iterator<char>] reads
    with [>>], which passes over white space. *)
Definition blob_extract (blob : list byte) : list byte := List.filter (fun c => negb (is_space c)) blob.

(** ** Streams of rows *)

Record insert_stream := mk_insert_stream { is_stmt : option Z; is_param_count : Z }.
Definition insert_stream_new (stmt : Z) : insert_stream := mk_insert_stream (Some stmt) 0.

Record select_stream := mk_select_stream { ss_stmt : Z; ss_res : Z; ss_column_idx : Z }.

Section Streams.
Variable driver : list db_call -> db_call -> option Z.
Variable driver_value : list db_call -> Z -> Z -> db_value.
Abbreviation call := (call driver).
Abbreviation call_ := (call_ driver).

Definition insert_bind (v : db_value) (st : insert_stream) : DB insert_stream :=
  match is_stmt st with
  | None => fail (UB "null statement")
  | Some stmt =>
      let n := s32 (is_param_count st + 1) in
      call_ (DcBind stmt n v);; mret (mk_insert_stream (Some stmt) n)
  end.

(** [stream << row] *)
Fixpoint insert_row (row : list db_value) (st : insert_stream) : DB insert_stream :=
  match row with
  | [] => mret st
  | v :: row => st ← insert_bind v st; insert_row row st
  end.

Definition insert_execute (st : insert_stream) : DB insert_stream :=
  match is_stmt st with
  | None => fail (UB "null statement")
  | Some stmt =>
      call_ (DcExecuteUpdate stmt);;
      call_ (DcDeleteStatement stmt);;
      mret (mk_insert_stream None (is_param_count st))
  end.

Definition select_stream_new (stmt : Z) : DB select_stream :=
  res ← call (DcExecutePrepared stmt);
  mret (mk_select_stream stmt res 0).

Definition select_stream_dtor (st : select_stream) : DB unit :=
  call_ (DcDeleteResult (ss_res st));; call_ (DcDeleteStatement (ss_stmt st)).

Definition select_next (st : select_stream) : DB bool := n ← call (DcNext (ss_res st)); mret (negb (n =? 0)).

Definition select_extract (st : select_stream) : DB (select_stream * db_value) :=
  let column := s32 (ss_column_idx st + 1) in
  d ← get;
  call_ (DcGet (ss_res st) column);;
  let v := driver_value (dc_calls d) (ss_res st) column in
  n ← call (DcColumnCount (ss_res st));
  if n =? 0 then fail (UB "division by zero")
  else mret (mk_select_stream (ss_stmt st) (ss_res st) (s32 (u32 column mod u32 n)), v).

(** [stream >> row], of as many fields as the table's type has. *)
Fixpoint select_row (fields : nat) (st : select_stream) : DB (select_stream * list db_value) :=
  match fields with
  | O => mret (st, [])
  | S fields =>
      r ← select_extract st;
      r' ← select_row fields r.1;
      mret (r'.1, r.2 :: r'.2)
  end.

(** ** Tables: the text of their statements *)

Record field_flags := mk_flags {
  is_primary_key : bool;
  is_auto_increment : bool;
  is_nullable : bool;
  is_unique : bool;
  is_index : bool;
  is_foreign_key : bool;
}.
Record field_base := mk_field { f_name : list byte; f_type : list byte; f_flag : field_flags }.

Definition build_column_def (f : field_base) : list byte :=
  let when (b : bool) (s : string) := if b then str s else [] in
  f_name f ++ str " " ++ f_type f
  ++ when (is_primary_key (f_flag f)) " PRIMARY KEY"
  ++ when (is_auto_increment (f_flag f)) " AUTO_INCREMENT"
  ++ when (is_nullable (f_flag f)) " NOT NULL"
  ++ when (is_unique (f_flag f)) " UNIQUE"
  ++ when (is_index (f_flag f)) " INDEX"
  ++ when (is_foreign_key (f_flag f)) " FOREIGN KEY".

Definition create_sql (name : list byte) (fields : list field_base) : list byte :=
  let sql := str "CREATE TABLE IF NOT EXISTS `" ++ name ++ str "` ("
    ++ concat ((fun f => build_column_def f ++ str ", ") <$> fields) in
  take (length sql - 2) sql ++ str ")".

(** [sql.append(sizeof...(Fields) - 1, '?').append(".?)")] *)
Definition insert_sql (name : list byte) (fields : nat) : outcome (list byte) :=
  match fields with
  | O => Throw (ExnLength "basic_string::append")
  | S n => Ok (str "INSERT INTO `" ++ name ++ str "` VALUES (" ++ replicate n x3f ++ str ".?)")
  end.

Definition select_sql (name where_ : list byte) : list byte :=
  str "SELECT * FROM `" ++ name ++ str "` " ++ where_.

Definition table_create (name : list byte) (fields : list field_base) : DB unit :=
  connection_execute driver (create_sql name fields).
Definition table_insert (name : list byte) (fields : nat) : DB insert_stream :=
  sql ← lift (insert_sql name fields);
  stmt ← prepare_statement driver sql;
  mret (insert_stream_new stmt).
Definition table_select (name where_ : list byte) : DB select_stream :=
  stmt ← prepare_statement driver (select_sql name where_);
  select_stream_new stmt.
End Streams.

(** ** The pool of connections *)

Record connection_pool := mk_cpool {
  cp_objects : objectpool;
  cp_connections : gmap Z connection;
  cp_calls : list db_call;
  cp_ip : list byte;
  cp_port : Z;
  cp_user : list byte;
  cp_password : list byte;
  cp_db : list byte;
  cp_minsize : Z;
  cp_maxsize : Z;
  cp_timeout : Z;
  cp_max_idle_time : Z;
}.
Abbreviation CP := (M connection_pool).

Definition cp_set_objects (o : objectpool) (s : connection_pool) : connection_pool :=
  mk_cpool o (cp_connections s) (cp_calls s) (cp_ip s) (cp_port s) (cp_user s) (cp_password s) (cp_db s)
    (cp_minsize s) (cp_maxsize s) (cp_timeout s) (cp_max_idle_time s).
Definition cp_set_connections (m : gmap Z connection) (calls : list db_call) (s : connection_pool) : connection_pool :=
  mk_cpool (cp_objects s) m calls (cp_ip s) (cp_port s) (cp_user s) (cp_password s) (cp_db s)
    (cp_minsize s) (cp_maxsize s) (cp_timeout s) (cp_max_idle_time s).

(** A member of the base class [objectpool<connection>]. *)
Definition on_objects {A} (f : M objectpool A) : CP A := fun s =>
  let '(o, r) := f (cp_objects s) in (cp_set_objects o s, r).

(** A member of one connection. *)
Definition on_connection {A} (obj : Z) (f : DB A) : CP A := fun s =>
  match cp_connections s !! obj with
  | None => (s, Fault (UB "connection after its destruction"))
  | Some c =>
      let '(d, r) := f (mk_dbc (cp_calls s) c) in
      (cp_set_connections (<[obj := dc_this d]> (cp_connections s)) (dc_calls d) s, r)
  end.

(** [alloc], which constructs the connection of a node when it has none. *)
Definition pool_alloc : CP (option (Z * Z)) :=
  r ← on_objects objectpool_alloc;
  match r with
  | None => mret None
  | Some (id, conn) =>
      s ← get;
      (match cp_connections s !! conn with
       | Some _ => mret tt
       | None => put (cp_set_connections (<[conn := connection_new]> (cp_connections s)) (cp_calls s) s)
       end);;
      mret (Some (id, conn))
  end.

Section Pool.
Variable driver : list db_call -> db_call -> option Z.

Fixpoint init_loop (n : nat) : CP unit :=
  match n with
  | O => mret tt
  | S n =>
      r ← pool_alloc;
      (match r with
       | None => mret tt
       | Some (_, conn) =>
           s ← get;
           _ ← on_connection conn (connection_connect_to driver (cp_ip s) (cp_user s) (cp_password s) (cp_db s) (cp_port s));
           ok ← on_connection conn (is_connected driver);
           if (ok : bool) then mret tt else fail (AssertFail "conn->is_connected()")
       end);;
      init_loop n
  end.

Definition connection_pool_init (cfg : SECTION_MAP) : CP unit :=
  let ip := config_get (str "mysql") (str "ip") [] cfg in
  port ← lift (config_get_int u16 (str "mysql") (str "port") 0 cfg);
  let user := config_get (str "mysql") (str "user") [] cfg in
  let password := config_get (str "mysql") (str "password") [] cfg in
  let db := config_get (str "mysql") (str "db") [] cfg in
  minsize ← lift (config_get_int u64 (str "mysql") (str "minsize") 0 cfg);
  maxsize ← lift (config_get_int u64 (str "mysql") (str "maxsize") 0 cfg);
  timeout ← lift (config_get_int s64 (str "mysql") (str "timeout") 0 cfg);
  max_idle_time ← lift (config_get_int s64 (str "mysql") (str "max_idle_time") 0 cfg);
  modify (fun s => mk_cpool (cp_objects s) (cp_connections s) (cp_calls s) ip port user password db
                     minsize maxsize timeout max_idle_time);;
  on_objects (objectpool_init maxsize);;
  init_loop (Z.to_nat minsize).

Definition get_connection (now : Z) : CP (option Z) :=
  r ← pool_alloc;
  match r with
  | None => mret None
  | Some (id, conn) =>
      s ← get;
      ok ← (connected ← on_connection conn (is_connected driver);
            if (connected : bool) then mret true
            else on_connection conn (connection_connect_to driver (cp_ip s) (cp_user s) (cp_password s) (cp_db s) (cp_port s)));
      if (ok : bool) then on_connection conn (set_last_access now);; mret (Some conn)
      else on_objects (objectpool_free_idx id);; mret None
  end.

Definition release_connection (now : Z) (conn : option Z) : CP unit :=
  match conn with
  | None => mret tt
  | Some conn =>
      transaction ← on_connection conn (has_transaction driver);
      (if (transaction : bool) then on_connection conn (connection_rollback driver) else mret tt);;
      on_connection conn (release_savepoint driver []);;
      on_connection conn (set_last_access now);;
      on_objects (objectpool_free conn)
  end.

(** [clear]: the connections deleted are closed; what their destructors throw
    terminates the program. *)
Fixpoint close_all (objs : list Z) : CP unit :=
  match objs with
  | [] => mret tt
  | o :: objs =>
      try_catch (on_connection o (connection_close driver)) (fun _ => fail (AssertFail "std::terminate"));;
      modify (fun s => cp_set_connections (delete o (cp_connections s)) (cp_calls s) s);;
      close_all objs
  end.

Definition connection_pool_clear : CP unit :=
  s ← get;
  on_objects objectpool_destroy;;
  s' ← get;
  close_all (drop (length (op_deleted (cp_objects s))) (op_deleted (cp_objects s'))).
End Pool.

(** * What is proved of them *)

(** ** The pool runs dry *)

(** What is still to be handed out: a free node whose connection does not exist
    yet is good for two times, one whose connection exists for one, and a node in
    use for one as long as the map of objects knows its connection, since
    [free(conn)] forgets it and [alloc] does not enter it again. *)
Definition free_weight (pool : gmap Z object_node) (i : Z) : Z :=
  match pool !! i with Some (mk_object_node (Some _) _) => 1 | _ => 2 end.
Definition used_weight (pool : gmap Z object_node) (map : gmap Z Z) (i : Z) : Z :=
  match pool !! i with Some (mk_object_node (Some o) _) => match map !! o with Some _ => 1 | None => 0 end | _ => 0 end.

Definition sum_of (f : Z -> Z) (l : list Z) : Z := foldr (fun i a => f i + a) 0 l.

Lemma sum_of_cons f i l : sum_of f (i :: l) = f i + sum_of f l.
Proof. done. Qed.
Lemma sum_of_perm f l k : l ≡ₚ k -> sum_of f l = sum_of f k.
Proof. induction 1; rewrite ?sum_of_cons; lia. Qed.
Lemma sum_of_ext f g l : (forall i, i ∈ l -> f i = g i) -> sum_of f l = sum_of g l.
Proof.
  induction l as [|i l IH]; intros H; [done|]. rewrite !sum_of_cons, (H i) by left. rewrite IH; [done|]. intros. apply H. by right.
Qed.
Lemma sum_of_bounds f l c : (forall i, 0 <= f i <= c) -> 0 <= sum_of f l <= c * len l.
Proof.
  intros H. induction l as [|i l IH]; [change (0 <= 0 <= c * 0); lia|].
  rewrite len_cons, sum_of_cons. specialize (H i). lia.
Qed.

Lemma free_weight_bounds pool i : 0 <= free_weight pool i <= 2.
Proof. unfold free_weight. repeat case_match; lia. Qed.
Lemma used_weight_bounds pool map i : 0 <= used_weight pool map i <= 1.
Proof. unfold used_weight. repeat case_match; lia. Qed.

Lemma free_weight_at pool i o nx :
  pool !! i = Some (mk_object_node o nx) -> free_weight pool i = match o with Some _ => 1 | None => 2 end.
Proof. intros H. unfold free_weight. rewrite H. by destruct o. Qed.
Lemma used_weight_at pool map i o nx :
  pool !! i = Some (mk_object_node (Some o) nx) -> used_weight pool map i = match map !! o with Some _ => 1 | None => 0 end.
Proof. intros H. unfold used_weight. by rewrite H. Qed.

(** The nodes are free, in use by clients ([used]), or in use for ever ([kept]);
    the map knows only connections of nodes in use. *)
Record cpool_ok (s : objectpool) (pool : gmap Z object_node) (free used kept : list Z) : Prop := {
  co_cap : 0 < op_cap s <= OBJECT_POOL_MAX;
  co_pool : op_pool s = Some pool;
  co_size : op_size s = len (used ++ kept);
  co_chain : chain n_next pool (op_free s) free;
  co_dom i : is_Some (pool !! i) <-> 0 <= i < op_cap s;
  co_perm : free ++ used ++ kept ≡ₚ seqZ 0 (op_cap s);
  co_map o i : op_obj_map s !! o = Some i ->
    (i ∈ used ++ kept) /\ exists nx, pool !! i = Some (mk_object_node (Some o) nx);
  co_new i o nx : pool !! i = Some (mk_object_node (Some o) nx) -> o < op_brk s;
  co_inj i j o nx ny : pool !! i = Some (mk_object_node (Some o) nx) ->
    pool !! j = Some (mk_object_node (Some o) ny) -> i = j;
}.

Definition cpool_left (s : objectpool) (pool : gmap Z object_node) (free used : list Z) : Z :=
  sum_of (free_weight pool) free + sum_of (used_weight pool (op_obj_map s)) used.

Lemma cpool_left_bounds s pool free used : 0 <= cpool_left s pool free used <= 2 * len free + len used.
Proof.
  unfold cpool_left.
  pose proof (sum_of_bounds (free_weight pool) free 2 (free_weight_bounds pool)).
  pose proof (sum_of_bounds (used_weight pool (op_obj_map s)) used 1 (used_weight_bounds pool _)). lia.
Qed.

Lemma cpool_nodup s pool free used kept : cpool_ok s pool free used kept -> NoDup (free ++ used ++ kept).
Proof. intros [_ _ _ _ _ Hp _ _ _]. rewrite Hp. apply NoDup_seqZ. Qed.

(** A node keeps the connection it has. *)
Definition nodes_keep (pool pool' : gmap Z object_node) : Prop :=
  forall i o nx, pool !! i = Some (mk_object_node (Some o) nx) -> exists nx', pool' !! i = Some (mk_object_node (Some o) nx').

(** [alloc] takes the first free node. *)
Lemma cpool_alloc s pool free used kept :
  cpool_ok s pool free used kept ->
  match objectpool_alloc s with
  | (s', Ok (Some (i, obj))) => exists pool' free', free = i :: free' /\ cpool_ok s' pool' free' (i :: used) kept /\
      cpool_left s' pool' free' (i :: used) <= cpool_left s pool free used - 1 /\
      nodes_keep pool pool' /\ exists nx, pool' !! i = Some (mk_object_node (Some obj) nx)
  | (s', Ok None) => s' = s /\ free = []
  | _ => False
  end.
Proof.
  intros Hok. pose proof (cpool_nodup _ _ _ _ _ Hok) as Hnd. destruct Hok as [Hc Hp Hs Hch Hdom Hperm Hmap Hnew Hinj].
  pose proof (len_perm _ _ Hperm) as Hl. rewrite len_app, len_seqZ in Hl by lia.
  unfold objectpool_alloc. rewrite M_get, Hp.
  destruct (Z.eqb_spec (op_size s) (op_cap s)) as [Hfull|Hfull].
  { split; [done|]. destruct free; [done|]. rewrite len_cons in Hl. pose proof (len_nonneg free). lia. }
  destruct free as [|i free]; [rewrite len_nil in Hl; lia|].
  cbn in Hch. destruct Hch as (Hf & [obj nx] & Hn & Hch). rewrite Hf. unfold pool_node. rewrite Hn.
  erewrite M_bind_ok by done. cbn [n_obj n_next default]. cbn in Hch.
  apply NoDup_cons in Hnd as [Hni Hnd].
  assert (u64 (op_size s + 1) = len ((i :: used) ++ kept)) as Hsz.
  { cbn. rewrite len_cons, wrapU_small; [lia|]. rewrite len_cons in Hl. pose proof (len_nonneg free).
    pose proof (len_nonneg (used ++ kept)). unfold OBJECT_POOL_MAX in Hc. word_lia. }
  assert (free ++ (i :: used) ++ kept ≡ₚ seqZ 0 (op_cap s)) as Hperm' by (rewrite <- Hperm; solve_Permutation).
  destruct obj as [obj|].
  - exists pool, free. split; [done|].
    assert (op_obj_map s !! obj = None) as Hm.
    { destruct (op_obj_map s !! obj) eqn:E; [|done]. apply Hmap in E as (Hin & ny & E).
      destruct Hni. rewrite (Hinj _ _ _ _ _ Hn E). apply elem_of_app. by right. }
    split; [|split; [|split; [|by exists nx]]]; [| |intros j o ny E; by exists ny].
    + split; cbn [op_cap op_pool op_size op_free op_obj_map op_brk]; try done.
      intros o j Hoj. apply Hmap in Hoj as (Hin & Hnode). split; [|done]. cbn. by right.
    + unfold cpool_left. cbn [op_obj_map]. rewrite !sum_of_cons.
      rewrite (free_weight_at _ _ _ _ Hn), (used_weight_at _ _ _ _ _ Hn), Hm. lia.
  - set (pool' := <[i := mk_object_node (Some (op_brk s)) nx]> pool).
    assert (forall j, j <> i -> pool' !! j = pool !! j) as Hother by (intros; by apply lookup_insert_ne).
    assert (pool' !! i = Some (mk_object_node (Some (op_brk s)) nx)) as Hi by apply lookup_insert_eq.
    exists pool', free. split; [done|]. split; [|split; [|split; [|by exists nx]]].
    3: { intros j o ny E. exists ny. rewrite Hother; [done|]. intros ->. by rewrite Hn in E. }
    + split; cbn [op_cap op_pool op_size op_free op_obj_map op_brk]; try done.
      * apply chain_insert_ne; [|done]. intros Hin. apply Hni, elem_of_app. by left.
      * intros j. destruct (decide (j = i)) as [->|Hne]; [|by rewrite Hother].
        rewrite Hi, <- Hdom, Hn. split; by eauto.
      * intros o j. rewrite lookup_insert_Some. intros [[<- <-]|[Hne Hoj]].
        { split; [by left|by exists nx]. }
        apply Hmap in Hoj as (Hin & Hnode). split; [cbn; by right|]. rewrite Hother; [done|].
        intros ->. destruct Hnode as [? E]. by rewrite Hn in E.
      * intros j o ny E. destruct (decide (j = i)) as [->|Hne].
        { rewrite Hi in E. simplify_eq. lia. }
        rewrite Hother in E by done. apply Hnew in E. lia.
      * intros j k o ny nz Ej Ek.
        destruct (decide (j = i)) as [->|Hj], (decide (k = i)) as [->|Hk]; [done|..].
        { rewrite Hi in Ej. rewrite Hother in Ek by done. simplify_eq. apply Hnew in Ek. lia. }
        { rewrite Hi in Ek. rewrite Hother in Ej by done. simplify_eq. apply Hnew in Ej. lia. }
        rewrite Hother in Ej, Ek by done. by eapply Hinj.
    + unfold cpool_left. cbn [op_obj_map]. rewrite !sum_of_cons.
      rewrite (free_weight_at _ _ _ _ Hn), (used_weight_at _ _ _ _ _ Hi), lookup_insert_eq.
      rewrite (sum_of_ext (free_weight pool') (free_weight pool) free).
      2: { intros j Hj. unfold free_weight. rewrite Hother; [done|]. intros ->. apply Hni, elem_of_app. by left. }
      rewrite (sum_of_ext (used_weight pool' _) (used_weight pool (op_obj_map s)) used); [lia|].
      intros j Hj. unfold used_weight. rewrite Hother.
      2: { intros ->. apply Hni, elem_of_app. right. apply elem_of_app. by left. }
      destruct (pool !! j) as [[[o|] ny]|] eqn:E; [|done..]. rewrite lookup_insert_ne; [done|].
      intros <-. apply Hnew in E. lia.
Qed.

(** Giving back a node in use. *)
Lemma cpool_put_front s pool free used kept i o nx :
  cpool_ok s pool free (i :: used) kept -> pool !! i = Some (mk_object_node (Some o) nx) ->
  exists s' pool', pool_put_front i (delete o) s = (s', Ok tt) /\
    cpool_ok s' pool' (i :: free) used kept /\ nodes_keep pool pool' /\
    cpool_left s' pool' (i :: free) used = cpool_left s pool free (i :: used) + 1 - used_weight pool (op_obj_map s) i.
Proof.
  intros Hok Hn. pose proof (cpool_nodup _ _ _ _ _ Hok) as Hnd. destruct Hok as [Hc Hp Hs Hch Hdom Hperm Hmap Hnew Hinj].
  pose proof (len_perm _ _ Hperm) as Hl. rewrite !len_app, len_cons, len_seqZ in Hl by lia.
  set (pool' := <[i := mk_object_node (Some o) (op_free s)]> pool).
  assert (forall j, j <> i -> pool' !! j = pool !! j) as Hother by (intros; by apply lookup_insert_ne).
  assert (pool' !! i = Some (mk_object_node (Some o) (op_free s))) as Hi by apply lookup_insert_eq.
  assert ((i ∉ free) /\ (i ∉ used) /\ (i ∉ kept)) as (Hif & Hiu & Hik).
  { apply NoDup_app in Hnd as (_ & Hd & Hnd). apply NoDup_cons in Hnd as [Hni _].
    split_and!; intros Hin; [apply (Hd i Hin); by left|apply Hni, elem_of_app; by left|apply Hni, elem_of_app; by right]. }
  assert (forall j p ny, pool' !! j = Some (mk_object_node (Some p) ny) -> exists ny', pool !! j = Some (mk_object_node (Some p) ny')) as Hback.
  { intros j p ny E. destruct (decide (j = i)) as [->|Hne]; [rewrite Hi in E; simplify_eq; by exists nx|].
    rewrite Hother in E by done. by exists ny. }
  exists (mk_pool (Some pool') (Some i) (u64 (op_size s - 1)) (op_cap s) (delete o (op_obj_map s)) (op_brk s) (op_deleted s)), pool'.
  split; [|split; [|split]].
  - unfold pool_put_front. rewrite M_get, Hp. unfold pool_node. rewrite Hn. by erewrite M_bind_ok by done.
  - split; cbn [op_cap op_pool op_size op_free op_obj_map op_brk]; try done.
    + rewrite Hs. cbn. rewrite len_cons, len_app. pose proof (len_nonneg free).
      pose proof (len_nonneg used). pose proof (len_nonneg kept). unfold OBJECT_POOL_MAX in Hc.
      rewrite wrapU_small by word_lia. lia.
    + by apply (chain_cons _ _ (op_free s)).
    + intros j. destruct (decide (j = i)) as [->|Hne]; [|by rewrite Hother]. rewrite Hi, <- Hdom, Hn. split; by eauto.
    + rewrite <- Hperm. solve_Permutation.
    + intros p j. rewrite lookup_delete_Some. intros [Hne Hpj]. apply Hmap in Hpj as (Hin & ny & E).
      assert (j <> i) as Hji by (intros ->; rewrite Hn in E; by simplify_eq).
      split; [|exists ny; by rewrite Hother]. cbn in Hin. by apply elem_of_cons in Hin as [?|?].
    + intros j p ny E. apply Hback in E as [? E]. by eapply Hnew.
    + intros j k p ny nz Ej Ek. apply Hback in Ej as [? Ej], Ek as [? Ek]. by eapply Hinj.
  - intros j p ny E. destruct (decide (j = i)) as [->|Hne]; [|by exists ny; rewrite Hother].
    rewrite Hn in E. simplify_eq. by eexists.
  - unfold cpool_left. cbn [op_obj_map]. rewrite !sum_of_cons, (free_weight_at _ _ _ _ Hi).
    rewrite (sum_of_ext (free_weight pool') (free_weight pool) free).
    2: { intros j Hj. unfold free_weight. rewrite Hother; [done|]. by intros ->. }
    rewrite (sum_of_ext (used_weight pool' _) (used_weight pool (op_obj_map s)) used); [lia|].
    intros j Hj. unfold used_weight. assert (j <> i) by (by intros ->). rewrite Hother by done.
    destruct (pool !! j) as [[[p|] ny]|] eqn:E; [|done..]. rewrite lookup_delete_ne; [done|].
    intros <-. by pose proof (Hinj _ _ _ _ _ E Hn).
Qed.

Lemma cpool_perm s pool free used used' kept :
  used ≡ₚ used' -> cpool_ok s pool free used kept -> cpool_ok s pool free used' kept.
Proof.
  intros Hu [Hc Hp Hs Hch Hdom Hperm Hmap Hnew Hinj]. split; try done.
  - by rewrite <- Hu.
  - by rewrite <- Hu.
  - intros o i E. rewrite <- Hu. by apply Hmap.
Qed.

(** The pool as clients that were given [outs] find it. *)
Definition cp_left (k : Z) (outs kept : list Z) (s : connection_pool) : Prop :=
  exists pool free used, cpool_ok (cp_objects s) pool free used kept /\
    cpool_left (cp_objects s) pool free used <= k /\
    Forall (fun o => exists i nx, pool !! i = Some (mk_object_node (Some o) nx) /\ i ∉ kept) outs.

Definition keeps_objects {A} (f : CP A) : Prop := forall s, cp_objects (f s).1 = cp_objects s.

Lemma keeps_objects_bind {A B} (f : CP A) (k : A -> CP B) :
  keeps_objects f -> (forall a, keeps_objects (k a)) -> keeps_objects (f ≫= k).
Proof.
  intros Hf Hk s. specialize (Hf s). unfold mbind, M_bind.
  destruct (f s) as [s' [a| |]]; cbn [fst] in *; [|done..]. rewrite <- Hf. apply Hk.
Qed.
Lemma keeps_objects_on {A} obj (f : DB A) : keeps_objects (on_connection obj f).
Proof. intros s. unfold on_connection. case_match; [|done]. by destruct (f _). Qed.

Lemma cp_left_objects k outs kept s s' : cp_objects s' = cp_objects s -> cp_left k outs kept s -> cp_left k outs kept s'.
Proof. unfold cp_left. by intros ->. Qed.

Lemma outs_keep pool pool' (kept outs : list Z) :
  nodes_keep pool pool' ->
  Forall (fun o => exists i nx, pool !! i = Some (mk_object_node (Some o) nx) /\ i ∉ kept) outs ->
  Forall (fun o => exists i nx, pool' !! i = Some (mk_object_node (Some o) nx) /\ i ∉ kept) outs.
Proof. intros Hk Ho. eapply Forall_impl; [exact Ho|]. intros o (i & nx & E & Hi). apply Hk in E as [nx' E]. eauto. Qed.

(** [alloc] of the pool: the object pool's, and perhaps a new connection. *)
Lemma pool_alloc_objects s :
  exists s', pool_alloc s = (s', (objectpool_alloc (cp_objects s)).2) /\ cp_objects s' = (objectpool_alloc (cp_objects s)).1.
Proof.
  unfold pool_alloc, on_objects, mbind at 1, M_bind at 1.
  destruct (objectpool_alloc (cp_objects s)) as [o [[[id conn]|]|e|f]]; cbn [fst snd]; [|by eexists..].
  rewrite M_get. cbn [cp_connections cp_set_objects].
  destruct (cp_connections s !! conn); erewrite M_bind_ok by done; by eexists.
Qed.

(** [free] by index of a node in use. *)
Lemma cpool_free_idx s pool free used kept i o nx :
  cpool_ok s pool free (i :: used) kept -> pool !! i = Some (mk_object_node (Some o) nx) ->
  objectpool_free_idx i s = pool_put_front i (delete o) s.
Proof.
  intros [_ Hp _ _ Hdom _ _ _ _] Hn. unfold objectpool_free_idx. rewrite M_get.
  assert (0 <= i < op_cap s) by (apply Hdom; eauto).
  rewrite (proj2 (Z.leb_le 0 i)), (proj2 (Z.ltb_lt i _)) by lia. cbn [andb negb]. rewrite Hp.
  unfold pool_node at 1. rewrite Hn. by erewrite M_bind_ok by done.
Qed.

(** [free] of an object that the map knows. *)
Lemma cpool_free s pool free used kept i o :
  cpool_ok s pool free used kept -> op_obj_map s !! o = Some i ->
  objectpool_free o s = pool_put_front i (delete o) s.
Proof.
  intros [_ Hp _ _ Hdom _ Hmap _ _] Hm. unfold objectpool_free. rewrite M_get, Hm.
  destruct (Hmap _ _ Hm) as (_ & nx & Hn).
  assert (0 <= i < op_cap s) by (apply Hdom; eauto).
  by rewrite (proj2 (Z.leb_le 0 i)), (proj2 (Z.ltb_lt i _)) by lia.
Qed.

Section RunsDry.
Variable driver : list db_call -> db_call -> option Z.

Lemma get_connection_left now k outs kept s :
  cp_left k outs kept s ->
  match get_connection driver now s with
  | (s', Ok (Some c)) => cp_left (k - 1) (outs ++ [c]) kept s'
  | (s', Ok None) | (s', Throw _) => cp_left k outs kept s'
  | (_, Fault _) => True
  end.
Proof.
  intros (pool & free & used & Hok & Hleft & Houts). unfold get_connection.
  destruct (pool_alloc_objects s) as (s1 & E1 & Ho1). pose proof (cpool_alloc _ _ _ _ _ Hok) as Ha.
  destruct (objectpool_alloc (cp_objects s)) as [o1 [[[i conn]|]|e|f]]; cbn [fst snd] in *; try done.
  2: { destruct Ha as [-> ->]. rewrite (M_bind_ok _ _ _ _ _ E1). exists pool, [], used. by rewrite Ho1. }
  destruct Ha as (pool1 & free1 & -> & Hok1 & Hleft1 & Hkeep & nx & Hnode).
  rewrite (M_bind_ok _ _ _ _ _ E1), M_get. subst o1.
  assert (i ∉ kept) as Hik.
  { pose proof (cpool_nodup _ _ _ _ _ Hok) as Hnd. cbn in Hnd. apply NoDup_cons in Hnd as [Hni _].
    intros Hin. apply Hni. rewrite !elem_of_app. tauto. }
  assert (forall s', cp_objects s' = cp_objects s1 -> cp_left k outs kept s') as Hlost.
  { intros s' E. exists pool1, free1, (i :: used). rewrite E. split; [done|]. split; [lia|]. by eapply outs_keep. }
  set (connect := (_ ≫= _ : CP bool)). assert (keeps_objects connect) as Hconnect.
  { apply keeps_objects_bind; [apply keeps_objects_on|]. intros []; [done|apply keeps_objects_on]. }
  specialize (Hconnect s1). unfold mbind at 1, M_bind at 1.
  destruct (connect s1) as [s2 [[]|e|f]]; cbn [fst] in Hconnect; [| |by apply Hlost|done].
  - pose proof (keeps_objects_on conn (set_last_access now) s2) as H3. unfold mbind, M_bind.
    destruct (on_connection conn (set_last_access now) s2) as [s3 [[]|e|f]]; cbn [fst] in H3;
      rewrite Hconnect in H3; [|by apply Hlost|done].
    exists pool1, free1, (i :: used). rewrite H3. split; [done|]. split; [lia|]. apply Forall_app.
    split; [by eapply outs_keep|]. repeat constructor. by exists i, nx.
  - destruct (cpool_put_front _ _ _ _ _ _ _ _ Hok1 Hnode) as (o2 & pool2 & Ep & Hok2 & Hkeep2 & Hleft2).
    rewrite <- (cpool_free_idx _ _ _ _ _ _ _ _ Hok1 Hnode) in Ep.
    unfold mbind, M_bind, on_objects. rewrite Hconnect, Ep.
    exists pool2, (i :: free1), used. cbn [cp_objects cp_set_objects]. split; [done|].
    pose proof (used_weight_bounds pool1 (op_obj_map (cp_objects s1)) i).
    split; [lia|]. eapply outs_keep; [done|]. by eapply outs_keep.
Qed.

Lemma objects_free_left k outs kept o s :
  cp_left k outs kept s -> o ∈ outs -> cp_left k outs kept (on_objects (objectpool_free o) s).1.
Proof.
  intros (pool & free & used & Hok & Hleft & Houts) Ho. unfold on_objects.
  destruct (op_obj_map (cp_objects s) !! o) as [i|] eqn:Hm.
  - rewrite (cpool_free _ _ _ _ _ _ _ Hok Hm).
    destruct (co_map _ _ _ _ _ Hok _ _ Hm) as (Hin & nx & Hn).
    apply (proj1 (Forall_forall _ _) Houts) in Ho as (j & ny & Hj & Hjk).
    rewrite (co_inj _ _ _ _ _ Hok _ _ _ _ _ Hj Hn) in Hjk.
    apply elem_of_app in Hin as [Hin|]; [|done].
    apply elem_of_Permutation in Hin as [used' Hu].
    destruct (cpool_put_front _ _ _ _ _ _ _ _ (cpool_perm _ _ _ _ _ _ Hu Hok) Hn) as (o2 & pool2 & Ep & Hok2 & Hkeep2 & Hleft2).
    rewrite Ep. exists pool2, (i :: free), used'. cbn [cp_objects cp_set_objects fst]. split; [done|].
    split; [|by eapply outs_keep]. rewrite Hleft2, (used_weight_at _ _ _ _ _ Hn), Hm.
    unfold cpool_left in *. rewrite <- (sum_of_perm _ _ _ Hu). lia.
  - unfold objectpool_free. rewrite M_get, Hm. by exists pool, free, used.
Qed.

Lemma release_connection_left now k outs kept conn s :
  cp_left k outs kept s -> (forall o, conn = Some o -> o ∈ outs) ->
  cp_left k outs kept (release_connection driver now conn s).1.
Proof.
  intros Hl Hin. destruct conn as [o|]; [|done]. specialize (Hin o eq_refl). unfold release_connection.
  assert (forall (A : Type) (f : DB A) (K : A -> CP unit) s, cp_left k outs kept s ->
    (forall a s', cp_left k outs kept s' -> cp_left k outs kept (K a s').1) ->
    cp_left k outs kept ((a ← on_connection o f; K a) s).1) as Hstep.
  { clear s Hl. intros A f K s Hl HK. pose proof (keeps_objects_on o f s) as H. unfold mbind, M_bind.
    destruct (on_connection o f s) as [s' [a| |]]; cbn [fst] in *; [apply HK| |];
      (eapply cp_left_objects; [exact H|exact Hl]). }
  apply Hstep; [done|]. intros transaction s1 H1.
  assert (forall s', cp_left k outs kept s' -> cp_left k outs kept
    ((on_connection o (release_savepoint driver []);; on_connection o (set_last_access now);; on_objects (objectpool_free o)) s').1) as Hrest.
  { intros s' Hs'. apply Hstep; [done|]. intros _ s2 H2. apply Hstep; [done|]. intros _ s3 H3. by apply objects_free_left. }
  destruct transaction; [|by apply Hrest]. by apply Hstep.
Qed.
End RunsDry.

(** Clients that catch what is thrown: they ask for connections and give back,
    once or several times, those they were given, which are listed. *)
Inductive cp_op := CpGet (now : Z) | CpRelease (now : Z) (k : nat).

Fixpoint cp_run (driver : list db_call -> db_call -> option Z) (ops : list cp_op) (outs : list Z) : CP (list Z) :=
  match ops with
  | [] => mret outs
  | CpGet now :: ops =>
      r ← try_catch (get_connection driver now) (fun _ => mret None);
      cp_run driver ops (match r with Some conn => outs ++ [conn] | None => outs end)
  | CpRelease now k :: ops =>
      try_catch (release_connection driver now (outs !! k)) (fun _ => mret tt);;
      cp_run driver ops outs
  end.

Lemma cp_run_left driver ops k outs kept s s' outs' :
  cp_left k outs kept s -> cp_run driver ops outs s = (s', Ok outs') -> len outs' <= len outs + k.
Proof.
  revert k outs s. induction ops as [|[now|now j] ops IH]; intros k outs s Hl; cbn [cp_run].
  - intros [= _ <-]. destruct Hl as (pool & free & used & Hok & Hleft & _).
    pose proof (cpool_left_bounds (cp_objects s) pool free used). lia.
  - pose proof (get_connection_left driver now k outs kept s Hl) as Hg. unfold mbind, M_bind, try_catch.
    destruct (get_connection driver now s) as [s1 [[c|]|e|f]]; cbn; intros E; [|by apply (IH _ _ _ Hg E)..|done].
    apply (IH _ _ _ Hg) in E. rewrite len_app, len_cons, len_nil in E. lia.
  - pose proof (release_connection_left driver now k outs kept (outs !! j) s Hl) as Hr. unfold mbind, M_bind, try_catch.
    assert (forall o, outs !! j = Some o -> o ∈ outs) as Hin by (intros o; apply list_elem_of_lookup_2).
    specialize (Hr Hin).
    destruct (release_connection driver now (outs !! j) s) as [s1 [u|e|f]]; cbn; intros E; [by apply (IH _ _ _ Hr E)..|done].
Qed.

(** A fresh pool; nodes that the initialisation keeps are lost. *)
Lemma fresh_no_object cap i o nx : fresh_nodes (mk_object_node None) cap !! i <> Some (mk_object_node (Some o) nx).
Proof.
  intros E. assert (0 <= i < cap) as Hi.
  { assert (is_Some (fresh_nodes (mk_object_node None) cap !! i)) as H by eauto.
    unfold fresh_nodes in H. rewrite lookup_map_seqZ_is_Some, length_fmap, length_seqZ in H. lia. }
  by rewrite fresh_lookup in E.
Qed.

Lemma cpool_init cap s :
  objectpool_init cap pool_null = (s, Ok tt) ->
  cpool_ok s (fresh_nodes (mk_object_node None) cap) (seqZ 0 cap) [] [] /\ 0 < cap.
Proof.
  unfold objectpool_init. rewrite M_get. cbn [op_pool pool_null].
  destruct (Z.ltb_spec 0 cap), (Z.leb_spec cap OBJECT_POOL_MAX); cbn [andb negb]; [|done..].
  intros [= <-]. split; [|done].
  split; cbn [op_cap op_pool op_size op_free op_obj_map op_brk pool_null]; try done.
  - pose proof (fresh_chain (mk_object_node None) n_next cap 0 (fun _ => eq_refl) ltac:(lia)) as Hch.
    rewrite Z.sub_0_r in Hch. by destruct (Z.ltb_spec 0 cap); [|lia].
  - intros i. unfold fresh_nodes. rewrite lookup_map_seqZ_is_Some, length_fmap, length_seqZ. lia.
  - by rewrite !app_nil_r.
  - intros i o nx E. by apply fresh_no_object in E.
  - intros i j o nx ny E. by apply fresh_no_object in E.
Qed.

Lemma cpool_keep s pool free i kept : cpool_ok s pool free [i] kept -> cpool_ok s pool free [] (i :: kept).
Proof. by intros [Hc Hp Hs Hch Hdom Hperm Hmap Hnew Hinj]. Qed.

Lemma init_loop_keeps driver n s s' pool free kept :
  cpool_ok (cp_objects s) pool free [] kept -> init_loop driver n s = (s', Ok tt) ->
  exists pool' free' kept', cpool_ok (cp_objects s') pool' free' [] kept' /\
    len free' = Z.max 0 (len free - Z.of_nat n).
Proof.
  revert s pool free kept. induction n as [|n IH]; intros s pool free kept Hok; cbn [init_loop].
  { intros [= <-]. exists pool, free, kept. pose proof (len_nonneg free). split; [done|lia]. }
  destruct (pool_alloc_objects s) as (s1 & E1 & Ho1). pose proof (cpool_alloc _ _ _ _ _ Hok) as Ha.
  intros E. apply M_bind_inv in E as (s1' & r & E1' & E). rewrite E1 in E1'. injection E1' as <- Er.
  destruct (objectpool_alloc (cp_objects s)) as [o1 r1]. cbn [fst snd] in *. subst r1 o1.
  destruct r as [[i conn]|].
  - destruct Ha as (pool1 & free1 & -> & Hok1 & _ & _ & _). apply cpool_keep in Hok1.
    apply M_bind_inv in E as (s2 & [] & E2 & E). rewrite M_get in E2.
    assert (cp_objects s2 = cp_objects s1) as Ho2.
    { apply (f_equal fst) in E2. cbn [fst] in E2. subst s2. revert s1 E1 Hok1 E. intros s1 _ _ _.
      apply (keeps_objects_bind (on_connection conn _)); [apply keeps_objects_on|]. intros _.
      apply keeps_objects_bind; [apply keeps_objects_on|]. by intros []. }
    rewrite <- Ho2 in Hok1. destruct (IH _ _ _ _ Hok1 E) as (pool' & free' & kept' & Hok' & Hlen).
    exists pool', free', kept'. split; [done|]. rewrite len_cons. lia.
  - destruct Ha as [Hs1 ->]. apply M_bind_inv in E as (s2 & [] & [= <-] & E).
    rewrite <- Hs1 in Hok. destruct (IH _ _ _ _ Hok E) as (pool' & free' & kept' & Hok' & Hlen).
    exists pool', free', kept'. split; [done|]. rewrite Hlen, (len_nil (A := Z)). lia.
Qed.

(** The pool before [init]. *)
Definition cpool_null : connection_pool := mk_cpool pool_null ∅ [] [] 0 [] [] [] 0 0 0 0.

(** Whatever the server answers and whatever clients do -- ask, give back
    what they were given, once or again, in any order, catching what is thrown --
    a connection pool hands out at most twice as many connections as it has above
    its minimum, in the whole life of the program: the connections that [init]
    opens are handed out by nobody, and one that was given back once and handed
    out again can not be given back any more. *)
Theorem connection_pool_runs_dry driver cfg minsize maxsize s ops s' outs :
  config_get_int u64 (str "mysql") (str "minsize") 0 cfg = Ok minsize ->
  config_get_int u64 (str "mysql") (str "maxsize") 0 cfg = Ok maxsize ->
  0 <= minsize ->
  connection_pool_init driver cfg cpool_null = (s, Ok tt) ->
  cp_run driver ops [] s = (s', Ok outs) ->
  len outs <= 2 * Z.max 0 (maxsize - minsize).
Proof.
  intros Hmin Hmax Hpos Hinit Hrun. unfold connection_pool_init in Hinit.
  apply M_bind_inv in Hinit as (s1 & port & [= <- Hport] & Hinit). rewrite Hmin, Hmax in Hinit.
  apply M_bind_inv in Hinit as (s1 & ? & [= <- <-] & Hinit).
  apply M_bind_inv in Hinit as (s1 & ? & [= <- <-] & Hinit).
  apply M_bind_inv in Hinit as (s1 & t1 & [= <- Ht1] & Hinit).
  apply M_bind_inv in Hinit as (s1 & t2 & [= <- Ht2] & Hinit).
  rewrite M_modify in Hinit. apply M_bind_inv in Hinit as (s2 & [] & E2 & Hinit).
  unfold on_objects in E2. cbn [cp_objects cpool_null] in E2.
  destruct (objectpool_init maxsize pool_null) as [o r] eqn:Eo. injection E2 as <- ->.
  apply cpool_init in Eo as [Hok Hcap].
  eapply init_loop_keeps in Hinit as (pool & free & kept & Hok' & Hlen); [|exact Hok].
  rewrite len_seqZ in Hlen by lia.
  assert (cp_left (2 * Z.max 0 (maxsize - minsize)) [] kept s) as Hl.
  { exists pool, free, []. split; [done|]. split; [|done].
    pose proof (cpool_left_bounds (cp_objects s) pool free []) as Hb. rewrite (len_nil (A := Z)) in Hb. lia. }
  pose proof (cp_run_left _ _ _ _ _ _ _ _ Hl Hrun) as H. rewrite (len_nil (A := Z)) in H. lia.
Qed.

Definition demo_mysql_config : SECTION_MAP :=
  {[str "mysql" := <[str "minsize" := str "1"]> {[str "maxsize" := str "2"]}]}.

(** A server that is always there: every handle is 7, nothing is closed, commits
    are automatic. *)
Definition demo_driver (_ : list db_call) (c : db_call) : option Z :=
  match c with DcIsClosed _ => Some 0 | DcGetAutoCommit _ => Some 1 | _ => Some 7 end.

Definition demo_clients : list cp_op :=
  [CpGet 1; CpRelease 2 0; CpGet 3; CpRelease 4 0; CpGet 5; CpRelease 6 0; CpGet 7].

Lemma connection_pool_runs_dry_witness :
  exists s s' outs, connection_pool_init demo_driver demo_mysql_config cpool_null = (s, Ok tt) /\
    cp_run demo_driver demo_clients [] s = (s', Ok outs) /\ outs = [2; 2] /\ len outs <= 2 * Z.max 0 (2 - 1).
Proof.
  destruct (connection_pool_init demo_driver demo_mysql_config cpool_null) as [s r] eqn:E.
  assert (r = Ok tt) as -> by (apply (f_equal snd) in E; cbn [snd] in E; rewrite <- E; vm_compute; reflexivity).
  destruct (cp_run demo_driver demo_clients [] s) as [s' r] eqn:Er.
  assert (r = Ok [2; 2]) as ->.
  { apply (f_equal snd) in Er. cbn [snd] in Er. apply (f_equal fst) in E. cbn [fst] in E. subst s.
    rewrite <- Er. vm_compute. reflexivity. }
  exists s, s', [2; 2]. split; [reflexivity|]. split; [exact Er|]. split; [reflexivity|].
  apply (connection_pool_runs_dry demo_driver demo_mysql_config 1 2 s demo_clients s' [2; 2]);
    [vm_compute; reflexivity|vm_compute; reflexivity|lia|exact E|exact Er].
Defined.

(** ** Parameters and rows *)

Section Statements.
Variable driver : list db_call -> db_call -> option Z.
Variable driver_value : list db_call -> Z -> Z -> db_value.

Lemma call_bind {A} c (K : Z -> DB A) d d' a :
  (n ← call driver c; K n) d = (d', Ok a) ->
  exists n, driver (dc_calls d) c = Some n /\ K n (mk_dbc (dc_calls d ++ [c]) (dc_this d)) = (d', Ok a).
Proof.
  intros H. apply M_bind_inv in H as (d1 & n & E & H). unfold call in E. rewrite M_get in E.
  erewrite M_bind_ok in E by done. destruct (driver (dc_calls d) c) as [m|]; [|done].
  injection E as <- <-. by exists m.
Qed.
Lemma call__bind {A} c (K : unit -> DB A) d d' a :
  (call_ driver c ≫= K) d = (d', Ok a) -> K tt (mk_dbc (dc_calls d ++ [c]) (dc_this d)) = (d', Ok a).
Proof.
  intros H. apply M_bind_inv in H as (d1 & [] & E & H). apply call_bind in E as (n & _ & E). by injection E as <-.
Qed.

(** The calls that bind [args] from the number [k] on. *)
Definition bind_calls (stmt k : Z) (args : list db_value) : list db_call :=
  imap (fun i v => DcBind stmt (k + Z.of_nat i) v) args.

Lemma bind_calls_cons stmt k v args : bind_calls stmt k (v :: args) = DcBind stmt k v :: bind_calls stmt (k + 1) args.
Proof.
  unfold bind_calls. cbn [imap]. f_equal; [f_equal; lia|]. apply imap_ext. intros i x _. cbn. f_equal. lia.
Qed.

(** A statement's parameters are bound from the second on: the first is never
    bound, and one behind the last is. *)
Lemma params_shifted stmt k args d d' n :
  0 <= k -> k + len args < 2 ^ 31 ->
  bind_params driver stmt k args d = (d', Ok n) -> dc_calls d' = dc_calls d ++ bind_calls stmt (k + 1) args.
Proof.
  revert k d. induction args as [|v args IH]; intros k d Hk Hlen; cbn [bind_params].
  - intros [= <- _]. by rewrite app_nil_r.
  - rewrite len_cons in Hlen. pose proof (len_nonneg args).
    rewrite wrapS_small; [|lia|unfold inS; change (32 - 1) with 31; lia].
    intros E. apply call__bind in E. apply IH in E; [|lia..]. rewrite E. cbn [dc_calls].
    by rewrite bind_calls_cons, <- app_assoc.
Qed.

(** A row is bound behind the rows before it, executed or not. *)
Lemma insert_row_binds stmt k row d d' st :
  0 <= k -> k + len row < 2 ^ 31 ->
  insert_row driver row (mk_insert_stream (Some stmt) k) d = (d', Ok st) ->
  dc_calls d' = dc_calls d ++ bind_calls stmt (k + 1) row /\ st = mk_insert_stream (Some stmt) (k + len row).
Proof.
  revert k d. induction row as [|v row IH]; intros k d Hk Hlen; cbn [insert_row].
  - intros [= <- <-]. by rewrite app_nil_r, len_nil, Z.add_0_r.
  - rewrite len_cons in *. pose proof (len_nonneg row).
    intros E. apply M_bind_inv in E as (d1 & st1 & E1 & E).
    unfold insert_bind in E1. cbn [is_stmt is_param_count] in E1.
    rewrite wrapS_small in E1; [|lia|unfold inS; change (32 - 1) with 31; lia].
    apply call__bind in E1. injection E1 as <- <-. apply IH in E as [E ->]; [|lia..]. rewrite E. cbn [dc_calls].
    rewrite bind_calls_cons, <- app_assoc. split; [done|]. f_equal. lia.
Qed.

(** The driver's answer to [getColumnCount]. *)
Definition columns_are (n : Z) : Prop := forall calls res, driver calls (DcColumnCount res) = Some n.

(** The calls and the values of [k] extractions from column [i] on. *)
Fixpoint extract_calls (res n i : Z) (k : nat) (calls : list db_call) : list db_call * list db_value :=
  match k with
  | O => (calls, [])
  | S k =>
      let r := extract_calls res n ((i + 1) mod n) k (calls ++ [DcGet res (i + 1); DcColumnCount res]) in
      (r.1, driver_value calls res (i + 1) :: r.2)
  end.

Lemma select_extract_at n stmt res i d d' r :
  columns_are n -> 0 <= i < n /\ n < 2 ^ 31 ->
  select_extract driver driver_value (mk_select_stream stmt res i) d = (d', Ok r) ->
  r = (mk_select_stream stmt res ((i + 1) mod n), driver_value (dc_calls d) res (i + 1)) /\
  d' = mk_dbc (dc_calls d ++ [DcGet res (i + 1); DcColumnCount res]) (dc_this d).
Proof.
  intros Hn Hi. unfold select_extract. cbn [ss_res ss_stmt ss_column_idx]. rewrite M_get.
  rewrite (wrapS_small 32 (i + 1)); [|lia|unfold inS; change (32 - 1) with 31; lia].
  intros E. apply call__bind in E. apply call_bind in E as (m & Em & E). rewrite Hn in Em. injection Em as <-.
  rewrite (proj2 (Z.eqb_neq n 0)), !wrapU_small in E by word_lia.
  pose proof (Z.mod_pos_bound (i + 1) n ltac:(lia)).
  rewrite wrapS_small in E; [|lia|unfold inS; change (32 - 1) with 31; lia].
  injection E as <- <-. cbn [dc_calls dc_this]. by rewrite <- app_assoc.
Qed.

Lemma select_row_runs n stmt res k i d d' st vs :
  columns_are n -> 0 <= i < n /\ n < 2 ^ 31 ->
  select_row driver driver_value k (mk_select_stream stmt res i) d = (d', Ok (st, vs)) ->
  st = mk_select_stream stmt res ((i + Z.of_nat k) mod n) /\
  (dc_calls d', vs) = extract_calls res n i k (dc_calls d).
Proof.
  intros Hn. revert i d st vs. induction k as [|k IH]; intros i d st vs Hi; cbn [select_row extract_calls].
  - intros [= <- <- <-]. rewrite Z.add_0_r, Z.mod_small by lia. done.
  - intros E. apply M_bind_inv in E as (d1 & r & E1 & E). apply (select_extract_at n) in E1 as [-> ->]; [|done|lia].
    apply M_bind_inv in E as (d2 & [st' vs'] & E2 & E). injection E as <- <- <-.
    pose proof (Z.mod_pos_bound (i + 1) n ltac:(lia)).
    apply IH in E2 as [-> E2]; [|lia]. cbn [dc_calls] in E2. rewrite <- E2. split; [|done].
    rewrite Zplus_mod_idemp_l. do 2 f_equal. lia.
Qed.

(** Reading rows of a result with as many fields as it has columns reads the
    columns 1 to n of every row, in order, and is back at the first column
    afterwards. *)
Theorem select_rows_aligned fields stmt res d d' st vs :
  columns_are (Z.of_nat fields) -> 0 < Z.of_nat fields < 2 ^ 31 ->
  select_row driver driver_value fields (mk_select_stream stmt res 0) d = (d', Ok (st, vs)) ->
  st = mk_select_stream stmt res 0 /\ length vs = fields /\
  omap (fun c => match c with DcGet _ i => Some i | _ => None end) (drop (length (dc_calls d)) (dc_calls d'))
    = Z.of_nat <$> seq 1 fields.
Proof.
  intros Hn Hpos E. apply (select_row_runs (Z.of_nat fields)) in E as [-> E]; [|done|lia].
  rewrite Z.add_0_l, Z.mod_same by lia. split; [done|].
  assert (forall k i calls, (i + k <= fields)%nat ->
    length (extract_calls res (Z.of_nat fields) (Z.of_nat i) k calls).2 = k /\
    exists new, (extract_calls res (Z.of_nat fields) (Z.of_nat i) k calls).1 = calls ++ new /\
      omap (fun c => match c with DcGet _ i => Some i | _ => None end) new = Z.of_nat <$> seq (S i) k) as H.
  { clear. induction k as [|k IH]; intros i calls Hik; cbn [extract_calls fst snd].
    { split; [done|]. exists []. by rewrite app_nil_r. }
    assert (k = 0 \/ S i < fields)%nat as [->|Hlt] by lia.
    { split; [done|]. exists [DcGet res (Z.of_nat i + 1); DcColumnCount res]. split; [done|]. cbn. do 2 f_equal. lia. }
    replace ((Z.of_nat i + 1) mod Z.of_nat fields) with (Z.of_nat (S i)) by (rewrite Z.mod_small by lia; lia).
    destruct (IH (S i) (calls ++ [DcGet res (Z.of_nat i + 1); DcColumnCount res]) ltac:(lia)) as [Hl (new & Hnew & Hcols)].
    split; [cbn [length]; by rewrite Hl|]. eexists. rewrite Hnew, <- app_assoc. split; [done|].
    cbn. rewrite Hcols. do 2 f_equal. lia. }
  destruct (H fields 0%nat (dc_calls d) ltac:(lia)) as [Hl (new & Hnew & Hcols)]. change (Z.of_nat 0) with 0 in *.
  rewrite <- E in Hl, Hnew. cbn [fst snd] in Hl, Hnew. split; [done|].
  by rewrite Hnew, drop_app_length.
Qed.

Lemma handle_ok d c : cn_conn (dc_this d) = Some c -> handle d = (d, Ok c).
Proof. intros H. unfold handle. rewrite M_get. by rewrite H. Qed.

(** A transaction is seen while it lasts, by a server that remembers the mode. *)
Definition remembers_mode : Prop := forall calls c mode, driver (calls ++ [DcSetAutoCommit c mode]) (DcGetAutoCommit c) = Some (if mode then 1 else 0).

Lemma transaction_seen d d' c b :
  remembers_mode -> cn_conn (dc_this d) = Some c ->
  (begin_transaction driver;; has_transaction driver) d = (d', Ok b) -> b = true.
Proof.
  intros Hm Hc E. unfold begin_transaction, has_transaction in E.
  apply M_bind_inv in E as (d1 & [] & E1 & E). rewrite (M_bind_ok _ _ _ _ _ (handle_ok d c Hc)) in E1.
  apply call_bind in E1 as (n & _ & E1). injection E1 as <-.
  rewrite (M_bind_ok _ _ _ _ _ (handle_ok (mk_dbc _ (dc_this d)) c Hc)) in E.
  apply call_bind in E as (m & Em & E). cbn [dc_calls] in Em. rewrite Hm in Em. injection Em as <-. by injection E as _ <-.
Qed.
End Statements.

(** ** Texts and values *)

(** The statement that inserts has no commas, and a full stop. *)
Lemma insert_text_malformed :
  insert_sql (str "t") 3 = Ok (str "INSERT INTO `t` VALUES (??.?)").
Proof. vm_compute. reflexivity. Qed.

(** A column that may be null is declared not to be. *)
Lemma nullable_inverted :
  create_sql (str "t") [mk_field (str "a") (str "INT") (mk_flags true false true false false false)]
  = str "CREATE TABLE IF NOT EXISTS `t` (a INT PRIMARY KEY NOT NULL)".
Proof. vm_compute. reflexivity. Qed.

(** A blob comes back without its white space. *)
Lemma blob_loses_space bs : blob_extract bs = bs <-> Forall (fun c => is_space c = false) bs.
Proof.
  unfold blob_extract. induction bs as [|c bs IH]; [done|]. cbn. rewrite Forall_cons.
  destruct (is_space c); cbn.
  - split; [|by intros []]. intros H. exfalso. apply (f_equal length) in H. cbn in H.
    pose proof (List.filter_length_le (fun c => negb (is_space c)) bs). lia.
  - split; [intros [= H]; split; [done|by apply IH]|intros [_ H]; f_equal; by apply IH].
Qed.

(** An array gets the text up to its first null character, as long as it has room. *)
Lemma char_extract_room size s value :
  len value = size -> (char_extract size s value = Fault (UB "write out of bounds") <-> size <= len s).
Proof.
  intros Hv. unfold char_extract. destruct (Z.leb_spec size (len s)); [done|].
  split; [|lia]. rewrite mem_write_ok; [done|lia|].
  autorewrite with bee.
  assert (length (c_string s) <= length s)%nat by (clear; induction s as [|c s IH]; cbn; [done|case_match; cbn; lia]).
  unfold len in *. lia.
Qed.

Lemma select_rows_aligned_witness :
  exists d' st vs,
    select_row (fun _ c => match c with DcColumnCount _ => Some 2 | _ => Some 0 end) (fun _ _ i => DbInt i) 2 (mk_select_stream 1 5 0)
      (mk_dbc [] connection_new) = (d', Ok (st, vs)) /\
    st = mk_select_stream 1 5 0 /\ length vs = 2%nat.
Proof.
  eexists _, _, _. split; [vm_compute; reflexivity|].
  destruct (select_rows_aligned (fun _ c => match c with DcColumnCount _ => Some 2 | _ => Some 0 end) (fun _ _ i => DbInt i)
    2 1 5 (mk_dbc [] connection_new) (mk_dbc [DcGet 5 1; DcColumnCount 5; DcGet 5 2; DcColumnCount 5] connection_new)
    (mk_select_stream 1 5 0) [DbInt 1; DbInt 2]) as (H1 & H2 & _).
  - intros calls res. reflexivity.
  - lia.
  - vm_compute. reflexivity.
  - split; [exact H1|exact H2].
Defined.
