(* ===== verification/Startup.v ===== *)
(** Starting and stopping (io/reactor.cpp, io/event.cpp, io/session_manager.cpp):
    [reactor::init], [run], [stop] and the destructor, the front end of the timers,
    and what [session_manager::init] makes of the configuration. *)

From stdpp Require Import gmap.
From S2P Require Import Prelude Text Address DoubleBuffer Reactor TimeWheel Config.

(** * The reactor *)

Section Startup.
Context {K : Type} (epoll_ctl : epoll_op -> Z -> Z -> K -> K * Z).
Abbreviation reactor := (Reactor.reactor (K := K)).

(** The members that Reactor leaves out.  [_dispatcher] has no initial value
    ([None]); an [epoller] has the descriptor of [epoll_create]. *)
Record server := mk_server {
  sv_stop : bool;
  sv_dispatcher : option Z;
  sv_timeout : Z;
  sv_sub_reactors : list Z;
  sv_reactor : reactor;
}.
Abbreviation SV := (M server).

Definition sv_with_stop b (s : server) := mk_server b (sv_dispatcher s) (sv_timeout s) (sv_sub_reactors s) (sv_reactor s).
Definition sv_with_reactor r (s : server) := mk_server (sv_stop s) (sv_dispatcher s) (sv_timeout s) (sv_sub_reactors s) r.
Definition on_reactor {A} (f : M reactor A) : SV A := fun s =>
  let '(r, o) := f (sv_reactor s) in (sv_with_reactor r s, o).

(** Before [init]; [_wakeup_fd] is -1. *)
Definition reactor_new (k : K) : server :=
  mk_server true None (-1) [] (mk_reactor ∅ (db_init []) ∅ ∅ [] true k ∅ (-1) false 0).

(** The constructors of the events; a descriptor that could not be made is -1. *)
Definition control_event_new (efd : Z) : event := mk_event (control_event efd) EVENT_STATUS_NONE EVENT_WAKEUP false.
Definition sigio_new (readfd : Z) : event := mk_event (sigio_event readfd) EVENT_STATUS_NONE EVENT_RECV false.
Definition timer_event_new (delay : bool) (timeout repeats : Z) : event :=
  mk_event (timer_event delay timeout repeats) EVENT_STATUS_NONE EVENT_TIMER false.

(** [new] of an event, at the address it is given, and [add_event]. *)
Definition add_new_event (p : Z) (e : event) : M reactor unit :=
  modify (fun r => r_with_heap (<[p := e]> (r_heap r)) r);; r_add_event p.

(** What the system gives: the descriptors of [epoll_create], of the pipe and of
    the eventfd, and the addresses of the two events. *)
Record init_calls := mk_calls { ic_epoll : Z; ic_pipe : Z; ic_eventfd : Z; ic_sigio : Z; ic_control : Z }.

(** [init] but for the sub-reactors: the result of [epoller::init] is not looked
    at. *)
Definition init_reactor (cfg : SECTION_MAP) (k : init_calls) : SV unit :=
  if negb (bool_decide (config_get (str "reactor") (str "demultiplexer") [] cfg = str "epoller")) then
    fail (UB "indeterminate _dispatcher")
  else
    let use_timer_thread := config_get_bool (str "reactor") (str "use_timer_thread") false cfg in
    s ← get;
    timeout ← (if use_timer_thread then mret (sv_timeout s)
               else lift (config_get_int s32 (str "reactor") (str "timeout") 0 cfg));
    let r := sv_reactor s in
    put (mk_server (sv_stop s) (Some (ic_epoll k)) timeout (sv_sub_reactors s)
           (mk_reactor (r_heap r) (r_changelist r) (r_io_events r) (r_signal_events r) (r_timer_events r)
              use_timer_thread (r_kernel r) (r_listenfds r) (r_wakeup_fd r) (r_wakeup r) (r_wakeups r)));;
    on_reactor (add_new_event (ic_sigio k) (sigio_new (ic_pipe k)));;
    on_reactor (add_new_event (ic_control k) (control_event_new (ic_eventfd k))).

(** The sub-reactors that [init] makes and whose threads it starts: [data] is a
    local of the loop. *)
Fixpoint init_subs (cfg : SECTION_MAP) (kernels : list (K * init_calls)) : outcome (list server) :=
  match kernels with
  | [] => Ok []
  | (k, calls) :: kernels =>
      match init_reactor cfg calls (reactor_new k) with
      | (sub, Ok _) => subs ← init_subs cfg kernels; Ok (sub :: subs)
      | (_, Throw e) => Throw e
      | (_, Fault f) => Fault f
      end
  end.
Definition reactor_init (cfg : SECTION_MAP) (main : init_calls) (kernels : list (K * init_calls)) : SV (list server) :=
  init_reactor cfg main;;
  count ← lift (config_get_int u64 (str "reactor") (str "sub_reactor_count") 0 cfg);
  lift (init_subs cfg (take (Z.to_nat count) kernels)).

(** [wakeup] calls the dispatcher. *)
Definition reactor_wakeup : SV unit :=
  s ← get;
  match sv_dispatcher s with
  | None => fail (UB "indeterminate _dispatcher")
  | Some _ => on_reactor epoller_wakeup
  end.
Definition reactor_stop : SV unit := modify (sv_with_stop true);; reactor_wakeup.

(** *** The loop *)

Context (handle_event : Z -> Z -> M reactor bool) (handler : Z -> M reactor bool).

(** One round: the clock when the changes are loaded, when the wait is computed
    and when the timers are run, what [epoll_wait] reports for a timeout, and
    whether somebody stops the reactor meanwhile. *)
Record round := mk_round { rd_load : Z; rd_now : Z; rd_wait : Z -> list (Z * Z); rd_timers : Z; rd_stop : bool }.

Definition run_round (rd : round) : SV unit :=
  on_reactor (load_event epoll_ctl (rd_load rd));;
  s ← get;
  on_reactor (dispatch handle_event (rd_wait rd (run_timeout (sv_timeout s) (rd_now rd) (sv_reactor s))));;
  on_reactor (handle_timer_event handler (rd_timers rd));;
  if rd_stop rd then reactor_stop else mret tt.

(** Whether the loop has ended after these rounds. *)
Fixpoint run_loop (rounds : list round) : SV bool :=
  s ← get;
  if sv_stop s then mret true
  else match rounds with
       | [] => mret false
       | rd :: rounds => run_round rd;; run_loop rounds
       end.
Definition reactor_run (rounds : list round) : SV bool :=
  s ← get;
  match sv_dispatcher s with
  | None => fail (UB "indeterminate _dispatcher")
  | Some _ => modify (sv_with_stop false);; run_loop rounds
  end.

(** *** The destructor *)

(** Deleting the events of a table that are not closed. *)
Fixpoint delete_events (l : list Z) : M reactor unit :=
  match l with
  | [] => mret tt
  | p :: l =>
      e ← ev_deref p;
      (if ev_is_close e then mret tt else ev_delete p);;
      delete_events l
  end.
(** The descriptors closed and the sub-reactors whose threads are joined. *)
Definition reactor_dtor : SV (list Z * list Z) :=
  reactor_stop;;
  s ← get;
  on_reactor (delete_events ((map_to_list (r_io_events (sv_reactor s))).*2));;
  on_reactor (delete_events ((map_to_list (r_signal_events (sv_reactor s))).*2));;
  on_reactor (delete_events ((r_timer_events (sv_reactor s)).*2));;
  mret (match sv_dispatcher s with Some fd => if fd >=? 0 then [fd] else [] | None => [] end, sv_sub_reactors s).
End Startup.

Arguments server : clear implicits.
Arguments round : clear implicits.

(** * The front end of the timers *)

Section Timers.
Context {K : Type}.

(** The reactor and the time wheel of the process. *)
Record timers := mk_timers { tm_reactor : Reactor.reactor (K := K); tm_wheel : timewheel }.
Definition on_wheel {A} (f : TW A) : M timers A := fun s =>
  let '(w, o) := f (tm_wheel s) in (mk_timers (tm_reactor s) w, o).
Definition on_timer_reactor {A} (f : M (Reactor.reactor (K := K)) A) : M timers A := fun s =>
  let '(r, o) := f (tm_reactor s) in (mk_timers r (tm_wheel s), o).

(** [alloc] is what the pool of the wheel gives, [p] what [new] gives. *)
Definition add_timer (alloc : option (Z * Z)) (p : Z) (has_handler delay : bool) (timeout repeats : Z) : M timers Z :=
  s ← get;
  if r_use_timer_thread (tm_reactor s) then on_wheel (tw_add_timer alloc has_handler delay timeout repeats)
  else
    on_timer_reactor (add_new_event p (timer_event_new delay timeout (s32 repeats)));;
    mret p.

(** The two shorter forms wrap the function, so that there always is one. *)
Definition add_timer_repeat (alloc : option (Z * Z)) (p : Z) (delay : bool) (timeout repeats : Z) : M timers Z :=
  add_timer alloc p true delay timeout repeats.
Definition add_timer_forever (alloc : option (Z * Z)) (p timeout : Z) : M timers Z :=
  add_timer alloc p true true timeout (-1).

(** [found] is the node that the wheel finds for the identifier. *)
Definition del_timer (found : option Z) (timerid : Z) : M timers unit :=
  s ← get;
  if r_use_timer_thread (tm_reactor s) then on_wheel (tw_del_timer found);; mret tt
  else if timerid <=? 0 then mret tt
  else on_timer_reactor (r_del_event timerid).
End Timers.
Arguments timers : clear implicits.

(** * The session manager *)

Definition SOCK_STREAM : Z := 1.
Definition SOCK_DGRAM : Z := 2.
Inductive SESSION_TYPE := SESSION_TYPE_NONE | SESSION_TYPE_TCP | SESSION_TYPE_UDP | SESSION_TYPE_HTTP | SESSION_TYPE_HTTPS.

Section Manager.
Context {I4 I6 : Type}.
Variable inet_pton4 : list byte -> option I4.
Variable inet_pton6 : list byte -> option I6.

(** The [SSL_CTX] of a manager: a server's, or a client's, which verifies its
    peer. *)
Inductive ssl_ctx := SslServer | SslClient (verify_peer : bool).

(** What [init] sets, with the timers it adds ([check_timeouts]). *)
Record manager_setup := mk_setup {
  ms_max_connections : Z;
  ms_session_type : SESSION_TYPE;
  ms_socktype : Z;
  ms_family : Z;
  ms_addr : option (address I4 I6);
  ms_read_buffer_size : Z;
  ms_write_buffer_size : Z;
  ms_keepalive_timeout : Z;
  ms_timers : list Z;
  ms_ssl_server : bool;
  ms_ssl_ctx : option ssl_ctx;
  ms_cert_path : list byte;
  ms_key_path : list byte;
}.
Abbreviation MS := (M manager_setup).

Definition manager_new : manager_setup := mk_setup 0 SESSION_TYPE_NONE 0 0 None 0 0 0 [] false None [] [].

Definition ms_with_limit n (m : manager_setup) : manager_setup :=
  mk_setup n (ms_session_type m) (ms_socktype m) (ms_family m) (ms_addr m) (ms_read_buffer_size m)
    (ms_write_buffer_size m) (ms_keepalive_timeout m) (ms_timers m) (ms_ssl_server m) (ms_ssl_ctx m)
    (ms_cert_path m) (ms_key_path m).
Definition ms_with_type ty socktype (m : manager_setup) : manager_setup :=
  mk_setup (ms_max_connections m) ty socktype (ms_family m) (ms_addr m) (ms_read_buffer_size m)
    (ms_write_buffer_size m) (ms_keepalive_timeout m) (ms_timers m) (ms_ssl_server m) (ms_ssl_ctx m)
    (ms_cert_path m) (ms_key_path m).
Definition ms_with_addr family a (m : manager_setup) : manager_setup :=
  mk_setup (ms_max_connections m) (ms_session_type m) (ms_socktype m) family a (ms_read_buffer_size m)
    (ms_write_buffer_size m) (ms_keepalive_timeout m) (ms_timers m) (ms_ssl_server m) (ms_ssl_ctx m)
    (ms_cert_path m) (ms_key_path m).
Definition ms_with_buffers r w keepalive timers (m : manager_setup) : manager_setup :=
  mk_setup (ms_max_connections m) (ms_session_type m) (ms_socktype m) (ms_family m) (ms_addr m) r w keepalive timers
    (ms_ssl_server m) (ms_ssl_ctx m) (ms_cert_path m) (ms_key_path m).
Definition ms_with_ssl server ctx cert key (m : manager_setup) : manager_setup :=
  mk_setup (ms_max_connections m) (ms_session_type m) (ms_socktype m) (ms_family m) (ms_addr m) (ms_read_buffer_size m)
    (ms_write_buffer_size m) (ms_keepalive_timeout m) (ms_timers m) server ctx cert key.

(** What OpenSSL answers: whether there is a context, and whether the certificate
    and the key are loaded and fit. *)
Record ssl_calls := mk_ssl_calls { sx_new : bool; sx_certificate : bool; sx_key : bool; sx_check : bool }.

Section Init.
(** [identity()], the configuration, and OpenSSL. *)
Variables (identity : list byte) (cfg : SECTION_MAP) (ssl : ssl_calls).

Definition init_ssl (is_server : bool) : MS bool :=
  if is_server then
    let cert := config_get identity (str "cert_file") [] cfg in
    let key := config_get identity (str "key_file") [] cfg in
    modify (fun m => ms_with_ssl (ms_ssl_server m) (ms_ssl_ctx m) cert key m);;
    if bool_decide (cert = []) || bool_decide (key = []) then mret false
    else
      modify (fun m => ms_with_ssl (ms_ssl_server m) (if sx_new ssl then Some SslServer else None) cert key m);;
      mret (sx_new ssl && sx_certificate ssl && sx_key ssl && sx_check ssl)
  else
    modify (fun m => ms_with_ssl (ms_ssl_server m) (if sx_new ssl then Some (SslClient true) else None) (ms_cert_path m) (ms_key_path m) m);;
    if sx_new ssl then mret true else fail (UB "SSL function on a null pointer").

(** [assert(e)]: without assertions [e] is not evaluated. *)
Definition assert_that (asserts : bool) (what : string) (e : MS bool) : MS unit :=
  if asserts then b ← e; if (b : bool) then mret tt else fail (AssertFail what) else mret tt.

Definition init_address (asserts : bool) : MS unit :=
  version ← lift (config_get_int s32 identity (str "version") 0 cfg);
  let address := config_get identity (str "address") [] cfg in
  port ← lift (config_get_int s32 identity (str "port") 0 cfg);
  (if version =? 4 then modify (ms_with_addr AF_INET (Some (ipv4_address_new inet_pton4 (c_string address) port)))
   else if version =? 6 then modify (ms_with_addr AF_INET6 (Some (ipv6_address_new inet_pton6 (c_string address) port)))
   else assert_that asserts "false" (mret false));;
  assert_that asserts "_addr != nullptr" (m ← get; mret (match ms_addr m with Some _ => true | None => false end)).

Definition session_manager_init (asserts : bool) : MS unit :=
  max_connections ← lift (config_get_int u64 identity (str "max_connections") 0 cfg);
  modify (ms_with_limit max_connections);;
  let socktype := config_get identity (str "socktype") [] cfg in
  (if bool_decide (socktype = str "tcp") then
     modify (ms_with_type SESSION_TYPE_TCP SOCK_STREAM);; init_address asserts
   else if bool_decide (socktype = str "udp") then modify (ms_with_type SESSION_TYPE_UDP SOCK_DGRAM)
   else mret tt);;
  rsize ← lift (config_get_int u64 identity (str "read_buffer_size") 0 cfg);
  wsize ← lift (config_get_int u64 identity (str "write_buffer_size") 0 cfg);
  keepalive ← lift (config_get_int (wrapS 16) identity (str "keepalive_timeout") 0 cfg);
  modify (fun m => ms_with_buffers rsize wsize keepalive (if keepalive >? 0 then ms_timers m ++ [1000] else ms_timers m) m);;
  if config_get_bool identity (str "ssl_enabled") false cfg then
    let ssl_server := config_get_bool identity (str "ssl_server") false cfg in
    modify (fun m => ms_with_ssl ssl_server (ms_ssl_ctx m) (ms_cert_path m) (ms_key_path m) m);;
    assert_that asserts "init_ssl(_ssl_server)" (init_ssl ssl_server)
  else mret tt.

Definition ssl_enabled (m : manager_setup) : bool := match ms_ssl_ctx m with Some _ => true | None => false end.

(** The http managers' [init]. *)
Definition http_manager_init (asserts : bool) : MS Z :=
  session_manager_init asserts;;
  modify (fun m => ms_with_type (if ssl_enabled m then SESSION_TYPE_HTTPS else SESSION_TYPE_HTTP) (ms_socktype m) m);;
  lift (config_get_int s64 identity (str "http_task_timeout") 30 cfg).
End Init.

(** The class of the event that [connect] and [listen] give to the reactor. *)
Inductive manager_event := ActiveEvent (ssl : bool) | PassiveEvent (ssl : bool).
Definition manager_connect (m : manager_setup) : manager_event := ActiveEvent (ssl_enabled m).
Definition manager_listen (m : manager_setup) : manager_event := PassiveEvent (ssl_enabled m).

(** [reconnect]: a timer of five seconds, whose function connects and ends it. *)
Definition manager_reconnect : Z * (manager_setup -> manager_event * bool) :=
  (5000, fun m => (manager_connect m, false)).

Definition set_addr (a : option (address I4 I6)) (m : manager_setup) : manager_setup := ms_with_addr (ms_family m) a m.
End Manager.

(** * What is proved of them *)

Lemma on_reactor_ok {K A} (f : M (Reactor.reactor (K := K)) A) s r a :
  f (sv_reactor s) = (r, Ok a) -> on_reactor f s = (sv_with_reactor r s, Ok a).
Proof. unfold on_reactor. by intros ->. Qed.
Lemma on_timer_reactor_ok {K A} (f : M (Reactor.reactor (K := K)) A) s r a :
  f (tm_reactor s) = (r, Ok a) -> on_timer_reactor f s = (mk_timers r (tm_wheel s), Ok a).
Proof. unfold on_timer_reactor. by intros ->. Qed.

(** ** Timers without a timer thread *)

Lemma ev_deref_ok {K} p e (r : Reactor.reactor (K := K)) : r_heap r !! p = Some e -> ev_deref p r = (r, Ok e).
Proof. unfold ev_deref. by intros ->. Qed.
Lemma ev_deref_fault {K} p (r : Reactor.reactor (K := K)) : r_heap r !! p = None -> ev_deref p r = (r, Fault (UB "deleted event")).
Proof. unfold ev_deref. by intros ->. Qed.
Lemma ev_delete_ok {K} p e (r : Reactor.reactor (K := K)) :
  r_heap r !! p = Some e -> ev_delete p r = (r_with_heap (delete p (r_heap r)) r, Ok tt).
Proof. intros Hp. unfold ev_delete. by erewrite M_bind_ok by (by apply ev_deref_ok). Qed.

(** Adding to the change list leaves everything else but the wake-up alone. *)
Lemma r_add_event_eq {K} p (r : Reactor.reactor (K := K)) :
  exists r', r_add_event p r = (r', Ok tt) /\
    r_heap r' = r_heap r /\ r_changelist r' = db_write set_insert p (r_changelist r) /\
    r_timer_events r' = r_timer_events r /\ r_use_timer_thread r' = r_use_timer_thread r.
Proof.
  unfold r_add_event, epoller_wakeup. rewrite M_modify, M_get. cbn [r_wakeup_fd r_wakeup r_with_changes].
  destruct (_ <? 0); [by eexists|]. destruct (r_wakeup r); [by eexists|]. by eexists.
Qed.

Lemma r_del_event_eq {K} p e (r : Reactor.reactor (K := K)) :
  r_heap r !! p = Some e ->
  exists r', r_del_event p r = (r', Ok tt) /\
    r_heap r' = <[p := ev_set_status EVENT_STATUS_DEL e]> (r_heap r) /\
    r_changelist r' = db_write set_insert p (r_changelist r) /\
    r_timer_events r' = r_timer_events r /\ r_use_timer_thread r' = r_use_timer_thread r.
Proof.
  intros Hp. unfold r_del_event. erewrite M_bind_ok.
  2: { unfold ev_update. erewrite M_bind_ok; [reflexivity|]. unfold ev_deref. by rewrite Hp. }
  destruct (r_add_event_eq p (r_with_heap (<[p := ev_set_status EVENT_STATUS_DEL e]> (r_heap r)) r)) as (r' & Hr & H1 & H2 & H3 & H4).
  exists r'. split; [exact Hr|]. by rewrite H1, H2, H3, H4.
Qed.

(** Without a timer thread the identifier of a timer is the address of its
    event, and deleting a timer that waits in the queue destroys it twice over:
    the round marks it, the queue deletes it, and the next round finds the
    address in its change list.  The same holds for each use of the identifier
    after the queue has deleted it. *)
Theorem del_timer_dangles {K} (epoll_ctl : epoll_op -> Z -> Z -> K -> K * Z) handler now load found
    (s : timers K) t p e w :
  let r := tm_reactor s in
  r_use_timer_thread r = false -> 0 < p -> r_heap r !! p = Some e ->
  r_timer_events r = [(t, p)] -> now < t -> r_changelist r = mk_dbuf w [] [] ->
  exists s1 r2 r3, del_timer found p s = (s1, Ok tt) /\
    handle_timer_event handler now (tm_reactor s1) = (r2, Ok []) /\ r_heap r2 !! p = None /\
    load_event epoll_ctl load r2 = (r3, Fault (UB "deleted event")) /\
    del_timer found p (mk_timers r2 (tm_wheel s)) = (mk_timers r2 (tm_wheel s), Fault (UB "deleted event")).
Proof.
  intros r Hu Hp He Ht Hnow Hc.
  destruct (r_del_event_eq p e r He) as (r1 & Hdel & Hh & Hch & Hti & Hut).
  assert (del_timer found p s = (mk_timers r1 (tm_wheel s), Ok tt)) as Hd.
  { unfold del_timer. rewrite M_get. fold r. rewrite Hu. destruct (Z.leb_spec p 0); [lia|]. by apply on_timer_reactor_ok. }
  set (r2 := r_with_heap (delete p (r_heap r1)) (r_with_timers [] r1)).
  assert (handle_timer_event handler now r1 = (r2, Ok [])) as Hq.
  { unfold handle_timer_event. rewrite M_get, Hut, Hu, Hti, Ht. cbn [length run_timers]. rewrite M_get, Hti, Ht.
    erewrite (M_bind_ok (put _)) by reflexivity. destruct (Z.leb_spec t now); [lia|].
    assert (r_heap (r_with_timers [] r1) !! p = Some (ev_set_status EVENT_STATUS_DEL e)) as Hp1
      by (cbn [r_heap r_with_timers]; rewrite Hh; apply lookup_insert_eq).
    erewrite M_bind_ok by (by apply ev_deref_ok). cbn [ev_status ev_set_status].
    rewrite bool_decide_eq_true_2 by done. erewrite M_bind_ok by (by eapply ev_delete_ok). by rewrite M_get. }
  assert (r_heap r2 !! p = None) as Hnone by (unfold r2; cbn; apply lookup_delete_eq).
  assert (exists r3, load_event epoll_ctl load r2 = (r3, Fault (UB "deleted event"))) as [r3 Hload].
  { assert (forall c, load_changes epoll_ctl load [p] (r_with_changes c r2) = (r_with_changes c r2, Fault (UB "deleted event"))) as Hl.
    { intros c. cbn [load_changes]. apply M_bind_fault, ev_deref_fault, Hnone. }
    unfold load_event. rewrite M_get. change (r_changelist r2) with (r_changelist r1). rewrite Hch, Hc.
    unfold db_write, db_get, db_set, db_flip, db_read_buf. cbn [db_writeidx db_buf0 db_buf1 set_insert].
    destruct (w =? 0) eqn:E; cbn [db_writeidx db_buf0 db_buf1]; unfold db_get; rewrite E; cbn [db_buf0 db_buf1];
      eexists; erewrite (M_bind_ok (put _)) by reflexivity; apply M_bind_fault, Hl. }
  exists (mk_timers r1 (tm_wheel s)), r2, r3. split_and!; try done.
  - unfold del_timer. rewrite M_get. cbn [tm_reactor]. change (r_use_timer_thread r2) with (r_use_timer_thread r1). rewrite Hut, Hu.
    destruct (Z.leb_spec p 0); [lia|]. unfold on_timer_reactor, r_del_event, ev_update. cbn [tm_reactor].
    erewrite M_bind_fault; [reflexivity|]. by apply M_bind_fault, ev_deref_fault.
Qed.

Definition demo_epoll : epoll_op -> Z -> Z -> unit -> unit * Z := fun _ _ _ k => (k, 0).
Definition demo_timers : timers unit :=
  mk_timers (mk_reactor {[ 7 := timer_event_new true 500 (-1) ]} (mk_dbuf 0 [] []) ∅ ∅ [(500, 7)] false tt ∅ (-1) true 0)
    (tw_init 1).

Lemma del_timer_dangles_witness :
  exists s1 r2 r3, del_timer None 7 demo_timers = (s1, Ok tt) /\
    handle_timer_event (fun _ => mret true) 100 (tm_reactor s1) = (r2, Ok []) /\ r_heap r2 !! 7 = None /\
    load_event demo_epoll 100 r2 = (r3, Fault (UB "deleted event")) /\
    del_timer None 7 (mk_timers r2 (tm_wheel demo_timers)) = (mk_timers r2 (tm_wheel demo_timers), Fault (UB "deleted event")).
Proof.
  apply (del_timer_dangles demo_epoll (fun _ => mret true) 100 100 None demo_timers 500 7 (timer_event_new true 500 (-1)) 0);
    [reflexivity|lia|reflexivity|reflexivity|lia|reflexivity].
Defined.

(** ** The first round *)

(** [init] with the configuration it needs, and the two events it leaves in the
    change list. *)
Lemma init_reactor_ok {K} cfg calls (k : K) timeout :
  config_get (str "reactor") (str "demultiplexer") [] cfg = str "epoller" ->
  let use := config_get_bool (str "reactor") (str "use_timer_thread") false cfg in
  config_get_int s32 (str "reactor") (str "timeout") 0 cfg = Ok timeout ->
  init_reactor cfg calls (reactor_new k) =
    (mk_server true (Some (ic_epoll calls)) (if use then -1 else timeout) []
       (mk_reactor (<[ic_control calls := control_event_new (ic_eventfd calls)]>
                      (<[ic_sigio calls := sigio_new (ic_pipe calls)]> ∅))
          (mk_dbuf 0 (set_insert (ic_control calls) [ic_sigio calls]) []) ∅ ∅ [] use k ∅ (-1) false 0), Ok tt).
Proof.
  intros Hd use Ht. unfold init_reactor. rewrite Hd, bool_decide_eq_true_2 by done. cbn [negb]. fold use.
  unfold config_get_int in *. rewrite M_get. cbv zeta. fold use. destruct use.
  - reflexivity.
  - rewrite Ht. reflexivity.
Qed.

(** Another dispatcher than epoll, or none in the configuration, and the pointer
    is used before anything is written to it. *)
Lemma init_needs_epoller {K} cfg calls (s : server K) :
  config_get (str "reactor") (str "demultiplexer") [] cfg <> str "epoller" ->
  init_reactor cfg calls s = (s, Fault (UB "indeterminate _dispatcher")).
Proof. intros Hd. unfold init_reactor. by rewrite bool_decide_eq_false_2. Qed.

(** The sub-reactors are made and forgotten: the member that the destructor goes
    through stays empty. *)
Lemma sub_reactors_forgotten {K} cfg main kernels (s s' : server K) subs :
  reactor_init cfg main kernels s = (s', Ok subs) -> sv_sub_reactors s' = sv_sub_reactors s.
Proof.
  unfold reactor_init. intros (s1 & ? & Hi & H)%M_bind_inv.
  apply M_bind_inv in H as (s2 & count & Hc & H). unfold lift in Hc, H. injection Hc as -> _. injection H as -> _.
  unfold init_reactor in Hi. destruct (negb _); [done|]. rewrite M_get in Hi.
  assert (forall A (f : M (Reactor.reactor (K := K)) A) u v a, on_reactor f u = (v, Ok a) -> sv_sub_reactors v = sv_sub_reactors u) as Hon.
  { intros A f u v a. unfold on_reactor. destruct (f (sv_reactor u)) as [r o]. by intros [= <- _]. }
  apply M_bind_inv in Hi as (s3 & timeout & Ht & Hi).
  assert (s3 = s) as -> by (destruct (config_get_bool _ _ _ _); [by injection Ht|unfold lift in Ht; by injection Ht]).
  apply M_bind_inv in Hi as (s4 & ? & Hp & Hi). unfold put in Hp. injection Hp as <- _.
  apply M_bind_inv in Hi as (s5 & ? & H5 & H6). apply Hon in H5, H6. by rewrite H6, H5.
Qed.

(** ** The loop *)

Section Loop.
Context {K : Type} (epoll_ctl : epoll_op -> Z -> Z -> K -> K * Z).
Context (handle_event : Z -> Z -> M (Reactor.reactor (K := K)) bool) (handler : Z -> M (Reactor.reactor (K := K)) bool).
Abbreviation run_round := (run_round epoll_ctl handle_event handler).
Abbreviation reactor_run := (reactor_run epoll_ctl handle_event handler).

Fixpoint do_rounds (rounds : list round) : M (server K) unit :=
  match rounds with [] => mret tt | rd :: rounds => run_round rd;; do_rounds rounds end.

(** A call on the reactor leaves the other members alone. *)
Lemma on_reactor_keeps {A} (f : M (Reactor.reactor (K := K)) A) s s' a :
  on_reactor f s = (s', Ok a) -> sv_stop s' = sv_stop s /\ sv_dispatcher s' = sv_dispatcher s.
Proof. unfold on_reactor. destruct (f (sv_reactor s)) as [r o]. by intros [= <- _]. Qed.

Lemma run_round_stop rd s s' : run_round rd s = (s', Ok tt) -> sv_stop s' = rd_stop rd || sv_stop s.
Proof.
  unfold Startup.run_round. intros (s1 & ? & H1 & H)%M_bind_inv. rewrite M_get in H.
  apply M_bind_inv in H as (s2 & ? & H2 & H). apply M_bind_inv in H as (s3 & ? & H3 & H).
  apply on_reactor_keeps in H1 as [H1 _], H2 as [H2 _], H3 as [H3 _].
  destruct (rd_stop rd); [|by injection H as <-; rewrite H3, H2, H1].
  unfold reactor_stop, reactor_wakeup in H. rewrite M_modify, M_get in H.
  destruct (sv_dispatcher _); [|done]. by apply on_reactor_keeps in H as [-> _].
Qed.

Lemma do_rounds_stop pre rd u v :
  Forall (fun rd => rd_stop rd = false) pre -> sv_stop u = false ->
  do_rounds (pre ++ [rd]) u = (v, Ok tt) -> sv_stop v = rd_stop rd.
Proof.
  intros Hpre. revert u. induction Hpre as [|rd' pre Hrd Hpre IH]; intros u Hu; cbn [do_rounds app];
    intros (w & [] & Hw & Hv)%M_bind_inv; apply run_round_stop in Hw; rewrite Hu, orb_false_r in Hw.
  - by injection Hv as <-.
  - apply (IH w); [by rewrite Hw|done].
Qed.

Lemma run_loop_until pre rest s s1 b :
  sv_stop s = false -> do_rounds pre s = (s1, Ok tt) -> sv_stop s1 = b ->
  Forall (fun rd => rd_stop rd = false) (removelast pre) ->
  run_loop epoll_ctl handle_event handler (pre ++ (if b then rest else [])) s = (s1, Ok b).
Proof.
  revert s. induction pre as [|rd pre IH]; intros s Hs; cbn [do_rounds app].
  - intros [= <-] <- _. rewrite Hs. cbn [run_loop app]. by rewrite M_get, Hs.
  - intros (s2 & [] & H2 & Hpre)%M_bind_inv Hb Hlast. cbn [run_loop]. rewrite M_get, Hs. erewrite M_bind_ok by exact H2.
    apply run_round_stop in H2. rewrite Hs, orb_false_r in H2.
    destruct pre as [|rd' pre].
    + injection Hpre as <-. subst b. destruct (sv_stop s2) eqn:E; cbn [app];
        [destruct rest|]; cbn [run_loop]; by rewrite M_get, E.
    + apply Forall_cons in Hlast as [Hrd Hlast]. rewrite Hrd in H2. by apply IH.
Qed.

(** The reactor runs its rounds until the first one in which it is stopped,
    whatever would come after, and without one it does not return; a [stop] from
    before [run] is forgotten. *)
Theorem run_until_stopped pre rest s s1 fd :
  sv_dispatcher s = Some fd -> do_rounds pre (sv_with_stop false s) = (s1, Ok tt) ->
  Forall (fun rd => rd_stop rd = false) (removelast pre) ->
  reactor_run (pre ++ (if sv_stop s1 then rest else [])) s = (s1, Ok (sv_stop s1)) /\
  sv_stop s1 = match last pre with Some rd => rd_stop rd | None => false end /\
  (forall b, reactor_run (pre ++ rest) (sv_with_stop b s) = reactor_run (pre ++ rest) s).
Proof.
  intros Hd Hpre Hlast. unfold Startup.reactor_run. split_and!.
  - rewrite M_get, Hd, M_modify. by eapply run_loop_until.
  - destruct pre as [|rd pre _] using rev_ind; [by injection Hpre as <-|]. rewrite last_snoc.
    rewrite removelast_last in Hlast. eapply do_rounds_stop; [exact Hlast| |exact Hpre]. done.
  - intros b. rewrite !M_get. cbn [sv_dispatcher sv_with_stop]. by rewrite Hd, !M_modify.
Qed.
End Loop.

Definition demo_server : server unit := mk_server true (Some 3) 1000 [] (tm_reactor demo_timers).
Definition demo_round (stop : bool) : round := mk_round 100 100 (fun _ => []) 100 stop.

Lemma run_until_stopped_witness :
  let rounds := [demo_round false; demo_round true] in
  let run := reactor_run demo_epoll (fun _ _ => mret true) (fun _ => mret true) in
  exists s1, do_rounds demo_epoll (fun _ _ => mret true) (fun _ => mret true) rounds (sv_with_stop false demo_server) = (s1, Ok tt) /\
    run (rounds ++ (if sv_stop s1 then [demo_round false] else [])) demo_server = (s1, Ok (sv_stop s1)) /\
    sv_stop s1 = true /\
    (forall b, run (rounds ++ [demo_round false]) (sv_with_stop b demo_server) = run (rounds ++ [demo_round false]) demo_server).
Proof.
  eexists. split; [vm_compute; reflexivity|].
  apply (run_until_stopped demo_epoll (fun _ _ => mret true) (fun _ => mret true) [demo_round false; demo_round true] [demo_round false] demo_server _ 3);
    [reflexivity|vm_compute; reflexivity|repeat constructor].
Defined.

(** ** Encryption *)

Section Encryption.
Context {I4 I6 : Type} (inet_pton4 : list byte -> option I4) (inet_pton6 : list byte -> option I6).
Abbreviation setup := (manager_setup (I4 := I4) (I6 := I6)).

(** What does not touch the context of OpenSSL. *)
Definition keeps_ssl {A} (f : M setup A) : Prop := forall m m' a, f m = (m', Ok a) -> ms_ssl_ctx m' = ms_ssl_ctx m.

Lemma keeps_ssl_bind {A B} (f : M setup A) (k : A -> M setup B) :
  keeps_ssl f -> (forall a, keeps_ssl (k a)) -> keeps_ssl (f ≫= k).
Proof. intros Hf Hk m m' b (m1 & a & H1 & H2)%M_bind_inv. by rewrite (Hk _ _ _ _ H2), (Hf _ _ _ H1). Qed.
Lemma keeps_ssl_lift {A} (o : outcome A) : keeps_ssl (lift o).
Proof. by intros m m' a [= <- _]. Qed.
Lemma keeps_ssl_ret {A} (a : A) : keeps_ssl (mret a).
Proof. by intros m m' b [= <- _]. Qed.
Lemma keeps_ssl_get : keeps_ssl get.
Proof. by intros m m' b [= <- _]. Qed.
Lemma keeps_ssl_fail {A} x : keeps_ssl (fail (A := A) x).
Proof. by intros m m' b H. Qed.
Lemma keeps_ssl_modify (f : setup -> setup) : (forall m, ms_ssl_ctx (f m) = ms_ssl_ctx m) -> keeps_ssl (modify f).
Proof. intros Hf m m' b [= <- _]. apply Hf. Qed.
#[local] Hint Resolve keeps_ssl_bind keeps_ssl_lift keeps_ssl_ret keeps_ssl_get keeps_ssl_fail keeps_ssl_modify : core.
#[local] Ltac keeps := repeat first [apply keeps_ssl_bind; [|intros ?] | progress case_bool_decide | progress case_match | by auto].

Lemma keeps_ssl_assert asserts what e : keeps_ssl e -> keeps_ssl (assert_that asserts what e).
Proof. intros He. unfold assert_that. keeps. Qed.
#[local] Hint Resolve keeps_ssl_assert : core.
Lemma keeps_ssl_address identity cfg asserts : keeps_ssl (init_address inet_pton4 inet_pton6 identity cfg asserts).
Proof. unfold init_address. keeps. Qed.
#[local] Hint Resolve keeps_ssl_address : core.

(** A context is there when [init_ssl] returns true. *)
Lemma init_ssl_enabled identity cfg ssl is_server m m' :
  init_ssl (I4 := I4) (I6 := I6) identity cfg ssl is_server m = (m', Ok true) -> ssl_enabled m' = true.
Proof.
  unfold init_ssl. destruct is_server; rewrite M_modify.
  - destruct (_ || _); [done|]. rewrite M_modify. intros [= <- H]. by destruct (sx_new ssl).
  - destruct (sx_new ssl); [|done]. by intros [= <-].
Qed.

(** When [init] returns, connections are encrypted if and only if the
    configuration says so and the program was built with assertions: the call of
    [init_ssl] is the operand of an [assert], so that a build without them listens
    and connects in the clear. *)
Theorem encryption_is_an_assertion identity cfg ssl asserts m' :
  session_manager_init inet_pton4 inet_pton6 identity cfg ssl asserts manager_new = (m', Ok tt) ->
  let encrypted := config_get_bool identity (str "ssl_enabled") false cfg && asserts in
  ssl_enabled m' = encrypted /\ manager_listen m' = PassiveEvent encrypted /\ manager_connect m' = ActiveEvent encrypted.
Proof.
  intros H encrypted. assert (ssl_enabled m' = encrypted) as He; [|by unfold manager_listen, manager_connect; rewrite He].
  unfold session_manager_init in H.
  apply M_bind_inv in H as (m1 & max & H1 & H). apply keeps_ssl_lift in H1.
  apply M_bind_inv in H as (m2 & ? & H2 & H). apply keeps_ssl_modify in H2; [|done].
  apply M_bind_inv in H as (m3 & ? & H3 & H).
  assert (ms_ssl_ctx m3 = ms_ssl_ctx m2) as H3'.
  { destruct (bool_decide _); [|destruct (bool_decide _); by injection H3 as <-].
    rewrite M_modify in H3. by apply keeps_ssl_address in H3. }
  apply M_bind_inv in H as (m4 & rsize & H4 & H). apply keeps_ssl_lift in H4.
  apply M_bind_inv in H as (m5 & wsize & H5 & H). apply keeps_ssl_lift in H5.
  apply M_bind_inv in H as (m6 & keepalive & H6 & H). apply keeps_ssl_lift in H6.
  rewrite M_modify in H. unfold encrypted. clear encrypted.
  assert (ms_ssl_ctx (ms_with_buffers rsize wsize keepalive (if keepalive >? 0 then ms_timers m6 ++ [1000] else ms_timers m6) m6) = None) as H7.
  { cbn. by rewrite H6, H5, H4, H3', H2, H1. }
  destruct (config_get_bool identity (str "ssl_enabled") false cfg).
  - rewrite M_modify in H. unfold assert_that in H. destruct asserts.
    + apply M_bind_inv in H as (m8 & b & H8 & H). destruct b; [|done]. injection H as <-. by apply init_ssl_enabled in H8.
    + injection H as <-. unfold ssl_enabled. cbn in H7 |- *. by rewrite H7.
  - injection H as <-. unfold ssl_enabled. by rewrite H7.
Qed.
End Encryption.

Definition ssl_cfg : SECTION_MAP :=
  {[ str "server" := {[ str "socktype" := str "tcp"; str "version" := str "4"; str "port" := str "443";
                        str "ssl_enabled" := str "true"; str "ssl_server" := str "true";
                        str "cert_file" := str "c.pem"; str "key_file" := str "k.pem" ]} ]}.
Definition openssl_ok : ssl_calls := mk_ssl_calls true true true true.

Lemma encryption_is_an_assertion_witness :
  exists m', session_manager_init (fun _ => Some tt) (fun _ => Some tt) (str "server") ssl_cfg openssl_ok false manager_new = (m', Ok tt) /\
    config_get_bool (str "server") (str "ssl_enabled") false ssl_cfg = true /\
    let encrypted := config_get_bool (str "server") (str "ssl_enabled") false ssl_cfg && false in
    ssl_enabled m' = encrypted /\ manager_listen m' = PassiveEvent encrypted /\ manager_connect m' = ActiveEvent encrypted.
Proof.
  eexists. split; [vm_compute; reflexivity|]. split; [vm_compute; reflexivity|].
  apply (encryption_is_an_assertion (fun _ => Some tt) (fun _ => Some tt) (str "server") ssl_cfg openssl_ok false).
  vm_compute. reflexivity.
Defined.
