(* ===== verification/Format.v ===== *)
(** Texts of values (format/stringfy.h, format.h, format.cpp, formatter.h): the
    overloads of [to_string], the stream over an [octets], and [join].
    Floating-point values are in Metrics. *)

From S2P Require Import Prelude Octets Text.

(** A value that [can_to_string]: integers and enumerations, truth values and
    characters (which [std::to_string] prints as numbers), strings of any kind,
    and what is made of them. *)
Inductive printable :=
  | PrInt (z : Z)
  | PrBool (b : bool)
  | PrChar (c : byte)
  | PrCstr (s : list byte)
  | PrStr (s : list byte)
  | PrOctets (o : octets)
  | PrPair (a b : printable)
  | PrSeq (l : list printable)
  | PrTuple (l : list printable).

(** [format_string] has a buffer of 4096 characters and its [%s] ends at the
    first null character. *)
Definition FORMAT_BUFFER : Z := 1024 * 4.
Definition format_cut (s : list byte) : list byte := take (Z.to_nat (FORMAT_BUFFER - 1)) s.
Definition pair_to_string (first second : list byte) : list byte :=
  format_cut (x3c :: c_string first ++ [x2c; x20] ++ c_string second ++ [x3e]).

(** The loop of [container_to_string] over the texts of the elements: [i] counts
    them, [sz] is the size of the container. *)
Fixpoint container_loop (i sz : Z) (texts : list (list byte)) : list byte :=
  match texts with
  | [] => []
  | t :: texts => t ++ (if i =? u64 (sz - 1) then [] else [x2c; x20]) ++ container_loop (i + 1) sz texts
  end.
Definition container_to_string (prefix : list byte) (texts : list (list byte)) : list byte :=
  prefix ++ [x7b] ++ container_loop 0 (len texts) texts ++ [x7d].

Fixpoint tuple_loop (i size : Z) (texts : list (list byte)) : list byte :=
  match texts with
  | [] => []
  | t :: texts => t ++ (if i =? size - 1 then [] else [x20]) ++ tuple_loop (i + 1) size texts
  end.
Definition tuple_to_string (texts : list (list byte)) : list byte :=
  [x7b] ++ tuple_loop 0 (len texts) texts ++ [x7d].

Definition signed_char (c : byte) : Z := if Z_of_byte c >=? 128 then Z_of_byte c - 256 else Z_of_byte c.

(** [bee::to_string]; containers without the name of their type in front. *)
Fixpoint value_to_string (v : printable) : outcome (list byte) :=
  let fix values (l : list printable) : outcome (list (list byte)) :=
    match l with
    | [] => Ok []
    | v :: l => t ← value_to_string v; ts ← values l; Ok (t :: ts)
    end in
  match v with
  | PrInt z => Ok (to_string z)
  | PrBool b => Ok (to_string (if b then 1 else 0))
  | PrChar c => Ok (to_string (signed_char c))
  | PrCstr s => Ok (c_string s)
  | PrStr s => Ok s
  | PrOctets o => octets_to_string o
  | PrPair a b => ta ← value_to_string a; tb ← value_to_string b; Ok (pair_to_string ta tb)
  | PrSeq l => ts ← values l; Ok (container_to_string [] ts)
  | PrTuple l => ts ← values l; Ok (tuple_to_string ts)
  end.
Fixpoint values_to_string (l : list printable) : outcome (list (list byte)) :=
  match l with
  | [] => Ok []
  | v :: l => t ← value_to_string v; ts ← values_to_string l; Ok (t :: ts)
  end.

(** ** The stream *)

Definition INITIAL_CAPACITY : Z := 64.
Definition ostringstream_new : outcome octets := o ← octets_default; octets_reserve o INITIAL_CAPACITY.
Definition ostringstream_of (s : list byte) : outcome octets := octets_of_bytes s.

Abbreviation OSS := (M octets).
Definition on_buf (f : octets -> outcome octets) : OSS unit := o ← get; o ← lift (f o); put o.

Definition oss_put_bool (value : bool) : OSS unit := on_buf (fun o => octets_append_cstr o (if value then str "true" else str "false")).
Definition oss_put_char (value : byte) : OSS unit := on_buf (fun o => octets_append_char o value).
Definition oss_put_cstr (value : list byte) : OSS unit :=
  let value := c_string value in on_buf (fun o => octets_append o (Some <$> value) (len value)).
Definition oss_put_str (value : list byte) : OSS unit := on_buf (fun o => octets_append o (Some <$> value) (len value)).
(** The template, for everything without an overload of its own. *)
Definition oss_put (v : printable) : OSS unit :=
  match v with
  | PrChar c => oss_put_char c
  | PrBool b => oss_put_bool b
  | PrCstr s => oss_put_cstr s
  | v => t ← lift (value_to_string v); oss_put_str t
  end.
Definition oss_endl : OSS unit := oss_put_cstr [x0a].
Definition oss_manipulate (manipulator : OSS unit) : OSS unit := manipulator.

Definition oss_size (o : octets) : Z := octets_size o.
Definition oss_empty (o : octets) : bool := octets_empty o.
Definition oss_truncate (n : Z) : OSS unit :=
  o ← get; if n <? octets_size o then put (octets_fast_resize o n) else mret tt.
Definition oss_reserve (cap : Z) : OSS unit := on_buf (fun o => octets_reserve o cap).
Definition oss_clear : OSS unit := modify octets_clear.
Definition oss_str : OSS (list byte) := o ← get; lift (octets_to_string o).
(** The content is terminated in place; the text that the pointer is read as. *)
Definition oss_c_str : OSS (list byte) :=
  o ← get;
  (if octets_empty o then oss_put_char x00
   else back ← lift (octets_back o);
        match back with
        | [Some c] => if bool_decide (c = x00) then mret tt else oss_put_char x00
        | _ => fail (UB "indeterminate value")
        end);;
  t ← oss_str; mret (c_string t).

(** [join]; the separator is a string. *)
Fixpoint join_loop (count size : Z) (sep : list byte) (args : list printable) : OSS unit :=
  match args with
  | [] => mret tt
  | v :: args =>
      t ← lift (value_to_string v); oss_put_str t;;
      oss_put_str (if count + 1 <? size then sep else []);;
      join_loop (count + 1) size sep args
  end.
Definition join (sep : list byte) (args : list printable) : OSS (list byte) :=
  oss_clear;; join_loop 0 (len args) sep args;; oss_str.

(** ** What is proved of them *)

(** The reference: texts with a separator between them. *)
Fixpoint separated (sep : list byte) (texts : list (list byte)) : list byte :=
  match texts with
  | [] => []
  | [t] => t
  | t :: texts => t ++ sep ++ separated sep texts
  end.

Lemma container_loop_separated i sz texts :
  0 <= i -> i + len texts = sz -> sz < 2 ^ 64 -> container_loop i sz texts = separated [x2c; x20] texts.
Proof.
  revert i. induction texts as [|t texts IH]; intros i Hi Hsz Hmax; [done|].
  rewrite len_cons in Hsz. pose proof (len_nonneg texts). cbn [container_loop].
  rewrite IH by lia. rewrite wrapU_small by (unfold inU; lia).
  destruct texts as [|t' texts]; cbn [separated].
  - rewrite (len_nil (A := list byte)) in Hsz. rewrite (proj2 (Z.eqb_eq _ _)) by lia. by rewrite !app_nil_r.
  - rewrite len_cons in Hsz. pose proof (len_nonneg texts). by rewrite (proj2 (Z.eqb_neq _ _)) by lia.
Qed.

Lemma container_text prefix texts :
  len texts < 2 ^ 64 -> container_to_string prefix texts = prefix ++ [x7b] ++ separated [x2c; x20] texts ++ [x7d].
Proof. intros Hmax. unfold container_to_string. by rewrite container_loop_separated. Qed.

Lemma tuple_text texts : tuple_to_string texts = [x7b] ++ separated [x20] texts ++ [x7d].
Proof.
  unfold tuple_to_string. assert (forall i n, i + len texts = n -> tuple_loop i n texts = separated [x20] texts) as H;
    [|by rewrite (H 0 (len texts)) by lia].
  induction texts as [|t texts IH]; intros i n Hn; [done|]. rewrite len_cons in Hn. cbn [tuple_loop]. rewrite (IH (i + 1) n) by lia.
  destruct texts as [|t' texts]; cbn [separated].
  - rewrite (len_nil (A := list byte)) in Hn. rewrite (proj2 (Z.eqb_eq _ _)) by lia. by rewrite !app_nil_r.
  - rewrite len_cons in Hn. pose proof (len_nonneg texts). by rewrite (proj2 (Z.eqb_neq _ _)) by lia.
Qed.

(** A pair's strings end at their first null character. *)
Lemma pair_loses_the_rest : value_to_string (PrPair (PrStr [x61; x00; x62]) (PrInt 1)) = Ok (str "<a, 1>").
Proof. reflexivity. Qed.

Lemma value_to_string_seq l : value_to_string (PrSeq l) = (ts ← values_to_string l; Ok (container_to_string [] ts)).
Proof. reflexivity. Qed.
Lemma value_to_string_tuple l : value_to_string (PrTuple l) = (ts ← values_to_string l; Ok (tuple_to_string ts)).
Proof. reflexivity. Qed.

(** *** The stream *)

Lemma on_buf_ok f o o' : f o = Ok o' -> on_buf f o = (o', Ok tt).
Proof. unfold on_buf. rewrite M_get. unfold lift, mbind, M_bind. by intros ->. Qed.

Lemma oss_put_str_repr o bs t :
  octets_repr o bs -> len bs + len t <= MAX_OCTETS ->
  exists o', oss_put_str t o = (o', Ok tt) /\ octets_repr o' (bs ++ t).
Proof.
  intros Hr Hm. destruct (append_repr o bs (Some <$> t) (len t) t [] Hr) as (o' & Ho & Hr' & _).
  - by rewrite app_nil_r.
  - done.
  - done.
  - exists o'. split; [|done]. by apply on_buf_ok.
Qed.

Lemma oss_str_repr o bs : octets_repr o bs -> oss_str o = (o, Ok bs).
Proof. intros Hr. unfold oss_str. rewrite M_get. by rewrite (to_string_repr o bs Hr). Qed.

Lemma c_string_end s : c_string (s ++ [x00]) = c_string s.
Proof. induction s as [|c s IH]; [done|]. cbn. case_bool_decide; [done|]. by rewrite IH. Qed.

Lemma oss_put_char_str o bs :
  octets_repr o bs -> len bs < MAX_OCTETS -> (oss_put_char x00;; t ← oss_str; mret (c_string t)) o = 
  ((oss_put_char x00 o).1, Ok (c_string bs)).
Proof.
  intros Hr Hm. destruct (append_char_repr o bs x00 Hr) as (o' & Ho & Hr'); [lia|].
  assert (oss_put_char x00 o = (o', Ok tt)) as Hput by (by apply on_buf_ok). rewrite (M_bind_ok _ _ _ _ _ Hput), Hput.
  rewrite (M_bind_ok _ _ _ _ _ (oss_str_repr o' _ Hr')). unfold mret, M_ret. by rewrite c_string_end.
Qed.

Lemma M_bind_same {S A B} (c c' : M S A) (k : A -> M S B) s : c s = c' s -> (c ≫= k) s = (c' ≫= k) s.
Proof. unfold mbind, M_bind. by intros ->. Qed.

Lemma oss_c_str_repr o bs : octets_repr o bs -> len bs < MAX_OCTETS -> (oss_c_str o).2 = Ok (c_string bs).
Proof.
  intros Hr Hm. unfold oss_c_str. rewrite M_get. pose proof (repr_len o bs Hr) as Hlen. unfold octets_empty. rewrite Hlen.
  destruct (Z.eqb_spec (len bs) 0) as [E|E]; [by rewrite oss_put_char_str with (bs := bs)|].
  destruct bs as [|c0 bs _] using rev_ind; [done|].
  assert (octets_back o = Ok [Some c0]) as Hb.
  { unfold octets_back. destruct (repr_split o _ Hr) as (tl & Hb & _). rewrite Hlen, Hb.
    rewrite len_app, len_cons, (len_nil (A := byte)). pose proof (len_nonneg bs). pose proof (len_nonneg tl).
    rewrite mem_read_ok by (rewrite ?len_app, ?len_fmap, ?len_app, ?len_cons, ?(len_nil (A := byte)); lia).
    unfold slice. rewrite fmap_app, <- app_assoc. cbn [app fmap list_fmap].
    rewrite drop_app_ge by (rewrite length_fmap; unfold len in *; lia). rewrite length_fmap.
    replace (Z.to_nat _ - length bs)%nat with 0%nat by (unfold len in *; lia). done. }
  assert (forall k : list cell -> OSS unit, (lift (octets_back o) ≫= k) o = k [Some c0] o) as Hback
    by (intros k; unfold lift; cbn [mbind M_bind]; by rewrite Hb).
  destruct (decide (c0 = x00)) as [->|Hc].
  - erewrite (M_bind_ok _ _ o o tt); [|by rewrite Hback].
    by rewrite (M_bind_ok _ _ _ _ _ (oss_str_repr o _ Hr)).
  - transitivity ((oss_put_char x00;; t ← oss_str; mret (c_string t)) o).2; [|by rewrite (oss_put_char_str o _ Hr Hm)].
    f_equal. apply M_bind_same. by rewrite Hback, bool_decide_eq_false_2.
Qed.

(** What a value adds to the stream: characters and truth values as they read. *)
Definition stream_text (v : printable) : outcome (list byte) :=
  match v with
  | PrChar c => Ok [c]
  | PrBool b => Ok (if b then str "true" else str "false")
  | v => value_to_string v
  end.

Lemma oss_put_repr o bs v t :
  octets_repr o bs -> stream_text v = Ok t -> len bs + len t <= MAX_OCTETS ->
  exists o', oss_put v o = (o', Ok tt) /\ octets_repr o' (bs ++ t).
Proof.
  intros Hr Ht Hm. assert (forall t', value_to_string v = Ok t' -> t' = t -> exists o',
    (t ← lift (value_to_string v); oss_put_str t) o = (o', Ok tt) /\ octets_repr o' (bs ++ t)) as Hgen.
  { intros t' Hv ->. destruct (oss_put_str_repr o bs t Hr Hm) as (o' & Ho & Hr'). exists o'. split; [|done].
    rewrite Hv. exact Ho. }
  destruct v; cbn [stream_text] in Ht; try (by eapply Hgen).
  - destruct b; simplify_eq; exact (oss_put_str_repr o bs _ Hr Hm).
  - simplify_eq. destruct (append_char_repr o bs c Hr) as (o' & Ho & Hr').
    + by rewrite len_cons, (len_nil (A := byte)) in Hm.
    + exists o'. split; [|done]. by apply on_buf_ok.
Qed.

Fixpoint oss_put_all (vs : list printable) : OSS unit :=
  match vs with [] => mret tt | v :: vs => oss_put v;; oss_put_all vs end.
Fixpoint stream_texts (vs : list printable) : outcome (list byte) :=
  match vs with [] => Ok [] | v :: vs => t ← stream_text v; ts ← stream_texts vs; Ok (t ++ ts) end.

(** A stream holds the texts of what was put into it, one after the other,
    and gives them back as a string; the pointer of [c_str] reads the same up to
    the first null character. *)
Theorem stream_collects o bs vs t :
  octets_repr o bs -> stream_texts vs = Ok t -> len bs + len t < MAX_OCTETS ->
  exists o', oss_put_all vs o = (o', Ok tt) /\ octets_repr o' (bs ++ t) /\
    oss_str o' = (o', Ok (bs ++ t)) /\ (oss_c_str o').2 = Ok (c_string (bs ++ t)).
Proof.
  revert o bs t. induction vs as [|v vs IH]; intros o bs t Hr Ht Hm; cbn [oss_put_all stream_texts] in *.
  - simplify_eq. rewrite app_nil_r. exists o. split_and!; [done|done|by apply oss_str_repr|].
    rewrite (len_nil (A := byte)) in Hm. apply oss_c_str_repr; [done|lia].
  - apply outcome_bind_Ok in Ht as (tv & Hv & Ht). apply outcome_bind_Ok in Ht as (ts & Hts & [= <-]).
    rewrite len_app in Hm. pose proof (len_nonneg ts).
    destruct (oss_put_repr o bs v tv Hr Hv) as (o1 & Ho1 & Hr1); [lia|].
    destruct (IH o1 (bs ++ tv) ts Hr1 Hts) as (o' & Ho' & Hr' & Hs & Hc); [rewrite len_app; lia|].
    rewrite <- app_assoc in Hr', Hs, Hc. exists o'. split_and!; [|done..]. by rewrite (M_bind_ok _ _ _ _ _ Ho1).
Qed.

Lemma ostringstream_new_repr : exists o, ostringstream_new = Ok o /\ octets_repr o [].
Proof.
  unfold ostringstream_new. destruct default_repr as (o & -> & Hr). cbn [mbind outcome_bind].
  destruct (reserve_repr o [] INITIAL_CAPACITY Hr) as (o' & Ho' & Hr' & _); [unfold MAX_OCTETS, INITIAL_CAPACITY; lia|].
  by exists o'.
Qed.

Lemma stream_collects_witness :
  exists o o', ostringstream_new = Ok o /\
    oss_put_all [PrStr (str "n="); PrInt 12; PrBool true; PrSeq [PrInt 1; PrInt 2]] o = (o', Ok tt) /\
    octets_repr o' ([] ++ str "n=12true{1, 2}") /\
    oss_str o' = (o', Ok ([] ++ str "n=12true{1, 2}")) /\ (oss_c_str o').2 = Ok (c_string ([] ++ str "n=12true{1, 2}")).
Proof.
  destruct ostringstream_new_repr as (o & Ho & Hr).
  destruct (stream_collects o [] [PrStr (str "n="); PrInt 12; PrBool true; PrSeq [PrInt 1; PrInt 2]] (str "n=12true{1, 2}") Hr)
    as (o' & H); [vm_compute; reflexivity|vm_compute; done|].
  exists o, o'. split; [exact Ho|exact H].
Defined.

(** [truncate] calls [fast_resize], which adds to the length: a stream that is too
    long grows by the length that it should be cut to, over what follows its
    content. *)
Lemma truncate_grows o n bs :
  octets_repr o bs -> 0 <= n < len bs -> len bs <= 2 ^ 62 ->
  exists o', oss_truncate n o = (o', Ok tt) /\ oss_size o' = len bs + n.
Proof.
  intros Hr Hn Hm. unfold oss_truncate. rewrite M_get. unfold octets_size. rewrite (repr_len o bs Hr).
  destruct (Z.ltb_spec n (len bs)); [|lia]. eexists. split; [reflexivity|].
  unfold oss_size, octets_size, octets_fast_resize. cbn [o_len]. rewrite (repr_len o bs Hr).
  apply wrapU_small. unfold inU. change (2 ^ 62) with 4611686018427387904 in Hm. change (2 ^ 64) with 18446744073709551616. lia.
Qed.

(** [c_str] leaves its terminator in the content: what is put in later comes
    behind it, and a second [c_str] reads only what was there at the first. *)
Lemma c_str_stays_in_content :
  exists o, ostringstream_new = Ok o /\
    ((oss_put_cstr (str "a");; oss_c_str;; oss_put_cstr (str "b");; oss_str) o).2 = Ok [x61; x00; x62] /\
    ((oss_put_cstr (str "a");; oss_c_str;; oss_put_cstr (str "b");; oss_c_str) o).2 = Ok (str "a").
Proof. eexists. split; [vm_compute; reflexivity|]. split; vm_compute; reflexivity. Qed.

(** *** Joining *)

Lemma join_loop_ok sep args count size o bs ts :
  octets_repr o bs -> values_to_string args = Ok ts -> size = count + len args ->
  len bs + len (separated sep ts) <= MAX_OCTETS ->
  exists o', join_loop count size sep args o = (o', Ok tt) /\ octets_repr o' (bs ++ separated sep ts).
Proof.
  revert count o bs ts. induction args as [|v args IH]; intros count o bs ts Hr Ht Hs Hm; cbn [join_loop values_to_string] in *.
  - simplify_eq. exists o. cbn [separated]. by rewrite app_nil_r.
  - apply outcome_bind_Ok in Ht as (t & Hv & Ht). apply outcome_bind_Ok in Ht as (ts' & Hts & [= <-]).
    rewrite len_cons in Hs. rewrite Hv.
    assert (len args = len ts') as Hlen.
    { clear -Hts. revert ts' Hts. induction args as [|v args IH]; intros ts'; cbn [values_to_string]; [by intros [= <-]|].
      intros (t & _ & (ts & Hts & [= <-])%outcome_bind_Ok)%outcome_bind_Ok. rewrite !len_cons. by rewrite (IH ts). }
    assert (separated sep (t :: ts') = t ++ (if count + 1 <? size then sep else []) ++ separated sep ts') as Hsep.
    { destruct ts' as [|t' ts']; cbn [separated].
      - rewrite (len_nil (A := list byte)) in Hlen. destruct (Z.ltb_spec (count + 1) size); [lia|]. by rewrite !app_nil_r.
      - rewrite len_cons in Hlen. pose proof (len_nonneg ts'). destruct (Z.ltb_spec (count + 1) size); [done|lia]. }
    rewrite Hsep in Hm |- *. rewrite !len_app in Hm. pose proof (len_nonneg (separated sep ts')).
    set (gap := if count + 1 <? size then sep else []) in *. pose proof (len_nonneg gap).
    destruct (oss_put_str_repr o bs t Hr) as (o1 & Ho1 & Hr1); [lia|].
    destruct (oss_put_str_repr o1 _ gap Hr1) as (o2 & Ho2 & Hr2); [rewrite len_app; lia|].
    destruct (IH (count + 1) o2 _ ts' Hr2 Hts) as (o' & Ho' & Hr'); [lia|rewrite !len_app; lia|].
    exists o'. rewrite !app_assoc. split; [|by rewrite <- !app_assoc in *].
    erewrite (M_bind_ok (lift _)) by reflexivity. rewrite (M_bind_ok _ _ _ _ _ Ho1), (M_bind_ok _ _ _ _ _ Ho2). exact Ho'.
Qed.

(** [join] puts the separator between the texts. *)
Lemma join_separates sep args o ts :
  octets_wf o -> values_to_string args = Ok ts -> len (separated sep ts) <= MAX_OCTETS ->
  (join sep args o).2 = Ok (separated sep ts).
Proof.
  intros Hw Ht Hm. unfold join, oss_clear. rewrite M_modify.
  assert (octets_repr (octets_clear o) []) as Hr.
  { destruct Hw as [Hc Hl Hmax]. split; [split; cbn; try done; lia|]. done. }
  destruct (join_loop_ok sep args 0 (len args) _ [] ts Hr Ht) as (o' & Ho' & Hr'); [lia|done|].
  rewrite (M_bind_ok _ _ _ _ _ Ho'). by rewrite (oss_str_repr o' _ Hr').
Qed.
