(* ===== verification/LogEvent.v ===== *)
(** Events of the log on the wire (log/log_event.h, log_event.cpp,
    influxlog_event.h, influxlog_event.cpp): a log event is written with a code
    that says which of its fields follow; a measurement is written whole. *)

From stdpp Require Import gmap.
From S2P Require Import Prelude Octets Varint Marshal Text LogFormat Format.

(** ** The log event and its code *)

Definition FIELDS_PROCESS_NAME : Z := Z.shiftl 1 0.
Definition FIELDS_FILENAME : Z := Z.shiftl 1 1.
Definition FIELDS_LINE : Z := Z.shiftl 1 2.
Definition FIELDS_TIMESTAMP : Z := Z.shiftl 1 3.
Definition FIELDS_THREADID : Z := Z.shiftl 1 4.
Definition FIELDS_FIBERID : Z := Z.shiftl 1 5.
Definition FIELDS_ELAPSE : Z := Z.shiftl 1 6.
Definition FIELDS_CONTENT : Z := Z.shiftl 1 7.
Definition ALLFIELDS : Z := Z.shiftl 1 8 - 1.

(** [code] is a [short] beside the fields of LogFormat. *)
Record coded_event := mk_coded { ce_code : Z; ce_event : log_event }.

Definition log_event_default : coded_event := mk_coded 0 (mk_log_event [] [] 0 0 0 0 [] []).

(** The setters mark their field; [wrapS 16] is the conversion to [short]. *)
Definition mark (field : Z) (e : coded_event) : coded_event := mk_coded (wrapS 16 (Z.lor (ce_code e) field)) (ce_event e).
Definition set_process_name (v : list byte) (e : coded_event) : coded_event :=
  let e := mark FIELDS_PROCESS_NAME e in let f := ce_event e in
  mk_coded (ce_code e) (mk_log_event v (le_filename f) (le_line f) (le_timestamp f) (le_threadid f) (le_fiberid f) (le_elapse f) (le_content f)).
Definition set_filename (v : list byte) (e : coded_event) : coded_event :=
  let e := mark FIELDS_FILENAME e in let f := ce_event e in
  mk_coded (ce_code e) (mk_log_event (le_process_name f) v (le_line f) (le_timestamp f) (le_threadid f) (le_fiberid f) (le_elapse f) (le_content f)).
Definition set_line (v : Z) (e : coded_event) : coded_event :=
  let e := mark FIELDS_LINE e in let f := ce_event e in
  mk_coded (ce_code e) (mk_log_event (le_process_name f) (le_filename f) (u16 v) (le_timestamp f) (le_threadid f) (le_fiberid f) (le_elapse f) (le_content f)).
Definition set_event_timestamp (v : Z) (e : coded_event) : coded_event :=
  let e := mark FIELDS_TIMESTAMP e in let f := ce_event e in
  mk_coded (ce_code e) (mk_log_event (le_process_name f) (le_filename f) (le_line f) (u64 v) (le_threadid f) (le_fiberid f) (le_elapse f) (le_content f)).
Definition set_threadid (v : Z) (e : coded_event) : coded_event :=
  let e := mark FIELDS_THREADID e in let f := ce_event e in
  mk_coded (ce_code e) (mk_log_event (le_process_name f) (le_filename f) (le_line f) (le_timestamp f) (u32 v) (le_fiberid f) (le_elapse f) (le_content f)).
Definition set_fiberid (v : Z) (e : coded_event) : coded_event :=
  let e := mark FIELDS_FIBERID e in let f := ce_event e in
  mk_coded (ce_code e) (mk_log_event (le_process_name f) (le_filename f) (le_line f) (le_timestamp f) (le_threadid f) (u32 v) (le_elapse f) (le_content f)).
Definition set_elapse (v : list byte) (e : coded_event) : coded_event :=
  let e := mark FIELDS_ELAPSE e in let f := ce_event e in
  mk_coded (ce_code e) (mk_log_event (le_process_name f) (le_filename f) (le_line f) (le_timestamp f) (le_threadid f) (le_fiberid f) v (le_content f)).
Definition set_content (v : list byte) (e : coded_event) : coded_event :=
  let e := mark FIELDS_CONTENT e in let f := ce_event e in
  mk_coded (ce_code e) (mk_log_event (le_process_name f) (le_filename f) (le_line f) (le_timestamp f) (le_threadid f) (le_fiberid f) (le_elapse f) v).
Definition set_all_fields (e : coded_event) : coded_event := mk_coded ALLFIELDS (ce_event e).

Definition clean_default (e : coded_event) : coded_event :=
  let f := ce_event e in
  let clean (b : bool) field code := if b then wrapS 16 (Z.ldiff code field) else code in
  let code := clean (bool_decide (le_process_name f = [])) FIELDS_PROCESS_NAME (ce_code e) in
  let code := clean (bool_decide (le_filename f = [])) FIELDS_FILENAME code in
  let code := clean (le_line f =? 0) FIELDS_LINE code in
  let code := clean (le_timestamp f =? 0) FIELDS_TIMESTAMP code in
  let code := clean (le_threadid f =? 0) FIELDS_THREADID code in
  let code := clean (le_fiberid f =? 0) FIELDS_FIBERID code in
  let code := clean (bool_decide (le_elapse f = [])) FIELDS_ELAPSE code in
  let code := clean (bool_decide (le_content f = [])) FIELDS_CONTENT code in
  mk_coded code f.

(** ** Writing and reading *)

Definition coded (code field : Z) : bool := negb (Z.land code field =? 0).

Definition push_if {A} `{!Marshal A} (b : bool) (a : A) : OS unit := if b then push a else mret tt.
Definition pop_if {A} `{!Marshal A} (b : bool) (a : A) : OS A := if b then pop a else mret a.

Definition log_event_pack (e : coded_event) : OS unit :=
  let code := ce_code e in let f := ce_event e in
  push (code : cint I16);;
  push_if (coded code FIELDS_PROCESS_NAME) (le_process_name f : cpp_string);;
  push_if (coded code FIELDS_FILENAME) (le_filename f : cpp_string);;
  push_if (coded code FIELDS_LINE) (le_line f : cint U16);;
  push_if (coded code FIELDS_TIMESTAMP) (le_timestamp f : cint U64);;
  push_if (coded code FIELDS_THREADID) (le_threadid f : cint U32);;
  push_if (coded code FIELDS_FIBERID) (le_fiberid f : cint U32);;
  push_if (coded code FIELDS_ELAPSE) (le_elapse f : cpp_string);;
  push_if (coded code FIELDS_CONTENT) (le_content f : cpp_string).

(** The fields that do not follow keep the value they have. *)
Definition log_event_unpack (e : coded_event) : OS coded_event :=
  let f := ce_event e in
  code ← pop (ce_code e : cint I16);
  process_name ← pop_if (coded code FIELDS_PROCESS_NAME) (le_process_name f : cpp_string);
  filename ← pop_if (coded code FIELDS_FILENAME) (le_filename f : cpp_string);
  line ← pop_if (coded code FIELDS_LINE) (le_line f : cint U16);
  timestamp ← pop_if (coded code FIELDS_TIMESTAMP) (le_timestamp f : cint U64);
  threadid ← pop_if (coded code FIELDS_THREADID) (le_threadid f : cint U32);
  fiberid ← pop_if (coded code FIELDS_FIBERID) (le_fiberid f : cint U32);
  elapse ← pop_if (coded code FIELDS_ELAPSE) (le_elapse f : cpp_string);
  content ← pop_if (coded code FIELDS_CONTENT) (le_content f : cpp_string);
  mret (mk_coded code (mk_log_event process_name filename line timestamp threadid fiberid elapse content)).

(** The names of the fields and their values, one after the other. *)
Definition log_event_dump (e : coded_event) : M octets unit :=
  let f := ce_event e in
  let field name v := oss_put_cstr (str name);; oss_put v in
  field "code: "%string (PrInt (ce_code e));;
  field "process_name: "%string (PrStr (le_process_name f));;
  field "filename: "%string (PrStr (le_filename f));;
  field "line: "%string (PrInt (le_line f));;
  field "timestamp: "%string (PrInt (le_timestamp f));;
  field "threadid: "%string (PrInt (le_threadid f));;
  field "fiberid: "%string (PrInt (le_fiberid f));;
  field "elapse: "%string (PrStr (le_elapse f));;
  field "content: "%string (PrStr (le_content f)).

(** ** The measurement *)

Record influxlog_event := mk_influx {
  il_measurement : list byte;
  il_tags : gmap cpp_string cpp_string;
  il_fields : gmap cpp_string cpp_string;
  il_timestamp : Z;
}.

Section Influx.
Context `{!MapOrder cpp_string cpp_string}.

Definition influxlog_event_pack (e : influxlog_event) : OS unit :=
  push (il_measurement e : cpp_string);; push_map (il_tags e);; push_map (il_fields e);; push (il_timestamp e : cint I64).
Definition influxlog_event_unpack (e : influxlog_event) : OS influxlog_event :=
  measurement ← pop (il_measurement e : cpp_string);
  tags ← pop_map (il_tags e);
  fields ← pop_map (il_fields e);
  timestamp ← pop (il_timestamp e : cint I64);
  mret (mk_influx measurement tags fields timestamp).
End Influx.

(** ** What is proved of them *)

(** What a receiver has: the fields that were sent over those it had. *)
Definition pick {A} (b : bool) (x y : A) : A := if b then x else y.
Definition merge_events (e e0 : coded_event) : coded_event :=
  let c := ce_code e in let f := ce_event e in let f0 := ce_event e0 in
  mk_coded c (mk_log_event
    (pick (coded c FIELDS_PROCESS_NAME) (le_process_name f) (le_process_name f0))
    (pick (coded c FIELDS_FILENAME) (le_filename f) (le_filename f0))
    (pick (coded c FIELDS_LINE) (le_line f) (le_line f0))
    (pick (coded c FIELDS_TIMESTAMP) (le_timestamp f) (le_timestamp f0))
    (pick (coded c FIELDS_THREADID) (le_threadid f) (le_threadid f0))
    (pick (coded c FIELDS_FIBERID) (le_fiberid f) (le_fiberid f0))
    (pick (coded c FIELDS_ELAPSE) (le_elapse f) (le_elapse f0))
    (pick (coded c FIELDS_CONTENT) (le_content f) (le_content f0))).

Definition if_bytes {A} `{MarshalOk A} (b : bool) (a : A) : list byte := if b then m_bytes a else [].

Definition log_event_bytes (e : coded_event) : list byte :=
  let c := ce_code e in let f := ce_event e in
  m_bytes (c : cint I16) ++
  if_bytes (coded c FIELDS_PROCESS_NAME) (le_process_name f : cpp_string) ++
  if_bytes (coded c FIELDS_FILENAME) (le_filename f : cpp_string) ++
  if_bytes (coded c FIELDS_LINE) (le_line f : cint U16) ++
  if_bytes (coded c FIELDS_TIMESTAMP) (le_timestamp f : cint U64) ++
  if_bytes (coded c FIELDS_THREADID) (le_threadid f : cint U32) ++
  if_bytes (coded c FIELDS_FIBERID) (le_fiberid f : cint U32) ++
  if_bytes (coded c FIELDS_ELAPSE) (le_elapse f : cpp_string) ++
  if_bytes (coded c FIELDS_CONTENT) (le_content f : cpp_string).

(** Integers in the range of their types and strings that can be. *)
Record log_event_wf (e : coded_event) : Prop := {
  lw_code : m_wf (ce_code e : cint I16);
  lw_process_name : m_wf (le_process_name (ce_event e) : cpp_string);
  lw_filename : m_wf (le_filename (ce_event e) : cpp_string);
  lw_line : m_wf (le_line (ce_event e) : cint U16);
  lw_timestamp : m_wf (le_timestamp (ce_event e) : cint U64);
  lw_threadid : m_wf (le_threadid (ce_event e) : cint U32);
  lw_fiberid : m_wf (le_fiberid (ce_event e) : cint U32);
  lw_elapse : m_wf (le_elapse (ce_event e) : cpp_string);
  lw_content : m_wf (le_content (ce_event e) : cpp_string);
}.

Lemma push_if_pushes {A} `{MarshalOk A} b (a : A) : m_wf a -> pushes (push_if b a) (if_bytes b a).
Proof. intros Ha. destruct b; [by apply m_push|by apply pushes_nil]. Qed.

(** For types whose [pop] replaces what was there. *)
Lemma pop_if_pops {A} `{MarshalOk A} `{!LeibnizEquiv A} b (a a0 : A) :
  pop a0 = pop fresh -> m_wf a -> pops (pop_if b a0) (if_bytes b a) (eq (pick b a a0)).
Proof.
  intros Hpop Ha. destruct b; cbn; [|by apply pops_ret]. rewrite Hpop.
  eapply pops_weaken; [by apply m_pop|]. intros r Hr. symmetry. by apply leibniz_equiv.
Qed.
Lemma pop_cint_pops t (v v0 : cint t) : m_wf v -> pops (pop v0) (m_bytes v) (eq v).
Proof. intros Hv. exact (pop_int_pops t v Hv). Qed.

Lemma log_event_pushes e : log_event_wf e -> pushes (log_event_pack e) (log_event_bytes e).
Proof.
  intros [? ? ? ? ? ? ? ? ?]. unfold log_event_pack, log_event_bytes.
  repeat (eapply pushes_bind; [| |reflexivity]; [first [by apply push_if_pushes|by apply m_push]|]).
  by apply push_if_pushes.
Qed.

Lemma log_event_pops e e0 : log_event_wf e -> pops (log_event_unpack e0) (log_event_bytes e) (eq (merge_events e e0)).
Proof.
  intros [? ? ? ? ? ? ? ? ?]. unfold log_event_unpack, log_event_bytes.
  eapply pops_bind; [| |reflexivity]; [by apply pop_cint_pops|]. intros ? <-.
  do 7 (eapply pops_bind; [| |reflexivity]; [by apply pop_if_pops|]; intros ? <-).
  eapply pops_bind; [| |symmetry; apply app_nil_r]; [by apply pop_if_pops|]. intros ? <-. by apply pops_ret.
Qed.

(** No input makes the reading of an event undefined. *)
Lemma safe_pop_if {A} `{MarshalOk A} b (a0 : A) : pop a0 = pop fresh -> safe (pop_if b a0).
Proof. intros Hp. destruct b; cbn; [rewrite Hp; apply m_safe|apply safe_ret]. Qed.
Lemma log_event_safe e0 : safe (log_event_unpack e0).
Proof.
  unfold log_event_unpack. apply safe_bind; [apply (pop_int_safe I16)|intros code].
  repeat (apply safe_bind; [by apply safe_pop_if|intros ?]). apply safe_ret.
Qed.

(** An event that is written and read into another one replaces there the
    fields that its code names and no others, from any position of the stream
    and consuming what was written. *)
Theorem log_event_roundtrip e e0 s bs :
  log_event_wf e -> os_repr s bs -> len bs + len (log_event_bytes e) <= MAX_OCTETS ->
  exists s1 s2, log_event_pack e s = (s1, Ok tt) /\ os_repr s1 (bs ++ log_event_bytes e) /\
    log_event_unpack e0 (os_with_pos (len bs) s1) = (s2, Ok (merge_events e e0)) /\ os_pos s2 = os_size s2.
Proof.
  intros He Hr Hm. destruct (pushes_repr _ _ _ _ (log_event_pushes e He) Hr Hm) as (s1 & E1 & Hr1 & Hp1 & _).
  pose proof (len_nonneg bs). pose proof (len_nonneg (log_event_bytes e)).
  destruct (log_event_pops e e0 He (os_with_pos (len bs) s1) bs []) as (e' & E2 & <-).
  { rewrite app_nil_r. apply os_repr_with_pos; [done|]. rewrite len_app. lia. }
  { done. }
  exists s1. eexists. split_and!; [exact E1|exact Hr1|exact E2|].
  change (len bs + len (log_event_bytes e) = os_size s1). by rewrite (os_size_repr _ _ Hr1), len_app.
Qed.

Definition demo_coded : coded_event := set_content (str "started") (set_line 42 log_event_default).

Lemma log_event_roundtrip_witness :
  exists s1 s2, log_event_pack demo_coded os_null = (s1, Ok tt) /\ os_repr s1 ([] ++ log_event_bytes demo_coded) /\
    log_event_unpack log_event_default (os_with_pos (len (A := byte) []) s1) = (s2, Ok (merge_events demo_coded log_event_default)) /\
    os_pos s2 = os_size s2 /\ merge_events demo_coded log_event_default = demo_coded.
Proof.
  destruct (log_event_roundtrip demo_coded log_event_default os_null []) as (s1 & s2 & H1 & H2 & H3 & H4).
  - split; vm_compute; done.
  - apply os_null_repr.
  - vm_compute. done.
  - exists s1, s2. by split_and!.
Defined.

(** With every field marked nothing of the receiver's event is left; and cleaning
    the code of the fields that have their default loses nothing on the way to a
    fresh event. *)
Lemma all_fields_replace e e0 : merge_events (set_all_fields e) e0 = set_all_fields e.
Proof. by destruct e as [c []]. Qed.
Lemma clean_default_loses_nothing e :
  ce_event (merge_events (clean_default (set_all_fields e)) log_event_default) = ce_event e.
Proof.
  destruct e as [c [pn fn ln ts ti fi el ct]]. unfold clean_default. cbn [ce_event ce_code set_all_fields
    le_process_name le_filename le_line le_timestamp le_threadid le_fiberid le_elapse le_content].
  assert (forall s : list byte, exists b, bool_decide (s = []) = b /\ (b = true -> s = [])) as Hs.
  { intros s. eexists. split; [reflexivity|]. by intros ?%bool_decide_eq_true. }
  assert (forall z : Z, exists b, (z =? 0) = b /\ (b = true -> z = 0)) as Hz.
  { intros z. eexists. split; [reflexivity|]. apply Z.eqb_eq. }
  destruct (Hs pn) as (b1 & -> & H1), (Hs fn) as (b2 & -> & H2), (Hz ln) as (b3 & -> & H3), (Hz ts) as (b4 & -> & H4),
    (Hz ti) as (b5 & -> & H5), (Hz fi) as (b6 & -> & H6), (Hs el) as (b7 & -> & H7), (Hs ct) as (b8 & -> & H8).
  destruct b1, b2, b3, b4, b5, b6, b7, b8;
    repeat match goal with H : true = true -> _ = _ |- _ => specialize (H eq_refl); subst end; reflexivity.
Qed.

(** A measurement reads back into a fresh one; into one that has tags or fields
    it is added to what is there. *)
Section InfluxLaws.
Context `{!MapOrder cpp_string cpp_string}.

Record influx_wf (e : influxlog_event) : Prop := {
  iw_measurement : m_wf (il_measurement e : cpp_string);
  iw_tags : map_wf (il_tags e);
  iw_fields : map_wf (il_fields e);
  iw_timestamp : m_wf (il_timestamp e : cint I64);
}.
Definition influx_bytes (e : influxlog_event) : list byte :=
  m_bytes (il_measurement e : cpp_string) ++ map_bytes (il_tags e) ++ map_bytes (il_fields e) ++ m_bytes (il_timestamp e : cint I64).

Lemma influx_pushes e : influx_wf e -> pushes (influxlog_event_pack e) (influx_bytes e).
Proof.
  intros [? ? ? ?]. unfold influxlog_event_pack, influx_bytes.
  eapply pushes_bind; [| |reflexivity]; [by apply (m_push (A := cpp_string))|].
  do 2 (eapply pushes_bind; [| |reflexivity]; [by apply push_map_pushes|]).
  by apply (m_push (A := cint I64)).
Qed.
Lemma influx_pops e m0 t0 :
  influx_wf e -> pops (influxlog_event_unpack (mk_influx m0 ∅ ∅ t0)) (influx_bytes e) (eq e).
Proof.
  intros [? ? ? ?]. unfold influxlog_event_unpack, influx_bytes.
  eapply pops_bind; [| |reflexivity].
  { eapply (pops_weaken _ _ (eq (il_measurement e))); [by apply (pop_pods_pops (il_measurement e))|]. intros a Ha. exact Ha. }
  intros ? <-. do 2 (eapply pops_bind; [| |reflexivity]; [by apply pop_map_pops|]; intros ? <-).
  eapply pops_bind; [| |symmetry; apply app_nil_r]; [by apply pop_cint_pops|]. intros ? <-. apply pops_ret. by destruct e.
Qed.
End InfluxLaws.
