(* ===== verification/RemoteLog.v ===== *)
(** Logging from the caller to the log server (log/glog.h, log/glog.cpp,
    source/logclient/, source/logserver/): the stream of a log line, the client
    that decides where an event goes, the manager of the connection, and the
    server's manager of loggers.  The messages remotelog and remoteinfluxlog are
    generated: what is modelled is which of them is made, and with what. *)

From stdpp Require Import gmap.
From S2P Require Import Prelude Octets Marshal Text Config LogFormat Format LogEvent.

Definition LOG_BUFFER_SIZE : Z := 2048.

(** ** A line ([logclient::impl])

    All lines of a thread share one stream. *)

Definition impl_put (v : printable) : M octets unit :=
  o ← get; if oss_size o <? LOG_BUFFER_SIZE then oss_put v else mret tt.

(** The destructor: what is logged, if anything. *)
Definition impl_dtor : M octets (option (list byte)) :=
  o ← get;
  if oss_empty o then mret None
  else oss_truncate LOG_BUFFER_SIZE;; content ← oss_str; oss_clear;; mret (Some content).

(** The line of a statement [log << v1 << v2 ...]. *)
Fixpoint impl_puts (vs : list printable) : M octets unit :=
  match vs with [] => mret tt | v :: vs => impl_put v;; impl_puts vs end.
Definition log_line (vs : list printable) : M octets (option (list byte)) := impl_puts vs;; impl_dtor.

(** The [printf] form: the formatted text in a buffer, as a string. *)
Definition impl_format (formatted : list byte) : list byte := take (Z.to_nat (LOG_BUFFER_SIZE - 1)) (c_string formatted).

(** ** The client *)

(** [_localsid] of the connection to the log server. *)
Record logserver_manager := mk_lsm { lsm_localsid : Z; lsm_reconnects : Z }.
Definition lsm_on_add_session (sid : Z) (m : logserver_manager) : logserver_manager := mk_lsm sid (lsm_reconnects m).
(** [on_del_session] calls [reconnect]. *)
Definition lsm_on_del_session (sid : Z) (m : logserver_manager) : logserver_manager := mk_lsm 0 (lsm_reconnects m + 1).
Definition lsm_is_connect (m : logserver_manager) : bool := lsm_localsid m >? 0.
(** [send]: the session that the message is given to, if any. *)
Definition lsm_send (m : logserver_manager) : option Z := if lsm_localsid m >? 0 then Some (lsm_localsid m) else None.

Record logclient := mk_logclient {
  lc_is_logserver : bool;
  lc_loglevel : Z;
  lc_process_name : list byte;
  lc_logserver : option logserver_manager;
  lc_console_level : option Z;     (* the console logger, by its level *)
}.

Definition logclient_new : logclient := mk_logclient false 0 [] None None.

(** [init]: [get] of an enumeration type. *)
Definition logclient_init (cfg : SECTION_MAP) (c : logclient) : logclient :=
  let loglevel := config_get_other (str "log") (str "loglevel") LOG_LEVEL_TRACE cfg in
  mk_logclient (lc_is_logserver c) loglevel (lc_process_name c) (lc_logserver c) (Some loglevel).
Definition logclient_set_process_name (name : list byte) (c : logclient) : logclient :=
  mk_logclient (lc_is_logserver c || bool_decide (name = str "logserver")) (lc_loglevel c) name (lc_logserver c) (lc_console_level c).
Definition logclient_set_logserver (m : logserver_manager) (c : logclient) : logclient :=
  mk_logclient (lc_is_logserver c) (lc_loglevel c) (lc_process_name c) (Some m) (lc_console_level c).

(** Where an event goes. *)
Inductive log_sink {E : Type} :=
  | SinkConsole (e : E)             (* the appender of the console logger *)
  | SinkTask (e : E)                (* a copy of the message to the thread pool *)
  | SinkSession (sid : Z) (e : E)   (* the message to a session *)
  | SinkNone.
Arguments log_sink : clear implicits.

Definition console_log (level : Z) (e : coded_event) (c : logclient) : log_sink (Z * coded_event) :=
  match lc_console_level c with
  | Some l => if level <? l then SinkNone else SinkConsole (level, e)
  | None => SinkNone
  end.
(** The library's weak definition and that of source/logclient. *)
Definition commit_log_weak := console_log.
Definition commit_log (level : Z) (e : coded_event) (c : logclient) : log_sink (Z * coded_event) :=
  if lc_is_logserver c then SinkTask (level, e)
  else match lc_logserver c with
       | Some m =>
           if lsm_is_connect m then match lsm_send m with Some sid => SinkSession sid (level, e) | None => SinkNone end
           else console_log level e c
       | None => console_log level e c
       end.
Definition commit_influxlog (e : influxlog_event) (c : logclient) : log_sink influxlog_event :=
  if lc_is_logserver c then SinkTask e
  else match lc_logserver c with
       | Some m => if lsm_is_connect m then match lsm_send m with Some sid => SinkSession sid e | None => SinkNone end else SinkNone
       | None => SinkNone
       end.

(** The event of the thread, filled by [glog] and [console_log]. *)
Definition fill_event (c : logclient) (filename : list byte) (line time tid elapse : Z) (content : list byte) (e : coded_event) : coded_event :=
  set_content content (set_elapse (to_string elapse) (set_threadid tid (set_event_timestamp time (set_line line
    (set_filename (c_string filename) (set_process_name (lc_process_name c) e)))))).
Definition glog (level : Z) (filename : list byte) (line time tid elapse : Z) (content : list byte) (c : logclient) (e : coded_event) :
    coded_event * log_sink (Z * coded_event) :=
  let e := fill_event c filename line time tid elapse content e in (e, commit_log level e c).
Definition logclient_console_log (level : Z) (filename : list byte) (line time tid elapse : Z) (content : list byte) (c : logclient) (e : coded_event) :
    coded_event * log_sink (Z * coded_event) :=
  match lc_console_level c with
  | None => (e, SinkNone)
  | Some _ => let e := fill_event c filename line time tid elapse content e in (e, console_log level e c)
  end.
Definition influx_log (measurement : list byte) (tags fields : gmap cpp_string cpp_string) (timestamp : Z) (c : logclient) :
    influxlog_event * log_sink influxlog_event :=
  let e := mk_influx measurement tags fields timestamp in (e, commit_influxlog e c).

(** ** The server's loggers

    Loggers are known by their address; [lm_live] are those not deleted. *)

Section LogManager.
Variable order : gmap (list byte) positive -> list (list byte * positive).

Record log_manager := mk_lm {
  lm_file_logger : option positive;
  lm_influx_logger : option positive;
  lm_loggers : gmap (list byte) positive;
  lm_live : gset positive;
}.
Abbreviation LM := (M log_manager).

(** What [init] makes of the configuration: the appender and the level of the file
    logger, and the directory and the name of the measurements'. *)
Inductive appender_kind := AsyncAppender (dir name : list byte) | FileAppender (dir name : list byte).
Definition log_manager_init (cfg : SECTION_MAP) : outcome ((appender_kind * Z) * (list byte * list byte)) :=
  let dir := config_get (str "log") (str "dir") [] cfg in
  let name := config_get (str "log") (str "filename") [] cfg in
  if bool_decide (dir = []) || bool_decide (name = []) then Fault (AssertFail "logdir.size() && filename.size()")
  else
    let async := config_get_bool (str "log") (str "asynclog") false cfg in
    level ← config_get_int s32 (str "log") (str "loglevel") LOG_LEVEL_TRACE cfg;
    Ok ((if async then AsyncAppender dir name else FileAppender dir name, u8 level),
        (config_get (str "influxlog") (str "dir") [] cfg, config_get (str "influxlog") (str "filename") [] cfg)).

Definition call_logger (l : positive) : LM positive :=
  m ← get; if bool_decide (l ∈ lm_live m) then mret l else fail (UB "use of a deleted logger").
Fixpoint call_loggers (loggers : list (list byte * positive)) : LM (list positive) :=
  match loggers with
  | [] => mret []
  | (_, l) :: loggers => l ← call_logger l; rest ← call_loggers loggers; mret (l :: rest)
  end.

(** [log]: the loggers that are given the event; [None] is the console's. *)
Definition log_manager_log : LM (option (list positive)) :=
  m ← get;
  match lm_file_logger m with
  | None => mret None
  | Some f => f ← call_logger f; rest ← call_loggers (order (lm_loggers m)); mret (Some (f :: rest))
  end.
Definition log_manager_influxlog : LM (option positive) :=
  m ← get;
  match lm_influx_logger m with None => mret None | Some l => l ← call_logger l; mret (Some l) end.
Definition get_logger (name : list byte) : LM (option positive) := m ← get; mret (lm_loggers m !! name).
Definition add_logger (name : list byte) (l : positive) : LM bool :=
  m ← get;
  match lm_loggers m !! name with
  | Some _ => mret false
  | None => put (mk_lm (lm_file_logger m) (lm_influx_logger m) (<[name := l]> (lm_loggers m)) (lm_live m));; mret true
  end.
(** [del_logger]: the name stays. *)
Definition del_logger (name : list byte) : LM bool :=
  m ← get;
  match lm_loggers m !! name with
  | Some l =>
      if bool_decide (l ∈ lm_live m)
      then put (mk_lm (lm_file_logger m) (lm_influx_logger m) (lm_loggers m) (lm_live m ∖ {[l]}));; mret true
      else fail (UB "deleted twice")
  | None => mret false
  end.

(** ** What is proved of them *)

(** A logger deleted by its name is called for the next event, and deleting it
    again is undefined. *)
Lemma del_logger_dangles m name l f :
  order {[name := l]} = [(name, l)] -> lm_loggers m = {[name := l]} -> lm_file_logger m = Some f ->
  l ∈ lm_live m -> f ∈ lm_live m -> f <> l ->
  exists m', del_logger name m = (m', Ok true) /\
    (log_manager_log m').2 = Fault (UB "use of a deleted logger") /\
    (del_logger name m').2 = Fault (UB "deleted twice").
Proof.
  intros Ho Hl Hf Hlive Hflive Hne. eexists. split_and!.
  - unfold del_logger. rewrite M_get, Hl, lookup_singleton_eq, bool_decide_eq_true_2 by done. reflexivity.
  - unfold log_manager_log. rewrite M_get. cbn [lm_file_logger lm_loggers]. rewrite Hf, Ho.
    unfold call_logger. cbn [call_loggers]. unfold call_logger. mrun. cbn.
    rewrite bool_decide_eq_true_2 by set_solver. rewrite bool_decide_eq_false_2 by set_solver. done.
  - unfold del_logger. rewrite M_get. cbn [lm_loggers lm_live]. rewrite lookup_singleton_eq, bool_decide_eq_false_2 by set_solver. done.
Qed.
End LogManager.

(** *** Lines *)

(** A line whose texts fill no more than the buffer is logged as it was put
    together, and the next line of the thread starts from nothing; an empty one
    is not logged. *)
Lemma impl_puts_ok o bs vs t :
  octets_repr o bs -> stream_texts vs = Ok t -> len bs + len t < LOG_BUFFER_SIZE ->
  exists o', impl_puts vs o = (o', Ok tt) /\ octets_repr o' (bs ++ t).
Proof.
  revert o bs t. induction vs as [|v vs IH]; intros o bs t Hr Ht Hm; cbn [impl_puts stream_texts] in *.
  - simplify_eq. exists o. by rewrite app_nil_r.
  - apply outcome_bind_Ok in Ht as (tv & Hv & Ht). apply outcome_bind_Ok in Ht as (ts & Hts & [= <-]).
    rewrite len_app in Hm. pose proof (len_nonneg ts). pose proof (len_nonneg tv). unfold LOG_BUFFER_SIZE in Hm.
    destruct (oss_put_repr o bs v tv Hr Hv) as (o1 & Ho1 & Hr1); [unfold MAX_OCTETS; lia|].
    destruct (IH o1 (bs ++ tv) ts Hr1 Hts) as (o' & Ho' & Hr'); [rewrite len_app; unfold LOG_BUFFER_SIZE; lia|].
    exists o'. rewrite app_assoc. split; [|done]. unfold impl_put. rewrite (M_bind_ok _ _ o o1 tt); [done|].
    rewrite M_get. unfold oss_size, octets_size. rewrite (repr_len o bs Hr).
    destruct (Z.ltb_spec (len bs) LOG_BUFFER_SIZE); [done|unfold LOG_BUFFER_SIZE in *; lia].
Qed.

Lemma impl_dtor_ok o bs :
  octets_repr o bs -> len bs <= LOG_BUFFER_SIZE ->
  exists o', impl_dtor o = (o', Ok (match bs with [] => None | _ => Some bs end)) /\ octets_repr o' [].
Proof.
  intros Hr Hm. unfold impl_dtor. rewrite M_get. unfold oss_empty, octets_empty. pose proof (repr_len o bs Hr) as Hlen.
  rewrite Hlen. destruct bs as [|b bs]; [by exists o|]. rewrite len_cons in Hm, Hlen |- *. pose proof (len_nonneg bs).
  destruct (Z.eqb_spec (1 + len bs) 0); [lia|].
  assert (oss_truncate LOG_BUFFER_SIZE o = (o, Ok tt)) as Ht.
  { unfold oss_truncate. rewrite M_get. unfold octets_size. rewrite Hlen.
    destruct (Z.ltb_spec LOG_BUFFER_SIZE (1 + len bs)); [lia|done]. }
  rewrite (M_bind_ok _ _ _ _ _ Ht), (M_bind_ok _ _ _ _ _ (oss_str_repr o _ Hr)). unfold oss_clear. rewrite M_modify.
  eexists. split; [reflexivity|]. by eapply clear_repr.
Qed.

(** A statement that logs a line of less than the buffer's size logs the
    texts of its values one after the other, and leaves the stream of the thread
    empty for the next line. *)
Theorem log_line_exact o vs t :
  octets_repr o [] -> stream_texts vs = Ok t -> len t < LOG_BUFFER_SIZE ->
  exists o', log_line vs o = (o', Ok (match t with [] => None | _ => Some t end)) /\ octets_repr o' [].
Proof.
  intros Hr Ht Hm. destruct (impl_puts_ok o [] vs t Hr Ht) as (o1 & Ho1 & Hr1); [done|].
  unfold log_line. rewrite (M_bind_ok _ _ _ _ _ Ho1). apply impl_dtor_ok; [done|cbn; lia].
Qed.

Lemma log_line_exact_witness :
  exists o o', ostringstream_new = Ok o /\
    log_line [PrStr (str "port "); PrInt 80] o = (o', Ok (Some (str "port 80"))) /\ octets_repr o' [].
Proof.
  destruct ostringstream_new_repr as (o & Ho & Hr).
  destruct (log_line_exact o [PrStr (str "port "); PrInt 80] (str "port 80") Hr) as (o' & H1 & H2);
    [vm_compute; reflexivity|vm_compute; done|].
  by exists o, o'.
Defined.

(** A line that is longer is not cut: its length grows by that of the buffer, over
    memory that was not written or is not the stream's. *)
Lemma long_line_undefined :
  exists o, ostringstream_new = Ok o /\ (log_line [PrStr (repeat x61 2049)] o).2 = Fault (UB "read out of bounds").
Proof. eexists. split; [vm_compute; reflexivity|]. vm_compute. reflexivity. Qed.

(** *** Events *)

(** The level that the configuration names for a client is not used. *)
Lemma client_level_ignored cfg c : lc_loglevel (logclient_init cfg c) = LOG_LEVEL_TRACE.
Proof. unfold logclient_init, config_get_other. cbn [lc_loglevel]. by destruct (config_get _ _ _ _). Qed.

(** Every event of an initialised client goes somewhere: to the thread pool of the
    server, to the session of the server when there is one, and else to the
    console.  A measurement without a connection is lost. *)
Lemma commit_log_sink cfg c level e :
  LOG_LEVEL_TRACE <= level ->
  commit_log level e (logclient_init cfg c) =
    if lc_is_logserver c then SinkTask (level, e)
    else match lc_logserver c with
         | Some m => if lsm_localsid m >? 0 then SinkSession (lsm_localsid m) (level, e) else SinkConsole (level, e)
         | None => SinkConsole (level, e)
         end.
Proof.
  intros Hl. pose proof (client_level_ignored cfg c) as Hc. unfold logclient_init in *. cbn [lc_loglevel] in Hc. rewrite Hc.
  unfold commit_log, lsm_is_connect, lsm_send, console_log. cbn [lc_is_logserver lc_logserver lc_console_level].
  destruct (lc_is_logserver c); [done|]. destruct (Z.ltb_spec level LOG_LEVEL_TRACE); [lia|].
  destruct (lc_logserver c) as [m|]; [|done]. by destruct (lsm_localsid m >? 0).
Qed.

(** What [glog] fills in a thread that logged nothing before is what a receiver
    reads: all fields but the fiber are marked. *)
Lemma glog_event_survives c filename line time tid elapse content :
  let e := fill_event c filename line time tid elapse content log_event_default in
  merge_events e log_event_default = e.
Proof. reflexivity. Qed.
