(* ===== verification/LogFile.v ===== *)
(** Log files (source/bee/log/log_appender.cpp, log_appender.h): the appenders
    that write to the terminal and to files, over a file system of names, inodes
    and directories, and the change of files when the rotator says so.  The
    rotator is known by its interface, as it is in the code. *)

From S2P Require Import Prelude Octets Marshal Text Format Buffers LogAppender.

(** ** The file system

    A path is resolved to the names on the way from the root, without links.  An
    open stream keeps the inode, whatever happens to the names. *)

Abbreviation comps := (list (list byte)).

Record file_system := mk_fs {
  fs_names : gmap comps positive;
  fs_data : gmap positive (list byte);
  fs_dirs : gset comps;
  fs_next : positive;
}.

(** The text between slashes. *)
Fixpoint path_parts (path cur : list byte) : comps :=
  match path with
  | [] => [cur]
  | x2f :: path => cur :: path_parts path []
  | c :: path => path_parts path (cur ++ [c])
  end.
Definition path_step (done : comps) (c : list byte) : comps :=
  if bool_decide (c = [] \/ c = [x2e]) then done
  else if bool_decide (c = [x2e; x2e]) then removelast done
  else done ++ [c].

(** What a rotator promises (log_rotator): whether it is time to change files,
    and how the file that ends and the one that starts are called. *)
Class Rotator (R : Type) := {
  check_rotate : Z -> R -> R * bool;
  get_pre_suffix : R -> list byte;
  get_suffix : R -> list byte;
}.

Section Files.
(** The working directory; what the permissions of directories and files allow;
    which paths are on one device; the text of the system's error. *)
Variables (cwd : comps) (may_write : comps -> bool) (same_device : comps -> comps -> bool)
  (err_message : list byte).

Definition resolve_path (path : list byte) : comps :=
  match path with
  | x2f :: _ => foldl path_step [] (path_parts path [])
  | _ => foldl path_step cwd (path_parts path [])
  end.

Definition fs_is_dir (fs : file_system) (p : comps) : bool := bool_decide (p = [] \/ p ∈ fs_dirs fs).
Definition fs_exists (fs : file_system) (path : list byte) : bool :=
  fs_is_dir fs (resolve_path path) || bool_decide (is_Some (fs_names fs !! resolve_path path)).

(** [open] with [out | app]: the inode, when it succeeds. *)
Definition fs_open_append (path : list byte) (fs : file_system) : file_system * option positive :=
  let p := resolve_path path in
  if fs_is_dir fs p then (fs, None)
  else match fs_names fs !! p with
       | Some i => (fs, if may_write p then Some i else None)
       | None =>
           if fs_is_dir fs (removelast p) && may_write (removelast p)
           then (mk_fs (<[p := fs_next fs]> (fs_names fs)) (<[fs_next fs := []]> (fs_data fs)) (fs_dirs fs)
                   (Pos.succ (fs_next fs)), Some (fs_next fs))
           else (fs, None)
       end.

Definition fs_append (i : positive) (content : list byte) (fs : file_system) : file_system :=
  mk_fs (fs_names fs) (alter (fun old => old ++ content) i (fs_data fs)) (fs_dirs fs) (fs_next fs).

(** [create_directories]: from the root down; whether there was an error. *)
Fixpoint fs_create_from (done todo : comps) (fs : file_system) : file_system * bool :=
  match todo with
  | [] => (fs, false)
  | c :: todo =>
      let p := done ++ [c] in
      if fs_is_dir fs p then fs_create_from p todo fs
      else if bool_decide (is_Some (fs_names fs !! p)) || negb (may_write done) then (fs, true)
      else fs_create_from p todo (mk_fs (fs_names fs) (fs_data fs) ({[p]} ∪ fs_dirs fs) (fs_next fs))
  end.
Definition fs_create_directories (path : list byte) (fs : file_system) : file_system * bool :=
  fs_create_from [] (resolve_path path) fs.

(** [rename] of something that exists to a name that does not: a directory moves
    with what it holds. *)
Definition moved (src dst p : comps) : comps :=
  if bool_decide (take (length src) p = src) then dst ++ drop (length src) p else p.
Definition fs_rename (src dst : list byte) (fs : file_system) : file_system * outcome unit :=
  let f := resolve_path src in let t := resolve_path dst in
  if fs_is_dir fs (removelast t) && may_write (removelast f) && may_write (removelast t) && same_device f t
     && negb (fs_is_dir fs f && bool_decide (take (length f) t = f))
  then (mk_fs (kmap (moved f t) (fs_names fs)) (fs_data fs) (set_map (moved f t) (fs_dirs fs)) (fs_next fs), Ok tt)
  else (fs, Throw (ExnRuntime "filesystem_error")).

(** The files by name. *)
Definition fs_files (fs : file_system) : gmap comps (list byte) := omap (fun i => fs_data fs !! i) (fs_names fs).

Record fs_ok (fs : file_system) : Prop := mk_fs_ok {
  fo_data : forall p i, fs_names fs !! p = Some i -> is_Some (fs_data fs !! i);
  fo_fresh : forall p i, fs_names fs !! p = Some i -> (i < fs_next fs)%positive;
  fo_inj : forall p q i, fs_names fs !! p = Some i -> fs_names fs !! q = Some i -> p = q;
}.

(** ** The appenders *)

Context {R} `{Rotator R}.

(** The class whose [reopen] a virtual call reaches. *)
Inductive appender_class := CFileAppender | CInfluxlogAppender.

Record file_appender := mk_fappender {
  fa_rotator : R;
  fa_filedir : list byte;
  fa_filename : list byte;
  fa_filepath : list byte;
  fa_filestream : option positive;
}.

Record log_world := mk_world { w_fs : file_system; w_stdout : list byte; w_app : file_appender }.
Abbreviation LW := (M log_world).

Definition on_fs {A} (f : file_system -> file_system * A) : LW A :=
  fun w => let '(fs, a) := f (w_fs w) in (mk_world fs (w_stdout w) (w_app w), Ok a).
Definition on_app (f : file_appender -> file_appender) : LW unit :=
  modify (fun w => mk_world (w_fs w) (w_stdout w) (f (w_app w))).
Definition print (text : list byte) : LW unit :=
  modify (fun w => mk_world (w_fs w) (w_stdout w ++ text) (w_app w)).

Definition set_filepath path (a : file_appender) :=
  mk_fappender (fa_rotator a) (fa_filedir a) (fa_filename a) path (fa_filestream a).
Definition set_filestream st (a : file_appender) :=
  mk_fappender (fa_rotator a) (fa_filedir a) (fa_filename a) (fa_filepath a) st.
Definition set_rotator r (a : file_appender) :=
  mk_fappender r (fa_filedir a) (fa_filename a) (fa_filepath a) (fa_filestream a).

(** [console_appender::log] of text, and of an event already formatted. *)
Definition console_appender_log (content : list byte) : LW unit := print content.

(** [format_string] of a slash, the file's name, the suffix if there is one, and [.log]. *)
Definition dated_name (filename suffix : list byte) : list byte :=
  format_cut (x2f :: c_string filename ++ [x2e] ++ c_string suffix ++ str ".log").
Definition plain_name (filename : list byte) : list byte := format_cut (x2f :: c_string filename ++ str ".log").

Definition close_stream : LW unit := on_app (set_filestream None).
Definition open_stream : LW unit :=
  w ← get;
  st ← on_fs (fs_open_append (fa_filepath (w_app w)));
  on_app (set_filestream st);;
  print (str "open filestream " ++ c_string (fa_filepath (w_app w)) ++ [x0a]).

(** [file_appender::reopen]. *)
Definition file_reopen : LW bool :=
  w ← get;
  let a := w_app w in
  on_app (set_filepath (fa_filedir a ++ dated_name (fa_filename a) (get_suffix (fa_rotator a))));;
  (match fa_filestream a with Some _ => close_stream | None => mret tt end);;
  open_stream;; mret true.

(** [influxlog_appender::reopen]. *)
Definition influx_reopen : LW bool :=
  w ← get;
  let a := w_app w in
  let filepath := fa_filedir a ++ plain_name (fa_filename a) in
  on_app (set_filepath filepath);;
  (match fa_filestream a with
   | Some _ =>
       close_stream;;
       let to := dated_name (fa_filename a) (get_pre_suffix (fa_rotator a)) in
       w ← get;
       if fs_exists (w_fs w) filepath && negb (fs_exists (w_fs w) to)
       then o ← on_fs (fs_rename filepath to); lift o
       else fail (AssertFail "false")
   | None => mret tt
   end);;
  open_stream;; mret true.

Definition reopen (c : appender_class) : LW bool :=
  match c with CFileAppender => file_reopen | CInfluxlogAppender => influx_reopen end.
Definition rotate (c : appender_class) : LW bool := reopen c.

Definition given_dir (filedir : list byte) : list byte := match filedir with [] => [x2e] | _ => filedir end.

(** The constructor of [file_appender], which the other classes run first: its
    [reopen] is its own.  The rotator is given made. *)
Definition file_appender_construct (r : R) (filedir filename : list byte) : LW unit :=
  let filedir := given_dir filedir in
  modify (fun w => mk_world (w_fs w) (w_stdout w) (mk_fappender r filedir filename [] None));;
  failed ← on_fs (fs_create_directories (c_string filedir));
  if (failed : bool)
  then print (str "create directory failed, dir:" ++ c_string filedir ++ str " err:" ++ err_message ++ [x0a])
  else _ ← file_reopen; mret tt.

Definition file_appender_dtor : LW unit :=
  w ← get; match fa_filestream (w_app w) with Some _ => close_stream | None => mret tt end.

(** [file_appender::log]; a stream that is not open takes nothing. *)
Definition file_log (content : list byte) : LW unit :=
  w ← get;
  match fa_filestream (w_app w) with
  | Some i => on_fs (fun fs => (fs_append i content fs, tt))
  | None => mret tt
  end.

(** The timer of the rotator. *)
Definition rotator_timer (c : appender_class) (now : Z) : LW bool :=
  w ← get;
  let '(r, due) := check_rotate now (fa_rotator (w_app w)) in
  on_app (set_rotator r);;
  (if (due : bool) then _ ← rotate c; mret tt else mret tt);;
  mret true.

Inductive file_op := FLog (content : list byte) | FTimer (now : Z).
Definition file_step (c : appender_class) (op : file_op) : LW unit :=
  match op with FLog content => file_log content | FTimer now => _ ← rotator_timer c now; mret tt end.
Fixpoint file_run (c : appender_class) (ops : list file_op) : LW unit :=
  match ops with [] => mret tt | op :: ops => file_step c op;; file_run c ops end.

(** ** What the files hold *)

Lemma fs_files_lookup fs p : fs_files fs !! p = i ← fs_names fs !! p; fs_data fs !! i.
Proof. apply lookup_omap. Qed.

Lemma fs_append_files i content fs p :
  fs_ok fs -> fs_names fs !! p = Some i ->
  fs_files (fs_append i content fs) = alter (fun old => old ++ content) p (fs_files fs).
Proof.
  intros Hok Hp. apply map_eq. intros q. rewrite fs_files_lookup. cbn [fs_append fs_names fs_data].
  destruct (decide (p = q)) as [<-|Hne].
  - rewrite lookup_alter_eq, fs_files_lookup, Hp. cbn. by rewrite lookup_alter_eq.
  - rewrite lookup_alter_ne, fs_files_lookup by done. destruct (fs_names fs !! q) as [j|] eqn:Hq; cbn; [|done].
    apply lookup_alter_ne. intros ->. apply Hne. by eapply fo_inj.
Qed.

Lemma fs_append_ok i content fs : fs_ok fs -> fs_ok (fs_append i content fs).
Proof.
  intros [Hd Hf Hi]. split; cbn [fs_append fs_names fs_data fs_next]; [|done..].
  intros p j Hp. destruct (decide (i = j)) as [<-|Hne].
  - rewrite lookup_alter_eq. by apply fmap_is_Some, (Hd p).
  - rewrite lookup_alter_ne by done. by apply (Hd p).
Qed.

(** The path can be opened, whether the file is there or not. *)
Definition can_open (dirs : gset comps) (p : comps) : Prop :=
  p <> [] /\ (p ∉ dirs) /\ (removelast p = [] \/ removelast p ∈ dirs) /\ may_write (removelast p) = true /\ may_write p = true.

(** Opening to append keeps what the file holds, and makes an empty one of none. *)
Lemma fs_open_append_spec path fs :
  fs_ok fs -> can_open (fs_dirs fs) (resolve_path path) ->
  exists fs' i, fs_open_append path fs = (fs', Some i) /\ fs_ok fs' /\ fs_dirs fs' = fs_dirs fs /\
    fs_names fs' !! resolve_path path = Some i /\
    fs_files fs' = <[resolve_path path := default [] (fs_files fs !! resolve_path path)]> (fs_files fs).
Proof.
  intros Hok (Hne & Hnd & Hpar & Hwp & Hw). unfold fs_open_append, fs_is_dir. set (p := resolve_path path) in *.
  rewrite (bool_decide_eq_false_2 (p = [] \/ _)) by naive_solver. rewrite (bool_decide_eq_true_2 _ Hpar), Hwp, Hw. cbn.
  destruct (fs_names fs !! p) as [i|] eqn:Hp.
  - destruct (fo_data _ Hok _ _ Hp) as [d Hd]. exists fs, i. repeat split; try apply Hok; try done.
    symmetry. apply insert_id. rewrite fs_files_lookup, Hp. cbn. by rewrite Hd.
  - exists (mk_fs (<[p := fs_next fs]> (fs_names fs)) (<[fs_next fs := []]> (fs_data fs)) (fs_dirs fs) (Pos.succ (fs_next fs))), (fs_next fs).
    assert (forall q i, fs_names fs !! q = Some i -> i <> fs_next fs) as Hfresh.
    { intros q i Hq ->. pose proof (fo_fresh _ Hok _ _ Hq). lia. }
    split_and!; [done| |done|by cbn; rewrite lookup_insert_eq|].
    + split; cbn.
      * intros q i. rewrite lookup_insert_Some. intros [[<- <-]|[Hn Hq]]; [by rewrite lookup_insert_eq|].
        rewrite lookup_insert_ne by (by apply not_eq_sym, (Hfresh q)). by eapply fo_data.
      * intros q i. rewrite lookup_insert_Some. intros [[<- <-]|[Hn Hq]]; [lia|]. pose proof (fo_fresh _ Hok _ _ Hq). lia.
      * intros q q' i. rewrite !lookup_insert_Some.
        intros [[<- <-]|[Hn Hq]] [[<- Hi]|[Hn' Hq']]; try done; [by destruct (Hfresh q' _ Hq')|by destruct (Hfresh q i Hq)|by eapply fo_inj].
    + apply map_eq. intros q. rewrite fs_files_lookup. cbn. destruct (decide (p = q)) as [<-|Hq].
      * rewrite !lookup_insert_eq, fs_files_lookup, Hp. cbn. by rewrite lookup_insert_eq.
      * rewrite !lookup_insert_ne, fs_files_lookup by done. destruct (fs_names fs !! q) as [j|] eqn:Hj; cbn; [|done].
        apply lookup_insert_ne. by apply not_eq_sym, (Hfresh q).
Qed.

(** ** A store of lines

    What the appender promises: the files by name and the one in use; a line goes
    to its end, and another file is taken up where it ended. *)

Record log_store := mk_store { ls_files : gmap comps (list byte); ls_current : comps }.

Definition store_write (content : list byte) (s : log_store) : log_store :=
  mk_store (alter (fun old => old ++ content) (ls_current s) (ls_files s)) (ls_current s).
Definition store_open (p : comps) (s : log_store) : log_store :=
  mk_store (<[p := default [] (ls_files s !! p)]> (ls_files s)) p.

Definition dated_path (filedir filename : list byte) (r : R) : comps :=
  resolve_path (filedir ++ dated_name filename (get_suffix r)).

Definition store_step (filedir filename : list byte) (op : file_op) (st : R * log_store) : R * log_store :=
  match op with
  | FLog content => (st.1, store_write content st.2)
  | FTimer now =>
      let '(r, due) := check_rotate now st.1 in
      (r, if (due : bool) then store_open (dated_path filedir filename r) st.2 else st.2)
  end.
Definition store_run (filedir filename : list byte) (ops : list file_op) (st : R * log_store) : R * log_store :=
  foldl (fun st op => store_step filedir filename op st) st ops.

(** No line is ever taken from a file. *)
Lemma store_run_keeps filedir filename ops st p d :
  ls_files st.2 !! p = Some d ->
  exists tail, ls_files (store_run filedir filename ops st).2 !! p = Some (d ++ tail).
Proof.
  revert st d. induction ops as [|op ops IH]; intros st d Hd; cbn; [exists []; by rewrite app_nil_r|].
  enough (exists t, ls_files (store_step filedir filename op st).2 !! p = Some (d ++ t)) as [t Ht].
  { destruct (IH _ _ Ht) as [t' Ht']. exists (t ++ t'). by rewrite app_assoc. }
  destruct op as [content|now]; cbn.
  - destruct (decide (ls_current st.2 = p)) as [->|Hne].
    + exists content. by rewrite lookup_alter_eq, Hd.
    + exists []. by rewrite lookup_alter_ne, app_nil_r.
  - destruct (check_rotate now st.1) as [r [|]]; cbn; exists []; rewrite app_nil_r; [|done].
    rewrite lookup_insert_Some. destruct (decide (dated_path filedir filename r = p)) as [->|]; [left|by right].
    by rewrite Hd.
Qed.

Section Refinement.
Variables (filedir filename : list byte) (dirs : gset comps).
Hypothesis filedir_given : filedir <> [].
Hypothesis rotation_opens : forall now r r', check_rotate now r = (r', true) -> can_open dirs (dated_path filedir filename r').

Record store_rel (w : log_world) (st : R * log_store) : Prop := mk_store_rel {
  sr_ok : fs_ok (w_fs w);
  sr_dirs : fs_dirs (w_fs w) = dirs;
  sr_rotator : fa_rotator (w_app w) = st.1;
  sr_filedir : fa_filedir (w_app w) = filedir;
  sr_filename : fa_filename (w_app w) = filename;
  sr_files : fs_files (w_fs w) = ls_files st.2;
  sr_open : exists i, fa_filestream (w_app w) = Some i /\ fs_names (w_fs w) !! ls_current st.2 = Some i;
}.

Lemma file_reopen_opens w files cur :
  fs_ok (w_fs w) -> fs_dirs (w_fs w) = dirs -> fs_files (w_fs w) = files ->
  fa_filedir (w_app w) = filedir -> fa_filename (w_app w) = filename ->
  can_open dirs (dated_path filedir filename (fa_rotator (w_app w))) ->
  exists w', file_reopen w = (w', Ok true) /\
    store_rel w' (fa_rotator (w_app w),
      store_open (dated_path filedir filename (fa_rotator (w_app w))) (mk_store files cur)).
Proof.
  destruct w as [fs out [r dir name path st]]. cbn. intros Hok Hd <- -> -> Hopen.
  destruct (fs_open_append_spec (filedir ++ dated_name filename (get_suffix r)) fs Hok) as (fs' & i & Ho & Hok' & Hd' & Hn & Hf);
    [by rewrite Hd|].
  unfold file_reopen, close_stream, open_stream, on_app, on_fs, print. mrun.
  destruct st; cbn; rewrite Ho; cbn; (eexists; split; [reflexivity|]; split; cbn; try done; [congruence|by exists i]).
Qed.

Lemma file_step_refines op w st :
  store_rel w st -> exists w', file_step CFileAppender op w = (w', Ok tt) /\ store_rel w' (store_step filedir filename op st).
Proof.
  intros Hrel. destruct st as [r s]. destruct op as [content|now].
  - destruct Hrel as [Hok Hd Hr Hfd Hfn Hfs (i & Hst & Hi)]. cbn in *.
    unfold file_log, on_fs. mrun. rewrite Hst. eexists; split; [reflexivity|].
    split; cbn; try done; [by apply fs_append_ok| |by exists i].
    rewrite <- Hfs. by apply fs_append_files.
  - unfold file_step, rotator_timer, store_step. cbn [fst snd].
    destruct Hrel as [Hok Hd Hr Hfd Hfn Hfs (i & Hst & Hi)]. cbn [fst snd] in *. subst r.
    mrun. destruct (check_rotate now (fa_rotator (w_app w))) as [r [|]] eqn:Hc; cbn.
    + destruct (file_reopen_opens (mk_world (w_fs w) (w_stdout w) (set_rotator r (w_app w))) (ls_files s) (ls_current s))
        as (w' & Hw & Hrel'); try done; [by eapply rotation_opens|]. rewrite Hw. exists w'. split; [done|].
      by destruct s.
    + eexists; split; [reflexivity|]. split; cbn; try done. by exists i.
Qed.

Lemma file_run_refines ops w st :
  store_rel w st -> exists w', file_run CFileAppender ops w = (w', Ok tt) /\ store_rel w' (store_run filedir filename ops st).
Proof.
  revert w st. induction ops as [|op ops IH]; intros w st Hrel; [by exists w|].
  destruct (file_step_refines op w st Hrel) as (w1 & H1 & Hrel1). cbn [file_run]. rewrite (M_bind_ok _ _ _ _ _ H1).
  by apply IH.
Qed.
End Refinement.

Lemma fs_create_from_spec todo done fs fs' failed :
  fs_create_from done todo fs = (fs', failed) -> fs_names fs' = fs_names fs /\ fs_data fs' = fs_data fs /\ fs_next fs' = fs_next fs.
Proof.
  revert done fs. induction todo as [|c todo IH]; intros done fs; cbn; [by intros [= <- _]|].
  destruct (fs_is_dir _ _); [by apply IH|]. destruct (_ || _); [by intros [= <- _]|]. intros Hr. by destruct (IH _ _ Hr) as (-> & -> & ->).
Qed.

Lemma create_directories_spec path fs fs' failed :
  fs_create_directories path fs = (fs', failed) -> fs_ok fs -> fs_ok fs' /\ fs_files fs' = fs_files fs /\ fs_names fs' = fs_names fs.
Proof.
  intros Hc [Hd Hf Hi]. destruct (fs_create_from_spec _ _ _ _ _ Hc) as (En & Ed & Ex).
  split_and!; [split| |done]; unfold fs_files; rewrite ?En, ?Ed, ?Ex; done.
Qed.

Lemma given_dir_given filedir : given_dir filedir <> [].
Proof. by destruct filedir. Qed.

(** Making the appender makes the directories and opens the dated file. *)
Lemma construct_opens w r filedir filename fs1 :
  fs_ok (w_fs w) ->
  fs_create_directories (c_string (given_dir filedir)) (w_fs w) = (fs1, false) ->
  can_open (fs_dirs fs1) (dated_path (given_dir filedir) filename r) ->
  exists w', file_appender_construct r filedir filename w = (w', Ok tt) /\
    store_rel (given_dir filedir) filename (fs_dirs fs1) w'
      (r, store_open (dated_path (given_dir filedir) filename r) (mk_store (fs_files (w_fs w)) [])).
Proof.
  intros Hok Hc Hopen. destruct (create_directories_spec _ _ _ _ Hc Hok) as (Hok1 & Hf1 & _).
  unfold file_appender_construct. rewrite M_modify.
  erewrite (M_bind_ok (on_fs _)); [|unfold on_fs; cbn [w_fs]; rewrite Hc; reflexivity]. cbn [w_stdout w_app].
  edestruct (file_reopen_opens (given_dir filedir) filename (fs_dirs fs1)
    (mk_world fs1 (w_stdout w) (mk_fappender r (given_dir filedir) filename [] None)) (fs_files (w_fs w)) [])
    as (w' & Hw & Hrel); try done.
  exists w'. split; [|done]. by rewrite (M_bind_ok _ _ _ _ _ Hw).
Qed.

(** C31 — When the directory can be made, and every dated file in it opened, an
    appender that is made and then used, whatever is logged and whenever
    the rotator's timer runs, never fails, and the files hold what the store of
    lines holds: each line is at the end of the file that was current, a file taken
    up again goes on where it ended, and no other file changes. *)
Theorem file_appender_refines w r filedir filename fs1 ops :
  fs_ok (w_fs w) ->
  fs_create_directories (c_string (given_dir filedir)) (w_fs w) = (fs1, false) ->
  can_open (fs_dirs fs1) (dated_path (given_dir filedir) filename r) ->
  (forall now r r', check_rotate now r = (r', true) -> can_open (fs_dirs fs1) (dated_path (given_dir filedir) filename r')) ->
  exists w', (file_appender_construct r filedir filename;; file_run CFileAppender ops) w = (w', Ok tt) /\
    fs_files (w_fs w') =
    ls_files (store_run (given_dir filedir) filename ops
      (r, store_open (dated_path (given_dir filedir) filename r) (mk_store (fs_files (w_fs w)) []))).2.
Proof.
  intros Hok Hc Hopen Hrot. destruct (construct_opens w r filedir filename fs1 Hok Hc Hopen) as (w1 & H1 & Hrel).
  destruct (file_run_refines _ _ _ Hrot ops w1 _ Hrel) as (w' & Hw & Hrel').
  exists w'. split; [by rewrite (M_bind_ok _ _ _ _ _ H1)|]. apply (sr_files _ _ _ _ _ Hrel').
Qed.

(** A directory that cannot be made: there is no file, and what is logged is lost. *)
Lemma no_directory_no_log w r filedir filename fs1 contents :
  fs_create_directories (c_string (given_dir filedir)) (w_fs w) = (fs1, true) ->
  exists w', (file_appender_construct r filedir filename;; file_run CFileAppender (FLog <$> contents)) w = (w', Ok tt) /\
    w_fs w' = fs1 /\ fa_filestream (w_app w') = None.
Proof.
  intros Hc. unfold file_appender_construct. mrun. unfold on_fs. cbn. rewrite Hc. cbn.
  match goal with |- context [file_run _ _ ?s] => assert (fa_filestream (w_app s) = None) as Hn by done; set (w1 := s) in * end.
  change fs1 with (w_fs w1). clearbody w1. induction contents as [|c contents IH]; cbn; [by exists w1|].
  mrun. unfold file_log. mrun. rewrite Hn. apply IH.
Qed.

(** ** The file of the measurements *)

Definition plain_path (a : file_appender) : list byte := fa_filedir a ++ plain_name (fa_filename a).

(** Rotating with no file of the plain name fails an assertion. *)
Lemma influx_rotation_asserts w now r i :
  fa_filestream (w_app w) = Some i -> check_rotate now (fa_rotator (w_app w)) = (r, true) ->
  fs_exists (w_fs w) (plain_path (w_app w)) = false ->
  (rotator_timer CInfluxlogAppender now w).2 = Fault (AssertFail "false").
Proof.
  intros Hi Hc He. unfold rotator_timer, rotate, reopen, influx_reopen, close_stream, on_app. mrun. rewrite Hc. cbn. rewrite Hi. cbn.
  unfold plain_path in He. by rewrite He.
Qed.

(** Opening one file makes no other. *)
Lemma open_append_exists path path' fs fs' st :
  fs_open_append path fs = (fs', st) -> resolve_path path' <> resolve_path path -> fs_exists fs' path' = fs_exists fs path'.
Proof.
  unfold fs_open_append, fs_exists. intros Ho Hne.
  destruct (fs_is_dir fs (resolve_path path)); [by injection Ho as <- _|].
  destruct (fs_names fs !! resolve_path path); [by injection Ho as <- _|].
  destruct (_ && _); injection Ho as <- _; [|done]. cbn. by rewrite lookup_insert_ne.
Qed.

(** The base constructor opens a file of the day's name, for the virtual
    call reaches its own [reopen]; the first change of files then wants to rename
    the file of the plain name, which nothing has made: an assertion fails. *)
Lemma influx_first_rotation_asserts w r filedir filename fs1 now r' :
  fs_ok (w_fs w) ->
  fs_create_directories (c_string (given_dir filedir)) (w_fs w) = (fs1, false) ->
  can_open (fs_dirs fs1) (dated_path (given_dir filedir) filename r) ->
  fs_exists fs1 (given_dir filedir ++ plain_name filename) = false ->
  resolve_path (given_dir filedir ++ plain_name filename) <> dated_path (given_dir filedir) filename r ->
  check_rotate now r = (r', true) ->
  ((file_appender_construct r filedir filename;; rotator_timer CInfluxlogAppender now) w).2 = Fault (AssertFail "false").
Proof.
  intros Hok Hc Hopen Hex Hne Hdue. unfold file_appender_construct.
  destruct (create_directories_spec _ _ _ _ Hc Hok) as (Hok1 & _).
  destruct (fs_open_append_spec (given_dir filedir ++ dated_name filename (get_suffix r)) fs1 Hok1 Hopen) as (fs2 & i & Ho & _).
  pose proof (open_append_exists _ _ _ _ _ Ho Hne) as He. rewrite Hex in He.
  unfold rotator_timer, rotate, reopen, influx_reopen, close_stream, file_reopen, open_stream, on_fs, on_app, print. mrun. cbn [w_fs]. rewrite Hc. cbn. rewrite Ho. cbn.
  rewrite Hdue. cbn. by rewrite He.
Qed.

(** With such a file, as a run before may have left, it is renamed to a name in
    the root directory: the directory of the logs is not in it. *)
Lemma influx_renames_to_root w now r i :
  let a := w_app w in
  let target := resolve_path (dated_name (fa_filename a) (get_pre_suffix r)) in
  fa_filestream a = Some i -> check_rotate now (fa_rotator a) = (r, true) ->
  fs_exists (w_fs w) (plain_path a) = true -> fs_exists (w_fs w) (dated_name (fa_filename a) (get_pre_suffix r)) = false ->
  removelast target = [] -> may_write [] = false ->
  (rotator_timer CInfluxlogAppender now w).2 = Throw (ExnRuntime "filesystem_error").
Proof.
  cbn zeta. intros Hi Hc He Hn Ht Hw. unfold rotator_timer, rotate, reopen, influx_reopen, close_stream, on_app. mrun. rewrite Hc. cbn. rewrite Hi. cbn.
  unfold plain_path in He. rewrite He, Hn. cbn. unfold on_fs. mrun. unfold fs_rename. rewrite Ht, Hw.
  by rewrite !andb_false_r.
Qed.
End Files.

(** ** The rotator of the day

    [time_log_rotator] with what [mktime] makes of the fields that were never set
    ([LogAppender.get_today_start]) as a number: [today]. *)

Section Day.
Variables (format_time : Z -> string -> list byte) (today : Z -> Z).

Definition day_check_rotate (now : Z) (r : log_rotator) : log_rotator * bool :=
  if now <? lr_next_rotate_time r then (r, false)
  else
    let r := next_suffix format_time "%Y%m%d" (now - ONEDAY) now r in
    (mk_rotator (lr_pre_suffix r) (lr_suffix r) (today now + ONEDAY), true).

#[local] Instance day_rotator : Rotator log_rotator := {|
  check_rotate := day_check_rotate; get_pre_suffix := lr_pre_suffix; get_suffix := lr_suffix |}.

(** Until [mktime] is called it is the rotator of the code. *)
Lemma day_rotator_before now r :
  now < lr_next_rotate_time r -> time_check_rotate format_time ROTATE_TYPE_DAY now r = ((day_check_rotate now r).1, Ok false).
Proof. intros Hn. unfold time_check_rotate, day_check_rotate. mrun. by rewrite (proj2 (Z.ltb_lt _ _) Hn). Qed.

(** After a change of files the name before is the name that was current. *)
Lemma day_rotator_names now r r' :
  lr_suffix r <> [] -> day_check_rotate now r = (r', true) ->
  lr_pre_suffix r' = lr_suffix r /\ lr_suffix r' = format_time now "%Y%m%d".
Proof.
  unfold day_check_rotate. intros Hs. destruct (now <? _); [done|]. intros [= <-]. cbn. by destruct (lr_suffix r).
Qed.
End Day.

(** ** Two days of a log *)

Definition two_days (t : Z) (_ : string) : list byte := if t <? ONEDAY then str "0" else str "1".
Definition day_start (t : Z) : Z := t / ONEDAY * ONEDAY.
#[local] Instance example_rotator : Rotator log_rotator := day_rotator two_days day_start.
Definition anywhere (_ : comps) : bool := true.
Definition one_device (_ _ : comps) : bool := true.
Definition empty_disk : file_system := mk_fs ∅ ∅ ∅ 1.
Definition example_world : log_world := mk_world empty_disk [] (mk_fappender (mk_rotator [] [] 0) [] [] [] None).
Definition first_day : log_rotator := mk_rotator [] (str "0") ONEDAY.

Lemma empty_disk_ok : fs_ok empty_disk.
Proof. by split. Qed.

Ltac opens := split_and!; [by vm_compute|apply (bool_decide_unpack _); vm_compute; reflexivity..].

Definition example_dirs : gset comps := {[ [str "logs"] ]}.
Lemma example_opens suffix :
  suffix = str "0" \/ suffix = str "1" -> can_open anywhere example_dirs (resolve_path [] (str "logs" ++ dated_name (str "game") suffix)).
Proof. intros [-> | ->]; opens. Qed.

Lemma day_suffix now r r' : day_check_rotate two_days day_start now r = (r', true) -> lr_suffix r' = str "0" \/ lr_suffix r' = str "1".
Proof.
  unfold day_check_rotate. destruct (now <? _); [done|]. intros [= <-]. cbn. unfold two_days. destruct (now <? _); auto.
Qed.

Lemma file_appender_refines_witness :
  exists w', (file_appender_construct [] anywhere [] first_day (str "logs") (str "game");;
      file_run [] anywhere one_device CFileAppender [FLog (str "a"); FTimer 5; FLog (str "b"); FTimer 86400; FLog (str "c")])
      example_world = (w', Ok tt) /\
    fs_files (w_fs w') !! [str "logs"; str "game.0.log"] = Some (str "ab") /\
    fs_files (w_fs w') !! [str "logs"; str "game.1.log"] = Some (str "c").
Proof.
  edestruct (file_appender_refines [] anywhere one_device [] example_world first_day (str "logs") (str "game")
    (mk_fs ∅ ∅ example_dirs 1)) as (w' & Hw & Hf).
  - apply empty_disk_ok.
  - vm_compute. reflexivity.
  - apply (example_opens (str "0")). by left.
  - intros now r r' Hr. apply example_opens. exact (day_suffix _ _ _ Hr).
  - exists w'. split; [exact Hw|]. rewrite Hf. split; vm_compute; reflexivity.
Defined.

Lemma influx_first_rotation_example :
  ((file_appender_construct [] anywhere [] first_day (str "logs") (str "game");;
    rotator_timer [] anywhere one_device CInfluxlogAppender 86400) example_world).2 = Fault (AssertFail "false").
Proof.
  eapply (influx_first_rotation_asserts [] anywhere one_device [] example_world first_day (str "logs") (str "game")
    (mk_fs ∅ ∅ example_dirs 1)).
  - apply empty_disk_ok.
  - vm_compute. reflexivity.
  - apply (example_opens (str "0")). by left.
  - by vm_compute.
  - by vm_compute.
  - reflexivity.
Defined.
