(* ===== verification/RwLock.v ===== *)
(** The locks that wrap a library's (source/bee/thread/lock.h): the mutexes, the
    read-write lock, the lock that is none, and their scopes.  What a thread gets
    from a call is as the C++ library and POSIX document it; the spin locks are in
    Threads. *)

From S2P Require Import Prelude.

(** The answer to a call: the lock in its new state, with what the call returns;
    the thread waits; or nothing is promised any more. *)
Inductive lock_result (L A : Type) :=
  | LkDone (l : L) (a : A)
  | LkWait
  | LkUndefined (why : string).
Arguments LkDone {L A} _ _.
Arguments LkWait {L A}.
Arguments LkUndefined {L A} _.

(** What the wrappers have in common: a lock that threads, known by numbers, take
    and give back. *)
Class Lockable (L : Type) := {
  lock : Z -> L -> lock_result L unit;
  try_lock : Z -> L -> lock_result L bool;
  unlock : Z -> L -> lock_result L unit;
}.
Class RwLockable (L : Type) := {
  rdlock : Z -> L -> lock_result L unit;
  try_rdlock : Z -> L -> lock_result L unit;
  wrlock : Z -> L -> lock_result L unit;
  try_wrlock : Z -> L -> lock_result L unit;
  rw_unlock : Z -> L -> lock_result L unit;
}.

(** [empty_lock]. *)
#[export] Instance empty_lock : Lockable unit := {|
  lock _ l := LkDone l tt; try_lock _ l := LkDone l true; unlock _ l := LkDone l tt |}.
#[export] Instance empty_rwlock : RwLockable unit := {|
  rdlock _ l := LkDone l tt; try_rdlock _ l := LkDone l tt; wrlock _ l := LkDone l tt; try_wrlock _ l := LkDone l tt;
  rw_unlock _ l := LkDone l tt |}.

(** [std::mutex]: who has it. *)
Record mutex := mk_mutex { mx_owner : option Z }.
Definition mutex_lock (t : Z) (m : mutex) : lock_result mutex unit :=
  match mx_owner m with
  | None => LkDone (mk_mutex (Some t)) tt
  | Some o => if o =? t then LkUndefined "locked twice" else LkWait
  end.
Definition mutex_try_lock (t : Z) (m : mutex) : lock_result mutex bool :=
  match mx_owner m with
  | None => LkDone (mk_mutex (Some t)) true
  | Some o => if o =? t then LkUndefined "locked twice" else LkDone m false
  end.
Definition mutex_unlock (t : Z) (m : mutex) : lock_result mutex unit :=
  match mx_owner m with
  | Some o => if o =? t then LkDone (mk_mutex None) tt else LkUndefined "not the owner"
  | None => LkUndefined "not the owner"
  end.
#[export] Instance mutex_lockable : Lockable mutex := {|
  lock := mutex_lock; try_lock := mutex_try_lock; unlock := mutex_unlock |}.

(** [std::recursive_mutex]: who has it, and how often beyond the first time. *)
Record resursive_mutex := mk_rmutex { rm_owner : option (Z * nat) }.
Definition rmutex_try_lock (t : Z) (m : resursive_mutex) : lock_result resursive_mutex bool :=
  match rm_owner m with
  | None => LkDone (mk_rmutex (Some (t, 0%nat))) true
  | Some (o, n) => if o =? t then LkDone (mk_rmutex (Some (t, S n))) true else LkDone m false
  end.
Definition rmutex_lock (t : Z) (m : resursive_mutex) : lock_result resursive_mutex unit :=
  match rmutex_try_lock t m with
  | LkDone m true => LkDone m tt
  | LkDone _ false => LkWait
  | LkWait => LkWait
  | LkUndefined why => LkUndefined why
  end.
Definition rmutex_unlock (t : Z) (m : resursive_mutex) : lock_result resursive_mutex unit :=
  match rm_owner m with
  | Some (o, n) =>
      if o =? t then LkDone (mk_rmutex (match n with O => None | S n => Some (t, n) end)) tt
      else LkUndefined "not the owner"
  | None => LkUndefined "not the owner"
  end.
#[export] Instance rmutex_lockable : Lockable resursive_mutex := {|
  lock := rmutex_lock; try_lock := rmutex_try_lock; unlock := rmutex_unlock |}.

(** [pthread_rwlock_t]: the writer or the readers.  POSIX: a thread that locks
    again may deadlock when it holds the lock to write, or wants to write; an
    unlock of a lock that the thread does not hold is undefined. *)
Record rwlock := mk_rwlock { rw_writer : option Z; rw_readers : list Z }.
Definition rw_holds (t : Z) (l : rwlock) : bool :=
  bool_decide (rw_writer l = Some t) || bool_decide (t ∈ rw_readers l).

Definition rwlock_rdlock (t : Z) (l : rwlock) : lock_result rwlock unit :=
  match rw_writer l with
  | None => LkDone (mk_rwlock None (t :: rw_readers l)) tt
  | Some w => if w =? t then LkUndefined "deadlock" else LkWait
  end.
Definition rwlock_wrlock (t : Z) (l : rwlock) : lock_result rwlock unit :=
  if rw_holds t l then LkUndefined "deadlock"
  else match rw_writer l, rw_readers l with
       | None, [] => LkDone (mk_rwlock (Some t) []) tt
       | _, _ => LkWait
       end.
(** The [try] calls: what [pthread_rwlock_try...] answers is not returned. *)
Definition rwlock_try_rdlock (t : Z) (l : rwlock) : lock_result rwlock unit :=
  match rw_writer l with
  | None => LkDone (mk_rwlock None (t :: rw_readers l)) tt
  | Some _ => LkDone l tt
  end.
Definition rwlock_try_wrlock (t : Z) (l : rwlock) : lock_result rwlock unit :=
  match rw_writer l, rw_readers l with
  | None, [] => LkDone (mk_rwlock (Some t) []) tt
  | _, _ => LkDone l tt
  end.
Fixpoint remove_one (t : Z) (l : list Z) : list Z :=
  match l with [] => [] | x :: l => if x =? t then l else x :: remove_one t l end.
Definition rwlock_unlock (t : Z) (l : rwlock) : lock_result rwlock unit :=
  if bool_decide (rw_writer l = Some t) then LkDone (mk_rwlock None (rw_readers l)) tt
  else if bool_decide (t ∈ rw_readers l) then LkDone (mk_rwlock (rw_writer l) (remove_one t (rw_readers l))) tt
  else LkUndefined "not held".
#[export] Instance rwlock_lockable : RwLockable rwlock := {|
  rdlock := rwlock_rdlock; try_rdlock := rwlock_try_rdlock; wrlock := rwlock_wrlock; try_wrlock := rwlock_try_wrlock;
  rw_unlock := rwlock_unlock |}.

(** ** Scopes

    The body runs between the constructor and the destructor of the scope, on a
    state that holds the lock. *)

Section Scopes.
Context {L S : Type}.

Definition under (acquire release : L -> lock_result L unit) (body : L -> S -> lock_result L S) (l : L) (s : S)
    : lock_result L S :=
  match acquire l with
  | LkDone l _ =>
      match body l s with
      | LkDone l s => match release l with LkDone l _ => LkDone l s | LkWait => LkWait | LkUndefined why => LkUndefined why end
      | r => r
      end
  | LkWait => LkWait
  | LkUndefined why => LkUndefined why
  end.

Definition scoped `{!Lockable L} (t : Z) : (L -> S -> lock_result L S) -> L -> S -> lock_result L S :=
  under (lock t) (unlock t).
Definition rdscoped `{!RwLockable L} (t : Z) : (L -> S -> lock_result L S) -> L -> S -> lock_result L S :=
  under (rdlock t) (rw_unlock t).
Definition wrscoped `{!RwLockable L} (t : Z) : (L -> S -> lock_result L S) -> L -> S -> lock_result L S :=
  under (wrlock t) (rw_unlock t).
End Scopes.

(** What is in a scope and locks nothing itself. *)
Definition plainly {L S} (f : S -> S) : L -> S -> lock_result L S := fun l s => LkDone l (f s).

(** ** What the locks promise *)

Definition rwlock_new : rwlock := mk_rwlock None [].

Lemma rwlock_unlock_writer t readers : rwlock_unlock t (mk_rwlock (Some t) readers) = LkDone (mk_rwlock None readers) tt.
Proof. unfold rwlock_unlock. by rewrite bool_decide_eq_true_2. Qed.

Lemma rwlock_unlock_reader t readers : rwlock_unlock t (mk_rwlock None (t :: readers)) = LkDone (mk_rwlock None readers) tt.
Proof.
  unfold rwlock_unlock. rewrite bool_decide_eq_false_2 by done. rewrite bool_decide_eq_true_2 by (by left).
  cbn. by rewrite Z.eqb_refl.
Qed.

Lemma wrscoped_runs {S} t (f : S -> S) s : wrscoped t (plainly f) rwlock_new s = LkDone rwlock_new (f s).
Proof.
  unfold wrscoped, under. change (wrlock t rwlock_new) with (LkDone (mk_rwlock (Some t) []) tt). unfold plainly.
  change (rw_unlock t ?l) with (rwlock_unlock t l). by rewrite rwlock_unlock_writer.
Qed.

Lemma rdscoped_runs {S} t readers (f : S -> S) s :
  rdscoped t (plainly f) (mk_rwlock None readers) s = LkDone (mk_rwlock None readers) (f s).
Proof.
  unfold rdscoped, under. change (rdlock t (mk_rwlock None readers)) with (LkDone (mk_rwlock None (t :: readers)) tt).
  unfold plainly. change (rw_unlock t ?l) with (rwlock_unlock t l). by rewrite rwlock_unlock_reader.
Qed.

(** A lock to write within a lock to write, by the same thread, is not got. *)
Lemma wrlock_again t l l' : rwlock_wrlock t l = LkDone l' tt -> rwlock_wrlock t l' = LkUndefined "deadlock".
Proof.
  unfold rwlock_wrlock. destruct (rw_holds t l); [done|]. destruct (rw_writer l); [done|]. destruct (rw_readers l); [|done].
  intros [= <-]. unfold rw_holds. by rewrite (bool_decide_eq_true_2 (rw_writer _ = _)).
Qed.

(** A scope to write inside another of the same thread is never entered, and
    neither is left. *)
Lemma wrscoped_twice {S} t (before : S -> S) (body : rwlock -> S -> lock_result rwlock S) l s l' s' :
  wrscoped t (fun l s => wrscoped t body l (before s)) l s <> LkDone l' s'.
Proof.
  unfold wrscoped at 1, under at 1. change (wrlock t l) with (rwlock_wrlock t l).
  destruct (rwlock_wrlock t l) as [l1 []| |] eqn:E; [|done..].
  unfold wrscoped, under. change (wrlock t l1) with (rwlock_wrlock t l1). by rewrite (wrlock_again _ _ _ E).
Qed.

(** Calls of threads, each of which is answered at once. *)
Inductive rw_call := RdLock | TryRdLock | WrLock | TryWrLock | RwUnlock.
Definition rw_step (t : Z) (c : rw_call) (l : rwlock) : option rwlock :=
  match (match c with
         | RdLock => rwlock_rdlock t l | TryRdLock => rwlock_try_rdlock t l | WrLock => rwlock_wrlock t l
         | TryWrLock => rwlock_try_wrlock t l | RwUnlock => rwlock_unlock t l
         end) with
  | LkDone l _ => Some l
  | _ => None
  end.
Fixpoint rw_run (calls : list (Z * rw_call)) (l : rwlock) : option rwlock :=
  match calls with [] => Some l | (t, c) :: calls => l ← rw_step t c l; rw_run calls l end.

Definition rw_ok (l : rwlock) : Prop := rw_writer l = None \/ rw_readers l = [].

Lemma rw_step_ok t c l l' : rw_ok l -> rw_step t c l = Some l' -> rw_ok l'.
Proof.
  intros Hl. unfold rw_step. destruct c; unfold rwlock_rdlock, rwlock_try_rdlock, rwlock_wrlock, rwlock_try_wrlock, rwlock_unlock.
  - destruct (rw_writer l) as [w|]; [by destruct (w =? t)|]. intros [= <-]. by left.
  - destruct (rw_writer l) as [w|]; intros [= <-]; [done|]. by left.
  - destruct (rw_holds t l); [done|]. destruct (rw_writer l); [done|]. destruct (rw_readers l); [|done]. intros [= <-]. by right.
  - destruct (rw_writer l) eqn:Ew; [by intros [= <-]|]. destruct (rw_readers l); intros [= <-]; [by right|by left].
  - case_bool_decide; [intros [= <-]; by left|]. case_bool_decide as Hin; [|done]. intros [= <-].
    destruct Hl as [Hl|Hl]; [by left|]. rewrite Hl in Hin. by apply not_elem_of_nil in Hin.
Qed.

(** Whatever the threads call, in whatever order: while one writes none reads. *)
Lemma rwlock_excludes calls l' : rw_run calls rwlock_new = Some l' -> rw_ok l'.
Proof.
  assert (rw_ok rwlock_new) as H by (by left). revert H. generalize rwlock_new.
  induction calls as [|[t c] calls IH]; intros l Hl; cbn; [by intros [= <-]|].
  destruct (rw_step t c l) as [l1|] eqn:E; cbn; [|done]. intros Hr. eapply IH; [|done]. by eapply rw_step_ok.
Qed.

(** After a [try_wrlock] the caller knows nothing: it went well or not, nothing is
    returned, and the unlock that follows is undefined when it did not. *)
Lemma try_wrlock_tells_nothing t w :
  w <> t ->
  rwlock_try_wrlock t rwlock_new = LkDone (mk_rwlock (Some t) []) tt /\
  rwlock_try_wrlock t (mk_rwlock (Some w) []) = LkDone (mk_rwlock (Some w) []) tt /\
  rwlock_unlock t (mk_rwlock (Some w) []) = LkUndefined "not held".
Proof. intros Hw. split; [done|]. split; [done|]. unfold rwlock_unlock. cbn. by rewrite bool_decide_eq_false_2 by congruence. Qed.

(** A recursive mutex locked [n] times is free after [n] unlocks, and not before. *)
Fixpoint rm_times (n : nat) (f : resursive_mutex -> lock_result resursive_mutex unit) (m : resursive_mutex) : option resursive_mutex :=
  match n with O => Some m | S n => match f m with LkDone m _ => rm_times n f m | _ => None end end.

Lemma rmutex_locks t n k : rm_times n (rmutex_lock t) (mk_rmutex (Some (t, k))) = Some (mk_rmutex (Some (t, (k + n)%nat))).
Proof.
  revert k. induction n as [|n IH]; intros k; cbn; [by rewrite Nat.add_0_r|].
  unfold rmutex_lock, rmutex_try_lock. cbn. rewrite Z.eqb_refl. rewrite IH. do 4 f_equal. lia.
Qed.
Lemma rmutex_unlocks t n : rm_times (S n) (rmutex_unlock t) (mk_rmutex (Some (t, n))) = Some (mk_rmutex None).
Proof.
  induction n as [|n IH]; cbn [rm_times]; unfold rmutex_unlock at 1; cbn [rm_owner]; rewrite Z.eqb_refl; [done|exact IH].
Qed.
Lemma rmutex_balanced t n :
  (rm_times n (rmutex_lock t) (mk_rmutex None) ≫= rm_times n (rmutex_unlock t)) = Some (mk_rmutex None).
Proof.
  destruct n as [|n]; [done|]. cbn [rm_times]. unfold rmutex_lock at 1. cbn. rewrite rmutex_locks. cbn [mbind option_bind].
  apply (rmutex_unlocks t n).
Qed.
