(* ===== verification/HttpSession.v ===== *)
(** HTTP connections (source/bee/http/internal/httpsession.h, httpsession.cpp,
    httpsession_manager.cpp, and what of io/session_manager.cpp and io/ioevent.cpp
    they go through): the session that decodes messages, its copies, how
    connections are accepted, and the lock under which the client is told of them. *)

From S2P Require Import Prelude Octets Marshal Session Protocol Network Text Uri Http HttpClient RwLock.

(** ** The session *)

Abbreviation HS := (M httpsession).

Definition hs_with_session (s : session) (h : httpsession) : httpsession := mk_httpsession s (hs_unfinished h).
Definition on_session {A} (c : M session A) : HS A := fun h =>
  let '(s, r) := c (hs_session h) in (hs_with_session s h, r).

Definition httpsession_new (s : session) : httpsession := mk_httpsession s None.

(** [dup]: a copy, of which the members that follow are set again.  The close
    reason, the time of activity and [_write_offset] are not among them. *)
Definition httpsession_dup (h : httpsession) : httpsession :=
  let s := hs_session h in
  mk_httpsession
    (mk_session 0 0 SESSION_STATE_NONE (ses_close_reason s) (ses_last_active s) (ses_manager s) false
       (os_clear (ses_reados s)) (octets_clear (ses_readbuf s)) (ses_write_offset s)
       (os_clear (ses_writeos s)) (octets_clear (ses_writebuf s)))
    None.

(** The loop of [on_recv]: the messages in the order in which they are handed to
    [handle_protocol]. *)
Fixpoint recv_messages (turns fuel : nat) : HS (list http_message) :=
  match turns with
  | O => fail OutOfFuel
  | S turns =>
      h ← get;
      let '(os, h', r) := http_decode fuel (ses_reados (hs_session h)) h in
      put (hs_with_session (ses_with_read os (ses_readbuf (hs_session h')) (hs_session h')) h');;
      m ← lift r;
      match m with
      | None => mret []
      | Some m => ms ← recv_messages turns fuel; mret (m :: ms)
      end
  end.

(** What was read goes from the buffer to the stream, as far as it fits. *)
Definition recv_buffered (now : Z) : M session unit :=
  modify (session_activate now);;
  modify (ses_with_state SESSION_STATE_RECVING);;
  s ← get;
  let readbuf := ses_readbuf s in
  let append_length := Z.min (octets_size readbuf) (octets_free_space (os_data (ses_reados s))) in
  on_reados (on_data (fun d => octets_append d (o_buf readbuf) append_length));;
  readbuf ← lift (octets_erase readbuf 0 append_length);
  modify (fun s => ses_with_read (ses_reados s) readbuf s).

Definition http_on_recv (now : Z) (turns fuel : nat) : HS (list http_message) :=
  on_session (recv_buffered now);;
  ms ← recv_messages turns fuel;
  on_session (on_reados try_shrink);;
  mret ms.

Definition http_on_send (now : Z) (h : httpsession) : httpsession :=
  hs_with_session (session_on_send now (session_activate now (hs_session h))) h.

Lemma recv_buffered_spec now s inb buf :
  ses_in s inb buf ->
  exists s', recv_buffered now s = (s', Ok tt) /\
    let k := Z.to_nat (Z.min (len buf) (octets_free_space (os_data (ses_reados s)))) in
    ses_in s' (inb ++ take k buf) (drop k buf) /\ os_pos (ses_reados s') = os_pos (ses_reados s) /\
    ses_state s' = SESSION_STATE_RECVING.
Proof.
  intros Hin. pose proof Hin as [Ho Hb]. pose proof (repr_len _ _ Hb) as Hlb.
  set (k := Z.min (len buf) (octets_free_space (os_data (ses_reados s)))).
  destruct (recv_append s inb buf k Hin eq_refl) as (d & rb & E1 & E2 & Hd & Hrb & _).
  set (s0 := ses_with_state SESSION_STATE_RECVING (session_activate now s)).
  exists (ses_with_read (os_with_data d (ses_reados s)) rb s0).
  pose proof Ho as [_ Hp]. pose proof (len_nonneg (take (Z.to_nat k) buf)). split; [|split; [split|]]; try done.
  - unfold recv_buffered. rewrite (M_bind_ok _ _ s (session_activate now s) tt) by done.
    rewrite (M_bind_ok _ _ _ s0 tt) by done. rewrite M_get. cbv zeta.
    change (ses_readbuf s0) with (ses_readbuf s). change (ses_reados s0) with (ses_reados s).
    change (octets_size (ses_readbuf s)) with (o_len (ses_readbuf s)). rewrite Hlb. fold k.
    rewrite (M_bind_ok _ _ s0 (ses_with_read (os_with_data d (ses_reados s)) (ses_readbuf s) s0) tt).
    2:{ unfold on_reados, on_data. change (ses_reados s0) with (ses_reados s). by rewrite E1. }
    unfold lift. unfold mbind, M_bind. by rewrite E2.
  - split; [done|]. cbn. rewrite len_app. lia.
Qed.

(** C24 — Whatever bytes an HTTP session without a message in progress receives, no
    message is handed on: the session is being closed for an exception instead. *)
Theorem http_on_recv_closes now turns fuel h inb buf :
  (0 < turns)%nat ->
  ses_in (hs_session h) inb buf -> hs_unfinished h = None ->
  os_pos (ses_reados (hs_session h)) < len inb + Z.min (len buf) (octets_free_space (os_data (ses_reados (hs_session h)))) ->
  exists h', http_on_recv now turns fuel h = (h', Ok []) /\
    ses_state (hs_session h') = SESSION_STATE_CLOSING /\
    ses_close_reason (hs_session h') = SESSION_CLOSE_REASON_EXCEPTION /\ hs_unfinished h' = None.
Proof.
  intros Ht Hin Hu Hpos. destruct turns as [|turns]; [lia|].
  destruct (recv_buffered_spec now _ _ _ Hin) as (s1 & E1 & Hin1 & Hp1 & _).
  set (k := Z.min (len buf) _) in *. unfold http_on_recv.
  rewrite (M_bind_ok _ _ h (hs_with_session s1 h) tt) by (unfold on_session; by rewrite E1).
  destruct (http_never_decodes fuel (ses_reados s1) _ (hs_with_session s1 h) (in_os _ _ _ Hin1)) as (os & Ed & Hok); [|done|].
  { rewrite Hp1, len_app. unfold len in *. rewrite length_take.
    assert (0 <= octets_free_space (os_data (ses_reados (hs_session h)))) by (unfold octets_free_space; apply wrapU_range; lia). lia. }
  destruct Hok as (bs & Hrepr & _). destruct (try_shrink_ok os bs Hrepr) as (os2 & bs2 & Es & _).
  cbn [recv_messages]. set (s2 := session_set_close SESSION_CLOSE_REASON_EXCEPTION s1) in *.
  set (h2 := mk_httpsession (ses_with_read os (ses_readbuf s2) s2) None).
  rewrite (M_bind_ok _ _ (hs_with_session s1 h) h2 []).
  2:{ rewrite M_get. cbn [hs_session hs_with_session]. cbn [hs_session hs_with_session] in Ed. rewrite Ed. done. }
  rewrite (M_bind_ok _ _ h2 (hs_with_session (ses_with_read os2 (ses_readbuf s2) (hs_session h2)) h2) tt).
  2:{ unfold on_session, on_reados. cbn [hs_session h2 ses_reados ses_with_read]. by rewrite Es. }
  eexists. split; [reflexivity|]. done.
Qed.

(** Bytes left unsent when a session is copied make the copy's offset lie beyond
    its empty buffer: the bytes to send are counted around the width of the
    counter. *)
Lemma dup_keeps_offset h :
  let s := hs_session (httpsession_dup h) in
  ses_write_offset s = ses_write_offset (hs_session h) /\ octets_size (ses_writebuf s) = 0 /\
  (0 < ses_write_offset s < 2 ^ 64 ->
   u64 (octets_size (ses_writebuf s) - ses_write_offset s) = 2 ^ 64 - ses_write_offset s).
Proof.
  cbn. split; [done|]. split; [done|]. intros Hr. unfold wrapU. rewrite Z.sub_0_l.
  rewrite Z_mod_nz_opp_full; rewrite Z.mod_small by lia; lia.
Qed.

(** ** Accepting connections

    The listening event's session is copied for each connection that is accepted,
    at a new address; the copy is given an event and opened, and the event is used
    again. *)

Definition accept_dup (dup : session -> SM session) (proto p : Z) : SM unit :=
  s ← sm_deref proto;
  s ← dup s;
  sm_store p (ses_with_event true s);;
  session_set_open p;;
  _ ← sm_deref p;
  mret tt.

Definition session_dup_virtual (s : session) : SM session := sid ← get_next_sessionid; mret (session_dup sid s).
Definition httpsession_dup_virtual (s : session) : SM session := mret (hs_session (httpsession_dup (httpsession_new s))).

(** What accepting leaves: the copy is open and known under its number. *)
Definition accepted (m m' : session_manager) (sid p : Z) : Prop :=
  sm_sessions m' = <[sid := p]> (sm_sessions m) /\
  exists s, sm_heap m' = <[p := s]> (sm_heap m) /\ ses_sid s = sid /\ ses_state s = SESSION_STATE_ACTIVE.

Lemma sm_deref_ok p m s : sm_heap m !! p = Some s -> sm_deref p m = (m, Ok s).
Proof. intros H. unfold sm_deref. by rewrite H. Qed.

Lemma accept_opens dup proto p m s s' m1 :
  sm_heap m !! proto = Some s -> dup s m = (m1, Ok s') -> sm_heap m1 = sm_heap m -> sm_sessions m1 = sm_sessions m ->
  p <> 0 -> sm_sessions m !! ses_sid s' = None ->
  exists m', accept_dup dup proto p m = (m', Ok tt) /\ accepted m m' (ses_sid s') p.
Proof.
  intros Hp Hd Hh Hs Hp0 Hfree. unfold accept_dup. rewrite (M_bind_ok _ _ _ _ _ (sm_deref_ok _ _ _ Hp)), (M_bind_ok _ _ _ _ _ Hd).
  unfold session_set_open, sm_deref, sm_store, add_session. mrun. cbn. rewrite ?lookup_insert_eq.
  rewrite (proj2 (Z.eqb_neq p 0)) by done. cbn. rewrite Hs, Hfree. cbn. rewrite lookup_insert_eq.
  eexists. split; [reflexivity|]. split; [done|]. cbn. rewrite insert_insert_eq, Hh. by eexists.
Qed.

Lemma accept_taken dup proto p m s s' m1 q :
  sm_heap m !! proto = Some s -> dup s m = (m1, Ok s') -> sm_sessions m1 = sm_sessions m ->
  p <> 0 -> sm_sessions m !! ses_sid s' = Some q ->
  (accept_dup dup proto p m).2 = Fault (UB "session destroyed twice").
Proof.
  intros Hp Hd Hs Hp0 Htaken. unfold accept_dup. rewrite (M_bind_ok _ _ _ _ _ (sm_deref_ok _ _ _ Hp)), (M_bind_ok _ _ _ _ _ Hd).
  unfold session_set_open, add_session, sm_delete, sm_deref, sm_store. mrun. cbn. rewrite ?lookup_insert_eq.
  rewrite (proj2 (Z.eqb_neq p 0)) by done. cbn. rewrite Hs, Htaken. cbn. rewrite ?lookup_insert_eq. done.
Qed.

(** C23 — Every copy of an HTTP session has the number zero: a server accepts one
    connection, and while it lasts a second one deletes the session just made, whose
    event deletes it again.  A session of the base class takes the next number and is
    accepted beside the others. *)
Theorem http_server_one_connection m proto s p1 p2 :
  sm_heap m !! proto = Some s -> sm_sessions m !! 0 = None -> p1 <> 0 -> p2 <> 0 -> p1 <> proto ->
  exists m1, accept_dup httpsession_dup_virtual proto p1 m = (m1, Ok tt) /\ accepted m m1 0 p1 /\
    (accept_dup httpsession_dup_virtual proto p2 m1).2 = Fault (UB "session destroyed twice") /\
    (sm_sessions m1 !! u64 (sm_next_sessionid m1 + 1) = None ->
     exists m2, accept_dup session_dup_virtual proto p2 m1 = (m2, Ok tt) /\
       accepted m1 m2 (u64 (sm_next_sessionid m1 + 1)) p2).
Proof.
  intros Hp Hfree Hp1 Hp2 Hne.
  edestruct (accept_opens httpsession_dup_virtual proto p1 m s) as (m1 & E1 & Ha); try done. exists m1.
  pose proof Ha as (Hs1 & s1 & Hh1 & _). cbn in Hs1, Hh1, Ha.
  assert (sm_heap m1 !! proto = Some s) as Hp' by (by rewrite Hh1, lookup_insert_ne).
  split; [done|]. split; [done|]. split.
  - eapply accept_taken; try done. cbn. by rewrite Hs1, lookup_insert_eq.
  - intros Hn. edestruct (accept_opens session_dup_virtual proto p2 m1 s) as (m2 & E2 & Ha2); try done. by exists m2.
Qed.

(** ** The client is told of its sessions

    [add_session] and [del_session] hold the manager's lock while they call
    [on_add_session] and [on_del_session], and those of the client take it again. *)

Section Told.
Context {L : Type} `{!RwLockable L}.
Variable order : headers -> list (list byte * list byte).

Definition client_add_session (t now sid : Z) (ses : session) : L -> httpclient -> lock_result L httpclient :=
  wrscoped t (fun l c =>
    let c := hc_with_sessions (<[sid := ses]> (hc_sessions c)) c in
    wrscoped t (plainly (fun c =>
      (advance_all order now (hc_with_connections ({[sid]} ∪ hc_idle c) (hc_busy c) (hc_pending c) c)).1)) l c).

Definition client_del_session (t now sid : Z) : L -> httpclient -> lock_result L httpclient :=
  wrscoped t (fun l c =>
    let c := hc_with_sessions (delete sid (hc_sessions c)) c in
    wrscoped t (plainly (fun c =>
      (advance_all order now (hc_with_connections (hc_idle c ∖ {[sid]}) (delete sid (hc_busy c)) (hc_pending c) c)).1)) l c).
End Told.

(** With the lock that is none, and a session whose number is free, the client's
    operations are what HttpClient has for the build without threads. *)
Lemma client_told_unlocked order t now sid ses c : hc_sessions c !! sid = None ->
  client_add_session order t now sid ses tt c = LkDone tt (client_add_session_nolock false order now sid ses c).1 /\
  client_del_session order t now sid tt c = LkDone tt (client_del_session_nolock false order now sid c).1.
Proof.
  intros Hs. split; [|done]. unfold client_add_session_nolock. rewrite M_get, Hs. done.
Qed.

(** With threads the client can be told of no session: whatever the state of
    the lock, neither call returns, for each waits for a lock that its own thread
    holds. *)
Lemma client_told_deadlocks order t now sid ses (l l' : rwlock) c c' :
  client_add_session order t now sid ses l c <> LkDone l' c' /\
  client_del_session order t now sid l c <> LkDone l' c'.
Proof.
  split; [exact (wrscoped_twice t (fun c => hc_with_sessions (<[sid := ses]> (hc_sessions c)) c) _ l c l' c')|].
  exact (wrscoped_twice t (fun c => hc_with_sessions (delete sid (hc_sessions c)) c) _ l c l' c').
Qed.

(** ** Witnesses *)

Definition received_session : session :=
  mk_session 7 5 SESSION_STATE_ACTIVE SESSION_CLOSE_REASON_NONE 0 9 true
    (mk_os (mk_octets (repeat None 64) 0 64) 0 0)
    (mk_octets ((Some <$> demo_request_bytes) ++ []) (len demo_request_bytes) (len demo_request_bytes))
    0 os_null octets_null.

Lemma http_on_recv_closes_witness :
  exists h', http_on_recv 3 1 10 (mk_httpsession received_session None) = (h', Ok []) /\
    ses_state (hs_session h') = SESSION_STATE_CLOSING /\
    ses_close_reason (hs_session h') = SESSION_CLOSE_REASON_EXCEPTION /\ hs_unfinished h' = None.
Proof.
  apply (http_on_recv_closes 3 1 10 (mk_httpsession received_session None) [] demo_request_bytes).
  - lia.
  - split.
    + split; [|by vm_compute]. apply cells_repr, (cells_join [] (repeat None 64)); by vm_compute.
    + apply cells_repr, cells_join; [done|done|by vm_compute].
  - done.
  - by vm_compute.
Defined.

Definition listening : session_manager := mk_manager 0 [] 0 5 ∅ {[ 1 := demo_session ]}.

Lemma http_server_one_connection_witness :
  exists m1, accept_dup httpsession_dup_virtual 1 2 listening = (m1, Ok tt) /\ accepted listening m1 0 2 /\
    (accept_dup httpsession_dup_virtual 1 3 m1).2 = Fault (UB "session destroyed twice") /\
    (sm_sessions m1 !! u64 (sm_next_sessionid m1 + 1) = None ->
     exists m2, accept_dup session_dup_virtual 1 3 m1 = (m2, Ok tt) /\
       accepted m1 m2 (u64 (sm_next_sessionid m1 + 1)) 3).
Proof. by apply (http_server_one_connection listening 1 demo_session 2 3). Defined.
