(* ===== verification/HttpFront.v ===== *)
(** The outer face of the HTTP client and server (source/bee/http/httpclient.h,
    httpclient.cpp, httpserver.h, httpserver.cpp, httpprotocol.cpp,
    internal/servlet.cpp): starting them, the address of the client's peer, a
    function per method, the check of a request's headers, and what arrives. *)

From S2P Require Import Prelude Octets Marshal Session Text Uri Http HttpClient Servlet Config Address Startup.

(** ** The client's peer *)

Section Client.
Context {I4 I6 : Type}.
Variables (inet_pton4 : list byte -> option I4) (inet_pton6 : list byte -> option I6).
Variable getaddrinfo : list byte -> option (list byte) -> Z -> Z -> Z -> option (list (Z * list byte * Z)).

(** What [init] and [refresh_dns] set: the manager's setup, [_uri], [_dns] and the
    time a task has. *)
Record client_start := mk_cstart {
  cl_setup : @manager_setup I4 I6;
  cl_uri : uri;
  cl_dns_host : list byte;
  cl_dns_port : Z;
  cl_http_task_timeout : Z;
}.
Abbreviation CS := (M client_start).

Definition cl_with_setup m (c : client_start) := mk_cstart m (cl_uri c) (cl_dns_host c) (cl_dns_port c) (cl_http_task_timeout c).
Definition cl_with_uri x (c : client_start) := mk_cstart (cl_setup c) x (cl_dns_host c) (cl_dns_port c) (cl_http_task_timeout c).
Definition cl_with_dns host port (c : client_start) := mk_cstart (cl_setup c) (cl_uri c) host port (cl_http_task_timeout c).
Definition cl_with_timeout t (c : client_start) := mk_cstart (cl_setup c) (cl_uri c) (cl_dns_host c) (cl_dns_port c) t.

Definition on_setup {A} (f : M manager_setup A) : CS A := fun c =>
  let '(m, r) := f (cl_setup c) in (cl_with_setup m c, r).

Definition refresh_dns (uri_str : list byte) : CS bool :=
  (match uri_str with [] => mret tt | _ => x ← lift (uri_parse uri_str); modify (cl_with_uri x) end);;
  c ← get;
  if negb (uri_is_valid (cl_uri c)) then mret false
  else
    let host := uri_host (cl_uri c) in
    modify (cl_with_dns host (uri_port (cl_uri c)));;
    match lookup_any inet_pton4 inet_pton6 getaddrinfo host (ms_family (cl_setup c)) (ms_socktype (cl_setup c)) 0 with
    | None => mret false
    | Some addr => on_setup (modify (set_addr (Some addr)));; mret true
    end.

Variables (cfg : SECTION_MAP) (ssl : ssl_calls).

Definition client_init (asserts : bool) : CS unit :=
  timeout ← on_setup (http_manager_init inet_pton4 inet_pton6 (str "httpclient") cfg ssl asserts);
  modify (cl_with_timeout timeout);;
  x ← lift (uri_parse (config_get (str "httpclient") (str "uri") [] cfg));
  modify (cl_with_uri x);;
  (if asserts && negb (uri_is_valid x) then fail (AssertFail "_uri.is_valid()") else mret tt);;
  found ← refresh_dns [];
  if asserts && negb found then fail (AssertFail "false") else mret tt.

(** The uri's port is kept beside, and the address connected to has none of it:
    whatever the port, the client's address is the same. *)
Lemma refresh_dns_forgets_port c port :
  let c' := cl_with_uri (uri_with_hostport (uri_host (cl_uri c)) port (cl_uri c)) c in
  ms_addr (cl_setup (refresh_dns [] c).1) = ms_addr (cl_setup (refresh_dns [] c').1) /\
  (refresh_dns [] c).2 = (refresh_dns [] c').2.
Proof.
  unfold refresh_dns, on_setup. mrun.
  assert (forall x, uri_is_valid (uri_with_hostport (uri_host x) port x) = uri_is_valid x) as Hv by done.
  cbn [cl_uri cl_with_uri]. rewrite Hv. destruct (uri_is_valid _); [|done]. cbn.
  by destruct (lookup_any _ _ _ _ _ _).
Qed.
End Client.
Arguments client_start : clear implicits.

(** ** Requests by method *)

Section Methods.
Variable order : headers -> list (list byte * list byte).
(** The clock, and the arguments the methods share. *)
Variables (now : Z) (path : list byte) (timeout : Z) (hs : list (list byte * list byte)).
Let send (method : HTTP_METHOD) (body : list byte) : M httpclient Z := send_request order now method path timeout hs body.

Definition client_get : M httpclient Z := send HTTP_METHOD_GET [].
Definition client_post (body : list byte) : M httpclient Z := send HTTP_METHOD_POST body.
Definition client_put (body : list byte) : M httpclient Z := send HTTP_METHOD_PUT body.
Definition client_del : M httpclient Z := send HTTP_METHOD_DELETE [].
Definition client_head : M httpclient Z := send HTTP_METHOD_HEAD [].
Definition client_options : M httpclient Z := send HTTP_METHOD_OPTIONS [].
Definition client_patch (body : list byte) : M httpclient Z := send HTTP_METHOD_PATCH body.
Definition client_trace : M httpclient Z := send HTTP_METHOD_TRACE [].
End Methods.

(** [handle_protocol]: the client takes responses, the server requests; a message
    of the other kind, or none, is dropped. *)
Definition client_handle_protocol reentrant order (now sid : Z) (pool_first : bool) (m : option http_message) : M httpclient unit :=
  match m with Some (http_response rsp) => handle_response reentrant order now sid rsp pool_first | _ => mret tt end.

(** ** [check_headers] *)

Definition MAX_BODY_SIZE : Z := 1024 * 1024.
Definition MAX_HEADERS : Z := 64.
Definition ALLOWED_HEADERS : list (list byte) :=
  [str "host"; str "user-agent"; str "accept"; str "content-length"; str "content-type"; str "connection"].

(** The name in small letters is written from the beginning of an empty string;
    what is then compared is the empty string. *)
Definition lowered_name (k : list byte) : outcome (list byte) :=
  match k with [] => Ok [] | _ => Fault (UB "write behind the end of a string") end.
Definition name_chars : list byte := str "abcdefghijklmnopqrstuvwxyz-".

Fixpoint check_names (names : list (list byte)) : outcome bool :=
  match names with
  | [] => Ok true
  | k :: names =>
      key ← lowered_name k;
      if negb (forallb (fun c => is_in name_chars c) key) then Ok false
      else if negb (bool_decide (key ∈ ALLOWED_HEADERS)) then Ok false
      else check_names names
  end.

Definition check_headers (order : headers -> list (list byte * list byte)) (h : httpprotocol) : outcome bool :=
  if len (get_header (str "content-length") h) >? MAX_BODY_SIZE then Ok false
  else if negb (has_header (str "host") h) then Ok false
  else if Z.of_nat (size (hp_headers h)) >? MAX_HEADERS then Ok false
  else if has_header (str "transfer-encoding") h && has_header (str "content-length") h then Ok false
  else check_names (order (hp_headers h)).*1.

(** No request passes: a header is needed, and the first one is refused or
    written to where there is no room. *)
Lemma check_headers_never order h :
  (forall m, Permutation (order m) (map_to_list m)) -> check_headers order h <> Ok true.
Proof.
  intros Ho. unfold check_headers. destruct (_ >? _); [done|].
  destruct (has_header (str "host") h) eqn:Hh; [|done]. cbn [negb].
  destruct (_ >? _); [done|]. destruct (_ && _); [done|].
  destruct (order (hp_headers h)) as [|[k v] l] eqn:E.
  - unfold has_header in Hh. apply bool_decide_eq_true in Hh as [v Hv].
    apply elem_of_map_to_list in Hv. rewrite <- Ho, E in Hv. by apply not_elem_of_nil in Hv.
  - cbn. destruct k as [|c k]; cbn; [|done].
    rewrite bool_decide_eq_false_2; [done|]. unfold ALLOWED_HEADERS. set_solver.
Qed.

(** ** The server *)

Section Server.
Context {U : Type}.
Variables (user_handle : U -> servlet_handler) (user_dup : U -> U) (fnmatch : list byte -> list byte -> bool).
Variable order : headers -> list (list byte * list byte).
Variable cfg : SECTION_MAP.

(** What [init] makes beside the manager: the dispatcher with its own servlet. *)
Definition server_dispatcher : @servlet_dispatcher U :=
  add_servlet (str "/_/config") ConfigServlet servlet_dispatcher_new.

Definition server_init {I4 I6} (pton4 : list byte -> option I4) (pton6 : list byte -> option I6) (ssl : ssl_calls)
    (asserts : bool) : M manager_setup (Z * @servlet_dispatcher U) :=
  timeout ← http_manager_init pton4 pton6 (str "httpserver") cfg ssl asserts;
  mret (timeout, server_dispatcher).

Definition server_handle_protocol (now sid : Z) (expires : list byte) (m : option http_message)
    : M (@httpserver U) unit :=
  match m with Some (http_request req) => handle_request user_dup fnmatch order now sid expires req | _ => mret tt end.

(** [reply]: plain text unless told otherwise. *)
Definition server_reply_text (taskid : Z) (result : list byte) : M (@httpserver U) unit :=
  server_finish_task order taskid HTTP_CONTENT_TYPE_PLAIN result.
Definition server_reply (taskid : Z) (content_type : HTTP_CONTENT_TYPE) (result : list byte) : M (@httpserver U) unit :=
  server_finish_task order taskid content_type result.

(** [servlet_dispatcher::handle]: what the servlet answers is not handed on. *)
Definition dispatcher_handle (d : @servlet_dispatcher U) (req : httprequest) (rsp : httpresponse)
    : outcome (list servlet_act * Z) :=
  let srv := match get_matched_servlet user_dup fnmatch (hq_path req) d with Some srv => srv | None => sd_default d end in
  r ← servlet_handle user_handle cfg srv req rsp;
  Ok (r.1, 0).

Definition not_found_dup (srv : @servlet_class U) : @servlet_class U :=
  match srv with
  | NotFoundServlet name content => match not_found_servlet name with NotFoundServlet n _ => NotFoundServlet n content | s => s end
  | s => s
  end.

(** A failure of a servlet is reported as success. *)
Lemma dispatcher_handle_zero d req rsp acts code : dispatcher_handle d req rsp = Ok (acts, code) -> code = 0.
Proof.
  unfold dispatcher_handle. intros H. apply outcome_bind_Ok in H as (r & _ & H). by injection H as _ <-.
Qed.
End Server.

(** The limits of what is read. *)
Definition request_maxsize (cfg : SECTION_MAP) : outcome Z :=
  config_get_int u64 (str "http") (str "max_request_size") (1024 * 1024) cfg.
Definition response_maxsize (cfg : SECTION_MAP) : outcome Z :=
  config_get_int u64 (str "http") (str "max_response_size") (1024 * 1024) cfg.
