(* ===== verification/Programs.v ===== *)
(** The three programs (source/casso/main.cpp, source/client/client.cpp,
    source/client/network/, source/logserver/logserver.cpp): their arguments, what
    they start and in which order, the threads they wait for, how the signal ends them, the client's
    connection, and the server of the example call.  The loop in between is
    Startup's. *)

From S2P Require Import Prelude Octets Marshal Text TimeWheel.

(** ** Arguments

    [argv] ends with a null pointer, which is no string. *)

Record main_args := mk_main_args { ma_configs : list (list byte); ma_unprocessed : list (list byte) }.

Fixpoint main_parse (args : list (list byte)) : M main_args unit :=
  match args with
  | [] => mret tt
  | arg :: args =>
      if bool_decide (arg = str "--config") then
        match args with
        | [] => fail (UB "null pointer for a string")
        | file :: args =>
            modify (fun m => mk_main_args (ma_configs m ++ [file]) (ma_unprocessed m));; main_parse args
        end
      else modify (fun m => mk_main_args (ma_configs m) (ma_unprocessed m ++ [arg]));; main_parse args
  end.

Inductive program := Cassobee | Client | Logserver.

(** ** Threads

    A [std::thread] that is joinable; joining one that is not throws. *)
Definition thread_join (joinable : bool) : outcome unit :=
  if joinable then Ok tt else Throw (ExnRuntime "std::system_error: Invalid argument").

(** Without the timer thread an empty [std::thread] is given back. *)
Definition start_threadpool_and_timer (use_timer_thread : bool) : bool := use_timer_thread.

(** [-with-cmd] is looked for in the first argument only. *)
Definition with_cli (p : program) (args : list (list byte)) : bool :=
  match p, args with
  | Client, arg :: _ => bool_decide (arg = str "-with-cmd")
  | _, _ => false
  end.

(** [main], with what the configuration says of the timer thread; the reactor's
    loop ends in between. *)
Definition main (p : program) (args : list (list byte)) (use_timer_thread : main_args -> bool) : outcome Z :=
  match p, args with
  | (Cassobee | Logserver), ([] | [_]) => Ok (-1)
  | _, _ =>
      let cli_thread := with_cli p args in
      let '(m, r) := main_parse args (mk_main_args [] []) in
      _ ← r;
      let timer_thread := start_threadpool_and_timer (use_timer_thread m) in
      _ ← thread_join timer_thread;
      _ ← (if (cli_thread : bool) then thread_join cli_thread else Ok tt);
      Ok 0
  end.

(** ** What is started, and in which order *)

Inductive service := LogserverManager | LogclientManager | ClientManager | ServerManager | HttpServer | HttpClientService.
(** The timers that main adds: a line of the log at a level, and the requests of
    the client. *)
Inductive timer_work := LogLine (level : list byte) (value : Z) | HttpGet (path : list byte) | ExampleCall (param1 param2 : Z).
Inductive main_call :=
| LogInit | SetProcessName (name : list byte) | SetLogserver
| ReactorInit | AddSignal (signum : Z) | StartThreads | LogManagerInit
| ServiceInit (s : service) | Connect (s : service) | Listen (s : service)
| Sleep (seconds : Z) | AddTimer (ms : Z) (work : timer_work)
| MonitorInit | MonitorStart | ReactorRun.

Definition SIGUSR1 : Z := 10.

(** The beginning that the programs share, and the connection to the log
    server. *)
Definition calls_first (name : list byte) : list main_call :=
  [LogInit; SetProcessName name; ReactorInit; AddSignal SIGUSR1; StartThreads].
Definition calls_logserver : list main_call :=
  [ServiceInit LogserverManager; Connect LogserverManager; SetLogserver].

Definition log_timers : list main_call :=
  [AddTimer 1000 (LogLine (str "DEBUG") 10); AddTimer 2000 (LogLine (str "INFO") 10);
   AddTimer 1500 (LogLine (str "WARN") 10); AddTimer 2000 (LogLine (str "ERROR") 10);
   AddTimer 2500 (LogLine (str "FATAL") 10)].

(** The trial between the timers and the monitor, which touches none of this, is
    in Containers. *)
Definition main_calls (p : program) : list main_call :=
  match p with
  | Cassobee => calls_first (str "cassobee") ++ calls_logserver ++
      [ServiceInit ClientManager; Listen ClientManager; ServiceInit HttpServer; Listen HttpServer; Sleep 3] ++
      log_timers ++ [MonitorInit; MonitorStart; ReactorRun]
  | Logserver => calls_first (str "logserver") ++
      [LogManagerInit; ServiceInit LogclientManager; Listen LogclientManager; ReactorRun]
  | Client => calls_first (str "client") ++ calls_logserver ++
      [ServiceInit ServerManager; Connect ServerManager; ServiceInit HttpClientService;
       AddTimer 1000 (HttpGet (str "/test/hello")); AddTimer 1000 (ExampleCall 1 2); ReactorRun]
  end.

(** Each service is initialised before it connects or listens, and nothing is
    added to the reactor or to the wheel before the reactor is initialised and
    the threads are started. *)
Definition needs (c : main_call) : list main_call :=
  match c with
  | SetProcessName _ => [LogInit]
  | AddSignal _ | StartThreads => [ReactorInit]
  | Connect s | Listen s => [ServiceInit s; ReactorInit; StartThreads]
  | AddTimer _ _ | ReactorRun => [ReactorInit; StartThreads]
  | MonitorStart => [MonitorInit; StartThreads]
  | SetLogserver => [LogInit; ServiceInit LogserverManager]
  | _ => []
  end.
#[export] Instance service_eq_dec : EqDecision service.
Proof. solve_decision. Defined.
#[export] Instance timer_work_eq_dec : EqDecision timer_work.
Proof. solve_decision. Defined.
#[export] Instance main_call_eq_dec : EqDecision main_call.
Proof. solve_decision. Defined.

Lemma main_calls_ordered p pre c post :
  main_calls p = pre ++ c :: post -> Forall (fun d => d ∈ pre) (needs c).
Proof.
  set (check := fix check (pre l : list main_call) : bool :=
    match l with
    | [] => true
    | c :: l => forallb (fun d => bool_decide (d ∈ pre)) (needs c) && check (pre ++ [c]) l
    end).
  assert (Hcheck : forall l pre0, check pre0 l = true -> forall pre c post, l = pre ++ c :: post ->
    Forall (fun d => d ∈ pre0 ++ pre) (needs c)).
  { clear. induction l as [|x l IH]; intros pre0 H pre c post E; [by destruct pre|].
    apply andb_true_iff in H as [H1 H2]. destruct pre as [|y pre]; injection E as -> E.
    - rewrite app_nil_r. apply Forall_forall. intros d Hd. rewrite forallb_forall in H1.
      eapply bool_decide_eq_true_1, H1. by apply list_elem_of_In.
    - replace (pre0 ++ y :: pre) with ((pre0 ++ [y]) ++ pre) by by rewrite <- app_assoc. by eapply IH. }
  intros E. eapply (Hcheck (main_calls p) []); [|exact E]. by destruct p; vm_compute.
Qed.

(** What the handler of SIGUSR1 leaves: a timer that runs once. *)
Inductive shutdown_step := StopTimewheel | StopThreadpool | StopReactor.
Definition sigusr1_handler : Z * (list shutdown_step * bool) * bool :=
  (3000, ([StopTimewheel; StopThreadpool; StopReactor], false), true).

(** Arguments are read in their order: each [--config] takes the next one, the
    others are left. *)
Lemma main_parse_app args1 args2 m :
  (main_parse args1 m).2 = Ok tt -> main_parse (args1 ++ args2) m = main_parse args2 (main_parse args1 m).1.
Proof.
  assert (forall n args1 m, (length args1 <= n)%nat -> (main_parse args1 m).2 = Ok tt ->
    main_parse (args1 ++ args2) m = main_parse args2 (main_parse args1 m).1) as H; [|by eapply H].
  clear. induction n as [|n IH]; intros args1 m Hn Hok; (destruct args1 as [|arg args1]; [done|cbn in Hn; try lia]).
  cbn [app main_parse] in *. destruct (bool_decide (arg = str "--config")).
  - destruct args1 as [|file args1]; [done|]. cbn [app]. rewrite M_modify in *. apply IH; [cbn in Hn; lia|done].
  - rewrite M_modify in *. apply IH; [lia|done].
Qed.

(** A [--config] at the end reads the null pointer behind the arguments. *)
Lemma main_config_last p args m' use :
  main_parse args (mk_main_args [] []) = (m', Ok tt) -> args <> [] ->
  main p (args ++ [str "--config"]) use = Fault (UB "null pointer for a string").
Proof.
  intros Hp Hne. unfold main. assert (main_parse (args ++ [str "--config"]) (mk_main_args [] []) =
    (m', Fault (UB "null pointer for a string"))) as E.
  { rewrite main_parse_app by (by rewrite Hp). by rewrite Hp. }
  rewrite E. destruct p, args as [|a [|b args]]; try done.
Qed.

(** With arguments that are read, a program ends well if and only if its
    configuration asks for the timer thread: without it, joining the thread that
    was never started ends the process by an exception. *)
Lemma main_needs_timer_thread p args m' use :
  main_parse args (mk_main_args [] []) = (m', Ok tt) -> (2 <= length args)%nat ->
  main p args use = if use m' then Ok 0 else Throw (ExnRuntime "std::system_error: Invalid argument").
Proof.
  intros Hp Hl. unfold main. rewrite Hp. destruct args as [|a [|b args]]; [cbn in Hl; lia..|].
  unfold start_threadpool_and_timer, thread_join. destruct (use m'), p; try done. cbn. by destruct (bool_decide _).
Qed.

(** ** The wheel and its thread

    The thread initialises the wheel; the main thread adds its timers without
    waiting for that. *)

(** The singleton before [init]. *)
Definition wheel_static : timewheel := mk_wheel true ∅ tl_empty 0 0 false (fun _ => tl_empty) ∅ [] [].

Inductive start_step := WheelInit (ticktime : Z) | WheelAdd (alloc : option (Z * Z)) (delay : bool) (timeout repeats : Z).

(** A schedule of the two threads: what each [add_timer] gives. *)
Fixpoint start_run (steps : list start_step) : TW (list Z) :=
  match steps with
  | [] => mret []
  | WheelInit ticktime :: steps => put (tw_init ticktime);; start_run steps
  | WheelAdd alloc delay timeout repeats :: steps =>
      id ← tw_add_timer alloc true delay timeout repeats; ids ← start_run steps; mret (id :: ids)
  end.

Definition adds (steps : list start_step) : Prop := Forall (fun s => match s with WheelAdd _ _ _ _ => True | _ => False end) steps.

(** Every timer that is added before the thread has come to [init] is refused,
    and leaves nothing. *)
Lemma timers_before_init_lost steps ticktime rest :
  adds steps ->
  start_run (steps ++ WheelInit ticktime :: rest) wheel_static =
  (ids ← start_run rest; mret (replicate (length steps) (-1) ++ ids)) (tw_init ticktime).
Proof.
  induction 1 as [|[t|alloc delay timeout repeats] steps Hs _ IH]; [|done|].
  - cbn. mrun. by destruct (start_run rest _) as [w [ids| |]].
  - cbn [app start_run]. rewrite (M_bind_ok _ _ wheel_static wheel_static (-1)) by done.
    revert IH. unfold mbind, M_bind. intros ->. destruct (start_run rest _) as [w [ids| |]]; done.
Qed.

(** ** The client's server *)

Record server_manager := mk_svm { svm_localsid : Z; svm_reconnects : Z }.
Definition svm_on_add_session (sid : Z) (m : server_manager) : server_manager := mk_svm sid (svm_reconnects m).
(** A session other than the one in use leaves that one, and connects again. *)
Definition svm_on_del_session (sid : Z) (m : server_manager) : server_manager :=
  mk_svm (if sid =? svm_localsid m then 0 else svm_localsid m) (svm_reconnects m + 1).
(** The session a message is sent on. *)
Definition svm_send (m : server_manager) : option Z := if svm_localsid m =? 0 then None else Some (svm_localsid m).

(** A second connection that comes and goes leaves the client without one,
    though the first is there. *)
Lemma svm_forgets_first sid sid' m :
  svm_send (svm_on_del_session sid' (svm_on_add_session sid' (svm_on_add_session sid m))) = None.
Proof. unfold svm_send, svm_on_del_session, svm_on_add_session. cbn. by rewrite Z.eqb_refl. Qed.

(** ** The example call

    [ExampleRPC::server]: the sum of two [int], and no passing on. *)
Definition example_server (argument : Z * Z) : outcome (Z * bool) :=
  let sum := argument.1 + argument.2 in
  if (- 2 ^ 31 <=? sum) && (sum <? 2 ^ 31) then Ok (sum, false) else Fault (UB "signed overflow").

(** Two numbers that a peer may send are undefined to add. *)
Lemma example_server_overflow a b : 2 ^ 31 <= a + b -> example_server (a, b) = Fault (UB "signed overflow").
Proof.
 intros H. unfold example_server. cbn [fst snd]. rewrite (proj2 (Z.ltb_ge _ _)) by done. by rewrite andb_false_r.
Qed.
