(* ===== verification/Ownership.v ===== *)
(** Who deletes whom (source/bee/io/session.cpp, ioevent.cpp, reactor.cpp,
    session_manager.cpp): a session and its event point to each other and each
    destructor deletes the other object. *)

From S2P Require Import Prelude.

(** Pointers are addresses, [0] is null.  Of an event's status only whether it is
    [EVENT_STATUS_DEL] is looked at. *)
Inductive net_object :=
  | ObSession (sid event : Z)
  | ObEvent (fd ses : Z) (is_close : bool).

(** An object whose destructor has begun is [dying] until it is freed. *)
Record net_objects := mk_net {
  no_heap : gmap Z (bool * net_object);
  no_sessions : gmap Z Z;            (* the manager's table *)
  no_closed : list Z;                (* descriptors closed, in order *)
}.
Abbreviation NT := (M net_objects).

Definition no_with_heap h (s : net_objects) : net_objects := mk_net h (no_sessions s) (no_closed s).
Definition no_with_sessions t (s : net_objects) : net_objects := mk_net (no_heap s) t (no_closed s).
Definition no_close_fd fd (s : net_objects) : net_objects := mk_net (no_heap s) (no_sessions s) (no_closed s ++ [fd]).

(** [session::close]: out of the manager's table, and cleared. *)
Definition object_close (p : Z) : NT unit :=
  s ← get;
  match no_heap s !! p with
  | Some (dying, ObSession sid event) =>
      put (no_with_heap (<[p := (dying, ObSession 0 0)]> (no_heap s)) (no_with_sessions (delete sid (no_sessions s)) s))
  | _ => fail (UB "deleted session")
  end.

(** [delete p]: [session::~session] deletes its event; [netio_event::~netio_event]
    closes its descriptor, closes its session and deletes it. *)
Fixpoint destroy (fuel : nat) (p : Z) : NT unit :=
  match fuel with
  | O => fail OutOfFuel
  | S fuel =>
      if p =? 0 then mret tt
      else
        s ← get;
        match no_heap s !! p with
        | None => fail (UB "deleted twice")
        | Some (true, _) => fail (UB "destroyed while it is being destroyed")
        | Some (false, ObSession sid event) =>
            put (no_with_heap (<[p := (true, ObSession sid event)]> (no_heap s)) s);;
            destroy fuel event;;
            modify (fun s => no_with_heap (delete p (no_heap s)) s)
        | Some (false, ObEvent fd ses closed) =>
            put (no_with_heap (<[p := (true, ObEvent fd ses closed)]> (no_heap s)) s);;
            (if fd >=? 0 then modify (no_close_fd fd) else mret tt);;
            (if ses =? 0 then mret tt else object_close ses;; destroy fuel ses);;
            modify (fun s => no_with_heap (delete p (no_heap s)) s)
        end
  end.

(** Four destructors deep is as deep as two objects go. *)
Definition delete_object (p : Z) : NT unit := destroy 4 p.

(** [evt->is_close()]. *)
Definition event_is_close (p : Z) : NT bool :=
  s ← get;
  match no_heap s !! p with
  | Some (_, ObEvent _ _ closed) => mret closed
  | _ => fail (UB "deleted event")
  end.

(** The loop of [reactor::~reactor] over its table of I/O events: those that
    have been told to close are left alone, and leak. *)
Fixpoint destroy_events (events : list Z) : NT unit :=
  match events with
  | [] => mret tt
  | evt :: events =>
      closed ← event_is_close evt;
      (if (closed : bool) then mret tt else delete_object evt);;
      destroy_events events
  end.

(** A connection: its event, its session, its descriptor, its number, and
    whether its event is to be closed. *)
Record net_connection := mk_net_connection { cx_event : Z; cx_ses : Z; cx_fd : Z; cx_sid : Z; cx_closing : bool }.

Record connected (s : net_objects) (c : net_connection) : Prop := mk_connected {
  cn_event : no_heap s !! cx_event c = Some (false, ObEvent (cx_fd c) (cx_ses c) (cx_closing c));
  cn_ses : no_heap s !! cx_ses c = Some (false, ObSession (cx_sid c) (cx_event c));
  cn_addresses : cx_event c <> 0 /\ cx_ses c <> 0;
  cn_fd : 0 <= cx_fd c;
}.

Lemma connected_distinct s c : connected s c -> cx_event c <> cx_ses c.
Proof. intros [He Hs _ _] E. rewrite E, Hs in He. by injection He. Qed.

(** What deleting the event of a connection leaves. *)
Definition disconnected (c : net_connection) (s : net_objects) : net_objects :=
  mk_net (delete (cx_event c) (delete (cx_ses c) (no_heap s))) (delete (cx_sid c) (no_sessions s)) (no_closed s ++ [cx_fd c]).

Lemma delete_event_deletes s c : connected s c -> delete_object (cx_event c) s = (disconnected c s, Ok tt).
Proof.
  intros Hc. pose proof (connected_distinct _ _ Hc) as Hne. destruct Hc as [He Hs [He0 Hs0] Hfd].
  unfold delete_object. cbn [destroy]. rewrite (proj2 (Z.eqb_neq _ _) He0). rewrite M_get, He.
  rewrite Z.geb_leb, (proj2 (Z.leb_le _ _) Hfd). rewrite (proj2 (Z.eqb_neq _ _) Hs0). mrun. cbn.
  unfold object_close. mrun. cbn. rewrite lookup_insert_ne by done. rewrite Hs. cbn.
  rewrite lookup_insert_eq. cbn. unfold disconnected. f_equal. f_equal.
  rewrite insert_insert_eq, delete_insert_eq, (delete_insert_ne _ (cx_ses c)) by done. by rewrite delete_insert_eq.
Qed.

(** Deleting the session instead destroys it twice: its event deletes it while it
    is being deleted.  So do the manager, for the sessions of its table, and
    [add_session], for one whose number is taken. *)
Lemma delete_session_twice s c :
  connected s c -> (delete_object (cx_ses c) s).2 = Fault (UB "destroyed while it is being destroyed").
Proof.
  intros Hc. pose proof (connected_distinct _ _ Hc) as Hne. destruct Hc as [He Hs [He0 Hs0] Hfd].
  unfold delete_object. cbn [destroy]. rewrite (proj2 (Z.eqb_neq _ _) Hs0). rewrite M_get, Hs.
  rewrite (proj2 (Z.eqb_neq _ _) He0). mrun. cbn. rewrite lookup_insert_ne by done. rewrite He. cbn.
  rewrite Z.geb_leb, (proj2 (Z.leb_le _ _) Hfd), (proj2 (Z.eqb_neq _ _) Hs0). cbn.
  unfold object_close. mrun. cbn. rewrite lookup_insert_ne by done. rewrite lookup_insert_eq. cbn.
  by rewrite lookup_insert_eq.
Qed.

(** A session that was never given an event is just deleted. *)
Lemma delete_session_alone s p sid :
  p <> 0 -> no_heap s !! p = Some (false, ObSession sid 0) ->
  delete_object p s = (no_with_heap (delete p (no_heap s)) s, Ok tt).
Proof.
  intros Hp Hs. unfold delete_object. cbn [destroy]. rewrite (proj2 (Z.eqb_neq _ _) Hp). rewrite M_get, Hs.
  mrun. cbn. unfold no_with_heap. cbn. by rewrite delete_insert_eq.
Qed.

Definition addresses (cs : list net_connection) : list Z := cs ≫= fun c => [cx_event c; cx_ses c].

Lemma connected_others s c d :
  connected s d -> (forall a, a ∈ [cx_event d; cx_ses d] -> a <> cx_event c /\ a <> cx_ses c) -> connected (disconnected c s) d.
Proof.
  intros [He Hs Ha Hf] Hne. destruct (Hne (cx_event d) ltac:(set_solver)) as [? ?].
  destruct (Hne (cx_ses d) ltac:(set_solver)) as [? ?].
  split; cbn; try done; rewrite !lookup_delete_ne by congruence; done.
Qed.

(** The connections whose events the destructor deletes. *)
Definition open_connections (cs : list net_connection) : list net_connection := filter (fun c => cx_closing c = false) cs.

Lemma event_is_close_ok s c : connected s c -> event_is_close (cx_event c) s = (s, Ok (cx_closing c)).
Proof. intros [He _ _ _]. unfold event_is_close. by rewrite M_get, He. Qed.

(** The loop over a table of connections. *)
Lemma destroy_events_spec s cs :
  Forall (connected s) cs -> NoDup (addresses cs) ->
  exists s', destroy_events (cx_event <$> cs) s = (s', Ok tt) /\
     no_closed s' = no_closed s ++ (cx_fd <$> open_connections cs) /\
     (forall a, a ∈ addresses (open_connections cs) -> no_heap s' !! a = None) /\
     (forall a, a ∉ addresses (open_connections cs) -> no_heap s' !! a = no_heap s !! a) /\
     (forall sid, no_sessions s' !! sid =
        if bool_decide (sid ∈ cx_sid <$> open_connections cs) then None else no_sessions s !! sid).
Proof.
  intros Hcs Hnd. revert s Hcs. induction cs as [|c cs IH]; intros s Hcs.
  { exists s. split; [done|]. split; [by rewrite app_nil_r|]. split; [intros a Ha; by apply not_elem_of_nil in Ha|].
    by split. }
  apply Forall_cons in Hcs as [Hc Hcs]. cbn [addresses mbind list_bind app] in Hnd.
  apply NoDup_cons in Hnd as [H1 Hnd]. apply NoDup_cons in Hnd as [H2 Hnd].
  cbn [fmap list_fmap destroy_events]. rewrite (M_bind_ok _ _ _ _ _ (event_is_close_ok s c Hc)).
  unfold open_connections. rewrite filter_cons. destruct (cx_closing c) eqn:Ecl.
  { rewrite decide_False by done. rewrite (M_bind_ok _ _ s s tt) by done. by apply IH. }
  rewrite decide_True by done. fold (open_connections cs).
  assert (Hsub : forall a, a ∈ addresses (open_connections cs) -> a ∈ addresses cs).
  { intros a (d & Ha & Hd)%list_elem_of_bind. apply list_elem_of_bind. exists d. split; [done|].
    by apply list_elem_of_filter in Hd as [_ Hd]. }
  destruct (IH Hnd (disconnected c s)) as (s' & E & Hcl & Hh & Ho & Ht).
  { rewrite Forall_forall in Hcs |- *. intros d Hd. apply connected_others; [by apply Hcs|].
    intros a Ha. assert (a ∈ addresses cs) as Hin by (apply list_elem_of_bind; by exists d).
    split; intros ->; [apply H1; by right|by apply H2]. }
  exists s'. rewrite (M_bind_ok _ _ _ _ _ (delete_event_deletes s c Hc)).
  split; [done|]. split; [rewrite Hcl; cbn; by rewrite <- app_assoc|]. split; [|split].
  - intros a Ha. destruct (decide (a ∈ addresses (open_connections cs))) as [Hin|Hin]; [by apply Hh|].
    rewrite (Ho a Hin). cbn. cbn [addresses mbind list_bind app] in Ha. rewrite !elem_of_cons in Ha.
    destruct Ha as [->|[->|Ha]]; [apply lookup_delete_eq| |done].
    rewrite lookup_delete_ne by (by apply connected_distinct in Hc). apply lookup_delete_eq.
  - intros a Ha. cbn [addresses mbind list_bind app] in Ha. rewrite !not_elem_of_cons in Ha. destruct Ha as (Ha1 & Ha2 & Ha).
    rewrite (Ho a Ha). cbn. by rewrite !lookup_delete_ne.
  - intros sid. rewrite Ht. cbn [fmap list_fmap disconnected no_sessions].
    destruct (bool_decide_reflect (sid ∈ cx_sid <$> open_connections cs)) as [Hin|Hin].
    + by rewrite bool_decide_eq_true_2 by (by right).
    + destruct (decide (sid = cx_sid c)) as [->|Hs].
      * rewrite bool_decide_eq_true_2 by (by left). apply lookup_delete_eq.
      * rewrite bool_decide_eq_false_2 by (by apply not_elem_of_cons). by apply lookup_delete_ne.
Qed.

(** C7 — When the reactor goes: the events in its table that are not to be closed
    are deleted, one after the other; nothing is destroyed twice or used after
    its end, each of their descriptors is closed once and in that order, none of
    their objects and entries of the session table is left; an event that is to
    be closed keeps its session, its descriptor and its entry, as does everything
    else.  Deleting the session of any connection instead destroys it twice. *)
Theorem events_own_connections s cs :
  Forall (connected s) cs -> NoDup (addresses cs) ->
  (exists s', destroy_events (cx_event <$> cs) s = (s', Ok tt) /\
     no_closed s' = no_closed s ++ (cx_fd <$> open_connections cs) /\
     (forall a, a ∈ addresses (open_connections cs) -> no_heap s' !! a = None) /\
     (forall a, a ∉ addresses (open_connections cs) -> no_heap s' !! a = no_heap s !! a) /\
     (forall sid, no_sessions s' !! sid =
        if bool_decide (sid ∈ cx_sid <$> open_connections cs) then None else no_sessions s !! sid)) /\
  (forall c, c ∈ cs -> exists what, (delete_object (cx_ses c) s).2 = Fault (UB what)).
Proof.
  intros Hcs Hnd. split.
  2:{ intros c Hc. rewrite Forall_forall in Hcs. eexists. by apply delete_session_twice, Hcs. }
  by apply destroy_events_spec.
Qed.

(** Of three connections one is to be closed. *)
Definition three_connections : net_objects :=
  mk_net {[ 1 := (false, ObEvent 5 2 false); 2 := (false, ObSession 7 1); 3 := (false, ObEvent 6 4 false);
            4 := (false, ObSession 8 3); 9 := (false, ObEvent 11 10 true); 10 := (false, ObSession 12 9) ]}
    {[ 7 := 2; 8 := 4; 12 := 10 ]} [].
Definition demo_connections : list net_connection :=
  [mk_net_connection 1 2 5 7 false; mk_net_connection 9 10 11 12 true; mk_net_connection 3 4 6 8 false].

Lemma events_own_connections_witness :
  (exists s', destroy_events [1; 9; 3] three_connections = (s', Ok tt) /\ no_closed s' = [5; 6] /\
     (forall a, a ∈ [1; 2; 3; 4] -> no_heap s' !! a = None) /\
     (forall a, a ∉ [1; 2; 3; 4] -> no_heap s' !! a = no_heap three_connections !! a) /\
     (forall sid, no_sessions s' !! sid = if bool_decide (sid ∈ [7; 8]) then None else no_sessions three_connections !! sid)) /\
  (forall c, c ∈ demo_connections -> exists what, (delete_object (cx_ses c) three_connections).2 = Fault (UB what)).
Proof.
  apply (events_own_connections three_connections demo_connections).
  - repeat constructor; done.
  - repeat (apply NoDup_cons; split; [cbn; rewrite ?not_elem_of_cons; set_solver by lia|]). apply NoDup_nil_2.
Defined.
