(* ===== verification/Delivery.v ===== *)
(** Two connected sessions: what one end is given to send, the kernel cuts into
    pieces as it likes and the other end hands over as messages.  The
    definitions compose those of Network -- the session manager's sending, the
    stream event's reading and writing, [on_recv] -- with a kernel that keeps
    the order of the bytes and decides everything else. *)

From S2P Require Import Prelude Octets Varint Marshal Session Protocol Reactor Network Connect.

(** ** What a program of the monad leaves alone *)

Definition preserves {S A X} (f : S -> X) (m : M S A) : Prop := forall s, f (m s).1 = f s.

Section Preserves.
Context {S X : Type} (f : S -> X).

Lemma preserves_bind {A B} (m : M S A) (k : A -> M S B) :
  preserves f m -> (forall a, preserves f (k a)) -> preserves f (m ≫= k).
Proof.
  intros Hm Hk s. unfold mbind, M_bind. specialize (Hm s). destruct (m s) as [s' [a| |]]; simpl in *; [|done..].
  by rewrite Hk.
Qed.
Lemma preserves_get {A} (k : S -> M S A) :
  (forall s0, preserves f (k s0)) -> preserves f (get ≫= k).
Proof. intros Hk s. apply (Hk s s). Qed.
Lemma preserves_modify (g : S -> S) : (forall s, f (g s) = f s) -> preserves f (modify g).
Proof. intros Hg s. apply Hg. Qed.
Lemma preserves_ret {A} (a : A) : preserves f (mret a). Proof. done. Qed.
Lemma preserves_lift {A} (o : outcome A) : preserves f (lift o). Proof. done. Qed.
End Preserves.

(** What receiving is about, and what sending is about. *)
Definition in_side (c : conn) := (ses_reados (c_ses c), ses_readbuf (c_ses c)).
Definition out_side (c : conn) :=
  (ses_writeos (c_ses c), ses_writebuf (c_ses c), ses_write_offset (c_ses c), c_sent c, ev_base (c_ev c)).

Lemma out_side_ok c c' buf queued : out_side c' = out_side c -> conn_ok c buf queued -> conn_ok c' buf queued.
Proof.
  unfold out_side. intros [= E1 E2 E3 E4 E5] [[Hb Hq Ho] Hbase].
  split; [split|]; rewrite ?E1, ?E2, ?E3, ?E5; done.
Qed.

(** An operation on the event alone keeps both sides. *)
Lemma ev_change_base skip n e r : ev_change skip n e = Ok r -> ev_base r.1 = ev_base e.
Proof. unfold ev_change. destruct (_ || _); [by intros [= <-]|]. destruct (ev_base e) eqn:E; by intros [= <-]. Qed.

Lemma ses_event_op_sides op c :
  (forall e r, op e = Ok r -> ev_base r.1 = ev_base e) ->
  in_side (ses_event_op op c).1 = in_side c /\ out_side (ses_event_op op c).1 = out_side c.
Proof.
  intros Hop. unfold ses_event_op. rewrite M_get. destruct (ses_event (c_ses c)); [|done].
  unfold lift, mbind, M_bind. destruct (op (c_ev c)) as [r| |] eqn:E; [|done..].
  unfold in_side, out_side. simpl. by rewrite (Hop _ _ E).
Qed.

Lemma conn_del_event_sides c :
  in_side (conn_del_event c).1 = in_side c /\ out_side (conn_del_event c).1 = out_side c.
Proof. unfold conn_del_event, modify. simpl. by destruct (ev_base (c_ev c)) eqn:E; unfold out_side; simpl; rewrite ?E. Qed.

Lemma close_socket_sides reason c :
  in_side (close_socket reason c).1 = in_side c /\ out_side (close_socket reason c).1 = out_side c.
Proof. unfold close_socket. rewrite (M_bind_ok _ _ c (mk_conn (session_set_close reason (c_ses c)) (c_ev c) (c_changed c) (c_sent c)) tt) by done.
  destruct (conn_del_event_sides (mk_conn (session_set_close reason (c_ses c)) (c_ev c) (c_changed c) (c_sent c))) as [-> ->]. done.
Qed.

Lemma handle_close_sides c :
  in_side (handle_close c).1 = in_side c /\ out_side (handle_close c).1 = out_side c.
Proof.
  unfold handle_close. rewrite M_get. destruct (session_is_close _); [|done].
  destruct (negb _); [|apply conn_del_event_sides].
  apply ses_event_op_sides. intros e r. apply ev_change_base.
Qed.

Lemma send_take_in n : preserves in_side (send_take n).
Proof.
  intros c. unfold send_take. rewrite M_get. cbv zeta.
  unfold lift, mbind, M_bind. destruct (mem_read _ _ _); [|done..]. by destruct (cells_init _).
Qed.

Lemma close_then_in {A} reason (a : A) : preserves in_side (close_socket reason;; mret a).
Proof. apply preserves_bind; [intros c; apply close_socket_sides|intros; apply preserves_ret]. Qed.

Lemma wbuffer_in (g : session -> session) :
  (forall s, ses_reados (g s) = ses_reados s /\ ses_readbuf (g s) = ses_readbuf s) ->
  preserves in_side (on_ses (modify (fun s => session_wbuffer (g s)))).
Proof.
  intros Hg c. unfold on_ses, modify, in_side, session_wbuffer. simpl. destruct (Hg (c_ses c)) as [<- <-].
  by destruct (octets_empty (ses_writebuf (g (c_ses c)))).
Qed.

Lemma send_all_in rs total : preserves in_side (send_all rs total).
Proof.
  revert total. induction rs as [|r rs IH]; intros total; [apply preserves_ret|].
  destruct r; cbn [send_all]; [|apply close_then_in|apply IH|apply preserves_ret|apply close_then_in].
  apply preserves_get. intros c0. apply preserves_bind; [apply send_take_in|intros _].
  apply preserves_get. intros c1. destruct (_ =? _); [|apply IH].
  apply preserves_bind; [by apply (wbuffer_in session_clear_wbuffer)|intros _].
  apply preserves_get. intros c2. destruct (_ =? _); [|apply IH].
  apply preserves_bind; [|intros; apply preserves_ret]. intros c. apply ses_event_op_sides.
  intros e r. apply ev_change_base.
Qed.

Lemma handle_write_in now rs : preserves in_side (handle_write now rs).
Proof.
  unfold handle_write. apply preserves_bind; [by apply (wbuffer_in id)|intros _].
  apply preserves_get. intros c0. destruct (_ =? _).
  - apply preserves_bind; [|intros; apply preserves_ret]. intros c. apply ses_event_op_sides.
    intros e r. apply ev_change_base.
  - apply preserves_bind; [apply send_all_in|intros t]. by apply preserves_bind.
Qed.

(** Receiving leaves the output alone. *)
Definition ses_out_side (s : session) := (ses_writeos s, ses_writebuf s, ses_write_offset s).

Section RecvSides.
Context {B : Type} `{!ProtocolBody B} (reg : stubs B).

Lemma decode_out os s : ses_out_side (decode reg os s).1.2 = ses_out_side s.
Proof.
  unfold decode. destruct (negb _); [done|].
  by destruct ((pop_transaction BEGIN;; decode_body reg s) os) as [? [[?|]| |]].
Qed.

Lemma recv_protocols_out fuel : preserves ses_out_side (recv_protocols reg fuel).
Proof.
  induction fuel as [|fuel IH]; [done|]. intros s. simpl. rewrite M_get.
  pose proof (decode_out (ses_reados s) s) as Hd. destruct (decode reg (ses_reados s) s) as [[os s'] r].
  simpl in Hd. rewrite <- Hd. set (s1 := ses_with_read os (ses_readbuf s') s').
  change (ses_out_side s') with (ses_out_side s1). rewrite (M_bind_ok _ _ s s1 tt) by done.
  revert s1. intros s1. clearbody s1. revert s1. apply preserves_bind; [done|]. intros [p|]; [|done].
  by apply preserves_bind.
Qed.

Lemma on_reados_out (c : OS unit) : preserves ses_out_side (on_reados c).
Proof. intros s. unfold on_reados. by destruct (c (ses_reados s)). Qed.

Lemma session_on_recv_out now : preserves ses_out_side (session_on_recv reg now).
Proof.
  unfold session_on_recv. do 2 (apply preserves_bind; [done|intros _]). apply preserves_get. intros s0. cbv zeta.
  apply preserves_bind; [apply on_reados_out|intros _]. apply preserves_bind; [done|intros rb].
  apply preserves_bind; [done|intros _]. apply preserves_get. intros s1.
  apply preserves_bind; [apply recv_protocols_out|intros ps]. apply preserves_bind; [apply on_reados_out|done].
Qed.

Lemma on_ses_out {A} (m : M session A) : preserves ses_out_side m -> preserves out_side (on_ses m).
Proof.
  intros Hm c. specialize (Hm (c_ses c)). unfold on_ses. destruct (m (c_ses c)) as [s r].
  unfold out_side, ses_out_side in *. simpl in *. injection Hm as E1 E2 E3. by rewrite E1, E2, E3.
Qed.

Lemma recv_all_out rs total : preserves out_side (recv_all rs total).
Proof.
  revert total. induction rs as [|r rs IH]; intros total; cbn [recv_all];
    (apply preserves_get; intros c0; cbv beta zeta; destruct (_ =? 0); [apply preserves_ret|]); [apply preserves_ret|].
  destruct r; [|by apply preserves_bind; [intros c; apply close_socket_sides|intros; apply preserves_ret]
    |apply IH|apply preserves_ret
    |by apply preserves_bind; [intros c; apply close_socket_sides|intros; apply preserves_ret]].
  apply preserves_bind; [done|intros o]. apply preserves_bind; [by apply on_ses_out|intros _]. apply IH.
Qed.

Lemma handle_read_out now rs : preserves out_side (handle_read reg now rs).
Proof.
  unfold handle_read. apply preserves_get. intros c0.
  apply preserves_bind; [destruct (_ =? 0); [apply on_ses_out, session_on_recv_out|done]|intros ps].
  apply preserves_bind; [apply recv_all_out|intros t].
  apply preserves_bind; [apply on_ses_out, session_on_recv_out|done].
Qed.
End RecvSides.

(** ** The stream of frames, cut anywhere *)

Lemma app_split_at {A} (d r u v : list A) : d ++ r = u ++ v ->
  (exists w, d = u ++ w /\ v = w ++ r) \/ (exists k, (k < length u)%nat /\ d = take k u).
Proof.
  intros E. destruct (decide (length u <= length d)%nat) as [Hl|Hl].
  - left. exists (drop (length u) d). rewrite <- (take_drop (length u) d) in E at 1.
    rewrite <- app_assoc in E. apply app_inj_1 in E as [E1 E2]; [|rewrite length_take; lia].
    split; [by rewrite <- E1 at 1; rewrite take_drop|done].
  - right. exists (length d). split; [lia|].
    rewrite <- (take_app_length d r) at 1. rewrite E. by rewrite take_app_le by lia.
Qed.

Section StreamCut.
Context {B : Type} `{!ProtocolBody B, !Equiv B, !ProtocolBodyOk B} (reg : stubs B).

(** A message that can be sent and read back: of a registered class, of a
    size that the table measures right and that fits in a stream. *)
Definition good_body (b : B) : Prop :=
  body_wf b /\ compact_size_good (len (body_bytes b)) = true /\ is_Some (reg !! get_type b) /\
  len (body_bytes b) + 32 <= MAX_OCTETS.

Lemma good_frame b : good_body b ->
  inU 32 (get_type b) /\ inU 64 (len (body_bytes b)) /\ 0 < len (body_frame b) /\
  body_frame b = varint (get_type b) ++ varint (len (body_bytes b)) ++ body_bytes b.
Proof.
  intros (Hw & Hg & _ & Hm). pose proof (body_type b Hw) as Hid. pose proof (len_nonneg (body_bytes b)).
  assert (Hn : inU 64 (len (body_bytes b))) by (unfold inU; octets_lia).
  assert (Hf : body_frame b = varint (get_type b) ++ varint (len (body_bytes b)) ++ body_bytes b)
    by by apply frame_good.
  split; [done|]. split; [done|]. split; [|done]. rewrite Hf, !len_app.
  rewrite (varint_length (get_type b)) by (apply (inU_mono 32); [lia|done]).
  pose proof (varint_len_bounds (get_type b) (inU_mono 32 64 _ ltac:(lia) Hid)).
  pose proof (len_nonneg (varint (len (body_bytes b)))). lia.
Qed.

(** A frame of which the end is missing is not decoded, wherever it is cut. *)
Lemma decode_partial s ses pre d r b :
  good_body b -> os_repr s (pre ++ d) -> os_pos s = len pre -> body_frame b = d ++ r -> r <> [] ->
  exists s' ses', decode reg s ses = (s', ses', Ok None).
Proof.
  intros Hb Hs Hp Hf Hr. destruct (good_frame b Hb) as (Hid & Hn & _ & E). rewrite E in Hf. symmetry in Hf.
  destruct (decide (d = [])) as [->|Hd].
  { exists s, ses. unfold decode. rewrite (data_ready_rest _ _ _ Hs), Hp, app_nil_r.
    by destruct (Z.leb_spec 1 (len pre - len pre)); [lia|]. }
  assert (0 < len d) by (destruct d; [done|rewrite len_cons; pose proof (len_nonneg d); lia]).
  destruct (app_split_at _ _ _ _ Hf) as [(d1 & -> & Hf1)|(k & Hk & ->)].
  2:{ rewrite (decode_header_cut reg s ses pre _ Hs Hp); [eauto|done|left; eauto]. }
  symmetry in Hf1. destruct (app_split_at _ _ _ _ Hf1) as [(d2 & -> & Hf2)|(k & Hk & ->)].
  2:{ rewrite (decode_header_cut reg s ses pre _ Hs Hp); [eauto|done|right; eauto 10]. }
  rewrite (decode_waits reg s ses pre (get_type b) (len (body_bytes b)) d2); [eauto|done..| |done|done].
  rewrite Hf2, len_app. destruct r; [done|rewrite len_cons]. pose proof (len_nonneg r). lia.
Qed.

(** What the stream still holds is the beginning of the next frame. *)
Definition waiting (d : list byte) (ms : list B) : Prop :=
  match ms with [] => d = [] | b :: _ => len d < len (body_frame b) end.

Lemma recv_protocols_stream fuel s inb buf more msgs :
  stubs_ok reg -> Forall good_body msgs -> ses_in s inb buf ->
  drop (Z.to_nat (os_pos (ses_reados s))) inb ++ more = msgs ≫= body_frame ->
  len inb - os_pos (ses_reados s) < Z.of_nat fuel ->
  exists s' ps ms1 ms2, recv_protocols reg fuel s = (s', Ok ps) /\ msgs = ms1 ++ ms2 /\
    Forall2 (fun p b => prot_body p ≡ b) ps ms1 /\ ses_in s' inb buf /\
    drop (Z.to_nat (os_pos (ses_reados s'))) inb ++ more = ms2 ≫= body_frame /\
    waiting (drop (Z.to_nat (os_pos (ses_reados s'))) inb) ms2 /\
    os_data (ses_reados s') = os_data (ses_reados s) /\ ses_readbuf s' = ses_readbuf s.
Proof.
  intros Hreg. revert s msgs. induction fuel as [|fuel IH]; intros s msgs Hms [Ho Hb] Hmore Hf.
  { pose proof Ho as [_ ?]. lia. }
  pose proof Ho as [Hod Hop]. set (pos := os_pos (ses_reados s)) in *.
  set (pre := take (Z.to_nat pos) inb). set (d := drop (Z.to_nat pos) inb) in *.
  assert (Hinb : inb = pre ++ d) by (symmetry; apply take_drop).
  assert (Hpre : pos = len pre) by (unfold pre, len in *; rewrite length_take; lia).
  assert (Hd : len d = len inb - pos) by (rewrite Hinb at 1; rewrite len_app; lia).
  simpl. rewrite M_get.
  (* the end of the loop *)
  assert (Hend : forall os' ses', decode reg (ses_reados s) s = (os', ses', Ok None) -> waiting d msgs ->
    exists s' ps ms1 ms2, (let '(os, s', r) := decode reg (ses_reados s) s in
      put (ses_with_read os (ses_readbuf s') s');; prot ← lift r;
      match prot with None => mret [] | Some prot => prots ← recv_protocols reg fuel; mret (prot :: prots) end) s
      = (s', Ok ps) /\ msgs = ms1 ++ ms2 /\ Forall2 (fun p b => prot_body p ≡ b) ps ms1 /\ ses_in s' inb buf /\
      drop (Z.to_nat (os_pos (ses_reados s'))) inb ++ more = ms2 ≫= body_frame /\
      waiting (drop (Z.to_nat (os_pos (ses_reados s'))) inb) ms2 /\
      os_data (ses_reados s') = os_data (ses_reados s) /\ ses_readbuf s' = ses_readbuf s).
  { intros os' ses' E Hw. destruct (decode_sound reg (ses_reados s) s inb Hreg Ho) as (os & s1 & r & E' & Hdd & Hr).
    rewrite E in E'. injection E' as <- <- <-. destruct Hr as [Hp' Hs']. rewrite E.
    assert (Hrb : ses_readbuf ses' = ses_readbuf s) by (by destruct Hs' as [-> | ->]).
    exists (ses_with_read os' (ses_readbuf ses') ses'), [], [], msgs. fold pos in Hp'.
    cbn [ses_reados ses_readbuf ses_with_read]. rewrite Hp', Hrb.
    split; [done|]. split; [done|]. split; [done|]. split; [|by fold d].
    split; [split; [simpl; by rewrite Hdd|]|done]. simpl. lia. }
  destruct msgs as [|b msgs].
  - assert (d = []) as Hd0 by (by destruct d). apply (Hend (ses_reados s) s).
    + unfold decode. rewrite (data_ready_rest _ _ _ Ho). fold pos.
      rewrite Hd0 in Hd. change (len (@nil byte)) with 0 in Hd. by destruct (Z.leb_spec 1 (len inb - pos)); [lia|].
    + done.
  - apply Forall_cons in Hms as [Hg Hms]. rewrite bind_cons in Hmore.
    destruct (app_split_at _ _ _ _ Hmore) as [(rest & Hdr & Hrest)|(k & Hk & Hdk)].
    + pose proof Hg as (Hw & Hcs & [stub Hst] & _).
      assert (Hor : os_repr (ses_reados s) (pre ++ body_frame b ++ rest)) by by rewrite <- Hdr, <- Hinb.
      destruct (decode_frame reg (ses_reados s) s pre rest b stub Hreg Hst Hw Hcs Hor Hpre) as (p & E & Hpb & _).
      rewrite E. set (s2 := ses_with_read _ (ses_readbuf s) s).
      rewrite (M_bind_ok _ _ s s2 tt) by done. rewrite (M_bind_ok _ _ s2 s2 (Some p)) by done.
      destruct (good_frame b Hg) as (_ & _ & Hpos & _).
      assert (Hdrop : drop (Z.to_nat (os_pos (ses_reados s2))) inb = rest).
      { simpl. rewrite Hinb, Hdr, app_assoc, <- len_app. unfold len. by rewrite Nat2Z.id, drop_app_length. }
      assert (Hlr : len inb = len pre + len (body_frame b) + len rest) by (rewrite Hinb, Hdr, !len_app; lia).
      destruct (IH s2 msgs Hms) as (s' & ps & ms1 & ms2 & E' & -> & Hps & Hin' & Hm' & Hw' & Hod' & Hrb').
      { split; [|done]. destruct Ho as [? ?]. split; [done|]. simpl. pose proof (len_nonneg rest). lia. }
      { by rewrite Hdrop. }
      { simpl. lia. }
      rewrite (M_bind_ok _ _ _ _ _ E'). exists s', (p :: ps), (b :: ms1), ms2.
      split; [done|]. split; [done|]. split; [by constructor|]. done.
    + destruct (decode_partial (ses_reados s) s pre d (drop k (body_frame b)) b Hg) as (os' & ses' & E).
      * by rewrite <- Hinb.
      * done.
      * by rewrite Hdk, take_drop.
      * intros Hnil. apply (f_equal length) in Hnil. rewrite length_drop in Hnil. simpl in Hnil. lia.
      * apply (Hend os' ses' E). simpl. rewrite Hdk. unfold len. rewrite length_take. lia.
Qed.

(** The stream is shrunk once its cursor is beyond a mebibyte. *)
Definition SHRINK : Z := 0x100000.

Lemma try_shrink_bound s bs s' : os_repr s bs -> try_shrink s = (s', Ok tt) ->
  os_pos s' <= SHRINK /\ o_cap (os_data s') = o_cap (os_data s).
Proof.
  intros [Hd Hp]. unfold try_shrink. fold SHRINK. destruct (Z.gtb_spec (os_pos s) SHRINK); [|intros [= <-]; split; [lia|done]].
  destruct (erase_repr (os_data s) bs 0 (os_pos s) Hd) as (o & E & _ & Hcap); [lia|lia|].
  rewrite E. intros [= <-]. simpl. unfold SHRINK. split; [lia|done].
Qed.

(** What [on_recv] does with a stream of frames of which [more] has not
    arrived: it hands over the next messages, in order, and leaves the
    beginning of the one after them. *)
Lemma on_recv_stream now s inb buf more msgs :
  stubs_ok reg -> Forall good_body msgs -> ses_in s inb buf ->
  unread s inb buf ++ more = msgs ≫= body_frame ->
  exists s' ps ms1 ms2 inb' buf', session_on_recv reg now s = (s', Ok ps) /\ msgs = ms1 ++ ms2 /\
    Forall2 (fun p b => prot_body p ≡ b) ps ms1 /\ ses_in s' inb' buf' /\
    unread s' inb' buf' ++ more = ms2 ≫= body_frame /\
    waiting (drop (Z.to_nat (os_pos (ses_reados s'))) inb') ms2 /\ os_pos (ses_reados s') <= SHRINK /\
    o_cap (os_data (ses_reados s')) = o_cap (os_data (ses_reados s)) /\
    o_cap (ses_readbuf s') = o_cap (ses_readbuf s) /\
    len buf' = len buf - Z.min (len buf) (o_cap (os_data (ses_reados s)) - len inb).
Proof.
  intros Hreg Hms Hin Hmore.
  destruct (on_recv_unfold reg now s inb buf Hin)
    as (s1 & inb1 & buf1 & Hin1 & _ & _ & Hu1 & _ & _ & (Hc1 & Hc2 & Hb1) & _ & E0).
  pose proof Hin1 as [Ho1 _]. pose proof Ho1 as [_ Hp1].
  rewrite <- Hu1 in Hmore. unfold unread in Hmore. rewrite <- app_assoc in Hmore.
  destruct (recv_protocols_stream (S (Z.to_nat (os_size (ses_reados s1)))) s1 inb1 buf1 (buf1 ++ more) msgs Hreg Hms
    Hin1 Hmore) as (s2 & ps & ms1 & ms2 & E2 & -> & Hps & [Ho2 Hb2] & Hm2 & Hw2 & Hd2 & Hrb2).
  { rewrite (os_size_repr _ _ Ho1). lia. }
  destruct (try_shrink_ok (ses_reados s2) inb1 Ho2) as (os & inb2 & E3 & Ho3 & Hdrop).
  destruct (try_shrink_bound _ _ _ Ho2 E3) as [Hpos Hcap].
  exists (ses_with_read os (ses_readbuf s2) s2), ps, ms1, ms2, inb2, buf1. rewrite E0.
  rewrite (M_bind_ok _ _ _ _ _ E2).
  split; [|split; [done|split; [done|split; [by split|split]]]].
  - rewrite (M_bind_ok _ _ s2 (ses_with_read os (ses_readbuf s2) s2) tt); [done|].
    unfold on_reados. by rewrite E3.
  - unfold unread. cbn [ses_reados ses_with_read]. by rewrite Hdrop, <- app_assoc.
  - cbn [ses_reados ses_readbuf ses_with_read]. rewrite Hdrop. split; [done|]. split; [done|].
    split; [congruence|]. split; [congruence|]. done.
Qed.
End StreamCut.

(** ** The kernel

    What it does on a call of [recv]: give up to that many of the bytes that
    have arrived, or one of the other answers. *)
Inductive kernel_recv := KRecv (n : nat) | KEintr | KEagain | KClosed | KError.

(** Its answers to the calls of one [handle_read], which has [room] for bytes
    and does not call without room; the bytes it still holds afterwards. *)
Fixpoint recv_answers (room : Z) (wire : list byte) (ks : list kernel_recv) : list recv_result * list byte :=
  match ks with
  | [] => ([], wire)
  | k :: ks =>
      if room =? 0 then ([], wire)
      else
        match k with
        | KRecv n =>
            match take (Z.to_nat (Z.min (Z.of_nat n) room)) wire with
            | [] => ([RecvEAGAIN], wire)
            | d => let '(rs, wire') := recv_answers (room - len d) (drop (length d) wire) ks in
                   (RecvData d :: rs, wire')
            end
        | KEintr => let '(rs, wire') := recv_answers room wire ks in (RecvEINTR :: rs, wire')
        | KEagain => ([RecvEAGAIN], wire)
        | KClosed => ([RecvClosed], wire)
        | KError => ([RecvError], wire)
        end
  end.

Lemma take_then_drop {A} k (d l : list A) : d = take k l -> l = d ++ drop (length d) l.
Proof.
  intros ->. rewrite length_take. rewrite <- (take_drop (k `min` length l) l) at 1. f_equal.
  by rewrite <- take_take, (take_ge l).
Qed.

(** A call of [recv_all] that reads nothing. *)
Definition no_data (rs : list recv_result) : Prop :=
  match rs with RecvData _ :: _ | RecvEINTR :: _ => False | _ => True end.

Lemma recv_all_stays rs total c :
  octets_free_space (ses_readbuf (c_ses c)) = 0 \/ no_data rs ->
  exists c' t, recv_all rs total c = (c', Ok t) /\ in_side c' = in_side c.
Proof.
  assert (Hclose : forall reason (a : Z), exists c' t, (close_socket reason;; mret a) c = (c', Ok t) /\ in_side c' = in_side c).
  { intros reason a. pose proof (close_socket_sides reason c) as [Hi _].
    assert (Ec : close_socket reason c = ((close_socket reason c).1, Ok tt)) by done.
    rewrite (M_bind_ok _ _ _ _ _ Ec). by eexists _, a. }
  intros Hc. destruct rs as [|r rs]; cbn [recv_all]; rewrite M_get; cbv zeta;
    (destruct (Z.eqb_spec (octets_free_space (ses_readbuf (c_ses c))) 0); [by eexists _, _|]); [by eexists _, _|].
  destruct Hc as [|Hc]; [done|]. destruct r; first [done|apply Hclose|by eexists _, _].
Qed.

Lemma recv_answers_ok ks : forall room wire rs wire' c buf total,
  octets_repr (ses_readbuf (c_ses c)) buf -> room = octets_free_space (ses_readbuf (c_ses c)) ->
  recv_answers room wire ks = (rs, wire') ->
  exists c' t got, recv_all rs total c = (c', Ok t) /\ wire = got ++ wire' /\
    octets_repr (ses_readbuf (c_ses c')) (buf ++ got) /\ ses_reados (c_ses c') = ses_reados (c_ses c) /\
    o_cap (ses_readbuf (c_ses c')) = o_cap (ses_readbuf (c_ses c)) /\
    (forall n ks', ks = KRecv (S n) :: ks' -> 0 < room -> wire <> [] -> got <> []).
Proof.
  induction ks as [|k ks IH]; intros room wire rs wire' c buf total Hb Hroom E; cbn [recv_answers] in E.
  all: assert (Hstay : forall rs0, (rs0, wire) = (rs, wire') ->
    octets_free_space (ses_readbuf (c_ses c)) = 0 \/ no_data rs0 ->
    exists c' t, recv_all rs total c = (c', Ok t) /\ wire = [] ++ wire' /\
    octets_repr (ses_readbuf (c_ses c')) (buf ++ []) /\ ses_reados (c_ses c') = ses_reados (c_ses c) /\
    o_cap (ses_readbuf (c_ses c')) = o_cap (ses_readbuf (c_ses c))).
  1,3: intros rs0 [= <- <-] Hn; destruct (recv_all_stays rs0 total c Hn) as (c' & t & E' & [= H1 H2]);
    exists c', t; rewrite app_nil_r, H1, H2; by split_and!.
  { destruct (Hstay _ E) as (c' & t & H); [by right|]. exists c', t, []. naive_solver. }
  pose proof (free_space_repr _ _ Hb) as [Hfree Hle]. rewrite <- Hroom in *.
  destruct (Z.eqb_spec room 0) as [Hz|Hz].
  { destruct (Hstay _ E) as (c' & t & H); [left; congruence|]. exists c', t, []. naive_solver lia. }
  destruct k as [n| | | |].
  3-5: destruct (Hstay _ E) as (c' & t & H); [by right|]; exists c', t, []; naive_solver.
  - remember (take (Z.to_nat (Z.min (Z.of_nat n) room)) wire) as d eqn:Hd.
    destruct d as [|x d].
    + destruct (Hstay _ E) as (c' & t & H); [by right|]. exists c', t, [].
      split_and!; try apply H. intros n' ks' [= -> ->] ? Hw. apply (f_equal length) in Hd. rewrite length_take in Hd.
      destruct wire; [done|simpl in Hd; lia].
    + set (d0 := x :: d) in *. destruct (recv_answers _ _ ks) as [rs1 w1] eqn:E1. injection E as <- <-.
      assert (Hlen : 0 < len d0 <= room).
      { split; [unfold d0; rewrite len_cons; pose proof (len_nonneg d); lia|].
        rewrite Hd. unfold len. rewrite length_take. lia. }
      destruct (recv_store_ok _ _ d0 Hb) as (o & Eo & Ho & Hcap); [lia|].
      set (c1 := mk_conn (ses_with_read (ses_reados (c_ses c)) o (c_ses c)) (c_ev c) (c_changed c) (c_sent c)).
      destruct (IH (room - len d0) (drop (length d0) wire) rs1 w1 c1 (buf ++ d0) (s32 (total + len d0)))
        as (c' & t & got & E' & Hw & Hb' & Hos & Hc' & _); [done| |done|].
      { pose proof (free_space_repr _ _ Ho) as [Hf1 _]. cbn [ses_readbuf c_ses c1 ses_with_read].
        rewrite Hf1, Hcap, Hfree, len_app. lia. }
      exists c', t, (d0 ++ got). cbn [recv_all]. rewrite M_get. cbv zeta.
      destruct (Z.eqb_spec (octets_free_space (ses_readbuf (c_ses c))) 0); [congruence|].
      unfold lift. unfold mbind at 1, M_bind at 1. rewrite Eo.
      rewrite (M_bind_ok _ _ c c1 tt) by done. split; [done|].
      split; [rewrite <- app_assoc, <- Hw; by apply take_then_drop with (Z.to_nat (Z.min (Z.of_nat n) room))|].
      rewrite app_assoc. split; [done|]. split; [done|]. split; [rewrite Hc'; exact Hcap|]. done.
  - destruct (recv_answers _ _ ks) as [rs1 w1] eqn:E1. injection E as <- <-.
    destruct (IH room wire rs1 w1 c buf total Hb Hroom E1) as (c' & t & got & E' & H). exists c', t, got.
    cbn [recv_all]. rewrite M_get. cbv zeta.
    destruct (Z.eqb_spec (octets_free_space (ses_readbuf (c_ses c))) 0); [congruence|]. naive_solver.
Qed.

(** ** One end *)

Section OneEnd.
Context {B : Type} `{!ProtocolBody B, !Equiv B, !ProtocolBodyOk B} (reg : stubs B).

(** The receiving half: the stream holds the beginning of the first of the
    messages [ms] that are still to come; the capacities are [C] and [R]. *)
Record recvs (C R : Z) (c : conn) (inb rb : list byte) (ms : list B) : Prop := {
  rc_in : ses_in (c_ses c) inb rb;
  rc_wait : waiting (drop (Z.to_nat (os_pos (ses_reados (c_ses c)))) inb) ms;
  rc_pos : os_pos (ses_reados (c_ses c)) <= SHRINK;
  rc_cap : o_cap (os_data (ses_reados (c_ses c))) = C;
  rc_rcap : o_cap (ses_readbuf (c_ses c)) = R;
}.

(** A stream with room behind any unfinished message. *)
Definition roomy (C : Z) (ms : list B) : Prop :=
  SHRINK < C /\ Forall (fun b => SHRINK + len (body_frame b) <= C) ms.

Lemma roomy_free C R c inb rb ms : recvs C R c inb rb ms -> roomy C ms -> 1 <= C - len inb.
Proof.
  intros [[[_ Hp] _] Hw Hpos _ _] [HC Hms].
  assert (len inb = os_pos (ses_reados (c_ses c)) + len (drop (Z.to_nat (os_pos (ses_reados (c_ses c)))) inb))
    by (unfold len in *; rewrite length_drop; lia).
  destruct ms as [|b ms]; simpl in Hw; [rewrite Hw in *; change (len (@nil byte)) with 0 in *; lia|].
  apply Forall_cons in Hms as [Hb _]. lia.
Qed.

Lemma recvs_room C R c inb rb ms : recvs C R c inb rb ms -> 0 <= C - len inb /\ octets_free_space (ses_readbuf (c_ses c)) = R - len rb /\ 0 <= R - len rb.
Proof.
  intros [[[Ho _] Hb] _ _ <- <-]. split; [by apply free_space_repr|]. by apply free_space_repr.
Qed.

(** [on_recv] of the session of a connection. *)
Lemma conn_on_recv now C R c inb rb ms more :
  stubs_ok reg -> Forall (good_body reg) ms -> recvs C R c inb rb ms ->
  unread (c_ses c) inb rb ++ more = ms ≫= body_frame ->
  exists c' ps ms1 ms2 inb' rb', on_ses (session_on_recv reg now) c = (c', Ok ps) /\
    c' = mk_conn (session_on_recv reg now (c_ses c)).1 (c_ev c) (c_changed c) (c_sent c) /\
    ms = ms1 ++ ms2 /\ Forall2 (fun p b => prot_body p ≡ b) ps ms1 /\ recvs C R c' inb' rb' ms2 /\
    unread (c_ses c') inb' rb' ++ more = ms2 ≫= body_frame /\
    len rb' = len rb - Z.min (len rb) (C - len inb).
Proof.
  intros Hreg Hms [Hin Hw Hpos <- <-] Hm.
  destruct (on_recv_stream reg now (c_ses c) inb rb more ms Hreg Hms Hin Hm)
    as (s' & ps & ms1 & ms2 & inb' & rb' & E & -> & Hps & Hin' & Hm' & Hw' & Hpos' & Hc1 & Hc2 & Hl).
  exists (mk_conn s' (c_ev c) (c_changed c) (c_sent c)), ps, ms1, ms2, inb', rb'.
  unfold on_ses. rewrite E. split_and!; done.
Qed.

(** How many bytes are not in the stream yet. *)
Definition behind (rb wire : list byte) : Z := len rb + len wire.

(** The room that [recv] is offered first. *)
Definition recv_room (now : Z) (c : conn) : Z :=
  let free s := octets_free_space (ses_readbuf s) in
  if free (c_ses c) =? 0 then free (session_on_recv reg now (c_ses c)).1 else free (c_ses c).

Lemma handle_read_stream now ks C R c inb rb ms wire rs wire' more :
  stubs_ok reg -> Forall (good_body reg) ms -> recvs C R c inb rb ms ->
  unread (c_ses c) inb rb ++ wire ++ more = ms ≫= body_frame ->
  recv_answers (recv_room now c) wire ks = (rs, wire') ->
  exists c' t ps ms1 ms2 inb' rb', handle_read reg now rs c = (c', Ok (t, ps)) /\
    ms = ms1 ++ ms2 /\ Forall2 (fun p b => prot_body p ≡ b) ps ms1 /\ recvs C R c' inb' rb' ms2 /\
    unread (c_ses c') inb' rb' ++ wire' ++ more = ms2 ≫= body_frame /\
    behind rb' wire' <= behind rb wire /\
    (roomy C ms -> 1 <= R -> 0 < behind rb wire -> (exists n ks', ks = KRecv (S n) :: ks') ->
     behind rb' wire' < behind rb wire).
Proof.
  intros Hreg Hms Hrc Hm Hans. unfold handle_read. rewrite M_get.
  destruct (recvs_room _ _ _ _ _ _ Hrc) as (HC & Hfree & HR).
  (* the optional first call *)
  assert (exists c1 ps1 ms0 ms1 inb1 rb1, (if octets_free_space (ses_readbuf (c_ses c)) =? 0
      then on_ses (session_on_recv reg now) else mret []) c = (c1, Ok ps1) /\
    ms = ms0 ++ ms1 /\ Forall2 (fun p b => prot_body p ≡ b) ps1 ms0 /\ recvs C R c1 inb1 rb1 ms1 /\
    unread (c_ses c1) inb1 rb1 ++ wire ++ more = ms1 ≫= body_frame /\
    recv_room now c = octets_free_space (ses_readbuf (c_ses c1)) /\ len rb1 <= len rb /\
    (roomy C ms -> 1 <= R -> len rb1 < len rb \/ (rb1 = rb /\ 0 < recv_room now c)))
    as (c1 & ps1 & ms0 & ms1 & inb1 & rb1 & E1 & -> & Hps1 & Hrc1 & Hm1 & Hroom & Hl1 & Hprog1).
  { unfold recv_room. cbv zeta. destruct (Z.eqb_spec (octets_free_space (ses_readbuf (c_ses c))) 0) as [Hz|Hz].
    - destruct (conn_on_recv now C R c inb rb ms (wire ++ more) Hreg Hms Hrc Hm)
        as (c1 & ps1 & ms0 & ms1 & inb1 & rb1 & E1 & Ec & -> & Hps & Hrc1 & Hm1 & Hl).
      exists c1, ps1, ms0, ms1, inb1, rb1. pose proof (len_nonneg rb).
      do 5 (split; [done|]). split; [by rewrite Ec|]. split; [lia|]. intros Hr HR1. left.
      pose proof (roomy_free _ _ _ _ _ _ Hrc Hr). lia.
    - exists c, [], [], ms, inb, rb. do 6 (split; [done|]). split; [lia|]. intros _ _. right. split; [done|]. lia. }
  rewrite (M_bind_ok _ _ _ _ _ E1). pose proof Hrc1 as [[_ Hrb1] _ _ _ _].
  destruct (recv_answers_ok ks (recv_room now c) wire rs wire' c1 rb1 0 Hrb1 Hroom Hans)
    as (c2 & t & got & E2 & -> & Hrb2 & Hos2 & Hcap2 & Hgot).
  rewrite (M_bind_ok _ _ _ _ _ E2). apply Forall_app in Hms as [Hms0 Hms1].
  assert (Hrc2 : recvs C R c2 inb1 (rb1 ++ got) ms1).
  { destruct Hrc1 as [[Ho1 _] Hw1 Hp1 Hc1 Hr1]. split; rewrite ?Hos2, ?Hcap2; try done. split; [by rewrite Hos2|done]. }
  assert (Hm2 : unread (c_ses c2) inb1 (rb1 ++ got) ++ (wire' ++ more) = ms1 ≫= body_frame).
  { rewrite <- Hm1. unfold unread. rewrite Hos2, <- !app_assoc. done. }
  destruct (conn_on_recv now C R c2 inb1 (rb1 ++ got) ms1 (wire' ++ more) Hreg Hms1 Hrc2 Hm2)
    as (c3 & ps2 & ms2 & ms3 & inb3 & rb3 & E3 & _ & -> & Hps2 & Hrc3 & Hm3 & Hl3).
  rewrite (M_bind_ok _ _ _ _ _ E3).
  exists c3, t, (ps1 ++ ps2), (ms0 ++ ms2), ms3, inb3, rb3.
  destruct (recvs_room _ _ _ _ _ _ Hrc2) as (HC2 & _ & _). rewrite len_app in Hl3.
  pose proof (len_nonneg rb1). pose proof (len_nonneg got).
  split; [done|]. split; [by rewrite app_assoc|]. split; [by apply Forall2_app|]. split; [done|]. split; [done|].
  unfold behind. rewrite len_app. split; [lia|].
  intros Hr HR1 Hb (n & ks' & ->).
  assert (Hfree2 : 1 <= C - len inb1).
  { apply (roomy_free _ _ _ _ _ _ Hrc2). destruct Hr as [? Hr]. split; [done|].
    by apply Forall_app in Hr as [_ Hr]. }
  destruct (Hprog1 Hr HR1) as [Hlt|[-> Hpos]]; [lia|].
  assert (0 < len rb + len got); [|lia].
  destruct (decide (got ++ wire' = [])) as [Hnil|Hnil].
  - apply app_nil in Hnil as [-> ->]. change (len (@nil byte)) with 0 in *. lia.
  - pose proof (Hgot n ks' eq_refl Hpos Hnil) as Hg. destruct got; [done|]. rewrite len_cons. pose proof (len_nonneg got). lia.
Qed.

(** The sending half: what is still to be sent, and nothing with the kernel
    that the link has not taken. *)
Definition sends (c : conn) (out : list byte) : Prop :=
  exists buf queued, conn_ok c buf queued /\ idle_offset c buf /\
    c_sent c ++ pending (ses_write_offset (c_ses c)) buf queued = out.

Lemma sends_out_side c c' out : out_side c' = out_side c -> sends c out -> sends c' out.
Proof.
  intros E (buf & q & Hok & Hi & Hp). exists buf, q. split; [by eapply out_side_ok|].
  unfold out_side in E. injection E as _ _ E3 E4 _. unfold idle_offset. by rewrite E3, E4.
Qed.

Lemma recvs_in_side C R c c' inb rb ms : in_side c' = in_side c -> recvs C R c inb rb ms -> recvs C R c' inb rb ms.
Proof.
  unfold in_side. intros [= E1 E2] [[Ho Hb] Hw Hp Hc Hr].
  split; [split|..]; rewrite ?E1, ?E2; done.
Qed.

Lemma unread_in_side c c' inb rb : in_side c' = in_side c -> unread (c_ses c') inb rb = unread (c_ses c) inb rb.
Proof. unfold in_side, unread. by intros [= -> _]. Qed.

Lemma handle_write_sends now rs c out : sends c out -> rooms_positive rs ->
  exists c' t, handle_write now rs c = (c', Ok t) /\ sends c' out /\ in_side c' = in_side c.
Proof.
  intros (buf & q & Hok & Hi & <-) Hr.
  destruct (handle_write_ok now rs c buf q Hok Hi Hr) as (c' & t & b' & q' & E & Hok' & Hi' & Hs & _).
  exists c', t. split; [done|]. split; [by exists b', q'|].
  pose proof (handle_write_in now rs c) as Hin. by rewrite E in Hin.
Qed.

Lemma handle_close_ok c : ev_base (c_ev c) = true -> exists c', handle_close c = (c', Ok tt) /\
  in_side c' = in_side c /\ out_side c' = out_side c.
Proof.
  intros Hb. pose proof (handle_close_sides c) as [Hi Ho].
  assert (E : (handle_close c).2 = Ok tt).
  { unfold handle_close. rewrite M_get. destruct (session_is_close _); [|done].
    destruct (negb _); [|done]. destruct (permit_send_ok c Hb) as (c' & E & _). by rewrite E. }
  exists (handle_close c).1. split; [|done]. destruct (handle_close c). by simpl in *; subst.
Qed.

(** One event of a connection: what is read comes out as messages, what is
    written is taken from the output, neither disturbs the other. *)
Lemma io_handle_event_ok active now ks sd C R c inb rb ms wire rs wire' more out :
  stubs_ok reg -> Forall (good_body reg) ms -> recvs C R c inb rb ms -> sends c out -> rooms_positive sd ->
  unread (c_ses c) inb rb ++ wire ++ more = ms ≫= body_frame ->
  (if has active EVENT_RECV then recv_answers (recv_room now c) wire ks else ([], wire)) = (rs, wire') ->
  exists c' ps ms1 ms2 inb' rb', io_handle_event reg active now rs sd c = (c', Ok ps) /\
    ms = ms1 ++ ms2 /\ Forall2 (fun p b => prot_body p ≡ b) ps ms1 /\ recvs C R c' inb' rb' ms2 /\
    unread (c_ses c') inb' rb' ++ wire' ++ more = ms2 ≫= body_frame /\ sends c' out /\
    behind rb' wire' <= behind rb wire /\
    (has active EVENT_RECV = true -> roomy C ms -> 1 <= R -> 0 < behind rb wire ->
     (exists n ks', ks = KRecv (S n) :: ks') -> behind rb' wire' < behind rb wire).
Proof.
  intros Hreg Hms Hrc Hsd Hrooms Hm Hans. unfold io_handle_event.
  assert (exists c1 ps ms1 ms2 inb' rb', (if has active EVENT_RECV then r ← handle_read reg now rs; mret r.2 else mret []) c
      = (c1, Ok ps) /\
    ms = ms1 ++ ms2 /\ Forall2 (fun p b => prot_body p ≡ b) ps ms1 /\ recvs C R c1 inb' rb' ms2 /\
    unread (c_ses c1) inb' rb' ++ wire' ++ more = ms2 ≫= body_frame /\ out_side c1 = out_side c /\
    behind rb' wire' <= behind rb wire /\
    (has active EVENT_RECV = true -> roomy C ms -> 1 <= R -> 0 < behind rb wire ->
     (exists n ks', ks = KRecv (S n) :: ks') -> behind rb' wire' < behind rb wire))
    as (c1 & ps & ms1 & ms2 & inb' & rb' & E1 & -> & Hps & Hrc1 & Hm1 & Ho1 & Hle & Hlt).
  { destruct (has active EVENT_RECV).
    - destruct (handle_read_stream now ks C R c inb rb ms wire rs wire' more Hreg Hms Hrc Hm Hans)
        as (c' & t & ps & ms1 & ms2 & inb' & rb' & E & -> & Hps & Hrc' & Hm' & Hle & Hlt).
      exists c', ps, ms1, ms2, inb', rb'. pose proof (handle_read_out reg now rs c) as Ho. rewrite E in Ho.
      rewrite (M_bind_ok _ _ _ _ _ E). split_and!; auto.
    - injection Hans as <- <-. exists c, [], [], ms, inb, rb. do 6 (split; [done|]). split; [lia|done]. }
  rewrite (M_bind_ok _ _ _ _ _ E1).
  apply (sends_out_side c c1) in Hsd; [|done].
  assert (exists c2, (if has active EVENT_SEND then handle_write now sd;; mret tt else mret tt) c1 = (c2, Ok tt) /\
    sends c2 out /\ in_side c2 = in_side c1) as (c2 & E2 & Hsd2 & Hi2).
  { destruct (has active EVENT_SEND); [|by exists c1].
    destruct (handle_write_sends now sd c1 out Hsd Hrooms) as (c2 & t & E & ? & ?).
    exists c2. rewrite (M_bind_ok _ _ _ _ _ E). by split. }
  rewrite (M_bind_ok _ _ _ _ _ E2). pose proof Hsd2 as (? & ? & [_ Hbase] & _).
  destruct (handle_close_ok c2 Hbase) as (c3 & E3 & Hi3 & Ho3). rewrite (M_bind_ok _ _ _ _ _ E3).
  assert (Hi : in_side c3 = in_side c1) by congruence.
  exists c3, ps, ms1, ms2, inb', rb'. rewrite (unread_in_side _ _ _ _ Hi).
  split_and!; try done; [by eapply recvs_in_side|by eapply sends_out_side].
Qed.

(** ** Sending a message

    [session_manager::send_protocol] for the session of a connection, which the
    manager [m] knows by [sid] and has at [p]. *)
Definition conn_send (stale : list cell) (os : octetsstream) (m : session_manager) (sid p : Z)
    (prot : protocol B) : M conn bool := fun c =>
  let '(m', r) := send_protocol stale os sid prot (sm_with_heap (<[p := c_ses c]> (sm_heap m)) m) in
  let s := default (c_ses c) (sm_heap m' !! p) in
  (queued ← lift r;
   (if queued : bool then session_permit_send else mret tt);;
   mret queued) (mk_conn s (c_ev c) (c_changed c) (c_sent c)).

Lemma queue_octets_in data n s s' ok : queue_octets data n s = Ok (s', ok) ->
  ses_reados s' = ses_reados s /\ ses_readbuf s' = ses_readbuf s.
Proof.
  unfold queue_octets. destruct (n >? _); [by intros [= <- <-]|].
  intros (d & _ & [= <- <-])%outcome_bind_Ok. done.
Qed.

Lemma conn_send_ok stale os bs m sid p prot c out :
  find_session sid m = Some p -> len stale = 2 -> octets_repr (os_data os) bs ->
  good_body reg (prot_body prot) -> sends c out ->
  exists c' queued, conn_send stale os m sid p prot c = (c', Ok queued) /\ in_side c' = in_side c /\
    c_sent c' = c_sent c /\ ev_status (c_ev c') = ev_status (c_ev c) /\
    sends c' (if queued : bool then out ++ body_frame (prot_body prot) else out).
Proof.
  intros Hf Hst Hos (Hw & _ & _ & Hmax) Hsd.
  unfold conn_send, send_protocol. rewrite M_get. change (find_session sid (sm_with_heap _ m)) with (find_session sid m).
  rewrite Hf. set (m0 := sm_with_heap _ m).
  rewrite (M_bind_ok _ _ m0 m0 (c_ses c)) by (unfold sm_deref; simpl; by rewrite lookup_insert_eq).
  assert (Hc : mk_conn (c_ses c) (c_ev c) (c_changed c) (c_sent c) = c) by by destruct c.
  destruct (session_is_close (c_ses c)) eqn:Ecl.
  { unfold mret, M_ret. simpl. rewrite lookup_insert_eq. simpl. rewrite Hc. exists c, false. by split_and!. }
  destruct Hsd as (buf & q & [Hout Hbase] & Hi & Hp).
  destruct (encode_spec stale prot (os_clear os) [] Hw Hst) as (os' & Ee & [Hos' _] & _); [split; [by eapply clear_repr|done]|done|].
  rewrite Ee. destruct (repr_split _ _ Hos') as (tl & Hbuf & _).
  destruct (queue_octets_ok (o_buf (os_data os')) _ tl (c_ses c) buf q Hout Hbuf) as (s' & ok & Eq & Hok & Hoff & _).
  unfold os_size. rewrite (size_repr _ _ Hos'). destruct (queue_octets_in _ _ _ _ _ Eq) as [Hr1 Hr2].
  rewrite (M_bind_ok _ _ m0 m0 tt) by done. rewrite (M_bind_ok _ _ m0 m0 (s', ok)) by (unfold lift; by rewrite Eq).
  unfold sm_store. rewrite M_modify. unfold mret at 1, M_ret at 1. cbn [fst snd sm_heap sm_with_heap].
  rewrite lookup_insert_eq. cbn [default]. set (c1 := mk_conn s' (c_ev c) (c_changed c) (c_sent c)).
  rewrite (M_bind_ok _ _ c1 c1 ok) by done.
  assert (Hs1 : sends c1 (if ok then out ++ body_frame (prot_body prot) else out)).
  { destruct ok.
    - destruct Hok as [Ho _]. exists buf, (q ++ body_frame (prot_body prot)). split; [by split|].
      unfold idle_offset, c1 in *. cbn [c_ses c_sent]. rewrite Hoff. split; [done|]. rewrite <- Hp. unfold pending.
      by rewrite !app_assoc.
    - destruct Hok as [-> _]. exists buf, q. by split_and!. }
  destruct ok.
  - destruct (permit_send_ok c1 Hbase) as (c2 & E2 & _ & Hs2 & Hst2). rewrite (M_bind_ok _ _ _ _ _ E2).
    destruct (ses_event_op_sides permit_write c1) as [Hi2 Ho2]; [intros e r; apply ev_change_base|].
    unfold session_permit_send in E2. rewrite E2 in Hi2, Ho2. cbn [fst] in Hi2, Ho2. exists c2, true. split; [done|].
    split; [rewrite Hi2; unfold in_side, c1; cbn [c_ses]; by rewrite Hr1, Hr2|]. split; [done|]. split; [done|].
    by apply (sends_out_side c1).
  - exists c1, false. split; [done|]. split; [unfold in_side, c1; cbn [c_ses]; by rewrite Hr1, Hr2|]. by split_and!.
Qed.
End OneEnd.

(** ** Two ends and the kernel between them *)

Record endpoint (B : Type) := mk_endpoint {
  ep_manager : session_manager;
  ep_sid : Z;
  ep_addr : Z;
  ep_conn : conn;
  ep_wire : list byte;               (* the bytes the kernel has for this end *)
  ep_accepted : list B;              (* the messages whose sending was not refused *)
  ep_delivered : list (protocol B);  (* the messages handed over *)
}.
Arguments mk_endpoint {B}.
Arguments ep_manager {B}.
Arguments ep_sid {B}.
Arguments ep_addr {B}.
Arguments ep_conn {B}.
Arguments ep_wire {B}.
Arguments ep_accepted {B}.
Arguments ep_delivered {B}.

Inductive side := SideA | SideB.

(** What happens at one end: somebody sends a message, with the thread's
    stream and vector as they are left by what was sent before; or the reactor
    hands the event what epoll reports of it. *)
Inductive link_op (B : Type) :=
  | LinkSend (x : side) (stale : list cell) (os : octetsstream) (prot : protocol B)
  | LinkEvent (x : side) (active now : Z) (ks : list kernel_recv) (sd : list send_result).
Arguments LinkSend {B}.
Arguments LinkEvent {B}.

Section Link.
Context {B : Type} `{!ProtocolBody B} (reg : stubs B).

Definition ep_send (stale : list cell) (os : octetsstream) (prot : protocol B) (e : endpoint B)
    : outcome (endpoint B) :=
  let '(c, r) := conn_send stale os (ep_manager e) (ep_sid e) (ep_addr e) prot (ep_conn e) in
  queued ← r;
  Ok (mk_endpoint (ep_manager e) (ep_sid e) (ep_addr e) c (ep_wire e)
        (ep_accepted e ++ if queued : bool then [prot_body prot] else []) (ep_delivered e)).

(** An event that has been deleted is not called any more.  What was written
    is with the kernel, which has it for the other end. *)
Definition ep_event (active now : Z) (ks : list kernel_recv) (sd : list send_result)
    (e peer : endpoint B) : outcome (endpoint B * endpoint B) :=
  let c := ep_conn e in
  if ev_is_close (c_ev c) then Ok (e, peer)
  else
    let '(rs, wire) := if has active EVENT_RECV then recv_answers (recv_room reg now c) (ep_wire e) ks
                       else ([], ep_wire e) in
    let '(c, r) := io_handle_event reg active now rs sd c in
    ps ← r;
    Ok (mk_endpoint (ep_manager e) (ep_sid e) (ep_addr e) (mk_conn (c_ses c) (c_ev c) (c_changed c) [])
          wire (ep_accepted e) (ep_delivered e ++ ps),
        mk_endpoint (ep_manager peer) (ep_sid peer) (ep_addr peer) (ep_conn peer)
          (ep_wire peer ++ c_sent c) (ep_accepted peer) (ep_delivered peer)).

Definition link_step (op : link_op B) (l : endpoint B * endpoint B) : outcome (endpoint B * endpoint B) :=
  match op with
  | LinkSend SideA stale os prot => a ← ep_send stale os prot l.1; Ok (a, l.2)
  | LinkSend SideB stale os prot => b ← ep_send stale os prot l.2; Ok (l.1, b)
  | LinkEvent SideA active now ks sd => ep_event active now ks sd l.1 l.2
  | LinkEvent SideB active now ks sd => r ← ep_event active now ks sd l.2 l.1; Ok (r.2, r.1)
  end.

Fixpoint link_run (ops : list (link_op B)) (l : endpoint B * endpoint B) : outcome (endpoint B * endpoint B) :=
  match ops with [] => Ok l | op :: ops => l ← link_step op l; link_run ops l end.
End Link.

Section LinkLaws.
Context {B : Type} `{!ProtocolBody B, !Equiv B, !ProtocolBodyOk B} (reg : stubs B).

(** The messages sent can be sent, [send] never gives a negative count. *)
Definition op_ok (op : link_op B) : Prop :=
  match op with
  | LinkSend _ stale os prot => len stale = 2 /\ (exists bs, octets_repr (os_data os) bs) /\
      good_body reg (prot_body prot)
  | LinkEvent _ _ _ _ sd => rooms_positive sd
  end.

(** A connection that was just opened: nothing sent, nothing received. *)
Record fresh_end (C R : Z) (e : endpoint B) : Prop := {
  fe_found : find_session (ep_sid e) (ep_manager e) = Some (ep_addr e);
  fe_base : ev_base (c_ev (ep_conn e)) = true;
  fe_out : ses_out (c_ses (ep_conn e)) [] [];
  fe_sent : c_sent (ep_conn e) = [];
  fe_in : ses_in (c_ses (ep_conn e)) [] [];
  fe_cap : o_cap (os_data (ses_reados (c_ses (ep_conn e)))) = C;
  fe_rcap : o_cap (ses_readbuf (c_ses (ep_conn e))) = R;
  fe_empty : ep_wire e = [] /\ ep_accepted e = [] /\ ep_delivered e = [];
}.

(** One direction: the messages accepted at [src] are those delivered at [dst]
    and then those whose frames are on the way.  [rb] waits in the read buffer
    of [dst], [out] has not been given to the kernel. *)
Definition way (C R : Z) (src dst : endpoint B) (rb out : list byte) : Prop :=
  exists ms1 ms inb, ep_accepted src = ms1 ++ ms /\
    Forall2 (fun p b => prot_body p ≡ b) (ep_delivered dst) ms1 /\
    Forall (good_body reg) ms /\ recvs C R (ep_conn dst) inb rb ms /\
    sends (ep_conn src) out /\ c_sent (ep_conn src) = [] /\
    unread (c_ses (ep_conn dst)) inb rb ++ ep_wire dst ++ out = ms ≫= body_frame.

Definition ep_ok (e : endpoint B) : Prop := find_session (ep_sid e) (ep_manager e) = Some (ep_addr e).

Lemma waiting_app d (ms : list B) b : 0 < len (body_frame b) -> waiting d ms -> waiting d (ms ++ [b]).
Proof. destruct ms; [|done]. simpl. by intros ? ->. Qed.

Lemma ep_send_way x stale os prot C R C' R' src dst rb out rb' out' :
  op_ok (LinkSend x stale os prot) -> ep_ok src -> way C R src dst rb out -> way C' R' dst src rb' out' ->
  exists src' out1, ep_send stale os prot src = Ok src' /\ ep_ok src' /\
    way C R src' dst rb out1 /\ way C' R' dst src' rb' out'.
Proof.
  intros (Hst & (bs & Hos) & Hg) Hok (ms1 & ms & inb & Ha & Hd & Hms & Hrc & Hsd & Hs & Hm)
    (ms1' & ms' & inb' & Ha' & Hd' & Hms' & Hrc' & Hsd' & Hs' & Hm').
  destruct (conn_send_ok reg stale os bs (ep_manager src) (ep_sid src) (ep_addr src) prot (ep_conn src) out Hok Hst Hos Hg Hsd)
    as (c' & ok & E & Hi & Hsent & _ & Hsd1).
  unfold ep_send. rewrite E. eexists _, _. split; [done|]. split; [done|]. split.
  - exists ms1, (ms ++ if ok then [prot_body prot] else []), inb. cbn [ep_accepted ep_conn ep_wire].
    split; [by rewrite Ha, <- app_assoc|]. split; [done|]. split; [apply Forall_app; split; [done|]; by destruct ok; auto|].
    split; [|split; [exact Hsd1|split; [congruence|]]].
    + destruct ok; [|by rewrite app_nil_r]. destruct (good_frame reg _ Hg) as (_ & _ & Hpos & _).
      destruct Hrc as [? ? ? ? ?]. split; try done. by apply waiting_app.
    + destruct ok; [|by rewrite app_nil_r]. rewrite bind_app, <- Hm, bind_cons. simpl. by rewrite app_nil_r, !app_assoc.
  - exists ms1', ms', inb'. cbn [ep_delivered ep_conn ep_wire]. do 3 (split; [done|]).
    split; [by eapply recvs_in_side|]. split; [done|]. split; [done|]. by rewrite (unread_in_side _ _ _ _ Hi).
Qed.

(** The event of [dst], which receives from [src] and sends to it. *)
Lemma ep_event_way active now ks sd C R C' R' src dst rb out rb' out' :
  stubs_ok reg -> rooms_positive sd -> ep_ok dst -> way C R src dst rb out -> way C' R' dst src rb' out' ->
  exists dst' src' rb1 out1, ep_event reg active now ks sd dst src = Ok (dst', src') /\ ep_ok dst' /\
    way C R src' dst' rb1 out /\ way C' R' dst' src' rb' out1 /\
    ep_accepted src' = ep_accepted src /\ ep_conn src' = ep_conn src /\
    ep_sid src' = ep_sid src /\ ep_manager src' = ep_manager src /\ ep_addr src' = ep_addr src /\
    (ev_is_close (c_ev (ep_conn dst)) = false -> behind rb1 (ep_wire dst') <= behind rb (ep_wire dst) /\
      (has active EVENT_RECV = true -> roomy C (ep_accepted src) -> 1 <= R -> 0 < behind rb (ep_wire dst) ->
       (exists n ks', ks = KRecv (S n) :: ks') -> behind rb1 (ep_wire dst') < behind rb (ep_wire dst))).
Proof.
  intros Hreg Hrooms Hok (ms1 & ms & inb & Ha & Hd & Hms & Hrc & Hsd & Hs & Hm)
    (ms1' & ms' & inb' & Ha' & Hd' & Hms' & Hrc' & Hsd' & Hs' & Hm').
  unfold ep_event. destruct (ev_is_close (c_ev (ep_conn dst))) eqn:Ecl.
  { exists dst, src, rb, out'. do 2 (split; [done|]). split; [by exists ms1, ms, inb|].
    split; [by exists ms1', ms', inb'|]. do 5 (split; [done|]). done. }
  destruct (if has active EVENT_RECV then _ else _) as [rs wire'] eqn:Ers.
  destruct (io_handle_event_ok reg active now ks sd C R (ep_conn dst) inb rb ms (ep_wire dst) rs wire' out out'
    Hreg Hms Hrc Hsd' Hrooms Hm Ers)
    as (c' & ps & ms2 & ms3 & inb1 & rb1 & E & -> & Hps & Hrc1 & Hm1 & (buf & q & Hc & Hi & Hp) & Hle & Hlt).
  rewrite E. set (c1 := mk_conn (c_ses c') (c_ev c') (c_changed c') []).
  eexists _, _, rb1, (pending (ses_write_offset (c_ses c')) buf q). split; [done|]. split; [done|].
  apply Forall_app in Hms as [Hms2 Hms3]. split; [|split; [|do 5 (split; [done|])]].
  - exists (ms1 ++ ms2), ms3, inb1. cbn [ep_accepted ep_conn ep_wire ep_delivered].
    split; [by rewrite Ha, app_assoc|]. split; [by apply Forall2_app|]. split; [done|]. split; [|done].
    by apply (recvs_in_side C R c').
  - exists ms1', ms', inb'. cbn [ep_accepted ep_conn ep_wire ep_delivered].
    do 4 (split; [done|]). split; [|split; [done|]].
    + exists buf, q. split; [|by split]. destruct Hc as [[? ? ?] ?]. by split.
    + rewrite <- Hm', <- Hp, <- !app_assoc. done.
  - intros _. split; [done|]. intros Hr [HC Hroomy] HR Hb Hks. apply Hlt; try done. split; [done|].
    rewrite Ha in Hroomy. by apply Forall_app in Hroomy as [_ ?].
Qed.

(** Both directions of a link. *)
Definition link_inv (CA RA CB RB : Z) (l : endpoint B * endpoint B) : Prop :=
  ep_ok l.1 /\ ep_ok l.2 /\ (exists rb out, way CB RB l.1 l.2 rb out) /\ (exists rb out, way CA RA l.2 l.1 rb out).

Lemma link_step_inv CA RA CB RB op l : stubs_ok reg -> op_ok op -> link_inv CA RA CB RB l ->
  exists l', link_step reg op l = Ok l' /\ link_inv CA RA CB RB l'.
Proof.
  intros Hreg Hop. destruct l as [a b]. intros (Ha & Hb & (rb & out & Hw) & (rb' & out' & Hw')). simpl in *.
  destruct op as [[|] stale os prot|[|] active now ks sd]; cbn [link_step fst snd].
  - destruct (ep_send_way SideA stale os prot _ _ _ _ _ _ _ _ _ _ Hop Ha Hw Hw') as (a' & o1 & -> & ? & ? & ?).
    eexists. split; [done|]. split_and!; simpl; eauto.
  - destruct (ep_send_way SideA stale os prot _ _ _ _ _ _ _ _ _ _ Hop Hb Hw' Hw) as (b' & o1 & -> & ? & ? & ?).
    eexists. split; [done|]. split_and!; simpl; eauto.
  - destruct (ep_event_way active now ks sd _ _ _ _ _ _ _ _ _ _ Hreg Hop Ha Hw' Hw)
      as (a' & b' & r1 & o1 & -> & ? & ? & ? & _ & _ & E1 & E2 & E3 & _).
    eexists. split; [done|]. unfold link_inv, ep_ok in *. simpl. rewrite E1, E2, E3. eauto 10.
  - destruct (ep_event_way active now ks sd _ _ _ _ _ _ _ _ _ _ Hreg Hop Hb Hw Hw')
      as (b' & a' & r1 & o1 & -> & ? & ? & ? & _ & _ & E1 & E2 & E3 & _).
    eexists. split; [done|]. unfold link_inv, ep_ok in *. simpl. rewrite E1, E2, E3. eauto 10.
Qed.

Lemma link_run_inv CA RA CB RB ops l : stubs_ok reg -> Forall op_ok ops -> link_inv CA RA CB RB l ->
  exists l', link_run reg ops l = Ok l' /\ link_inv CA RA CB RB l'.
Proof.
  intros Hreg Hops. revert l. induction Hops as [|op ops Hop Hops IH]; intros l Hl; [by exists l|].
  destruct (link_step_inv _ _ _ _ op l Hreg Hop Hl) as (l1 & E & Hl1). simpl. rewrite E. by apply IH.
Qed.

Lemma fresh_way C R C' R' a b : fresh_end C' R' a -> fresh_end C R b -> way C R a b [] [].
Proof.
  intros [_ HbA HoA HsA _ _ _ (_ & HaA & _)] [_ _ _ _ [HinB HbB] Hc Hr (HwB & _ & HdB)].
  exists [], [], []. rewrite HaA, HdB, HwB. pose proof HinB as [_ Hp]. change (len (@nil byte)) with 0 in Hp.
  split; [done|]. split; [done|]. split; [done|]. split; [|split; [|split; [done|]]].
  - split; [done| |unfold SHRINK; lia|done|done]. simpl. by rewrite drop_nil.
  - exists [], []. split; [by split|]. destruct HoA as [_ _ Ho]. change (len (@nil byte)) with 0 in Ho.
    split; [right; split; [done|lia]|]. rewrite HsA. unfold pending. by rewrite drop_nil.
  - unfold unread. by rewrite drop_nil.
Qed.

Lemma fresh_inv CA RA CB RB a b : fresh_end CA RA a -> fresh_end CB RB b -> link_inv CA RA CB RB (a, b).
Proof.
  intros Ha Hb. split_and!; [by destruct Ha|by destruct Hb|..]; exists [], []; simpl; by eapply fresh_way.
Qed.

(** An end whose event has been deleted is given nothing any more. *)
Lemma closed_step CA RA CB RB op l l' : stubs_ok reg -> op_ok op -> link_inv CA RA CB RB l ->
  ev_is_close (c_ev (ep_conn l.2)) = true -> link_step reg op l = Ok l' ->
  ev_is_close (c_ev (ep_conn l'.2)) = true /\ ep_delivered l'.2 = ep_delivered l.2.
Proof.
  intros Hreg Hop. destruct l as [a b]. intros (Ha & Hb & (rb & out & Hw) & (rb' & out' & Hw')) Hcl E. simpl in *.
  destruct op as [[|] stale os prot|[|] active now ks sd]; cbn [link_step fst snd] in E.
  - apply outcome_bind_Ok in E as (a' & _ & [= <-]). done.
  - apply outcome_bind_Ok in E as (b' & E & [= <-]). destruct Hop as (Hst & (bs & Hos) & Hg).
    destruct Hw' as (? & ? & ? & _ & _ & _ & _ & Hsd & _).
    destruct (conn_send_ok reg stale os bs _ _ _ prot _ _ Hb Hst Hos Hg Hsd) as (c' & ok & E' & _ & _ & Hev & _).
    unfold ep_send in E. rewrite E' in E. simpl in E. injection E as <-. simpl. unfold ev_is_close in *. by rewrite Hev.
  - destruct (ep_event_way active now ks sd _ _ _ _ _ _ _ _ _ _ Hreg Hop Ha Hw' Hw)
      as (a' & b' & r1 & o1 & E' & _ & _ & _ & _ & Hc & _).
    rewrite E' in E. injection E as <-. simpl. rewrite Hc. split; [done|].
    unfold ep_event in E'. destruct (ev_is_close (c_ev (ep_conn a))); [by injection E' as _ <-|].
    destruct (if has active EVENT_RECV then _ else _) as [rs w]. destruct (io_handle_event _ _ _ _ _ _) as [c [ps| |]]; [|done..].
    by injection E' as _ <-.
  - unfold ep_event in E. rewrite Hcl in E. simpl in E. injection E as <-. done.
Qed.

Lemma closed_run CA RA CB RB ops l l' : stubs_ok reg -> Forall op_ok ops -> link_inv CA RA CB RB l ->
  ev_is_close (c_ev (ep_conn l.2)) = true -> link_run reg ops l = Ok l' ->
  ev_is_close (c_ev (ep_conn l'.2)) = true /\ ep_delivered l'.2 = ep_delivered l.2.
Proof.
  intros Hreg Hops. revert l. induction Hops as [|op ops Hop Hops IH]; intros l Hl Hcl E.
  { injection E as <-. done. }
  simpl in E. apply outcome_bind_Ok in E as (l1 & E1 & E).
  destruct (closed_step _ _ _ _ op l l1 Hreg Hop Hl Hcl E1) as [Hcl1 <-].
  destruct (link_step_inv _ _ _ _ op l Hreg Hop Hl) as (l2 & E2 & Hl2). rewrite E1 in E2. injection E2 as <-.
  by apply IH.
Qed.

(** *** Everything arrives *)

(** A call of the second end's event that finds at least a byte readable, if
    there is one. *)
Definition reads_b (op : link_op B) : Prop :=
  exists now n ks sd, op = LinkEvent SideB EVENT_RECV now (KRecv (S n) :: ks) sd /\ rooms_positive sd.

Lemma behind_done C R a b rb : way C R a b rb [] -> behind rb (ep_wire b) <= 0 ->
  Forall2 (fun p b => prot_body p ≡ b) (ep_delivered b) (ep_accepted a).
Proof.
  intros (ms1 & ms & inb & -> & Hd & _ & [_ Hw _ _ _] & _ & _ & Hm) Hb. unfold behind in Hb.
  pose proof (len_nonneg rb). pose proof (len_nonneg (ep_wire b)).
  assert (rb = []) as -> by (destruct rb; [done|rewrite len_cons in *; pose proof (len_nonneg rb); lia]).
  destruct (ep_wire b) as [|x w]; [|rewrite len_cons in *; pose proof (len_nonneg w); lia].
  unfold unread in Hm. rewrite !app_nil_r in Hm. destruct ms as [|m ms]; [by rewrite app_nil_r|].
  simpl in Hw. rewrite Hm, bind_cons, len_app in Hw. pose proof (len_nonneg (ms ≫= body_frame)). lia.
Qed.

Lemma reads_drain CA RA CB RB reads a b rb out' rb' : stubs_ok reg -> Forall reads_b reads ->
  ep_ok b -> way CB RB a b rb [] -> way CA RA b a rb' out' ->
  roomy CB (ep_accepted a) -> 1 <= RB -> behind rb (ep_wire b) <= Z.of_nat (length reads) ->
  exists a' b', link_run reg reads (a, b) = Ok (a', b') /\ ep_accepted a' = ep_accepted a /\
    (ev_is_close (c_ev (ep_conn b')) = true \/
     Forall2 (fun p b => prot_body p ≡ b) (ep_delivered b') (ep_accepted a')).
Proof.
  intros Hreg Hreads. revert a b rb out' rb'. induction Hreads as [|op reads Hop Hreads IH];
    intros a b rb out' rb' Hb Hw Hw' Hroomy HR Hlen.
  { exists a, b. split; [done|]. split; [done|]. right. by eapply behind_done. }
  destruct Hop as (now & n & ks & sd & -> & Hsd). cbn [link_run link_step fst snd].
  destruct (ep_event_way EVENT_RECV now (KRecv (S n) :: ks) sd _ _ _ _ _ _ _ _ _ _ Hreg Hsd Hb Hw Hw')
    as (b1 & a1 & rb1 & o1 & E & Hb1 & Hw1 & Hw1' & Ea & _ & _ & _ & _ & Hprog).
  destruct (ev_is_close (c_ev (ep_conn b))) eqn:Ecl.
  - assert (ep_event reg EVENT_RECV now (KRecv (S n) :: ks) sd b a = Ok (b, a)) as -> by (unfold ep_event; by rewrite Ecl).
    cbn [mbind outcome_bind]. clear -Ecl Hreads. exists a, b. split; [|by auto].
    induction Hreads as [|op reads (now & m & ks & sd & -> & _) _ IH]; [done|]. cbn [link_run link_step fst snd].
    unfold ep_event at 1. rewrite Ecl. exact IH.
  - rewrite E. cbn [mbind outcome_bind fst snd]. destruct (Hprog eq_refl) as [Hle Hlt].
    destruct (IH a1 b1 rb1 o1 rb') as (a' & b' & E' & Ha' & Hres); [done..|by rewrite Ea|done| |].
    { destruct (decide (behind rb (ep_wire b) = 0)); cbn [length] in Hlen; [lia|].
      pose proof (len_nonneg rb). pose proof (len_nonneg (ep_wire b)).
      assert (0 < behind rb (ep_wire b)) by (unfold behind in *; lia).
      assert (behind rb1 (ep_wire b1) < behind rb (ep_wire b)); [|lia]. apply Hlt; eauto. }
    exists a', b'. split; [done|]. split; [congruence|done].
Qed.
End LinkLaws.

(** An end that has given everything to the kernel. *)
Definition nothing_to_send (c : conn) : bool :=
  (octets_size (ses_writebuf (c_ses c)) =? ses_write_offset (c_ses c)) && (os_size (ses_writeos (c_ses c)) =? 0).

(** The bytes that have left one end and are not in the other's stream. *)
Definition in_flight {B} (e : endpoint B) : Z := octets_size (ses_readbuf (c_ses (ep_conn e))) + len (ep_wire e).

Lemma nothing_sends c out : nothing_to_send c = true -> c_sent c = [] -> sends c out -> out = [].
Proof.
  unfold nothing_to_send. rewrite andb_true_iff, !Z.eqb_eq. intros [H1 H2] Hs (buf & q & [[Hb Hq Ho] _] & _ & <-).
  rewrite (size_repr _ _ Hb) in H1. rewrite (os_size_repr _ _ Hq) in H2. rewrite Hs, <- H1. unfold pending, len in *.
  rewrite Nat2Z.id, drop_all. destruct q; [done|simpl in H2; lia].
Qed.

(** ** A stream that is full

    A session whose stream has no more than a mebibyte of room never gives any
    of it back: once it is full, nothing that arrives is taken up again. *)
Lemma full_stream_stuck {B} `{ProtocolBodyOk B} (reg : stubs B) now s inb buf :
  stubs_ok reg -> ses_in s inb buf -> o_cap (os_data (ses_reados s)) <= SHRINK ->
  len inb = o_cap (os_data (ses_reados s)) ->
  exists s' ps inb', session_on_recv reg now s = (s', Ok ps) /\ ses_in s' inb' buf /\
    o_cap (os_data (ses_reados s')) = o_cap (os_data (ses_reados s)) /\ len inb' = len inb.
Proof.
  intros Hreg Hin Hcap Hfull.
  destruct (on_recv_unfold reg now s inb buf Hin)
    as (s1 & inb1 & buf1 & Hin1 & Hp1 & _ & Hu1 & _ & _ & (Hc1 & _ & Hl1) & _ & ->).
  pose proof Hin as [[_ Hp] _]. pose proof Hin1 as [Ho1 _]. pose proof Ho1 as [_ Hp'].
  assert (Hlb : len buf1 = len buf) by (pose proof (len_nonneg buf); lia).
  assert (Hli : length inb1 = length inb).
  { apply (f_equal length) in Hu1. unfold unread in Hu1. rewrite Hp1 in Hu1, Hp'.
    rewrite !length_app, !length_drop in Hu1. unfold len in *. lia. }
  assert (buf1 = buf) as ->.
  { unfold unread in Hu1. rewrite Hp1 in Hu1. apply app_inj_1 in Hu1 as [_ ?]; [done|]. rewrite !length_drop. lia. }
  destruct (recv_protocols_sound reg (S (Z.to_nat (os_size (ses_reados s1)))) s1 inb1 buf Hreg Hin1)
    as (s2 & ps & E2 & [Ho2 Hb2] & _ & _ & _ & Hd2).
  { rewrite (os_size_repr _ _ Ho1). lia. }
  rewrite (M_bind_ok _ _ _ _ _ E2).
  destruct (try_shrink_ok (ses_reados s2) inb1 Ho2) as (os & inb2 & E3 & Ho3 & _).
  assert (os = ses_reados s2) as ->.
  { revert E3. unfold try_shrink. fold SHRINK. pose proof Ho2 as [_ Hp2]. unfold len in *.
    destruct (Z.gtb_spec (os_pos (ses_reados s2)) SHRINK); [lia|by intros [= <-]]. }
  exists (ses_with_read (ses_reados s2) (ses_readbuf s2) s2), ps, inb1.
  split; [rewrite (M_bind_ok _ _ s2 (ses_with_read (ses_reados s2) (ses_readbuf s2) s2) tt); [done|]; unfold on_reados; by rewrite E3|].
  split; [by split|]. cbn [ses_reados ses_with_read]. split; [|unfold len; by rewrite Hli].
  rewrite <- Hc1. by rewrite Hd2.
Qed.

(** ** A header that arrives in two pieces *)

Section HeaderCut.
Context {B : Type} `{!ProtocolBody B, !Equiv B, !ProtocolBodyOk B} (reg : stubs B).

Definition header (b : B) : list byte := varint (get_type b) ++ varint (len (body_bytes b)).

Lemma take_header k (b : B) : (0 < k < length (header b))%nat ->
  (exists k', (k' < length (varint (get_type b)))%nat /\ take k (header b) = take k' (varint (get_type b))) \/
  (exists k', (k' < length (varint (len (body_bytes b))))%nat /\
     take k (header b) = varint (get_type b) ++ take k' (varint (len (body_bytes b)))).
Proof.
  unfold header. rewrite length_app. intros Hk. destruct (decide (k < length (varint (get_type b)))%nat).
  - left. exists k. split; [done|]. by rewrite take_app_le by lia.
  - right. exists (k - length (varint (get_type b)))%nat. split; [lia|]. by rewrite take_app_ge by lia.
Qed.

(** [on_recv] closes the session. *)
Lemma on_recv_header_cut now s inb k b :
  good_body reg b -> ses_in s inb (take k (header b)) -> os_pos (ses_reados s) = len inb ->
  (0 < k < length (header b))%nat -> 1 <= o_cap (os_data (ses_reados s)) - len inb ->
  exists s', session_on_recv reg now s = (s', Ok []) /\ session_is_close s' = true.
Proof.
  intros Hg Hin Hp Hk Hroom. destruct (good_frame reg b Hg) as (Hid & Hn & _ & _).
  set (d := take k (header b)) in *.
  assert (Hld : len d = Z.of_nat k) by (unfold d, len; rewrite length_take; lia).
  destruct (on_recv_unfold reg now s inb d Hin)
    as (s1 & inb1 & buf1 & [Ho1 Hb1] & Hp1 & _ & Hu1 & _ & _ & (Hc1 & _ & Hl1) & _ & ->).
  assert (Hpos : os_pos (ses_reados s) = len inb) by done.
  unfold unread in Hu1. rewrite Hp1, Hpos in Hu1. unfold len at 2 in Hu1. rewrite Nat2Z.id, drop_all in Hu1.
  set (j := (k - length buf1)%nat).
  assert (Hd1 : drop (Z.to_nat (len inb)) inb1 = take j (header b)).
  { assert (Hlen : (length buf1 < k)%nat) by (unfold len in *; lia).
    assert (E : drop (Z.to_nat (len inb)) inb1 = take j d).
    { rewrite <- (app_nil_l d), <- Hu1. symmetry. apply take_app_length'.
      apply (f_equal length) in Hu1. rewrite !length_app in Hu1. simpl in Hu1. unfold len in Hld. unfold j. lia. }
    rewrite E. unfold d. rewrite take_take. f_equal. unfold j. lia. }
  assert (Hj : (0 < j < length (header b))%nat) by (unfold j; unfold len in *; lia).
  assert (Hpl : 0 <= len inb <= len inb1) by (destruct Ho1 as [_ Hx]; rewrite Hp1, Hpos in Hx; pose proof (len_nonneg inb); lia).
  pose proof (take_drop (Z.to_nat (len inb)) inb1) as Hsplit. rewrite Hd1 in Hsplit.
  set (pre := take (Z.to_nat (len inb)) inb1) in *.
  assert (Hpre : os_pos (ses_reados s1) = len pre) by (rewrite Hp1, Hpos; unfold pre, len in *; rewrite length_take; lia).
  rewrite <- Hsplit in Ho1.
  assert (Hdec : decode reg (ses_reados s1) s1 = (mk_os (os_data (ses_reados s1)) (len pre) (len pre),
    session_set_close SESSION_CLOSE_REASON_EXCEPTION s1, Ok None)).
  { apply (decode_header_cut reg _ s1 pre (take j (header b)) Ho1 Hpre).
    - unfold len. rewrite length_take. lia.
    - destruct (take_header j b Hj) as [(k' & Hk' & ->)|(k' & Hk' & ->)]; [left; eauto|right; eauto 10]. }
  set (s2 := ses_with_read (mk_os (os_data (ses_reados s1)) (len pre) (len pre)) (ses_readbuf s1)
    (session_set_close SESSION_CLOSE_REASON_EXCEPTION s1)).
  assert (E2 : recv_protocols reg (S (Z.to_nat (os_size (ses_reados s1)))) s1 = (s2, Ok [])).
  { cbn [recv_protocols]. rewrite M_get, Hdec. done. }
  rewrite (M_bind_ok _ _ _ _ _ E2).
  assert (Ho2 : os_repr (ses_reados s2) (pre ++ take j (header b))).
  { destruct Ho1 as [? Hx]. split; [done|]. rewrite Hpre in Hx. exact Hx. }
  destruct (try_shrink_ok (ses_reados s2) _ Ho2) as (os & inb2 & E3 & _ & _).
  exists (ses_with_read os (ses_readbuf s2) s2). split; [|done].
  rewrite (M_bind_ok _ _ s2 (ses_with_read os (ses_readbuf s2) s2) tt); [done|]. unfold on_reados. by rewrite E3.
Qed.

(** The first bytes the kernel gives. *)
Lemma recv_answers_one room wire n : 0 < room -> (0 < n)%nat -> wire <> [] ->
  exists k, (0 < k <= n)%nat /\ recv_answers room wire [KRecv n] = ([RecvData (take k wire)], drop k wire) /\
    len (take k wire) <= room.
Proof.
  intros Hr Hn Hw. set (k := Z.to_nat (Z.min (Z.of_nat n) room)). exists (length (take k wire)).
  assert (Hk : take (length (take k wire)) wire = take k wire).
  { rewrite length_take, <- take_take. by rewrite (take_ge wire (length wire)). }
  assert (Hl : (0 < length (take k wire) <= k)%nat) by (rewrite length_take; destruct wire; [done|simpl; unfold k; lia]).
  rewrite Hk. split; [unfold k in *; lia|]. cbn [recv_answers]. destruct (Z.eqb_spec room 0); [lia|]. fold k.
  destruct (take k wire) as [|x d] eqn:E; [simpl in Hl; lia|]. split; [done|]. unfold len, k in *. lia.
Qed.

(** The event closes. *)
Lemma event_header_cut C R now n sd c inb b ms wire more :
  Forall (good_body reg) (b :: ms) -> recvs C R c inb [] (b :: ms) -> os_pos (ses_reados (c_ses c)) = len inb ->
  wire ++ more = (b :: ms) ≫= body_frame -> wire <> [] -> (0 < n < length (header b))%nat ->
  1 <= R -> SHRINK < C -> ev_base (c_ev c) = true -> session_is_writeos_empty (c_ses c) = true ->
  exists c', io_handle_event reg EVENT_RECV now (recv_answers (recv_room reg now c) wire [KRecv n]).1 sd c
    = (c', Ok []) /\ ev_is_close (c_ev c') = true.
Proof.
  intros Hms Hrc Hp Hm Hw Hn HR HC Hbase Hempty. apply Forall_cons in Hms as [Hg _].
  destruct (recvs_room _ _ _ _ _ _ Hrc) as (_ & Hfree & _). change (len (@nil byte)) with 0 in Hfree.
  assert (Hroom : recv_room reg now c = R).
  { unfold recv_room. cbv zeta. rewrite Hfree. destruct (Z.eqb_spec (R - 0) 0); lia. }
  rewrite Hroom. destruct (recv_answers_one R wire n) as (k & Hk & -> & Hkr); [lia|lia|done|].
  destruct (good_frame reg b Hg) as (_ & _ & _ & Hf).
  assert (Hd : take k wire = take (length (take k wire)) (header b) /\ (0 < length (take k wire) <= n)%nat).
  { split; [|rewrite length_take; destruct wire; [done|simpl; lia]].
    assert (E : take (length (take k wire)) (wire ++ more) = take k wire).
    { rewrite <- (take_drop k wire) at 2. rewrite <- app_assoc. by rewrite take_app_length. }
    rewrite <- E at 1. rewrite Hm, bind_cons, Hf, app_assoc, <- !app_assoc, (app_assoc (varint _)).
    fold (header b). apply take_app_le. rewrite length_take. lia. }
  destruct Hd as [Hd Hkl]. set (k' := length (take k wire)) in *.
  destruct Hrc as [[Ho Hb] _ Hpos Hcap _].
  destruct (recv_store_ok _ _ (take k wire) Hb) as (o & Es & Hor & _); [lia|]. simpl in Hor.
  set (s1 := ses_with_read (ses_reados (c_ses c)) o (c_ses c)).
  set (c1 := mk_conn s1 (c_ev c) (c_changed c) (c_sent c)).
  destruct (on_recv_header_cut now s1 inb k' b) as (s2 & E2 & Hcl); [done| |done|lia|change (ses_reados s1) with (ses_reados (c_ses c)); lia|].
  { split; [done|]. by rewrite <- Hd. }
  set (c2 := mk_conn s2 (c_ev c) (c_changed c) (c_sent c)).
  assert (Er : exists t, handle_read reg now [RecvData (take k wire)] c = (c2, Ok (t, []))).
  { unfold handle_read. rewrite M_get. destruct (Z.eqb_spec (octets_free_space (ses_readbuf (c_ses c))) 0) as [Hz|Hz]; [lia|].
    rewrite (M_bind_ok _ _ c c []) by done.
    assert (Ea : exists t, recv_all [RecvData (take k wire)] 0 c = (c1, Ok t)).
    { cbn [recv_all]. rewrite M_get. cbv zeta. rewrite (proj2 (Z.eqb_neq _ _) Hz). unfold lift. unfold mbind at 1, M_bind at 1.
      rewrite Es. rewrite (M_bind_ok _ _ c c1 tt) by done. rewrite M_get. cbv zeta. destruct (_ =? 0); by eexists. }
    destruct Ea as [t Ea]. rewrite (M_bind_ok _ _ _ _ _ Ea). exists t.
    rewrite (M_bind_ok _ _ c1 c2 []); [done|]. unfold on_ses. cbn [c_ses c1]. by rewrite E2. }
  destruct Er as [t Er]. unfold io_handle_event. change (has EVENT_RECV EVENT_RECV) with true.
  change (has EVENT_RECV EVENT_SEND) with false. cbv iota. cbn [fst].
  rewrite (M_bind_ok _ _ c c2 []) by (by rewrite (M_bind_ok _ _ _ _ _ Er)).
  rewrite (M_bind_ok _ _ c2 c2 tt) by done.
  assert (Hwe : session_is_writeos_empty s2 = true).
  { pose proof (session_on_recv_out reg now s1) as Hso. rewrite E2 in Hso. unfold ses_out_side in Hso. cbn [fst] in Hso.
    injection Hso as H1 _ H3. unfold session_is_writeos_empty in *. by rewrite H1, H3. }
  exists (mk_conn s2 (ev_set_status EVENT_STATUS_DEL (c_ev c)) true (c_sent c)). split; [|done].
  rewrite (M_bind_ok _ _ c2 (mk_conn s2 (ev_set_status EVENT_STATUS_DEL (c_ev c)) true (c_sent c)) tt); [done|].
  unfold handle_close. rewrite M_get. cbn [c_ses c2]. rewrite Hcl, Hwe. cbn [negb].
  unfold conn_del_event, modify. cbn [c_ev c2]. by rewrite Hbase.
Qed.
End HeaderCut.

(** What is handed over at one end is the beginning of what was accepted for
    sending at the other. *)
Definition in_order {B} `{Equiv B} (src dst : endpoint B) : Prop :=
  exists arrived later, ep_accepted src = arrived ++ later /\
    Forall2 (fun p b => prot_body p ≡ b) (ep_delivered dst) arrived.

(** An end with empty buffers of these capacities, in the table of its manager. *)
Definition empty_octets (n : Z) : octets := mk_octets (replicate (Z.to_nat n) None) 0 n.
Definition open_end (C R W : Z) : endpoint TextMsg :=
  mk_endpoint (mk_manager 0 [] 0 42 {[ 42 := 1000 ]} ∅) 42 1000
    (mk_conn (io_session (mk_os (empty_octets C) 0 0) (empty_octets R) SESSION_STATE_ACTIVE
                (mk_os (empty_octets W) 0 0) (empty_octets W))
       (mk_event (io_event 5) EVENT_STATUS_ADD (Z.lor EVENT_RECV EVENT_SEND) true) false [])
    [] [] [].

Lemma empty_repr n : 0 <= n <= MAX_OCTETS -> octets_repr (empty_octets n) [].
Proof.
  intros Hn. apply repr_intro; [|done]. split; simpl; [|lia|lia]. unfold len. rewrite length_replicate. lia.
Qed.

Lemma open_fresh C R W : 0 <= C <= MAX_OCTETS -> 0 <= R <= MAX_OCTETS -> 0 <= W <= MAX_OCTETS ->
  fresh_end C R (open_end C R W).
Proof.
  intros HC HR HW. split; try done.
  - split; [by apply empty_repr|split; [by apply empty_repr|done]|done].
  - split; [split; [by apply empty_repr|done]|by apply empty_repr].
Qed.

(** One message is sent and given to the kernel. *)
Definition demo_ops : list (link_op TextMsg) :=
  [LinkSend SideA [None; None] (mk_os (empty_octets 16) 0 0) text_msg; LinkEvent SideA EVENT_SEND 3 [] [SendLen 100]].
Definition demo_sender : endpoint TextMsg := Eval vm_compute in
  match link_run text_reg demo_ops (open_end 64 64 64, open_end 64 64 64) with
  | Ok l => l.1 | _ => open_end 64 64 64
  end.
Definition demo_link (C : Z) : endpoint TextMsg * endpoint TextMsg :=
  let b := open_end C 64 64 in
  (demo_sender, mk_endpoint (ep_manager b) 42 1000 (ep_conn b) [x07; x04; x03; x61; x62; x63] [] []).

Lemma demo_run C : link_run text_reg demo_ops (open_end 64 64 64, open_end C 64 64) = Ok (demo_link C).
Proof. vm_compute. reflexivity. Qed.

Lemma demo_ops_ok : Forall (op_ok text_reg) demo_ops.
Proof.
  constructor; [|constructor; [repeat constructor; lia|done]].
  split; [done|]. split; [exists []; apply empty_repr; unfold MAX_OCTETS; lia|].
  split_and!; [vm_compute; intuition discriminate|done|by eexists|vm_compute; discriminate].
Qed.

(** ** Properties *)

(** C1 — Two sessions that were just opened and are connected deliver in order:
    whatever messages the callers at both ends send that can be sent
    ([good_body]: of a registered class, of a size that the size table measures
    right, below 2^14 bytes or from 2^15 up to 2^21, and that fits a stream),
    however the reactors call the events, the kernel cuts the bytes and the calls
    fail, a send that has room having room for a byte, nothing is undefined and
    no exception escapes, and at each end what is handed over is the beginning of
    what was accepted for sending at the other end -- no message is lost from
    the middle, doubled, reordered or changed. *)
Theorem link_delivers_in_order {B} `{ProtocolBodyOk B} (reg : stubs B) CA RA CB RB a b ops :
  stubs_ok reg -> fresh_end CA RA a -> fresh_end CB RB b -> Forall (op_ok reg) ops ->
  exists a' b', link_run reg ops (a, b) = Ok (a', b') /\ in_order a' b' /\ in_order b' a'.
Proof.
  intros Hreg Ha Hb Hops.
  destruct (link_run_inv reg CA RA CB RB ops (a, b) Hreg Hops (fresh_inv reg _ _ _ _ _ _ Ha Hb))
    as ([a' b'] & E & _ & _ & (? & ? & ms1 & ms & ? & Hw & Hd & _) & (? & ? & ms1' & ms' & ? & Hw' & Hd' & _)).
  exists a', b'. split; [done|]. split; [by exists ms1, ms|by exists ms1', ms'].
Qed.

Lemma link_delivers_in_order_witness : exists a' b',
  link_run text_reg (demo_ops ++ [LinkEvent SideB EVENT_RECV 4 [KRecv 5; KEintr; KRecv 5] []])
    (open_end 64 64 64, open_end 64 64 64) = Ok (a', b') /\ in_order a' b' /\ in_order b' a'.
Proof.
  apply (link_delivers_in_order text_reg 64 64 64 64); [exact text_reg_ok|apply open_fresh; unfold MAX_OCTETS; lia..|].
  apply Forall_app. split; [exact demo_ops_ok|]. repeat constructor.
Defined.

(** C2 — And everything arrives, under the same conditions on the ends and the
    messages: once one end has given all it accepted to the kernel and the
    other's stream has a capacity of more than a mebibyte, and of a mebibyte and
    any one message accepted, and its read buffer one byte at least, as many calls of its event that find a byte readable as there are bytes on
    the way deliver every message accepted, unless the reading end closes. *)
Theorem link_delivers_all {B} `{ProtocolBodyOk B} (reg : stubs B) CA RA CB RB a b ops l reads :
  stubs_ok reg -> fresh_end CA RA a -> fresh_end CB RB b -> Forall (op_ok reg) ops ->
  link_run reg ops (a, b) = Ok l -> nothing_to_send (ep_conn l.1) = true ->
  roomy CB (ep_accepted l.1) -> 1 <= RB ->
  Forall reads_b reads -> in_flight l.2 <= Z.of_nat (length reads) ->
  exists a' b', link_run reg reads l = Ok (a', b') /\ ep_accepted a' = ep_accepted l.1 /\
    (ev_is_close (c_ev (ep_conn b')) = true \/
     Forall2 (fun p b => prot_body p ≡ b) (ep_delivered b') (ep_accepted a')).
Proof.
  intros Hreg Ha Hb Hops E Hidle Hroomy HR Hreads Hlen.
  destruct (link_run_inv reg CA RA CB RB ops (a, b) Hreg Hops (fresh_inv reg _ _ _ _ _ _ Ha Hb)) as (l1 & E1 & Hl).
  rewrite E in E1. injection E1 as <-. destruct l as [a1 b1].
  destruct Hl as (_ & Hb1 & (rb & out & Hw) & (rb' & out' & Hw')). cbn [fst snd] in *.
  pose proof Hw as (? & ? & inb & _ & _ & _ & [[_ Hrb] _ _ _ _] & Hsd & Hs & _).
  rewrite (nothing_sends _ _ Hidle Hs Hsd) in Hw.
  eapply reads_drain; try done. unfold in_flight in Hlen. by rewrite (size_repr _ _ Hrb) in Hlen.
Qed.

Lemma link_delivers_all_witness : exists a' b',
  link_run text_reg (replicate 6 (LinkEvent SideB EVENT_RECV 4 [KRecv 2] [])) (demo_link (2 * SHRINK)) = Ok (a', b') /\
  ep_accepted a' = [[x61; x62; x63]] /\
  (ev_is_close (c_ev (ep_conn b')) = true \/
   Forall2 (fun p b => prot_body p ≡ b) (ep_delivered b') (ep_accepted a')).
Proof.
  apply (link_delivers_all text_reg 64 64 (2 * SHRINK) 64 (open_end 64 64 64) (open_end (2 * SHRINK) 64 64) demo_ops
    (demo_link (2 * SHRINK)) (replicate 6 (LinkEvent SideB EVENT_RECV 4 [KRecv 2] []))).
  - exact text_reg_ok.
  - apply open_fresh; unfold MAX_OCTETS; lia.
  - apply open_fresh; unfold MAX_OCTETS, SHRINK; lia.
  - exact demo_ops_ok.
  - apply demo_run.
  - reflexivity.
  - split; [unfold SHRINK; lia|]. constructor; [vm_compute; discriminate|constructor].
  - lia.
  - repeat (constructor; [exists 4, 1%nat, [], []; split; [reflexivity|constructor]|]). constructor.
  - unfold in_flight, demo_link. cbn [snd ep_conn ep_wire]. generalize (2 * SHRINK). intros C. vm_compute. discriminate.
Defined.

(** C12 — One way in which it closes: a header that arrives in two pieces.  When
    everything that came has been read, the reading end has nothing to send and a
    stream of more than a mebibyte, the next message is on the way, and
    the kernel first gives less than its header, the session is closed and
    neither this message nor any later one is ever delivered, whatever happens
    afterwards. *)
Theorem header_cut_ends_link {B} `{ProtocolBodyOk B} (reg : stubs B) CA RA CB RB a b ops l m now n sd ops' :
  stubs_ok reg -> fresh_end CA RA a -> fresh_end CB RB b -> Forall (op_ok reg) ops ->
  link_run reg ops (a, b) = Ok l -> SHRINK < CB -> 1 <= RB ->
  ep_accepted l.1 !! length (ep_delivered l.2) = Some m -> ep_wire l.2 <> [] ->
  os_pos (ses_reados (c_ses (ep_conn l.2))) = os_size (ses_reados (c_ses (ep_conn l.2))) ->
  octets_empty (ses_readbuf (c_ses (ep_conn l.2))) = true ->
  session_is_writeos_empty (c_ses (ep_conn l.2)) = true ->
  (0 < n < length (header m))%nat -> rooms_positive sd -> Forall (op_ok reg) ops' ->
  exists l', link_run reg (LinkEvent SideB EVENT_RECV now [KRecv n] sd :: ops') l = Ok l' /\
    ep_delivered l'.2 = ep_delivered l.2 /\ ev_is_close (c_ev (ep_conn l'.2)) = true.
Proof.
  intros Hreg Ha Hb Hops E HC HR Hm Hwire Hpos Hbuf Hwe Hn Hsd Hops'.
  destruct (link_run_inv reg CA RA CB RB ops (a, b) Hreg Hops (fresh_inv reg _ _ _ _ _ _ Ha Hb)) as (l1 & E1 & Hl).
  rewrite E in E1. injection E1 as <-. set (op := LinkEvent SideB EVENT_RECV now [KRecv n] sd).
  destruct (link_step_inv reg CA RA CB RB op l Hreg Hsd Hl) as (l2 & E2 & Hl2).
  assert (Hstep : ev_is_close (c_ev (ep_conn l2.2)) = true /\ ep_delivered l2.2 = ep_delivered l.2).
  { destruct (ev_is_close (c_ev (ep_conn l.2))) eqn:Ecl; [by eapply (closed_step reg CA RA CB RB op l)|].
    destruct l as [a1 b1]. destruct Hl as (_ & _ & (rb & out & Hw) & (rb' & out' & Hw')). cbn [fst snd] in *.
    destruct Hw as (ms1 & ms & inb & Hacc & Hd & Hms & Hrc & _ & _ & Hfr).
    destruct Hw' as (_ & _ & _ & _ & _ & _ & _ & (? & ? & [_ Hbase] & _) & _).
    pose proof Hrc as [[Ho Hrb] _ _ _ _]. rewrite (os_size_repr _ _ Ho) in Hpos.
    unfold octets_empty in Hbuf. rewrite (repr_len _ _ Hrb), Z.eqb_eq in Hbuf.
    assert (rb = []) as -> by (by destruct rb).
    rewrite Hacc, lookup_app_r, (Forall2_length _ _ _ Hd), Nat.sub_diag in Hm by (rewrite (Forall2_length _ _ _ Hd); lia).
    destruct ms as [|m' ms]; [done|]. injection Hm as ->.
    assert (Hdr : unread (c_ses (ep_conn b1)) inb [] = []).
    { unfold unread. rewrite Hpos. unfold len. by rewrite Nat2Z.id, drop_all. }
    rewrite Hdr in Hfr. cbn [app] in Hfr.
    destruct (event_header_cut reg CB RB now n sd (ep_conn b1) inb m ms (ep_wire b1) out) as (c' & Ec & Hcl); [done..|].
    unfold op in E2. cbn [link_step fst snd] in E2. unfold ep_event in E2. rewrite Ecl in E2.
    change (has EVENT_RECV EVENT_RECV) with true in E2. cbv iota in E2.
    destruct (recv_answers _ _ _) as [rs w] eqn:Era. cbn [fst] in Ec. rewrite Ec in E2. injection E2 as <-.
    cbn. by rewrite app_nil_r. }
  destruct Hstep as [Hcl <-]. cbn [link_run]. rewrite E2. cbn [mbind outcome_bind].
  destruct (link_run_inv reg CA RA CB RB ops' l2 Hreg Hops' Hl2) as (l' & E' & _). exists l'. split; [done|].
  destruct (closed_run reg CA RA CB RB ops' l2 l' Hreg Hops' Hl2 Hcl E') as [H1 H2]. by split.
Qed.

Lemma header_cut_ends_link_witness : exists l',
  link_run text_reg [LinkEvent SideB EVENT_RECV 4 [KRecv 1] []; LinkEvent SideB EVENT_RECV 5 [KRecv 5] []]
    (demo_link (2 * SHRINK)) = Ok l' /\ ep_delivered l'.2 = [] /\ ev_is_close (c_ev (ep_conn l'.2)) = true.
Proof.
  apply (header_cut_ends_link text_reg 64 64 (2 * SHRINK) 64 (open_end 64 64 64) (open_end (2 * SHRINK) 64 64) demo_ops
    (demo_link (2 * SHRINK)) [x61; x62; x63] 4 1 [] [LinkEvent SideB EVENT_RECV 5 [KRecv 5] []]).
  - exact text_reg_ok.
  - apply open_fresh; unfold MAX_OCTETS; lia.
  - apply open_fresh; unfold MAX_OCTETS, SHRINK; lia.
  - exact demo_ops_ok.
  - apply demo_run.
  - unfold SHRINK; lia.
  - lia.
  - reflexivity.
  - discriminate.
  - reflexivity.
  - reflexivity.
  - reflexivity.
  - vm_compute. lia.
  - constructor.
  - repeat constructor.
Defined.
