(* ===== verification/Process.v ===== *)
(** The process and what it is built with: the clocks of common/systemtime.h, the
    wrappers of common/common.cpp (descriptor flags, signals, threads, running
    time, processors), encryption (security/crypt.h, crypt.cpp) and the names of
    types that the factories look up (traits/traits.h).  The kernel's answers and
    the algorithms of CryptoPP are parameters. *)

From S2P Require Import Prelude Text.

(** ** Clocks *)

Record timespec := mk_timespec { tv_sec : Z; tv_nsec : Z }.

(** Signed arithmetic on 64 bits is undefined when it overflows. *)
Definition signed64 (z : Z) : outcome Z :=
  if (- 2 ^ 63 <=? z) && (z <? 2 ^ 63) then Ok z else Fault (UB "signed overflow").

(** The first four read the clock of the calendar, the others the clock that
    only goes forward. *)
Definition get_time (ts : timespec) : Z := tv_sec ts.
Definition get_seconds (ts : timespec) : Z := tv_sec ts.
Definition get_millseconds (ts : timespec) : outcome Z :=
  s ← signed64 (tv_sec ts * 1000); signed64 (s + tv_nsec ts ÷ 1000000).
Definition get_microseconds (ts : timespec) : outcome Z :=
  s ← signed64 (tv_sec ts * 1000000); signed64 (s + tv_nsec ts ÷ 1000).
(** The factor is unsigned. *)
Definition get_nanoseconds (ts : timespec) : Z :=
  s64 (u64 (u64 (u64 (tv_sec ts) * 1000000000) + u64 (tv_nsec ts))).
Definition get_mill_nano_seconds (ts : timespec) : outcome (Z * Z) :=
  ms ← get_millseconds ts; Ok (ms, get_nanoseconds ts).

(** What [clock_gettime] promises, within two and a half centuries. *)
Definition clock_ok (ts : timespec) : Prop := 0 <= tv_sec ts < 8 * 10 ^ 9 /\ 0 <= tv_nsec ts < 10 ^ 9.

(** The instant, in nanoseconds. *)
Definition instant (ts : timespec) : Z := tv_sec ts * 10 ^ 9 + tv_nsec ts.

Lemma clocks_agree ts : clock_ok ts ->
  get_nanoseconds ts = instant ts /\ get_millseconds ts = Ok (instant ts / 10 ^ 6) /\
  get_microseconds ts = Ok (instant ts / 10 ^ 3) /\ get_seconds ts = instant ts / 10 ^ 9.
Proof.
  destruct ts as [s n]. unfold clock_ok, instant. cbn [tv_sec tv_nsec].
  change (10 ^ 9) with 1000000000. change (10 ^ 6) with 1000000. change (10 ^ 3) with 1000. intros [Hs Hn].
  assert (Hdiv : forall k, 0 < k -> (k | 1000000000) -> (s * 1000000000 + n) / k = s * (1000000000 / k) + n / k).
  { intros k Hk [q Hq]. rewrite Hq, Z.div_mul by lia. rewrite Z.mul_assoc, Z.div_add_l by lia. done. }
  assert (Hsig : forall z, 0 <= z < 9000000000000000000 -> signed64 z = Ok z).
  { intros z Hz. unfold signed64. change (2 ^ 63) with 9223372036854775808.
    destruct (_ && _) eqn:E; [done|]. rewrite andb_false_iff, Z.leb_gt, Z.ltb_ge in E. lia. }
  pose proof (Z.div_pos n 1000000 ltac:(lia) ltac:(lia)). pose proof (Z.div_lt_upper_bound n 1000000 1000 ltac:(lia) ltac:(lia)).
  pose proof (Z.div_pos n 1000 ltac:(lia) ltac:(lia)). pose proof (Z.div_lt_upper_bound n 1000 1000000 ltac:(lia) ltac:(lia)).
  split_and!.
  - unfold get_nanoseconds. cbn [tv_sec tv_nsec]. rewrite (wrapU_small 64 s), (wrapU_small 64 n), (wrapU_small 64 (s * _)), wrapU_small by word_lia.
    apply wrapS_small; word_lia.
  - unfold get_millseconds. cbn [tv_sec tv_nsec]. rewrite Hsig by lia. cbn [mbind outcome_bind].
    rewrite Z.quot_div_nonneg by lia. rewrite Hsig by lia. f_equal. rewrite (Hdiv 1000000) by (try lia; by exists 1000). by change (1000000000 / 1000000) with 1000.
  - unfold get_microseconds. cbn [tv_sec tv_nsec]. rewrite Hsig by lia. cbn [mbind outcome_bind].
    rewrite Z.quot_div_nonneg by lia. rewrite Hsig by lia. f_equal. rewrite (Hdiv 1000) by (try lia; by exists 1000000). by change (1000000000 / 1000) with 1000000.
  - unfold get_seconds. cbn [tv_sec]. rewrite Hdiv by (try lia; by exists 1). rewrite (Z.div_small n) by lia.
    change (1000000000 / 1000000000) with 1. lia.
Qed.

(** The two values that a collector takes at once are of the same instant. *)
Lemma mill_nano_same_instant ts : clock_ok ts ->
  exists ns, get_mill_nano_seconds ts = Ok (ns / 10 ^ 6, ns) /\ ns = instant ts.
Proof.
  intros Hts. destruct (clocks_agree ts Hts) as (Hn & Hm & _). exists (instant ts). unfold get_mill_nano_seconds.
  by rewrite Hm, Hn.
Qed.

(** ** Descriptors *)

Definition O_NONBLOCK : Z := 2048.

(** [fcntl(fd, F_GETFL)] gives the flags or -1; then the result, and the flags
    handed to [fcntl(fd, F_SETFL, ..)], whose answer is [set]. *)
Definition set_nonblocking (flags set : Z) (nonblocking : bool) : Z * option Z :=
  if flags =? -1 then (-1, None)
  else (set, Some (if nonblocking then Z.lor flags O_NONBLOCK else Z.ldiff flags O_NONBLOCK)).

(** The flag is as asked for, the other flags are as they were. *)
Lemma set_nonblocking_flag flags set nonblocking r new i :
  set_nonblocking flags set nonblocking = (r, Some new) -> 0 <= i ->
  Z.testbit new i = if i =? 11 then nonblocking else Z.testbit flags i.
Proof.
  unfold set_nonblocking. destruct (flags =? -1); [done|]. intros [= <- <-] Hi. change O_NONBLOCK with (2 ^ 11).
  destruct nonblocking; rewrite ?Z.lor_spec, ?Z.ldiff_spec, Z.pow2_bits_eqb by lia;
    destruct (Z.eqb_spec i 11) as [->|]; rewrite ?Z.eqb_refl, ?andb_false_r, ?orb_true_r; try done;
    rewrite (proj2 (Z.eqb_neq 11 i)) by lia; by rewrite ?orb_false_r, ?andb_true_r.
Qed.

(** ** Signals *)

Definition SA_RESTART : Z := 0x10000000.
Record sigaction := mk_sigaction { sa_handler : Z; sa_all_blocked : bool; sa_flags : Z }.

(** The dispositions of the process; a call that the kernel refuses is printed. *)
Definition set_signal (refused : bool) (signum handler : Z) (acts : gmap Z sigaction) : gmap Z sigaction * bool :=
  if refused then (acts, true) else (<[signum := mk_sigaction handler true (Z.lor 0 SA_RESTART)]> acts, false).

Lemma set_signal_effect signum handler acts :
  exists acts', set_signal false signum handler acts = (acts', false) /\
    (exists a, acts' !! signum = Some a /\ sa_handler a = handler /\ sa_all_blocked a = true /\
       Z.land (sa_flags a) SA_RESTART = SA_RESTART) /\
    (forall n, n <> signum -> acts' !! n = acts !! n).
Proof.
  eexists. split; [reflexivity|]. split.
  - eexists. rewrite lookup_insert_eq. by split_and!.
  - intros n Hn. by rewrite lookup_insert_ne.
Qed.

(** ** Threads and running time *)

(** [gettid()]: each thread asks the kernel once. *)
Definition gettid (thread syscall : Z) (cache : gmap Z Z) : gmap Z Z * Z :=
  match cache !! thread with Some tid => (cache, tid) | None => (<[thread := syscall]> cache, syscall) end.

Lemma gettid_once thread a b cache :
  let r := gettid thread a cache in gettid thread b r.1 = (r.1, r.2).
Proof. unfold gettid. destruct (cache !! thread) eqn:E; simpl; [by rewrite E|by rewrite lookup_insert_eq]. Qed.

(** The statics of [get_process_elapse]: the ticks of its first call and their
    number in a second.  The kernel's answers are [first], which is asked for
    once, and [now]. *)
Definition get_process_elapse (tck first now : Z) (statics : option (Z * Z)) : option (Z * Z) * outcome Z :=
  let '(start_time, sc_clk_tck) := default (first, tck) statics in
  (Some (start_time, sc_clk_tck),
   if sc_clk_tck =? 0 then Fault (UB "division by zero") else Ok ((now - start_time) ÷ sc_clk_tck)).

(** What is measured is the time since the first call, not since the process
    started: however old the process is, the first call gives zero. *)
Lemma elapse_since_first_call tck start now : 0 < tck -> start <= now ->
  get_process_elapse tck start start None = (Some (start, tck), Ok 0) /\
  forall tck' first', (get_process_elapse tck' first' now (Some (start, tck))).2 = Ok ((now - start) / tck).
Proof.
  intros Ht Hn. unfold get_process_elapse. simpl. destruct (Z.eqb_spec tck 0); [lia|].
  rewrite Z.sub_diag. split; [done|]. intros _ _. by rewrite Z.quot_div_nonneg by lia.
Qed.

(** [set_process_affinity]: the mask; [CPU_SET] ignores a number that has no
    bit, and the answer of [sched_setaffinity] is not looked at. *)
Definition CPU_SETSIZE : Z := 1024.
Definition affinity_mask (cpu_num : Z) : Z :=
  let cpu := u64 cpu_num in if cpu <? CPU_SETSIZE then Z.shiftl 1 cpu else 0.

Lemma affinity_one_cpu cpu_num i : inS 32 cpu_num -> 0 <= i ->
  Z.testbit (affinity_mask cpu_num) i = (0 <=? cpu_num) && (cpu_num <? CPU_SETSIZE) && (i =? cpu_num).
Proof.
  intros Hc Hi. unfold affinity_mask, CPU_SETSIZE. cbv zeta.
  destruct (Z.leb_spec 0 cpu_num) as [H0|H0]; simpl.
  - rewrite wrapU_small by word_lia. destruct (Z.ltb_spec cpu_num 1024); simpl; [|apply Z.bits_0].
    rewrite Z.shiftl_1_l, Z.pow2_bits_eqb by lia. apply Z.eqb_sym.
  - assert (u64 cpu_num = cpu_num + 2 ^ 64) as ->.
    { unfold wrapU. symmetry. apply (Z.mod_unique_pos _ _ (-1)); word_lia. }
    destruct (Z.ltb_spec (cpu_num + 2 ^ 64) 1024); [word_lia|apply Z.bits_0].
Qed.

(** ** Encryption

    CryptoPP is a parameter: what its modes make of a key, an initial vector and
    a text, and of a public or private key; the random pool of RSA is a value
    that each encryption replaces. *)
Section Crypt.
Context {pubkey privkey rng : Type}.
Context (cbc_encrypt cbc_decrypt : list byte -> list byte -> list byte -> outcome (list byte)).
Context (oaep_encrypt : pubkey -> rng -> list byte -> rng * outcome (list byte)).
Context (oaep_decrypt : privkey -> rng -> list byte -> rng * outcome (list byte)).

(** A [SecByteBlock] of a size: its bytes are not initialised. *)
Definition sec_byte_block (n : Z) : list cell := replicate (Z.to_nat n) None.
Definition DEFAULT_KEYLENGTH : Z := 16.
Definition BLOCKSIZE : Z := 16.

Record AES_crypt := mk_aes { aes_key : list cell; aes_iv : list cell }.
Definition aes_new : AES_crypt := mk_aes (sec_byte_block DEFAULT_KEYLENGTH) (sec_byte_block BLOCKSIZE).

(** An exception of CryptoPP is logged and thrown on. *)
Definition aes_encrypt (c : AES_crypt) (plaintext : list byte) : outcome (list byte) :=
  key ← cells_init (aes_key c); iv ← cells_init (aes_iv c); cbc_encrypt key iv plaintext.
Definition aes_decrypt (c : AES_crypt) (ciphertext : list byte) : outcome (list byte) :=
  key ← cells_init (aes_key c); iv ← cells_init (aes_iv c); cbc_decrypt key iv ciphertext.

Record RSA_crypt := mk_rsa { rsa_rng : rng; rsa_private_key : privkey; rsa_public_key : pubkey }.
Definition rsa_encrypt (plaintext : list byte) : M RSA_crypt (list byte) := fun c =>
  let '(g, r) := oaep_encrypt (rsa_public_key c) (rsa_rng c) plaintext in
  (mk_rsa g (rsa_private_key c) (rsa_public_key c), r).
Definition rsa_decrypt (ciphertext : list byte) : M RSA_crypt (list byte) := fun c =>
  let '(g, r) := oaep_decrypt (rsa_private_key c) (rsa_rng c) ciphertext in
  (mk_rsa g (rsa_private_key c) (rsa_public_key c), r).

(** The members that hold the key and the initial vector have no setter and
    are never filled: encrypting reads indeterminate bytes. *)
Lemma aes_key_indeterminate text :
  aes_encrypt aes_new text = Fault (UB "indeterminate value") /\ aes_decrypt aes_new text = Fault (UB "indeterminate value").
Proof. done. Qed.

(** With a key and a vector an object decrypts what an object with the same
    ones encrypted, when CryptoPP does. *)
Lemma aes_roundtrip key iv text cipher :
  (forall k v t c, length v = Z.to_nat BLOCKSIZE -> cbc_encrypt k v t = Ok c -> cbc_decrypt k v c = Ok t) ->
  length iv = Z.to_nat BLOCKSIZE -> aes_encrypt (mk_aes (Some <$> key) (Some <$> iv)) text = Ok cipher ->
  aes_decrypt (mk_aes (Some <$> key) (Some <$> iv)) cipher = Ok text.
Proof.
  intros Hlaw Hiv. unfold aes_encrypt, aes_decrypt. cbn [aes_key aes_iv]. rewrite !cells_init_Some. simpl. by apply Hlaw.
Qed.

(** The keys of an object of RSA are never those of a pair, unless its maker
    made them so: the pair decides whether decryption undoes encryption. *)
Lemma rsa_roundtrip c text c' cipher :
  (forall g g' g'' t e, oaep_encrypt (rsa_public_key c) g t = (g', Ok e) ->
     exists g1, oaep_decrypt (rsa_private_key c) g'' e = (g1, Ok t)) ->
  rsa_encrypt text c = (c', Ok cipher) -> exists c'', rsa_decrypt cipher c' = (c'', Ok text).
Proof.
  intros Hpair. unfold rsa_encrypt, rsa_decrypt. destruct (oaep_encrypt _ _ _) as [g r] eqn:E. intros [= <- ->].
  cbn [rsa_private_key rsa_public_key rsa_rng]. destruct (Hpair _ _ g _ _ E) as [g1 ->]. by eexists.
Qed.
End Crypt.

(** ** Names of types

    [function_name()] of the instance for a type, as the compiler gives it, is a
    parameter; the factories cut the name of the type out of it. *)
Fixpoint text_search (p s : list byte) : option (list byte) :=
  match s with
  | [] => if startswith s p then Some [] else None
  | _ :: s' => if startswith s p then Some (drop (length p) s) else text_search p s'
  end.

(** [type_name_array]: from behind the prefix to the next character of the
    suffix; without either it does not compile. *)
Definition type_name_array (function_name : list byte) : option (list byte) :=
  rest ← text_search (str "T = ") function_name;
  let n := find_from (is_in (str ";]")) rest 0 in
  if n =? npos then None else Some (take (Z.to_nat n) rest).

(** The position of the last ["::"] gives what is behind it. *)
Fixpoint after_last_colons (s : list byte) : option (list byte) :=
  match s with
  | [] => None
  | _ :: s' =>
      match after_last_colons s' with
      | Some r => Some r
      | None => if startswith s (str "::") then Some (drop 2 s) else None
      end
  end.
Definition short_type_name (name : list byte) : list byte := default name (after_last_colons name).

(** [string_literal<N>]: the characters with the null, which the view leaves
    out. *)
Definition string_literal (s : list byte) : list byte := s ++ [x00].
Definition literal_view (d : list byte) : list byte := take (length d - 1) d.
Definition literal_eq (d other : list byte) : bool := bool_decide (literal_view d = other).

Lemma literal_eq_spec s other : literal_eq (string_literal s) other = bool_decide (s = other).
Proof.
  unfold literal_eq, literal_view, string_literal. rewrite length_app. simpl.
  by replace (length s + 1 - 1)%nat with (length s) by lia; rewrite take_app_length.
Qed.

Lemma startswith_app p s : startswith (p ++ s) p = true.
Proof.
  unfold startswith, slice. rewrite len_app. pose proof (len_nonneg s). change (Z.to_nat 0) with 0%nat.
  assert (Z.to_nat (len p) = length p) as -> by apply Nat2Z.id. rewrite drop_0, take_app_length. rewrite (bool_decide_eq_true_2 (p = p)) by done.
  destruct (Z.leb_spec (len p) (len p + len s)); [done|lia].
Qed.

Lemma text_search_first p pre s : p <> [] -> (forall i, (i < length pre)%nat -> startswith (drop i (pre ++ p ++ s)) p = false) ->
  text_search p (pre ++ p ++ s) = Some s.
Proof.
  intros Hp. induction pre as [|c pre IH]; intros Hfirst.
  - assert (E : startswith (p ++ s) p = true) by apply startswith_app. simpl.
    destruct (p ++ s) as [|c r] eqn:Eq; [by destruct p|]. cbn [text_search]. rewrite E, <- Eq. by rewrite drop_app_length.
  - cbn [app text_search]. pose proof (Hfirst 0%nat ltac:(simpl; lia)) as H0. simpl in H0. rewrite H0. apply IH.
    intros i Hi. apply (Hfirst (S i)). simpl. lia.
Qed.

(** The name between the prefix and the suffix is found when the prefix does not
    occur earlier and the name has no character of the suffix. *)
Lemma type_name_found pre name c rest :
  (forall i, (i < length pre)%nat -> startswith (drop i (pre ++ str "T = " ++ name ++ c :: rest)) (str "T = ") = false) ->
  free_of (is_in (str ";]")) name -> is_in (str ";]") c = true -> len name < npos ->
  type_name_array (pre ++ str "T = " ++ name ++ c :: rest) = Some name.
Proof.
  intros Hpre Hname Hc Hl. unfold type_name_array. rewrite text_search_first by (done || exact Hpre).
  cbn [mbind option_bind]. rewrite find_hit0 by done. destruct (Z.eqb_spec (len name) npos); [lia|].
  f_equal. unfold len. by rewrite Nat2Z.id, take_app_length.
Qed.

(** The short name is the last component of a qualified name. *)
Lemma short_type_name_last ns name : after_last_colons name = None -> head name <> Some x3a ->
  short_type_name (ns ++ str "::" ++ name) = name.
Proof.
  intros Hn Hh. unfold short_type_name. assert (after_last_colons (ns ++ str "::" ++ name) = Some name) as ->; [|done].
  induction ns as [|c ns IH].
  - change (str "::") with [x3a; x3a]. cbn [app after_last_colons]. rewrite Hn. change (str "::") with [x3a; x3a].
    assert (startswith (x3a :: name) [x3a; x3a] = false) as ->.
    { unfold startswith. destruct name as [|d name]; [done|]. cbn in Hh. change (slice _ 0 _) with [x3a; d].
      rewrite (bool_decide_eq_false_2 ([x3a; d] = _)); [apply andb_false_r|]. intros [= ->]. done. }
    assert (startswith (x3a :: x3a :: name) [x3a; x3a] = true) as -> by exact (startswith_app [x3a; x3a] name). done.
  - cbn [app after_last_colons]. by rewrite IH.
Qed.

Example short_name_of_address :
  short_type_name <$> type_name_array (str "consteval std::string_view bee::type_name_array() [with T = bee::ipv4_address; std::string_view = std::basic_string_view<char>]")
  = Some (str "ipv4_address").
Proof. vm_compute. reflexivity. Qed.
