(* ===== verification/Containers.v ===== *)
(** Sets, multimaps and tables in a stream (source/bee/common/marshal.h,
    [push_container] and [pop_container] for the containers that order or hash
    their elements), and the trial of source/casso/main.cpp, which writes one of
    each kind and reads them back into the same variables.

    A container is the list of its elements in the order of its iteration. *)

From S2P Require Import Prelude Octets Varint BytesOrder Marshal.

(** ** Containers that decide where an element goes *)

(** What [std::set], [std::multimap], [std::unordered_map] and their relatives
    promise of [insert]: an element whose key is there already is left out when
    keys are unique, any other is put somewhere among the elements. *)
Class Placing (A : Type) := {
  same_key : A -> A -> bool;
  unique_keys : bool;
  place : A -> list A -> list A;
}.

Class PlacingOk (A : Type) `{!Placing A} := {
  same_key_sym a b : same_key a b = same_key b a;
  place_perm a l : place a l ≡ₚ a :: l;
}.

Section Placed.
Context {A : Type} `{!Placing A}.

Definition container_insert (a : A) (c : list A) : list A :=
  if unique_keys && existsb (same_key a) c then c else place a c.

(** The containers as these functions leave them. *)
Definition insert_all (l c : list A) : list A := fold_left (fun c a => container_insert a c) l c.

Context `{!Marshal A}.

(** The elements in the order of the iteration. *)
Definition push_placed (c : list A) : OS unit := compact_pack U64 (len c);; push_all c.

Fixpoint pop_placed_elements (n : nat) (c : list A) : OS (list A) :=
  match n with
  | O => mret c
  | S n => a ← pop fresh; pop_placed_elements n (container_insert a c)
  end.

(** The tables have [reserve], which asks for room for the number read; what
    the container held stays. *)
Definition pop_placed (reserve : Z -> outcome unit) (c : list A) : OS (list A) :=
  size ← compact_unpack U64;
  lift (reserve size);;
  pop_placed_elements (Z.to_nat size) c.
End Placed.

(** A container that its elements do not ask for room. *)
Definition no_reserve (n : Z) : outcome unit := Ok tt.

Section PlacedLaws.
Context {A : Type} `{!Placing A, !PlacingOk A, !Marshal A, !Equiv A, !LeibnizEquiv A, !MarshalOk A}.

(** The keys a container can hold. *)
Definition keys_ok (c : list A) : Prop :=
  unique_keys = true -> forall i j a b, c !! i = Some a -> c !! j = Some b -> i <> j -> same_key a b = false.

Definition placed_wf (c : list A) : Prop := Forall m_wf c /\ len c <= PTRDIFF_MAX.
Definition placed_bytes (c : list A) : list byte := varint (len c) ++ (c ≫= m_bytes).

Lemma len_size (c : list A) : placed_wf c -> inU 64 (len c).
Proof. intros [_ Hl]. pose proof (len_nonneg c). unfold inU. word_lia. Qed.

Lemma push_placed_pushes c : placed_wf c -> pushes (push_placed c) (placed_bytes c).
Proof.
  intros Hc. eapply pushes_bind; [by apply push_size_pushes, len_size| |done].
  apply push_all_pushes. by destruct Hc.
Qed.

Lemma pop_placed_elements_pops l c : Forall m_wf l ->
  pops (pop_placed_elements (length l) c) (l ≫= m_bytes) (eq (insert_all l c)).
Proof.
  intros Hl. revert c. induction Hl as [|a l Ha Hl IH]; intros c; simpl; [by apply pops_ret|].
  eapply pops_bind; [exact (m_pop a Ha)| |done]. intros a' E. apply leibniz_equiv in E as ->. apply IH.
Qed.

(** What is read is inserted into what the container holds. *)
Lemma pop_placed_pops reserve c c0 : placed_wf c -> reserve (len c) = Ok tt ->
  pops (pop_placed reserve c0) (placed_bytes c) (eq (insert_all c c0)).
Proof.
  intros Hc Hr. eapply pops_bind; [by apply pop_size_pops, len_size| |done]. intros n <-.
  apply (pops_bind _ _ [] (c ≫= m_bytes) (c ≫= m_bytes) (fun _ => True)); [| |done].
  - intros s pre rest Hs Hp. exists tt. split; [|done]. unfold lift. rewrite Hr, os_with_pos_self; [done|].
    rewrite len_nil. lia.
  - intros _ _. unfold len. rewrite Nat2Z.id. apply pop_placed_elements_pops. by destruct Hc.
Qed.

Lemma insert_new a c : (unique_keys = true -> Forall (fun b => same_key a b = false) c) ->
  container_insert a c = place a c.
Proof.
  intros H. unfold container_insert. destruct unique_keys; [|done]. simpl.
  destruct (existsb (same_key a) c) eqn:E; [|done]. apply existsb_exists in E as (b & Hb & E).
  rewrite Forall_forall in H. by rewrite (H eq_refl b) in E by by apply list_elem_of_In.
Qed.

(** Elements whose keys are not there yet are all taken. *)
Lemma insert_all_perm l c : keys_ok l ->
  (unique_keys = true -> forall a b, a ∈ l -> b ∈ c -> same_key a b = false) -> insert_all l c ≡ₚ l ++ c.
Proof.
  revert c. induction l as [|a l IH]; intros c Hl Hlc; [done|]. simpl.
  assert (E : container_insert a c = place a c).
  { apply insert_new. intros Hu. apply Forall_forall. intros b Hb. apply (Hlc Hu); [by left|done]. }
  rewrite E, IH.
  - rewrite (place_perm a c). symmetry. apply Permutation_middle.
  - intros Hu i j x y Hi Hj Hij. apply (Hl Hu (S i) (S j)); [done|done|lia].
  - intros Hu x y Hx Hy. rewrite (place_perm a c) in Hy. apply elem_of_cons in Hy as [->|Hy].
    + apply list_elem_of_lookup in Hx as [i Hi]. by apply (Hl Hu (S i) 0%nat).
    + apply (Hlc Hu); [by right|done].
Qed.

(** With unique keys, elements that are there already change nothing. *)
Lemma insert_all_again l c : unique_keys = true -> Forall (fun a => existsb (same_key a) c = true) l -> insert_all l c = c.
Proof.
  intros Hu. induction 1 as [|a l Ha _ IH]; [done|]. cbn.
  assert (container_insert a c = c) as -> by (unfold container_insert; by rewrite Hu, Ha). exact IH.
Qed.
End PlacedLaws.

(** ** Ordered containers *)

(** Behind the elements that are not greater, as [std::multimap] and
    [std::multiset] do since their [insert] keeps the order of equal keys. *)
Fixpoint ordered_place {A} (lt : A -> A -> bool) (a : A) (l : list A) : list A :=
  match l with
  | [] => [a]
  | b :: l' => if lt a b then a :: l else b :: ordered_place lt a l'
  end.

Lemma ordered_place_perm {A} (lt : A -> A -> bool) a l : ordered_place lt a l ≡ₚ a :: l.
Proof.
  induction l as [|b l IH]; [done|]. simpl. destruct (lt a b); [done|]. rewrite IH. constructor.
Qed.

Lemma ordered_place_last {A} (lt : A -> A -> bool) a l : Forall (fun b => lt a b = false) l -> ordered_place lt a l = l ++ [a].
Proof. induction 1 as [|b l Hb _ IH]; [done|]. simpl. by rewrite Hb, IH. Qed.

(** The elements of an ordered container, put back one by one, give it back in
    its order. *)
Lemma ordered_insert_all {A} `{!Placing A} (lt : A -> A -> bool) l :
  (forall a c, place a c = ordered_place lt a c) -> keys_ok l ->
  (forall i j a b, l !! i = Some a -> l !! j = Some b -> (i < j)%nat -> lt b a = false) ->
  (forall a b, same_key a b = same_key b a) -> insert_all l [] = l.
Proof.
  intros Hplace. induction l as [|a l IH] using rev_ind; intros Hk Hs Hsym; [done|].
  unfold insert_all in *. rewrite fold_left_app. simpl. rewrite IH.
  - assert (Hlast : (l ++ [a]) !! length l = Some a) by (by rewrite list_lookup_middle).
    assert (Hbefore : forall P : A -> Prop, (forall i b, l !! i = Some b -> P b) -> Forall P l).
    { intros P HP. apply Forall_forall. intros b Hb. apply list_elem_of_lookup in Hb as [i Hi]. by eapply HP. }
    rewrite insert_new.
    + rewrite Hplace. apply ordered_place_last, Hbefore. intros i b Hi.
      apply (Hs i (length l)); [by apply lookup_app_l_Some|done|by apply lookup_lt_Some in Hi].
    + intros Hu. apply Hbefore. intros i b Hi. apply lookup_lt_Some in Hi as Hl.
      apply (Hk Hu (length l) i); [done|by apply lookup_app_l_Some|lia].
  - intros Hu i j x y Hi Hj. apply (Hk Hu i j); by apply lookup_app_l_Some.
  - intros i j x y Hi Hj. apply (Hs i j); by apply lookup_app_l_Some.
  - done.
Qed.

(** ** The trial of the server's main function *)

Abbreviation text_pair := (cpp_string * cpp_string)%type.

(** [std::string]'s order: the characters as unsigned. *)
Fixpoint string_less (a b : cpp_string) : bool :=
  match a, b with
  | [], [] => false
  | [], _ :: _ => true
  | _ :: _, [] => false
  | x :: a', y :: b' =>
      (Z_of_byte x <? Z_of_byte y) || ((Z_of_byte x =? Z_of_byte y) && string_less a' b')
  end.
Definition key_less (a b : text_pair) : bool := string_less a.1 b.1.
Definition key_same (a b : text_pair) : bool := bool_decide (a.1 = b.1).

(** [std::map] and [std::multimap], and the tables, which put an element where
    their hash function says. *)
Definition ordered (unique : bool) : Placing text_pair :=
  {| same_key := key_same; unique_keys := unique; place := ordered_place key_less |}.
Definition hashed (unique : bool) (hash_place : text_pair -> list text_pair -> list text_pair) : Placing text_pair :=
  {| same_key := key_same; unique_keys := unique; place := hash_place |}.

Lemma key_same_sym a b : key_same a b = key_same b a.
Proof. unfold key_same. by apply bool_decide_ext. Qed.

#[export] Instance ordered_ok unique : @PlacingOk _ (ordered unique).
Proof. split; [exact key_same_sym|]. intros a l. apply ordered_place_perm. Qed.
Lemma hashed_ok unique hash_place : (forall a l, hash_place a l ≡ₚ a :: l) -> @PlacingOk _ (hashed unique hash_place).
Proof. intros H. split; [exact key_same_sym|exact H]. Qed.

(** The variables: the memory of an array and of a vector of 64-bit integers, a
    string and four containers of pairs of strings. *)
Record trial := mk_trial {
  tr_arr : list byte; tr_vec : list byte; tr_str : cpp_string;
  tr_map : list text_pair; tr_mmap : list text_pair; tr_uomap : list text_pair; tr_uommap : list text_pair;
}.

Section Trial.
Context (place1 place2 : text_pair -> list text_pair -> list text_pair) (reserve : Z -> outcome unit).

Definition ARR : pod_type := PodOther 40.

Definition trial_write (t : trial) : OS unit :=
  push_raw ARR (tr_arr t);; push_pods 8 (len (tr_vec t) / 8) (tr_vec t);; push (tr_str t);;
  push_placed (tr_map t);; push_placed (tr_mmap t);; push_placed (tr_uomap t);; push_placed (tr_uommap t).

Definition trial_read (t : trial) : OS trial :=
  arr ← pop_raw ARR; vec ← pop_pods 8; s ← pop (tr_str t);
  m ← @pop_placed _ (ordered true) _ no_reserve (tr_map t);
  mm ← @pop_placed _ (ordered false) _ no_reserve (tr_mmap t);
  um ← @pop_placed _ (hashed true place1) _ reserve (tr_uomap t);
  umm ← @pop_placed _ (hashed false place2) _ reserve (tr_uommap t);
  mret (mk_trial arr vec s m mm um umm).

(** What the types of the variables say of their contents. *)
Record trial_wf (t : trial) : Prop := {
  tw_arr : length (tr_arr t) = 40%nat;
  tw_vec : (8 | len (tr_vec t)) /\ len (tr_vec t) <= PTRDIFF_MAX;
  tw_str : len (tr_str t) <= PTRDIFF_MAX;
  tw_map : placed_wf (tr_map t);
  tw_mmap : placed_wf (tr_mmap t);
  tw_uomap : placed_wf (tr_uomap t);
  tw_uommap : placed_wf (tr_uommap t);
}.

Definition trial_bytes (t : trial) : list byte :=
  rev (tr_arr t) ++ (varint (len (tr_vec t) / 8) ++ tr_vec t) ++ block (tr_str t) ++
  placed_bytes (tr_map t) ++ placed_bytes (tr_mmap t) ++ placed_bytes (tr_uomap t) ++ placed_bytes (tr_uommap t).

Lemma pods8_size (d : list byte) : (8 | len d) /\ len d <= PTRDIFF_MAX -> inU 64 (len d / 8) /\ len d / 8 * 8 = len d.
Proof.
  intros [[k Hk] Hl]. pose proof (len_nonneg d). rewrite Hk, Z.div_mul by lia. split; [unfold inU; word_lia|done].
Qed.

Lemma push_pods8 (d : list byte) : (8 | len d) /\ len d <= PTRDIFF_MAX ->
  pushes (push_pods 8 (len d / 8) d) (varint (len d / 8) ++ d).
Proof. intros Hd. destruct (pods8_size d Hd). by apply push_memory_pushes; [apply Hd|..]. Qed.

Lemma pop_pods8 (d : list byte) : (8 | len d) /\ len d <= PTRDIFF_MAX -> pops (pop_pods 8) (varint (len d / 8) ++ d) (eq d).
Proof. intros Hd. destruct (pods8_size d Hd). by apply pop_memory_pops; [apply Hd|..]. Qed.

Lemma trial_write_pushes t : trial_wf t -> pushes (trial_write t) (trial_bytes t).
Proof.
  intros []. unfold trial_write, trial_bytes.
  eapply pushes_bind; [by apply push_raw_pushes| |done].
  eapply pushes_bind; [by apply push_pods8| |done].
  eapply pushes_bind; [by apply push_pods_pushes| |done].
  do 3 (eapply pushes_bind; [by apply push_placed_pushes| |done]). by apply push_placed_pushes.
Qed.

(** What the variables hold after what they held was read into them. *)
Definition trial_after (t : trial) : trial :=
  mk_trial (tr_arr t) (tr_vec t) (tr_str t)
    (@insert_all _ (ordered true) (tr_map t) (tr_map t)) (@insert_all _ (ordered false) (tr_mmap t) (tr_mmap t))
    (@insert_all _ (hashed true place1) (tr_uomap t) (tr_uomap t))
    (@insert_all _ (hashed false place2) (tr_uommap t) (tr_uommap t)).

Lemma trial_read_pops t : trial_wf t -> (forall n, reserve n = Ok tt) ->
  (forall a l, place1 a l ≡ₚ a :: l) -> (forall a l, place2 a l ≡ₚ a :: l) ->
  pops (trial_read t) (trial_bytes t) (eq (trial_after t)).
Proof.
  intros [] Hres H1 H2. unfold trial_read, trial_bytes.
  pose proof (hashed_ok true place1 H1). pose proof (hashed_ok false place2 H2).
  eapply pops_bind; [by apply pop_raw_pops| |done]. intros arr <-.
  eapply pops_bind; [by apply pop_pods8| |done]. intros vec <-.
  eapply pops_bind; [by apply pop_pods_pops| |done]. intros s <-.
  eapply pops_bind; [by apply (pop_placed_pops _ (tr_map t))| |done]. intros m <-.
  eapply pops_bind; [by apply (pop_placed_pops _ (tr_mmap t))| |done]. intros mm <-.
  eapply pops_bind; [by apply (pop_placed_pops _ (tr_uomap t))| |done]. intros um <-.
  rewrite <- (app_nil_r (placed_bytes (tr_uommap t))).
  eapply pops_bind; [by apply (pop_placed_pops _ (tr_uommap t))| |done]. intros umm <-. by apply pops_ret.
Qed.
End Trial.

(** Reading everything back where it was written from succeeds, the containers
    with unique keys are as before, and the others hold every element twice. *)
Lemma main_trial place1 place2 reserve t :
  trial_wf t -> (forall n, reserve n = Ok tt) ->
  (forall a l, place1 a l ≡ₚ a :: l) -> (forall a l, place2 a l ≡ₚ a :: l) -> len (trial_bytes t) <= MAX_OCTETS ->
  exists s t', (trial_write t;; trial_read place1 place2 reserve t) os_null = (s, Ok t') /\ os_pos s = os_size s /\
    tr_arr t' = tr_arr t /\ tr_vec t' = tr_vec t /\ tr_str t' = tr_str t /\
    tr_map t' = tr_map t /\ tr_uomap t' = tr_uomap t /\
    tr_mmap t' ≡ₚ tr_mmap t ++ tr_mmap t /\ tr_uommap t' ≡ₚ tr_uommap t ++ tr_uommap t.
Proof.
  intros Ht Hres H1 H2 Hm.
  destruct (pushes_repr _ _ os_null [] (trial_write_pushes t Ht) os_null_repr) as (s1 & E1 & Hr1 & Hp1 & _); [done|].
  rewrite (M_bind_ok _ _ _ _ _ E1). simpl in Hr1, Hp1.
  destruct (trial_read_pops place1 place2 reserve t Ht Hres H1 H2 s1 [] []) as (t' & E2 & <-); [by rewrite app_nil_r|done|].
  eexists _, _. split; [exact E2|]. split.
  { rewrite (os_size_repr (os_with_pos _ s1) (trial_bytes t)); [done|]. apply os_repr_with_pos; [done|].
    change (len (@nil byte)) with 0. pose proof (len_nonneg (trial_bytes t)). lia. }
  assert (Hsame : forall l : list text_pair, Forall (fun a => existsb (key_same a) l = true) l).
  { intros l. apply Forall_forall. intros a Ha. apply existsb_exists. exists a. split; [by apply list_elem_of_In|].
    by apply bool_decide_eq_true_2. }
  do 3 (split; [done|]).
  split; [by apply (@insert_all_again _ (ordered true))|]. split; [by apply (@insert_all_again _ (hashed true place1))|].
  split; [by apply (@insert_all_perm _ (ordered false) _)|].
  by apply (@insert_all_perm _ (hashed false place2) (hashed_ok false place2 H2)).
Qed.

(** The variables of main, with the text of the vector. *)
Definition main_variables (s : cpp_string) : trial :=
  mk_trial (flat_map (le_bytes 8) [1; 2; 3; 4; 5]) (flat_map (le_bytes 8) [1; 2; 3; 4; 5]) s
    [(String.list_byte_of_string "key1", String.list_byte_of_string "value1"); (String.list_byte_of_string "key2", String.list_byte_of_string "value2")]
    [(String.list_byte_of_string "key1", String.list_byte_of_string "value1"); (String.list_byte_of_string "key1", String.list_byte_of_string "value3");
     (String.list_byte_of_string "key2", String.list_byte_of_string "value2")]
    [(String.list_byte_of_string "key2", String.list_byte_of_string "value2"); (String.list_byte_of_string "key1", String.list_byte_of_string "value1")]
    [(String.list_byte_of_string "key2", String.list_byte_of_string "value2"); (String.list_byte_of_string "key1", String.list_byte_of_string "value1");
     (String.list_byte_of_string "key1", String.list_byte_of_string "value3")].

Example main_trial_mmap :
  snd <$> tr_mmap (trial_after (fun a l => a :: l) (fun a l => a :: l) (main_variables []))
  = String.list_byte_of_string <$> ["value1"; "value3"; "value1"; "value3"; "value2"; "value2"]%string.
Proof. vm_compute. reflexivity. Qed.
