(* ===== verification/PoolStress.v ===== *)
(** The trial of the lock-free pool (source/casso/main.cpp, [stress_test]):
    threads that take an object, write their number into it and give it back,
    over and over, at every interleaving of their accesses. *)

From S2P Require Import Prelude ObjectPool.

(** Where a thread is in the body of its loop; the accesses of [alloc] and [free]
    are the pool's. *)
Inductive st_phase :=
| StNext
| StAllocating
| StGot (node : Z)
| StSet (node : Z)
| StFreeing (node : Z).

Record stress_thread := mk_stress_thread { sth_j : Z; sth_phase : st_phase; sth_misses : Z }.

(** [ss_value] is the member [value] of the objects; [sth_misses] counts the
    calls that gave the null pointer. *)
Record stress := mk_stress { ss_pool : lf_pool; ss_threads : list stress_thread; ss_value : gmap Z Z }.

Definition STRESS_CAPACITY : Z := 1000.
Definition STRESS_THREADS : nat := 8.
Definition OPS_PER_THREAD : Z := 100000.

Definition st_with (t : nat) (th : stress_thread) (p : lf_pool) (v : gmap Z Z) (s : stress) : stress :=
  mk_stress p (<[t := th]> (ss_threads s)) v.

(** [for (j = 0; j < OPS_PER_THREAD; ++j)] *)
Definition st_next (th : stress_thread) (missed : bool) : stress_thread :=
  mk_stress_thread (sth_j th + 1) StNext (if missed then sth_misses th + 1 else sth_misses th).
Definition st_at (phase : st_phase) (th : stress_thread) : stress_thread := mk_stress_thread (sth_j th) phase (sth_misses th).

Definition is_idle (p : lf_pool) (t : nat) : bool :=
  match lf_threads p !! t with Some LfIdle => true | _ => false end.

(** What [alloc] returns when the access it was about to make is its last, and
    the constructor of an object that is used for the first time. *)
Definition alloc_returns (p : lf_pool) (t : nat) : option Z :=
  match lf_threads p !! t with Some (LfAllocNext node _ _) => Some node | _ => None end.
Definition construct (p : lf_pool) (node : Z) (v : gmap Z Z) : gmap Z Z :=
  if decide (node ∈ lf_initialized p) then v else <[node := 0]> v.

(** The next access of a thread, with the weak exchange failing for no reason or
    not; [None] when it has none. *)
Definition st_exec (ops : Z) (t : nat) (spurious : bool) (s : stress) : option stress :=
  th ← ss_threads s !! t;
  let p := ss_pool s in
  let access := if spurious then LfSpurious else LfGo in
  match sth_phase th with
  | StNext =>
      if sth_j th <? ops then p' ← lf_exec t LfAlloc p; Some (st_with t (st_at StAllocating th) p' (ss_value s) s)
      else None
  | StAllocating =>
      p' ← lf_exec t access p;
      Some (if is_idle p' t then
              match alloc_returns p t with
              | Some node => st_with t (st_at (StGot node) th) p' (construct p node (ss_value s)) s
              | None => st_with t (st_next th true) p' (ss_value s) s
              end
            else st_with t th p' (ss_value s) s)
  | StGot node => Some (st_with t (st_at (StSet node) th) p (<[node := sth_j th]> (ss_value s)) s)
  | StSet node =>
      p' ← lf_exec t (LfFree node) p; Some (st_with t (st_at (StFreeing node) th) p' (ss_value s) s)
  | StFreeing node =>
      p' ← lf_exec t access p;
      Some (st_with t (if is_idle p' t then st_next th false else th) p' (ss_value s) s)
  end.

Fixpoint st_run (ops : Z) (sched : list (nat * bool)) (s : stress) : option stress :=
  match sched with
  | [] => Some s
  | (t, spurious) :: sched => s ← st_exec ops t spurious s; st_run ops sched s
  end.

(** The pool is LAZY: [garbage] is what its memory held. *)
Definition stress_new (garbage : gset Z) (capacity : Z) (threads : nat) : outcome stress :=
  p ← lf_init false garbage capacity threads;
  Ok (mk_stress p (replicate threads (mk_stress_thread 0 StNext 0)) ∅).

(** The loop of a thread is over; and all of them have been joined. *)
Definition st_finished (ops : Z) (th : stress_thread) : bool :=
  match sth_phase th with StNext => ops <=? sth_j th | _ => false end.
Definition st_done (ops : Z) (s : stress) : bool := forallb (st_finished ops) (ss_threads s).

Definition stress_test (garbage : gset Z) (sched : list (nat * bool)) : outcome (option stress) :=
  s ← stress_new garbage STRESS_CAPACITY STRESS_THREADS; Ok (st_run OPS_PER_THREAD sched s).

(** ** The invariant *)

Definition holds (th : stress_thread) : list Z :=
  match sth_phase th with StGot node | StSet node => [node] | _ => [] end.

(** The thread and the call it is in. *)
Definition in_call (th : stress_thread) (pc : lf_pc) : Prop :=
  match sth_phase th, pc with
  | (StNext | StGot _ | StSet _), LfIdle => True
  | StAllocating, LfAllocHead old => h_node old <> None
  | StAllocating, LfAllocNext _ _ _ => True
  | StFreeing node, (LfFreeHead node' _ | LfFreeStored node' _) => node' = node
  | _, _ => False
  end.

(** What a thread wrote is there until it gives the object back. *)
Definition value_kept (v : gmap Z Z) (th : stress_thread) : Prop :=
  forall node, sth_phase th = StSet node -> v !! node = Some (sth_j th).

(** No call gave the null pointer, and the rounds are counted. *)
Definition in_loop (ops : Z) (th : stress_thread) : Prop :=
  sth_misses th = 0 /\ 0 <= sth_j th /\ match sth_phase th with StNext => sth_j th <= Z.max 0 ops | _ => sth_j th < ops end.

Record stress_inv (ops : Z) (s : stress) (c : Z) : Prop := {
  sti_pool : lf_inv (ss_pool s) c;
  sti_call : Forall2 in_call (ss_threads s) (lf_threads (ss_pool s));
  sti_held : lf_held (ss_pool s) ≡ₚ ss_threads s ≫= holds;
  sti_value : Forall (value_kept (ss_value s)) (ss_threads s);
  sti_loop : Forall (in_loop ops) (ss_threads s);
  sti_room : len (ss_threads s) <= lf_cap (ss_pool s);
}.

(** A thread has one object at most. *)
Lemma in_call_one th pc : in_call th pc -> (length (holds th) + length (returning pc) <= 1)%nat.
Proof. unfold in_call, holds. destruct (sth_phase th), pc; cbn; done || lia. Qed.

Lemma objects_bound ths pcs :
  Forall2 in_call ths pcs -> (length (ths ≫= holds) + length (pcs ≫= returning) <= length ths)%nat.
Proof.
  induction 1 as [|th pc ths pcs H _ IH]; [done|]. rewrite !bind_cons, !length_app. cbn [length].
  pose proof (in_call_one _ _ H). lia.
Qed.

Lemma objects_bound_free ths pcs t th pc :
  Forall2 in_call ths pcs -> ths !! t = Some th -> pcs !! t = Some pc -> holds th = [] -> returning pc = [] ->
  (length (ths ≫= holds) + length (pcs ≫= returning) < length ths)%nat.
Proof.
  intros H. revert t. induction H as [|th' pc' ths pcs H Hs IH]; intros [|t] Ht Hp Hh Hr; cbn in Ht, Hp; simplify_eq.
  - rewrite !bind_cons, Hh, Hr. cbn [app length]. pose proof (objects_bound _ _ Hs). lia.
  - rewrite !bind_cons, !length_app. cbn [length]. pose proof (in_call_one _ _ H). specialize (IH t Ht Hp Hh Hr). lia.
Qed.

(** So a thread that has none finds a free one. *)
Lemma head_not_empty ops s c t th pc :
  stress_inv ops s c -> ss_threads s !! t = Some th -> lf_threads (ss_pool s) !! t = Some pc ->
  holds th = [] -> returning pc = [] -> h_node (lf_free (ss_pool s)) <> None.
Proof.
  intros [Hi Hc Hh _ _ Hroom] Ht Hp E1 E2 Hn. pose proof Hi as [_ _ (free & Hch & Hperm) _].
  destruct free as [|i free]; [|cbn in Hch; destruct Hch; congruence].
  pose proof (objects_bound_free _ _ _ _ _ Hc Ht Hp E1 E2) as Hb.
  apply Permutation_length in Hperm, Hh. rewrite app_nil_l, length_app, length_seqZ in Hperm. unfold len in Hroom. lia.
Qed.

Lemma lf_inv_later s c : lf_inv s c -> lf_inv s (c + 1).
Proof. intros [? ? ? ?]. split; [lia|done..]. Qed.

(** One thread has gone on. *)
Lemma st_with_inv ops s c t th pc th' pc' p' v' :
  stress_inv ops s c -> ss_threads s !! t = Some th -> lf_threads (ss_pool s) !! t = Some pc ->
  lf_inv p' (c + 1) -> lf_cap p' = lf_cap (ss_pool s) -> lf_threads p' = <[t := pc']> (lf_threads (ss_pool s)) ->
  in_call th' pc' -> lf_held p' ++ holds th ≡ₚ lf_held (ss_pool s) ++ holds th' ->
  (forall t' th2, t' <> t -> ss_threads s !! t' = Some th2 -> value_kept v' th2) -> value_kept v' th' ->
  in_loop ops th' ->
  stress_inv ops (st_with t th' p' v' s) (c + 1).
Proof.
  intros [Hi Hc Hh Hv Hm Hr] Ht Hp Hi' Hcap Hths Hin Hheld Hother Hkeep Hloop.
  split; cbn [st_with ss_pool ss_threads ss_value].
  - done.
  - rewrite Hths. by apply Forall2_insert.
  - apply (Permutation_app_inv_r (holds th)). rewrite Hheld, Hh. symmetry. by apply bind_insert.
  - by apply Forall_update.
  - apply Forall_update; [|done]. intros t' y _ Hy. by apply (Forall_lookup_1 _ _ _ _ Hm Hy).
  - unfold len. rewrite length_insert, Hcap. exact Hr.
Qed.

(** The object of a thread is no other thread's, nor a free one. *)
Lemma held_once ops s c t t' th th' node :
  stress_inv ops s c -> ss_threads s !! t = Some th -> ss_threads s !! t' = Some th' -> t <> t' ->
  node ∈ holds th -> node ∉ holds th'.
Proof.
  intros [Hi Hc Hh _ _ _] Ht Ht' Hne Hn Hn'. pose proof Hi as [_ _ (free & _ & Hperm) _].
  pose proof (lf_nodup _ _ _ Hi Hperm) as Hnd. apply NoDup_app in Hnd as (_ & _ & Hnd).
  apply NoDup_app in Hnd as (Hnd & _). rewrite Hh in Hnd.
  rewrite <- (list_insert_id _ _ _ Ht') in Hnd.
  pose proof (bind_insert holds _ _ _ (mk_stress_thread 0 StNext 0) Ht') as E. cbn [holds sth_phase] in E.
  rewrite app_nil_r in E. rewrite (list_insert_id _ _ _ Ht'), <- E in Hnd.
  apply NoDup_app in Hnd as (_ & Hnd & _). apply (Hnd node); [|done].
  apply list_elem_of_bind. exists th. split; [done|]. apply (list_elem_of_lookup_2 _ t).
  by rewrite list_lookup_insert_ne.
Qed.

(** The threads that do not move keep what they wrote when the value of another
    object changes. *)
Lemma others_keep ops s c t node x :
  stress_inv ops s c -> (forall t' th2, t' <> t -> ss_threads s !! t' = Some th2 -> node ∉ holds th2) ->
  forall t' th2, t' <> t -> ss_threads s !! t' = Some th2 -> value_kept (<[node := x]> (ss_value s)) th2.
Proof.
  intros [_ _ _ Hv _ _] Hn t' th2 Hne H2 i Hi. pose proof (Hn _ _ Hne H2) as Hni. unfold holds in Hni. rewrite Hi in Hni.
  rewrite lookup_insert_ne by set_solver. by apply (Forall_lookup_1 _ _ _ _ Hv H2).
Qed.

Lemma remove_first_is_Some (i : Z) l : i ∈ l -> is_Some (remove_first i l).
Proof.
  induction l as [|j l IH]; intros H; [by apply not_elem_of_nil in H|]. cbn.
  destruct (Z.eqb_spec i j) as [->|Hne]; [by eexists|]. apply elem_of_cons in H as [->|H]; [done|].
  destruct (IH H) as [l' ->]. by eexists.
Qed.

Lemma held_nodup p c : lf_inv p c -> NoDup (lf_held p).
Proof.
  intros Hi. pose proof Hi as [_ _ (free & _ & Hperm) _]. pose proof (lf_nodup _ _ _ Hi Hperm) as Hnd.
  apply NoDup_app in Hnd as (_ & _ & Hnd). by apply NoDup_app in Hnd as (Hnd & _).
Qed.

(** The four kinds of steps. *)
Lemma st_begin_inv ops s c t th p' :
  stress_inv ops s c -> c + 1 < 2 ^ 64 -> ss_threads s !! t = Some th -> sth_phase th = StNext -> sth_j th < ops ->
  lf_exec t LfAlloc (ss_pool s) = Some p' ->
  stress_inv ops (st_with t (st_at StAllocating th) p' (ss_value s) s) (c + 1).
Proof.
  intros Hi Hm Ht Hph Hlt Hex. pose proof Hi as [Hpool Hc _ Hv Hmiss _].
  destruct (Forall2_lookup_l _ _ _ _ _ Hc Ht) as (pc & Hp & Hin). destruct (Forall_lookup_1 _ _ _ _ Hmiss Ht) as (Hmi & Hj0 & Hj); rewrite ?Hph in Hj.
  destruct (lf_exec_inv _ _ _ _ _ Hpool Hm Hex) as [Hi' Hcap].
  unfold in_call in Hin. rewrite Hph in Hin. destruct pc; try done.
  unfold lf_exec in Hex. rewrite Hp in Hex. cbn in Hex. injection Hex as <-.
  eapply (st_with_inv ops s c t th); [done..| | | | |].
  - cbn. eapply head_not_empty; [done..| |done]. unfold holds. by rewrite Hph.
  - unfold holds. cbn [sth_phase st_at lf_held lf_goto]. by rewrite Hph.
  - intros t' th2 _ H2. by apply (Forall_lookup_1 _ _ _ _ Hv H2).
  - done.
  - done.
Qed.

Lemma st_set_inv ops s c t th node :
  stress_inv ops s c -> ss_threads s !! t = Some th -> sth_phase th = StGot node ->
  stress_inv ops (st_with t (st_at (StSet node) th) (ss_pool s) (<[node := sth_j th]> (ss_value s)) s) (c + 1).
Proof.
  intros Hi Ht Hph. pose proof Hi as [Hpool Hc _ Hv Hmiss _].
  destruct (Forall2_lookup_l _ _ _ _ _ Hc Ht) as (pc & Hp & Hin). destruct (Forall_lookup_1 _ _ _ _ Hmiss Ht) as (Hmi & Hj0 & Hj); rewrite ?Hph in Hj.
  unfold in_call in Hin. rewrite Hph in Hin. destruct pc; try done.
  eapply (st_with_inv ops s c t th LfIdle _ LfIdle); [done..|by apply lf_inv_later|done| |done| | | |done].
  - by rewrite list_insert_id.
  - unfold holds. cbn [sth_phase st_at]. by rewrite Hph.
  - eapply others_keep; [done|]. intros t' th2 Hne H2. eapply (held_once _ _ _ t t'); [done..|].
    unfold holds. rewrite Hph. set_solver.
  - intros i [= <-]. apply lookup_insert_eq.
Qed.

Lemma st_give_inv ops s c t th node p' :
  stress_inv ops s c -> c + 1 < 2 ^ 64 -> ss_threads s !! t = Some th -> sth_phase th = StSet node ->
  lf_exec t (LfFree node) (ss_pool s) = Some p' ->
  stress_inv ops (st_with t (st_at (StFreeing node) th) p' (ss_value s) s) (c + 1).
Proof.
  intros Hi Hm Ht Hph Hex. pose proof Hi as [Hpool Hc _ Hv Hmiss _].
  destruct (Forall2_lookup_l _ _ _ _ _ Hc Ht) as (pc & Hp & Hin). destruct (Forall_lookup_1 _ _ _ _ Hmiss Ht) as (Hmi & Hj0 & Hj); rewrite ?Hph in Hj.
  destruct (lf_exec_inv _ _ _ _ _ Hpool Hm Hex) as [Hi' Hcap].
  unfold in_call in Hin. rewrite Hph in Hin. destruct pc; try done.
  unfold lf_exec in Hex. rewrite Hp in Hex. cbn in Hex.
  destruct (remove_first node (lf_held (ss_pool s))) as [held|] eqn:Hr; cbn in Hex; [|done].
  destruct (negb _); [done|]. injection Hex as <-.
  eapply (st_with_inv ops s c t th LfIdle); [done..| | | | |done].
  - done.
  - unfold holds. cbn [sth_phase st_at lf_held]. rewrite Hph, (remove_first_perm _ _ _ Hr). solve_Permutation.
  - intros t' th2 _ H2. by apply (Forall_lookup_1 _ _ _ _ Hv H2).
  - done.
Qed.

(** The thread is in the pool where the access has put it. *)
Lemma is_idle_at p t pc pc' :
  lf_threads p !! t = Some pc -> forall p', lf_threads p' = <[t := pc']> (lf_threads p) ->
  is_idle p' t = match pc' with LfIdle => true | _ => false end.
Proof.
  intros Hp p' E. unfold is_idle. rewrite E, list_lookup_insert_eq by (by eapply lookup_lt_Some). by destruct pc'.
Qed.

Lemma construct_kept ops s c t node p' c' :
  stress_inv ops s c -> lf_inv p' c' -> lf_held p' = node :: lf_held (ss_pool s) ->
  forall t' th2, t' <> t -> ss_threads s !! t' = Some th2 ->
    value_kept (construct (ss_pool s) node (ss_value s)) th2.
Proof.
  intros Hi Hi' E t' th2 Hne H2. unfold construct. case_decide.
  - by apply (Forall_lookup_1 _ _ _ _ (sti_value _ _ _ Hi) H2).
  - eapply others_keep; [done| |done|done]. intros t2 th3 _ H3 Hn.
    pose proof (held_nodup _ _ Hi') as Hnd. rewrite E in Hnd. apply NoDup_cons in Hnd as [Hnd _]. apply Hnd.
    rewrite (sti_held _ _ _ Hi). apply list_elem_of_bind. exists th3. split; [done|]. by eapply list_elem_of_lookup_2.
Qed.

(** A step of [alloc] that does not end it. *)
Lemma st_alloc_on ops s c t th pc pc' p' :
  stress_inv ops s c -> ss_threads s !! t = Some th -> lf_threads (ss_pool s) !! t = Some pc ->
  lf_inv p' (c + 1) -> lf_cap p' = lf_cap (ss_pool s) -> p' = lf_goto t pc' (ss_pool s) -> in_call th pc' ->
  stress_inv ops (st_with t th p' (ss_value s) s) (c + 1).
Proof.
  intros Hi Ht Hp Hi' Hcap -> Hin. pose proof Hi as [_ _ _ Hv Hmiss _]. destruct (Forall_lookup_1 _ _ _ _ Hmiss Ht) as (Hmi & Hj0 & Hj); rewrite ?Hph in Hj.
  eapply (st_with_inv ops s c t th pc th pc'); [done..| | |].
  - intros t' th2 _ H2. by apply (Forall_lookup_1 _ _ _ _ Hv H2).
  - by apply (Forall_lookup_1 _ _ _ _ Hv Ht).
  - by apply (Forall_lookup_1 _ _ _ _ Hmiss Ht).
Qed.

Lemma st_alloc_inv ops s c t spurious th s' :
  stress_inv ops s c -> c + 1 < 2 ^ 64 -> ss_threads s !! t = Some th -> sth_phase th = StAllocating ->
  st_exec ops t spurious s = Some s' -> stress_inv ops s' (c + 1).
Proof.
  intros Hi Hm Ht Hph. pose proof Hi as [Hpool Hc _ Hv Hmiss _].
  destruct (Forall2_lookup_l _ _ _ _ _ Hc Ht) as (pc & Hp & Hin). destruct (Forall_lookup_1 _ _ _ _ Hmiss Ht) as (Hmi & Hj0 & Hj); rewrite ?Hph in Hj.
  unfold st_exec. rewrite Ht. cbn [mbind option_bind]. rewrite Hph.
  destruct (lf_exec t (if spurious then LfSpurious else LfGo) (ss_pool s)) as [p'|] eqn:Hex; [|done]. cbn.
  destruct (lf_exec_inv _ _ _ _ _ Hpool Hm Hex) as [Hi' Hcap].
  assert (Hhead : h_node (lf_free (ss_pool s)) <> None).
  { eapply head_not_empty; [done..| |]; [unfold holds; by rewrite Hph|].
    unfold in_call in Hin. rewrite Hph in Hin. by destruct pc. }
  assert (Hretry : in_call th (LfAllocHead (lf_free (ss_pool s)))) by (unfold in_call; by rewrite Hph).
  unfold alloc_returns. rewrite Hp.
  unfold in_call in Hin. rewrite Hph in Hin. unfold lf_exec in Hex. rewrite Hp in Hex. cbn in Hex.
  destruct pc as [|old|node k n|i old|i old]; try done.
  - destruct spurious; [done|]. destruct (h_node old) as [node|] eqn:Hn; [|done].
    destruct (lf_next (ss_pool s) !! node) as [n|]; cbn in Hex; [|done]. injection Hex as <-.
    erewrite (is_idle_at _ _ _ (LfAllocNext node (h_counter old) n) Hp) by reflexivity. intros [= <-]. eapply st_alloc_on; [done..|].
    unfold in_call. by rewrite Hph.
  - assert (Hfail : Some (lf_goto t (LfAllocHead (lf_free (ss_pool s))) (ss_pool s)) = Some p' ->
      (if is_idle p' t then Some (st_with t (st_at (StGot node) th) p' (construct (ss_pool s) node (ss_value s)) s)
       else Some (st_with t th p' (ss_value s) s)) = Some s' -> stress_inv ops s' (c + 1)).
    { intros [= <-]. erewrite (is_idle_at _ _ _ (LfAllocHead (lf_free (ss_pool s))) Hp) by reflexivity. intros [= <-]. by eapply st_alloc_on. }
    destruct spurious; [intros E; apply Hfail; [done|by destruct (is_idle p' t)]|].
    case_decide; [|intros E; apply Hfail; [done|by destruct (is_idle p' t)]]. injection Hex as <-.
    erewrite (is_idle_at _ _ _ LfIdle Hp) by reflexivity. intros [= <-].
    eapply (st_with_inv ops s c t th _ _ LfIdle); [done..| | |done|done].
    + unfold holds. cbn [sth_phase st_at lf_held]. rewrite Hph. solve_Permutation.
    + by eapply construct_kept.
Qed.

Lemma st_free_inv ops s c t spurious th node s' :
  stress_inv ops s c -> c + 1 < 2 ^ 64 -> ss_threads s !! t = Some th -> sth_phase th = StFreeing node ->
  st_exec ops t spurious s = Some s' -> stress_inv ops s' (c + 1).
Proof.
  intros Hi Hm Ht Hph. pose proof Hi as [Hpool Hc _ Hv Hmiss _].
  destruct (Forall2_lookup_l _ _ _ _ _ Hc Ht) as (pc & Hp & Hin). destruct (Forall_lookup_1 _ _ _ _ Hmiss Ht) as (Hmi & Hj0 & Hj); rewrite ?Hph in Hj.
  unfold st_exec. rewrite Ht. cbn [mbind option_bind]. rewrite Hph.
  destruct (lf_exec t (if spurious then LfSpurious else LfGo) (ss_pool s)) as [p'|] eqn:Hex; [|done]. cbn. intros [= <-].
  destruct (lf_exec_inv _ _ _ _ _ Hpool Hm Hex) as [Hi' Hcap].
  assert (exists pc', lf_threads p' = <[t := pc']> (lf_threads (ss_pool s)) /\ lf_held p' = lf_held (ss_pool s) /\
    (pc' = LfIdle \/ in_call th pc')) as (pc' & Hths & Hheld & Hpc').
  { unfold in_call in Hin |- *. rewrite Hph in Hin |- *. unfold lf_exec in Hex. rewrite Hp in Hex. cbn in Hex.
    destruct pc as [| | |i old|i old]; try done; destruct spurious; try done.
    - injection Hex as <-. eexists. split_and!; [done|done|by right].
    - injection Hex as <-. eexists. split_and!; [done|done|by right].
    - case_decide; injection Hex as <-; eexists; (split_and!; [done|done|auto]). }
  rewrite (is_idle_at _ _ _ _ Hp _ Hths).
  eapply (st_with_inv ops s c t th); [done..| | | | |].
  - destruct Hpc' as [->|Hin']; [done|]. unfold in_call in Hin' |- *. rewrite Hph in Hin'. destruct pc'; try done; by rewrite Hph.
  - rewrite Hheld. destruct pc'; unfold holds; cbn; by rewrite Hph.
  - intros t' th2 _ H2. by apply (Forall_lookup_1 _ _ _ _ Hv H2).
  - intros i. destruct pc'; cbn; congruence.
  - destruct pc'; (split; [done|]); cbn; rewrite ?Hph; lia.
Qed.

Lemma st_exec_inv ops s c t spurious s' :
  stress_inv ops s c -> c + 1 < 2 ^ 64 -> st_exec ops t spurious s = Some s' -> stress_inv ops s' (c + 1).
Proof.
  intros Hi Hm Hex. destruct (ss_threads s !! t) as [th|] eqn:Ht; [|unfold st_exec in Hex; by rewrite Ht in Hex].
  destruct (sth_phase th) as [| |node|node|node] eqn:Hph;
    [|by eapply st_alloc_inv| | |by eapply st_free_inv]; unfold st_exec in Hex; rewrite Ht in Hex; cbn in Hex; rewrite Hph in Hex.
  - destruct (Z.ltb_spec (sth_j th) ops); [|done].
    destruct (lf_exec t LfAlloc (ss_pool s)) as [p'|] eqn:E; [|done]. injection Hex as <-. by eapply st_begin_inv.
  - injection Hex as <-. by apply st_set_inv.
  - destruct (lf_exec t (LfFree node) (ss_pool s)) as [p'|] eqn:E; [|done]. injection Hex as <-. by eapply st_give_inv.
Qed.

Lemma st_run_inv ops sched s s' c :
  stress_inv ops s c -> c + len sched < 2 ^ 64 -> st_run ops sched s = Some s' -> stress_inv ops s' (c + len sched).
Proof.
  revert s c. induction sched as [|[t spurious] sched IH]; intros s c Hi Hm; cbn.
  { intros [= <-]. change (len []) with 0. by rewrite Z.add_0_r. }
  rewrite len_cons in *. pose proof (len_nonneg sched).
  destruct (st_exec ops t spurious s) as [s1|] eqn:E; cbn; [|done]. intros Hrun.
  replace (c + (1 + len sched)) with (c + 1 + len sched) by lia.
  eapply IH; [|lia|done]. eapply st_exec_inv; [done|lia|done].
Qed.

Lemma st_run_app ops sched1 sched2 s s1 : st_run ops sched1 s = Some s1 -> st_run ops (sched1 ++ sched2) s = st_run ops sched2 s1.
Proof.
  revert s. induction sched1 as [|[t b] sched1 IH]; intros s; cbn; [by intros [= <-]|].
  destruct (st_exec ops t b s) as [s2|]; [|done]. apply IH.
Qed.

Lemma st_run_length ops sched s s' : st_run ops sched s = Some s' -> length (ss_threads s') = length (ss_threads s).
Proof.
  revert s. induction sched as [|[t b] sched IH]; intros s; cbn; [by intros [= <-]|].
  destruct (st_exec ops t b s) as [s1|] eqn:E; [|done]. cbn. intros Hr. rewrite (IH _ Hr).
  unfold st_exec in E. destruct (ss_threads s !! t) as [th|]; [|done]. cbn in E.
  repeat (case_match || (destruct (lf_exec _ _ _) as [p|]; cbn in E)); simplify_eq; apply length_insert.
Qed.

Lemma stress_new_inv ops garbage capacity n s :
  Z.of_nat n <= capacity -> stress_new garbage capacity n = Ok s -> stress_inv ops s 0.
Proof.
  intros Hn. unfold stress_new. destruct (lf_init false garbage capacity n) as [p| |] eqn:E; try done. cbn. intros [= <-].
  destruct (lf_init_inv _ _ _ _ _ E) as [Hi Hcap]. unfold lf_init in E. destruct (negb _); [done|]. injection E as <-.
  split; cbn.
  - done.
  - apply Forall2_replicate. done.
  - symmetry. apply Permutation_nil_r. clear. by induction n.
  - apply Forall_replicate. intros i. done.
  - apply Forall_replicate. split; [done|]. cbn. lia.
  - by rewrite len_replicate.
Qed.

(** ** No thread is stuck *)

Lemma st_progress ops s c t th :
  stress_inv ops s c -> ss_threads s !! t = Some th -> st_finished ops th = false -> is_Some (st_exec ops t false s).
Proof.
  intros Hi Ht Hf. pose proof Hi as [Hpool Hc Hh _ _ _].
  destruct (Forall2_lookup_l _ _ _ _ _ Hc Ht) as (pc & Hp & Hin). pose proof Hpool as [_ Hd (free & _ & Hperm) Hpc].
  pose proof (Forall_lookup_1 _ _ _ _ Hpc Hp) as Hok.
  unfold st_exec, lf_exec, st_finished, in_call in *. rewrite Ht, Hp. cbn [mbind option_bind].
  destruct (sth_phase th) as [| |node|node|node] eqn:Hph; destruct pc as [|old|i k n|i old|i old]; try done.
  - rewrite Z.leb_gt in Hf. rewrite (proj2 (Z.ltb_lt _ _)) by done. cbn; by eexists.
  - destruct Hok as [_ Hok]. destruct (h_node old) as [node|] eqn:Hn; [|done].
    destruct (Hok node) as [m Hnext]; [first [exact Hn|reflexivity]|]. rewrite Hnext. cbn [mbind option_bind].
    cbn; by eexists.
  - case_decide; cbn; by eexists.
  - assert (Hin' : node ∈ lf_held (ss_pool s)).
    { rewrite Hh. apply list_elem_of_bind. exists th. split; [|by eapply list_elem_of_lookup_2].
      unfold holds. rewrite Hph. by left. }
    destruct (remove_first_is_Some node _ Hin') as [held ->]. cbn.
    assert (0 <= node < lf_cap (ss_pool s)) as [H1 H2].
    { assert (node ∈ seqZ 0 (lf_cap (ss_pool s))) as Hr; [|apply elem_of_seqZ in Hr; lia].
      rewrite <- Hperm. apply elem_of_app. right. apply elem_of_app. by left. }
    rewrite (proj2 (Z.leb_le _ _) H1), (proj2 (Z.ltb_lt _ _) H2). cbn; by eexists.
  - case_decide; cbn; by eexists.
Qed.

(** How much a thread that runs alone has to do: the exchange of what it
    remembers of the head fails once at most. *)
Definition call_left (head : head_ptr) (pc : lf_pc) : Z :=
  match pc with
  | LfIdle => 0
  | LfAllocNext node k _ => if decide (head = mk_head (Some node) k) then 1 else 3
  | LfFreeStored _ old => if decide (head = old) then 1 else 3
  | LfAllocHead old | LfFreeHead _ old => if decide (head = old) then 2 else 4
  end.
Definition work_left (ops : Z) (head : head_ptr) (th : stress_thread) (pc : lf_pc) : Z :=
  20 * (ops - sth_j th - 1) +
  match sth_phase th with
  | StNext => 20
  | StAllocating => 10 + call_left head pc
  | StGot _ => 9
  | StSet _ => 8
  | StFreeing _ => 3 + call_left head pc
  end.

Lemma call_left_bound head pc : 0 <= call_left head pc <= 4.
Proof. destruct pc; cbn; try case_decide; lia. Qed.

(** Each step of a thread that runs alone is progress. *)
Lemma st_alone ops s c t th pc s' :
  stress_inv ops s c -> ss_threads s !! t = Some th -> lf_threads (ss_pool s) !! t = Some pc ->
  st_exec ops t false s = Some s' ->
  exists th' pc', ss_threads s' = <[t := th']> (ss_threads s) /\ lf_threads (ss_pool s') !! t = Some pc' /\
    work_left ops (lf_free (ss_pool s')) th' pc' < work_left ops (lf_free (ss_pool s)) th pc.
Proof.
  intros Hi Ht Hp. pose proof Hi as [_ Hc _ _ _ _].
  destruct (Forall2_lookup_l _ _ _ _ _ Hc Ht) as (pc0 & Hp0 & Hin). rewrite Hp0 in Hp. simplify_eq.
  assert (Hat : forall x : lf_pc, <[t := x]> (lf_threads (ss_pool s)) !! t = Some x).
  { intros x. apply list_lookup_insert_eq. by eapply lookup_lt_Some. }
  unfold st_exec, lf_exec, in_call, work_left in *. rewrite Ht, Hp0. cbn [mbind option_bind].
  destruct (sth_phase th) as [| |node|node|node] eqn:Hph; destruct pc as [|old|i k n|i old|i old]; try done.
  - case_match; [|done]. intros [= <-]. eexists _, _. split; [done|]. split; [apply Hat|]. cbn.
    rewrite decide_True by done. lia.
  - destruct (h_node old) as [node|] eqn:Hn; [|done].
    destruct (lf_next (ss_pool s) !! node) as [m|]; [|done]. cbn [mbind option_bind].
    erewrite is_idle_at by (exact Hp0 || reflexivity). intros [= <-]. eexists _, _. split; [done|]. split; [apply Hat|].
    cbn. rewrite Hph. destruct old as [o k]. cbn in Hn |- *. subst o. case_decide; lia.
  - case_decide; cbn [mbind option_bind]; erewrite is_idle_at by (exact Hp0 || reflexivity).
    + unfold alloc_returns. rewrite Hp0. intros [= <-]. eexists _, _. split; [done|]. split; [apply Hat|]. cbn.
      rewrite decide_True by done. lia.
    + intros [= <-]. eexists _, _. split; [done|]. split; [apply Hat|]. cbn. rewrite Hph, decide_True, decide_False by done. lia.
  - intros [= <-]. eexists _, _. split; [done|]. split; [exact Hp0|]. cbn. lia.
  - destruct (remove_first node _); [|done]. cbn. destruct (negb _); [done|]. intros [= <-].
    eexists _, _. split; [done|]. split; [apply Hat|]. cbn. rewrite decide_True by done. lia.
  - cbn. erewrite is_idle_at by (exact Hp0 || reflexivity). intros [= <-]. eexists _, _. split; [done|]. split; [apply Hat|].
    cbn. rewrite Hph. case_decide; lia.
  - case_decide; cbn [mbind option_bind]; erewrite is_idle_at by (exact Hp0 || reflexivity); intros [= <-];
      (eexists _, _; split; [done|]; split; [apply Hat|]); cbn.
    + rewrite decide_True by done. lia.
    + rewrite Hph, decide_True, decide_False by done. lia.
Qed.

(** More than any thread has to do. *)
Definition round_bound (ops : Z) : Z := 20 * Z.max 0 ops + 4.
Lemma work_left_bound ops head th pc : in_loop ops th -> work_left ops head th pc <= round_bound ops.
Proof.
  intros (_ & Hj0 & Hj). unfold work_left, round_bound. pose proof (call_left_bound head pc).
  destruct (sth_phase th); lia.
Qed.

Lemma work_left_nonneg ops head th pc : in_loop ops th -> st_finished ops th = false -> 0 < work_left ops head th pc.
Proof.
  intros (_ & _ & Hj). unfold work_left, st_finished. pose proof (call_left_bound head pc).
  destruct (sth_phase th); rewrite ?Z.leb_gt; lia.
Qed.

Lemma st_alone_ends ops s c t th pc w :
  stress_inv ops s c -> ss_threads s !! t = Some th -> lf_threads (ss_pool s) !! t = Some pc ->
  work_left ops (lf_free (ss_pool s)) th pc <= w -> 0 <= w -> c + w < 2 ^ 64 ->
  exists sched s' th', len sched <= w /\ st_run ops sched s = Some s' /\ stress_inv ops s' (c + len sched) /\
    ss_threads s' = <[t := th']> (ss_threads s) /\ st_finished ops th' = true.
Proof.
  intros Hi Ht Hp Hw H0. revert s c th pc Hi Ht Hp Hw. pattern w. apply natlike_ind; [| |done]; clear w H0.
  { intros s c th pc Hi Ht Hp Hw Hm. exists [], s, th. change (len []) with 0. rewrite Z.add_0_r.
    destruct (st_finished ops th) eqn:E; [by rewrite list_insert_id|].
    pose proof (Forall_lookup_1 _ _ _ _ (sti_loop _ _ _ Hi) Ht) as Hl.
    pose proof (work_left_nonneg _ (lf_free (ss_pool s)) _ pc Hl E). lia. }
  intros w Hw0 IH s c th pc Hi Ht Hp Hw Hm. destruct (st_finished ops th) eqn:E.
  { exists [], s, th. change (len []) with 0. rewrite Z.add_0_r, list_insert_id by done. split; [lia|done]. }
  destruct (st_progress _ _ _ _ _ Hi Ht E) as [s1 E1].
  pose proof (st_exec_inv _ _ _ _ _ _ Hi ltac:(lia) E1) as Hi1.
  destruct (st_alone _ _ _ _ _ _ _ Hi Ht Hp E1) as (th1 & pc1 & Hths & Hp1 & Hlt).
  assert (Ht1 : ss_threads s1 !! t = Some th1) by (rewrite Hths; apply list_lookup_insert_eq; by eapply lookup_lt_Some).
  destruct (IH s1 (c + 1) th1 pc1 Hi1 Ht1 Hp1 ltac:(lia) ltac:(lia)) as (sched & s' & th' & Hl & Hrun & Hi' & Hths' & Hf).
  exists ((t, false) :: sched), s', th'. rewrite len_cons. split; [lia|]. cbn [st_run]. rewrite E1.
  split; [exact Hrun|]. split; [by replace (c + (1 + len sched)) with (c + 1 + len sched) by lia|].
  split; [|done]. by rewrite Hths', Hths, list_insert_insert_eq.
Qed.

(** One thread after the other. *)
Lemma st_all_end ops s c (k : nat) :
  stress_inv ops s c -> c + Z.of_nat k * round_bound ops < 2 ^ 64 -> (k <= length (ss_threads s))%nat ->
  exists sched s', len sched <= Z.of_nat k * round_bound ops /\ st_run ops sched s = Some s' /\
    stress_inv ops s' (c + len sched) /\ length (ss_threads s') = length (ss_threads s) /\
    forall t th, (t < k)%nat -> ss_threads s' !! t = Some th -> st_finished ops th = true.
Proof.
  intros Hi. induction k as [|k IH]; intros Hm Hk.
  { exists [], s. change (len []) with 0. rewrite Z.add_0_r. split_and!; [lia|done|done|done|lia]. }
  assert (0 <= round_bound ops) by (unfold round_bound; lia).
  destruct IH as (sched1 & s1 & Hl1 & Hr1 & Hi1 & Hlen & Hf1); [lia|lia|].
  destruct (lookup_lt_is_Some_2 (ss_threads s1) k) as [th Ht]; [lia|].
  destruct (Forall2_lookup_l _ _ _ _ _ (sti_call _ _ _ Hi1) Ht) as (pc & Hp & _).
  pose proof (work_left_bound _ (lf_free (ss_pool s1)) _ pc (Forall_lookup_1 _ _ _ _ (sti_loop _ _ _ Hi1) Ht)) as Hw.
  destruct (st_alone_ends _ _ _ _ _ _ (round_bound ops) Hi1 Ht Hp Hw) as (sched2 & s2 & th' & Hl2 & Hr2 & Hi2 & Hths & Hf2); [done|lia|].
  exists (sched1 ++ sched2), s2. rewrite len_app. split; [lia|]. split; [by rewrite (st_run_app _ _ _ _ _ Hr1)|].
  split; [by rewrite Z.add_assoc|]. rewrite Hths, length_insert. split; [done|].
  intros t th2 Hlt Ht2. apply list_lookup_insert_Some in Ht2 as [(<- & <- & _)|[Hne Ht2]]; [done|].
  eapply Hf1; [|done]. lia.
Qed.

(** With an object for each thread, at every interleaving and with exchanges
    failing for no reason: no call of [alloc] gives the null pointer, no object
    is two threads', what a thread wrote is in the object when it gives it back,
    the test can be finished from wherever it is, and when it is, every object is
    free again. *)
Lemma stress_test_ok ops garbage capacity n sched s0 s :
  Z.of_nat n <= capacity -> stress_new garbage capacity n = Ok s0 -> len sched + Z.of_nat n * round_bound ops < 2 ^ 64 ->
  st_run ops sched s0 = Some s ->
  Forall (fun th => sth_misses th = 0 /\ value_kept (ss_value s) th) (ss_threads s) /\
  NoDup (ss_threads s ≫= holds) /\
  (exists sched' s', st_run ops (sched ++ sched') s0 = Some s' /\ st_done ops s' = true) /\
  (st_done ops s = true -> exists free, chain id (lf_next (ss_pool s)) (h_node (lf_free (ss_pool s))) free /\
     free ≡ₚ seqZ 0 (lf_cap (ss_pool s))).
Proof.
  intros Hn H0 Hm Hrun. assert (0 <= round_bound ops) by (unfold round_bound; lia).
  pose proof (stress_new_inv ops _ _ _ _ Hn H0) as Hi0.
  assert (0 <= Z.of_nat n * round_bound ops) by nia.
  pose proof (st_run_inv ops sched s0 s 0 Hi0 ltac:(lia) Hrun) as Hi. rewrite Z.add_0_l in Hi.
  pose proof Hi as [Hpool Hc Hh Hv Hl _].
  split. { apply Forall_and. split; [|done]. eapply Forall_impl; [exact Hl|]. by intros th []. }
  split. { rewrite <- Hh. by eapply held_nodup. }
  split.
  - assert (Hlen : length (ss_threads s) = n).
    { rewrite (st_run_length _ _ _ _ Hrun). unfold stress_new in H0. destruct (lf_init _ _ _ _); try done. cbn in H0.
      injection H0 as <-. apply length_replicate. }
    destruct (st_all_end ops s _ n Hi ltac:(lia) ltac:(lia)) as (sched' & s' & _ & Hr' & _ & Hl' & Hf).
    exists sched', s'. split; [by rewrite (st_run_app _ _ _ _ _ Hrun)|].
    apply forallb_forall. intros th Ht%list_elem_of_In. apply list_elem_of_lookup in Ht as [t Ht]. apply (Hf t); [|done].
    apply lookup_lt_Some in Ht. lia.
  - intros Hd. destruct Hpool as [_ _ (free & Hch & Hperm) _]. exists free. split; [done|].
    rewrite <- Hperm. assert (Hnil : (ss_threads s ≫= holds) = [] /\ lf_threads (ss_pool s) ≫= returning = []).
    { clear -Hc Hd. unfold st_done in Hd. induction Hc as [|th pc ths pcs H _ IH]; [done|]. cbn in Hd.
      apply andb_true_iff in Hd as [H1 H2]. destruct (IH H2) as [E1 E2]. rewrite !bind_cons, E1, E2, !app_nil_r.
      unfold st_finished, in_call, holds in *. destruct (sth_phase th); try done. by destruct pc. }
    rewrite Hh, (proj1 Hnil), (proj2 Hnil). by rewrite app_nil_r.
Qed.

(** The test as it is written ends well. *)
Lemma stress_test_ends garbage : exists s0, stress_new garbage STRESS_CAPACITY STRESS_THREADS = Ok s0 /\
  exists sched s, st_run OPS_PER_THREAD sched s0 = Some s /\ st_done OPS_PER_THREAD s = true.
Proof.
  destruct (stress_new garbage STRESS_CAPACITY STRESS_THREADS) as [s0| |] eqn:E; [|discriminate E..].
  exists s0. split; [done|].
  destruct (stress_test_ok OPS_PER_THREAD garbage STRESS_CAPACITY STRESS_THREADS [] s0 s0 ltac:(by vm_compute) E ltac:(by vm_compute) eq_refl)
    as (_ & _ & (sched & s & H) & _). by exists sched, s.
Qed.

(** With fewer objects than threads a call is given none. *)
Example stress_test_short :
  exists s0 s, stress_new ∅ 1 2 = Ok s0 /\ st_run 1 [(0%nat, false); (0%nat, false); (0%nat, false); (1%nat, false); (1%nat, false)] s0 = Some s /\
    sth_misses <$> ss_threads s = [0; 1].
Proof. eexists _, _. split; [reflexivity|]. split; vm_compute; reflexivity. Qed.

(** When the memory of the pool holds anything but zeros, an object can be handed
    out that was never constructed. *)
Example stress_test_garbage :
  exists s0 s, stress_new {[0]} 1 1 = Ok s0 /\ st_run 1 (replicate 3 (0%nat, false)) s0 = Some s /\
    (sth_phase <$> ss_threads s) = [StGot 0] /\ ss_value s !! 0 = None.
Proof. eexists _, _. split; [reflexivity|]. split; [vm_compute; reflexivity|]. split; vm_compute; reflexivity. Qed.
