(* ===== verification/Dumps.v ===== *)
(** The texts of messages for the log (io/protocol.cpp, io/rpcdata.cpp,
    io/rpc.cpp: [dump] and [operator<<]), and the call with handlers of its own
    (io/rpc.h, [rpc_callback]). *)

From S2P Require Import Prelude Octets Marshal Session Protocol Rpc Text Format.

(** A class that overrides [dump]; the text is what it is to add to a stream
    that has the room. *)
Class Dump (A : Type) := dump : A -> OSS unit.
Class DumpOk (A : Type) `{!Dump A} := {
  dump_text : A -> list byte;
  dump_appends o bs a : octets_repr o bs -> len bs + len (dump_text a) < MAX_OCTETS ->
    exists o', dump a o = (o', Ok tt) /\ octets_repr o' (bs ++ dump_text a);
}.

(** [rpcdata::dump], for the classes that do not override it. *)
Definition rpcdata_dump {A} (data : A) : OSS unit := mret tt.

(** [operator<<] of [rpcdata] and of [protocol]. *)
Definition put_dump {A} `{!Dump A} (data : A) : OSS unit := dump data.

(** *** Messages *)

Definition protocol_dump {B} `{!ProtocolBody B} (p : protocol B) : OSS unit :=
  oss_put_all
    [PrCstr (str "type: "); PrInt (prot_type p); PrCstr [x0a];
     PrCstr (str "maxsize: "); PrInt (maxsize (prot_body p)); PrCstr [x0a];
     PrCstr (str "sid: "); PrInt (prot_sid p); PrCstr [x0a];
     PrCstr (str "priority: "); PrInt (prot_priority p); PrCstr [x0a]].
#[export] Instance protocol_is_dump {B} `{!ProtocolBody B} : Dump (protocol B) := protocol_dump.

(** *** Calls *)

Definition dump_pointer {A} `{!Dump A} (data : option A) : OSS unit :=
  match data with Some a => dump a | None => oss_put (PrCstr (str "nullptr")) end.

Section Calls.
Context {A R : Type} `{!Dump A, !Dump R}.

(** [type] is what the class says. *)
Definition rpc_dump (type : Z) (o : rpc A R) : OSS unit :=
  oss_put_all
    [PrCstr (str "rpc "); PrInt type; PrCstr (str " traceid="); PrInt (rp_traceid o);
     PrCstr (str " is_server="); PrBool (rp_is_server o)];;
  oss_put (PrCstr (str " result="));;
  dump_pointer (rp_result o);;
  oss_put (PrCstr (str " argument="));;
  dump_pointer (rp_argument o).

(** [rpc::timeout]: the text of the argument in the stream that the thread
    keeps. *)
Definition rpc_timeout (argument : option A) : OSS (list byte) :=
  oss_clear;;
  match argument with Some a => dump a | None => fail (UB "null rpcdata") end;;
  oss_c_str.

(** [rpc_callback]: what is done with an answer and with a timeout, given what
    the class does with a timeout. *)
Record rpc_callback (S : Type) := mk_rpc_callback {
  rcb_client_hdl : option (option A -> option R -> M S unit);
  rcb_timeout_hdl : option (option A -> M S unit);
}.
Arguments rcb_client_hdl {S}.
Arguments rcb_timeout_hdl {S}.

Definition rcb_client {S} (cb : rpc_callback S) (argument : option A) (result : option R) : M S unit :=
  match rcb_client_hdl cb with Some client_hdl => client_hdl argument result | None => mret tt end.
Definition rcb_timeout {S} (timeout : option A -> M S unit) (cb : rpc_callback S) (argument : option A) : M S unit :=
  match rcb_timeout_hdl cb with Some timeout_hdl => timeout_hdl argument | None => timeout argument end.

(** [rpc_callback::call]: a new object in the place of a copy of the stub. *)
Definition rpc_callback_call (get_timeout : rpc A R -> Z) (argument : A) : M (rpc_env A R) Z :=
  p ← rpc_new (mk_rpc 0 0 false (Some argument) None 0 0); set_request get_timeout p false;; mret p.
End Calls.

(** ** What is proved of them *)

Lemma oss_put_all_repr o bs vs t :
  octets_repr o bs -> stream_texts vs = Ok t -> len bs + len t < MAX_OCTETS ->
  exists o', oss_put_all vs o = (o', Ok tt) /\ octets_repr o' (bs ++ t).
Proof. intros Hr Ht Hm. destruct (stream_collects o bs vs t Hr Ht Hm) as (o' & H & Hr' & _). by exists o'. Qed.

(** Every member of the base class is in the text of a message. *)
#[export, program] Instance protocol_dump_ok {B} `{!ProtocolBody B} : DumpOk (protocol B) := {|
  dump_text p := str "type: " ++ to_string (prot_type p) ++ [x0a] ++
    str "maxsize: " ++ to_string (maxsize (prot_body p)) ++ [x0a] ++
    str "sid: " ++ to_string (prot_sid p) ++ [x0a] ++
    str "priority: " ++ to_string (prot_priority p) ++ [x0a]
|}.
Next Obligation.
  intros B HB o bs p Hr Hm. eapply oss_put_all_repr; [done| |exact Hm]. reflexivity.
Qed.

(** Two streams of values, one after the other. *)
Definition appends (c : OSS unit) (t : list byte) : Prop :=
  forall o bs, octets_repr o bs -> len bs + len t < MAX_OCTETS -> exists o', c o = (o', Ok tt) /\ octets_repr o' (bs ++ t).

Lemma appends_bind c k t1 t2 : appends c t1 -> appends k t2 -> appends (c;; k) (t1 ++ t2).
Proof.
  intros Hc Hk o bs Hr Hm. rewrite len_app in Hm. pose proof (len_nonneg t2).
  destruct (Hc o bs Hr ltac:(lia)) as (o1 & E1 & Hr1). rewrite (M_bind_ok _ _ _ _ _ E1), app_assoc.
  apply (Hk o1 _ Hr1). rewrite len_app. lia.
Qed.
Lemma appends_values vs t : stream_texts vs = Ok t -> appends (oss_put_all vs) t.
Proof. intros Ht o bs Hr Hm. by apply oss_put_all_repr. Qed.
Lemma appends_value v t : stream_text v = Ok t -> appends (oss_put v) t.
Proof. intros Ht o bs Hr Hm. apply oss_put_repr; [done..|lia]. Qed.

Section CallsLaws.
Context {A R : Type} `{!Dump A, !Dump R, !DumpOk A, !DumpOk R}.

Definition pointer_text {X} `{!Dump X, !DumpOk X} (x : option X) : list byte :=
  match x with Some a => dump_text a | None => str "nullptr" end.
Lemma dump_pointer_appends {X} `{!Dump X, !DumpOk X} (x : option X) : appends (dump_pointer x) (pointer_text x).
Proof. destruct x as [a|]; [exact (fun o bs => dump_appends o bs a)|by apply appends_value]. Qed.

Lemma rpc_dump_appends type (o : rpc A R) : appends (rpc_dump type o)
  ((str "rpc " ++ to_string type ++ str " traceid=" ++ to_string (rp_traceid o) ++
    str " is_server=" ++ (if rp_is_server o then str "true" else str "false")) ++
   str " result=" ++ pointer_text (rp_result o) ++ str " argument=" ++ pointer_text (rp_argument o)).
Proof.
  unfold rpc_dump. apply appends_bind.
  { apply appends_values. cbn [stream_texts stream_text value_to_string mbind outcome_bind].
    by rewrite (app_nil_r (if rp_is_server o then _ else _)). }
  do 3 (apply appends_bind; [first [by apply appends_value|apply dump_pointer_appends]|]).
  apply dump_pointer_appends.
Qed.

(** What the stream of the thread held before is gone, and the text ends at the
    first null character of the argument's. *)
Lemma rpc_timeout_text o bs (a : A) : octets_repr o bs -> len (dump_text a) < MAX_OCTETS ->
  (rpc_timeout (Some a) o).2 = Ok (c_string (dump_text a)).
Proof.
  intros Hr Hm. unfold rpc_timeout, oss_clear. rewrite M_modify.
  destruct (dump_appends (octets_clear o) [] a) as (o' & E & Hr'); [by eapply clear_repr|done|].
  rewrite (M_bind_ok _ _ _ _ _ E). by apply oss_c_str_repr.
Qed.

(** A call with handlers is pending as one made from a stub is. *)
Lemma rpc_callback_call_pending get_timeout argument (stub : rpc A R) :
  rp_traceid stub = 0 -> rp_proxy_traceid stub = 0 -> rp_is_server stub = false -> rp_sid stub = 0 -> rp_manager stub = 0 ->
  forall e, rpc_call get_timeout (Some stub) argument e = (p ← rpc_callback_call get_timeout argument; mret (Some p)) e.
Proof.
  destruct stub as [t pt srv a r sid m]. cbn [rp_traceid rp_proxy_traceid rp_is_server rp_sid rp_manager].
  intros -> -> -> -> -> e. unfold rpc_call, rpc_callback_call. unfold mbind, M_bind at 1 3 4.
  destruct (rpc_new _ e) as [e1 [p| |]]; [|done..]. unfold M_bind.
  by destruct (set_request get_timeout p false e1) as [e2 [[]| |]].
Qed.
End CallsLaws.
